(* ===== verification/_CoqProject ===== *)
-Q . S2P
Prelude.v
PyFloat.v
IntDivision.v
FloatOrder.v
PyTime.v
PySeq.v
Digest.v
PyStr.v
Prompts.v
Entities.v
BudgetAllocator.v
ParadigmRouter.v
FreshnessRouter.v
Ports.v
FrozenCaches.v
SyncMixer.v
AccessTracking.v
Tiering.v
RagPorts.v
CacheWarmedRetrieve.v
AssembleContext.v
Json.v
PyInt.v
PyUuid.v
MagDomain.v
JsonText.v
PyIso.v
Doubles.v
LlmJson.v
SemanticStore.v
MemoryEvolution.v
CascadeTiers.v
LatencyCascade.v
Sessions.v
UnifiedAnswer.v
DataSourceRepo.v
Ingestion.v
KVAllocators.v
SpeculativeDecode.v
BatchScheduling.v
Evictors.v
MultiTurn.v
EmbeddingCache.v
RagRetrieval.v
LlmReranker.v
Gating.v
Chunking.v
StructureChunker.v
DocumentStore.v
EpisodicStore.v
MemoryWriting.v
MemoryRetrieval.v
StateAware.v
ProceduralStore.v
WarmTier.v
Classifiers.v
Redis.v
WorkingMemory.v
RateLimit.v
Identity.v
MemoryIndexes.v
MemoryGraph.v
Uploads.v
Jobs.v
Serving.v
Resources.v
Offloading.v
Compressors.v
Pipelines.v
EvalMetrics.v
EvalRun.v
EvalScenarios.v
EvalReports.v
EvalCascade.v
EvalAblation.v
ModelServers.v
