(* ===== verification/Prelude.v ===== *)
(** * AI-augmented generation: a verification development

    The program (src/src) answers a question with three kinds of knowledge at
    once: CAG, documents preloaded into a language model's KV cache; MAG, what
    earlier conversations left in episodic, semantic and procedural memory; and
    RAG, documents retrieved from an index.  A meta-layer (src/src/orchestration)
    routes each question between them, keeps the three stores in step as sources
    change, and divides the context window; src/src/api serves it over HTTP to
    the tenants' users, src/src/workers ingests sources in the background, and
    src/evaluation measures the whole against its parts.

    Every file models the Python it names.  A dataclass is a Record, with a
    function [<Class>_init] where its constructor validates; an enum is an
    Inductive; a method that changes state is a function of type [stm S A], from
    a state to a result or a raised exception and the state it leaves, also when
    it raises; a pure function that may raise is a [res].  Floats are IEEE-754
    doubles computed bit for bit, timestamps are integers of microseconds, a
    [str] is its UTF-8 bytes, an int is Z.  An abstract base class is a type
    class over the state of its implementation, and the contract its clients
    rely on is a second class or a record beside it: clients are proved against
    the contract, implementations discharge it.  Everything computes, so each
    file ends in worked examples on which its theorems are applied.

    ** Files and what they model

    Python itself.
    - Prelude: results, the state monad, the exceptions, sorting, the generic
      lemmas and tactics.  PyFloat, FloatOrder, IntDivision: floats, that rounding
      is monotone, and [math.ceil(a / b)].  PyTime: datetime and timedelta.
      PySeq: slices, indices, ranges.  PyStr: str methods on UTF-8.  PyInt, PyUuid:
      [int(s)] and [uuid.UUID(s)].  Digest: SHA-256, uuid5 and a UUID's text.
      Json, JsonText: [json.loads] and [json.dumps] of what the program writes, and
      that one reads the other back.  PyIso: [isoformat] and [fromisoformat].  Redis:
      the commands used, with expiry.
    Orchestration (orchestration/domain, application, infrastructure).
    - Entities, Ports: entities.py, ports.py.  BudgetAllocator, ParadigmRouter,
      FreshnessRouter: the three pure domain services of those names.
    - FrozenCaches, SyncMixer, AccessTracking, Tiering: the caches, the batch
      invalidation cycles, the access counters and the hysteresis policies that
      move documents between paradigms.
    - CacheWarmedRetrieve, AssembleContext, CascadeTiers, LatencyCascade: serving
      from a warmed cache, packing the window, the three tiers, and the cascade
      over them with its timeouts and background completions as a step relation.
    - UnifiedAnswer: unified_answer_question.py, the whole turn over the pieces
      above.  Sessions: the sessions table, the budget recorder and
      answer_in_session.py.  StateAware, WarmTier, Classifiers: MAG's share of
      the layer, and the three query classifiers.
    - DataSourceRepo, Ingestion: the registry of sources, and ingest, refresh and
      review over registry, index, warmed cache and facts.
    RAG (rag/).
    - RagPorts, RagRetrieval, LlmReranker, Chunking, StructureChunker,
      DocumentStore, EmbeddingCache, Uploads: ports; retrievers, rerankers, fusion
      and question answering; the reranker that asks a model; chunkers, and the one
      that keeps headings and code fences; documents in Postgres and points in
      Qdrant; the LRU embedding cache under threads; uploads and searches.
    MAG (mag/).
    - MagDomain, LlmJson, Prompts, SemanticStore, EpisodicStore, ProceduralStore:
      entities and ports; reading a model's JSON; the prompts; the three Postgres
      repositories.  MemoryIndexes, MemoryGraph, WorkingMemory: the Qdrant
      collections, the Neo4j graph with its spreading activation, and the turns kept
      in Redis.
    - MemoryEvolution, MemoryWriting, MemoryRetrieval, Gating: the commands on
      facts, capture and consolidation, the queries and their fusion, and the
      gating strategies.
    CAG (cag/).
    - KVAllocators, SpeculativeDecode, BatchScheduling, Evictors, MultiTurn,
      Offloading, Compressors, Pipelines: the mechanisms around a KV cache, one
      file per port of cag/domain/ports.py, and the pipelines that combine them.
    - ModelServers: the vLLM clients and the Medusa heads, with the Ollama and Claude
      chat models of rag/infrastructure.
    Identity, API, workers.
    - RateLimit, Identity, Serving, Jobs: the limiter and the body ceiling; users,
      tokens and refresh; the routes and what surrounds them; background ingestion.
      Resources: api/dependencies.py's cached clients and their closing, and the
      pipeline api/unified_pipeline.py builds.
    Evaluation (src/evaluation).
    - EvalMetrics, EvalRun, EvalReports: the figures, the comparison of two
      strategies with its judges, and the reports to the character.  EvalScenarios,
      EvalAblation, EvalCascade: the success checks, the simulated feeds and the
      observed classifiers, the simulated days, and the cascade's measurements.
    Doubles holds the collaborators the examples run on.

    ** What the theorems show

    - The cascade: it implements a reference specification of its result whatever
      the order of events, its result is what its tiers reported, no task is
      orphaned, and it ends ([LatencyCascade]).
    - The turn: the prompt stays within the window, a question over its slice is
      refused first, the slices are the allocator's, and giving away the idle ones
      never costs a contributing paradigm tokens ([UnifiedAnswer],
      [BudgetAllocator], [AssembleContext]).
    - Stores in step: after an ingestion each source is where the router says and
      nowhere else, an ingestion takes effect, invalidation cycles settle, what a
      warmed cache or the warm tier serves is current ([Ingestion], [SyncMixer],
      [CacheWarmedRetrieve], [WarmTier]), and replacing a document never loses it
      ([DocumentStore]).
    - Memory: facts evolve without forgetting what they replace, consolidation
      drains its backlog, a user's results are remembered, classifiers answer
      with well-typed scores or a counted failure ([MemoryEvolution],
      [MemoryWriting], [StateAware], [Classifiers]).  The semantic index is refined
      by the set of current facts, working memory gives back what was recorded,
      procedures too, and spreading activation finds exactly what is near
      ([MemoryIndexes], [WorkingMemory], [ProceduralStore], [MemoryGraph]).
    - Isolation and access: sessions, jobs and retrieval stay with their owner or
      tenant, graph writes never link two tenants, a foreign session looks missing,
      registered users log in, a refresh token rotates, access tokens live fifteen
      minutes, the limiter's window and the client's address cannot be forged, a
      refused chat does no work, and no shared client is leaked ([Sessions], [Jobs],
      [RagRetrieval], [MemoryGraph], [Identity], [RateLimit], [Serving], [Resources]).
    - Mechanisms: speculative decoding is lossless, the paged pool conserves its
      blocks, evictors keep their budget, offloaders account for every fetch and
      the better ones pay, quantisation keeps outliers exactly and the rest in
      range, fusion ranks as its formula says, concurrent embeds agree, a code fence
      is never cut ([StructureChunker]).
    - Evaluation: both strategies are asked and judged alike, probes and pre-loads
      are tallied once, a marker tells a feed's versions apart, every row is probed
      on schedule, the allocator sweep compares token use within its windows
      ([EvalRun], [EvalMetrics], [EvalScenarios], [EvalAblation], [EvalCascade]).
    A theorem that exhibits a behaviour the code does not mean to have says so in
    its comment ([stale_read_leaves_old_text_cached],
    [provisioning_errors_are_told] and the lemmas named for what goes wrong).

    ** Fuel and bounds

    The JSON parser, the UTF-8 decoder and the string functions over it take the
    text's length as fuel and consume a character a step ([json_loads_fuel] and
    its like show it is enough).  [bisect_right] takes one more than the list's
    length and halves.  The fixed-size chunker's while loop takes fuel and returns
    None without it: a theorem says how much is enough for a positive step, and
    another that none is for a step of zero, where the code does not return.  The
    speculative decoder adds a token a round, so the budget is its fuel.  The
    cascade has no fuel: [cascade_terminates] bounds its steps by a measure.
    Integer widths matter only in floats and in the digit limit of [int]; both are
    kept.

    ** Parameters and assumptions

    Code outside the repository is a parameter: language and embedding models,
    tokenizers, NumPy's decomposition and PyTorch's forward pass, the C library's
    transcendental functions, Unicode's tables beyond what is written out, [repr] of
    a str and [str] of values a foreign payload may hold, ISO spellings the program
    does not write, jsonb's text, YAML files, the HTTP, Ollama and Claude servers,
    random draws, Argon2 and PyJWT, the vectors Qdrant keeps and finds nearest, the
    values Neo4j stores and holds equal, its new elements and the order of its rows,
    and Celery.  They may answer anything or raise unless a
    theorem names a hypothesis, and a witness instantiates it.  Postgres is its
    tables with the constraints and row-level security of src/alembic/versions:
    rows of other sessions that are not committed are not seen by unique checks,
    and rows that tie in an ORDER BY come in table order.  asyncio.gather runs its
    calls one after the other except in the cascade and the embedding cache, whose
    interleavings are modelled.  Typed Redis keys are separate spaces.  [sum] is
    CPython 3.11's.  A contiguous or paged extension that fails keeps what it had
    already done, as the code does.

    ** Not modelled

    sentence_transformers_embedder.py is one call of its library behind the
    EmbeddingModel port.  EmailStr is email-validator's.  src/alembic/versions is
    not run: the constraints and policies it creates are in the stores' models.  The
    RAG scripts of src/evaluation/scenarios (rag-*/run_*.py) and
    generate_routing_queries.py read a corpus, nest the modelled retrievers around
    one chat model that all of them and the answerer share, which RagRetrieval's
    states, one model a retriever, do not express, and print a report.  Of the
    orchestration scripts, the starting and seeding of containers is left out, and
    of api/dependencies.py and main.py the construction of objects, as is logging. *)

From Stdlib Require Import ZArith Lia.
From Stdlib Require Export Sorting.Sorted.
From stdpp Require Export base gmap sets strings option.
Export list_basics.list list_relations.list list_monad.list list_misc.list.

#[global] Set Default Goal Selector "!".
Open Scope Z_scope.

(** [uuid.UUID] values are the 128-bit integers they wrap. *)
Abbreviation uuid := Z (only parsing).

(** ** Python exceptions and results *)

(** The exceptions the modelled code raises, or lets through.  The last
    group are the program's own classes. *)
Inductive exn : Type :=
  | ValueError (msg : string)
  | TypeError (msg : string)
  | KeyError
  | IndexError
  | AttributeError
  | RuntimeError (msg : string)
  | OverflowError
  | ZeroDivisionError
  | TimeoutError
  | CancelledError
  | JSONDecodeError
  | BackendError (msg : string)
  | SessionNotFound (session_id : uuid)
  | ClassificationFailed
  | QueryExceedsBudget (query_tokens query_slice : Z)
  | ScopeMismatch (source_key : string) (has_user : bool)
  | IngestionJobNotFound (task_id : string)
  | RateLimitExceeded (limit remaining reset_at : Z) (key : string)
  | InvalidCredentials
  | EmailAlreadyRegistered (email : string)
  | TokenExpired
  | TokenAlreadyUsed
  | UnsupportedFileType (extension : string)
  | HTTPException (status_code : Z) (detail : string).

#[global] Instance exn_eq_dec : EqDecision exn.
Proof. solve_decision. Defined.

(** A Python expression returns a value or raises. *)
Inductive res (A : Type) : Type :=
  | Ret (a : A)
  | Raise (e : exn).
Arguments Ret {A} a.
Arguments Raise {A} e.

#[global] Instance res_ret : MRet res := λ A a, Ret a.
#[global] Instance res_bind : MBind res := λ A B f m,
  match m with Ret a => f a | Raise e => Raise e end.
#[global] Instance res_fmap : FMap res := λ A B f m,
  match m with Ret a => Ret (f a) | Raise e => Raise e end.

(** Stateful code: a step takes the state, returns a result and the state it
    leaves behind, which an exception does not roll back. *)
Definition stm (S A : Type) : Type := S → res A * S.

#[global] Instance stm_ret {S} : MRet (stm S) := λ A a s, (Ret a, s).
#[global] Instance stm_bind {S} : MBind (stm S) := λ A B f m s,
  match m s with
  | (Ret a, s') => f a s'
  | (Raise e, s') => (Raise e, s')
  end.

Definition raise {S A} (e : exn) : stm S A := λ s, (Raise e, s).
Definition get_st {S} : stm S S := λ s, (Ret s, s).
Definition put_st {S} (s : S) : stm S unit := λ _, (Ret tt, s).
Definition modify {S} (f : S → S) : stm S unit := λ s, (Ret tt, f s).
Definition lift_res {S A} (r : res A) : stm S A := λ s, (r, s).

(** [for x in l: ...] over a stateful body. *)
Fixpoint for_each {S A B} (l : list A) (body : A → stm S B) : stm S (list B) :=
  match l with
  | [] => mret []
  | x :: l' =>
      y ← body x;
      ys ← for_each l' body;
      mret (y :: ys)
  end.

(** Map over a list with a fallible function, stopping at the first raise. *)
Fixpoint res_mapM {A B} (f : A → res B) (l : list A) : res (list B) :=
  match l with
  | [] => Ret []
  | x :: l' => y ← f x; ys ← res_mapM f l'; Ret (y :: ys)
  end.

Lemma res_mapM_Forall {A B} (f : A → res B) (Q : B → Prop) l out :
  (∀ x y, f x = Ret y → Q y) → res_mapM f l = Ret out → Forall Q out.
Proof.
  intros Hf. revert out. induction l as [|x l IH]; intros out; cbn [res_mapM]; [by intros [= <-]|].
  destruct (f x) as [y|e] eqn:Hy; cbn [mbind res_bind]; [|done].
  destruct (res_mapM f l) as [ys|e] eqn:Hys; cbn [mbind res_bind]; [|done]. intros [= <-]. constructor; eauto.
Qed.

Lemma res_mapM_elem {A B} (f : A → res B) l ys y :
  res_mapM f l = Ret ys → y ∈ ys ↔ ∃ x, x ∈ l ∧ f x = Ret y.
Proof.
  revert ys. induction l as [|x l IH]; intros ys; simpl.
  - intros [= <-]. split; [intros Hy; by apply not_elem_of_nil in Hy|].
    intros (x & Hx & _). by apply not_elem_of_nil in Hx.
  - destruct (f x) as [z|e] eqn:Hf; [|done]. simpl.
    destruct (res_mapM f l) as [zs|e] eqn:Hl; [|done]. intros [= <-].
    rewrite elem_of_cons, (IH zs eq_refl). split.
    + intros [->|(a & Ha & Hfa)]; [exists x|exists a]; (split; [|done]); [by left|by right].
    + intros (a & [->|Ha]%elem_of_cons & Hfa); [left; congruence|right; by exists a].
Qed.

Lemma res_mapM_lookup {A B} (f : A → res B) l ys : res_mapM f l = Ret ys →
  length ys = length l ∧ ∀ (k : nat) x, l !! k = Some x → ∃ y, ys !! k = Some y ∧ f x = Ret y.
Proof.
  revert ys. induction l as [|x l IH]; intros ys; simpl; [by intros [= <-]|].
  destruct (f x) as [z|e] eqn:Hf; [|done]. simpl. destruct (res_mapM f l) as [zs|e]; [|done]. intros [= <-].
  destruct (IH zs eq_refl) as [Hlen Hall]. split; [simpl; lia|]. intros [|k] x' Hx; [|by apply Hall]. injection Hx as <-. by exists z.
Qed.

Lemma res_mapM_total {A B} (f : A → res B) l : (∀ x, x ∈ l → ∃ y, f x = Ret y) → ∃ ys, res_mapM f l = Ret ys.
Proof.
  induction l as [|x l IH]; intros Hf; [by eexists|]. destruct (Hf x ltac:(by left)) as [y Hy]. destruct IH as [ys Hys]; [intros z Hz; apply Hf; by right|].
  exists (y :: ys). cbn [res_mapM]. rewrite Hy. cbn [mbind res_bind]. by rewrite Hys.
Qed.

(** What a map that returns keeps of each element. *)
Lemma res_mapM_image {A B C} (f : A → res B) (h : B → C) (k : A → C) l ys :
  (∀ x y, f x = Ret y → h y = k x) → res_mapM f l = Ret ys → map h ys = map k l.
Proof.
  intros Hf. revert ys. induction l as [|x l IH]; intros ys; cbn [res_mapM]; [by intros [= <-]|].
  destruct (f x) as [y|e] eqn:Hy; cbn [mbind res_bind]; [|done]. destruct (res_mapM f l) as [zs|e]; cbn [mbind res_bind]; [|done].
  intros [= <-]. cbn [map]. f_equal; auto.
Qed.

Create HintDb pyfloat.

(** Membership in an explicit list. *)
Ltac in_list :=
  repeat match goal with
    | H : context [_ ∈ _ :: _] |- _ => rewrite elem_of_cons in H
    | |- context [_ ∈ _ :: _] => rewrite elem_of_cons
    end; tauto.

Lemma nodup_map_filter {A B} (f : A → B) (P : A → bool) l : NoDup (map f l) → NoDup (map f (List.filter P l)).
Proof.
  induction l as [|x l IH]; [done|]. cbn. intros [Hx Hl]%NoDup_cons. destruct (P x); [|by apply IH]. cbn. apply NoDup_cons. split; [|by apply IH].
  intros (y & Heq & Hin)%list_elem_of_fmap. apply Hx, list_elem_of_fmap. exists y. split; [done|]. apply list_elem_of_In in Hin. apply list_elem_of_In. exact (proj1 (proj1 (filter_In _ _ _) Hin)).
Qed.

(** ** Sorting the way [sorted] does: stably *)

Section sorting.
Context {A : Type} (le : A → A → bool).

(** Insert before the first element that is not strictly smaller, so an
    element that came earlier stays in front of its equals. *)
Fixpoint insert_by (x : A) (l : list A) : list A :=
  match l with
  | [] => [x]
  | y :: l' => if le x y then x :: y :: l' else y :: insert_by x l'
  end.

Definition sort_by (l : list A) : list A := foldr insert_by [] l.

Lemma insert_by_perm x l : insert_by x l ≡ₚ x :: l.
Proof.
  induction l as [|y l IH]; simpl; [done|].
  destruct (le x y); [done|]. by rewrite IH, Permutation_swap.
Qed.

Lemma sort_by_perm l : sort_by l ≡ₚ l.
Proof. induction l as [|x l IH]; simpl; [done|]. by rewrite insert_by_perm, IH. Qed.

Lemma sort_by_length l : length (sort_by l) = length l.
Proof. by rewrite sort_by_perm. Qed.

Lemma elem_of_sort_by x l : x ∈ sort_by l ↔ x ∈ l.
Proof. by rewrite sort_by_perm. Qed.

(** The order only has to be a total preorder on the sorted elements. *)
Definition total_on (l : list A) : Prop :=
  ∀ x y, x ∈ l → y ∈ l → le x y = true ∨ le y x = true.
Definition trans_on (l : list A) : Prop :=
  ∀ x y z, x ∈ l → y ∈ l → z ∈ l →
    le x y = true → le y z = true → le x z = true.

Lemma insert_by_sorted x l :
  total_on (x :: l) → trans_on (x :: l) →
  StronglySorted (λ a b, le a b = true) l →
  StronglySorted (λ a b, le a b = true) (insert_by x l).
Proof.
  induction l as [|y l IH]; intros Htot Htr Hs; simpl.
  - repeat constructor.
  - apply StronglySorted_inv in Hs as [Hs Hall].
    destruct (le x y) eqn:Hxy.
    + constructor; [by constructor|]. constructor; [done|].
      rewrite list.Forall_forall in Hall |- *. intros z Hz.
      eapply (Htr x y z); [in_list..|done|by auto].
    + constructor.
      * apply IH; [..|done].
        -- intros a b Ha Hb. apply Htot; in_list.
        -- intros a b c Ha Hb Hc. apply Htr; in_list.
      * rewrite list.Forall_forall in Hall |- *. intros z Hz.
        rewrite insert_by_perm in Hz.
        apply elem_of_cons in Hz as [->|Hz]; [|auto].
        destruct (Htot x y) as [?|?]; [in_list..|congruence|done].
Qed.

Lemma sort_by_sorted l :
  total_on l → trans_on l → StronglySorted (λ a b, le a b = true) (sort_by l).
Proof.
  induction l as [|x l IH]; intros Htot Htr; simpl; [constructor|].
  apply insert_by_sorted.
  - intros a b Ha Hb. apply Htot; rewrite sort_by_perm in *; in_list.
  - intros a b c Ha Hb Hc. apply Htr; rewrite sort_by_perm in *; in_list.
  - apply IH; [intros a b Ha Hb; apply Htot; in_list|].
    intros a b c Ha Hb Hc. apply Htr; in_list.
Qed.

(** Stability: elements of one equivalence class keep their order. *)
Definition eqv (a b : A) : bool := le a b && le b a.

Lemma sort_by_stable (c : A) l :
  total_on (c :: l) → trans_on (c :: l) →
  filter (λ x, Is_true (eqv c x)) (sort_by l) = filter (λ x, Is_true (eqv c x)) l.
Proof.
  assert (Hins : ∀ x l, total_on (c :: x :: l) → trans_on (c :: x :: l) →
    filter (λ x, Is_true (eqv c x)) (insert_by x l)
    = filter (λ x, Is_true (eqv c x)) (x :: l)).
  { intros x l0 Htot Htr. induction l0 as [|y l0 IH]; simpl; [done|].
    destruct (le x y) eqn:Hxy; [done|].
    rewrite filter_cons, IH; cycle 1.
    - intros a b Ha Hb. apply Htot; in_list.
    - intros a b d Ha Hb Hd. apply Htr; in_list.
    - rewrite !filter_cons.
      case_decide as Hy; [|done]. case_decide as Hx; [|done]. exfalso.
      apply Is_true_true in Hx, Hy. unfold eqv in *.
      apply andb_true_iff in Hx as [Hcx Hxc], Hy as [Hcy Hyc].
      assert (le x y = true); [|congruence].
      eapply (Htr x c y); [in_list..|done|done]. }
  induction l as [|x l IH]; intros Htot Htr; simpl; [done|].
  rewrite Hins, !filter_cons, IH; [done|..].
  - intros a b Ha Hb. apply Htot; in_list.
  - intros a b d Ha Hb Hd. apply Htr; in_list.
  - intros a b Ha Hb. rewrite sort_by_perm in *. apply Htot; in_list.
  - intros a b d Ha Hb Hd. rewrite sort_by_perm in *. apply Htr; in_list.
Qed.
End sorting.

(** Sums of integer lists. *)
Definition zsum (l : list Z) : Z := foldr Z.add 0 l.

Lemma zsum_app l1 l2 : zsum (l1 ++ l2) = zsum l1 + zsum l2.
Proof. induction l1; simpl; unfold zsum in *; simpl in *; lia. Qed.

Lemma zsum_perm l1 l2 : l1 ≡ₚ l2 → zsum l1 = zsum l2.
Proof. induction 1; unfold zsum in *; simpl in *; lia. Qed.

(** Predicates that agree on the members filter alike. *)
Lemma list_filter_in {A} (P Q : A → Prop) `{∀ x, Decision (P x), ∀ x, Decision (Q x)} (l : list A) :
  (∀ x, x ∈ l → (P x ↔ Q x)) → filter P l = filter Q l.
Proof.
  induction l as [|x l IH]; intros Hl; [done|]. rewrite !filter_cons.
  rewrite IH by (intros y Hy; apply Hl; by right). specialize (Hl x ltac:(by left)).
  destruct (decide (P x)), (decide (Q x)); naive_solver.
Qed.

(** Filtering by a predicate everything, or nothing, satisfies. *)
Section filtering.
Context {A : Type} (P : A → Prop) `{∀ x, Decision (P x)}.

Lemma list_filter_all l : Forall P l → filter P l = l.
Proof.
  induction 1 as [|x l Hx _ IH]; [done|]. by rewrite filter_cons_True, IH.
Qed.

Lemma list_filter_none l : Forall (λ x, ¬ P x) l → filter P l = [].
Proof.
  induction 1 as [|x l Hx _ IH]; [done|]. by rewrite filter_cons_False, IH.
Qed.
End filtering.

(** ** Composing stateful objects *)

(** A call on one of two objects held side by side. *)
Definition on_fst {S1 S2 A} (m : stm S1 A) : stm (S1 * S2) A := λ s,
  let '(r, s1) := m s.1 in (r, (s1, s.2)).
Definition on_snd {S1 S2 A} (m : stm S2 A) : stm (S1 * S2) A := λ s,
  let '(r, s2) := m s.2 in (r, (s.1, s2)).

(** Unfold the state monad, one bind at a time. *)
Ltac stm_simpl :=
  cbn [mbind mret stm_bind stm_ret res_bind res_ret raise get_st put_st modify lift_res
       on_fst on_snd fst snd fmap res_fmap option_fmap option_map].

Lemma stm_bind_eq {S A B} (m : stm S A) (f : A → stm S B) s a s' :
  m s = (Ret a, s') → (m ≫= f) s = f a s'.
Proof. intros H. unfold mbind, stm_bind. by rewrite H. Qed.

Lemma stm_bind_raise {S A B} (m : stm S A) (f : A → stm S B) s e s' :
  m s = (Raise e, s') → (m ≫= f) s = (Raise e, s').
Proof. intros H. unfold mbind, stm_bind. by rewrite H. Qed.

(** A bind that returns returned twice. *)
Lemma stm_bind_inv {S A B} (m : stm S A) (f : A → stm S B) s b s' :
  (m ≫= f) s = (Ret b, s') → ∃ a s1, m s = (Ret a, s1) ∧ f a s1 = (Ret b, s').
Proof. unfold mbind, stm_bind. destruct (m s) as [[a|e] s1]; [by exists a, s1|done]. Qed.

(** Either the first part raises, or the second runs on what it returns. *)
Lemma stm_bind_case {S A B} (m : stm S A) (f : A → stm S B) s r s' : (m ≫= f) s = (r, s') →
  (∃ e, r = Raise e ∧ m s = (Raise e, s')) ∨ ∃ a s1, m s = (Ret a, s1) ∧ f a s1 = (r, s').
Proof. unfold mbind, stm_bind. destruct (m s) as [[a|e] s1]; [by eauto|intros [= <- <-]; eauto]. Qed.

Lemma stm_lift_bind {S A B} (a : A) (f : A → stm S B) s : (lift_res (Ret a) ≫= f) s = f a s.
Proof. done. Qed.

(** Step through a bind whose first call is known. *)
Ltac stm_step H := rewrite (stm_bind_eq _ _ _ _ _ H).

(** Name the result and the state of the call the goal runs. *)
Ltac stm_run r s' :=
  match goal with |- context [match ?x with (_, _) => _ end] => destruct x as [r s'] end.

(** An invariant an operation keeps, whatever it returns. *)
Definition preserves {S A} (I : S → Prop) (m : stm S A) : Prop := ∀ s, I s → I (m s).2.

Lemma preserves_ret {S A} (I : S → Prop) (a : A) : preserves I (mret a : stm S A).
Proof. by intros s Hs. Qed.
Lemma preserves_lift {S A} (I : S → Prop) (r : res A) : preserves I (lift_res r : stm S A).
Proof. by intros s Hs. Qed.
Lemma preserves_raise {S A} (I : S → Prop) e : preserves I (raise e : stm S A).
Proof. by intros s Hs. Qed.
Lemma preserves_bind {S A B} (I : S → Prop) (m : stm S A) (f : A → stm S B) :
  preserves I m → (∀ a, preserves I (f a)) → preserves I (m ≫= f).
Proof.
  intros Hm Hf s Hs. unfold mbind, stm_bind. specialize (Hm s Hs).
  destruct (m s) as [[a|e] s']; simpl in *; [by apply Hf|done].
Qed.

Create HintDb invariants.
#[export] Hint Resolve preserves_ret preserves_lift preserves_raise preserves_bind : invariants.

(** ** Hoare triples *)

(** From [P] the code returns into [Q] or raises into [E]. *)
Definition triple {S A} (P : S → Prop) (m : stm S A) (Q : A → S → Prop) (E : S → Prop) : Prop :=
  ∀ s, P s → match m s with (Ret a, s') => Q a s' | (Raise _, s') => E s' end.

Lemma triple_ret {S A} (P : S → Prop) (a : A) (Q : A → S → Prop) E :
  (∀ s, P s → Q a s) → triple P (mret a) Q E.
Proof. intros HQ s Hs. by apply HQ. Qed.

Lemma triple_raise {S A} (P E : S → Prop) e (Q : A → S → Prop) :
  (∀ s, P s → E s) → triple P (raise e) Q E.
Proof. intros HE s Hs. by apply HE. Qed.

Lemma triple_lift {S A} (P E : S → Prop) (r : res A) (Q : A → S → Prop) :
  (∀ s a, P s → r = Ret a → Q a s) → (∀ s, P s → E s) → triple P (lift_res r) Q E.
Proof. intros HQ HE s Hs. unfold lift_res. destruct r; [by apply HQ|by apply HE]. Qed.

Lemma triple_bind {S A B} (P : S → Prop) (m : stm S A) (f : A → stm S B) Q R E :
  triple P m R E → (∀ a, triple (R a) (f a) Q E) → triple P (m ≫= f) Q E.
Proof.
  intros Hm Hf s Hs. specialize (Hm s Hs). unfold mbind, stm_bind.
  destruct (m s) as [[a|e] s1]; [by apply Hf|done].
Qed.

Lemma triple_conseq {S A} (P P' : S → Prop) (m : stm S A) (Q Q' : A → S → Prop) E :
  triple P' m Q' E → (∀ s, P s → P' s) → (∀ a s, Q' a s → Q a s) → triple P m Q E.
Proof.
  intros Hm HP HQ s Hs. specialize (Hm s (HP s Hs)). destruct (m s) as [[a|e] s1]; [by apply HQ|done].
Qed.

(** An invariant kept is a triple either way. *)
Lemma triple_preserves {S A} (I : S → Prop) (m : stm S A) : triple I m (λ _, I) I ↔ preserves I m.
Proof.
  split; intros Hm s Hs; specialize (Hm s Hs); destruct (m s) as [[a|e] s1]; done.
Qed.

(** ** Insertion-ordered dicts *)

(** A Python dict whose iteration order matters: an association list without
    repeated keys.  Assigning to a present key keeps its place, a new key goes
    last, and deleting then re-adding moves it to the end. *)
Section odict.
Context {K V : Type} `{EqDecision K}.

Definition od_get (k : K) (d : list (K * V)) : option V :=
  snd <$> head (filter (λ kv, kv.1 = k) d).

Fixpoint od_set (k : K) (v : V) (d : list (K * V)) : list (K * V) :=
  match d with
  | [] => [(k, v)]
  | (k', v') :: d' => if decide (k' = k) then (k, v) :: d' else (k', v') :: od_set k v d'
  end.

Definition od_del (k : K) (d : list (K * V)) : list (K * V) := filter (λ kv, kv.1 ≠ k) d.

Definition od_keys (d : list (K * V)) : list K := map fst d.

Lemma od_get_cons k k' v d :
  od_get k ((k', v) :: d) = if decide (k' = k) then Some v else od_get k d.
Proof. unfold od_get. rewrite filter_cons. simpl. by case_decide. Qed.

Lemma od_get_set k k' v d : od_get k (od_set k' v d) = if decide (k' = k) then Some v else od_get k d.
Proof.
  induction d as [|[j w] d IH]; cbn [od_set].
  - by rewrite od_get_cons.
  - destruct (decide (j = k')) as [->|]; rewrite !od_get_cons, ?IH;
      destruct (decide (k' = k)) as [->|]; try done; by rewrite decide_False.
Qed.

Lemma od_get_del k k' d : od_get k (od_del k' d) = if decide (k' = k) then None else od_get k d.
Proof.
  unfold od_del. induction d as [|[j w] d IH].
  - unfold od_get. simpl. by case_decide.
  - rewrite filter_cons. cbn [fst]. rewrite od_get_cons.
    destruct (decide (j ≠ k')) as [Hj|Hj]; rewrite ?od_get_cons, ?IH;
      destruct (decide (k' = k)) as [->|]; try done; [by rewrite decide_False|].
    rewrite decide_False; [done|]. intros ->. by apply Hj; intros ->.
Qed.

Lemma od_get_None k d : od_get k d = None ↔ k ∉ od_keys d.
Proof.
  induction d as [|[j w] d IH]; [set_solver|]. rewrite od_get_cons. simpl.
  rewrite not_elem_of_cons. case_decide; naive_solver.
Qed.

Lemma od_get_elem k v d : od_get k d = Some v → (k, v) ∈ d.
Proof.
  induction d as [|[j w] d IH]; [done|]. rewrite od_get_cons. destruct (decide (j = k)) as [->|]; [intros [= <-]; by left|]. intros Hd. right. auto.
Qed.

Lemma od_get_in k v d : NoDup (od_keys d) → (k, v) ∈ d → od_get k d = Some v.
Proof.
  induction d as [|[j w] d IH]; [by intros _ ?%not_elem_of_nil|]. cbn [od_keys map fst].
  intros [Hj Hnd]%NoDup_cons [[= <- <-]|Hin]%elem_of_cons; rewrite od_get_cons; [by rewrite decide_True|].
  rewrite decide_False; [by apply IH|]. intros ->. apply Hj. unfold od_keys. change (map fst d) with (fst <$> d).
  apply list_elem_of_fmap. by exists (k, v).
Qed.

Lemma od_keys_set k v d :
  od_keys (od_set k v d) = if decide (k ∈ od_keys d) then od_keys d else od_keys d ++ [k].
Proof.
  induction d as [|[j w] d IH]; cbn [od_set].
  - rewrite decide_False; [done|]. apply not_elem_of_nil.
  - destruct (decide (j = k)) as [->|Hne]; cbn [od_keys map fst].
    + rewrite decide_True; [done|by left].
    + fold (od_keys (od_set k v d)) (od_keys d). rewrite IH.
      destruct (decide (k ∈ od_keys d)) as [Hk|Hk].
      * rewrite decide_True; [done|by right].
      * rewrite decide_False; [done|]. rewrite not_elem_of_cons. by split.
Qed.

Lemma od_set_nodup k v d : NoDup (od_keys d) → NoDup (od_keys (od_set k v d)).
Proof.
  intros Hd. rewrite od_keys_set. case_decide; [done|].
  apply NoDup_app. split; [done|]. split; [|apply NoDup_singleton].
  intros x Hx ->%list_elem_of_singleton. done.
Qed.

Lemma od_del_nodup k d : NoDup (od_keys d) → NoDup (od_keys (od_del k d)).
Proof.
  unfold od_del, od_keys. induction d as [|[j w] d IH]; [done|].
  intros [Hj Hd]%NoDup_cons. rewrite filter_cons. case_decide; [|by apply IH].
  simpl. apply NoDup_cons. split; [|by apply IH]. intros Hin. apply Hj.
  apply list_elem_of_fmap in Hin as ([x y] & -> & Hin).
  apply list_elem_of_filter in Hin as [_ Hin]. apply list_elem_of_fmap. by exists (x, y).
Qed.

(** A dict comprehension: the pairs assigned one after the other. *)
Definition od_of_list (l : list (K * V)) : list (K * V) := foldl (λ d p, od_set p.1 p.2 d) [] l.

Lemma od_set_fresh k v d : k ∉ od_keys d → od_set k v d = d ++ [(k, v)].
Proof.
  induction d as [|[j w] d IH]; [done|]. intros [Hj Hd]%not_elem_of_cons. cbn [od_set app].
  rewrite decide_False by (by intros ->). by rewrite IH.
Qed.

Lemma od_of_list_nodup l : NoDup (map fst l) → od_of_list l = l.
Proof.
  unfold od_of_list. change l with ([] ++ l) at 1 3. generalize (@nil (K * V)) as acc.
  induction l as [|[k v] l IH]; intros acc; simpl; [by rewrite app_nil_r|].
  rewrite map_app. intros Hnd. rewrite od_set_fresh.
  - rewrite IH; [by rewrite <- (assoc_L (++))|].
    rewrite !map_app, <- (assoc_L (++)). done.
  - intros Hin. apply NoDup_app in Hnd as (_ & Hd & _). apply (Hd k); [done|]. by left.
Qed.
End odict.

(** ** Sorted lists *)

Lemma StronglySorted_filter {A} (R : A → A → Prop) (P : A → Prop) `{∀ x, Decision (P x)} l :
  StronglySorted R l → StronglySorted R (filter P l).
Proof.
  induction 1 as [|x l _ IH Hall]; [constructor|]. rewrite filter_cons.
  destruct (decide (P x)); [|done]. constructor; [done|].
  rewrite list.Forall_forall in *. intros y [_ Hy]%list_elem_of_filter. by apply Hall.
Qed.

Lemma StronglySorted_app_inv {A} (R : A → A → Prop) l1 l2 :
  StronglySorted R (l1 ++ l2) →
  StronglySorted R l1 ∧ StronglySorted R l2 ∧ ∀ x y, x ∈ l1 → y ∈ l2 → R x y.
Proof.
  induction l1 as [|x l1 IH]; simpl; intros Hs.
  - split; [constructor|]. split; [done|]. intros x y Hx. by apply not_elem_of_nil in Hx.
  - apply StronglySorted_inv in Hs as [Hs Hall]. destruct (IH Hs) as (H1 & H2 & H3).
    rewrite list.Forall_forall in Hall. split; [|split; [done|]].
    + constructor; [done|]. rewrite list.Forall_forall. intros y Hy. apply Hall, elem_of_app. by left.
    + intros a b [->|Ha]%elem_of_cons Hb; [|by apply H3]. apply Hall, elem_of_app. by right.
Qed.

Lemma StronglySorted_map {A B} (R : B → B → Prop) (f : A → B) l :
  StronglySorted (λ a b, R (f a) (f b)) l → StronglySorted R (map f l).
Proof.
  induction 1 as [|x l _ IH Hall]; simpl; constructor; [done|].
  rewrite list.Forall_forall in Hall. rewrite list.Forall_forall. intros y (a & -> & Ha)%list_elem_of_fmap. by apply Hall.
Qed.

(** A relation that agrees with the sorting one on the list's elements. *)
Lemma StronglySorted_sublist {A} (R : A → A → Prop) l k : l `sublist_of` k → StronglySorted R k → StronglySorted R l.
Proof.
  induction 1 as [|x l k Hsub IH|x l k Hsub IH]; intros Hs; [done|..]; apply StronglySorted_inv in Hs as [Hs Hall].
  - constructor; [by apply IH|]. rewrite list.Forall_forall in *. intros y Hy. apply Hall. by eapply sublist_subseteq.
  - by apply IH.
Qed.


Lemma StronglySorted_map_inv {A B} (R : B → B → Prop) (f : A → B) l :
  StronglySorted R (map f l) → StronglySorted (λ a b, R (f a) (f b)) l.
Proof.
  induction l as [|x l IH]; simpl; intros Hs; [constructor|]. apply StronglySorted_inv in Hs as [Hs Hall].
  constructor; [by apply IH|]. exact (proj1 (List.Forall_map _ _ _) Hall).
Qed.

Lemma StronglySorted_impl {A} (R S : A → A → Prop) l :
  (∀ x y, x ∈ l → y ∈ l → R x y → S x y) → StronglySorted R l → StronglySorted S l.
Proof.
  intros HRS Hs. induction Hs as [|x l Hs IH Hall]; [constructor|].
  rewrite list.Forall_forall in Hall. constructor.
  - apply IH. intros a b Ha Hb. apply HRS; by right.
  - rewrite list.Forall_forall. intros y Hy. apply HRS; [by left|by right|by apply Hall].
Qed.

Lemma Forall2_impl_in {A B} (P Q : A → B → Prop) l k :
  Forall2 P l k → (∀ x y, x ∈ l → y ∈ k → P x y → Q x y) → Forall2 Q l k.
Proof.
  induction 1 as [|x y l k Hxy _ IH]; intros Himp; constructor.
  - apply Himp; [in_list..|done].
  - apply IH. intros a b Ha Hb. apply Himp; in_list.
Qed.

Lemma on_snd_fst {S1 S2 A} (m : stm S2 A) (s : S1 * S2) : (on_snd m s).2.1 = s.1.
Proof. unfold on_snd. by destruct (m s.2). Qed.

(** ** What a call can return *)

(** Whatever the state, a value returned satisfies [Q]. *)
Definition yields {S A} (Q : A → Prop) (m : stm S A) : Prop :=
  ∀ s, match (m s).1 with Ret a => Q a | Raise _ => True end.

Lemma yields_ret {S A} (Q : A → Prop) (a : A) : Q a → yields Q (mret a : stm S A).
Proof. by intros HQ s. Qed.
Lemma yields_any {S A} (m : stm S A) : yields (λ _, True) m.
Proof. intros s. by destruct (m s).1. Qed.
Lemma yields_lift {S A} (Q : A → Prop) (r : res A) : (∀ a, r = Ret a → Q a) → yields Q (lift_res r : stm S A).
Proof. intros HQ s. cbn. destruct r; auto. Qed.
Lemma yields_bind {S A B} (R : A → Prop) (Q : B → Prop) (m : stm S A) (f : A → stm S B) :
  yields R m → (∀ a, R a → yields Q (f a)) → yields Q (m ≫= f).
Proof.
  intros Hm Hf s. specialize (Hm s). unfold mbind, stm_bind. destruct (m s) as [[a|e] s']; [|done]. by apply Hf.
Qed.
Lemma yields_on_fst {S1 S2 A} (Q : A → Prop) (m : stm S1 A) : yields Q m → yields Q (on_fst m : stm (S1 * S2) A).
Proof. intros Hm [s1 s2]. specialize (Hm s1). unfold on_fst. cbn [fst]. by destruct (m s1). Qed.
Lemma yields_on_snd {S1 S2 A} (Q : A → Prop) (m : stm S2 A) : yields Q m → yields Q (on_snd m : stm (S1 * S2) A).
Proof. intros Hm [s1 s2]. specialize (Hm s2). unfold on_snd. cbn [snd]. by destruct (m s2). Qed.

Lemma yields_for_each {S A B} (Q : B → Prop) (l : list A) (body : A → stm S B) :
  (∀ x, x ∈ l → yields Q (body x)) → yields (Forall Q) (for_each l body).
Proof.
  induction l as [|x l IH]; intros Hb; cbn [for_each]; [by apply yields_ret|].
  eapply yields_bind; [apply Hb; by left|]. intros b Hbq. eapply yields_bind; [apply IH; intros y Hy; apply Hb; by right|].
  intros bs Hbs. apply yields_ret. by constructor.
Qed.

Create HintDb yields.
#[export] Hint Resolve yields_ret yields_any yields_on_fst yields_on_snd : yields.

Lemma filter_is_sublist {A} (P : A → Prop) `{∀ x, Decision (P x)} (l : list A) : filter P l `sublist_of` l.
Proof. induction l as [|x l IH]; [done|]. rewrite filter_cons. case_decide; by constructor. Qed.

Lemma Forall_filter_keeps {A} (Q P : A → Prop) `{∀ x, Decision (P x)} (l : list A) : Forall Q l → Forall Q (filter P l).
Proof. intros Hl. apply list.Forall_forall. intros x Hx. rewrite list.Forall_forall in Hl. apply list_elem_of_filter in Hx as []. auto. Qed.
