(* ===== verification/PyFloat.v ===== *)
(** * Python [float]: IEEE-754 binary64

    The Standard Library's [SpecFloat] is a pure definition of the IEEE
    operations (round to nearest, ties to even); every float operation the
    code uses is built from it, so float expressions of the models evaluate
    to the bits CPython computes.  [sum] is CPython 3.11's (the version
    docker/Dockerfile.api ships): a left fold from integer 0.  The order
    lemmas make sorting by a non-NaN float key a total preorder. *)

From Stdlib Require Import ZArith Lia Floats.SpecFloat.
From S2P Require Import Prelude.

Abbreviation f64 := spec_float (only parsing).

#[global] Instance f64_eq_dec : EqDecision spec_float.
Proof. solve_decision. Defined.

Definition f64_prec : Z := 53.
Definition f64_emax : Z := 1024.

Definition fadd : f64 → f64 → f64 := SFadd f64_prec f64_emax.
Definition fsub : f64 → f64 → f64 := SFsub f64_prec f64_emax.
Definition fmul : f64 → f64 → f64 := SFmul f64_prec f64_emax.
Definition fdiv_raw : f64 → f64 → f64 := SFdiv f64_prec f64_emax.
Definition fsqrt_raw : f64 → f64 := SFsqrt f64_prec f64_emax.
Definition fabs : f64 → f64 := SFabs.
Definition fopp : f64 → f64 := SFopp.

Definition fzero : f64 := S754_zero false.
Definition finf : f64 := S754_infinity false.
Definition fninf : f64 := S754_infinity true.

(** The nearest double to an integer, infinity when it is out of range. *)
Definition of_Z_raw (z : Z) : f64 := binary_normalize f64_prec f64_emax z 0 false.

Definition fone : f64 := of_Z_raw 1.

(** A decimal literal [n/d] with [n], [d] exactly representable. *)
Definition flit (n d : Z) : f64 := fdiv_raw (of_Z_raw n) (of_Z_raw d).

Definition is_nan (x : f64) : bool := match x with S754_nan => true | _ => false end.
Definition is_finite (x : f64) : bool :=
  match x with S754_zero _ | S754_finite _ _ _ => true | _ => false end.

(** Python's comparisons: every one with a NaN operand is false. *)
Definition flt : f64 → f64 → bool := SFltb.
Definition fle : f64 → f64 → bool := SFleb.
Definition feq : f64 → f64 → bool := SFeqb.

(** [int * float] and friends first convert the int, which can overflow. *)
Definition int_to_float (z : Z) : res f64 :=
  match of_Z_raw z with
  | S754_infinity _ => Raise OverflowError
  | x => Ret x
  end.

(** [x / y] raises on a zero divisor. *)
Definition fdiv (x y : f64) : res f64 :=
  match y with
  | S754_zero _ => Raise ZeroDivisionError
  | _ => Ret (fdiv_raw x y)
  end.

(** [math.floor] of a float is an exact integer. *)
Definition py_floor (x : f64) : res Z :=
  match x with
  | S754_nan => Raise (ValueError "cannot convert float NaN to integer")
  | S754_infinity _ => Raise OverflowError
  | S754_zero _ => Ret 0
  | S754_finite s m e => Ret (Z.shiftl (if s then Z.neg m else Z.pos m) e)
  end.

(** [sum(xs)] for floats. *)
Definition fsum (l : list f64) : f64 := fold_left fadd l fzero.

(** [math.isclose(a, b, rel_tol=0.0, abs_tol=tol)]. *)
Definition isclose_abs (a b tol : f64) : bool :=
  if feq a b then true
  else if negb (is_finite a && is_finite b) then false
  else fle (fabs (fsub b a)) tol
       || fle (fabs (fsub b a)) fzero.

(** Builtin [max]/[min] on two floats: the first argument unless the second
    compares strictly greater/smaller. *)
Definition fmax (x y : f64) : f64 := if flt x y then y else x.
Definition fmin (x y : f64) : f64 := if flt y x then y else x.

(** ** The order of the non-NaN doubles *)

(** Lexicographic rank: class, then exponent, then mantissa. *)
Definition frank (x : f64) : Z * Z * Z :=
  match x with
  | S754_infinity true => (-2, 0, 0)
  | S754_finite true m e => (-1, -e, Z.neg m)
  | S754_zero _ => (0, 0, 0)
  | S754_finite false m e => (1, e, Z.pos m)
  | S754_infinity false => (2, 0, 0)
  | S754_nan => (3, 0, 0)
  end.

Definition lex_le (a b : Z * Z * Z) : Prop :=
  match a, b with
  | (a1, a2, a3), (b1, b2, b3) =>
      a1 < b1 ∨ (a1 = b1 ∧ (a2 < b2 ∨ (a2 = b2 ∧ a3 ≤ b3)))
  end.

Lemma fsum_snoc l x : fsum (l ++ [x]) = fadd (fsum l) x.
Proof. unfold fsum. by rewrite fold_left_app. Qed.

Lemma fle_rank x y :
  is_nan x = false → is_nan y = false →
  fle x y = true ↔ lex_le (frank x) (frank y).
Proof.
  unfold fle, SFleb.
  destruct x as [[]|[]| |[] m e]; destruct y as [[]|[]| |[] m' e'];
    simpl; try discriminate; intros _ _; try (split; [lia|done]);
    try (split; [done|lia]).
  - destruct (Z.compare_spec e e'); [|split; [done|lia]|split; [lia|done]].
    change (Pos.compare_cont Eq m m') with (Pos.compare m m').
    destruct (Pos.compare_spec m m'); simpl; split; (done || lia).
  - destruct (Z.compare_spec e e'); [|split; [lia|done]|split; [done|lia]].
    change (Pos.compare_cont Eq m m') with (Pos.compare m m').
    destruct (Pos.compare_spec m m'); simpl; split; (done || lia).
Qed.

Lemma fle_nan_l x y : is_nan x = true → fle x y = false.
Proof. by destruct x. Qed.
Lemma fle_nan_r x y : is_nan y = true → fle x y = false.
Proof. by destruct y, x. Qed.

Lemma fle_not_nan x y : fle x y = true → is_nan x = false ∧ is_nan y = false.
Proof. destruct x, y; done. Qed.

Lemma fle_refl x : is_nan x = false → fle x x = true.
Proof. intros H. apply fle_rank; [done..|]. destruct (frank x) as [[??]?]; simpl; lia. Qed.

Lemma fle_trans x y z : fle x y = true → fle y z = true → fle x z = true.
Proof.
  intros H1 H2.
  destruct (fle_not_nan _ _ H1), (fle_not_nan _ _ H2).
  rewrite fle_rank in * by done.
  destruct (frank x) as [[??]?], (frank y) as [[??]?], (frank z) as [[??]?].
  simpl in *. lia.
Qed.

Lemma fle_total x y :
  is_nan x = false → is_nan y = false → fle x y = true ∨ fle y x = true.
Proof.
  intros Hx Hy. rewrite !fle_rank by done.
  destruct (frank x) as [[??]?], (frank y) as [[??]?]. simpl. lia.
Qed.

Lemma flt_not_fle x y :
  is_nan x = false → is_nan y = false → flt x y = negb (fle y x).
Proof.
  unfold flt, fle, SFltb, SFleb.
  destruct x as [[]|[]| |[] m e]; destruct y as [[]|[]| |[] m' e'];
    simpl; try done; intros _ _.
  - rewrite (Z.compare_antisym e e').
    destruct (e ?= e'); simpl; [|done|done].
    change (Pos.compare_cont Eq m m') with (Pos.compare m m').
    change (Pos.compare_cont Eq m' m) with (Pos.compare m' m).
    rewrite (Pos.compare_antisym m m'). by destruct (m ?= m')%positive.
  - rewrite (Z.compare_antisym e e').
    destruct (e ?= e'); simpl; [|done|done].
    change (Pos.compare_cont Eq m m') with (Pos.compare m m').
    change (Pos.compare_cont Eq m' m) with (Pos.compare m' m).
    rewrite (Pos.compare_antisym m m'). by destruct (m ?= m')%positive.
Qed.

Lemma flt_fle x y : flt x y = true → fle x y = true.
Proof. unfold flt, fle, SFltb, SFleb. by destruct (SFcompare x y) as [[]|]. Qed.

(** ** Sorting by a float key *)

Section float_sort.
Context {A : Type} (key : A → f64).

Definition key_le (x y : A) : bool := fle (key x) (key y).
Definition key_ge (x y : A) : bool := fle (key y) (key x).

(** [sorted(l, key=key)] and [sorted(l, key=key, reverse=True)]. *)
Definition sorted_asc (l : list A) : list A := sort_by key_le l.
Definition sorted_desc (l : list A) : list A := sort_by key_ge l.

Definition keys_ok (l : list A) : Prop := Forall (λ x, is_nan (key x) = false) l.

Lemma key_ge_total l : keys_ok l → total_on key_ge l.
Proof.
  intros Hok x y Hx Hy. unfold key_ge, keys_ok in *.
  rewrite list.Forall_forall in Hok. apply fle_total; auto.
Qed.

Lemma key_le_total l : keys_ok l → total_on key_le l.
Proof.
  intros Hok x y Hx Hy. unfold key_le, keys_ok in *.
  rewrite list.Forall_forall in Hok. apply fle_total; auto.
Qed.

Lemma key_ge_trans l : trans_on key_ge l.
Proof. intros x y z _ _ _ H1 H2. unfold key_ge in *. by eapply fle_trans. Qed.

Lemma key_le_trans l : trans_on key_le l.
Proof. intros x y z _ _ _ H1 H2. unfold key_le in *. by eapply fle_trans. Qed.

Lemma sorted_desc_sorted l :
  keys_ok l → StronglySorted (λ a b, key_ge a b = true) (sorted_desc l).
Proof. intros. apply sort_by_sorted; auto using key_ge_total, key_ge_trans. Qed.

Lemma sorted_desc_perm l : sorted_desc l ≡ₚ l.
Proof. apply sort_by_perm. Qed.

Lemma sorted_asc_perm l : sorted_asc l ≡ₚ l.
Proof. apply sort_by_perm. Qed.

(** The head of a descending sort is a maximum. *)
Lemma sorted_desc_head l x l' :
  keys_ok l → sorted_desc l = x :: l' → ∀ y, y ∈ l → fle (key y) (key x) = true.
Proof.
  intros Hok Heq y Hy. pose proof (sorted_desc_sorted l Hok) as Hs.
  rewrite Heq in Hs. apply StronglySorted_inv in Hs as [_ Hall].
  rewrite list.Forall_forall in Hall.
  rewrite <- sorted_desc_perm, Heq in Hy.
  apply elem_of_cons in Hy as [->|Hy]; [|by apply Hall].
  apply fle_refl. unfold keys_ok in Hok. rewrite list.Forall_forall in Hok.
  apply Hok. rewrite <- sorted_desc_perm, Heq. by left.
Qed.
End float_sort.

(** ** Signs *)

(** Not below zero: every value except the negative finite ones and -inf. *)
Definition nonneg (x : f64) : bool :=
  match x with
  | S754_finite s _ _ => negb s
  | S754_infinity s => negb s
  | _ => true
  end.

Lemma binary_round_aux_nonneg m e l :
  nonneg (binary_round_aux f64_prec f64_emax false m e l) = true.
Proof.
  unfold binary_round_aux.
  destruct (shr_fexp _ _ _ _ _) as [mrs e1].
  destruct (shr_fexp _ _ _ _ _) as [mrs' e2].
  by destruct (shr_m mrs') as [|p|p]; [| case_match |].
Qed.

Lemma fmul_nonneg x y : nonneg x = true → nonneg y = true → nonneg (fmul x y) = true.
Proof.
  destruct x as [[]|[]| |[] m e], y as [[]|[]| |[] m' e']; simpl; try done;
    intros _ _; apply binary_round_aux_nonneg.
Qed.

Lemma fdiv_raw_nonneg x y :
  nonneg x = true → flt fzero y = true → nonneg (fdiv_raw x y) = true.
Proof.
  destruct x as [[]|[]| |[] m e], y as [[]|[]| |[] m' e']; simpl; try done;
    intros _ _; unfold fdiv_raw, SFdiv; case_match; case_match;
    apply binary_round_aux_nonneg.
Qed.

Lemma of_Z_raw_nonneg z : 0 ≤ z → nonneg (of_Z_raw z) = true.
Proof.
  destruct z as [|p|p]; [done| |lia]. intros _.
  unfold of_Z_raw, binary_normalize, binary_round.
  destruct (shl_align _ _ _). apply binary_round_aux_nonneg.
Qed.

Lemma int_to_float_nonneg z x : 0 ≤ z → int_to_float z = Ret x → nonneg x = true.
Proof.
  intros Hz. pose proof (of_Z_raw_nonneg z Hz) as Hn. unfold int_to_float.
  destruct (of_Z_raw z); intros [= <-]; done.
Qed.

Lemma py_floor_nonneg x z : nonneg x = true → py_floor x = Ret z → 0 ≤ z.
Proof.
  destruct x as [| | |[] m e]; simpl; intros Hn H; simplify_eq; try done.
  apply Z.shiftl_nonneg. lia.
Qed.

Lemma fle_zero_nonneg x : fle fzero x = true → nonneg x = true.
Proof. by destruct x as [[]|[]| |[] m e]. Qed.

#[export] Hint Resolve fle_refl fmul_nonneg fdiv_raw_nonneg of_Z_raw_nonneg : pyfloat.

(** [max(l)] and [min(l)] of a non-empty list: the first extremum. *)
Definition py_max (x : f64) (l : list f64) : f64 := foldl (λ m v, if flt m v then v else m) x l.
Definition py_min (x : f64) (l : list f64) : f64 := foldl (λ m v, if flt v m then v else m) x l.

(** A threshold the maximum reaches is reached by an element. *)
Lemma py_max_reaches h x l :
  Forall (λ v, is_nan v = false) (x :: l) →
  fle h (py_max x l) = true ↔ ∃ v, v ∈ x :: l ∧ fle h v = true.
Proof.
  unfold py_max. revert x. induction l as [|y l IH]; intros x [Hx Hl]%Forall_cons; simpl.
  - split; [intros Hh; exists x; split; [by left|done]|].
    by intros (v & ->%list_elem_of_singleton & Hh).
  - apply Forall_cons in Hl as [Hy Hl]. rewrite IH by (apply Forall_cons; split; [by destruct (flt x y)|done]).
    split.
    + intros (v & Hv & Hh). exists v. split; [|done].
      destruct (flt x y); rewrite !elem_of_cons in *; tauto.
    + intros (v & Hv & Hh). rewrite flt_not_fle by done. destruct (fle y x) eqn:Hxy; simpl.
      * apply elem_of_cons in Hv as [->|Hv]; [exists x; split; [by left|done]|].
        apply elem_of_cons in Hv as [->|Hv]; [|exists v; split; [by right|done]].
        exists x. split; [by left|]. by apply fle_trans with y.
      * apply elem_of_cons in Hv as [->|Hv]; [|by exists v].
        exists y. split; [by left|]. destruct (fle_total x y Hx Hy) as [Ht|Ht]; [|congruence].
        by apply fle_trans with x.
Qed.

(** ** The best of a list *)

Lemma best_dominate {A} (key : A → f64) k (l : list A) x y :
  keys_ok key l → x ∈ take k (sorted_desc key l) → y ∈ l → y ∉ take k (sorted_desc key l) →
  fle (key y) (key x) = true.
Proof.
  intros Hok Hx Hy Hny. pose proof (sorted_desc_sorted key l Hok) as Hs.
  rewrite <- (take_drop k (sorted_desc key l)) in Hs. rewrite <- (sorted_desc_perm key l) in Hy.
  rewrite <- (take_drop k (sorted_desc key l)) in Hy. apply elem_of_app in Hy as [|Hy]; [done|].
  apply StronglySorted_app_inv in Hs as (_ & _ & Hcross). by apply Hcross.
Qed.

Lemma take_sorted_desc_NoDup {A} (key : A → f64) k (l : list A) : NoDup l → NoDup (take k (sorted_desc key l)).
Proof.
  intros Hnd. eapply sublist_NoDup; [|apply sublist_take]. by rewrite (sorted_desc_perm key l).
Qed.

Lemma take_sorted_desc_in {A} (key : A → f64) k (l : list A) x : x ∈ take k (sorted_desc key l) → x ∈ l.
Proof. intros Hx. rewrite <- (sorted_desc_perm key l). by apply elem_of_take in Hx as (i & Hi%list_elem_of_lookup_2 & _). Qed.
