(* ===== verification/IntDivision.v ===== *)
(** * Dividing integers through a float

    Python's [a / b] on two ints is the double nearest the exact quotient, and
    [math.ceil] and [int()] read a double back as an integer.  Code that sizes
    something with [math.ceil(n / size)] therefore rounds twice; below 2^53 the
    result is the exact ceiling all the same, which this file proves. *)

From Stdlib Require Import ZArith Lia Floats.SpecFloat.
From S2P Require Import Prelude PyFloat.

(** [a / b] on ints: correctly rounded, whatever their size. *)
Definition int_true_div (a b : Z) : res f64 :=
  match a, b with
  | _, 0 => Raise ZeroDivisionError
  | 0, _ => Ret fzero
  | _, _ =>
      let '(m, e, l) := SFdiv_core_binary f64_prec f64_emax (Z.abs a) 0 (Z.abs b) 0 in
      match binary_round_aux f64_prec f64_emax (xorb (a <? 0) (b <? 0)) m e l with
      | S754_infinity _ => Raise OverflowError
      | x => Ret x
      end
  end.

(** [math.ceil] of a float. *)
Definition py_ceil (x : f64) : res Z :=
  match x with
  | S754_nan => Raise (ValueError "cannot convert float NaN to integer")
  | S754_infinity _ => Raise OverflowError
  | S754_zero _ => Ret 0
  | S754_finite s m e => Ret (- Z.shiftl (if s then Z.pos m else Z.neg m) e)
  end.

(** [round(x)] of a float: to the nearest integer, ties to even. *)
Definition py_round (x : f64) : res Z :=
  match x with
  | S754_nan => Raise (ValueError "cannot convert float NaN to integer")
  | S754_infinity _ => Raise OverflowError
  | S754_zero _ => Ret 0
  | S754_finite s m e =>
      let magnitude :=
        if 0 <=? e then Z.shiftl (Z.pos m) e
        else
          let q := Z.shiftr (Z.pos m) (- e) in
          let r := Z.pos m - Z.shiftl q (- e) in
          let half := Z.shiftl 1 (- e - 1) in
          if (half <? r) || ((r =? half) && Z.odd q) then q + 1 else q in
      Ret (if s then - magnitude else magnitude)
  end.

(** [int(x)] of a float: towards zero. *)
Definition py_trunc (x : f64) : res Z :=
  match x with
  | S754_nan => Raise (ValueError "cannot convert float NaN to integer")
  | S754_infinity _ => Raise OverflowError
  | S754_zero _ => Ret 0
  | S754_finite s m e =>
      let magnitude := Z.shiftl (Z.pos m) e in
      Ret (if s then - magnitude else magnitude)
  end.

Example round_ties_to_even : map py_round [flit 1 2; flit 3 2; flit 5 2; flit 7 3] = [Ret 0; Ret 2; Ret 2; Ret 2].
Proof. vm_compute. reflexivity. Qed.
Example trunc_towards_zero : map py_trunc [flit 7 2; flit (-7) 2] = [Ret 3; Ret (-3)].
Proof. vm_compute. reflexivity. Qed.

(** [math.ceil(a / b)]. *)
Definition ceil_div (a b : Z) : res Z := x ← int_true_div a b; py_ceil x.

Example ceil_div_small : ceil_div 7 3 = Ret 3.
Proof. reflexivity. Qed.

(** One slot short from 2^53 + 1 on. *)
Example ceil_div_large : ceil_div (2 ^ 53 + 1) 1 = Ret (2 ^ 53).
Proof. reflexivity. Qed.

(** ** Binary digits *)

Lemma digits2_pos_bounds p : 2 ^ (Z.pos (digits2_pos p) - 1) ≤ Z.pos p < 2 ^ Z.pos (digits2_pos p).
Proof.
  induction p as [p IH|p IH|]; cbn [digits2_pos]; [| |done]; rewrite Pos2Z.inj_succ;
    replace (Z.succ (Z.pos (digits2_pos p)) - 1) with (Z.succ (Z.pos (digits2_pos p) - 1)) by lia;
    rewrite !Z.pow_succ_r by lia; lia.
Qed.

Lemma Zdigits2_unique m k : 0 < k → 2 ^ (k - 1) ≤ m < 2 ^ k → Zdigits2 m = k.
Proof.
  intros Hk Hm. assert (0 < m) by (pose proof (Z.pow_pos_nonneg 2 (k - 1)); lia).
  destruct m as [|p|p]; [lia| |lia]. cbn [Zdigits2]. pose proof (digits2_pos_bounds p) as Hp.
  set (d := Z.pos (digits2_pos p)) in *. assert (0 < d) by lia.
  destruct (Z.lt_trichotomy d k) as [Hlt|[->|Hgt]]; [|done|]; exfalso.
  - pose proof (Z.pow_le_mono_r 2 d (k - 1)). lia.
  - pose proof (Z.pow_le_mono_r 2 k (d - 1)). lia.
Qed.

(** ** Rounding a quotient of 53 or 54 digits *)

Definition inexact (l : location) : bool := match l with loc_Exact => false | _ => true end.

(** The rounded mantissa, and the exponent it is at. *)
Definition rounded_at (x : f64) (k e : Z) : Prop :=
  ∃ m j, x = S754_finite false m (e + j) ∧ 0 ≤ j ∧ Z.pos m * 2 ^ j = k.

Lemma round_exact_53 k e :
  2 ^ 52 ≤ k ≤ 2 ^ 53 → -1000 ≤ e ≤ 900 →
  rounded_at (let '(mrs, e') := shr_fexp f64_prec f64_emax k e loc_Exact in
    match shr_m mrs with
    | Z0 => S754_zero false
    | Zpos m => if Z.leb e' (f64_emax - f64_prec) then S754_finite false m e' else S754_infinity false
    | _ => S754_nan
    end) k e.
Proof.
  intros Hk He. unfold shr_fexp, f64_prec, f64_emax, fexp, emin.
  destruct (Z.eq_dec k (2 ^ 53)) as [->|Hne].
  - change (Zdigits2 (2 ^ 53)) with 54. replace (Z.max (54 + e - 53) (3 - 1024 - 53) - e) with 1 by lia.
    cbn -[Z.add Z.sub Z.leb]. rewrite (proj2 (Z.leb_le _ _)) by lia.
    exists (2 ^ 52)%positive, 1. done.
  - rewrite (Zdigits2_unique k 53) by lia. replace (Z.max (53 + e - 53) (3 - 1024 - 53) - e) with 0 by lia.
    cbn -[Z.add Z.sub Z.leb Z.pow]. destruct k as [|p|p]; [lia| |lia].
    rewrite (proj2 (Z.leb_le _ _)) by lia. exists p, 0. rewrite Z.add_0_r. split; [done|]. lia.
Qed.

Lemma round_nearest_even_bounds q l : q ≤ round_nearest_even q l ≤ q + 1.
Proof. destruct l as [|[]]; simpl; [lia| |lia|lia]. destruct (Z.even q); lia. Qed.

Lemma round_53 q e l :
  2 ^ 52 ≤ q < 2 ^ 53 → -1000 ≤ e ≤ 0 →
  rounded_at (binary_round_aux f64_prec f64_emax false q e l) (round_nearest_even q l) e.
Proof.
  intros Hq He. unfold binary_round_aux.
  assert (shr_fexp f64_prec f64_emax q e l = (shr_record_of_loc q l, e)) as ->.
  { unfold shr_fexp, f64_prec, f64_emax, fexp, emin. rewrite (Zdigits2_unique q 53) by lia.
    replace (Z.max (53 + e - 53) (3 - 1024 - 53) - e) with 0 by lia. done. }
  assert (shr_m (shr_record_of_loc q l) = q ∧ loc_of_shr_record (shr_record_of_loc q l) = l) as [-> ->]
    by (by destruct l as [|[]]).
  apply round_exact_53; [|lia]. pose proof (round_nearest_even_bounds q l). lia.
Qed.

(** A 54-digit quotient loses its last bit first. *)
Definition shifted_loc (q : Z) (l : location) : location :=
  match Z.odd q, inexact l with
  | false, false => loc_Exact
  | false, true => loc_Inexact Lt
  | true, false => loc_Inexact Eq
  | true, true => loc_Inexact Gt
  end.

Lemma round_54 q e l :
  2 ^ 53 ≤ q < 2 ^ 54 → -1000 ≤ e ≤ 0 →
  rounded_at (binary_round_aux f64_prec f64_emax false q e l) (round_nearest_even (q / 2) (shifted_loc q l)) (e + 1).
Proof.
  intros Hq He. unfold binary_round_aux.
  assert (shr_fexp f64_prec f64_emax q e l = (shr_1 (shr_record_of_loc q l), e + 1)) as ->.
  { unfold shr_fexp, f64_prec, f64_emax, fexp, emin. rewrite (Zdigits2_unique q 54) by lia.
    replace (Z.max (54 + e - 53) (3 - 1024 - 53) - e) with 1 by lia. done. }
  assert (shr_m (shr_1 (shr_record_of_loc q l)) = q / 2 ∧
    loc_of_shr_record (shr_1 (shr_record_of_loc q l)) = shifted_loc q l) as [-> ->].
  { destruct q as [|p|p]; [lia| |lia]. rewrite <- Z.div2_div.
    by destruct l as [|[]], p. }
  apply round_exact_53; [|lia]. pose proof (round_nearest_even_bounds (q / 2) (shifted_loc q l)).
  assert (2 ^ 52 ≤ q / 2 < 2 ^ 53); [|lia].
  split; [apply Z.div_le_lower_bound; lia|apply Z.div_lt_upper_bound; lia].
Qed.

(** Reading the rounded value's ceiling. *)
Lemma rounded_ceil x k t c :
  rounded_at x k (- t) → 0 ≤ t → (c - 1) * 2 ^ t < k ≤ c * 2 ^ t → py_ceil x = Ret c.
Proof.
  intros (m & j & -> & Hj & Hk) Ht Hc. cbn [py_ceil]. f_equal.
  rewrite Z.add_comm, <- Z.shiftl_shiftl, (Z.shiftl_mul_pow2 (Z.neg m) j) by done.
  replace (Z.neg m * 2 ^ j) with (- k) by lia. rewrite Z.shiftl_opp_r, Z.shiftr_div_pow2 by done.
  pose proof (Z.pow_pos_nonneg 2 t ltac:(lia) Ht). set (u := 2 ^ t) in *.
  assert (- k / u = - c); [|lia]. symmetry. apply (Z.div_unique_pos _ _ _ (c * u - k)); lia.
Qed.

(** ** The ceiling of a quotient *)

Lemma new_location_exact b r : inexact (new_location b r) = negb (r =? 0).
Proof.
  unfold new_location, new_location_even, new_location_odd. destruct (Z.even b), (r =? 0); try done.
Qed.

(** [q] and [r] divide [n] scaled by [2^t]. *)
Lemma quotient_above n b c t q r :
  0 < b → (c - 1) * b < n ≤ c * b → 0 < t → n * 2 ^ t = b * q + r → 0 ≤ r < b → b < 2 ^ t →
  (c - 1) * 2 ^ t < q + (if r =? 0 then 0 else 1) ≤ c * 2 ^ t ∧ (c - 1) * 2 ^ t < q.
Proof.
  intros Hb Hc Ht Hq Hr Hbt. assert (Hlow : (c - 1) * 2 ^ t < q).
  { assert ((c - 1) * b + 1 ≤ n) as Hn by lia.
    assert (((c - 1) * b + 1) * 2 ^ t ≤ n * 2 ^ t) by (apply Z.mul_le_mono_nonneg_r; lia). nia. }
  assert (n * 2 ^ t ≤ c * b * 2 ^ t) by (apply Z.mul_le_mono_nonneg_r; lia).
  split; [|done]. split; [destruct (r =? 0); lia|]. destruct (Z.eqb_spec r 0); nia.
Qed.

Lemma ceil_unique n b : 0 < b → ((n + b - 1) / b - 1) * b < n ≤ (n + b - 1) / b * b.
Proof.
  intros Hb. pose proof (Z.div_mod (n + b - 1) b ltac:(lia)). pose proof (Z.mod_pos_bound (n + b - 1) b Hb).
  set (c := (n + b - 1) / b) in *. nia.
Qed.

(** Rounding keeps the quotient between the same two integers. *)
Lemma rounded_between q l t c :
  1 ≤ t → (c - 1) * 2 ^ t < q → q + (if inexact l then 1 else 0) ≤ c * 2 ^ t →
  (q = (c - 1) * 2 ^ t + 1 → inexact l = true) →
  (c - 1) * 2 ^ t < round_nearest_even q l ≤ c * 2 ^ t ∧
  (c - 1) * 2 ^ (t - 1) < round_nearest_even (q / 2) (shifted_loc q l) ≤ c * 2 ^ (t - 1).
Proof.
  intros Ht Hlow Hhigh Hone. split.
  { destruct l as [|[]]; simpl in *; [lia| |lia|lia]. destruct (Z.even q); lia. }
  set (u := 2 ^ (t - 1)).
  assert (2 ^ t = 2 * u) as Hu by (unfold u; rewrite <- Z.pow_succ_r by lia; f_equal; lia).
  assert (0 < u) by (apply Z.pow_pos_nonneg; lia). rewrite Hu in *.
  pose proof (Z.div_mod q 2 ltac:(lia)) as Hq. rewrite Zmod_odd in Hq.
  unfold shifted_loc. destruct (Z.odd q) eqn:Hodd, (inexact l) eqn:Hin; simpl; [lia| |lia|lia].
  assert (q ≠ (c - 1) * (2 * u) + 1) by (intros He; by specialize (Hone He)).
  destruct (Z.even (q / 2)); lia.
Qed.

(** The quotient of a [dn]-digit number by a [db]-digit one, scaled to at least 53 digits. *)
Lemma scaled_quotient n b dn db :
  2 ^ (dn - 1) ≤ n < 2 ^ dn → 2 ^ (db - 1) ≤ b < 2 ^ db → 1 ≤ dn ≤ 53 + db → 1 ≤ db →
  2 ^ 52 ≤ n * 2 ^ (53 + db - dn) / b < 2 ^ 54.
Proof.
  intros Hn Hb Hdn Hdb. set (t := 53 + db - dn).
  assert (0 < 2 ^ t ∧ 0 < 2 ^ (db - 1)) as [Ht Hdb1] by (split; apply Z.pow_pos_nonneg; lia).
  assert (2 ^ (dn - 1) * 2 ^ t = 2 ^ 52 * 2 ^ db) as E1
    by (rewrite <- !Z.pow_add_r by lia; f_equal; lia).
  assert (2 ^ dn * 2 ^ t = 2 ^ 54 * 2 ^ (db - 1)) as E2
    by (rewrite <- !Z.pow_add_r by lia; f_equal; lia).
  split.
  - apply Z.div_le_lower_bound; [lia|]. nia.
  - apply Z.div_lt_upper_bound; [lia|]. nia.
Qed.

(** The quotient [int_true_div] rounds: at least 53 digits of it, and what is left. *)
Lemma int_true_div_round n b :
  0 < n → 0 < b → let t := 53 + Zdigits2 b - Zdigits2 n in 1 ≤ t ≤ 900 →
  ∃ q r, n * 2 ^ t = b * q + r ∧ 0 ≤ r < b ∧ 2 ^ 52 ≤ q < 2 ^ 54 ∧
    int_true_div n b = match binary_round_aux f64_prec f64_emax false q (- t) (new_location b r) with
                       | S754_infinity _ => Raise OverflowError
                       | x => Ret x
                       end.
Proof.
  intros Hn0 Hb0 t Ht. destruct n as [|n|n]; [lia| |lia]. destruct b as [|b|b]; [lia| |lia].
  unfold int_true_div, SFdiv_core_binary. cbv zeta.
  change (Z.abs (Z.pos n)) with (Z.pos n). change (Z.abs (Z.pos b)) with (Z.pos b).
  change (Z.pos n <? 0) with false. change (Z.pos b <? 0) with false. cbn [xorb].
  pose proof (digits2_pos_bounds n) as Hdn. pose proof (digits2_pos_bounds b) as Hdb.
  change (Z.pos (digits2_pos n)) with (Zdigits2 (Z.pos n)) in Hdn. change (Z.pos (digits2_pos b)) with (Zdigits2 (Z.pos b)) in Hdb.
  assert (0 < Zdigits2 (Z.pos n) ∧ 0 < Zdigits2 (Z.pos b)) as [Hdn0 Hdb0] by (split; done).
  unfold t in *. clear t. set (dn := Zdigits2 (Z.pos n)) in *. set (db := Zdigits2 (Z.pos b)) in *. clearbody dn db.
  set (t := 53 + db - dn) in *.
  assert (Z.min (fexp f64_prec f64_emax (dn + 0 - (db + 0))) (0 - 0) = - t) as ->
    by (unfold fexp, emin, f64_prec, f64_emax; lia).
  replace (0 - 0 - - t) with t by lia.
  assert (match t with 0 => Z.pos n | Z.pos _ => Z.shiftl (Z.pos n) t | Z.neg _ => 0 end = Z.pos n * 2 ^ t) as ->
    by (destruct t as [|t'|t'] eqn:Heq; [lia|by rewrite Z.shiftl_mul_pow2 by lia|lia]).
  pose proof (scaled_quotient _ _ dn db Hdn Hdb ltac:(lia) ltac:(lia)) as Hquot. fold t in Hquot.
  destruct (Z.div_eucl (Z.pos n * 2 ^ t) (Z.pos b)) as [q r] eqn:Hdiv.
  pose proof (Z_div_mod (Z.pos n * 2 ^ t) (Z.pos b) ltac:(lia)) as Hdm. rewrite Hdiv in Hdm.
  destruct Hdm as [Hdm Hr].
  assert (Z.pos n * 2 ^ t / Z.pos b = q) as Hqq by (unfold Z.div; by rewrite Hdiv). rewrite Hqq in Hquot.
  by exists q, r.
Qed.

Lemma Zdigits2_bounds n : 0 < n → 2 ^ (Zdigits2 n - 1) ≤ n < 2 ^ Zdigits2 n ∧ 0 < Zdigits2 n.
Proof. destruct n as [|n|n]; [lia| |lia]. intros _. split; [apply digits2_pos_bounds|done]. Qed.

Lemma Zdigits2_le n k : 0 < n < 2 ^ k → Zdigits2 n ≤ k.
Proof.
  intros Hn. destruct (Zdigits2_bounds n ltac:(lia)) as [Hb _]. apply Z.le_ngt. intros Hgt.
  destruct (Z.lt_ge_cases k 0); [pose proof (Z.pow_neg_r 2 k ltac:(lia)); lia|].
  pose proof (Z.pow_le_mono_r 2 k (Zdigits2 n - 1)). lia.
Qed.

(** The double nearest a quotient is finite. *)
Lemma int_true_div_finite n b : 0 < n < 2 ^ 60 → 2 ^ 10 ≤ b < 2 ^ 60 →
  ∃ m e, int_true_div n b = Ret (S754_finite false m e).
Proof.
  intros Hn Hb. pose proof (Zdigits2_le n 60 Hn). pose proof (Zdigits2_le b 60 ltac:(lia)).
  destruct (Zdigits2_bounds n ltac:(lia)) as [_ Hdn]. assert (10 < Zdigits2 b) as Hdb.
  { destruct (Zdigits2_bounds b ltac:(lia)) as [Hdb _]. apply Z.lt_nge. intros Hle. pose proof (Z.pow_le_mono_r 2 (Zdigits2 b) 10). lia. }
  destruct (int_true_div_round n b ltac:(lia) ltac:(lia) ltac:(lia)) as (q & r & _ & _ & Hq & ->).
  set (t := 53 + Zdigits2 b - Zdigits2 n). destruct (Z.lt_ge_cases q (2 ^ 53)).
  - destruct (round_53 q (- t) (new_location b r) ltac:(lia) ltac:(lia)) as (m & j & -> & _). by eexists _, _.
  - destruct (round_54 q (- t) (new_location b r) ltac:(lia) ltac:(lia)) as (m & j & -> & _). by eexists _, _.
Qed.

Theorem ceil_div_exact n b : 0 ≤ n < 2 ^ 53 → 0 < b < 2 ^ 53 → ceil_div n b = Ret ((n + b - 1) / b).
Proof.
  intros Hn Hb. destruct (Z.eq_dec n 0) as [->|Hn0].
  { unfold ceil_div. replace ((0 + b - 1) / b) with 0 by (rewrite Z.div_small; lia). by destruct b; [lia| |lia]. }
  pose proof (Zdigits2_le n 53 ltac:(lia)). pose proof (Zdigits2_le b 53 Hb).
  destruct (Zdigits2_bounds n ltac:(lia)) as [_ Hdn0]. destruct (Zdigits2_bounds b ltac:(lia)) as [Hdb Hdb0].
  destruct (int_true_div_round n b ltac:(lia) ltac:(lia) ltac:(lia)) as (q & r & Hdm & Hr & Hquot & Heq).
  unfold ceil_div. rewrite Heq. clear Heq. set (t := 53 + Zdigits2 b - Zdigits2 n) in *.
  set (c := (n + b - 1) / b). assert (Zdigits2 b ≤ t) as Htb by lia.
  assert (b < 2 ^ t) as Hbt by (pose proof (Z.pow_le_mono_r 2 (Zdigits2 b) t); lia).
  destruct (quotient_above n b c t q r ltac:(lia) (ceil_unique n b ltac:(lia)) ltac:(lia) Hdm Hr Hbt)
    as [Hbound Hlow].
  destruct (rounded_between q (new_location b r) t c) as [H53 H54]; [lia|done| | |].
  { rewrite new_location_exact. destruct (r =? 0); simpl; lia. }
  { intros Hone. rewrite new_location_exact. destruct (Z.eqb_spec r 0) as [->|]; [|done]. exfalso.
    pose proof (ceil_unique n b ltac:(lia)) as [Hc _]. fold c in Hc. nia. }
  destruct (Z.lt_ge_cases q (2 ^ 53)) as [Hlt|Hge].
  - pose proof (round_53 q (- t) (new_location b r) ltac:(lia) ltac:(lia)) as Hround.
    apply rounded_ceil with (c := c) in Hround as Hceil; [|lia|done].
    destruct Hround as (m & j & Hx & _). rewrite Hx in *. exact Hceil.
  - pose proof (round_54 q (- t) (new_location b r) ltac:(lia) ltac:(lia)) as Hround.
    replace (- t + 1) with (- (t - 1)) in Hround by lia.
    apply rounded_ceil with (c := c) in Hround as Hceil; [|lia|done].
    destruct Hround as (m & j & Hx & _). rewrite Hx in *. exact Hceil.
Qed.

(** ** Small integers as floats *)

(** Below 2^53 a positive int converts, to a finite double. *)
Lemma int_to_float_small z : 0 < z < 2 ^ 53 → ∃ m e, int_to_float z = Ret (S754_finite false m e).
Proof.
  intros Hz. assert (Hraw : ∃ m e, of_Z_raw z = S754_finite false m e); [|destruct Hraw as (m & e & Hraw)].
  2: { exists m, e. unfold int_to_float. by rewrite Hraw. }
  destruct z as [|p|p]; [lia| |lia]. unfold of_Z_raw, binary_normalize, binary_round, shl_align.
  pose proof (digits2_pos_bounds p) as Hp. set (d := Z.pos (digits2_pos p)) in *.
  assert (Hd : 1 ≤ d ≤ 53).
  { split; [lia|]. destruct (Z.le_gt_cases d 53); [done|]. pose proof (Z.pow_le_mono_r 2 53 (d - 1)). lia. }
  unfold fexp, f64_prec, f64_emax, emin. replace (Z.max (d + 0 - 53) (3 - 1024 - 53)) with (d - 53) by lia.
  assert (Hshift : ∃ k, (match d - 53 - 0 with Z.neg s => (Pos.iter xO p s, d - 53) | _ => (p, 0) end) = (k, d - 53) ∧
    Z.pos k = Z.pos p * 2 ^ (53 - d)).
  { destruct (d - 53 - 0) as [|s|s] eqn:Hs; [|lia|].
    - exists p. replace d with 53 by lia. split; [done|]. change (2 ^ (53 - 53)) with 1. lia.
    - exists (Pos.iter xO p s). split; [done|]. change (Pos.iter xO p s) with (shift_pos s p). rewrite shift_pos_correct, Z.pow_pos_fold. replace (53 - d) with (Z.pos s) by lia. lia. }
  destruct Hshift as (k & -> & Hk).
  assert (Hk' : 2 ^ 52 ≤ Z.pos k < 2 ^ 53).
  { rewrite Hk. replace (2 ^ 52) with (2 ^ (d - 1) * 2 ^ (53 - d)) by (rewrite <- Z.pow_add_r by lia; f_equal; lia).
    replace (2 ^ 53) with (2 ^ d * 2 ^ (53 - d)) by (rewrite <- Z.pow_add_r by lia; f_equal; lia).
    assert (0 < 2 ^ (53 - d)) by (apply Z.pow_pos_nonneg; lia). nia. }
  destruct (round_53 (Z.pos k) (d - 53) loc_Exact Hk' ltac:(lia)) as (m & j & Heq & _).
  exists m, (d - 53 + j). exact Heq.
Qed.

(** ** Comparing and truncating a quotient *)

(** The double nearest [n / b] lies between the same integers as the quotient. *)
Lemma int_true_div_between n b : 0 < n < 2 ^ 60 → 2 ^ 10 ≤ b < 2 ^ 60 →
  ∃ x k t, int_true_div n b = Ret x ∧ rounded_at x k (- t) ∧ 0 ≤ t ∧
    ∀ c, (c * b ≤ n → c * 2 ^ t ≤ k) ∧ (n ≤ c * b → k ≤ c * 2 ^ t).
Proof.
  intros Hn Hb. pose proof (Zdigits2_le n 60 Hn). pose proof (Zdigits2_le b 60 ltac:(lia)).
  destruct (Zdigits2_bounds n ltac:(lia)) as [_ Hdn]. assert (10 < Zdigits2 b) as Hdb.
  { destruct (Zdigits2_bounds b ltac:(lia)) as [Hdb _]. apply Z.lt_nge. intros Hle. pose proof (Z.pow_le_mono_r 2 (Zdigits2 b) 10). lia. }
  destruct (int_true_div_round n b ltac:(lia) ltac:(lia) ltac:(lia)) as (q & r & Hdm & Hr & Hq & ->).
  set (t := 53 + Zdigits2 b - Zdigits2 n) in *. set (l := new_location b r).
  assert (inexact l = negb (r =? 0)) as Hl by apply new_location_exact.
  assert (∀ c, (c * b ≤ n → c * 2 ^ t ≤ q) ∧ (n ≤ c * b → q + (if inexact l then 1 else 0) ≤ c * 2 ^ t)) as Hc.
  { intros c. pose proof (Z.pow_pos_nonneg 2 t ltac:(lia) ltac:(lia)). split; intros Hle.
    - assert (c * b * 2 ^ t ≤ n * 2 ^ t) by (apply Z.mul_le_mono_nonneg_r; lia). nia.
    - assert (n * 2 ^ t ≤ c * b * 2 ^ t) by (apply Z.mul_le_mono_nonneg_r; lia). rewrite Hl.
      destruct (Z.eqb_spec r 0); cbn; nia. }
  destruct (Z.lt_ge_cases q (2 ^ 53)).
  - pose proof (round_53 q (- t) l ltac:(lia) ltac:(lia)) as Hround.
    exists (binary_round_aux f64_prec f64_emax false q (- t) l), (round_nearest_even q l), t.
    split; [by destruct Hround as (m & j & -> & _)|]. split; [done|]. split; [lia|]. intros c. destruct (Hc c) as [Hlo Hhi].
    pose proof (round_nearest_even_bounds q l). split; intros Hle; [specialize (Hlo Hle); lia|specialize (Hhi Hle)].
    destruct l as [|[]]; cbn in *; lia.
  - pose proof (round_54 q (- t) l ltac:(lia) ltac:(lia)) as Hround.
    exists (binary_round_aux f64_prec f64_emax false q (- t) l), (round_nearest_even (q / 2) (shifted_loc q l)), (t - 1).
    split; [by destruct Hround as (m & j & -> & _)|]. replace (- t + 1) with (- (t - 1)) in Hround by lia.
    split; [done|]. split; [lia|]. intros c. destruct (Hc c) as [Hlo Hhi].
    assert (2 ^ t = 2 * 2 ^ (t - 1)) as Ht by (rewrite <- Z.pow_succ_r by lia; f_equal; lia). rewrite Ht in *.
    set (u := 2 ^ (t - 1)) in *.
    pose proof (round_nearest_even_bounds (q / 2) (shifted_loc q l)) as Hb2. pose proof (Z.div_mod q 2 ltac:(lia)) as Hqd. rewrite Zmod_odd in Hqd.
    split; intros Hle; [specialize (Hlo Hle); destruct (Z.odd q); lia|specialize (Hhi Hle)].
    unfold shifted_loc. destruct (Z.odd q), (inexact l); cbn [round_nearest_even]; [lia|destruct (Z.even (q / 2)); lia|lia|lia].
Qed.

(** [x > z], exactly. *)
Definition float_gt_int (x : f64) (z : Z) : bool :=
  match x with
  | S754_nan => false
  | S754_infinity s => negb s
  | S754_zero _ => z <? 0
  | S754_finite s m e =>
      let n := if s then Z.neg m else Z.pos m in
      if 0 <=? e then z <? Z.shiftl n e else Z.shiftl z (- e) <? n
  end.

Lemma rounded_gt x k t z : rounded_at x k (- t) → 0 ≤ t → float_gt_int x z = (z * 2 ^ t <? k).
Proof.
  intros (m & j & -> & Hj & <-) Ht. cbn [float_gt_int]. destruct (Z.leb_spec 0 (- t + j)) as [He|He].
  - rewrite Z.shiftl_mul_pow2 by lia. replace j with ((- t + j) + t) at 2 by lia. rewrite (Z.pow_add_r 2 (- t + j) t) by lia.
    pose proof (Z.pow_pos_nonneg 2 t ltac:(lia) Ht). apply eq_iff_eq_true. rewrite !Z.ltb_lt. nia.
  - rewrite Z.shiftl_mul_pow2 by lia. replace (2 ^ t) with (2 ^ (- (- t + j)) * 2 ^ j) by (rewrite <- Z.pow_add_r by lia; f_equal; lia).
    pose proof (Z.pow_pos_nonneg 2 j ltac:(lia) Hj). apply eq_iff_eq_true. rewrite !Z.ltb_lt. nia.
Qed.

Lemma rounded_trunc x k t : rounded_at x k (- t) → 0 ≤ t → py_trunc x = Ret (k / 2 ^ t).
Proof.
  intros (m & j & -> & Hj & <-) Ht. cbn [py_trunc]. f_equal. rewrite Z.add_comm, <- Z.shiftl_shiftl, (Z.shiftl_mul_pow2 (Z.pos m) j) by done.
  by rewrite Z.shiftl_opp_r, Z.shiftr_div_pow2.
Qed.

(** Truncating the double is off by at most one above the quotient, and never below it. *)
Lemma int_true_div_trunc n b : 0 < n < 2 ^ 60 → 2 ^ 10 ≤ b < 2 ^ 60 →
  ∃ x z, int_true_div n b = Ret x ∧ py_trunc x = Ret z ∧ n / b ≤ z ≤ (n + b - 1) / b.
Proof.
  intros Hn Hb. destruct (int_true_div_between n b Hn Hb) as (x & k & t & Hx & Hr & Ht & Hc). exists x, (k / 2 ^ t).
  split; [done|]. split; [by apply rounded_trunc|]. pose proof (Z.pow_pos_nonneg 2 t ltac:(lia) Ht).
  pose proof (Z.div_mod n b ltac:(lia)). pose proof (Z.mod_pos_bound n b ltac:(lia)).
  pose proof (ceil_unique n b ltac:(lia)).
  destruct (Hc (n / b)) as [Hlo _]. destruct (Hc ((n + b - 1) / b)) as [_ Hhi]. specialize (Hlo ltac:(nia)). specialize (Hhi ltac:(lia)).
  split; [apply Z.div_le_lower_bound; lia|apply Z.div_le_upper_bound; lia].
Qed.

Lemma int_true_div_gt n b z : 0 < n < 2 ^ 60 → 2 ^ 10 ≤ b < 2 ^ 60 →
  ∃ x, int_true_div n b = Ret x ∧ (n ≤ z * b → float_gt_int x z = false) ∧ ((z + 1) * b ≤ n → float_gt_int x z = true).
Proof.
  intros Hn Hb. destruct (int_true_div_between n b Hn Hb) as (x & k & t & Hx & Hr & Ht & Hc). exists x. split; [done|].
  rewrite (rounded_gt x k t z Hr Ht), Z.ltb_ge, Z.ltb_lt. pose proof (Z.pow_pos_nonneg 2 t ltac:(lia) Ht).
  split; [apply Hc|]. intros Hle. apply (Hc (z + 1)) in Hle. nia.
Qed.
