(* ===== verification/FloatOrder.v ===== *)
(** * Rounding is monotone

    On the non-negative doubles addition and multiplication keep order, and a
    quotient of a number by a greater one is at most 1: what the code that sums
    and scales durations relies on.  A double is read as a whole number of units
    of 2^-1074, the least positive double; rounding is [rne], to nearest, ties
    to even, at the exponent the format prescribes. *)

From Stdlib Require Import ZArith Lia Floats.SpecFloat.
From S2P Require Import Prelude PyFloat IntDivision.

(** ** Rounding an integer *)

(** [x / 2^s] to the nearest integer, a tie to the even one. *)
Definition rne (x s : Z) : Z :=
  let q := x / 2 ^ s in
  match 2 * (x mod 2 ^ s) ?= 2 ^ s with Lt => q | Eq => if Z.even q then q else q + 1 | Gt => q + 1 end.

Lemma rne_near x s : 0 ≤ s → x / 2 ^ s ≤ rne x s ≤ x / 2 ^ s + 1.
Proof. intros Hs. unfold rne. destruct (_ ?= _); [destruct (Z.even _)| |]; lia. Qed.

Lemma rne_exact k s : 0 ≤ s → rne (k * 2 ^ s) s = k.
Proof.
  intros Hs. assert (0 < 2 ^ s) by (apply Z.pow_pos_nonneg; lia).
  unfold rne. rewrite Z.div_mul, Z.mod_mul by lia. destruct (Z.compare_spec (2 * 0) (2 ^ s)); lia.
Qed.

Lemma rne_mono x y s : 0 ≤ s → x ≤ y → rne x s ≤ rne y s.
Proof.
  intros Hs Hxy. assert (0 < 2 ^ s) as Hp by (apply Z.pow_pos_nonneg; lia).
  pose proof (Z.div_le_mono x y (2 ^ s) Hp Hxy) as Hq.
  destruct (Z.eq_dec (x / 2 ^ s) (y / 2 ^ s)) as [Heq|Hne].
  - pose proof (Z.div_mod x (2 ^ s)). pose proof (Z.div_mod y (2 ^ s)). unfold rne. rewrite Heq in *.
    destruct (Z.compare_spec (2 * (x mod 2 ^ s)) (2 ^ s)), (Z.compare_spec (2 * (y mod 2 ^ s)) (2 ^ s)), (Z.even (y / 2 ^ s)); lia.
  - pose proof (rne_near x s Hs). pose proof (rne_near y s Hs). lia.
Qed.

Lemma rne_le x k s : 0 ≤ s → x ≤ k * 2 ^ s → rne x s ≤ k.
Proof. intros Hs Hx. rewrite <- (rne_exact k s Hs). by apply rne_mono. Qed.

Lemma rne_ge x k s : 0 ≤ s → k * 2 ^ s ≤ x → k ≤ rne x s.
Proof. intros Hs Hx. rewrite <- (rne_exact k s Hs) at 1. by apply rne_mono. Qed.

Lemma rne_scale x s k : 0 ≤ s → 0 ≤ k → rne (x * 2 ^ k) (s + k) = rne x s.
Proof.
  intros Hs Hk. assert (0 < 2 ^ s ∧ 0 < 2 ^ k) as [Hps Hpk] by (split; apply Z.pow_pos_nonneg; lia).
  unfold rne. rewrite Z.pow_add_r, Z.div_mul_cancel_r, Z.mul_mod_distr_r by lia.
  replace (2 * (x mod 2 ^ s * 2 ^ k)) with (2 * (x mod 2 ^ s) * 2 ^ k) by lia.
  by rewrite <- (Zmult_compare_compat_r _ _ (2 ^ k)) by lia.
Qed.

(** ** The format's exponent *)

Definition exponent (x e : Z) : Z := fexp f64_prec f64_emax (Zdigits2 x + e).

Lemma exponent_eq x e : exponent x e = Z.max (Zdigits2 x + e - 53) (-1074).
Proof. done. Qed.

(** What [x * 2^e] rounds to, in units of 2^-1074, were there no overflow. *)
Definition rnd (x e : Z) : Z := rne x (exponent x e - e) * 2 ^ (exponent x e + 1074).

Lemma Zdigits2_nonneg x : 0 ≤ Zdigits2 x.
Proof. by destruct x. Qed.

Lemma Zdigits2_lt x : 0 ≤ x → x < 2 ^ Zdigits2 x.
Proof. intros Hx. destruct (Z.eq_dec x 0) as [->|]; [done|]. apply (Zdigits2_bounds x). lia. Qed.

Lemma Zdigits2_mono x y : 0 ≤ x ≤ y → Zdigits2 x ≤ Zdigits2 y.
Proof.
  intros Hxy. destruct (Z.eq_dec x 0) as [->|]; [by destruct y|]. apply Zdigits2_le.
  destruct (Zdigits2_bounds y ltac:(lia)). lia.
Qed.

Lemma Zdigits2_shift x k : 0 < x → 0 ≤ k → Zdigits2 (x * 2 ^ k) = Zdigits2 x + k.
Proof.
  intros Hx Hk. destruct (Zdigits2_bounds x Hx) as [Hb Hd]. apply Zdigits2_unique; [lia|].
  replace (Zdigits2 x + k - 1) with (Zdigits2 x - 1 + k) by lia. rewrite !Z.pow_add_r by lia.
  assert (0 < 2 ^ k) by (apply Z.pow_pos_nonneg; lia). nia.
Qed.

(** Rounding does not depend on how the value is scaled. *)
Lemma rnd_scale x e k : 0 < x → 0 ≤ k → e ≤ exponent x e → rnd (x * 2 ^ k) (e - k) = rnd x e.
Proof.
  intros Hx Hk He. unfold rnd. assert (exponent (x * 2 ^ k) (e - k) = exponent x e) as ->
    by (rewrite !exponent_eq, Zdigits2_shift by done; lia).
  replace (exponent x e - (e - k)) with (exponent x e - e + k) by lia. by rewrite rne_scale by lia.
Qed.

Lemma rnd_mono x y e : 0 ≤ x ≤ y → e ≤ -1074 → rnd x e ≤ rnd y e.
Proof.
  intros Hxy He. pose proof (Zdigits2_mono x y Hxy) as Hd. unfold rnd.
  assert (e ≤ exponent x e ∧ -1074 ≤ exponent x e ≤ exponent y e) as (Hx1 & Hx2 & Hxy') by (rewrite !exponent_eq; lia).
  destruct (Z.eq_dec (exponent x e) (exponent y e)) as [Heq|Hne].
  { rewrite Heq. apply Z.mul_le_mono_nonneg_r; [apply Z.pow_nonneg; lia|]. apply rne_mono; lia. }
  assert (exponent y e = Zdigits2 y + e - 53) as Hy by (rewrite !exponent_eq in *; lia).
  assert (0 < y) as Hy0. { destruct (Z.eq_dec y 0) as [->|]; [|lia]. exfalso. apply Hne. by replace x with 0 by lia. }
  destruct (Zdigits2_bounds y Hy0) as [Hyb _].
  assert (2 ^ 52 ≤ rne y (exponent y e - e)) as Hlow.
  { apply rne_ge; [lia|]. rewrite <- Z.pow_add_r by lia. etrans; [|apply Hyb]. apply Z.pow_le_mono_r; lia. }
  assert (exponent x e < exponent y e ∧ Zdigits2 x + e < exponent y e + 53) as [Hlt Hdx] by (rewrite !exponent_eq in *; lia).
  assert (exponent x e ≤ Z.max (Zdigits2 x + e) (exponent x e) < exponent y e + 53) as Htop by lia.
  assert (Zdigits2 x + e ≤ Z.max (Zdigits2 x + e) (exponent x e)) as Htop2 by lia.
  set (top := Z.max (Zdigits2 x + e) (exponent x e)) in *. clearbody top.
  assert (rne x (exponent x e - e) ≤ 2 ^ (top - exponent x e)) as Hup.
  { apply rne_le; [lia|]. rewrite <- Z.pow_add_r by lia. apply Z.lt_le_incl. eapply Z.lt_le_trans; [apply Zdigits2_lt; lia|].
    apply Z.pow_le_mono_r; lia. }
  transitivity (2 ^ (top + 1074)).
  { replace (top + 1074) with (top - exponent x e + (exponent x e + 1074)) by lia. rewrite (Z.pow_add_r 2 (top - exponent x e)) by lia.
    apply Z.mul_le_mono_nonneg_r; [apply Z.pow_nonneg; lia|done]. }
  transitivity (2 ^ 52 * 2 ^ (exponent y e + 1074)); [|apply Z.mul_le_mono_nonneg_r; [apply Z.pow_nonneg; lia|done]].
  rewrite <- Z.pow_add_r by lia. apply Z.pow_le_mono_r; lia.
Qed.

(** ** Shifting a mantissa right *)

(** A mantissa with what was shifted out of it, as quarters: exact, under half,
    half, over half. *)
Definition quarters (l : location) : Z :=
  match l with loc_Exact => 0 | loc_Inexact Lt => 1 | loc_Inexact Eq => 2 | loc_Inexact Gt => 3 end.

(** The record after shifting out [p] more bits of the number of quarters [x]. *)
Definition shifted (x p : Z) : shr_record :=
  Build_shr_record (x / 2 ^ (p + 2)) (Z.odd (x / 2 ^ (p + 1))) (negb (x mod 2 ^ (p + 1) =? 0)).

Lemma shr_1_fields r : 0 ≤ shr_m r → shr_1 r = Build_shr_record (shr_m r / 2) (Z.odd (shr_m r)) (shr_r r || shr_s r).
Proof. destruct r as [[|[p|p|]|p] r s]; cbn [shr_m shr_r shr_s]; intros; [done|..|lia]; rewrite <- Z.div2_div; done. Qed.

Lemma shifted_loc_0 q l : shr_record_of_loc q l = shifted (4 * q + quarters l) 0.
Proof.
  unfold shifted. change (2 ^ (0 + 2)) with 4. change (2 ^ (0 + 1)) with 2.
  assert (∀ c, 0 ≤ c < 4 → (4 * q + c) / 4 = q ∧ (4 * q + c) / 2 = 2 * q + c / 2 ∧ (4 * q + c) mod 2 = c mod 2) as Hc.
  { intros c Hc. rewrite (Z.mul_comm 4 q), Z.div_add_l, (Z.div_small c 4) by lia. replace (q * 4 + c) with (2 * q * 2 + c) by lia.
    rewrite Z.div_add_l by lia. split_and!; [lia|done|]. rewrite Z.add_comm. apply Z.mod_add. lia. }
  destruct (Hc (quarters l) ltac:(destruct l as [|[]]; cbn; lia)) as (-> & -> & ->).
  rewrite Z.odd_add, Z.odd_mul. change (Z.odd 2) with false. by destruct l as [|[]].
Qed.

Lemma shifted_step x p : 0 ≤ x → 0 ≤ p → shr_1 (shifted x p) = shifted x (p + 1).
Proof.
  intros Hx Hp. rewrite shr_1_fields by (apply Z.div_pos; [done|]; apply Z.pow_pos_nonneg; lia).
  unfold shifted. cbn [shr_m shr_r shr_s].
  replace (p + 1 + 2) with (p + 2 + 1) by lia. replace (p + 1 + 1) with (p + 2) by lia. f_equal.
  - rewrite (Z.pow_add_r 2 (p + 2) 1) by lia. rewrite Z.div_div; [done|apply Z.pow_nonzero; lia|lia].
  - replace (p + 2) with (p + 1 + 1) by lia. rewrite (Z.pow_add_r 2 (p + 1) 1) by lia. change (2 ^ 1) with 2.
    assert (0 < 2 ^ (p + 1)) by (apply Z.pow_pos_nonneg; lia). rewrite Z.rem_mul_r, <- Z.bit0_mod, Z.bit0_odd by lia.
    pose proof (Z.mod_pos_bound x (2 ^ (p + 1))). destruct (Z.odd _), (Z.eqb_spec (x mod 2 ^ (p + 1)) 0) as [->|]; cbn [Z.b2z negb orb]; symmetry; first [apply negb_true_iff, Z.eqb_neq|apply negb_false_iff, Z.eqb_eq]; lia.
Qed.

Lemma iter_pos_nat {A} (f : A → A) p x : SpecFloat.iter_pos f p x = Nat.iter (Pos.to_nat p) f x.
Proof.
  revert x. induction p as [p IH|p IH|]; intros x; cbn [SpecFloat.iter_pos]; rewrite ?IH, ?Pos2Nat.inj_xI, ?Pos2Nat.inj_xO; [|by rewrite <- Nat.iter_add; f_equal; lia|done].
  rewrite <- Nat.iter_add, Nat.iter_swap. change (f (Nat.iter (Pos.to_nat p + Pos.to_nat p) f x)) with (Nat.iter (S (Pos.to_nat p + Pos.to_nat p)) f x). f_equal. lia.
Qed.

Lemma shr_shifted q l e n : 0 ≤ q → 0 ≤ n → shr (shr_record_of_loc q l) e n = (shifted (4 * q + quarters l) n, e + n).
Proof.
  intros Hq Hn. rewrite shifted_loc_0. set (x := 4 * q + quarters l). assert (0 ≤ x) as Hx by (unfold x; destruct l as [|[]]; cbn; lia). clearbody x.
  assert (∀ k : nat, Nat.iter k shr_1 (shifted x 0) = shifted x (Z.of_nat k)) as Hiter.
  { induction k as [|k IH]; [done|]. cbn [Nat.iter nat_rect]. change (nat_rect _ _ _ k) with (Nat.iter k shr_1 (shifted x 0)).
    rewrite IH, shifted_step by lia. f_equal. lia. }
  destruct n as [|p|p]; [by rewrite Z.add_0_r| |lia]. unfold shr. rewrite iter_pos_nat, Hiter. do 2 f_equal. lia.
Qed.

Lemma round_shifted x p : 0 ≤ x → 0 ≤ p →
  round_nearest_even (shr_m (shifted x p)) (loc_of_shr_record (shifted x p)) = rne x (p + 2).
Proof.
  intros Hx Hp. unfold shifted, rne. cbn [shr_m loc_of_shr_record]. replace (p + 2) with (p + 1 + 1) by lia. rewrite (Z.pow_add_r 2 (p + 1) 1) by lia. change (2 ^ 1) with 2.
  assert (0 < 2 ^ (p + 1)) by (apply Z.pow_pos_nonneg; lia). rewrite Z.rem_mul_r, <- Z.bit0_mod, Z.bit0_odd by lia.
  pose proof (Z.mod_pos_bound x (2 ^ (p + 1))).
  destruct (Z.odd (x / 2 ^ (p + 1))), (Z.eqb_spec (x mod 2 ^ (p + 1)) 0) as [->|]; cbn [Z.b2z negb round_nearest_even];
    match goal with |- context [?a ?= ?b] => destruct (Z.compare_spec a b) end; try lia; done.
Qed.

(** ** Doubles as numbers of units *)

(** Every double the code computes that is neither negative nor NaN; a finite
    one is in the one form the format gives it. *)
Definition unsigned (x : f64) : bool :=
  match x with
  | S754_zero _ => true
  | S754_finite s m e => negb s && bounded f64_prec f64_emax m e
  | S754_infinity s => negb s
  | S754_nan => false
  end.

(** What overflows is at the end of the line. *)
Definition infinite_units : Z := 2 ^ 2098.

Definition units (x : f64) : Z :=
  match x with S754_finite _ m e => Z.pos m * 2 ^ (e + 1074) | S754_infinity _ => infinite_units | _ => 0 end.

Lemma bounded_iff m e : bounded f64_prec f64_emax m e = true ↔ exponent (Z.pos m) e = e ∧ e ≤ 971.
Proof. unfold bounded, canonical_mantissa. rewrite andb_true_iff, Z.eqb_eq, Z.leb_le. done. Qed.

Lemma finite_digits m e : bounded f64_prec f64_emax m e = true → -1074 ≤ e ≤ 971 ∧ Z.pos m < 2 ^ 53 ∧ (-1074 < e → 2 ^ 52 ≤ Z.pos m).
Proof.
  rewrite bounded_iff, exponent_eq. intros [He ?]. destruct (Zdigits2_bounds (Z.pos m) ltac:(lia)) as [Hm _].
  split; [lia|]. split.
  - eapply Z.lt_le_trans; [apply Hm|]. apply Z.pow_le_mono_r; lia.
  - intros Hlt. replace (Zdigits2 (Z.pos m)) with 53 in Hm by lia. lia.
Qed.

Lemma units_finite m e : bounded f64_prec f64_emax m e = true → 0 < Z.pos m * 2 ^ (e + 1074) < infinite_units.
Proof.
  intros Hb. destruct (finite_digits m e Hb) as (He & Hm & _).
  assert (0 < 2 ^ (e + 1074)) by (apply Z.pow_pos_nonneg; lia). split; [lia|].
  apply Z.lt_le_trans with (2 ^ 53 * 2 ^ (e + 1074)); [by apply Z.mul_lt_mono_pos_r|].
  rewrite <- Z.pow_add_r by lia. unfold infinite_units. apply Z.pow_le_mono_r; lia.
Qed.

Lemma infinite_units_pos : 0 < infinite_units.
Proof. done. Qed.

Lemma units_range x : unsigned x = true → 0 ≤ units x ≤ infinite_units.
Proof.
  destruct x as [|s|  |s m e]; simpl unsigned; intros Hx; cbn [units]; pose proof infinite_units_pos; [lia|lia|done|].
  apply andb_true_iff in Hx as [_ Hx]. pose proof (units_finite m e Hx). lia.
Qed.

(** The order of doubles is the order of their units. *)
Lemma fle_units x y : unsigned x = true → unsigned y = true → fle x y = (units x <=? units y).
Proof.
  intros Hx Hy. destruct x as [sx|[]| |[] mx ex], y as [sy|[]| |[] my ey]; try done;
    try (pose proof (units_finite _ _ (proj2 (proj1 (andb_true_iff _ _) Hx)))); try (pose proof (units_finite _ _ (proj2 (proj1 (andb_true_iff _ _) Hy))));
    cbn [units]; unfold fle, SFleb, SFcompare; try (symmetry; first [apply Z.leb_le; lia|apply Z.leb_gt; lia]).
  cbn [unsigned negb andb] in Hx, Hy. destruct (finite_digits mx ex Hx) as (Hex & Hmx & Hnx), (finite_digits my ey Hy) as (Hey & Hmy & Hny).
  assert (∀ m m' e e', -1074 ≤ e < e' → Z.pos m < 2 ^ 53 → 2 ^ 52 ≤ Z.pos m' → Z.pos m * 2 ^ (e + 1074) < Z.pos m' * 2 ^ (e' + 1074)) as Hlt.
  { intros m m' e e' He Hm Hm'. assert (0 < 2 ^ (e + 1074) ∧ 2 * 2 ^ (e + 1074) ≤ 2 ^ (e' + 1074)) as [Hp Hp'].
    { split; [apply Z.pow_pos_nonneg; lia|]. rewrite <- Z.pow_succ_r by lia. apply Z.pow_le_mono_r; lia. }
    nia. }
  destruct (Z.compare_spec ex ey) as [->|He|He].
  - assert (0 < 2 ^ (ey + 1074)) by (apply Z.pow_pos_nonneg; lia). change (Pos.compare_cont Eq mx my) with (Pos.compare mx my).
    destruct (Pos.compare_spec mx my) as [->|Hm|Hm]; symmetry; [by rewrite Z.leb_refl|apply Z.leb_le; nia|apply Z.leb_gt; nia].
  - symmetry. apply Z.leb_le, Z.lt_le_incl, Hlt; lia.
  - symmetry. apply Z.leb_gt, Hlt; lia.
Qed.

(** ** What the rounding of a mantissa comes to *)

Lemma unsigned_finite m e : bounded f64_prec f64_emax m e = true → unsigned (S754_finite false m e) = true.
Proof. intros H. cbn. by rewrite H. Qed.

(** The second half of the rounding: a mantissa of at most 53 digits, or 2^53. *)
Lemma settle_units r g : 0 ≤ r ≤ 2 ^ 53 → -1074 ≤ g → (-1074 < g → 2 ^ 52 ≤ r) →
  let x := let '(mrs, e) := shr_fexp f64_prec f64_emax r g loc_Exact in
    match shr_m mrs with
    | Z0 => S754_zero false
    | Zpos m => if Z.leb e (f64_emax - f64_prec) then S754_finite false m e else S754_infinity false
    | _ => S754_nan
    end in
  unsigned x = true ∧ units x = Z.min (r * 2 ^ (g + 1074)) (infinite_units).
Proof.
  intros Hr Hg Hnormal. pose proof infinite_units_pos as Htop.
  assert (∀ m e, Z.pos m * 2 ^ (e + 1074) = r * 2 ^ (g + 1074) → exponent (Z.pos m) e = e → -1074 ≤ e → (971 < e → 2 ^ 52 ≤ Z.pos m) →
    let x := if Z.leb e (f64_emax - f64_prec) then S754_finite false m e else S754_infinity false in
    unsigned x = true ∧ units x = Z.min (r * 2 ^ (g + 1074)) (infinite_units)) as Hdone.
  { intros m e Hval Hexp He Hbig x. unfold x. change (f64_emax - f64_prec) with 971. rewrite <- Hval. destruct (Z.leb_spec e 971) as [Hle|Hgt].
    - assert (bounded f64_prec f64_emax m e = true) as Hb by (by apply bounded_iff). split; [by apply unsigned_finite|].
      pose proof (units_finite m e Hb). cbn [units]. lia.
    - split; [done|]. cbn [units]. specialize (Hbig Hgt). symmetry. apply Z.min_r.
      transitivity (2 ^ 52 * 2 ^ (e + 1074)); [|apply Z.mul_le_mono_nonneg_r; [apply Z.pow_nonneg; lia|done]].
      rewrite <- Z.pow_add_r by lia. unfold infinite_units. apply Z.pow_le_mono_r; lia. }
  unfold shr_fexp. fold (exponent r g). destruct (Z.eq_dec r (2 ^ 53)) as [->|Hne].
  - assert (exponent (2 ^ 53) g - g = 1) as -> by (rewrite exponent_eq; change (Zdigits2 (2 ^ 53)) with 54; lia).
    change (shr (shr_record_of_loc (2 ^ 53) loc_Exact) g 1) with (Build_shr_record (2 ^ 52) false false, g + 1). cbv iota beta.
    change (shr_m (Build_shr_record (2 ^ 52) false false)) with (Z.pos (2 ^ 52)). cbv iota beta.
    apply Hdone; [|rewrite exponent_eq; change (Zdigits2 (Z.pos (2 ^ 52))) with 53; lia|lia|done].
    replace (g + 1 + 1074) with (g + 1074 + 1) by lia. rewrite Z.pow_add_r by lia. change (Z.pos (2 ^ 52)) with (2 ^ 52). lia.
  - assert (shr (shr_record_of_loc r loc_Exact) g (exponent r g - g) = (Build_shr_record r false false, g)) as ->.
    { assert (exponent r g - g ≤ 0) as Hs; [|destruct (exponent r g - g) as [|p|p]; [done|lia|done]].
      rewrite exponent_eq. pose proof (Zdigits2_mono r (2 ^ 53 - 1) ltac:(lia)) as Hd. change (Zdigits2 (2 ^ 53 - 1)) with 53 in Hd. lia. }
    cbv iota beta. cbn [shr_m]. destruct r as [|m|m]; [|apply Hdone; [done| |lia|lia]|lia]; [by split|].
    rewrite exponent_eq. pose proof (Zdigits2_mono (Z.pos m) (2 ^ 53 - 1) ltac:(lia)) as Hd. change (Zdigits2 (2 ^ 53 - 1)) with 53 in Hd.
    destruct (Z.eq_dec g (-1074)) as [->|Hg']; [lia|]. pose proof (Zdigits2_mono (2 ^ 52) (Z.pos m) ltac:(lia)) as Hd'. change (Zdigits2 (2 ^ 52)) with 53 in Hd'. lia.
Qed.

Lemma round_aux_units q e l : 0 < q ∨ q = 0 ∧ e ≤ -1074 → e ≤ exponent q e →
  let x := binary_round_aux f64_prec f64_emax false q e l in
  unsigned x = true ∧ units x = Z.min (rne (4 * q + quarters l) (exponent q e - e + 2) * 2 ^ (exponent q e + 1074)) (infinite_units).
Proof.
  intros Hq He. cbv zeta. unfold binary_round_aux. assert (0 ≤ q) as Hq0 by lia.
  assert (shr_fexp f64_prec f64_emax q e l = (shifted (4 * q + quarters l) (exponent q e - e), exponent q e)) as ->.
  { unfold shr_fexp. fold (exponent q e). rewrite shr_shifted by lia. f_equal. lia. }
  assert (0 ≤ quarters l < 4) as Hl by (destruct l as [|[]]; cbn; lia).
  cbv iota beta. rewrite round_shifted by lia.
  assert (-1074 ≤ exponent q e ∧ Zdigits2 q + e ≤ exponent q e + 53) as [Hg1 Hg2] by (rewrite exponent_eq; lia).
  assert (4 * q + quarters l ≤ 2 ^ (Zdigits2 q + 2)) as Hup.
  { rewrite Z.pow_add_r by (try apply Zdigits2_nonneg; lia). pose proof (Zdigits2_lt q Hq0). change (2 ^ 2) with 4. lia. }
  apply settle_units; [split|done|].
  - apply rne_ge; lia.
  - apply rne_le; [lia|]. etrans; [exact Hup|]. rewrite <- Z.pow_add_r by lia. apply Z.pow_le_mono_r; lia.
  - intros Hg. destruct Hq as [Hq|[-> ?]]; [|exfalso; rewrite exponent_eq in Hg; change (Zdigits2 0) with 0 in Hg; lia].
    destruct (Zdigits2_bounds q Hq) as [Hqb Hd]. assert (exponent q e = Zdigits2 q + e - 53) as Heq by (rewrite exponent_eq in *; lia).
    apply rne_ge; [lia|]. rewrite <- Z.pow_add_r by lia. replace (52 + (exponent q e - e + 2)) with (Zdigits2 q - 1 + 2) by lia.
    rewrite Z.pow_add_r by lia. lia.
Qed.

Lemma round_exact_units q e : 0 < q → e ≤ exponent q e →
  let x := binary_round_aux f64_prec f64_emax false q e loc_Exact in
  unsigned x = true ∧ units x = Z.min (rnd q e) (infinite_units).
Proof.
  intros Hq He. cbv zeta. destruct (round_aux_units q e loc_Exact (or_introl Hq) He) as [Hn ->]. split; [exact Hn|]. unfold rnd. do 2 f_equal.
  cbn [quarters]. rewrite Z.add_0_r, (Z.mul_comm 4 q). change 4 with (2 ^ 2). apply rne_scale; lia.
Qed.

Lemma binary_round_units m e : -1074 ≤ e →
  let x := binary_round f64_prec f64_emax false m e in
  unsigned x = true ∧ units x = Z.min (rnd (Z.pos m * 2 ^ (e + 1074)) (-1074)) (infinite_units).
Proof.
  intros He. cbv zeta. unfold binary_round. fold (Zdigits2 (Z.pos m)). change (Z.pos (digits2_pos m)) with (Zdigits2 (Z.pos m)). fold (exponent (Z.pos m) e).
  assert (∃ q e', shl_align m e (exponent (Z.pos m) e) = (q, e') ∧ Z.pos q * 2 ^ (e' + 1074) = Z.pos m * 2 ^ (e + 1074) ∧ -1074 ≤ e' ≤ exponent (Z.pos q) e') as (q & e' & -> & Hval & He').
  { unfold shl_align. destruct (exponent (Z.pos m) e - e) as [|p|p] eqn:Hd; [exists m, e; split_and!; [done..|lia]|exists m, e; split_and!; [done..|lia]|].
    eexists _, _. split; [done|]. change (Pos.iter xO m p) with (shift_pos p m). rewrite shift_pos_correct, Z.pow_pos_fold.
    assert (exponent (Z.pos m) e = e - Z.pos p) as Hexp by lia. assert (-1074 ≤ exponent (Z.pos m) e) by (rewrite exponent_eq; lia). split; [|split; [lia|]].
    - rewrite (Z.mul_comm (2 ^ Z.pos p)), <- Z.mul_assoc, <- Z.pow_add_r by lia. do 2 f_equal. lia.
    - rewrite (Z.mul_comm (2 ^ Z.pos p)), (exponent_eq (_ * _)), Zdigits2_shift by lia. rewrite exponent_eq in *. lia. }
  destruct (round_exact_units (Z.pos q) e' ltac:(lia) ltac:(lia)) as [Hn ->]. split; [exact Hn|]. f_equal.
  rewrite <- Hval. replace (-1074) with (e' - (e' + 1074)) by lia. symmetry. apply rnd_scale; lia.
Qed.

(** A double is its own rounding. *)
Lemma rnd_units x : unsigned x = true → rnd (units x) (-1074) = units x.
Proof.
  destruct x as [s|s| |s m e]; intros Hx; [done|by vm_compute|done|]. cbn [unsigned] in Hx. apply andb_true_iff in Hx as [_ Hb].
  pose proof (finite_digits m e Hb) as (He & _). apply bounded_iff in Hb as [Hexp _]. cbn [units].
  replace (-1074) with (e - (e + 1074)) by lia. rewrite rnd_scale by lia. unfold rnd. rewrite Hexp, Z.sub_diag.
  replace (Z.pos m) with (Z.pos m * 2 ^ 0) at 1 by (rewrite Z.pow_0_r; lia). by rewrite rne_exact by lia.
Qed.

(** ** The operations *)

Lemma shl_align_units m e e' : e' ≤ e → Z.pos (shl_align m e e').1 = Z.pos m * 2 ^ (e - e').
Proof.
  intros He. unfold shl_align. destruct (e' - e) as [|p|p] eqn:Hd; [|lia|].
  - replace (e - e') with 0 by lia. cbn [fst]. lia.
  - cbn [fst]. change (Pos.iter xO m p) with (shift_pos p m). rewrite shift_pos_correct, Z.pow_pos_fold. replace (e - e') with (Z.pos p) by lia. lia.
Qed.

Lemma fadd_units x y : unsigned x = true → unsigned y = true →
  unsigned (fadd x y) = true ∧ units (fadd x y) = Z.min (rnd (units x + units y) (-1074)) (infinite_units).
Proof.
  intros Hx Hy. pose proof (units_range x Hx) as Hux. pose proof (units_range y Hy) as Huy.
  assert (∀ u, 0 ≤ u → infinite_units = Z.min (rnd (infinite_units + u) (-1074)) infinite_units) as Hinf.
  { intros u Hu. symmetry. apply Z.min_r. transitivity (rnd infinite_units (-1074)); [by vm_compute|]. pose proof infinite_units_pos. apply rnd_mono; lia. }
  assert (∀ z, unsigned z = true → units z = Z.min (rnd (units z) (-1074)) infinite_units) as Hself.
  { intros z Hz. rewrite rnd_units by done. pose proof (units_range z Hz). lia. }
  destruct x as [sx|[]| |[] mx ex]; try discriminate Hx; destruct y as [sy|[]| |[] my ey]; try discriminate Hy.
  - split; [by destruct sx, sy|]. change (units (S754_zero sx) + units (S754_zero sy)) with (units fzero). rewrite <- (Hself fzero) by done. by destruct sx, sy.
  - split; [done|]. rewrite Z.add_comm. exact (Hinf _ (proj1 Hux)).
  - split; [exact Hy|]. exact (Hself _ Hy).
  - split; [done|]. exact (Hinf _ (proj1 Huy)).
  - split; [done|]. exact (Hinf _ (proj1 Huy)).
  - split; [done|]. exact (Hinf _ (proj1 Huy)).
  - split; [exact Hx|]. rewrite Z.add_0_r. exact (Hself _ Hx).
  - split; [done|]. rewrite Z.add_comm. exact (Hinf _ (proj1 Hux)).
  - clear Hinf Hself. cbn [unsigned negb andb] in Hx, Hy. destruct (finite_digits mx ex Hx) as (Hex & _), (finite_digits my ey Hy) as (Hey & _).
    unfold fadd, SFadd, cond_Zopp. rewrite !shl_align_units by lia.
    destruct (Z.pos mx * 2 ^ (ex - Z.min ex ey) + Z.pos my * 2 ^ (ey - Z.min ex ey)) as [|p|p] eqn:Hsum.
    + assert (0 < 2 ^ (ex - Z.min ex ey) ∧ 0 < 2 ^ (ey - Z.min ex ey)) by (split; apply Z.pow_pos_nonneg; lia). nia.
    + destruct (binary_round_units p (Z.min ex ey) ltac:(lia)) as [Hn Hu]. split; [exact Hn|]. cbn [binary_normalize] in *. rewrite Hu. do 2 f_equal.
      rewrite <- Hsum, Z.mul_add_distr_r, <- !Z.mul_assoc, <- !Z.pow_add_r by lia. cbn [units]. do 3 f_equal; lia.
    + assert (0 < 2 ^ (ex - Z.min ex ey) ∧ 0 < 2 ^ (ey - Z.min ex ey)) by (split; apply Z.pow_pos_nonneg; lia). nia.
Qed.

(** [x + y] on numbers that are not negative: not negative, monotone in both. *)
Lemma fadd_unsigned x y : unsigned x = true → unsigned y = true → unsigned (fadd x y) = true.
Proof. intros Hx Hy. by apply fadd_units. Qed.

Lemma fadd_mono x x' y y' : unsigned x = true → unsigned x' = true → unsigned y = true → unsigned y' = true →
  fle x x' = true → fle y y' = true → fle (fadd x y) (fadd x' y') = true.
Proof.
  intros Hx Hx' Hy Hy'. destruct (fadd_units x y Hx Hy) as [Hn Hu], (fadd_units x' y' Hx' Hy') as [Hn' Hu'].
  rewrite !fle_units, !Z.leb_le by done. intros Hle Hle'. rewrite Hu, Hu'.
  pose proof (units_range x Hx). pose proof (units_range y Hy).
  apply Z.min_le_compat_r, rnd_mono; lia.
Qed.

Definition finite_unsigned (x : f64) : bool := unsigned x && is_finite x.

Lemma fmul_units x y : finite_unsigned x = true → finite_unsigned y = true →
  unsigned (fmul x y) = true ∧ units (fmul x y) = Z.min (rnd (units x * units y) (-2148)) (infinite_units).
Proof.
  unfold finite_unsigned. intros [Hx Hfx]%andb_true_iff [Hy Hfy]%andb_true_iff.
  assert (Z.min (rnd 0 (-2148)) (infinite_units) = 0) as H0 by done.
  destruct x as [sx|[]| |[] mx ex]; try discriminate Hx; try discriminate Hfx; destruct y as [sy|[]| |[] my ey]; try discriminate Hy; try discriminate Hfy;
    cbn [units]; rewrite ?Z.mul_0_r, ?Z.mul_0_l, ?H0; [by split..|].
  cbn [unsigned negb andb] in Hx, Hy. destruct (finite_digits mx ex Hx) as (Hex & Hmx & Hnx), (finite_digits my ey Hy) as (Hey & Hmy & Hny).
  unfold fmul, SFmul. cbn [xorb]. change (Z.pos (mx * my)) with (Z.pos mx * Z.pos my).
  assert (ex + ey ≤ exponent (Z.pos mx * Z.pos my) (ex + ey)) as Hexp.
  { rewrite exponent_eq. destruct (Z.le_gt_cases (ex + ey) (-1074)); [lia|].
    assert (2 ^ 52 ≤ Z.pos mx * Z.pos my) as Hbig.
    { destruct (Z.le_gt_cases ey (-1074)); [assert (-1074 < ex) by lia; specialize (Hnx ltac:(lia)); nia|specialize (Hny ltac:(lia)); nia]. }
    pose proof (Zdigits2_mono (2 ^ 52) (Z.pos mx * Z.pos my) ltac:(lia)) as Hd. change (Zdigits2 (2 ^ 52)) with 53 in Hd. lia. }
  destruct (round_exact_units (Z.pos mx * Z.pos my) (ex + ey) ltac:(lia) Hexp) as [Hn Hu]. split; [exact Hn|]. cbv zeta in Hu. rewrite Hu. f_equal.
  replace (Z.pos mx * 2 ^ (ex + 1074) * (Z.pos my * 2 ^ (ey + 1074))) with (Z.pos mx * Z.pos my * 2 ^ (ex + ey + 2148)).
  - replace (-2148) with (ex + ey - (ex + ey + 2148)) by lia. symmetry. apply rnd_scale; lia.
  - replace (ex + ey + 2148) with (ex + 1074 + (ey + 1074)) by lia. rewrite Z.pow_add_r by lia. lia.
Qed.

Lemma fmul_mono x x' y y' : finite_unsigned x = true → finite_unsigned x' = true → finite_unsigned y = true → finite_unsigned y' = true →
  fle x x' = true → fle y y' = true → fle (fmul x y) (fmul x' y') = true.
Proof.
  intros Hx Hx' Hy Hy'. destruct (fmul_units x y Hx Hy) as [Hn Hu], (fmul_units x' y' Hx' Hy') as [Hn' Hu'].
  unfold finite_unsigned in *. apply andb_true_iff in Hx as [Hx _], Hx' as [Hx' _], Hy as [Hy _], Hy' as [Hy' _].
  rewrite !fle_units, !Z.leb_le by done. intros Hle Hle'. rewrite Hu, Hu'.
  pose proof (units_range x Hx). pose proof (units_range y Hy). apply Z.min_le_compat_r, rnd_mono; nia.
Qed.

Lemma units_one : units fone = 2 ^ 1074.
Proof. by vm_compute. Qed.

(** Scaling by at most 1 gives at most what was scaled, by at least 1 at least. *)
Lemma fmul_one x y : finite_unsigned x = true → finite_unsigned y = true →
  unsigned (fmul x y) = true ∧ (fle y fone = true → fle (fmul x y) x = true) ∧ (fle fone y = true → fle x (fmul x y) = true).
Proof.
  intros Hx Hy. destruct (fmul_units x y Hx Hy) as [Hn Hu]. unfold finite_unsigned in *. apply andb_true_iff in Hx as [Hx _], Hy as [Hy _].
  split; [done|]. rewrite !fle_units, !Z.leb_le, units_one, Hu by done. pose proof (units_range x Hx) as Hrx. pose proof (units_range y Hy).
  assert (rnd (units x * 2 ^ 1074) (-2148) = units x) as Hself.
  { destruct (Z.eq_dec (units x) 0) as [->|Hne]; [done|]. replace (-2148) with (-1074 - 1074) by lia. rewrite rnd_scale; [by apply rnd_units|lia..|].
    rewrite exponent_eq. lia. }
  split; intros Hle.
  - etrans; [apply Z.le_min_l|]. rewrite <- Hself at 2. apply rnd_mono; nia.
  - apply Z.min_glb; [|lia]. rewrite <- Hself at 1. apply rnd_mono; nia.
Qed.

(** The quotient of a number by a greater one is between 0 and 1. *)
Lemma fdiv_raw_le_one x y : finite_unsigned x = true → finite_unsigned y = true → 0 < units y → fle x y = true →
  unsigned (fdiv_raw x y) = true ∧ fle (fdiv_raw x y) fone = true.
Proof.
  unfold finite_unsigned. intros [Hx Hfx]%andb_true_iff [Hy Hfy]%andb_true_iff Hpos Hle.
  destruct y as [sy|[]| |[] my ey]; try discriminate Hy; try discriminate Hfy; [by cbn in Hpos|].
  destruct x as [sx|[]| |[] mx ex]; try discriminate Hx; try discriminate Hfx; [by split|].
  rewrite fle_units, Z.leb_le in Hle by done. cbn [unsigned negb andb units] in *.
  destruct (finite_digits mx ex Hx) as (Hex & _), (finite_digits my ey Hy) as (Hey & _). clear Hx Hy Hfx Hfy.
  unfold fdiv_raw, SFdiv, SFdiv_core_binary. cbn [xorb].
  destruct (Zdigits2_bounds (Z.pos mx) ltac:(lia)) as [Hmx Hdx], (Zdigits2_bounds (Z.pos my) ltac:(lia)) as [Hmy Hdy].
  set (dx := Zdigits2 (Z.pos mx)) in *. set (dy := Zdigits2 (Z.pos my)) in *. clearbody dx dy. cbv zeta.
  assert (dx + ex ≤ dy + ey) as Hd.
  { apply Z.nlt_ge. intros Hlt. assert (2 ^ (dy + ey + 1074) ≤ 2 ^ (dx - 1 + ex + 1074)) as Hp by (apply Z.pow_le_mono_r; lia).
    replace (dy + ey + 1074) with (dy + (ey + 1074)) in Hp by lia. replace (dx - 1 + ex + 1074) with (dx - 1 + (ex + 1074)) in Hp by lia.
    rewrite (Z.pow_add_r 2 dy), (Z.pow_add_r 2 (dx - 1)) in Hp by lia. assert (0 < 2 ^ (ey + 1074) ∧ 0 < 2 ^ (ex + 1074)) by (split; apply Z.pow_pos_nonneg; lia).
    assert (Z.pos my * 2 ^ (ey + 1074) < 2 ^ dy * 2 ^ (ey + 1074)) by (apply Z.mul_lt_mono_pos_r; lia).
    assert (2 ^ (dx - 1) * 2 ^ (ex + 1074) ≤ Z.pos mx * 2 ^ (ex + 1074)) by (apply Z.mul_le_mono_nonneg_r; lia). lia. }
  change (fexp f64_prec f64_emax (dx + ex - (dy + ey))) with (Z.max (dx + ex - (dy + ey) - 53) (-1074)).
  set (e' := Z.min (Z.max (dx + ex - (dy + ey) - 53) (-1074)) (ex - ey)).
  assert (e' ≤ ex - ey ∧ e' ≤ -53 ∧ (-1074 < e' → e' ≤ dx + ex - (dy + ey) - 53)) as (He1 & He2 & He3) by (unfold e'; lia). clearbody e'.
  assert (match ex - ey - e' with 0 => Z.pos mx | Z.pos _ => Z.shiftl (Z.pos mx) (ex - ey - e') | Z.neg _ => 0 end = Z.pos mx * 2 ^ (ex - ey - e')) as ->.
  { destruct (ex - ey - e') as [|p|p] eqn:Hs; [by rewrite Z.pow_0_r, Z.mul_1_r|by rewrite Z.shiftl_mul_pow2 by lia|lia]. }
  pose proof (Z_div_mod (Z.pos mx * 2 ^ (ex - ey - e')) (Z.pos my) ltac:(lia)) as Hdm.
  destruct (Z.div_eucl (Z.pos mx * 2 ^ (ex - ey - e')) (Z.pos my)) as [q r]. destruct Hdm as [Hdm Hr].
  assert (0 < 2 ^ (ex - ey - e')) as Hps by (apply Z.pow_pos_nonneg; lia). assert (0 ≤ q) as Hq by nia.
  (* below one, exactly *)
  assert (Z.pos mx * 2 ^ (ex - ey - e') ≤ Z.pos my * 2 ^ (- e')) as Hone.
  { apply Z.mul_le_mono_pos_r with (2 ^ (ey + 1074)); [apply Z.pow_pos_nonneg; lia|]. rewrite <- !Z.mul_assoc, <- !Z.pow_add_r by lia.
    replace (ex - ey - e' + (ey + 1074)) with (ex + 1074 + - e') by lia. replace (- e' + (ey + 1074)) with (ey + 1074 + - e') by lia.
    rewrite (Z.pow_add_r 2 (ex + 1074)), (Z.pow_add_r 2 (ey + 1074)), !Z.mul_assoc by lia. apply Z.mul_le_mono_nonneg_r; [apply Z.pow_nonneg; lia|done]. }
  assert (4 * q + quarters (new_location (Z.pos my) r) ≤ 4 * 2 ^ (- e')) as Hup.
  { assert (q ≤ 2 ^ (- e')) by nia. destruct (Z.eq_dec r 0) as [->|Hr0].
    - assert (quarters (new_location (Z.pos my) 0) = 0) as ->; [|lia].
      pose proof (new_location_exact (Z.pos my) 0) as Hex0. by destruct (new_location (Z.pos my) 0) as [|[]].
    - assert (q < 2 ^ (- e')) by nia. assert (quarters (new_location (Z.pos my) r) < 4); [|lia]. by destruct (new_location (Z.pos my) r) as [|[]]. }
  assert (0 < q ∨ q = 0 ∧ e' ≤ -1074) as Hq'.
  { destruct (Z.le_gt_cases e' (-1074)); [lia|]. left. specialize (He3 ltac:(lia)).
    assert (2 ^ dy ≤ 2 ^ (dx - 1 + (ex - ey - e'))) as Hp by (apply Z.pow_le_mono_r; lia). rewrite Z.pow_add_r in Hp by lia. nia. }
  assert (Zdigits2 q ≤ 1 - e') as Hdq.
  { destruct (Z.eq_dec q 0) as [->|]; [cbn; lia|]. apply Zdigits2_le. split; [lia|]. replace (1 - e') with (- e' + 1) by lia. rewrite Z.pow_add_r by lia.
    assert (0 < 2 ^ (- e')) by (apply Z.pow_pos_nonneg; lia). pose proof (quarters (new_location (Z.pos my) r)).
    assert (0 ≤ quarters (new_location (Z.pos my) r)) by (by destruct (new_location (Z.pos my) r) as [|[]]). lia. }
  assert (e' ≤ exponent q e') as Hexp.
  { rewrite exponent_eq. destruct (Z.le_gt_cases e' (-1074)); [lia|]. specialize (He3 ltac:(lia)).
    assert (2 ^ 52 ≤ q) as Hbig.
    { assert (2 ^ (52 + dy) ≤ 2 ^ (dx - 1 + (ex - ey - e'))) as Hp by (apply Z.pow_le_mono_r; lia). rewrite !Z.pow_add_r in Hp by lia. nia. }
    pose proof (Zdigits2_mono (2 ^ 52) q ltac:(lia)) as Hd2. change (Zdigits2 (2 ^ 52)) with 53 in Hd2. lia. }
  destruct (round_aux_units q e' (new_location (Z.pos my) r) Hq' Hexp) as [Hn Hu]. cbv zeta in Hu. split; [exact Hn|].
  rewrite fle_units by done. rewrite Hu, Z.leb_le, units_one. etrans; [apply Z.le_min_l|].
  assert (-1074 ≤ exponent q e' ≤ 0) as Hg by (rewrite exponent_eq; lia).
  transitivity (2 ^ (- exponent q e') * 2 ^ (exponent q e' + 1074)); [|rewrite <- Z.pow_add_r by lia; apply Z.pow_le_mono_r; lia].
  apply Z.mul_le_mono_nonneg_r; [apply Z.pow_nonneg; lia|]. apply rne_le; [lia|]. rewrite <- Z.pow_add_r by lia.
  replace (- exponent q e' + (exponent q e' - e' + 2)) with (2 + - e') by lia. rewrite Z.pow_add_r by lia. exact Hup.
Qed.

(** ** What else the callers need *)

Lemma is_finite_units x : unsigned x = true → is_finite x = (units x <? infinite_units).
Proof.
  pose proof infinite_units_pos. destruct x as [s|s| |s m e]; intros Hx; cbn [is_finite units]; symmetry; [by apply Z.ltb_lt|by apply Z.ltb_irrefl|done|].
  cbn [unsigned] in Hx. apply andb_true_iff in Hx as [_ Hx]. apply Z.ltb_lt, (units_finite m e Hx).
Qed.

(** At most a finite number, so finite. *)
Lemma finite_below x y : unsigned x = true → finite_unsigned y = true → fle x y = true → finite_unsigned x = true.
Proof.
  unfold finite_unsigned. intros Hx [Hy Hfy]%andb_true_iff. rewrite fle_units, Z.leb_le by done. intros Hle.
  rewrite Hx, is_finite_units by done. rewrite is_finite_units, Z.ltb_lt in Hfy by done. apply Z.ltb_lt. lia.
Qed.

Lemma fsub_units x y : finite_unsigned x = true → finite_unsigned y = true → fle y x = true →
  finite_unsigned (fsub x y) = true ∧ fle (fsub x y) x = true.
Proof.
  intros Hfx Hfy Hle. assert (Hnx := Hfx). assert (Hny := Hfy). unfold finite_unsigned in Hnx, Hny. apply andb_true_iff in Hnx as [Hx Hx'], Hny as [Hy Hy'].
  rewrite fle_units, Z.leb_le in Hle by done.
  cut (unsigned (fsub x y) = true ∧ fle (fsub x y) x = true). { intros [Hn Hl]. split; [by apply (finite_below _ x)|done]. }
  destruct x as [sx|[]| |[] mx ex]; try discriminate Hx; try discriminate Hx'; destruct y as [sy|[]| |[] my ey]; try discriminate Hy; try discriminate Hy'.
  - by destruct sx, sy.
  - cbn [unsigned negb andb] in Hy. pose proof (units_finite my ey Hy). cbn [units] in Hle. lia.
  - split; [exact Hx|]. apply fle_refl. done.
  - cbn [unsigned negb andb] in Hx, Hy. destruct (finite_digits mx ex Hx) as (Hex & _), (finite_digits my ey Hy) as (Hey & _).
    unfold fsub, SFsub, cond_Zopp. rewrite !shl_align_units by lia. cbn [units] in Hle.
    assert (∀ m e, Z.min ex ey ≤ e → Z.pos m * 2 ^ (e + 1074) = Z.pos m * 2 ^ (e - Z.min ex ey) * 2 ^ (Z.min ex ey + 1074)) as Hval.
    { intros m e He. rewrite <- Z.mul_assoc, <- Z.pow_add_r by lia. do 2 f_equal. lia. }
    assert (0 < 2 ^ (Z.min ex ey + 1074)) by (apply Z.pow_pos_nonneg; lia).
    assert (Z.pos my * 2 ^ (ey - Z.min ex ey) ≤ Z.pos mx * 2 ^ (ex - Z.min ex ey)) as Hle'.
    { rewrite (Hval my ey), (Hval mx ex) in Hle by lia. by apply Z.mul_le_mono_pos_r in Hle. }
    destruct (Z.pos mx * 2 ^ (ex - Z.min ex ey) - Z.pos my * 2 ^ (ey - Z.min ex ey)) as [|p|p] eqn:Hdiff; [by split| |lia].
    destruct (binary_round_units p (Z.min ex ey) ltac:(lia)) as [Hn Hu]. cbn [binary_normalize]. cbv zeta in *. split; [exact Hn|].
    rewrite fle_units, Z.leb_le, Hu; [|exact Hn|by apply unsigned_finite]. etrans; [apply Z.le_min_l|].
    rewrite <- (rnd_units (S754_finite false mx ex)) by (by apply unsigned_finite). cbn [units]. rewrite (Hval mx ex) by lia.
    apply rnd_mono; [|lia]. assert (0 ≤ Z.pos my * 2 ^ (ey - Z.min ex ey)) by (apply Z.mul_nonneg_nonneg; [lia|apply Z.pow_nonneg; lia]).
    split; [lia|]. apply Z.mul_le_mono_nonneg_r; lia.
Qed.

Lemma int_to_float_unsigned z x : 0 ≤ z → int_to_float z = Ret x → finite_unsigned x = true.
Proof.
  intros Hz. unfold int_to_float, of_Z_raw, binary_normalize. destruct z as [|p|p]; [by intros [= <-]| |lia].
  destruct (binary_round_units p 0 ltac:(lia)) as [Hn _]. cbv zeta in Hn. unfold finite_unsigned. destruct (binary_round _ _ _ _ _) as [s|s| |s m e]; intros [= <-]; by rewrite Hn.
Qed.

Lemma fmax_unsigned x y : unsigned x = true → unsigned y = true → unsigned (fmax x y) = true.
Proof. unfold fmax. by destruct (flt x y). Qed.

Lemma fmin_unsigned x y : unsigned x = true → unsigned y = true → unsigned (fmin x y) = true.
Proof. unfold fmin. by destruct (flt y x). Qed.

Lemma unsigned_not_nan x : unsigned x = true → is_nan x = false.
Proof. by destruct x. Qed.

Lemma flt_units x y : unsigned x = true → unsigned y = true → flt x y = (units x <? units y).
Proof.
  intros Hx Hy. rewrite flt_not_fle by (by apply unsigned_not_nan). rewrite fle_units by done. by rewrite Z.ltb_antisym.
Qed.

Lemma fmax_units x y : unsigned x = true → unsigned y = true → units (fmax x y) = Z.max (units x) (units y).
Proof. intros Hx Hy. unfold fmax. rewrite flt_units by done. destruct (Z.ltb_spec (units x) (units y)); lia. Qed.

Lemma fmin_units x y : unsigned x = true → unsigned y = true → units (fmin x y) = Z.min (units x) (units y).
Proof. intros Hx Hy. unfold fmin. rewrite flt_units by done. destruct (Z.ltb_spec (units y) (units x)); lia. Qed.

#[export] Hint Resolve fadd_unsigned fmax_unsigned fmin_unsigned : core.
