(* ===== verification/PyTime.v ===== *)
(** * [datetime] and [timedelta]

    Both are integers of microseconds, as CPython keeps them: a datetime
    counts from 0001-01-01T00:00:00 UTC (every timestamp the program stores is
    timezone-aware UTC), a timedelta is a signed duration.  Arithmetic that
    leaves the representable range raises [OverflowError], and multiplying or
    dividing a timedelta rounds half to even, as the C implementation does. *)

From Stdlib Require Import ZArith Lia Floats.SpecFloat.
From S2P Require Import Prelude PyFloat.

Abbreviation datetime := Z (only parsing).
Abbreviation timedelta := Z (only parsing).

Definition us_second : Z := 1000000.
Definition us_hour : Z := 3600 * us_second.
Definition us_day : Z := 86400 * us_second.

(** 3652059 days from 0001-01-01 up to and including 9999-12-31. *)
Definition datetime_end : Z := 3652059 * us_day.
Definition timedelta_end : Z := 1000000000 * us_day.
Definition timedelta_min : Z := - (999999999 * us_day).

Definition days (n : Z) : timedelta := n * us_day.
Definition hours (n : Z) : timedelta := n * us_hour.
Definition seconds (n : Z) : timedelta := n * us_second.

Definition td_check (d : Z) : res timedelta :=
  if bool_decide (timedelta_min ≤ d < timedelta_end) then Ret d else Raise OverflowError.

Definition dt_check (t : Z) : res datetime :=
  if bool_decide (0 ≤ t < datetime_end) then Ret t else Raise OverflowError.

Definition dt_add (t : datetime) (d : timedelta) : res datetime := dt_check (t + d).
Definition dt_sub (t : datetime) (d : timedelta) : res datetime := dt_check (t - d).

(** [divide_nearest]: the integer nearest to [a / b], ties to even. *)
Definition div_nearest (a b : Z) : Z :=
  let q := a / b in
  let r := a mod b in
  if (b <? 2 * r) || ((2 * r =? b) && Z.odd q) then q + 1 else q.

Definition td_mul (d : timedelta) (n : Z) : res timedelta := td_check (d * n).

Definition td_div (d : timedelta) (n : Z) : res timedelta :=
  if n =? 0 then Raise ZeroDivisionError
  else td_check (if 0 <? n then div_nearest d n else div_nearest (- d) (- n)).

(** [float.as_integer_ratio], up to the common factor. *)
Definition as_integer_ratio (x : f64) : res (Z * Z) :=
  match x with
  | S754_nan => Raise (ValueError "cannot convert NaN to integer ratio")
  | S754_infinity _ => Raise OverflowError
  | S754_zero _ => Ret (0, 1)
  | S754_finite s m e =>
      let z := if s then Z.neg m else Z.pos m in
      if 0 <=? e then Ret (Z.shiftl z e, 1) else Ret (z, Z.shiftl 1 (- e))
  end.

(** [timedelta * float]. *)
Definition td_mul_float (d : timedelta) (x : f64) : res timedelta :=
  '(n, den) ← as_integer_ratio x;
  td_check (div_nearest (d * n) den).

Lemma div_nearest_bounds a b :
  0 < b → 2 * a - b ≤ 2 * b * div_nearest a b ≤ 2 * a + b.
Proof.
  intros Hb. unfold div_nearest.
  pose proof (Z.div_mod a b ltac:(lia)). pose proof (Z.mod_pos_bound a b Hb).
  destruct (Z.ltb_spec b (2 * (a mod b))); simpl; [nia|].
  destruct (Z.eqb_spec (2 * (a mod b)) b); simpl; [|nia].
  destruct (Z.odd _); nia.
Qed.

Lemma div_nearest_le a b c : 0 < b → a ≤ b * c → div_nearest a b ≤ c.
Proof. intros Hb Ha. pose proof (div_nearest_bounds a b Hb). nia. Qed.

(** Strictly under when the dividend stays a whole half unit below. *)
Lemma div_nearest_lt a b c : 0 < b → 2 * a + b < 2 * b * c → div_nearest a b < c.
Proof. intros Hb Ha. pose proof (div_nearest_bounds a b Hb). nia. Qed.

Lemma div_nearest_nonneg a b : 0 < b → 0 ≤ a → 0 ≤ div_nearest a b.
Proof. intros Hb Ha. pose proof (div_nearest_bounds a b Hb). nia. Qed.

Lemma dt_check_inv t t' : dt_check t = Ret t' → t' = t ∧ 0 ≤ t < datetime_end.
Proof. unfold dt_check. case_bool_decide; intros [= <-]; auto. Qed.

Lemma td_check_inv d d' :
  td_check d = Ret d' → d' = d ∧ timedelta_min ≤ d < timedelta_end.
Proof. unfold td_check. case_bool_decide; intros [= <-]; auto. Qed.

Lemma dt_check_ok t : 0 ≤ t < datetime_end → dt_check t = Ret t.
Proof. intros. unfold dt_check. by rewrite bool_decide_eq_true_2. Qed.

Lemma td_check_ok d : timedelta_min ≤ d < timedelta_end → td_check d = Ret d.
Proof. intros. unfold td_check. by rewrite bool_decide_eq_true_2. Qed.

(** Two datetimes never differ by more than a timedelta can hold. *)
Lemma dt_diff_ok t1 t2 :
  0 ≤ t1 < datetime_end → 0 ≤ t2 < datetime_end → td_check (t1 - t2) = Ret (t1 - t2).
Proof.
  intros. apply td_check_ok. unfold timedelta_min, timedelta_end, datetime_end, us_day, us_second in *.
  lia.
Qed.
