(* ===== verification/PySeq.v ===== *)
(** * Python sequences

    Slices and indices with Python's reading of negative positions, the
    descending and stepped ranges the modelled loops run over. *)

From Stdlib Require Import ZArith Lia.
From S2P Require Import Prelude.

(** The slice [l[-n:]], including Python's reading of [-0] and of negative [n]. *)
Definition last_slice {A} (n : Z) (l : list A) : list A :=
  if 0 <? n then drop (length l - Z.to_nat n) l else drop (Z.to_nat (- n)) l.

(** Where a slice bound falls in a sequence of length [n]. *)
Definition clamp (i n : Z) : Z := if i <? 0 then Z.max 0 (i + n) else Z.min i n.

(** [l[i:j]]. *)
Definition py_slice {A} (i j : Z) (l : list A) : list A :=
  let n := Z.of_nat (length l) in
  take (Z.to_nat (clamp j n - clamp i n)) (drop (Z.to_nat (clamp i n)) l).

(** [l[i]]. *)
Definition py_index {A} (i : Z) (l : list A) : res A :=
  let n := Z.of_nat (length l) in
  let i' := if i <? 0 then i + n else i in
  if (i' <? 0) then Raise IndexError
  else match l !! Z.to_nat i' with Some x => Ret x | None => Raise IndexError end.

(** [range(hi, lo - 1, -1)]. *)
Definition range_down (hi lo : Z) : list Z := map (λ k, hi - k) (seqZ 0 (hi - lo + 1)).

(** [range(0, n, step)] for a positive step. *)
Definition range_step (n step : Z) : list Z := map (λ k, k * step) (seqZ 0 ((n + step - 1) / step)).

(** The first value a loop returns from. *)
Fixpoint first_some {A B} (f : A → option B) (l : list A) : option B :=
  match l with
  | [] => None
  | x :: l' => match f x with Some y => Some y | None => first_some f l' end
  end.

Lemma elem_of_range_down hi lo x : x ∈ range_down hi lo ↔ lo ≤ x ≤ hi.
Proof.
  unfold range_down. change (map ?f ?l) with (f <$> l). rewrite list_elem_of_fmap. split.
  - intros (k & -> & Hk%elem_of_seqZ). lia.
  - intros Hx. exists (hi - x). split; [lia|]. apply elem_of_seqZ. lia.
Qed.

Lemma range_down_cons hi lo : lo ≤ hi → range_down hi lo = hi :: range_down (hi - 1) lo.
Proof.
  intros Hle. unfold range_down. rewrite (seqZ_cons 0) by lia. simpl. f_equal; [lia|].
  replace (Z.pred (hi - lo + 1)) with (hi - 1 - lo + 1) by lia.
  rewrite <- (fmap_add_seqZ 1 0). change (map ?f ?l) with (f <$> l). rewrite <- list_fmap_compose.
  apply list_fmap_ext. intros i k _. simpl. lia.
Qed.

Lemma first_some_None {A B} (f : A → option B) l : first_some f l = None ↔ ∀ x, x ∈ l → f x = None.
Proof.
  induction l as [|x l IH]; simpl; [split; [intros _ x Hx; by apply not_elem_of_nil in Hx|done]|].
  destruct (f x) eqn:Hf.
  - split; [done|]. intros Hall. rewrite (Hall x) in Hf by (by left). done.
  - rewrite IH. split; intros Hall y; [|intros Hy; apply Hall; by right].
    intros [->|Hy]%elem_of_cons; [done|by apply Hall].
Qed.

(** Searching downwards finds the largest position that answers. *)
Lemma first_some_down {B} (f : Z → option B) hi lo y :
  first_some f (range_down hi lo) = Some y →
  ∃ x, lo ≤ x ≤ hi ∧ f x = Some y ∧ ∀ x', x < x' ≤ hi → f x' = None.
Proof.
  remember (Z.to_nat (hi - lo + 1)) as n eqn:Hn. revert hi Hn. induction n as [|n IH]; intros hi Hn.
  { assert (range_down hi lo = []) as -> by (unfold range_down; rewrite seqZ_nil by lia; done). done. }
  rewrite range_down_cons by lia. simpl. destruct (f hi) eqn:Hf.
  - intros [= ->]. exists hi. split; [lia|]. split; [done|lia].
  - intros Hy. destruct (IH (hi - 1)) as (x & Hx & Hfx & Hmax); [lia|done|]. exists x. split; [lia|].
    split; [done|]. intros x' Hx'. destruct (decide (x' = hi)) as [->|]; [done|]. apply Hmax. lia.
Qed.

Lemma py_slice_subseteq {A} i j (l : list A) : py_slice i j l ⊆ l.
Proof.
  intros x Hx. unfold py_slice in Hx. apply elem_of_take in Hx as (k & Hk%list_elem_of_lookup_2 & _).
  by eapply sublist_subseteq; [apply sublist_drop|].
Qed.

Lemma py_slice_map {A B} (f : A → B) i j (l : list A) : py_slice i j (map f l) = map f (py_slice i j l).
Proof.
  unfold py_slice. rewrite length_map. change (map f) with (fmap (M := list) f). by rewrite fmap_take, fmap_drop.
Qed.

(** A slice from the start is a prefix, of [k] elements when [k] is not negative. *)
Lemma py_slice_start {A} k (l : list A) : ∃ n, py_slice 0 k l = take n l ∧ (0 ≤ k → take n l = take (Z.to_nat k) l).
Proof.
  unfold py_slice. assert (clamp 0 (Z.of_nat (length l)) = 0) as -> by (unfold clamp; simpl; lia).
  eexists. split; [done|]. unfold clamp. intros Hk. destruct (Z.ltb_spec k 0); [lia|]. destruct (Z.le_ge_cases k (Z.of_nat (length l))) as [Hl|Hl].
  - f_equal. lia.
  - rewrite !take_ge; [done|lia|lia].
Qed.

Lemma py_index_nonneg {A} (l : list A) i x : l !! i = Some x → py_index (Z.of_nat i) l = Ret x.
Proof.
  intros Hx. unfold py_index. rewrite (proj2 (Z.ltb_ge (Z.of_nat i) 0)) by lia.
  rewrite (proj2 (Z.ltb_ge (Z.of_nat i) 0)) by lia. by rewrite Nat2Z.id, Hx.
Qed.

Lemma py_index_last {A} (l : list A) x : last l = Some x → py_index (-1) l = Ret x.
Proof.
  rewrite last_lookup. intros Hx. pose proof (lookup_lt_Some _ _ _ Hx). unfold py_index. cbn [Z.ltb Z.compare].
  rewrite (proj2 (Z.ltb_ge _ 0)) by lia. replace (Z.to_nat (-1 + Z.of_nat (length l))) with (pred (length l)) by lia.
  by rewrite Hx.
Qed.
