(* ===== verification/Digest.v ===== *)
(** * Digests and UUIDs

    [hashlib.sha256(...).hexdigest()] (sync_mixer.content_hash), the SHA-1 of
    [uuid.uuid5], and the text form of a UUID, all executable.  A Python [str]
    is its UTF-8 encoding, one Rocq [ascii] per byte; the code only encodes,
    concatenates, splits at ASCII characters and compares such strings.
    No theorem assumes a digest is injective: the ones that compare content
    through its digest say so in their statement. *)

From Stdlib Require Import ZArith Lia Ascii String.
From S2P Require Import Prelude.

Definition bytes_of (s : string) : list Z :=
  map (λ c, Z.of_N (N_of_ascii c)) (list_ascii_of_string s).

Definition w32 : Z := 4294967296.
Definition add32 (x y : Z) : Z := (x + y) mod w32.
Definition not32 (x : Z) : Z := w32 - 1 - x.
Definition rotr32 (n x : Z) : Z :=
  Z.lor (Z.shiftr x n) (Z.shiftl x (32 - n) mod w32).
Definition rotl32 (n x : Z) : Z := rotr32 (32 - n) x.

(** Big-endian words. *)
Fixpoint be_words (bs : list Z) : list Z :=
  match bs with
  | a :: b :: c :: d :: rest =>
      (Z.shiftl a 24 + Z.shiftl b 16 + Z.shiftl c 8 + d) :: be_words rest
  | _ => []
  end.

Definition be_bytes (n : nat) (x : Z) : list Z :=
  map (λ i, Z.shiftr x (8 * Z.of_nat i) mod 256) (rev (seq 0 n)).

(** The padding both digests share: 0x80, zeros, the bit length in 64 bits. *)
Definition pad (bs : list Z) : list Z :=
  let len := Z.of_nat (length bs) in
  let zeros := Z.to_nat ((55 - len) mod 64) in
  bs ++ [128] ++ repeat 0 zeros ++ be_bytes 8 (8 * len).

Fixpoint chunks_of (fuel n : nat) (l : list Z) : list (list Z) :=
  match fuel, l with
  | S fuel', _ :: _ => firstn n l :: chunks_of fuel' n (skipn n l)
  | _, _ => []
  end.

Definition nthZ (l : list Z) (i : nat) : Z := nth i l 0.

Module Sha256.
(** The fractional parts of the cube roots of the first 64 primes. *)
Definition k : list Z :=
  [1116352408; 1899447441; 3049323471; 3921009573; 961987163; 1508970993; 2453635748;
   2870763221; 3624381080; 310598401; 607225278; 1426881987; 1925078388; 2162078206;
   2614888103; 3248222580; 3835390401; 4022224774; 264347078; 604807628; 770255983;
   1249150122; 1555081692; 1996064986; 2554220882; 2821834349; 2952996808; 3210313671;
   3336571891; 3584528711; 113926993; 338241895; 666307205; 773529912; 1294757372;
   1396182291; 1695183700; 1986661051; 2177026350; 2456956037; 2730485921; 2820302411;
   3259730800; 3345764771; 3516065817; 3600352804; 4094571909; 275423344; 430227734;
   506948616; 659060556; 883997877; 958139571; 1322822218; 1537002063; 1747873779;
   1955562222; 2024104815; 2227730452; 2361852424; 2428436474; 2756734187; 3204031479;
   3329325298].

(** The fractional parts of the square roots of the first 8 primes. *)
Definition h0 : list Z :=
  [1779033703;3144134277;1013904242;2773480762;1359893119;2600822924;528734635;1541459225].

(** The message schedule, newest word first. *)
Fixpoint extend (n : nat) (w : list Z) : list Z :=
  match n with
  | O => w
  | S n' =>
      let x := nthZ w 14 in
      let y := nthZ w 1 in
      let s0 := Z.lxor (Z.lxor (rotr32 7 x) (rotr32 18 x)) (Z.shiftr x 3) in
      let s1 := Z.lxor (Z.lxor (rotr32 17 y) (rotr32 19 y)) (Z.shiftr y 10) in
      extend n' (add32 (add32 (nthZ w 15) s0) (add32 (nthZ w 6) s1) :: w)
  end.

Definition round (st : list Z) (kw : Z) : list Z :=
  match st with
  | [a; b; c; d; e; f; g; h] =>
      let s1 := Z.lxor (Z.lxor (rotr32 6 e) (rotr32 11 e)) (rotr32 25 e) in
      let ch := Z.lxor (Z.land e f) (Z.land (not32 e) g) in
      let t1 := add32 (add32 h s1) (add32 ch kw) in
      let s0 := Z.lxor (Z.lxor (rotr32 2 a) (rotr32 13 a)) (rotr32 22 a) in
      let maj := Z.lxor (Z.lxor (Z.land a b) (Z.land a c)) (Z.land b c) in
      [add32 t1 (add32 s0 maj); a; b; c; add32 d t1; e; f; g]
  | _ => st
  end.

Definition block (st chunk : list Z) : list Z :=
  let ws := rev (extend 48 (rev (be_words chunk))) in
  zip_with add32 st (fold_left round (zip_with add32 k ws) st).

Definition digest (bs : list Z) : list Z :=
  let p := pad bs in
  flat_map (be_bytes 4) (fold_left block (chunks_of (length p) 64 p) h0).
End Sha256.

Module Sha1.
Definition h0 : list Z := [0x67452301;0xefcdab89;0x98badcfe;0x10325476;0xc3d2e1f0].

Fixpoint extend (n : nat) (w : list Z) : list Z :=
  match n with
  | O => w
  | S n' =>
      extend n' (rotl32 1 (Z.lxor (Z.lxor (nthZ w 2) (nthZ w 7))
                                  (Z.lxor (nthZ w 13) (nthZ w 15))) :: w)
  end.

Definition round (st : list Z) (iw : nat * Z) : list Z :=
  match st with
  | [a; b; c; d; e] =>
      let i := fst iw in
      let '(f, kk) :=
        if (i <? 20)%nat then (Z.lor (Z.land b c) (Z.land (not32 b) d), 0x5a827999)
        else if (i <? 40)%nat then (Z.lxor (Z.lxor b c) d, 0x6ed9eba1)
        else if (i <? 60)%nat then
          (Z.lor (Z.lor (Z.land b c) (Z.land b d)) (Z.land c d), 0x8f1bbcdc)
        else (Z.lxor (Z.lxor b c) d, 0xca62c1d6) in
      [add32 (add32 (add32 (rotl32 5 a) f) (add32 e kk)) (snd iw); a; rotl32 30 b; c; d]
  | _ => st
  end.

Definition block (st chunk : list Z) : list Z :=
  let ws := rev (extend 64 (rev (be_words chunk))) in
  zip_with add32 st (fold_left round (zip (seq 0 80) ws) st).

Definition digest (bs : list Z) : list Z :=
  let p := pad bs in
  flat_map (be_bytes 4) (fold_left block (chunks_of (length p) 64 p) h0).
End Sha1.

(** ** Hexadecimal *)

Definition hex_digit (d : Z) : ascii :=
  ascii_of_N (Z.to_N (if d <? 10 then 48 + d else 87 + d)).

(** [n] lower-case hex digits of [x], most significant first. *)
Fixpoint hex_of (n : nat) (x : Z) : string :=
  match n with
  | O => EmptyString
  | S n' => String (hex_digit (Z.shiftr x (4 * Z.of_nat n') mod 16)) (hex_of n' x)
  end.

Definition hex_bytes (bs : list Z) : string :=
  foldr (λ b acc, append (hex_of 2 b) acc) EmptyString bs.

(** [hashlib.sha256(content.encode("utf-8")).hexdigest()]. *)
Definition sha256_hexdigest (content : string) : string :=
  hex_bytes (Sha256.digest (bytes_of content)).

(** ** UUIDs *)

Definition uuid_end : Z := 2 ^ 128.

(** [str(u)]: 8-4-4-4-12 hex digits. *)
Definition uuid_str (u : uuid) : string :=
  (hex_of 8 (Z.shiftr u 96) +:+ "-" +:+ hex_of 4 (Z.shiftr u 80) +:+ "-" +:+
   hex_of 4 (Z.shiftr u 64) +:+ "-" +:+ hex_of 4 (Z.shiftr u 48) +:+ "-" +:+ hex_of 12 u)%string.

Definition hex_value (c : ascii) : option Z :=
  let n := Z.of_N (N_of_ascii c) in
  if (48 <=? n) && (n <=? 57) then Some (n - 48)
  else if (97 <=? n) && (n <=? 102) then Some (n - 87)
  else if (65 <=? n) && (n <=? 70) then Some (n - 55)
  else None.

Fixpoint parse_hex (acc : Z) (s : string) : option Z :=
  match s with
  | EmptyString => Some acc
  | String c s' => match hex_value c with
                   | Some d => parse_hex (16 * acc + d) s'
                   | None => None
                   end
  end.

Fixpoint remove_char (c : ascii) (s : string) : string :=
  match s with
  | EmptyString => EmptyString
  | String d s' => if Ascii.eqb c d then remove_char c s' else String d (remove_char c s')
  end.

(** [uuid.UUID(s)] on dashed or bare hex: the dashes are dropped, exactly 32
    hex digits must remain.  (The [urn:uuid:] and brace forms, which nothing
    in the program writes, are refused here.) *)
Definition uuid_parse (s : string) : res uuid :=
  let hex := remove_char "-" s in
  if (String.length hex =? 32)%nat then
    match parse_hex 0 hex with
    | Some u => Ret u
    | None => Raise (ValueError "invalid literal for int() with base 16")
    end
  else Raise (ValueError "badly formed hexadecimal UUID string").

(** [uuid.NAMESPACE_OID]. *)
Definition NAMESPACE_OID : uuid := 0x6ba7b8129dad11d180b400c04fd430c8.

Definition be_value (bs : list Z) : Z := fold_left (λ acc b, 256 * acc + b) bs 0.

(** [uuid.uuid5(ns, name)]: the first 16 bytes of the SHA-1 of the namespace
    bytes and the name, with the version and variant bits set. *)
Definition uuid5 (ns : uuid) (name : string) : uuid :=
  let h := be_value (firstn 16 (Sha1.digest (be_bytes 16 ns ++ bytes_of name))) in
  let h1 := Z.lor (Z.ldiff h (Z.shiftl 0xf000 64)) (Z.shiftl 0x5000 64) in
  Z.lor (Z.ldiff h1 (Z.shiftl 0xc000 48)) (Z.shiftl 0x8000 48).

(** Known answers. *)
Example sha256_abc :
  sha256_hexdigest "abc" = "ba7816bf8f01cfea414140de5dae2223b00361a396177a9cb410ff61f20015ad"%string.
Proof. vm_compute. reflexivity. Qed.

Example uuid5_python_org :
  uuid_str (uuid5 0x6ba7b8109dad11d180b400c04fd430c8 "python.org")
  = "886313e1-3b8a-5372-9b90-0c9aee199e5d"%string.
Proof. vm_compute. reflexivity. Qed.

(** ** The text form of a UUID parses back *)

Lemma hex_value_digit d : 0 ≤ d < 16 → hex_value (hex_digit d) = Some d.
Proof.
  intros Hd.
  assert (Hc : d = 0 ∨ d = 1 ∨ d = 2 ∨ d = 3 ∨ d = 4 ∨ d = 5 ∨ d = 6 ∨ d = 7 ∨ d = 8
    ∨ d = 9 ∨ d = 10 ∨ d = 11 ∨ d = 12 ∨ d = 13 ∨ d = 14 ∨ d = 15) by lia.
  by repeat destruct Hc as [->|Hc]; subst.
Qed.

Lemma hex_digit_not_dash d : 0 ≤ d < 16 → Ascii.eqb "-" (hex_digit d) = false.
Proof.
  intros Hd. destruct (Ascii.eqb_spec "-" (hex_digit d)) as [He|]; [|done].
  pose proof (hex_value_digit d Hd) as Hv. by rewrite <- He in Hv.
Qed.

Lemma remove_char_app c s1 s2 :
  remove_char c (s1 +:+ s2)%string = (remove_char c s1 +:+ remove_char c s2)%string.
Proof.
  induction s1 as [|d s1 IH]; [done|].
  change ((String d s1 +:+ s2)%string) with (String d (s1 +:+ s2)%string). simpl.
  destruct (Ascii.eqb c d); rewrite IH; done.
Qed.

Lemma remove_dash_hex n x : remove_char "-" (hex_of n x) = hex_of n x.
Proof.
  induction n as [|n IH]; [done|]. cbn [hex_of remove_char].
  rewrite hex_digit_not_dash by (apply Z.mod_pos_bound; lia). by rewrite IH.
Qed.

Lemma string_length_app s1 s2 :
  String.length (s1 +:+ s2)%string = (String.length s1 + String.length s2)%nat.
Proof. induction s1 as [|c s1 IH]; [done|]. simpl. by rewrite <- IH. Qed.

Lemma hex_of_length n x : String.length (hex_of n x) = n.
Proof. induction n; simpl; congruence. Qed.

Lemma parse_hex_app acc s1 s2 v :
  parse_hex acc s1 = Some v → parse_hex acc (s1 +:+ s2)%string = parse_hex v s2.
Proof.
  revert acc. induction s1 as [|c s1 IH]; intros acc; simpl.
  - by intros [= ->].
  - change ((String c s1 +:+ s2)%string) with (String c (s1 +:+ s2)%string). simpl.
    destruct (hex_value c); [|done]. apply IH.
Qed.

Lemma parse_hex_of acc n x :
  parse_hex acc (hex_of n x) = Some (acc * 16 ^ Z.of_nat n + x mod 16 ^ Z.of_nat n).
Proof.
  revert acc. induction n as [|n IH]; intros acc; cbn [hex_of parse_hex].
  - rewrite Z.mod_1_r. f_equal. lia.
  - rewrite hex_value_digit by (apply Z.mod_pos_bound; lia).
    rewrite IH. f_equal.
    rewrite Nat2Z.inj_succ, Z.pow_succ_r by lia.
    rewrite Z.shiftr_div_pow2 by lia.
    replace (2 ^ (4 * Z.of_nat n)) with (16 ^ Z.of_nat n)
      by (rewrite Z.pow_mul_r by lia; done).
    pose proof (Z.pow_pos_nonneg 16 (Z.of_nat n) ltac:(lia) ltac:(lia)) as Hp.
    set (p := 16 ^ Z.of_nat n) in *.
    rewrite (Z.mul_comm 16 p), (Z.rem_mul_r x p 16) by lia. lia.
Qed.

Lemma hex_of_inj n x y :
  0 ≤ x < 16 ^ Z.of_nat n → 0 ≤ y < 16 ^ Z.of_nat n → hex_of n x = hex_of n y → x = y.
Proof.
  intros Hx Hy Heq. apply (f_equal (parse_hex 0)) in Heq.
  rewrite !parse_hex_of, !Z.mod_small in Heq by lia. injection Heq. lia.
Qed.

Definition uuid_ok (u : uuid) : Prop := 0 ≤ u < uuid_end.

Lemma uuid_parse_str u : uuid_ok u → uuid_parse (uuid_str u) = Ret u.
Proof.
  intros [Hlo Hhi]. unfold uuid_parse, uuid_str.
  rewrite !remove_char_app, !remove_dash_hex.
  change (remove_char "-" "-") with EmptyString.
  rewrite !string_length_app, !hex_of_length. cbn [String.length Nat.add Nat.eqb].
  repeat (erewrite parse_hex_app; [|apply parse_hex_of || reflexivity]).
  rewrite parse_hex_of. f_equal.
  rewrite !Z.shiftr_div_pow2 by lia. unfold uuid_end in Hhi.
  change (16 ^ Z.of_nat 8) with (2 ^ 32). change (16 ^ Z.of_nat 4) with (2 ^ 16).
  change (16 ^ Z.of_nat 12) with (2 ^ 48).
  replace (u / 2 ^ 80) with (u / 2 ^ 48 / 2 ^ 32) by (by rewrite Z.div_div).
  replace (u / 2 ^ 96) with (u / 2 ^ 48 / 2 ^ 32 / 2 ^ 16) by (by rewrite !Z.div_div).
  replace (u / 2 ^ 64) with (u / 2 ^ 48 / 2 ^ 16) by (by rewrite !Z.div_div).
  assert (u / 2 ^ 48 < 2 ^ 80) by (apply Z.div_lt_upper_bound; lia).
  assert (0 ≤ u / 2 ^ 48) by (apply Z.div_pos; lia).
  pose proof (Z.div_mod u (2 ^ 48) ltac:(lia)).
  set (v := u / 2 ^ 48) in *.
  pose proof (Z.div_mod v (2 ^ 16) ltac:(lia)).
  pose proof (Z.div_mod (v / 2 ^ 16) (2 ^ 16) ltac:(lia)) as H3.
  rewrite Z.div_div in H3 by lia. change (2 ^ 16 * 2 ^ 16) with (2 ^ 32) in H3.
  pose proof (Z.div_mod (v / 2 ^ 32) (2 ^ 16) ltac:(lia)) as H4.
  assert (v / 2 ^ 32 / 2 ^ 16 < 2 ^ 32).
  { rewrite Z.div_div by lia. apply Z.div_lt_upper_bound; lia. }
  assert (0 ≤ v / 2 ^ 32 / 2 ^ 16) by (apply Z.div_pos; [apply Z.div_pos|]; lia).
  rewrite (Z.mod_small (v / 2 ^ 32 / 2 ^ 16)) by lia. lia.
Qed.

Lemma uuid_str_inj u v : uuid_ok u → uuid_ok v → uuid_str u = uuid_str v → u = v.
Proof.
  intros Hu Hv Heq. apply (f_equal uuid_parse) in Heq.
  rewrite !uuid_parse_str in Heq by done. congruence.
Qed.

#[global] Opaque sha256_hexdigest uuid5 uuid_str.
