(* ===== verification/PyStr.v ===== *)
(** * Python [str] helpers, on UTF-8 encodings

    [strip] knows every Unicode whitespace character [str.isspace] accepts.
    UTF-8 is self-synchronising, so matching a whitespace encoding as a byte
    prefix or suffix matches exactly the characters. *)

From Stdlib Require Import ZArith Lia Ascii String.
From S2P Require Import Prelude.

Definition of_codes (l : list N) : string := string_of_list_ascii (map ascii_of_N l).

Definition whitespace : list string :=
  map of_codes
    ([[9]; [10]; [11]; [12]; [13]; [28]; [29]; [30]; [31]; [32]; [194; 133]; [194; 160];
      [225; 154; 128]; [226; 128; 168]; [226; 128; 169]; [226; 128; 175];
      [226; 129; 159]; [227; 128; 128]]%N
     ++ map (λ i, [226; 128; 128 + N.of_nat i]%N) (seq 0 11)).

Fixpoint strip_prefix (p s : string) : option string :=
  match p, s with
  | EmptyString, _ => Some s
  | String c p', String d s' => if Ascii.eqb c d then strip_prefix p' s' else None
  | _, EmptyString => None
  end.

Definition startswith (p s : string) : bool :=
  match strip_prefix p s with Some _ => true | None => false end.

Fixpoint drop_one (ws : list string) (s : string) : option string :=
  match ws with
  | [] => None
  | w :: ws' => match strip_prefix w s with Some r => Some r | None => drop_one ws' s end
  end.

(** Every step drops at least one byte, so the length bounds the steps. *)
Fixpoint lstrip_go (fuel : nat) (ws : list string) (s : string) : string :=
  match fuel with
  | O => s
  | S n => match drop_one ws s with Some r => lstrip_go n ws r | None => s end
  end.

Definition rev_string (s : string) : string :=
  string_of_list_ascii (rev (list_ascii_of_string s)).

Definition lstrip (s : string) : string := lstrip_go (String.length s) whitespace s.
Definition rstrip (s : string) : string :=
  rev_string (lstrip_go (String.length s) (map rev_string whitespace) (rev_string s)).
Definition strip (s : string) : string := rstrip (lstrip s).

(** [not s.strip()]. *)
Definition is_blank (s : string) : bool := String.eqb (strip s) EmptyString.

(** [s.partition(c)] for a one-character separator, without the separator. *)
Fixpoint partition (c : ascii) (s : string) : string * string :=
  match s with
  | EmptyString => (EmptyString, EmptyString)
  | String d s' =>
      if Ascii.eqb d c then (EmptyString, s')
      else let '(a, b) := partition c s' in (String d a, b)
  end.

(** [sep.join(parts)]. *)
Fixpoint join (sep : string) (parts : list string) : string :=
  match parts with
  | [] => EmptyString
  | [p] => p
  | p :: ps => (p +:+ sep +:+ join sep ps)%string
  end.

Fixpoint mem_char (c : ascii) (s : string) : bool :=
  match s with
  | EmptyString => false
  | String d s' => Ascii.eqb d c || mem_char c s'
  end.

Lemma partition_app c s1 s2 :
  mem_char c s1 = false → partition c (s1 +:+ String c s2)%string = (s1, s2).
Proof.
  induction s1 as [|d s1 IH]; intros Hm; simpl in *.
  - change ((EmptyString +:+ String c s2)%string) with (String c s2). simpl.
    by rewrite Ascii.eqb_refl.
  - apply orb_false_elim in Hm as [Hd Hm].
    change ((String d s1 +:+ String c s2)%string) with (String d (s1 +:+ String c s2)%string).
    simpl. rewrite Hd. by rewrite IH.
Qed.

Lemma mem_char_app c s1 s2 :
  mem_char c (s1 +:+ s2)%string = mem_char c s1 || mem_char c s2.
Proof.
  induction s1 as [|d s1 IH]; [done|].
  change ((String d s1 +:+ s2)%string) with (String d (s1 +:+ s2)%string). simpl.
  by rewrite IH, orb_assoc.
Qed.

Example strip_example :
  strip (of_codes [32; 226; 128; 137; 97; 32; 98; 194; 160; 10]%N) = of_codes [97; 32; 98]%N.
Proof. vm_compute. reflexivity. Qed.

(** ** Lines *)

(** What [str.splitlines] breaks at, the two-character break first. *)
Definition line_breaks : list string :=
  map of_codes
    [[13; 10]; [10]; [13]; [11]; [12]; [28]; [29]; [30]; [194; 133]; [226; 128; 168];
     [226; 128; 169]]%N.

Fixpoint splitlines_go (fuel : nat) (s : string) (current : string) (started : bool) : list string :=
  match fuel with
  | O => []
  | S n =>
      match drop_one line_breaks s with
      | Some r => current :: splitlines_go n r EmptyString false
      | None =>
          match s with
          | EmptyString => if started then [current] else []
          | String c s' => splitlines_go n s' (current +:+ String c EmptyString)%string true
          end
      end
  end.

(** [s.splitlines()]: a final break opens no further line. *)
Definition splitlines (s : string) : list string :=
  splitlines_go (S (String.length s)) s EmptyString false.

(** [s.lower()] on the ASCII letters; the program lowers nothing else it compares. *)
Definition lower_char (c : ascii) : ascii :=
  let n := N_of_ascii c in
  if (65 <=? n)%N && (n <=? 90)%N then ascii_of_N (n + 32) else c.

Fixpoint lower (s : string) : string :=
  match s with EmptyString => EmptyString | String c s' => String (lower_char c) (lower s') end.

(** [s.lower()] beyond ASCII is Unicode data, a parameter. *)
Class CaseTable : Type := str_lower : string → string.

(** [s.split(c)] for a one-character separator. *)
Fixpoint split_on (c : ascii) (s : string) : list string :=
  match s with
  | EmptyString => [EmptyString]
  | String d s' =>
      if Ascii.eqb d c then EmptyString :: split_on c s'
      else match split_on c s' with
           | first :: rest => String d first :: rest
           | [] => [String d EmptyString]
           end
  end.

Lemma split_on_nonempty c s : split_on c s ≠ [].
Proof. destruct s as [|d s]; [done|]. cbn. destruct (Ascii.eqb d c); [done|]. by destruct (split_on c s). Qed.

Lemma split_on_app c s1 s2 : split_on c (s1 +:+ String c s2)%string = split_on c s1 ++ split_on c s2.
Proof.
  induction s1 as [|d s1 IH].
  - change ((EmptyString +:+ String c s2)%string) with (String c s2). cbn. by rewrite Ascii.eqb_refl.
  - change ((String d s1 +:+ String c s2)%string) with (String d (s1 +:+ String c s2)%string). cbn [split_on].
    rewrite IH. destruct (Ascii.eqb d c); [done|]. pose proof (split_on_nonempty c s1). by destruct (split_on c s1).
Qed.

Lemma split_on_none c s : mem_char c s = false → split_on c s = [s].
Proof.
  induction s as [|d s IH]; [done|]. cbn [mem_char]. intros [Hc Hs]%orb_false_elim. cbn [split_on]. rewrite Hc. by rewrite IH.
Qed.

(** No piece holds the separator. *)
Lemma split_on_free c s p : p ∈ split_on c s → mem_char c p = false.
Proof.
  revert p. induction s as [|d s IH]; intros p; cbn [split_on]; [by intros ->%list_elem_of_singleton|].
  destruct (Ascii.eqb d c) eqn:Hd; [intros [->|Hp]%elem_of_cons; [done|by apply IH]|].
  destruct (split_on c s) as [|first rest] eqn:Hs; [intros ->%list_elem_of_singleton; cbn; by rewrite Hd|].
  intros [->|Hp]%elem_of_cons; [|by apply IH, elem_of_cons; right]. cbn. rewrite Hd. apply IH. by left.
Qed.

(** [s.split()]: the runs between white space. *)
Fixpoint split_go (fuel : nat) (s : string) (current : string) : list string :=
  let flush := if String.eqb current EmptyString then [] else [current] in
  match fuel with
  | O => flush
  | S n =>
      match drop_one whitespace s with
      | Some r => flush ++ split_go n r EmptyString
      | None =>
          match s with
          | EmptyString => flush
          | String c s' => split_go n s' (current +:+ String c EmptyString)%string
          end
      end
  end.
Definition split (s : string) : list string := split_go (S (String.length s)) s EmptyString.

(** [s.strip(chars)] for ASCII [chars]. *)
Fixpoint lstrip_chars (chars s : string) : string :=
  match s with String c s' => if mem_char c chars then lstrip_chars chars s' else s | EmptyString => s end.
Definition strip_chars (chars s : string) : string := rev_string (lstrip_chars chars (rev_string (lstrip_chars chars s))).

Example splitlines_example :
  splitlines (of_codes [97; 10; 10; 98; 13; 10]%N) = ["a"; ""; "b"]%string.
Proof. vm_compute. reflexivity. Qed.

Example split_example :
  (split "  a bc  d ", map (strip_chars ".,") ["..a.b,"; ".,"; "x"])%string = (["a"; "bc"; "d"], ["a.b"; ""; "x"])%string.
Proof. vm_compute. reflexivity. Qed.
