(* ===== verification/Prompts.v ===== *)
(** * The prompts

    Every prompt constant of the program, as the function of its placeholders
    that [str.format] makes of it. *)

From Stdlib Require Import Ascii String.
From S2P Require Import Prelude.

Definition nl : string := String (ascii_of_N 10) EmptyString.
Definition dq : string := String (ascii_of_N 34) EmptyString.

Definition CLASSIFIER_PROMPT (query : string) : string :=
  (
    "You route a user's question to the knowledge sources able to answer it. For each " +:+
    "source, give your confidence from 0 to 1 that answering the question needs it. A " +:+
    "question can need more than one source." +:+ nl +:+
    "- cag: stable reference knowledge that rarely changes and is asked about often, " +:+
    "such as policies, manuals, guides, or a codebase." +:+ nl +:+
    "- mag: this user's own conversation history, preferences, or things they asked to " +:+
    "have remembered." +:+ nl +:+
    "- rag: fresh or changing external information, such as today's data, recent " +:+
    "changes, live figures, or news." +:+ nl +:+
    "Respond with ONLY a JSON object of the form " +:+ "{" +:+ dq +:+ "cag" +:+ dq +:+
    ": 0.0, " +:+ dq +:+ "mag" +:+ dq +:+ ": 0.0, " +:+ dq +:+ "rag" +:+ dq +:+ ": 0.0" +:+
    "}" +:+ " and nothing else." +:+ nl +:+ nl +:+ "Question: " +:+ query)%string.

Definition REWRITE_PROMPT (facts_text turns_text query : string) : string :=
  (
    "You are rewriting a user's search query to make it more specific, using what is " +:+
    "known about this user. Rewrite the query below into a single, more specific search " +:+
    "query that incorporates the user's known preferences and context. If nothing is " +:+
    "known about the user, return the original query unchanged. Respond with ONLY the " +:+
    "rewritten query, nothing else -- no explanation, no quotes." +:+ nl +:+ nl +:+
    "Known facts about this user:" +:+ nl +:+ facts_text +:+ nl +:+ nl +:+
    "Recent conversation:" +:+ nl +:+ turns_text +:+ nl +:+ nl +:+ "Original query: " +:+
    query +:+ nl +:+ nl +:+ "Rewritten query:")%string.

Definition ANSWER_SYSTEM_PROMPT : string :=
  (
    "Answer the user's question using only the provided context. If the context doesn't " +:+
    "contain the answer, say so plainly rather than guessing.")%string.

Definition HYDE_PROMPT (query : string) : string :=
  (
    "Write a short, confident, hypothetical answer to the following question, as if you " +:+
    "already knew the answer with certainty. It's fine if the specific details you " +:+
    "invent aren't accurate -- the goal is realistic phrasing and vocabulary, not " +:+
    "factual correctness. Respond with ONLY the hypothetical answer, no preamble." +:+ nl +:+
    nl +:+ "Question: " +:+ query)%string.

Definition MULTI_QUERY_PROMPT (n query : string) : string :=
  (
    "Generate " +:+ n +:+
    " genuinely different phrasings of the following question, each viewing it from a " +:+
    "different angle (not just reworded synonyms of each other). Respond with ONLY the " +:+
    n +:+ " phrasings, one per line, no numbering, no extra commentary." +:+ nl +:+ nl +:+
    "Question: " +:+ query)%string.

Definition RELEVANCE_PROMPT (query passage : string) : string :=
  (
    "Does the following passage directly help answer the query? Respond with ONLY YES or " +:+
    "NO, nothing else." +:+ nl +:+ nl +:+ "Query: " +:+ query +:+ nl +:+ nl +:+ "Passage: " +:+
    passage)%string.

Definition REFINE_QUERY_PROMPT (query : string) : string :=
  (
    "The following search query did not retrieve enough relevant results. Write one " +:+
    "alternative phrasing of the query that might retrieve better results -- same " +:+
    "underlying information need, different wording or angle. Respond with ONLY the " +:+
    "alternative query, nothing else." +:+ nl +:+ nl +:+ "Original query: " +:+ query)%string.

Definition GATE_PROMPT (question : string) : string :=
  (
    "Does answering the following question require looking up external, private, or " +:+
    "recent information that you would not already know from general training -- or can " +:+
    "it be answered correctly from general knowledge alone (common facts, basic " +:+
    "arithmetic, well-known concepts)? Respond with ONLY YES (retrieval needed) or NO " +:+
    "(no retrieval needed), nothing else." +:+ nl +:+ nl +:+ "Question: " +:+ question)%string.

Definition CAUSAL_SYSTEM_PROMPT : string :=
  (
    "You are scoring a list of episodic memories (past interactions) for how much each " +:+
    "one describes a cause-effect chain relevant to a query -- an error trace, a root " +:+
    "cause, or a fix, not just a topically-related episode. A query about " +:+ dq +:+
    "why did the deployment fail" +:+ dq +:+
    " is best answered by episodes that actually contain the failure and its cause, not " +:+
    "every episode that merely mentions " +:+ dq +:+ "deployment." +:+ dq +:+ nl +:+ nl +:+
    "Respond with ONLY this JSON shape, no other text, no markdown fencing:" +:+ nl +:+ "{" +:+
    dq +:+ "scores" +:+ dq +:+ ": [{" +:+ dq +:+ "episode_index" +:+ dq +:+
    ": <int, 1-based, matching the numbered list below>, " +:+ dq +:+ "score" +:+ dq +:+
    ": <float, 0.0-1.0>}, ...]}" +:+ nl +:+
    "Include exactly one entry per episode listed below, in any order." +:+ nl)%string.

Definition FACT_EVOLUTION_SYSTEM_PROMPT : string :=
  (
    "You are comparing an existing fact about a user with a new piece of information, to " +:+
    "decide how the new information relates to it. Classify the relationship as exactly " +:+
    "one of:" +:+ nl +:+ nl +:+ "- " +:+ dq +:+ "update" +:+ dq +:+
    ": the new information DIRECTLY CONTRADICTS the existing fact -- it is a correction, " +:+
    "and the old value is simply wrong now. Example: existing " +:+ dq +:+
    "lives in New York" +:+ dq +:+ ", new " +:+ dq +:+ "moved to Berlin last week" +:+ dq +:+
    "." +:+ nl +:+ "- " +:+ dq +:+ "invalidate" +:+ dq +:+
    ": the existing fact is NO LONGER TRUE AT ALL, and the new information does not give " +:+
    "a clean replacement value to store in its place. Example: existing " +:+ dq +:+
    "has a pet named Rex" +:+ dq +:+ ", new " +:+ dq +:+ "Rex passed away" +:+ dq +:+
    " -- there is no new pet to record, the old fact just stops being true." +:+ nl +:+ "- " +:+
    dq +:+ "refine" +:+ dq +:+
    ": the new information ADDS NUANCE without contradicting the existing fact -- the " +:+
    "old fact was incomplete, not wrong. Example: existing " +:+ dq +:+ "prefers Python" +:+
    dq +:+ ", new " +:+ dq +:+
    "especially for data analysis, though open to Go for CLI tools" +:+ dq +:+ "." +:+ nl +:+
    "- " +:+ dq +:+ "no_conflict" +:+ dq +:+
    ": the new information is about a different context entirely and has nothing to do " +:+
    "with this specific existing fact -- it does not belong merged into, replacing, or " +:+
    "invalidating this fact at all." +:+ nl +:+ nl +:+
    "Respond with ONLY this JSON shape, no other text, no markdown fencing:" +:+ nl +:+ "{" +:+
    dq +:+ "operation" +:+ dq +:+ ": " +:+ dq +:+ "update" +:+ dq +:+ " | " +:+ dq +:+
    "invalidate" +:+ dq +:+ " | " +:+ dq +:+ "refine" +:+ dq +:+ " | " +:+ dq +:+
    "no_conflict" +:+ dq +:+ ", " +:+ dq +:+ "reasoning" +:+ dq +:+ ": <short string>}" +:+ nl)%string.

Definition PROCEDURE_CONSOLIDATION_SYSTEM_PROMPT : string :=
  (
    "You are reflecting on a batch of episodic memories (past interactions) from a " +:+
    "single conversation session, looking for a REPEATED task pattern -- the same kind " +:+
    "of task attempted more than once -- and the workflow that made it succeed." +:+ nl +:+
    nl +:+
    "Extract a procedure only when the SAME task pattern appears at least twice in the " +:+
    "batch with a successful outcome, using a recognizably similar sequence of steps " +:+
    "each time. A single occurrence of a task, even a successful one, is not a repeated " +:+
    "pattern -- don't invent a procedure from one example. If the episodes don't support " +:+
    "a confident, repeated pattern, an empty list is a valid, honest answer." +:+ nl +:+ nl +:+
    "Respond with ONLY this JSON shape, no other text, no markdown fencing:" +:+ nl +:+ "{" +:+
    dq +:+ "procedures" +:+ dq +:+ ": [{" +:+ dq +:+ "task_pattern" +:+ dq +:+ ": <str>, " +:+
    dq +:+ "workflow" +:+ dq +:+ ": {" +:+ dq +:+ "steps" +:+ dq +:+ ": [<str>, ...]}, " +:+
    dq +:+ "success_rate" +:+ dq +:+ ": <float, 0.0-1.0>}, ...]}" +:+ nl)%string.

Definition CONSOLIDATION_SYSTEM_PROMPT : string :=
  (
    "You are reflecting on a batch of episodic memories (past interactions) from a " +:+
    "single conversation session, looking for durable facts worth remembering long-term." +:+
    nl +:+ nl +:+
    "Extract only generalized, timeless facts about the user's preferences, interests, " +:+
    "or characteristics -- not a record of what happened in this specific conversation. " +:+
    dq +:+ "User asked about Python three times" +:+ dq +:+ " is not itself a durable fact; " +:+
    dq +:+ "User's primary programming language is Python" +:+ dq +:+
    " is. If the episodes don't support a fact that confident, don't invent one -- an " +:+
    "empty list is a valid, honest answer." +:+ nl +:+ nl +:+
    "Respond with ONLY this JSON shape, no other text, no markdown fencing:" +:+ nl +:+ "{" +:+
    dq +:+ "facts" +:+ dq +:+ ": [{" +:+ dq +:+ "fact_key" +:+ dq +:+ ": <str>, " +:+ dq +:+
    "fact_value" +:+ dq +:+ ": <str>, " +:+ dq +:+ "confidence" +:+ dq +:+
    ": <float, 0.0-1.0>}, ...]}" +:+ nl)%string.

Definition REFINE_SYSTEM_PROMPT : string :=
  (
    "You are merging an existing fact about a user with new information that adds nuance " +:+
    "to it, WITHOUT contradicting it -- the existing fact is not wrong, it is " +:+
    "incomplete. Produce one richer fact_value that preserves everything true in the " +:+
    "existing fact and folds in the new nuance, in a single natural sentence or short " +:+
    "phrase (not a list, not two separate sentences glued together)." +:+ nl +:+ nl +:+
    "Example: existing fact " +:+ dq +:+ "prefers Python" +:+ dq +:+ ", new information " +:+
    dq +:+ "especially for data analysis, though open to Go for CLI tools" +:+ dq +:+
    " -> merged fact_value " +:+ dq +:+
    "prefers Python, especially for data analysis, though open to Go for CLI tools" +:+ dq +:+
    "." +:+ nl +:+ nl +:+
    "Respond with ONLY this JSON shape, no other text, no markdown fencing:" +:+ nl +:+ "{" +:+
    dq +:+ "merged_fact_value" +:+ dq +:+ ": <string>}" +:+ nl)%string.

Definition SALIENCE_SYSTEM_PROMPT : string :=
  (
    "You are rating a single episodic memory (one turn or event from a conversation) for " +:+
    "how salient it is -- how much it looks like a critical decision, a failure, or an " +:+
    "error, rather than a routine turn. A routine question-and-answer exchange is low " +:+
    "salience; a decision that changes future behavior, or a failure/error/exception, is " +:+
    "high salience." +:+ nl +:+ nl +:+
    "Respond with ONLY this JSON shape, no other text, no markdown fencing:" +:+ nl +:+ "{" +:+
    dq +:+ "salience_score" +:+ dq +:+ ": <float, 0.0-1.0>}" +:+ nl)%string.
