(* ===== verification/Entities.v ===== *)
(** * Orchestration entities (orchestration/domain/entities.py)

    The enums and frozen dataclasses the meta-layer passes around.  A
    dataclass with a [__post_init__] is a record plus a [.._init] function
    that validates as the constructor does and raises what it raises. *)

From Stdlib Require Import ZArith Lia Floats.SpecFloat.
From S2P Require Import Prelude PyFloat PyTime PyStr Digest.

(** ** Paradigms and routing *)

Inductive Paradigm : Type := CAG | MAG | RAG.

#[global] Instance paradigm_eq_dec : EqDecision Paradigm.
Proof. solve_decision. Defined.
Definition paradigm_code (p : Paradigm) : nat :=
  match p with CAG => 0 | MAG => 1 | RAG => 2 end%nat.
Definition paradigm_decode (n : nat) : option Paradigm :=
  match n with 0 => Some CAG | 1 => Some MAG | 2 => Some RAG | _ => None end%nat.
#[global] Instance paradigm_countable : Countable Paradigm.
Proof. apply (inj_countable paradigm_code paradigm_decode). by intros []. Defined.

(** Cheapest first. *)
Definition PARADIGM_ORDER : list Paradigm := [CAG; MAG; RAG].

Lemma elem_of_PARADIGM_ORDER p : p ∈ PARADIGM_ORDER.
Proof. destruct p; apply (bool_decide_unpack _); by vm_compute. Qed.

Definition all_paradigms : gset Paradigm := list_to_set PARADIGM_ORDER.

Lemma elem_of_all_paradigms p : p ∈ all_paradigms.
Proof. unfold all_paradigms. rewrite elem_of_list_to_set. apply elem_of_PARADIGM_ORDER. Qed.

Inductive RoutingMode : Type := CASCADE | PARALLEL.

#[global] Instance routing_mode_eq_dec : EqDecision RoutingMode.
Proof. solve_decision. Defined.

Record RoutingDecision : Type := mkDecision {
  rd_paradigms : gset Paradigm;
  rd_mode : RoutingMode;
  rd_scores : gmap Paradigm f64
}.

(** ** Cache, warm-tier and sync records *)

Section cache_entities.
(** The KV-cache handle is opaque to the domain layer. *)
Context {KV : Type}.

Record CacheHit : Type := mkCacheHit {
  ch_content_hash : string;
  ch_kv_cache : KV
}.
End cache_entities.
Arguments CacheHit KV : clear implicits.

Record SyncConflict : Type := mkConflict {
  sc_document_id : uuid;
  sc_cached_content_hash : string;
  sc_authoritative_content_hash : string
}.

Inductive TierDecision : Type := PROMOTED | DEMOTED | UNCHANGED.

Record WarmEntry : Type := mkWarmEntry {
  we_content_hash : string;
  we_content : string
}.

(** ** Cascade records *)

Inductive TierOutcome : Type := HIT | PARTIAL | MISS | TIMEOUT | ERROR.

#[global] Instance tier_outcome_eq_dec : EqDecision TierOutcome.
Proof. solve_decision. Defined.

Record ContextItem : Type := mkItem {
  ci_paradigm : Paradigm;
  ci_content : string;
  ci_score : f64;
  ci_source_id : option uuid
}.

Record TierRequest : Type := mkRequest {
  tr_tenant_id : uuid;
  tr_user_id : uuid;
  tr_session_id : uuid;
  tr_query : string;
  tr_query_embedding : list f64
}.

Record TierResult : Type := mkTierResult {
  res_outcome : TierOutcome;
  res_items : list ContextItem
}.

Definition tier_reportable (o : TierOutcome) : bool :=
  match o with HIT | PARTIAL | MISS => true | TIMEOUT | ERROR => false end.

(** [TierResult(outcome, items)] with its [__post_init__]. *)
Definition TierResult_init (outcome : TierOutcome) (items : list ContextItem) : res TierResult :=
  if negb (tier_reportable outcome)
  then Raise (ValueError "a tier cannot report this outcome; only the cascade records it")
  else match outcome, items with
       | MISS, _ :: _ => Raise (ValueError "a MISS carries no items")
       | _, _ => Ret (mkTierResult outcome items)
       end.

Record TierAttempt : Type := mkAttempt {
  ta_paradigm : Paradigm;
  ta_outcome : TierOutcome;
  ta_elapsed_ms : f64
}.

Record CascadeResult : Type := mkCascadeResult {
  cr_items : list ContextItem;
  cr_attempts : list TierAttempt;
  cr_satisfied : gset Paradigm;
  cr_degraded : bool
}.

(** [CascadeResult.contributing]. *)
Definition contributing (r : CascadeResult) : gset Paradigm :=
  list_to_set (map ci_paradigm (cr_items r)).

(** ** Context budget *)

Record BudgetShares : Type := mkShares {
  bs_cag : f64;
  bs_mag : f64;
  bs_rag : f64;
  bs_query : f64;
  bs_reserve : f64
}.

Definition bs_values (s : BudgetShares) : list f64 :=
  [bs_cag s; bs_mag s; bs_rag s; bs_query s; bs_reserve s].

Definition share_ok (v : f64) : bool := is_finite v && negb (flt v fzero).

Definition BudgetShares_init (cag mag rag query reserve : f64) : res BudgetShares :=
  let s := mkShares cag mag rag query reserve in
  if negb (forallb share_ok (bs_values s))
  then Raise (ValueError "budget shares must be finite and non-negative")
  else if negb (isclose_abs (fsum (bs_values s)) fone (flit 1 1000000000000))
  then Raise (ValueError "budget shares must sum to 1.0")
  else Ret s.

(** OVERVIEW.md's 40/25/20/10/5 split, the dataclass defaults. *)
Definition default_shares : BudgetShares :=
  mkShares (flit 2 5) (flit 1 4) (flit 1 5) (flit 1 10) (flit 1 20).

Definition share_for (s : BudgetShares) (p : Paradigm) : f64 :=
  match p with CAG => bs_cag s | MAG => bs_mag s | RAG => bs_rag s end.

Record BudgetAllocation : Type := mkAllocation {
  ba_cag : Z;
  ba_mag : Z;
  ba_rag : Z;
  ba_query : Z;
  ba_reserve : Z
}.

Definition ba_total (a : BudgetAllocation) : Z :=
  ba_cag a + ba_mag a + ba_rag a + ba_query a + ba_reserve a.

Definition ba_for (a : BudgetAllocation) (p : Paradigm) : Z :=
  match p with CAG => ba_cag a | MAG => ba_mag a | RAG => ba_rag a end.

(** ** Freshness-routed data sources *)

Inductive SourceScope : Type := TENANT_SCOPE | USER_SCOPE.
Inductive IngestionRoute : Type := RAG_ONLY | CAG_WITH_RAG_BACKUP | MAG_ROUTE.

#[global] Instance source_scope_eq_dec : EqDecision SourceScope.
Proof. solve_decision. Defined.
#[global] Instance ingestion_route_eq_dec : EqDecision IngestionRoute.
Proof. solve_decision. Defined.

Record DataSourceProfile : Type := mkProfile {
  dp_source_key : string;
  dp_scope : SourceScope;
  dp_expected_change_interval : timedelta
}.

Definition DataSourceProfile_init (key : string) (scope : SourceScope) (interval : timedelta)
    : res DataSourceProfile :=
  if is_blank key then Raise (ValueError "source_key must not be blank")
  else if interval <=? 0 then Raise (ValueError "expected_change_interval must be positive")
  else Ret (mkProfile key scope interval).

Record FreshnessPolicy : Type := mkPolicy {
  fp_volatile_below : timedelta;
  fp_demote_after_changes : Z;
  fp_promote_after_quiet_multiple : Z;
  fp_ttl_factor : option f64
}.

Definition FreshnessPolicy_init (volatile_below : timedelta) (demote promote : Z)
    (ttl_factor : option f64) : res FreshnessPolicy :=
  if volatile_below <=? 0 then Raise (ValueError "volatile_below must be positive")
  else if demote <? 1 then Raise (ValueError "demote_after_changes must be at least 1")
  else if promote <=? demote
  then Raise (ValueError "promote_after_quiet_multiple must exceed demote_after_changes")
  else if (match ttl_factor with Some f => fle f fzero | None => false end)
  then Raise (ValueError "ttl_factor must be positive, or None for no expiry")
  else Ret (mkPolicy volatile_below demote promote ttl_factor).

Definition default_policy : FreshnessPolicy := mkPolicy (days 1) 3 7 (Some (flit 1 2)).

Record DataSource : Type := mkSource {
  ds_id : uuid;
  ds_tenant_id : uuid;
  ds_user_id : option uuid;
  ds_source_key : string;
  ds_scope : SourceScope;
  ds_expected_change_interval : timedelta;
  ds_route : IngestionRoute;
  ds_content_hash : string;
  ds_last_changed_at : datetime;
  ds_last_ingested_at : datetime;
  ds_cached_until : option datetime;
  ds_pending_hash : option string
}.

(** [SourceVersion.content]: [None] for a MAG-routed source. *)
Record SourceVersion : Type := mkVersion { sv_content : option string }.

Record IngestionResult : Type := mkIngestionResult {
  ir_source_id : uuid;
  ir_route : IngestionRoute;
  ir_changed : bool
}.

Inductive JobState : Type := PENDING | SUCCESS | FAILURE.

Record JobStatus : Type := mkJobStatus {
  js_state : JobState;
  js_result : option IngestionResult;
  js_error : option string
}.

Record MigrationDecision : Type := mkMigration {
  md_to_route : IngestionRoute;
  md_interval : timedelta
}.

Record SourceMigration : Type := mkSourceMigration {
  sm_source_key : string;
  sm_from_route : IngestionRoute;
  sm_to_route : IngestionRoute;
  sm_observed_interval : timedelta
}.

(** ** What validated values satisfy *)

Definition shares_valid (s : BudgetShares) : Prop :=
  BudgetShares_init (bs_cag s) (bs_mag s) (bs_rag s) (bs_query s) (bs_reserve s) = Ret s.

Lemma share_ok_nonneg v : share_ok v = true → nonneg v = true ∧ is_finite v = true.
Proof. by destruct v as [[]|[]| |[] m e]. Qed.

Lemma shares_valid_ok s v : shares_valid s → v ∈ bs_values s → share_ok v = true.
Proof.
  unfold shares_valid, BudgetShares_init. intros Hv Hin.
  case_match eqn:Hall; [done|]. apply negb_false_iff in Hall.
  rewrite forallb_forall in Hall. apply Hall, list_elem_of_In. by destruct s.
Qed.

Lemma share_for_in s p : share_for s p ∈ bs_values s.
Proof. destruct p; unfold bs_values; simpl; in_list. Qed.

Example default_shares_valid : shares_valid default_shares.
Proof. vm_compute. reflexivity. Qed.

Definition policy_valid (p : FreshnessPolicy) : Prop :=
  0 < fp_volatile_below p ∧ 1 ≤ fp_demote_after_changes p
  ∧ fp_demote_after_changes p < fp_promote_after_quiet_multiple p
  ∧ (∀ f, fp_ttl_factor p = Some f → fle f fzero = false).

Lemma FreshnessPolicy_init_valid v d pr t p :
  FreshnessPolicy_init v d pr t = Ret p → policy_valid p.
Proof.
  unfold FreshnessPolicy_init, policy_valid.
  destruct (Z.leb_spec v 0); [done|]. destruct (Z.ltb_spec d 1); [done|].
  destruct (Z.leb_spec pr d); [done|].
  destruct t as [f|]; [destruct (fle f fzero) eqn:Hf; [done|]|];
    intros [= <-]; simpl; repeat split; try lia; intros; by simplify_eq.
Qed.
