(* ===== verification/BudgetAllocator.v ===== *)
(** * Context-budget allocation (orchestration/domain/budget_allocator.py)

    [allocate] slices one turn's context window between the paradigms that
    contributed to it.  The dicts keyed by every paradigm are total functions
    from [Paradigm]; the donation loop is a fold whose body is [donate]. *)

From Stdlib Require Import ZArith Lia Floats.SpecFloat.
From S2P Require Import Prelude PyFloat Entities.

Definition DEFAULT_SHARES : BudgetShares := default_shares.

Definition upd {V} (d : Paradigm → V) (p : Paradigm) (v : V) : Paradigm → V :=
  λ q, if decide (q = p) then v else d q.

(** [next(((p,) for p in l if p in active), ())]. *)
Definition first_active (l : list Paradigm) (active : gset Paradigm) : list Paradigm :=
  match filter (λ p, p ∈ active) l with
  | [] => []
  | p :: _ => [p]
  end.

Definition recipients (idle : Paradigm) (active : gset Paradigm) : list Paradigm :=
  match idle with
  | RAG => first_active [MAG; CAG] active
  | CAG => first_active [RAG; MAG] active
  | MAG => filter (λ p, p ∈ active) [CAG; RAG]
  end.

(** [math.floor(n * share)]. *)
Definition floor_share (n : Z) (share : f64) : res Z :=
  x ← int_to_float n; py_floor (fmul x share).

Record slicing : Type := mkSlicing {
  sl_slices : Paradigm → Z;
  sl_reserve : Z
}.

(** [math.floor(donation * share / weight_total)]. *)
Definition portion_of (donation : Z) (share weight_total : f64) : res Z :=
  x ← int_to_float donation;
  y ← fdiv (fmul x share) weight_total;
  py_floor y.

(** The inner [for recipient in recipients] loop: the slices it leaves and the
    tokens it gave away. *)
Fixpoint give (shares : BudgetShares) (donation : Z) (weight_total : f64)
    (rs : list Paradigm) (slices : Paradigm → Z) (given : Z) : res ((Paradigm → Z) * Z) :=
  match rs with
  | [] => Ret (slices, given)
  | r :: rs' =>
      portion ← portion_of donation (share_for shares r) weight_total;
      give shares donation weight_total rs' (upd slices r (slices r + portion)) (given + portion)
  end.

(** One turn of [for idle in PARADIGM_ORDER]. *)
Definition donate (shares : BudgetShares) (base : Paradigm → Z) (active : gset Paradigm)
    (st : slicing) (idle : Paradigm) : res slicing :=
  if decide (idle ∈ active) then Ret st
  else
    let donation := base idle in
    let slices := upd (sl_slices st) idle (sl_slices st idle - donation) in
    match recipients idle active with
    | [] => Ret (mkSlicing slices (sl_reserve st + donation))
    | [r] => Ret (mkSlicing (upd slices r (slices r + donation)) (sl_reserve st))
    | rs =>
        let weight_total := fsum (map (share_for shares) rs) in
        if fle weight_total fzero
        then Ret (mkSlicing slices (sl_reserve st + donation))
        else
          '(slices', given) ← give shares donation weight_total rs slices 0;
          Ret (mkSlicing slices' (sl_reserve st + (donation - given)))
    end.

Fixpoint donate_all (shares : BudgetShares) (base : Paradigm → Z) (active : gset Paradigm)
    (order : list Paradigm) (st : slicing) : res slicing :=
  match order with
  | [] => Ret st
  | idle :: rest => st' ← donate shares base active st idle;
                    donate_all shares base active rest st'
  end.

(** [allocate], with the order its donation loop walks made explicit. *)
Definition allocate_in (order : list Paradigm) (total_tokens : Z) (active : gset Paradigm)
    (shares : BudgetShares) : res BudgetAllocation :=
  if total_tokens <? 0 then Raise (ValueError "total_tokens must be non-negative")
  else
    cag ← floor_share total_tokens (share_for shares CAG);
    mag ← floor_share total_tokens (share_for shares MAG);
    rag ← floor_share total_tokens (share_for shares RAG);
    let base := λ p, match p with CAG => cag | MAG => mag | RAG => rag end in
    query ← floor_share total_tokens (bs_query shares);
    let reserve := total_tokens - (cag + mag + rag) - query in
    st ← donate_all shares base active order (mkSlicing base reserve);
    Ret (mkAllocation (sl_slices st CAG) (sl_slices st MAG) (sl_slices st RAG)
                      query (sl_reserve st)).

Definition allocate : Z → gset Paradigm → BudgetShares → res BudgetAllocation :=
  allocate_in PARADIGM_ORDER.

(** The README's 128K window with every paradigm, and with RAG idle. *)
Example allocate_all :
  allocate 128000 {[CAG; MAG; RAG]} default_shares
  = Ret (mkAllocation 51200 32000 25600 12800 6400).
Proof. vm_compute. reflexivity. Qed.

Example allocate_cag_rag :
  allocate 128000 {[CAG; RAG]} default_shares
  = Ret (mkAllocation 72533 0 36266 12800 6401).
Proof. vm_compute. reflexivity. Qed.

(** ** Helper lemmas *)

Ltac res_inv :=
  repeat match goal with
  | H : mbind _ ?m = Ret _ |- _ =>
      let E := fresh "E" in
      destruct m eqn:E; cbn [mbind res_bind] in H; [|discriminate H]
  | H : Ret _ = Ret _ |- _ => injection H as H; subst
  | H : context [let '(_, _) := ?p in _] |- _ => destruct p eqn:?
  end.

Lemma floor_share_nonneg n s z :
  0 ≤ n → nonneg s = true → floor_share n s = Ret z → 0 ≤ z.
Proof.
  unfold floor_share. intros Hn Hs H. res_inv.
  eapply py_floor_nonneg; [|done]. apply fmul_nonneg; [|done].
  by eapply int_to_float_nonneg.
Qed.

Lemma portion_of_nonneg n s w z :
  0 ≤ n → nonneg s = true → flt fzero w = true → portion_of n s w = Ret z → 0 ≤ z.
Proof.
  unfold portion_of. intros Hn Hs Hw H. res_inv.
  eapply py_floor_nonneg; [|done].
  assert (a0 = fdiv_raw (fmul a s) w) as ->.
  { destruct w; simpl in *; by simplify_eq. }
  apply fdiv_raw_nonneg; [|done]. apply fmul_nonneg; [|done].
  by eapply int_to_float_nonneg.
Qed.

Lemma upd_eq {V} (d : Paradigm → V) p v : upd d p v p = v.
Proof. unfold upd. by rewrite decide_True. Qed.
Lemma upd_ne {V} (d : Paradigm → V) p q v : q ≠ p → upd d p v q = d q.
Proof. intros. unfold upd. by rewrite decide_False. Qed.

Definition slices_sum (f : Paradigm → Z) : Z := f CAG + f MAG + f RAG.
Definition slicing_sum (st : slicing) : Z := slices_sum (sl_slices st) + sl_reserve st.

Lemma slices_sum_upd f p v : slices_sum (upd f p v) = slices_sum f - f p + v.
Proof. unfold slices_sum, upd. destruct p; repeat case_decide; (congruence || lia). Qed.

Lemma give_sum shares d w rs slices given slices' given' :
  give shares d w rs slices given = Ret (slices', given') →
  slices_sum slices' - given' = slices_sum slices - given.
Proof.
  revert slices given. induction rs as [|r rs IH]; intros slices given; cbn [give].
  - by intros [= <- <-].
  - intros H. res_inv. apply IH in H. rewrite slices_sum_upd in H. lia.
Qed.

Lemma give_other shares d w rs slices given slices' given' p :
  p ∉ rs → give shares d w rs slices given = Ret (slices', given') → slices' p = slices p.
Proof.
  revert slices given. induction rs as [|r rs IH]; intros slices given Hp; cbn [give].
  - by intros [= <- <-].
  - intros H. res_inv. apply not_elem_of_cons in Hp as [Hr Hp].
    apply IH in H; [|done]. by rewrite H, upd_ne.
Qed.

Lemma give_mono shares d w rs slices given slices' given' :
  (∀ r, r ∈ rs → nonneg (share_for shares r) = true) → 0 ≤ d → flt fzero w = true →
  give shares d w rs slices given = Ret (slices', given') →
  ∀ p, slices p ≤ slices' p.
Proof.
  revert slices given. induction rs as [|r rs IH]; intros slices given Hs Hd Hw; cbn [give].
  - intros [= <- <-]. lia.
  - intros H p. res_inv. apply portion_of_nonneg in E; [|done|apply Hs; by left|done].
    apply IH with (p := p) in H; [|intros; apply Hs; by right|done|done].
    unfold upd in H. case_decide; subst; lia.
Qed.

Lemma donate_sum shares base active st idle st' :
  donate shares base active st idle = Ret st' → slicing_sum st' = slicing_sum st.
Proof.
  unfold donate, slicing_sum. case_decide; [by intros [= <-]|].
  destruct (recipients idle active) as [|r [|r' rs]].
  - intros [= <-]. cbn [sl_slices sl_reserve]. rewrite slices_sum_upd. lia.
  - intros [= <-]. cbn [sl_slices sl_reserve]. rewrite !slices_sum_upd. lia.
  - case_match; intros Hr; res_inv; cbn [sl_slices sl_reserve].
    + rewrite slices_sum_upd. lia.
    + apply give_sum in E. rewrite slices_sum_upd in E. lia.
Qed.

Lemma donate_all_sum shares base active order st st' :
  donate_all shares base active order st = Ret st' → slicing_sum st' = slicing_sum st.
Proof.
  revert st. induction order as [|i order IH]; intros st; cbn [donate_all].
  - by intros [= <-].
  - intros H. res_inv. apply IH in H. apply donate_sum in E. lia.
Qed.

Lemma recipients_active idle active r : r ∈ recipients idle active → r ∈ active ∧ r ≠ idle.
Proof.
  assert (Hf : ∀ l, r ∈ first_active l active → r ∈ active ∧ r ∈ l).
  { intros l. unfold first_active. destruct (filter _ l) as [|p l'] eqn:Hl; [set_solver|].
    intros ->%list_elem_of_singleton.
    assert (p ∈ filter (λ p, p ∈ active) l) as Hp by (rewrite Hl; by left).
    by apply list_elem_of_filter in Hp. }
  destruct idle; simpl; intros Hr.
  - apply Hf in Hr as [? Hr]. split; [done|]. intros ->. set_unfold in Hr. naive_solver.
  - apply list_elem_of_filter in Hr as [? Hr]. split; [done|]. intros ->. set_unfold in Hr. naive_solver.
  - apply Hf in Hr as [? Hr]. split; [done|]. intros ->. set_unfold in Hr. naive_solver.
Qed.

(** An idle paradigm loses its whole base slice, once; no other idle one moves. *)
Lemma donate_idle shares base active st idle st' p :
  donate shares base active st idle = Ret st' → p ∉ active →
  sl_slices st' p = sl_slices st p - (if decide (p = idle) then base p else 0).
Proof.
  unfold donate. intros Hd Hp. case_decide as Hact.
  { res_inv. rewrite decide_False; [lia|congruence]. }
  assert (Hrec : ∀ r, r ∈ recipients idle active → p ≠ r).
  { intros r Hr <-. apply recipients_active in Hr as [Hr _]. contradiction. }
  assert (Hbase : upd (sl_slices st) idle (sl_slices st idle - base idle) p
    = sl_slices st p - (if decide (p = idle) then base p else 0)).
  { unfold upd. case_decide; subst; lia. }
  rewrite <- Hbase. clear Hbase. destruct (recipients idle active) as [|r [|r' rs]] eqn:Hrs.
  - by res_inv.
  - res_inv. cbn [sl_slices]. rewrite upd_ne; [done|]. apply Hrec. by left.
  - destruct (fle _ fzero); res_inv; [done|]. cbn [sl_slices].
    eapply give_other; [|done]. intros Hin. by eapply Hrec.
Qed.

Lemma portion_of_nan d s z : portion_of d s S754_nan ≠ Ret z.
Proof.
  unfold portion_of. destruct (int_to_float d) as [x|]; [|done]. simpl.
  unfold fdiv_raw, SFdiv. by destruct (fmul x s).
Qed.

Lemma donate_mono shares base active st idle st' p :
  (∀ q, nonneg (share_for shares q) = true) → (∀ q, 0 ≤ base q) →
  donate shares base active st idle = Ret st' → p ∈ active →
  sl_slices st p ≤ sl_slices st' p.
Proof.
  unfold donate. intros Hs Hb Hd Hp. case_decide as Hact; [by res_inv|].
  assert (Hkeep : upd (sl_slices st) idle (sl_slices st idle - base idle) p = sl_slices st p).
  { apply upd_ne. by intros ->. }
  destruct (recipients idle active) as [|r [|r' rs]] eqn:Hrs.
  - res_inv. cbn [sl_slices]. lia.
  - res_inv. cbn [sl_slices]. specialize (Hb idle). unfold upd in *.
    repeat case_decide; subst; lia.
  - destruct (fle _ fzero) eqn:Hw; res_inv; cbn [sl_slices]; [lia|]. rewrite <- Hkeep.
    eapply give_mono; [..|done]; [auto|done|].
    destruct (fsum _) as [[]|[]| |[] m e] eqn:Heq; try done. exfalso.
    (* a NaN weight makes every portion raise *)
    cbn [give] in E. res_inv. by eapply portion_of_nan.
Qed.

(** ** Donations are additive *)

(** The slicing with nothing in it: [donate] from here is the pure change one
    idle paradigm makes. *)
Definition nothing : slicing := mkSlicing (λ _, 0) 0.

Definition shifted (st d st' : slicing) : Prop :=
  (∀ p, sl_slices st' p = sl_slices st p + sl_slices d p)
  ∧ sl_reserve st' = sl_reserve st + sl_reserve d.

(** Same error, or results related by [R]. *)
Definition res_rel {A B} (R : A → B → Prop) (x : res A) (y : res B) : Prop :=
  match x, y with
  | Ret a, Ret b => R a b
  | Raise e, Raise e' => e = e'
  | _, _ => False
  end.

Lemma give_shift shares d w rs (f g : Paradigm → Z) n m :
  res_rel (λ x y, (∀ p, x.1 p - f p = y.1 p - g p) ∧ x.2 - n = y.2 - m)
    (give shares d w rs f n) (give shares d w rs g m).
Proof.
  revert f g n m. induction rs as [|r rs IH]; intros f g n m; cbn [give].
  - simpl. split; intros; lia.
  - destruct (portion_of _ _ _) as [z|e]; [|done]. cbn [mbind res_bind].
    specialize (IH (upd f r (f r + z)) (upd g r (g r + z)) (n + z) (m + z)).
    destruct (give _ _ _ _ _ _) as [[f' n']|], (give _ _ _ _ _ _) as [[g' m']|]; try done.
    cbn [res_rel fst snd] in *. destruct IH as [IH1 IH2]. split; [|lia].
    intros p. specialize (IH1 p). unfold upd in IH1. repeat case_decide; subst; lia.
Qed.

Lemma donate_shift shares base active st idle :
  res_rel (λ d st', shifted st d st')
    (donate shares base active nothing idle) (donate shares base active st idle).
Proof.
  unfold donate, shifted. case_decide; [simpl; split; intros; lia|].
  destruct (recipients idle active) as [|r [|r' rs]].
  - simpl. split; [|lia]. intros p. unfold upd. case_decide; subst; lia.
  - simpl. split; [|lia]. intros p. unfold upd. repeat case_decide; subst; lia.
  - destruct (fle _ fzero).
    + simpl. split; [|lia]. intros p. unfold upd. case_decide; subst; lia.
    + pose proof (give_shift shares (base idle)
        (fsum (map (share_for shares) (r :: r' :: rs))) (r :: r' :: rs)
        (upd (sl_slices nothing) idle (sl_slices nothing idle - base idle))
        (upd (sl_slices st) idle (sl_slices st idle - base idle)) 0 0) as Hg.
      destruct (give _ _ _ _ _ _) as [[f' n']|], (give _ _ _ _ _ _) as [[g' m']|]; try done.
      destruct Hg as [Hg1 Hg2]. simpl in *. split; [|lia].
      intros p. specialize (Hg1 p). unfold upd in Hg1. repeat case_decide; subst; lia.
Qed.

Definition change_of (shares : BudgetShares) (base : Paradigm → Z) (active : gset Paradigm)
    (idle : Paradigm) : slicing :=
  match donate shares base active nothing idle with Ret d => d | Raise _ => nothing end.

(** The donation loop succeeds exactly when every change does, and adds them up. *)
Lemma donate_all_ok shares base active order st st' i :
  donate_all shares base active order st = Ret st' → i ∈ order →
  ∃ d, donate shares base active nothing i = Ret d.
Proof.
  revert st. induction order as [|j order IH]; intros st H Hi; [by apply not_elem_of_nil in Hi|].
  cbn [donate_all] in H. res_inv. apply elem_of_cons in Hi as [->|Hi]; [|by eauto].
  pose proof (donate_shift shares base active st j) as Hs. rewrite E in Hs.
  destruct (donate _ _ _ nothing j); [by eexists|done].
Qed.

Lemma donate_all_changes shares base active order st :
  (∀ i, i ∈ order → ∃ d, donate shares base active nothing i = Ret d) →
  ∃ st', donate_all shares base active order st = Ret st'
    ∧ (∀ p, sl_slices st' p = sl_slices st p
         + zsum (map (λ i, sl_slices (change_of shares base active i) p) order))
    ∧ sl_reserve st' = sl_reserve st
         + zsum (map (λ i, sl_reserve (change_of shares base active i)) order).
Proof.
  revert st. induction order as [|i order IH]; intros st Hall;
    cbn [donate_all map zsum foldr].
  - exists st. split; [done|]. split; intros; lia.
  - pose proof (donate_shift shares base active st i) as Hs.
    destruct (Hall i) as [d Hd]; [by left|].
    assert (Hc : change_of shares base active i = d) by (unfold change_of; by rewrite Hd).
    rewrite Hc, Hd in *. destruct (donate shares base active st i) as [st1|]; [|done].
    destruct (IH st1) as (st' & Heq & Hsl & Hres).
    { intros j Hj. apply Hall. by right. }
    exists st'. split; [done|]. destruct Hs as [Hs1 Hs2]. unfold zsum in *.
    split; [intros p; rewrite Hsl, Hs1; lia|lia].
Qed.

Lemma donate_all_idle shares base active order st st' p :
  donate_all shares base active order st = Ret st' → NoDup order → p ∈ order → p ∉ active →
  sl_slices st' p = sl_slices st p - base p.
Proof.
  intros H Hnd Hin Hp.
  assert (Hskip : ∀ o s s', p ∉ o → donate_all shares base active o s = Ret s' →
    sl_slices s' p = sl_slices s p).
  { induction o as [|i o IH]; intros s s' Ho Hd; cbn [donate_all] in Hd; [by res_inv|].
    res_inv. apply not_elem_of_cons in Ho as [Hi Ho]. apply IH in Hd; [|done].
    rewrite Hd. apply donate_idle with (p := p) in E; [|done].
    rewrite decide_False in E by done. lia. }
  revert st H. induction order as [|i order IH]; intros st H; [by apply not_elem_of_nil in Hin|].
  cbn [donate_all] in H. res_inv. apply donate_idle with (p := p) in E; [|done].
  apply list.NoDup_cons in Hnd as [Hi Hnd]. case_decide as Hpi.
  - subst i. apply Hskip in H; [|done]. lia.
  - apply elem_of_cons in Hin as [?|Hin]; [congruence|].
    apply IH in H; [|done..]. lia.
Qed.

Lemma donate_all_mono shares base active order st st' p :
  (∀ q, nonneg (share_for shares q) = true) → (∀ q, 0 ≤ base q) → p ∈ active →
  donate_all shares base active order st = Ret st' → sl_slices st p ≤ sl_slices st' p.
Proof.
  intros Hs Hb Hp. revert st. induction order as [|i order IH]; intros st H;
    cbn [donate_all] in H; res_inv; [lia|].
  apply donate_mono with (p := p) in E; [|done..]. apply IH in H. lia.
Qed.

Lemma shares_valid_nonneg s v : shares_valid s → v ∈ bs_values s → nonneg v = true.
Proof. intros Hv Hin. by apply share_ok_nonneg, (shares_valid_ok s). Qed.

(** ** Properties *)

(** Whatever contributed and whatever the shares, an allocation's five
    slices sum to exactly the tokens asked for. *)
Theorem allocate_total total active shares a :
  allocate total active shares = Ret a → ba_total a = total.
Proof.
  unfold allocate, allocate_in. case_match; [done|]. intros H'. res_inv.
  apply donate_all_sum in E3. unfold slicing_sum, slices_sum, ba_total in *.
  cbn [sl_slices sl_reserve ba_cag ba_mag ba_rag ba_query ba_reserve] in *. lia.
Qed.

Lemma allocate_total_witness :
  ba_total (mkAllocation 72533 0 36266 12800 6401) = 128000.
Proof. apply (allocate_total 128000 {[CAG; RAG]} default_shares). vm_compute. reflexivity. Defined.

(** With valid shares, a paradigm that did not contribute gets nothing, and
    one that did gets at least its own floored base slice. *)
Theorem allocate_slices total active shares a p :
  shares_valid shares → allocate total active shares = Ret a →
  (p ∉ active → ba_for a p = 0) ∧
  (p ∈ active → ∃ base, floor_share total (share_for shares p) = Ret base
                        ∧ 0 ≤ base ≤ ba_for a p).
Proof.
  intros Hv. unfold allocate, allocate_in. destruct (Z.ltb_spec total 0); [done|].
  intros H'. res_inv.
  assert (Hs : ∀ q, nonneg (share_for shares q) = true).
  { intros q. eapply shares_valid_nonneg; [done|]. apply share_for_in. }
  pose proof (floor_share_nonneg _ _ _ H (Hs CAG) E).
  pose proof (floor_share_nonneg _ _ _ H (Hs MAG) E0).
  pose proof (floor_share_nonneg _ _ _ H (Hs RAG) E1).
  replace (ba_for _ p) with (sl_slices a4 p) by (by destruct p). split.
  - intros Hp. eapply donate_all_idle with (p := p) in E3; [|..|done].
    + rewrite E3. simpl. lia.
    + by apply (bool_decide_unpack _); vm_compute.
    + apply elem_of_PARADIGM_ORDER.
  - intros Hp. apply donate_all_mono with (p := p) in E3; [|done| |done].
    + cbn [sl_slices] in E3. destruct p; eauto with lia.
    + intros []; lia.
Qed.

Lemma allocate_slices_witness :
  let a := mkAllocation 72533 0 36266 12800 6401 in
  (MAG ∉ ({[CAG; RAG]} : gset Paradigm) → ba_for a MAG = 0) ∧
  (MAG ∈ ({[CAG; RAG]} : gset Paradigm) →
     ∃ base, floor_share 128000 (share_for default_shares MAG) = Ret base
             ∧ 0 ≤ base ≤ ba_for a MAG).
Proof.
  apply (allocate_slices 128000 {[CAG; RAG]} default_shares _ MAG).
  - exact default_shares_valid.
  - vm_compute. reflexivity.
Defined.

(** The result does not depend on the order the reallocation rules are
    applied in: walking the paradigms in any order gives the same allocation. *)
Theorem allocate_order_irrelevant order total active shares a :
  order ≡ₚ PARADIGM_ORDER → allocate total active shares = Ret a →
  allocate_in order total active shares = Ret a.
Proof.
  intros Hperm. unfold allocate, allocate_in. case_match; [done|]. intros H'. res_inv.
  cbn [mbind res_bind].
  set (base := λ p, match p with CAG => a0 | MAG => a1 | RAG => a2 end) in *.
  set (st0 := mkSlicing base _) in *.
  assert (Hok : ∀ o i, o ≡ₚ PARADIGM_ORDER → i ∈ o →
    ∃ d, donate shares base active nothing i = Ret d).
  { intros o i Ho Hi. rewrite Ho in Hi. by eapply donate_all_ok. }
  destruct (donate_all_changes shares base active order st0 (λ i, Hok order i Hperm))
    as (st1 & Heq1 & Hsl1 & Hres1).
  destruct (donate_all_changes shares base active PARADIGM_ORDER st0
    (λ i, Hok PARADIGM_ORDER i (Permutation_refl _)))
    as (st2 & Heq2 & Hsl2 & Hres2).
  rewrite Heq1. cbn [mbind res_bind]. rewrite Heq2 in E3. injection E3 as <-.
  assert (Hsl : ∀ p, sl_slices st1 p = sl_slices st2 p).
  { intros p. rewrite Hsl1, Hsl2. f_equal. apply zsum_perm. by rewrite Hperm. }
  rewrite !Hsl, Hres1, Hres2. do 2 f_equal. f_equal. apply zsum_perm. by rewrite Hperm.
Qed.

Lemma allocate_order_irrelevant_witness :
  allocate_in [RAG; MAG; CAG] 128000 {[CAG; RAG]} default_shares
  = Ret (mkAllocation 72533 0 36266 12800 6401).
Proof.
  apply (allocate_order_irrelevant [RAG; MAG; CAG]).
  - apply (bool_decide_unpack _). vm_compute. reflexivity.
  - vm_compute. reflexivity.
Defined.

(** The share validation's 1e-12 tolerance does let the floored slices
    overshoot the window: validated shares for which a two-trillion-token
    window is allocated one token more than it has, leaving reserve at -1. *)
Theorem allocate_reserve_can_go_negative :
  let s := mkShares (fadd fone (flit 9 10000000000000)) fzero fzero fzero fzero in
  BudgetShares_init (bs_cag s) (bs_mag s) (bs_rag s) (bs_query s) (bs_reserve s) = Ret s ∧
  allocate 2000000000000 {[CAG]} s = Ret (mkAllocation 2000000000001 0 0 0 (-1)).
Proof. split; vm_compute; reflexivity. Qed.
