(* ===== verification/ParadigmRouter.v ===== *)
(** * The paradigm router (orchestration/domain/paradigm_router.py)

    [decide_route] is the code's [decide]; stdpp owns that name.  A score map
    is a [gmap]: the code only reads it by paradigm and checks its key set. *)

From Stdlib Require Import ZArith Lia Floats.SpecFloat.
From S2P Require Import Prelude PyFloat Entities.

Definition DEFAULT_SELECT_THRESHOLD : f64 := flit 1 2.
Definition DEFAULT_UNCERTAINTY_MARGIN : f64 := flit 15 100.

(** [fallback_decision(scores)]; [∅] for [None]. *)
Definition fallback_decision (scores : gmap Paradigm f64) : RoutingDecision :=
  mkDecision all_paradigms PARALLEL scores.

Definition score_ok (s : f64) : bool := is_finite s && fle fzero s && fle s fone.

Definition score_of (scores : gmap Paradigm f64) (p : Paradigm) : f64 :=
  default S754_nan (scores !! p).

(** [{p for p in PARADIGM_ORDER if scores[p] >= select_threshold}]. *)
Definition selected (scores : gmap Paradigm f64) (threshold : f64) : gset Paradigm :=
  filter (λ p, Is_true (fle threshold (score_of scores p))) all_paradigms.

(** [abs(scores[p] - select_threshold) < uncertainty_margin]. *)
Definition in_band (scores : gmap Paradigm f64) (threshold margin : f64) (p : Paradigm) : bool :=
  flt (fabs (fsub (score_of scores p) threshold)) margin.

Definition uncertain (scores : gmap Paradigm f64) (threshold margin : f64) : gset Paradigm :=
  filter (λ p, Is_true (in_band scores threshold margin p)) all_paradigms.

Definition decide_route (scores : gmap Paradigm f64) (select_threshold uncertainty_margin : f64)
    : res RoutingDecision :=
  if negb (bool_decide (dom scores = all_paradigms))
  then Raise (ValueError "scores must contain exactly one entry per paradigm")
  else if negb (forallb (λ p, score_ok (score_of scores p)) PARADIGM_ORDER)
  then Raise (ValueError "score is outside [0, 1]")
  else if flt uncertainty_margin fzero
  then Raise (ValueError "uncertainty_margin must be non-negative")
  else
    let sel := selected scores select_threshold in
    if decide (sel = ∅) then Ret (fallback_decision scores)
    else
      let unc := uncertain scores select_threshold uncertainty_margin in
      if decide (unc = ∅) then Ret (mkDecision sel CASCADE scores)
      else Ret (mkDecision (sel ∪ unc) PARALLEL scores).

Lemma elem_of_selected scores t p : p ∈ selected scores t ↔ fle t (score_of scores p) = true.
Proof.
  unfold selected. rewrite elem_of_filter, Is_true_true.
  pose proof (elem_of_all_paradigms p). tauto.
Qed.

Lemma elem_of_uncertain scores t m p : p ∈ uncertain scores t m ↔ in_band scores t m p = true.
Proof.
  unfold uncertain. rewrite elem_of_filter, Is_true_true.
  pose proof (elem_of_all_paradigms p). tauto.
Qed.

Definition scores_valid (scores : gmap Paradigm f64) : Prop :=
  dom scores = all_paradigms ∧ ∀ p, score_ok (score_of scores p) = true.

Lemma decide_route_valid scores t m d : decide_route scores t m = Ret d → scores_valid scores.
Proof.
  unfold decide_route. case_bool_decide as Hd; cbn [negb]; [|done].
  destruct (forallb _ PARADIGM_ORDER) eqn:Hall; cbn [negb]; [|done]. intros _. split; [done|].
  intros p. rewrite forallb_forall in Hall. apply Hall, list_elem_of_In, elem_of_PARADIGM_ORDER.
Qed.

Lemma decide_route_nonempty scores t m d : decide_route scores t m = Ret d → rd_paradigms d ≠ ∅.
Proof.
  unfold decide_route. destruct (negb (bool_decide _)); [done|].
  destruct (negb (forallb _ _)); [done|]. destruct (flt m fzero); [done|].
  case_decide; [intros [= <-]; by vm_compute|]. case_decide; intros [= <-]; simpl; set_solver.
Qed.

(** Exactly the malformed inputs raise: a missing or extra paradigm, a
    score that is not a finite number in [0, 1], or a negative margin. *)
Theorem decide_route_raises_iff scores t m :
  (∃ e, decide_route scores t m = Raise e) ↔
  ¬ scores_valid scores ∨ flt m fzero = true.
Proof.
  split.
  - intros [e He]. destruct (flt m fzero) eqn:Hm; [by right|]. left. intros [Hd Hs].
    unfold decide_route in He. rewrite bool_decide_eq_true_2, Hm in He by done. simpl in He.
    rewrite !Hs in He. simpl in He. by repeat case_decide.
  - unfold decide_route. intros H. case_bool_decide as Hd; cbn [negb]; [|by eexists].
    destruct (forallb _ PARADIGM_ORDER) eqn:Hall; cbn [negb]; [|by eexists].
    destruct H as [H| ->]; [|by eexists]. exfalso. apply H. split; [done|].
    intros p. rewrite forallb_forall in Hall. apply Hall, list_elem_of_In, elem_of_PARADIGM_ORDER.
Qed.

(** What a decision routes to and when it runs in parallel.  A paradigm is
    routed when its score reaches the threshold, when it lies in the
    uncertainty band of a decision that selected something, or when nothing was
    selected at all; a decision is a CASCADE exactly when something was
    selected and no score lies in the band; and the route is never empty. *)
Theorem decide_route_spec scores t m d :
  decide_route scores t m = Ret d →
  (∀ p, p ∈ rd_paradigms d ↔
     selected scores t = ∅ ∨ fle t (score_of scores p) = true ∨ in_band scores t m p = true) ∧
  (rd_mode d = CASCADE ↔
     selected scores t ≠ ∅ ∧ ∀ p, in_band scores t m p = false) ∧
  rd_paradigms d ≠ ∅ ∧
  rd_scores d = scores.
Proof.
  assert (Hemp : uncertain scores t m = ∅ ↔ ∀ p, in_band scores t m p = false).
  { split.
    - intros He p. apply not_true_iff_false. rewrite <- elem_of_uncertain, He. set_solver.
    - intros Hall. apply set_eq. intros p. rewrite elem_of_uncertain, Hall. set_solver. }
  unfold decide_route. destruct (negb (bool_decide _)); [done|].
  destruct (negb (forallb _ _)); [done|]. destruct (flt m fzero); [done|].
  case_decide as Hs.
  { intros [= <-]. simpl. split; [|split; [|split]]; [| |by vm_compute|done].
    - intros p. pose proof (elem_of_all_paradigms p). tauto.
    - split; [done|]. tauto. }
  case_decide as Hu; intros [= <-]; simpl.
  - split; [|split; [|split]]; [| |done|done].
    + intros p. rewrite elem_of_selected. rewrite Hemp in Hu. rewrite Hu. naive_solver.
    + rewrite Hemp in Hu. tauto.
  - split; [|split; [|split]]; [| | |done].
    + intros p. rewrite elem_of_union, elem_of_selected, elem_of_uncertain. tauto.
    + split; [done|]. intros [_ Hall]. by rewrite Hemp in Hu.
    + set_solver.
Qed.

(** "Compare today's sales with last month" at the default settings: RAG and
    MAG clear 0.5 + 0.15, CAG is far below. *)
Definition sales_scores : gmap Paradigm f64 :=
  {[ CAG := flit 1 10; MAG := flit 7 10; RAG := flit 91 100 ]}.

Lemma decide_route_spec_witness :
  rd_paradigms (mkDecision {[MAG; RAG]} CASCADE sales_scores) ≠ ∅.
Proof.
  eapply (decide_route_spec sales_scores DEFAULT_SELECT_THRESHOLD DEFAULT_UNCERTAINTY_MARGIN).
  vm_compute. reflexivity.
Defined.
