(* ===== verification/FreshnessRouter.v ===== *)
(** * The freshness-aware data router (orchestration/domain/freshness_router.py)

    Where a source lives, how long a cached copy is trusted, and when observed
    change moves it; plus the ownership rule of ingestion jobs
    (orchestration/domain/ingestion_ownership.py). *)

From Stdlib Require Import ZArith Lia Floats.SpecFloat Ascii String.
From S2P Require Import Prelude PySeq PyFloat PyTime PyStr Digest Entities.

Definition SOURCE_NAMESPACE : uuid := uuid5 NAMESPACE_OID "orchestration:data_source".
Definition MIN_INTERVAL : timedelta := seconds 1.

(** [f"{user_id or ''}"]. *)
Definition opt_uuid_str (u : option uuid) : string :=
  match u with Some v => uuid_str v | None => EmptyString end.

Definition source_name (tenant_id : uuid) (source_key : string) (user_id : option uuid) : string :=
  (uuid_str tenant_id +:+ String ":" (opt_uuid_str user_id +:+ String ":" source_key))%string.

Definition source_id_for (tenant_id : uuid) (source_key : string) (user_id : option uuid) : uuid :=
  uuid5 SOURCE_NAMESPACE (source_name tenant_id source_key user_id).

Definition route_for (profile : DataSourceProfile) (policy : FreshnessPolicy) : IngestionRoute :=
  match dp_scope profile with
  | USER_SCOPE => MAG_ROUTE
  | TENANT_SCOPE =>
      if dp_expected_change_interval profile <? fp_volatile_below policy
      then RAG_ONLY else CAG_WITH_RAG_BACKUP
  end.

Definition cache_ttl (interval : timedelta) (policy : FreshnessPolicy) : res (option timedelta) :=
  match fp_ttl_factor policy with
  | None => Ret None
  | Some f => Some <$> td_mul_float interval f
  end.

Definition sorted_times (l : list datetime) : list datetime := sort_by Z.leb l.

Definition observed_change_interval (times : list datetime) : res (option timedelta) :=
  if (length times <? 2)%nat then Ret None
  else
    match head (sorted_times times), last (sorted_times times) with
    | Some first, Some last_ =>
        Some <$> td_div (last_ - first) (Z.of_nat (length times) - 1)
    | _, _ => Ret None
    end.

Definition decide_migration (source : DataSource) (version_times : list datetime)
    (now : datetime) (policy : FreshnessPolicy) : res (option MigrationDecision) :=
  match ds_route source with
  | MAG_ROUTE => Ret None
  | route =>
      let history := sorted_times (filter (λ t, t ≤ now) version_times) in
      match last history with
      | None => Ret None
      | Some newest =>
          let boundary := fp_volatile_below policy in
          match route with
          | CAG_WITH_RAG_BACKUP =>
              let needed := fp_demote_after_changes policy + 1 in
              let recent := last_slice needed history in
              if Z.of_nat (length recent) <? needed then Ret None
              else
                window ← td_mul boundary (fp_demote_after_changes policy);
                cutoff ← dt_sub now window;
                match head recent with
                | Some oldest =>
                    if oldest <=? cutoff then Ret None
                    else
                      interval ← observed_change_interval recent;
                      Ret (match interval with
                           | None => None
                           | Some i => Some (mkMigration RAG_ONLY (Z.max i MIN_INTERVAL))
                           end)
                | None => Ret None
                end
          | _ =>
              let quiet := now - newest in
              needed_quiet ← td_mul boundary (fp_promote_after_quiet_multiple policy);
              Ret (if needed_quiet <=? quiet
                   then Some (mkMigration CAG_WITH_RAG_BACKUP quiet) else None)
          end
      end
  end.

(** ** Ownership of ingestion jobs *)

Definition owner_key (tenant_id : uuid) (user_id : option uuid) : string :=
  (uuid_str tenant_id +:+ String ":" (opt_uuid_str user_id))%string.

Definition owner_matches (stored : string) (tenant_id user_id : uuid) : res bool :=
  let '(owner_tenant_str, owner_user_str) := partition ":" stored in
  t ← uuid_parse owner_tenant_str;
  if negb (t =? tenant_id) then Ret false
  else if negb (String.eqb owner_user_str EmptyString)
  then u ← uuid_parse owner_user_str; Ret (u =? user_id)
  else Ret true.

(** ** Sorted histories *)

Lemma sorted_times_perm l : sorted_times l ≡ₚ l.
Proof. apply sort_by_perm. Qed.

Lemma sorted_times_sorted l : StronglySorted Z.le (sorted_times l).
Proof.
  assert (Hs : StronglySorted (λ a b, Z.leb a b = true) (sorted_times l)).
  { apply sort_by_sorted.
    - intros x y _ _. rewrite !Z.leb_le. lia.
    - intros x y z _ _ _. rewrite !Z.leb_le. lia. }
  induction Hs as [|x l' Hs IH Hall]; constructor; [done|].
  eapply Forall_impl; [done|]. intros y Hy. by apply Z.leb_le.
Qed.

Lemma sorted_app_le (l1 l2 : list Z) x y :
  StronglySorted Z.le (l1 ++ l2) → x ∈ l1 → y ∈ l2 → x ≤ y.
Proof.
  induction l1 as [|z l1 IH]; simpl; intros Hs Hx Hy; [by apply not_elem_of_nil in Hx|].
  apply StronglySorted_inv in Hs as [Hs Hall]. rewrite list.Forall_forall in Hall.
  apply elem_of_cons in Hx as [->|Hx]; [|by apply IH]. apply Hall. apply elem_of_app. by right.
Qed.

Lemma sorted_suffix (l1 l2 : list Z) : StronglySorted Z.le (l1 ++ l2) → StronglySorted Z.le l2.
Proof. induction l1; simpl; [done|]. intros Hs. apply StronglySorted_inv in Hs. naive_solver. Qed.

Lemma sorted_head_le (l : list Z) x y :
  StronglySorted Z.le l → head l = Some x → y ∈ l → x ≤ y.
Proof.
  destruct l as [|z l]; simpl; [done|]. intros Hs [= ->] [->|Hy]%elem_of_cons; [lia|].
  apply StronglySorted_inv in Hs as [_ Hall]. rewrite list.Forall_forall in Hall. auto.
Qed.

Lemma sorted_last_ge (l : list Z) x y :
  StronglySorted Z.le l → last l = Some x → y ∈ l → y ≤ x.
Proof.
  intros Hs Hlast Hy. apply last_Some in Hlast as [l' ->].
  apply elem_of_app in Hy as [Hy|Hy%list_elem_of_singleton]; [|lia].
  apply (sorted_app_le l' [x]); [done..|]. by left.
Qed.

(** The number of elements above a bound, the way a sorted suffix shows it. *)
Definition count_above (c : Z) (l : list Z) : nat := length (filter (λ t, c < t) l).

Lemma count_above_suffix c n (l : list Z) :
  StronglySorted Z.le l → (0 < n ≤ length l)%nat →
  (∃ x, head (drop (length l - n) l) = Some x ∧ c < x) ↔ (n ≤ count_above c l)%nat.
Proof.
  intros Hs Hn. set (k := (length l - n)%nat).
  assert (Hlen : length (drop k l) = n) by (rewrite length_drop; lia).
  assert (Hsplit : count_above c l
    = (count_above c (take k l) + count_above c (drop k l))%nat).
  { unfold count_above. rewrite <- (take_drop k l) at 1. by rewrite filter_app, length_app. }
  rewrite <- (take_drop k l) in Hs. destruct (drop k l) as [|x r] eqn:Hd; [simpl in Hlen; lia|].
  assert (Hr : (count_above c (x :: r) ≤ n)%nat).
  { rewrite <- Hlen. apply length_filter. }
  simpl. split.
  - intros (y & [= <-] & Hc). rewrite Hsplit. cut (count_above c (x :: r) = n); [lia|].
    rewrite <- Hlen. unfold count_above. f_equal.
    apply list_filter_all. rewrite list.Forall_forall. intros y Hy.
    pose proof (sorted_head_le (x :: r) x y (sorted_suffix _ _ Hs) eq_refl Hy). lia.
  - intros Hcount. exists x. split; [done|]. destruct (decide (c < x)) as [|Hx]; [done|].
    assert (count_above c (take k l) = 0%nat).
    { unfold count_above. rewrite list_filter_none; [done|].
      rewrite list.Forall_forall. intros y Hy.
      pose proof (sorted_app_le _ _ y x Hs Hy ltac:(by left)). lia. }
    assert (count_above c (x :: r) < n)%nat; [|lia].
    rewrite <- Hlen. unfold count_above. rewrite filter_cons_False by done. simpl.
    pose proof (length_filter (λ t, c < t) r). lia.
Qed.

Definition in_range (t : datetime) : Prop := 0 ≤ t < datetime_end.

Lemma observed_interval_bounds (l : list Z) c now :
  (2 ≤ length l)%nat → Forall in_range l → Forall (λ t, c < t ≤ now) l →
  ∃ i, observed_change_interval l = Ret (Some i) ∧ 0 ≤ i ∧
    ∀ b, now - c ≤ b * (Z.of_nat (length l) - 1) → i ≤ b.
Proof.
  intros Hlen Hrange Hb. unfold observed_change_interval.
  destruct (Nat.ltb_spec (length l) 2); [lia|].
  pose proof (sorted_times_perm l) as Hp. pose proof (sorted_times_sorted l) as Hs.
  rewrite <- Hp in Hrange, Hb. rewrite <- (Permutation_length Hp) in *.
  set (s := sorted_times l) in *. rewrite Forall_forall in Hrange, Hb.
  destruct (head s) as [x|] eqn:Hx; [|destruct s; simpl in *; [lia|done]].
  destruct (last s) as [y|] eqn:Hy; [|apply last_None in Hy; rewrite Hy in *; simpl in *; lia].
  assert (x ∈ s) as Hxs by (destruct s; [done|simplify_eq/=; by left]).
  assert (y ∈ s) as Hys by (apply last_Some in Hy as [? ->]; apply elem_of_app; right; by left).
  pose proof (sorted_head_le s x y Hs Hx Hys) as Hxy.
  pose proof (Hb x Hxs). pose proof (Hb y Hys).
  pose proof (Hrange x Hxs) as Hrx. pose proof (Hrange y Hys) as Hry.
  set (n := Z.of_nat (length s) - 1) in *.
  assert (0 < n) by lia. unfold td_div.
  destruct (Z.eqb_spec n 0); [lia|]. destruct (Z.ltb_spec 0 n); [|lia].
  pose proof (div_nearest_nonneg (y - x) n ltac:(lia) ltac:(lia)).
  pose proof (div_nearest_le (y - x) n (y - x) ltac:(lia) ltac:(nia)).
  rewrite td_check_ok.
  - eexists. split; [reflexivity|]. split; [done|]. intros b Hle.
    apply div_nearest_le; [done|]. nia.
  - unfold in_range, timedelta_min, timedelta_end, datetime_end, us_day, us_second in *. lia.
Qed.

(** A CAG-cached source, when nothing overflows: what decides its demotion. *)
Lemma decide_migration_cached source times now policy w c :
  policy_valid policy → ds_route source = CAG_WITH_RAG_BACKUP → Forall in_range times →
  td_mul (fp_volatile_below policy) (fp_demote_after_changes policy) = Ret w →
  dt_sub now w = Ret c →
  ∃ r, decide_migration source times now policy = Ret r ∧
    (is_Some r ↔
       fp_demote_after_changes policy < Z.of_nat (length (filter (λ t, c < t ≤ now) times))) ∧
    (∀ d, r = Some d → md_to_route d = RAG_ONLY ∧
       MIN_INTERVAL ≤ md_interval d ≤ Z.max (fp_volatile_below policy) MIN_INTERVAL).
Proof.
  intros (Hvb & Hd & _) Hroute Hrange Hw Hc.
  unfold decide_migration. rewrite Hroute, Hw.
  set (D := fp_demote_after_changes policy) in *. set (B := fp_volatile_below policy) in *.
  set (kept := filter (λ t, t ≤ now) times).
  set (history := sorted_times kept).
  assert (Hcount : length (filter (λ t, c < t ≤ now) times) = count_above c history).
  { unfold count_above, history. rewrite sorted_times_perm. unfold kept.
    by rewrite list_filter_filter. }
  assert (Hle : Forall (λ t, t ≤ now) history).
  { unfold history. rewrite sorted_times_perm. apply Forall_forall.
    intros t Ht. by apply list_elem_of_filter in Ht as [? _]. }
  assert (Hir : Forall in_range history).
  { unfold history. rewrite sorted_times_perm. apply Forall_forall. intros t Ht.
    apply list_elem_of_filter in Ht as [_ Ht]. rewrite Forall_forall in Hrange. by apply Hrange. }
  rewrite Hcount. pose proof (length_filter (λ t, c < t) history) as Hcl.
  fold (count_above c history) in Hcl.
  assert (Hs : StronglySorted Z.le history) by apply sorted_times_sorted.
  destruct (last history) as [newest|] eqn:Hlast.
  2:{ apply last_None in Hlast. exists None. rewrite Hlast. split; [done|].
      split; [|done]. split; [by intros [? ?]|]. unfold count_above. simpl. lia. }
  unfold last_slice. destruct (Z.ltb_spec 0 (D + 1)); [|lia].
  set (n := Z.to_nat (D + 1)). set (recent := drop (length history - n) history).
  assert (Hrl : length recent = (length history `min` n)%nat).
  { unfold recent. rewrite length_drop. lia. }
  destruct (Z.ltb_spec (Z.of_nat (length recent)) (D + 1)) as [Hshort|Hlong].
  { exists None. split; [done|]. split; [|done]. split; [by intros [? ?]|]. lia. }
  assert (Hlen : length recent = n) by lia.
  cbn [mbind res_bind]. rewrite Hc. cbn [mbind res_bind].
  pose proof (count_above_suffix c n history Hs ltac:(lia)) as Hiff. fold recent in Hiff.
  destruct (head recent) as [oldest|] eqn:Hhead; [|destruct recent; simpl in *; [lia|done]].
  destruct (Z.leb_spec oldest c) as [Hold|Hnew].
  { exists None. split; [done|]. split; [|done]. split; [by intros [? ?]|].
    intros Hgt. destruct (proj2 Hiff ltac:(lia)) as (x & [= <-] & ?). lia. }
  assert (Hrs : StronglySorted Z.le recent).
  { apply (sorted_suffix (take (length history - n) history)). unfold recent.
    by rewrite take_drop. }
  destruct (observed_interval_bounds recent c now) as (i & -> & Hi0 & Hib); [lia| | |].
  { unfold recent. by apply Forall_drop. }
  { apply Forall_forall. intros t Ht. split.
    - pose proof (sorted_head_le recent oldest t Hrs Hhead Ht). lia.
    - rewrite Forall_forall in Hle. apply Hle. unfold recent in Ht.
      apply list_elem_of_lookup in Ht as [j Hj]. rewrite lookup_drop in Hj.
      by eapply list_elem_of_lookup_2. }
  eexists. split; [reflexivity|]. split.
  - split; [|by eauto]. intros _. cut (n ≤ count_above c history)%nat; [lia|].
    apply Hiff. by exists oldest.
  - intros d [= <-]. simpl. split; [done|]. apply dt_check_inv in Hc as [Hc _].
    apply td_check_inv in Hw as [Hw _]. specialize (Hib B). nia.
Qed.

(** A RAG-only source: what decides its promotion. *)
Lemma decide_migration_rag source times now policy q :
  policy_valid policy → ds_route source = RAG_ONLY →
  td_mul (fp_volatile_below policy) (fp_promote_after_quiet_multiple policy) = Ret q →
  ∃ r, decide_migration source times now policy = Ret r ∧
    (is_Some r ↔ (∃ t, t ∈ times ∧ t ≤ now) ∧ ∀ t, t ∈ times → t ≤ now → t + q ≤ now) ∧
    (∀ d, r = Some d → md_to_route d = CAG_WITH_RAG_BACKUP ∧ q ≤ md_interval d).
Proof.
  intros (Hvb & _) Hroute Hq. unfold decide_migration. rewrite Hroute.
  set (history := sorted_times (filter (λ t, t ≤ now) times)).
  assert (Hin : ∀ t, t ∈ history ↔ t ≤ now ∧ t ∈ times).
  { intros t. unfold history. rewrite sorted_times_perm, list_elem_of_filter. done. }
  assert (Hs : StronglySorted Z.le history) by apply sorted_times_sorted.
  destruct (last history) as [newest|] eqn:Hlast.
  2:{ apply last_None in Hlast. exists None. split; [done|]. split; [|done].
      split; [by intros [? ?]|]. intros [(t & Ht & Htn) _]. exfalso.
      assert (t ∈ history) as Hbad by by apply Hin.
      rewrite Hlast in Hbad. by apply not_elem_of_nil in Hbad. }
  rewrite Hq. cbn [mbind res_bind].
  assert (newest ∈ history) as Hnew.
  { apply last_Some in Hlast as [? ->]. apply elem_of_app. right. by left. }
  eexists. split; [reflexivity|].
  destruct (Z.leb_spec q (now - newest)) as [Hquiet|Hrecent].
  - split; [|intros d [= <-]; simpl; split; [done|lia]].
    split; [intros _|by eauto]. apply Hin in Hnew as Hnew'. split; [exists newest; tauto|].
    intros t Ht Htn. pose proof (sorted_last_ge history newest t Hs Hlast) as Hge.
    assert (t ∈ history) by by apply Hin. specialize (Hge ltac:(done)). lia.
  - split; [|done]. split; [by intros [? ?]|]. intros [_ Hall]. exfalso.
    apply Hin in Hnew as [Hn1 Hn2]. specialize (Hall newest Hn2 Hn1). lia.
Qed.

(** ** Properties *)

(** A cached source is demoted exactly when more than
    [demote_after_changes] of its versions fall strictly inside that many
    boundaries before now (no overflow of the window); it is demoted to
    RAG_ONLY, with a re-learned interval that is positive and at most the
    boundary (or the one-second floor). *)
Theorem demotion_iff_frequent source times now policy w c :
  policy_valid policy → ds_route source = CAG_WITH_RAG_BACKUP → Forall in_range times →
  td_mul (fp_volatile_below policy) (fp_demote_after_changes policy) = Ret w →
  dt_sub now w = Ret c →
  ∃ r, decide_migration source times now policy = Ret r ∧
    (is_Some r ↔
       fp_demote_after_changes policy < Z.of_nat (length (filter (λ t, c < t ≤ now) times))) ∧
    (∀ d, r = Some d → md_to_route d = RAG_ONLY ∧ 0 < md_interval d ∧
       md_interval d ≤ Z.max (fp_volatile_below policy) MIN_INTERVAL).
Proof.
  intros Hv Hr Ht Hw Hc.
  destruct (decide_migration_cached source times now policy w c) as (r & Heq & Hiff & Hd);
    [done..|]. exists r. split; [done|]. split; [done|]. intros d Hrd.
  destruct (Hd d Hrd) as (? & ? & ?). split; [done|].
  unfold MIN_INTERVAL, seconds, us_second in *. lia.
Qed.

(** A source declared daily whose feed has delivered four versions in an hour. *)
Definition sample_source (route : IngestionRoute) : DataSource :=
  mkSource 7 1 None "prices" TENANT_SCOPE (days 1) route "h" (days 740000) (days 740000) None None.
Definition hourly_times : list datetime :=
  [days 740000; days 740000 + 60; days 740000 + 120; days 740000 + 180].

Lemma default_policy_valid : policy_valid default_policy.
Proof.
  apply (FreshnessPolicy_init_valid (days 1) 3 7 (Some (flit 1 2))). vm_compute. reflexivity.
Qed.

Lemma demotion_iff_frequent_witness :
  let now := days 740000 + 200 in
  ∃ r, decide_migration (sample_source CAG_WITH_RAG_BACKUP) hourly_times now default_policy
       = Ret r ∧
    (is_Some r ↔ 3 < Z.of_nat (length (filter (λ t, now - days 3 < t ≤ now) hourly_times))) ∧
    (∀ d, r = Some d → md_to_route d = RAG_ONLY ∧ 0 < md_interval d ∧
       md_interval d ≤ Z.max (days 1) MIN_INTERVAL).
Proof.
  apply (demotion_iff_frequent _ _ _ default_policy (days 3) (days 740000 + 200 - days 3)).
  - apply default_policy_valid.
  - reflexivity.
  - apply (bool_decide_unpack _). vm_compute. reflexivity.
  - vm_compute. reflexivity.
  - vm_compute. reflexivity.
Defined.

(** A RAG-only source is promoted exactly when it has a version and has
    gone [promote_after_quiet_multiple] boundaries without a newer one, and
    the interval it takes on routes it to the cache it is promoted to. *)
Theorem promotion_iff_quiet source times now policy q :
  policy_valid policy → ds_route source = RAG_ONLY →
  td_mul (fp_volatile_below policy) (fp_promote_after_quiet_multiple policy) = Ret q →
  ∃ r, decide_migration source times now policy = Ret r ∧
    (is_Some r ↔ (∃ t, t ∈ times ∧ t ≤ now) ∧ ∀ t, t ∈ times → t ≤ now → t + q ≤ now) ∧
    (∀ d key, r = Some d → md_to_route d = CAG_WITH_RAG_BACKUP ∧
       route_for (mkProfile key TENANT_SCOPE (md_interval d)) policy = md_to_route d).
Proof.
  intros Hv Hr Hq.
  destruct (decide_migration_rag source times now policy q) as (r & Heq & Hiff & Hd); [done..|].
  exists r. split; [done|]. split; [done|]. intros d key Hrd.
  destruct (Hd d Hrd) as [Hto Hi]. split; [done|]. rewrite Hto. unfold route_for. simpl.
  destruct Hv as (Hvb & H1 & H2 & _). apply td_check_inv in Hq as [Hq _].
  destruct (Z.ltb_spec (md_interval d) (fp_volatile_below policy)); [nia|done].
Qed.

Lemma promotion_iff_quiet_witness :
  let now := days 740010 in
  ∃ r, decide_migration (sample_source RAG_ONLY) hourly_times now default_policy = Ret r ∧
    (is_Some r ↔ (∃ t, t ∈ hourly_times ∧ t ≤ now)
       ∧ ∀ t, t ∈ hourly_times → t ≤ now → t + days 7 ≤ now) ∧
    (∀ d key, r = Some d → md_to_route d = CAG_WITH_RAG_BACKUP ∧
       route_for (mkProfile key TENANT_SCOPE (md_interval d)) default_policy = md_to_route d).
Proof.
  apply (promotion_iff_quiet _ _ _ default_policy (days 7)).
  - apply default_policy_valid.
  - reflexivity.
  - vm_compute. reflexivity.
Defined.

(** The hysteresis band.  A source demoted at [now] is not promoted at any
    later moment within [promote - demote] boundaries, even if nothing new is
    ever ingested. *)
Theorem no_flapping source source' times now later policy w c q d :
  policy_valid policy → Forall in_range times →
  ds_route source = CAG_WITH_RAG_BACKUP → ds_route source' = RAG_ONLY →
  td_mul (fp_volatile_below policy) (fp_demote_after_changes policy) = Ret w →
  dt_sub now w = Ret c →
  td_mul (fp_volatile_below policy) (fp_promote_after_quiet_multiple policy) = Ret q →
  decide_migration source times now policy = Ret (Some d) →
  now ≤ later ≤ now + (q - w) →
  decide_migration source' times later policy = Ret None.
Proof.
  intros Hv Ht Hr Hr' Hw Hc Hq Hd Hlater.
  destruct (decide_migration_cached source times now policy w c) as (r & Heq & Hiff & _);
    [done..|].
  destruct (decide_migration_rag source' times later policy q) as (r' & Heq' & Hiff' & _);
    [done..|].
  rewrite Heq'. f_equal. apply eq_None_not_Some. rewrite Hiff'. intros [_ Hall].
  rewrite Heq in Hd. simplify_eq. destruct Hiff as [Hcount _].
  specialize (Hcount ltac:(by eauto)). destruct Hv as (_ & Hd1 & _).
  destruct (filter (λ t, c < t ≤ now) times) as [|t l] eqn:Hf; [simpl in *; lia|].
  assert (t ∈ filter (λ t, c < t ≤ now) times) as Hin by (rewrite Hf; by left).
  apply list_elem_of_filter in Hin as [Hb Hin]. specialize (Hall t Hin ltac:(lia)).
  apply dt_check_inv in Hc as [-> _]. lia.
Qed.

Lemma no_flapping_witness :
  decide_migration (sample_source RAG_ONLY) hourly_times (days 740003) default_policy = Ret None.
Proof.
  apply (no_flapping (sample_source CAG_WITH_RAG_BACKUP) _ _ (days 740000 + 200) _ _
           (days 3) (days 740000 + 200 - days 3) (days 7) (mkMigration RAG_ONLY (seconds 1))).
  - apply default_policy_valid.
  - apply (bool_decide_unpack _). vm_compute. reflexivity.
  - reflexivity.
  - reflexivity.
  - vm_compute. reflexivity.
  - vm_compute. reflexivity.
  - vm_compute. reflexivity.
  - vm_compute. reflexivity.
  - unfold days, us_day, us_second. lia.
Defined.

(** Rounding can put a demoted source's re-learned interval exactly on the
    boundary, so the interval a demotion records can still route to the cache:
    four versions spanning one microsecond less than three days. *)
Theorem demoted_interval_can_route_cached :
  let now := days 740000 in
  let times := [now - days 3 + 1; now - days 2; now - days 1; now] in
  decide_migration (sample_source CAG_WITH_RAG_BACKUP) times now default_policy
    = Ret (Some (mkMigration RAG_ONLY (days 1))) ∧
  route_for (mkProfile "prices" TENANT_SCOPE (days 1)) default_policy = CAG_WITH_RAG_BACKUP.
Proof. split; vm_compute; reflexivity. Qed.

(** *** Job ownership *)

Lemma mem_char_hex c n x :
  (∀ d, 0 ≤ d < 16 → Ascii.eqb (hex_digit d) c = false) → mem_char c (hex_of n x) = false.
Proof.
  intros Hd. induction n as [|n IH]; [done|]. cbn [hex_of mem_char].
  rewrite IH, Hd; [done|]. apply Z.mod_pos_bound. lia.
Qed.

Lemma hex_digit_not_colon d : 0 ≤ d < 16 → Ascii.eqb (hex_digit d) ":" = false.
Proof.
  intros Hd. destruct (Ascii.eqb_spec (hex_digit d) ":") as [He|]; [|done].
  pose proof (hex_value_digit d Hd) as Hv. by rewrite He in Hv.
Qed.

#[local] Transparent uuid_str.
Lemma uuid_str_no_colon u : mem_char ":" (uuid_str u) = false.
Proof.
  unfold uuid_str. rewrite !mem_char_app.
  rewrite !mem_char_hex by apply hex_digit_not_colon. done.
Qed.

Lemma uuid_str_nonempty u : String.eqb (uuid_str u) EmptyString = false.
Proof. done. Qed.
#[local] Opaque uuid_str.

(** The stored owner key decides visibility exactly: a tenant-scoped job is
    visible to every user of its tenant, a user-scoped one to its user only,
    and nothing is visible across tenants. *)
Theorem owner_matches_iff tenant user t u :
  uuid_ok tenant → (∀ v, user = Some v → uuid_ok v) →
  owner_matches (owner_key tenant user) t u
  = Ret (bool_decide (t = tenant ∧ (user = None ∨ user = Some u))).
Proof.
  intros Ht Hu. unfold owner_matches, owner_key.
  rewrite partition_app by apply uuid_str_no_colon.
  rewrite uuid_parse_str by done. cbn [mbind res_bind].
  destruct (Z.eqb_spec tenant t) as [->|Hne]; simpl.
  - destruct user as [v|]; simpl.
    + rewrite uuid_str_nonempty. simpl. rewrite uuid_parse_str by by apply Hu.
      simpl. f_equal. destruct (Z.eqb_spec v u) as [->|Hv].
      * rewrite bool_decide_eq_true_2; [done|]. auto.
      * rewrite bool_decide_eq_false_2; [done|]. intros [_ [?|?]]; congruence.
    + rewrite bool_decide_eq_true_2; [done|]. auto.
  - rewrite bool_decide_eq_false_2; [done|]. intros [? _]. congruence.
Qed.

Lemma owner_matches_iff_witness :
  owner_matches (owner_key NAMESPACE_OID (Some 42)) NAMESPACE_OID 42
  = Ret (bool_decide (NAMESPACE_OID = NAMESPACE_OID ∧ (Some 42 = None ∨ Some 42 = Some 42))).
Proof.
  apply owner_matches_iff.
  - unfold uuid_ok, NAMESPACE_OID, uuid_end. lia.
  - intros v [= <-]. unfold uuid_ok, uuid_end. lia.
Defined.

(** Distinct (tenant, user, key) triples are hashed under distinct names. *)
Lemma append_inj (s1 s2 t1 t2 : string) :
  String.length s1 = String.length s2 → (s1 +:+ t1)%string = (s2 +:+ t2)%string →
  s1 = s2 ∧ t1 = t2.
Proof.
  revert s2. induction s1 as [|c s1 IH]; intros [|d s2] Hlen Heq; simpl in *; try done.
  change ((String c s1 +:+ t1)%string) with (String c (s1 +:+ t1)%string) in Heq.
  change ((String d s2 +:+ t2)%string) with (String d (s2 +:+ t2)%string) in Heq.
  injection Heq as -> Heq. destruct (IH s2 ltac:(lia) Heq) as [-> ->]. done.
Qed.

Lemma split_at_char c s1 s2 t1 t2 :
  mem_char c s1 = false → mem_char c s2 = false →
  (s1 +:+ String c t1)%string = (s2 +:+ String c t2)%string → s1 = s2 ∧ t1 = t2.
Proof.
  intros H1 H2 Heq. pose proof (partition_app c s1 t1 H1) as Hp1.
  rewrite Heq, (partition_app c s2 t2 H2) in Hp1. by simplify_eq.
Qed.

Lemma opt_uuid_str_no_colon u : mem_char ":" (opt_uuid_str u) = false.
Proof. destruct u; [apply uuid_str_no_colon|done]. Qed.

Lemma opt_uuid_str_inj u v :
  (∀ x, u = Some x → uuid_ok x) → (∀ x, v = Some x → uuid_ok x) →
  opt_uuid_str u = opt_uuid_str v → u = v.
Proof.
  destruct u as [x|], v as [y|]; simpl; intros Hx Hy Heq; [..|done].
  - f_equal. apply uuid_str_inj; auto.
  - pose proof (uuid_str_nonempty x) as Hn. by rewrite Heq in Hn.
  - pose proof (uuid_str_nonempty y) as Hn. by rewrite <- Heq in Hn.
Qed.

(** Two sources of different tenants, users or keys are never hashed under
    the same name: a shared id would be a SHA-1 collision. *)
Theorem source_name_injective t1 k1 u1 t2 k2 u2 :
  uuid_ok t1 → uuid_ok t2 →
  (∀ x, u1 = Some x → uuid_ok x) → (∀ x, u2 = Some x → uuid_ok x) →
  source_name t1 k1 u1 = source_name t2 k2 u2 → t1 = t2 ∧ u1 = u2 ∧ k1 = k2.
Proof.
  intros Ht1 Ht2 Hu1 Hu2 Heq. unfold source_name in Heq.
  apply split_at_char in Heq as [Ht Heq]; [|apply uuid_str_no_colon..].
  apply split_at_char in Heq as [Hu Hk]; [|apply opt_uuid_str_no_colon..].
  split; [by apply uuid_str_inj|]. split; [by apply opt_uuid_str_inj|done].
Qed.

Lemma source_name_injective_witness : 5 = 5 ∧ Some 9 = Some 9 ∧ "a:b"%string = "a:b"%string.
Proof.
  apply (source_name_injective 5 "a:b" (Some 9) 5 "a:b" (Some 9)).
  - unfold uuid_ok, uuid_end; lia.
  - unfold uuid_ok, uuid_end; lia.
  - intros x [= <-]; unfold uuid_ok, uuid_end; lia.
  - intros x [= <-]; unfold uuid_ok, uuid_end; lia.
  - reflexivity.
Defined.
