(* ===== verification/Ports.v ===== *)
(** * Orchestration ports (orchestration/domain/ports.py)

    Each abstract base class is a type class over the state type of its
    implementation: one stateful operation per method.  Beside it stands the
    contract its clients rely on, stated against an abstract view of the
    state; the client files prove their theorems from the contract, the
    implementation files discharge it. *)

From Stdlib Require Import ZArith Lia Floats.SpecFloat.
From S2P Require Import Prelude PyFloat PyTime Digest Entities.

(** [hashlib.sha256(content.encode("utf-8")).hexdigest()] (domain/sync_mixer.py);
    declared here because the cache contract speaks of it. *)
Definition content_hash (content : string) : string := sha256_hexdigest content.

(** ** Frozen caches *)

Class FrozenCache (C KV : Type) : Type := {
  fc_preload : uuid → uuid → string → stm C unit;
  fc_lookup : uuid → uuid → stm C (option (CacheHit KV));
  fc_evict : uuid → uuid → stm C unit;
  fc_contains : uuid → uuid → stm C bool
}.
#[global] Hint Mode FrozenCache ! - : typeclass_instances.

(** The contract: a cache is a finite map from (tenant, document) to what a
    lookup reports.  Reads do not change it, and eviction removes one key. *)
Class FrozenCacheReads (C KV : Type) `{FrozenCache C KV}
    (view : C → gmap (uuid * uuid) (CacheHit KV)) : Prop := {
  fc_lookup_spec t d c :
    ∃ c', fc_lookup t d c = (Ret (view c !! (t, d)), c') ∧ view c' = view c;
  fc_contains_spec t d c :
    ∃ c', fc_contains t d c = (Ret (bool_decide (is_Some (view c !! (t, d)))), c')
          ∧ view c' = view c;
  fc_evict_spec t d c :
    ∃ c', fc_evict t d c = (Ret tt, c') ∧ view c' = delete (t, d) (view c)
}.

(** A cache that really caches: a pre-load that returns stores the hash of
    exactly the content given, and one that raises touches no other key. *)
Class FrozenCacheLaws (C KV : Type) `{FrozenCache C KV}
    (view : C → gmap (uuid * uuid) (CacheHit KV)) : Prop := {
  fc_reads :: FrozenCacheReads C KV view;
  fc_preload_spec t d s c :
    match fc_preload t d s c with
    | (Ret _, c') =>
        ∃ kv, view c' = <[(t, d) := mkCacheHit (content_hash s) kv]> (view c)
    | (Raise _, c') => ∀ k, k ≠ (t, d) → view c' !! k = view c !! k
    end
}.

(** [ExpiringCache(FrozenCache)]. *)
Class ExpiringCache (C KV : Type) `{FrozenCache C KV} : Type := {
  ec_preload_until : uuid → uuid → string → option datetime → stm C unit;
  ec_renew : uuid → uuid → option datetime → stm C bool
}.
#[global] Hint Mode ExpiringCache ! - - : typeclass_instances.

(** An expiry that has been reached: expired from that very instant. *)
Definition expired (expires_at : option datetime) (now : datetime) : bool :=
  match expires_at with Some e => e <=? now | None => false end.

(** The view of an expiring cache holds its live entries at the time its clock
    shows; renewing moves the expiry of a live entry and of nothing else. *)
Class ExpiringCacheReads (C KV : Type) `{ExpiringCache C KV}
    (view : C → gmap (uuid * uuid) (CacheHit KV)) (now_of : C → datetime) : Prop := {
  ec_reads :: FrozenCacheReads C KV view;
  ec_renew_spec t d e c :
    ∃ c', ec_renew t d e c = (Ret (bool_decide (is_Some (view c !! (t, d)))), c')
      ∧ view c' = (if expired e (now_of c) then delete (t, d) (view c) else view c)
}.

Class ExpiringCacheLaws (C KV : Type) `{ExpiringCache C KV}
    (view : C → gmap (uuid * uuid) (CacheHit KV)) (now_of : C → datetime) : Prop := {
  ecl_reads :: ExpiringCacheReads C KV view now_of;
  ecl_cache :: FrozenCacheLaws C KV view;
  ec_preload_until_spec t d s e c :
    match ec_preload_until t d s e c with
    | (Ret _, c') =>
        ∃ kv, view c' = (if expired e (now_of c) then delete (t, d) (view c)
                         else <[(t, d) := mkCacheHit (content_hash s) kv]> (view c))
    | (Raise _, c') => ∀ k, k ≠ (t, d) → view c' !! k = view c !! k
    end
}.

(** ** Access trackers *)

Class AccessFrequencyTracker (T : Type) : Type := {
  at_record_access : uuid → uuid → datetime → stm T unit;
  at_access_count : uuid → uuid → timedelta → datetime → stm T Z;
  at_most_accessed : uuid → Z → timedelta → datetime → stm T (list uuid)
}.

Class UserScopedAccessFrequencyTracker (T : Type) : Type := {
  ut_record_access : uuid → uuid → uuid → datetime → stm T unit;
  ut_access_count : uuid → uuid → uuid → timedelta → datetime → stm T Z;
  ut_most_accessed : uuid → uuid → Z → timedelta → datetime → stm T (list uuid)
}.

(** ** The warm tier *)

Class WarmStore (W : Type) : Type := {
  ws_promote : uuid → uuid → uuid → string → stm W unit;
  ws_lookup : uuid → uuid → uuid → stm W (option WarmEntry);
  ws_demote : uuid → uuid → uuid → stm W unit;
  ws_contains : uuid → uuid → uuid → stm W bool
}.

(** A warm tier seen as the entry each slot holds: a document of a user has its
    slot, and the operations on one slot leave the others alone. *)
Class WarmStoreLaws {D} (W : Type) `{WarmStore W} (ok : W → Prop) (slot : uuid → uuid → uuid → D)
    (view : W → D → option WarmEntry) : Prop := {
  ws_lookup_spec t u d w : ok w →
    ∃ w', ws_lookup t u d w = (Ret (view w (slot t u d)), w') ∧ ok w' ∧ ∀ k, view w' k = view w k;
  ws_contains_spec t u d w : ok w →
    ∃ w', ws_contains t u d w = (Ret (bool_decide (is_Some (view w (slot t u d)))), w') ∧ ok w' ∧ ∀ k, view w' k = view w k;
  ws_demote_spec t u d w : ok w →
    ∃ w', ws_demote t u d w = (Ret tt, w') ∧ ok w' ∧ view w' (slot t u d) = None ∧
          ∀ k, k ≠ slot t u d → view w' k = view w k;
  ws_promote_spec t u d s w : ok w →
    let '(r, w') := ws_promote t u d s w in
    ok w' ∧ (∀ k, k ≠ slot t u d → view w' k = view w k) ∧
    ∀ a, r = Ret a → view w' (slot t u d) = Some (mkWarmEntry (content_hash s) s)
}.
