(* ===== verification/FrozenCaches.v ===== *)
(** * The frozen-cache implementations

    HFFrozenCache, NullFrozenCache and ExpiringFrozenCache
    (orchestration/infrastructure/{hf_frozen_cache,null_frozen_cache,
    expiring_frozen_cache}.py), with the proofs that they keep the contracts of
    [Ports].  The transformers tokenizer and model are a parameter, the class
    [HFModel]: a forward pass over a text returns a KV-cache handle or raises. *)

From Stdlib Require Import ZArith Lia.
From S2P Require Import Prelude PyTime Digest Entities Ports.

(** ** HFFrozenCache *)

Class HFModel (KV : Type) : Type := hf_forward : string → res KV.

Record HFFrozenCache (KV : Type) : Type := mkHF {
  hf_entries : gmap (uuid * uuid) (string * KV)
}.
Arguments mkHF {KV}.
Arguments hf_entries {KV}.

(** The constructor refuses exactly one of tokenizer and model. *)
Definition HFFrozenCache_init {KV} (has_tokenizer has_model : bool) : res (HFFrozenCache KV) :=
  if xorb has_tokenizer has_model
  then Raise (ValueError "tokenizer and model must be supplied together or not at all")
  else Ret (mkHF ∅).

Section hf.
Context {KV : Type} `{HFModel KV}.

Definition hf_preload (tenant_id document_id : uuid) (content : string)
    : stm (HFFrozenCache KV) unit :=
  kv ← lift_res (hf_forward content);
  modify (λ c, mkHF (<[(tenant_id, document_id) := (content_hash content, kv)]> (hf_entries c))).

Definition hf_lookup (tenant_id document_id : uuid)
    : stm (HFFrozenCache KV) (option (CacheHit KV)) :=
  c ← get_st;
  mret (match hf_entries c !! (tenant_id, document_id) with
        | None => None
        | Some (hash_, cache) => Some (mkCacheHit hash_ cache)
        end).

Definition hf_evict (tenant_id document_id : uuid) : stm (HFFrozenCache KV) unit :=
  modify (λ c, mkHF (delete (tenant_id, document_id) (hf_entries c))).

Definition hf_contains (tenant_id document_id : uuid) : stm (HFFrozenCache KV) bool :=
  c ← get_st; mret (bool_decide (is_Some (hf_entries c !! (tenant_id, document_id)))).

#[export] Instance hf_frozen_cache : FrozenCache (HFFrozenCache KV) KV := {|
  fc_preload := hf_preload;
  fc_lookup := hf_lookup;
  fc_evict := hf_evict;
  fc_contains := hf_contains
|}.

Definition hf_view (c : HFFrozenCache KV) : gmap (uuid * uuid) (CacheHit KV) :=
  (λ e, mkCacheHit e.1 e.2) <$> hf_entries c.

#[export] Instance hf_reads : FrozenCacheReads (HFFrozenCache KV) KV hf_view.
Proof.
  split; intros t d c.
  - exists c. split; [|done]. unfold hf_view. rewrite lookup_fmap. cbn.
    unfold hf_lookup, get_st, mbind, stm_bind, mret, stm_ret.
    by destruct (hf_entries c !! (t, d)) as [[h kv]|].
  - exists c. split; [|done]. unfold hf_view. rewrite lookup_fmap. cbn.
    unfold hf_contains, get_st, mbind, stm_bind, mret, stm_ret. do 2 f_equal.
    apply bool_decide_ext. by rewrite fmap_is_Some.
  - eexists. split; [reflexivity|]. unfold hf_view. simpl. by rewrite fmap_delete.
Qed.

#[export] Instance hf_laws : FrozenCacheLaws (HFFrozenCache KV) KV hf_view.
Proof.
  split; [apply _|]. intros t d s c. cbn. unfold hf_preload, mbind, stm_bind, lift_res.
  destruct (hf_forward s) as [kv|e]; [|done].
  exists kv. unfold modify, hf_view. simpl. by rewrite fmap_insert.
Qed.
End hf.

(** ** NullFrozenCache *)

Inductive NullFrozenCache : Type := mkNull.

Section null.
Context {KV : Type}.

#[export] Instance null_frozen_cache : FrozenCache NullFrozenCache KV := {|
  fc_preload _ _ _ := mret tt;
  fc_lookup _ _ := mret None;
  fc_evict _ _ := mret tt;
  fc_contains _ _ := mret false
|}.

#[export] Instance null_expiring_cache : ExpiringCache NullFrozenCache KV := {|
  ec_preload_until _ _ _ _ := mret tt;
  ec_renew _ _ _ := mret false
|}.

(** It keeps the read half of the contract: the cache that is always empty. *)
#[export] Instance null_expiring_reads now :
  ExpiringCacheReads NullFrozenCache KV (λ _, ∅) (λ _, now).
Proof.
  split.
  - split; intros t d c; exists c; split; done.
  - intros t d e c. exists c. split; [done|]. by destruct (expired _ _).
Qed.
End null.

(** ** ExpiringFrozenCache *)

(** The wrapped cache, the expiry dict, and the time its clock shows. *)
Record ExpiringFrozenCache (C : Type) : Type := mkExpiring {
  ex_inner : C;
  ex_expiry : gmap (uuid * uuid) (option datetime);
  ex_clock : datetime
}.
Arguments mkExpiring {C}.
Arguments ex_inner {C}.
Arguments ex_expiry {C}.
Arguments ex_clock {C}.

Section expiring.
Context {C KV : Type} `{FrozenCache C KV}.

Definition on_inner {A} (m : stm C A) : stm (ExpiringFrozenCache C) A := λ s,
  let '(r, c') := m (ex_inner s) in (r, mkExpiring c' (ex_expiry s) (ex_clock s)).

Definition set_expiry (key : uuid * uuid) (e : option datetime)
    (s : ExpiringFrozenCache C) : ExpiringFrozenCache C :=
  mkExpiring (ex_inner s) (<[key := e]> (ex_expiry s)) (ex_clock s).

Definition drop_expiry (key : uuid * uuid) (s : ExpiringFrozenCache C) : ExpiringFrozenCache C :=
  mkExpiring (ex_inner s) (delete key (ex_expiry s)) (ex_clock s).

(** [_expire_if_due]. *)
Definition expire_if_due (tenant_id document_id : uuid) : stm (ExpiringFrozenCache C) bool :=
  s ← get_st;
  let key := (tenant_id, document_id) in
  match ex_expiry s !! key with
  | None | Some None => mret false
  | Some (Some expires_at) =>
      if ex_clock s <? expires_at then mret false
      else
        _ ← modify (drop_expiry key);
        _ ← on_inner (fc_evict tenant_id document_id);
        mret true
  end.

(** The locked half of [preload_until]: the new expiry, before the slow half. *)
Definition preload_until_begin (tenant_id document_id : uuid) (expires_at : option datetime)
    : stm (ExpiringFrozenCache C) unit :=
  modify (set_expiry (tenant_id, document_id) expires_at).

Definition ex_preload_until (tenant_id document_id : uuid) (content : string)
    (expires_at : option datetime) : stm (ExpiringFrozenCache C) unit :=
  _ ← preload_until_begin tenant_id document_id expires_at;
  on_inner (fc_preload tenant_id document_id content).

Definition ex_preload (tenant_id document_id : uuid) (content : string)
    : stm (ExpiringFrozenCache C) unit :=
  ex_preload_until tenant_id document_id content None.

Definition ex_renew (tenant_id document_id : uuid) (expires_at : option datetime)
    : stm (ExpiringFrozenCache C) bool :=
  due ← expire_if_due tenant_id document_id;
  if (due : bool) then mret false
  else
    held ← on_inner (fc_contains tenant_id document_id);
    if negb held then mret false
    else
      _ ← modify (set_expiry (tenant_id, document_id) expires_at);
      mret true.

Definition ex_lookup (tenant_id document_id : uuid)
    : stm (ExpiringFrozenCache C) (option (CacheHit KV)) :=
  due ← expire_if_due tenant_id document_id;
  if (due : bool) then mret None else on_inner (fc_lookup tenant_id document_id).

Definition ex_evict (tenant_id document_id : uuid) : stm (ExpiringFrozenCache C) unit :=
  _ ← modify (drop_expiry (tenant_id, document_id));
  on_inner (fc_evict tenant_id document_id).

Definition ex_contains (tenant_id document_id : uuid) : stm (ExpiringFrozenCache C) bool :=
  due ← expire_if_due tenant_id document_id;
  if (due : bool) then mret false else on_inner (fc_contains tenant_id document_id).

#[export] Instance expiring_frozen_cache : FrozenCache (ExpiringFrozenCache C) KV := {|
  fc_preload := ex_preload;
  fc_lookup := ex_lookup;
  fc_evict := ex_evict;
  fc_contains := ex_contains
|}.

#[export] Instance expiring_cache : ExpiringCache (ExpiringFrozenCache C) KV := {|
  ec_preload_until := ex_preload_until;
  ec_renew := ex_renew
|}.

(** *** It refines the abstract expiring cache *)

Context (inner_view : C → gmap (uuid * uuid) (CacheHit KV))
  `{!FrozenCacheLaws C KV inner_view}.

Definition due_at (s : ExpiringFrozenCache C) (key : uuid * uuid) : bool :=
  match ex_expiry s !! key with Some e => expired e (ex_clock s) | None => false end.

(** What is live: the wrapped entries whose expiry has not been reached. *)
Definition ex_view (s : ExpiringFrozenCache C) : gmap (uuid * uuid) (CacheHit KV) :=
  filter (λ ke, Is_true (negb (due_at s ke.1))) (inner_view (ex_inner s)).

Lemma ex_view_lookup s k :
  ex_view s !! k = if due_at s k then None else inner_view (ex_inner s) !! k.
Proof.
  unfold ex_view. destruct (due_at s k) eqn:Hd.
  - apply map_lookup_filter_None. right. intros x _. simpl. rewrite Hd. simpl. tauto.
  - rewrite map_lookup_filter. simpl. destruct (inner_view (ex_inner s) !! k); [|done].
    simpl. by rewrite option_guard_True by (by rewrite Hd).
Qed.

(** An expiry check never changes what is live; afterwards the key is not due,
    and it answers whether the key was. *)
Lemma expire_if_due_spec t d s :
  ∃ s', expire_if_due t d s = (Ret (due_at s (t, d)), s')
    ∧ ex_clock s' = ex_clock s ∧ due_at s' (t, d) = false
    ∧ (due_at s (t, d) = true → ex_view s' !! (t, d) = None)
    ∧ ex_view s' = ex_view s.
Proof.
  unfold expire_if_due, due_at. unfold get_st at 1. unfold mbind at 1, stm_bind at 1.
  destruct (ex_expiry s !! (t, d)) as [[e|]|] eqn:He; simpl.
  2,3: exists s; rewrite He; done.
  destruct (Z.ltb_spec (ex_clock s) e).
  { exists s. rewrite He. simpl. rewrite (proj2 (Z.leb_gt e (ex_clock s))) by done. done. }
  rewrite (proj2 (Z.leb_le e (ex_clock s))) by done.
  destruct (fc_evict_spec t d (ex_inner s)) as (c' & Hev & Hview).
  unfold modify, on_inner, mbind, stm_bind, mret, stm_ret, drop_expiry. simpl.
  rewrite Hev. eexists. split; [done|]. simpl. rewrite lookup_delete_eq.
  assert (Hv : ex_view (mkExpiring c' (delete (t, d) (ex_expiry s)) (ex_clock s)) = ex_view s).
  { apply map_eq. intros k. rewrite !ex_view_lookup. unfold due_at. simpl. rewrite Hview.
    destruct (decide (k = (t, d))) as [->|Hk].
    - rewrite lookup_delete_eq, He. simpl. rewrite (proj2 (Z.leb_le e (ex_clock s))) by done.
      by rewrite lookup_delete_eq.
    - by rewrite !lookup_delete_ne by done. }
  rewrite Hv. split_and!; try done. intros _. rewrite ex_view_lookup. unfold due_at.
  rewrite He. simpl. by rewrite (proj2 (Z.leb_le e (ex_clock s))).
Qed.

Lemma ex_view_inner s c' :
  inner_view c' = inner_view (ex_inner s) →
  ex_view (mkExpiring c' (ex_expiry s) (ex_clock s)) = ex_view s.
Proof.
  intros Hc. apply map_eq. intros k. rewrite !ex_view_lookup. unfold due_at. simpl. by rewrite Hc.
Qed.

#[export] Instance expiring_reads : FrozenCacheReads (ExpiringFrozenCache C) KV ex_view.
Proof.
  split; intros t d s.
  - cbn. unfold ex_lookup.
    destruct (expire_if_due_spec t d s) as (s1 & Hrun & Hclk & Hdue & Hgone & Hv).
    stm_step Hrun. rewrite ex_view_lookup. destruct (due_at s (t, d)) eqn:Hd.
    + exists s1. done.
    + destruct (fc_lookup_spec t d (ex_inner s1)) as (c' & Hl & Hc).
      unfold on_inner. rewrite Hl. eexists. split; [|by rewrite ex_view_inner].
      do 2 f_equal. pose proof (ex_view_lookup s1 (t, d)) as H1.
      rewrite Hdue in H1. rewrite <- H1, Hv, ex_view_lookup, Hd. done.
  - cbn. unfold ex_contains.
    destruct (expire_if_due_spec t d s) as (s1 & Hrun & Hclk & Hdue & Hgone & Hv).
    stm_step Hrun. rewrite ex_view_lookup. destruct (due_at s (t, d)) eqn:Hd.
    + exists s1. done.
    + destruct (fc_contains_spec t d (ex_inner s1)) as (c' & Hl & Hc).
      unfold on_inner. rewrite Hl. eexists. split; [|by rewrite ex_view_inner].
      do 2 f_equal. pose proof (ex_view_lookup s1 (t, d)) as H1.
      rewrite Hdue in H1. rewrite <- H1, Hv, ex_view_lookup, Hd. done.
  - cbn. unfold ex_evict, modify, mbind, stm_bind, on_inner, drop_expiry. simpl.
    destruct (fc_evict_spec t d (ex_inner s)) as (c' & Hev & Hc). rewrite Hev.
    eexists. split; [done|]. apply map_eq. intros k.
    destruct (decide (k = (t, d))) as [->|Hk].
    + rewrite lookup_delete_eq, ex_view_lookup. unfold due_at. simpl.
      by rewrite lookup_delete_eq, Hc, lookup_delete_eq.
    + rewrite lookup_delete_ne by done. rewrite !ex_view_lookup. unfold due_at. simpl.
      by rewrite Hc, !lookup_delete_ne by done.
Qed.

Lemma ex_preload_until_spec t d content e s :
  match ex_preload_until t d content e s with
  | (Ret _, s') =>
      ∃ kv, ex_view s' = (if expired e (ex_clock s) then delete (t, d) (ex_view s)
        else <[(t, d) := mkCacheHit (content_hash content) kv]> (ex_view s))
  | (Raise _, s') => ∀ k, k ≠ (t, d) → ex_view s' !! k = ex_view s !! k
  end.
Proof.
  unfold ex_preload_until, preload_until_begin, modify, mbind, stm_bind, on_inner, set_expiry.
  simpl. pose proof (fc_preload_spec t d content (ex_inner s)) as Hp.
  destruct (fc_preload t d content (ex_inner s)) as [[[]|ex] c'].
  - destruct Hp as [kv Hc]. exists kv. apply map_eq. intros k. rewrite ex_view_lookup.
    unfold due_at. simpl. rewrite Hc. destruct (decide (k = (t, d))) as [->|Hk].
    + rewrite !lookup_insert_eq. destruct (expired _ _);
        [by rewrite lookup_delete_eq|by rewrite lookup_insert_eq].
    + rewrite !lookup_insert_ne by done. fold (due_at s k). rewrite <- ex_view_lookup.
      destruct (expired _ _); [by rewrite lookup_delete_ne|by rewrite lookup_insert_ne].
  - intros k Hk. rewrite !ex_view_lookup. unfold due_at. simpl.
    rewrite lookup_insert_ne by done. by rewrite Hp.
Qed.

#[export] Instance expiring_laws : FrozenCacheLaws (ExpiringFrozenCache C) KV ex_view.
Proof. split; [apply _|]. intros t d content s. apply (ex_preload_until_spec t d content None s). Qed.

#[export] Instance expiring_expiring_reads :
  ExpiringCacheReads (ExpiringFrozenCache C) KV ex_view ex_clock.
Proof.
  split; [apply _|]. intros t d e s. cbn. unfold ex_renew.
  destruct (expire_if_due_spec t d s) as (s1 & Hrun & Hclk & Hdue & Hgone & Hv).
  stm_step Hrun. rewrite ex_view_lookup. destruct (due_at s (t, d)) eqn:Hd.
  { exists s1. split; [done|]. rewrite Hv. destruct (expired _ _); [|done].
    symmetry. apply delete_id. by rewrite ex_view_lookup, Hd. }
  destruct (fc_contains_spec t d (ex_inner s1)) as (c' & Hl & Hc).
  assert (Hsame : inner_view (ex_inner s1) !! (t, d) = inner_view (ex_inner s) !! (t, d)).
  { pose proof (ex_view_lookup s1 (t, d)) as H1. rewrite Hdue in H1.
    by rewrite <- H1, Hv, ex_view_lookup, Hd. }
  assert (Hon : on_inner (fc_contains t d) s1
    = (Ret (bool_decide (is_Some (inner_view (ex_inner s) !! (t, d)))),
       mkExpiring c' (ex_expiry s1) (ex_clock s1))).
  { unfold on_inner. rewrite Hl. by rewrite Hsame. }
  stm_step Hon. clear Hon. destruct (bool_decide (is_Some (inner_view (ex_inner s) !! (t, d)))) eqn:Hheld; simpl.
  - eexists. split; [done|]. rewrite <- Hv. rewrite <- Hclk. apply map_eq. intros k.
    unfold set_expiry. simpl. rewrite ex_view_lookup. unfold due_at. simpl. rewrite Hc.
    destruct (decide (k = (t, d))) as [->|Hk].
    + rewrite lookup_insert_eq. destruct (expired _ _); [by rewrite lookup_delete_eq|].
      by rewrite ex_view_lookup, Hdue.
    + rewrite lookup_insert_ne by done. fold (due_at s1 k). rewrite <- ex_view_lookup.
      destruct (expired _ _); [by rewrite lookup_delete_ne|done].
  - eexists. split; [done|]. rewrite ex_view_inner, Hv by done.
    destruct (expired _ _); [|done]. symmetry. apply delete_id.
    rewrite ex_view_lookup, Hd. apply eq_None_not_Some. by apply bool_decide_eq_false_1 in Hheld.
Qed.

#[export] Instance expiring_expiring_laws :
  ExpiringCacheLaws (ExpiringFrozenCache C) KV ex_view ex_clock.
Proof. split; [apply _..|]. intros. apply ex_preload_until_spec. Qed.
End expiring.

(** ** Properties *)

(** A model whose handle is the length of the text, for the worked examples. *)
Definition length_model : HFModel nat := λ s, Ret (String.length s).

(** An expiring cache over it: one document pre-loaded at time 0 to expire at
    100, with the clock at 40 or later. *)
Definition sample_cache (clock : datetime) : ExpiringFrozenCache (HFFrozenCache nat) :=
  mkExpiring (mkHF {[ (1, 2) := (content_hash "old", 3%nat) ]}) {[ (1, 2) := Some 100 ]} clock.

(** The expiring cache refines its contract on lookups: a lookup answers
    with the wrapped cache's entry unless its expiry has been reached, in which
    case it answers nothing and the wrapped entry is gone; and no lookup
    changes what is live. *)
Theorem expiring_lookup_exact {C KV} `{FrozenCache C KV}
    (inner_view : C → gmap (uuid * uuid) (CacheHit KV)) `{!FrozenCacheLaws C KV inner_view}
    t d (s : ExpiringFrozenCache C) :
  ∃ s', ex_lookup t d s
      = (Ret (if due_at s (t, d) then None else inner_view (ex_inner s) !! (t, d)), s')
    ∧ (due_at s (t, d) = true → inner_view (ex_inner s') !! (t, d) = None)
    ∧ ex_view inner_view s' = ex_view inner_view s.
Proof.
  destruct (fc_lookup_spec (view := ex_view inner_view) t d s) as (s' & Hl & Hv).
  exists s'. rewrite ex_view_lookup in Hl. split; [done|]. split; [|done].
  intros Hd. cbn in Hl. unfold ex_lookup in Hl.
  destruct (expire_if_due_spec inner_view t d s) as (s1 & Hrun & _ & Hdue & Hgone & Hv1).
  rewrite (stm_bind_eq _ _ _ _ _ Hrun), Hd in Hl. injection Hl as <-.
  specialize (Hgone Hd). by rewrite ex_view_lookup, Hdue in Hgone.
Qed.

Lemma expiring_lookup_exact_witness :
  ∃ s', ex_lookup (H := hf_frozen_cache (H := length_model)) 1 2 (sample_cache 100)
      = (Ret (if due_at (sample_cache 100) (1, 2) then None
              else hf_view (ex_inner (sample_cache 100)) !! (1, 2)), s')
    ∧ (due_at (sample_cache 100) (1, 2) = true → hf_view (ex_inner s') !! (1, 2) = None)
    ∧ ex_view hf_view s' = ex_view hf_view (sample_cache 100).
Proof. apply (expiring_lookup_exact hf_view (H := hf_frozen_cache (H := length_model))). Defined.

(** What is visible while a pre-load is under way.  Between the locked
    half of [preload_until] and the wrapped pre-load, and for good if that
    pre-load raises, a lookup of an entry that had expired answers with the
    expired content under the new expiry. *)
Theorem expired_entry_visible_during_preload {C KV} `{FrozenCache C KV}
    (inner_view : C → gmap (uuid * uuid) (CacheHit KV)) `{!FrozenCacheLaws C KV inner_view}
    t d (s : ExpiringFrozenCache C) old e :
  inner_view (ex_inner s) !! (t, d) = Some old → due_at s (t, d) = true →
  expired e (ex_clock s) = false →
  (∃ s', ex_lookup t d s = (Ret None, s')) ∧
  ∃ s1 s2, preload_until_begin t d e s = (Ret tt, s1) ∧ ex_lookup t d s1 = (Ret (Some old), s2).
Proof.
  intros Hold Hdue He. split.
  - destruct (fc_lookup_spec (view := ex_view inner_view) t d s) as (s' & Hl & _).
    exists s'. by rewrite ex_view_lookup, Hdue in Hl.
  - exists (set_expiry (t, d) e s).
    destruct (fc_lookup_spec (view := ex_view inner_view) t d (set_expiry (t, d) e s))
      as (s' & Hl & _).
    exists s'. split; [done|]. rewrite ex_view_lookup in Hl. unfold due_at in Hl.
    simpl in Hl. rewrite lookup_insert_eq, He in Hl. by rewrite <- Hold.
Qed.

Lemma expired_entry_visible_during_preload_witness :
  (∃ s', ex_lookup (H := hf_frozen_cache (H := length_model)) 1 2 (sample_cache 150)
         = (Ret None, s')) ∧
  ∃ s1 s2, preload_until_begin 1 2 (Some 900) (sample_cache 150) = (Ret tt, s1)
    ∧ ex_lookup (H := hf_frozen_cache (H := length_model)) 1 2 s1
      = (Ret (Some (mkCacheHit (content_hash "old") 3%nat)), s2).
Proof.
  apply (expired_entry_visible_during_preload hf_view); [|reflexivity|reflexivity].
  unfold hf_view, sample_cache. cbn [ex_inner hf_entries].
  rewrite lookup_fmap, lookup_singleton_eq. reflexivity.
Defined.
