(* ===== verification/SyncMixer.v ===== *)
(** * The Sync Mixer

    [reconcile] (orchestration/domain/sync_mixer.py) and the three batch
    invalidation cycles built on it: SyncCycle (RAG beats CAG), MagSyncCycle
    (RAG beats MAG) and CagMagSyncCycle (MAG beats CAG, through the keys of
    domain/cag_mag_keys.py).  All three are one loop over different stores;
    [sync_loop] is that loop, and each cycle is shown to be an instance. *)

From Stdlib Require Import ZArith Lia Ascii String.
From S2P Require Import Prelude PyTime Digest Entities Ports FrozenCaches.

Definition reconcile (cached_content_hash : option string) (authoritative_content : string)
    (document_id : uuid) : option SyncConflict :=
  match cached_content_hash with
  | None => None
  | Some h =>
      let authoritative_hash := content_hash authoritative_content in
      if String.eqb h authoritative_hash then None
      else Some (mkConflict document_id h authoritative_hash)
  end.

(** ** Keys for MAG content held in CAG's cache *)

Definition cache_key (user_id : uuid) (mag_content_key : string) : uuid :=
  uuid5 NAMESPACE_OID (uuid_str user_id +:+ String ":" mag_content_key)%string.

Definition tracker_key (mag_content_key : string) : uuid := uuid5 NAMESPACE_OID mag_content_key.

(** ** The three cycles *)

Section sync_cycle.
Context {C KV : Type} `{FrozenCache C KV}.

(** [SyncCycle.run].  The content callback is a call that may raise. *)
Fixpoint SyncCycle_run (tenant_id : uuid) (document_ids : list uuid)
    (authoritative_content : uuid → res string) : stm C (list SyncConflict) :=
  match document_ids with
  | [] => mret []
  | document_id :: rest =>
      cached_hit ← fc_lookup tenant_id document_id;
      content ← lift_res (authoritative_content document_id);
      match reconcile (ch_content_hash <$> cached_hit) content document_id with
      | Some conflict =>
          _ ← fc_evict tenant_id document_id;
          conflicts ← SyncCycle_run tenant_id rest authoritative_content;
          mret (conflict :: conflicts)
      | None => SyncCycle_run tenant_id rest authoritative_content
      end
  end.

(** [CagMagSyncCycle.run]: conflicts come back paired with the caller's key. *)
Fixpoint CagMagSyncCycle_run (tenant_id user_id : uuid) (mag_content_keys : list string)
    (authoritative_content : string → res string) : stm C (list (string * SyncConflict)) :=
  match mag_content_keys with
  | [] => mret []
  | mag_content_key :: rest =>
      let cache_id := cache_key user_id mag_content_key in
      cached_hit ← fc_lookup tenant_id cache_id;
      content ← lift_res (authoritative_content mag_content_key);
      match reconcile (ch_content_hash <$> cached_hit) content cache_id with
      | Some conflict =>
          _ ← fc_evict tenant_id cache_id;
          conflicts ← CagMagSyncCycle_run tenant_id user_id rest authoritative_content;
          mret ((mag_content_key, conflict) :: conflicts)
      | None => CagMagSyncCycle_run tenant_id user_id rest authoritative_content
      end
  end.
End sync_cycle.

Section mag_sync_cycle.
Context {W : Type} `{WarmStore W}.

(** [MagSyncCycle.run]. *)
Fixpoint MagSyncCycle_run (tenant_id user_id : uuid) (document_ids : list uuid)
    (authoritative_content : uuid → res string) : stm W (list SyncConflict) :=
  match document_ids with
  | [] => mret []
  | document_id :: rest =>
      warm_entry ← ws_lookup tenant_id user_id document_id;
      content ← lift_res (authoritative_content document_id);
      match reconcile (we_content_hash <$> warm_entry) content document_id with
      | Some conflict =>
          _ ← ws_demote tenant_id user_id document_id;
          conflicts ← MagSyncCycle_run tenant_id user_id rest authoritative_content;
          mret (conflict :: conflicts)
      | None => MagSyncCycle_run tenant_id user_id rest authoritative_content
      end
  end.
End mag_sync_cycle.

(** ** The loop they share *)

Section sync_loop.
(** A store seen only through the hash it holds in each slot of one tenant (or
    user): reads leave every hash alone, removal drops one.  What [frame] says
    holds from the first state, [s0], on. *)
Context {S K D : Type} `{EqDecision D} (hash_at : S → D → option string).
Context (id_of : K → D) (doc_of : K → uuid) (read : K → stm S (option string)) (remove : K → stm S unit).
Context (frame : S → S → Prop) `{!Reflexive frame, !Transitive frame} (s0 : S).
Hypothesis read_spec : ∀ k s, frame s0 s → ∃ s',
  read k s = (Ret (hash_at s (id_of k)), s') ∧ (∀ e, hash_at s' e = hash_at s e) ∧ frame s s'.
Hypothesis remove_spec : ∀ k s, frame s0 s → ∃ s',
  remove k s = (Ret tt, s') ∧ hash_at s' (id_of k) = None
  ∧ (∀ e, e ≠ id_of k → hash_at s' e = hash_at s e) ∧ frame s s'.

Fixpoint sync_loop (keys : list K) (authority : K → res string)
    : stm S (list (K * SyncConflict)) :=
  match keys with
  | [] => mret []
  | k :: rest =>
      h ← read k;
      content ← lift_res (authority k);
      match reconcile h content (doc_of k) with
      | Some conflict =>
          _ ← remove k;
          conflicts ← sync_loop rest authority;
          mret ((k, conflict) :: conflicts)
      | None => sync_loop rest authority
      end
  end.

(** [k]'s entry disagrees with the authority. *)
Definition stale (s : S) (content : K → string) (k : K) : Prop :=
  ∃ h, hash_at s (id_of k) = Some h ∧ h ≠ content_hash (content k).

Lemma reconcile_stale s content k conflict :
  reconcile (hash_at s (id_of k)) (content k) (doc_of k) = Some conflict ↔
  stale s content k ∧ sc_document_id conflict = doc_of k
  ∧ hash_at s (id_of k) = Some (sc_cached_content_hash conflict)
  ∧ sc_authoritative_content_hash conflict = content_hash (content k).
Proof.
  unfold reconcile, stale. destruct (hash_at s (id_of k)) as [h|]; [|naive_solver].
  destruct (String.eqb_spec h (content_hash (content k))).
  - split; [done|]. intros ((h' & [= <-] & ?) & _). congruence.
  - split.
    + intros [= <-]. simpl. split; [by exists h|done].
    + destruct conflict; simpl. intros (_ & -> & [= ->] & ->). done.
Qed.

Lemma reconcile_fresh s content k :
  reconcile (hash_at s (id_of k)) (content k) (doc_of k) = None ↔ ¬ stale s content k.
Proof.
  unfold reconcile, stale. destruct (hash_at s (id_of k)) as [h|]; [|naive_solver].
  destruct (String.eqb_spec h (content_hash (content k))); naive_solver.
Qed.

(** One pass: an id loses its entry exactly when one of its keys was stale,
    every report is of a stale entry, with its hashes, and ids are reported
    at most once. *)
Lemma sync_loop_spec keys authority content s :
  (∀ k, authority k = Ret (content k)) → frame s0 s →
  ∃ conflicts s', sync_loop keys authority s = (Ret conflicts, s') ∧
    frame s s' ∧
    (∀ d, hash_at s' d = hash_at s d ∨ hash_at s' d = None) ∧
    (∀ d, hash_at s d ≠ None →
       hash_at s' d = None ↔ ∃ k, k ∈ keys ∧ id_of k = d ∧ stale s content k) ∧
    (∀ k c, (k, c) ∈ conflicts → k ∈ keys ∧ stale s content k
       ∧ sc_document_id c = doc_of k
       ∧ hash_at s (id_of k) = Some (sc_cached_content_hash c)
       ∧ sc_authoritative_content_hash c = content_hash (content k)) ∧
    (∀ k, k ∈ keys → stale s content k →
       ∃ k' c, (k', c) ∈ conflicts ∧ id_of k' = id_of k) ∧
    NoDup (map (λ kc, id_of kc.1) conflicts).
Proof.
  intros Hauth. revert s. induction keys as [|k keys IH]; intros s Hs0; cbn [sync_loop].
  { exists [], s. split; [done|]. split; [done|]. split; [auto|].
    split; [intros d Hd; split; [done|set_solver]|].
    split; [set_solver|]. split; [set_solver|]. constructor. }
  destruct (read_spec k s Hs0) as (s1 & Hread & Hh1 & Hf1).
  stm_step Hread. rewrite Hauth, stm_lift_bind.
  assert (Hst : ∀ j, stale s1 content j ↔ stale s content j).
  { intros j. unfold stale. by rewrite Hh1. }
  destruct (reconcile (hash_at s (id_of k)) (content k) (doc_of k)) as [conflict|] eqn:Hrec.
  - apply reconcile_stale in Hrec as (Hk & Hid & Hcached & Hnew).
    destruct (remove_spec k s1 ltac:(by etrans)) as (s2 & Hrem & Hgone & Hkeep & Hf2).
    stm_step Hrem.
    destruct (IH s2 ltac:(by do 2 (etrans; [done|]))) as (cs & s3 & Hrun & Hf3 & Hsub & Hiff & Hrep & Hall & Hnd).
    stm_step Hrun.
    assert (Hst2 : ∀ j, stale s2 content j ↔
      stale s content j ∧ id_of j ≠ id_of k).
    { intros j. rewrite <- Hst. unfold stale. destruct (decide (id_of j = id_of k)) as [He|He].
      - rewrite He, Hgone. naive_solver.
      - rewrite Hkeep by done. naive_solver. }
    exists ((k, conflict) :: cs), s3. split; [done|]. split; [by do 2 (etrans; [done|])|].
    split; [|split; [|split; [|split]]].
    + intros d. destruct (Hsub d) as [->|]; [|by right].
      destruct (decide (d = id_of k)) as [->|]; [by right|]. rewrite Hkeep, Hh1 by done. by left.
    + intros d Hd. destruct (decide (d = id_of k)) as [->|Hne].
      * split; [intros _; exists k; split; [by left|done]|]. intros _.
        destruct (Hsub (id_of k)) as [->|]; done.
      * rewrite Hiff by (rewrite Hkeep, Hh1 by done; done). split.
        -- intros (j & Hj & <- & Hsj). exists j. rewrite Hst2 in Hsj. set_solver.
        -- intros (j & [->|Hj]%elem_of_cons & <- & Hsj); [done|]. exists j.
           rewrite Hst2. auto.
    + intros j c [[= -> ->]|Hin]%elem_of_cons; [split; [by left|done]|].
      destruct (Hrep j c Hin) as (Hj & Hsj & Hc1 & Hc2 & Hc3). rewrite Hst2 in Hsj.
      destruct Hsj as [Hsj Hne]. rewrite Hkeep, Hh1 in Hc2 by done.
      split; [by right|done].
    + intros j Hj Hsj. destruct (decide (id_of j = id_of k)) as [He|Hne].
      * exists k, conflict. split; [by left|done].
      * apply elem_of_cons in Hj as [->|Hj]; [done|].
        destruct (Hall j Hj) as (j' & c & Hin & He); [by apply Hst2|].
        exists j', c. split; [by right|done].
    + cbn [map fst]. constructor; [|done]. intros Hin.
      apply list_elem_of_fmap in Hin as ([j c] & He & Hin). simpl in He.
      destruct (Hrep j c Hin) as (_ & Hsj & _). rewrite Hst2 in Hsj. by destruct Hsj.
  - apply reconcile_fresh in Hrec.
    destruct (IH s1 ltac:(by etrans)) as (cs & s3 & Hrun & Hf3 & Hsub & Hiff & Hrep & Hall & Hnd).
    exists cs, s3. split; [done|]. split; [by etrans|].
    split; [|split; [|split; [|split]]].
    + intros d. rewrite <- Hh1. apply Hsub.
    + intros d Hd. rewrite Hiff by (by rewrite Hh1). split.
      * intros (j & ? & ? & Hj). rewrite Hst in Hj. exists j. split; [by right|done].
      * intros (j & [->|Hj]%elem_of_cons & ? & Hsj); [done|]. exists j. by rewrite Hst.
    + intros j c Hin. destruct (Hrep j c Hin) as (? & Hsj & ? & Hc & ?).
      rewrite Hst in Hsj. rewrite Hh1 in Hc. split; [by right|done].
    + intros j [->|Hj]%elem_of_cons Hsj; [done|]. apply Hall; [done|]. by rewrite Hst.
    + done.
Qed.
End sync_loop.

(** ** Each cycle is that loop *)

Section instances.
Context {C KV : Type} `{FrozenCache C KV}
  (view : C → gmap (uuid * uuid) (CacheHit KV)) `{!FrozenCacheReads C KV view}.

Definition hash_in (t : uuid) (c : C) (d : uuid) : option string :=
  ch_content_hash <$> view c !! (t, d).

Definition read_hash (t d : uuid) : stm C (option string) :=
  hit ← fc_lookup t d; mret (ch_content_hash <$> hit).

(** Nothing but removals, none of them in another tenant. *)
Definition only_evicts (t : uuid) (c c' : C) : Prop :=
  view c' ⊆ view c ∧ ∀ k, k.1 ≠ t → view c' !! k = view c !! k.

#[export] Instance only_evicts_refl t : Reflexive (only_evicts t).
Proof. intros c. split; [done|]. by intros. Qed.
#[export] Instance only_evicts_trans t : Transitive (only_evicts t).
Proof.
  intros a b c [H1 H2] [H3 H4]. split; [by etrans|]. intros k Hk. by rewrite H4, H2.
Qed.

Lemma read_hash_spec t d c : ∃ c',
  read_hash t d c = (Ret (hash_in t c d), c') ∧ (∀ e, hash_in t c' e = hash_in t c e)
  ∧ only_evicts t c c'.
Proof.
  destruct (fc_lookup_spec t d c) as (c' & Hl & Hv). exists c'. unfold read_hash, hash_in.
  stm_step Hl. split; [done|]. split; [by rewrite Hv|].
  unfold only_evicts. by rewrite Hv.
Qed.

Lemma evict_hash_spec t d c : ∃ c',
  fc_evict t d c = (Ret tt, c') ∧ hash_in t c' d = None
  ∧ (∀ e, e ≠ d → hash_in t c' e = hash_in t c e) ∧ only_evicts t c c'.
Proof.
  destruct (fc_evict_spec t d c) as (c' & Hl & Hv). exists c'. split; [done|].
  unfold hash_in, only_evicts. rewrite Hv. split; [by rewrite lookup_delete_eq|].
  split; [intros e He; rewrite lookup_delete_ne by congruence; done|].
  split; [apply delete_subseteq|]. intros [t' d'] Ht. simpl in Ht.
  rewrite lookup_delete_ne by congruence. done.
Qed.

Lemma read_hash_eq t d c :
  read_hash t d c = match fc_lookup t d c with
                    | (Ret hit, c') => (Ret (ch_content_hash <$> hit), c')
                    | (Raise e, c') => (Raise e, c')
                    end.
Proof. done. Qed.

Lemma SyncCycle_run_loop t ids authority c :
  SyncCycle_run t ids authority c
  = (let '(r, c') := sync_loop id (λ k, read_hash t (id k)) (λ k, fc_evict t (id k)) ids authority c in
     (map snd <$> r, c')).
Proof.
  revert c. induction ids as [|d ids IH]; intros c; [done|].
  cbn [SyncCycle_run sync_loop]. unfold mbind, stm_bind, id.
  rewrite read_hash_eq. destruct (fc_lookup t d c) as [[hit|e] c1]; [|done].
  unfold lift_res. destruct (authority d) as [content|e]; [|done].
  destruct (reconcile _ _ _) as [conflict|]; [|apply IH].
  destruct (fc_evict t d c1) as [[[]|e] c2]; [|done].
  rewrite IH. by destruct (sync_loop _ _ _ _ _ _) as [[l|e] c3].
Qed.

Lemma CagMagSyncCycle_run_loop t u keys authority c :
  CagMagSyncCycle_run t u keys authority c
  = sync_loop (cache_key u) (λ k, read_hash t (cache_key u k)) (λ k, fc_evict t (cache_key u k)) keys authority c.
Proof.
  revert c. induction keys as [|d keys IH]; intros c; [done|].
  cbn [CagMagSyncCycle_run sync_loop]. unfold mbind, stm_bind.
  rewrite read_hash_eq. destruct (fc_lookup t (cache_key u d) c) as [[hit|e] c1]; [|done].
  unfold lift_res. destruct (authority d) as [content|e]; [|done].
  destruct (reconcile _ _ _) as [conflict|]; [|apply IH].
  destruct (fc_evict t (cache_key u d) c1) as [[[]|e] c2]; [|done]. by rewrite IH.
Qed.

(** An entry whose hash is not the authority's. *)
Definition disagrees (t : uuid) (c : C) (d : uuid) (content : string) : Prop :=
  ∃ hit, view c !! (t, d) = Some hit ∧ ch_content_hash hit ≠ content_hash content.

Lemma stale_disagrees {K} t c (id_of : K → uuid) content k :
  stale (hash_in t) id_of c content k ↔ disagrees t c (id_of k) (content k).
Proof.
  unfold stale, disagrees, hash_in. destruct (view c !! (t, id_of k)) as [hit|]; naive_solver.
Qed.

Lemma cycle_spec {K} t (id_of : K → uuid) keys authority content c :
  (∀ k, authority k = Ret (content k)) →
  ∃ conflicts c',
    sync_loop id_of (λ k, read_hash t (id_of k)) (λ k, fc_evict t (id_of k)) keys authority c = (Ret conflicts, c') ∧
    only_evicts t c c' ∧
    (∀ d, is_Some (view c !! (t, d)) →
       view c' !! (t, d) = None ↔
       ∃ k, k ∈ keys ∧ id_of k = d ∧ disagrees t c (id_of k) (content k)) ∧
    (∀ k x, (k, x) ∈ conflicts → k ∈ keys ∧ disagrees t c (id_of k) (content k)
       ∧ sc_document_id x = id_of k) ∧
    (∀ k, k ∈ keys → disagrees t c (id_of k) (content k) →
       ∃ k' x, (k', x) ∈ conflicts ∧ id_of k' = id_of k) ∧
    NoDup (map (λ kx, id_of kx.1) conflicts).
Proof.
  intros Hauth.
  destruct (sync_loop_spec (hash_in t) id_of id_of (λ k, read_hash t (id_of k)) (λ k, fc_evict t (id_of k)) (only_evicts t) c
    (λ k s _, read_hash_spec t (id_of k) s) (λ k s _, evict_hash_spec t (id_of k) s) keys authority content c Hauth (reflexivity c))
    as (cs & c' & Hrun & Hf & Hsub & Hiff & Hrep & Hall & Hnd).
  exists cs, c'. split; [done|]. split; [done|]. split; [|split; [|split; [|done]]].
  - intros d [hit Hd]. specialize (Hiff d). unfold hash_in in Hiff at 1 2. rewrite Hd in Hiff.
    setoid_rewrite stale_disagrees in Hiff. rewrite <- Hiff by done.
    destruct (view c' !! (t, d)); simpl; by split.
  - intros k x Hin. destruct (Hrep k x Hin) as (Hk & Hs & Hid & _).
    by rewrite stale_disagrees in Hs.
  - intros k Hk Hd. apply Hall; [done|]. by apply stale_disagrees.
Qed.
End instances.

Section settled.
Context {C KV : Type} `{FrozenCache C KV}
  (view : C → gmap (uuid * uuid) (CacheHit KV)) `{!FrozenCacheReads C KV view}.

(** After a pass nothing listed disagrees, so a second pass reports nothing. *)
Lemma cycle_settles {K} t (id_of : K → uuid) keys authority content c :
  (∀ k, authority k = Ret (content k)) →
  ∃ conflicts c' c'',
    sync_loop id_of (λ k, read_hash t (id_of k)) (λ k, fc_evict t (id_of k)) keys authority c = (Ret conflicts, c') ∧
    only_evicts view t c c' ∧
    (∀ d, is_Some (view c !! (t, d)) →
       view c' !! (t, d) = None ↔
       ∃ k, k ∈ keys ∧ id_of k = d ∧ disagrees view t c (id_of k) (content k)) ∧
    (∀ d, (∃ k x, (k, x) ∈ conflicts ∧ id_of k = d) ↔
       ∃ k, k ∈ keys ∧ id_of k = d ∧ disagrees view t c (id_of k) (content k)) ∧
    NoDup (map (λ kx, id_of kx.1) conflicts) ∧
    sync_loop id_of (λ k, read_hash t (id_of k)) (λ k, fc_evict t (id_of k)) keys authority c' = (Ret [], c'').
Proof.
  intros Hauth.
  destruct (cycle_spec view t id_of keys authority content c Hauth)
    as (cs & c' & Hrun & Hev & Hiff & Hrep & Hall & Hnd).
  destruct (cycle_spec view t id_of keys authority content c' Hauth)
    as (cs2 & c'' & Hrun2 & _ & _ & Hrep2 & _).
  exists cs, c', c''. split; [done|]. split; [done|]. split; [done|].
  split; [|split; [done|]].
  - intros d. split.
    + intros (k & x & Hin & <-). destruct (Hrep k x Hin) as (? & ? & _). by exists k.
    + intros (k & Hk & <- & Hd). destruct (Hall k Hk Hd) as (k' & x & Hin & He). eauto.
  - destruct cs2 as [|[k x] cs2]; [done|]. exfalso.
    destruct (Hrep2 k x ltac:(by left)) as (Hk & (hit & Hhit & Hne) & _).
    destruct Hev as [Hsub _]. pose proof (lookup_weaken _ _ _ _ Hhit Hsub) as Hc.
    assert (view c' !! (t, id_of k) = None) as Hnone; [|by rewrite Hnone in Hhit].
    apply Hiff; [by eexists|]. exists k. split; [done|]. split; [done|]. by exists hit.
Qed.

(** RAG wins over the frozen cache.  One [SyncCycle] pass returns whatever
    the cache held; it evicts exactly the listed documents whose cached hash
    is not that of RAG's current content, reports each of them once, leaves
    every other entry (of this tenant or another) as it was, and settles: a
    second pass finds nothing. *)
Theorem SyncCycle_settles t ids authority content c :
  (∀ d, authority d = Ret (content d)) →
  ∃ conflicts c' c'',
    SyncCycle_run t ids authority c = (Ret conflicts, c') ∧
    only_evicts view t c c' ∧
    (∀ d, is_Some (view c !! (t, d)) →
       view c' !! (t, d) = None ↔ d ∈ ids ∧ disagrees view t c d (content d)) ∧
    (∀ d, d ∈ map sc_document_id conflicts ↔ d ∈ ids ∧ disagrees view t c d (content d)) ∧
    NoDup (map sc_document_id conflicts) ∧
    SyncCycle_run t ids authority c' = (Ret [], c'').
Proof.
  intros Hauth.
  destruct (cycle_settles t id ids authority content c Hauth)
    as (cs & c' & c'' & Hrun & Hev & Hiff & Hrep & Hnd & Hrun2).
  destruct (cycle_spec view t id ids authority content c Hauth)
    as (cs' & c1 & Hrun' & _ & _ & Hdoc & _).
  rewrite Hrun in Hrun'. simplify_eq.
  assert (Hids : map sc_document_id (map snd cs') = map (λ kx, id kx.1) cs').
  { rewrite map_map. apply map_ext_in. intros [k x] Hin. simpl.
    apply list_elem_of_In in Hin. by apply (Hdoc k x). }
  assert (Hk : ∀ d, (∃ k, k ∈ ids ∧ id k = d ∧ disagrees view t c (id k) (content k)) ↔
    d ∈ ids ∧ disagrees view t c d (content d)).
  { intros d. unfold id. naive_solver. }
  exists (map snd cs'), c1, c''. rewrite !SyncCycle_run_loop, Hrun, Hrun2. simpl.
  split; [done|]. split; [done|]. split; [intros d Hd; by rewrite (Hiff d Hd), Hk|].
  split; [|split; [by rewrite Hids|done]].
  intros d. rewrite Hids, <- Hk, <- Hrep. rewrite list_elem_of_fmap. split.
  - intros ([k x] & -> & Hin). by exists k, x.
  - intros (k & x & Hin & <-). by exists (k, x).
Qed.

(** MAG wins over the frozen copies of its facts.  One [CagMagSyncCycle]
    pass evicts exactly the listed keys' entries whose hash is not that of the
    live fact, reports only listed keys and each evicted entry once, leaves
    everything else as it was, and settles. *)
Theorem CagMagSyncCycle_settles t u keys authority content c :
  (∀ k, authority k = Ret (content k)) →
  ∃ conflicts c' c'',
    CagMagSyncCycle_run t u keys authority c = (Ret conflicts, c') ∧
    only_evicts view t c c' ∧
    (∀ d, is_Some (view c !! (t, d)) →
       view c' !! (t, d) = None ↔
       ∃ k, k ∈ keys ∧ cache_key u k = d ∧ disagrees view t c d (content k)) ∧
    (∀ k x, (k, x) ∈ conflicts → k ∈ keys ∧ sc_document_id x = cache_key u k) ∧
    NoDup (map (λ kx, cache_key u kx.1) conflicts) ∧
    CagMagSyncCycle_run t u keys authority c' = (Ret [], c'').
Proof.
  intros Hauth.
  destruct (cycle_settles t (cache_key u) keys authority content c Hauth)
    as (cs & c' & c'' & Hrun & Hev & Hiff & _ & Hnd & Hrun2).
  destruct (cycle_spec view t (cache_key u) keys authority content c Hauth)
    as (cs' & c1 & Hrun' & _ & _ & Hdoc & _).
  rewrite Hrun in Hrun'. simplify_eq.
  exists cs', c1, c''. rewrite !CagMagSyncCycle_run_loop, Hrun, Hrun2.
  split; [done|]. split; [done|]. split; [|split; [|done]].
  - intros d Hd. rewrite (Hiff d Hd). naive_solver.
  - intros k x Hin. destruct (Hdoc k x Hin) as (? & _ & ?). done.
Qed.
End settled.

(** ** The warm tier *)

Section warm_settled.
Context {D W : Type} `{EqDecision D} `{WarmStore W} (ok : W → Prop) (slot : uuid → uuid → uuid → D)
  (view : W → D → option WarmEntry) `{!WarmStoreLaws W ok slot view}.

Definition warm_hash (w : W) (k : D) : option string := we_content_hash <$> view w k.
Definition read_warm (t u d : uuid) : stm W (option string) :=
  entry ← ws_lookup t u d; mret (we_content_hash <$> entry).

Lemma read_warm_eq t u d w :
  read_warm t u d w = match ws_lookup t u d w with
                      | (Ret entry, w') => (Ret (we_content_hash <$> entry), w')
                      | (Raise e, w') => (Raise e, w')
                      end.
Proof. done. Qed.

Lemma MagSyncCycle_run_loop t u ids authority w :
  MagSyncCycle_run t u ids authority w
  = (let '(r, w') := sync_loop id (read_warm t u) (ws_demote t u) ids authority w in (map snd <$> r, w')).
Proof.
  revert w. induction ids as [|d ids IH]; intros w; [done|].
  cbn [MagSyncCycle_run sync_loop]. unfold mbind, stm_bind, id. rewrite read_warm_eq.
  destruct (ws_lookup t u d w) as [[entry|e] w1]; [|done].
  unfold lift_res. destruct (authority d) as [content|e]; [|done].
  destruct (reconcile _ _ _) as [conflict|]; [|apply IH].
  destruct (ws_demote t u d w1) as [[[]|e] w2]; [|done].
  rewrite IH. by destruct (sync_loop _ _ _ _ _ _) as [[l|e] w3].
Qed.

(** The slots whose entry is lost, the others' kept. *)
Definition only_demotes (w w' : W) : Prop :=
  (ok w → ok w') ∧ ∀ k, view w' k = view w k ∨ view w' k = None.
#[export] Instance only_demotes_refl : Reflexive only_demotes.
Proof. intros w. split; auto. Qed.
#[export] Instance only_demotes_trans : Transitive only_demotes.
Proof.
  intros a b c [H1 H2] [H3 H4]. split; [auto|]. intros k. destruct (H4 k) as [->|]; auto.
Qed.

Definition warm_disagrees (t u : uuid) (w : W) (d : uuid) (content : string) : Prop :=
  ∃ entry, view w (slot t u d) = Some entry ∧ we_content_hash entry ≠ content_hash content.

Lemma stale_warm t u w content d : stale warm_hash (slot t u) w content d ↔ warm_disagrees t u w d (content d).
Proof. unfold stale, warm_disagrees, warm_hash. destruct (view w (slot t u d)) as [entry|]; naive_solver. Qed.

Lemma warm_cycle_spec t u ids authority content w : ok w → (∀ d, authority d = Ret (content d)) →
  ∃ conflicts w', MagSyncCycle_run t u ids authority w = (Ret conflicts, w') ∧ only_demotes w w' ∧
    (∀ k, is_Some (view w k) → view w' k = None ↔ ∃ d, d ∈ ids ∧ slot t u d = k ∧ warm_disagrees t u w d (content d)) ∧
    (∀ x, x ∈ conflicts → sc_document_id x ∈ ids ∧ warm_disagrees t u w (sc_document_id x) (content (sc_document_id x))).
Proof.
  intros Hok Hauth.
  destruct (sync_loop_spec (K := uuid) warm_hash (slot t u) id (read_warm t u) (ws_demote t u) only_demotes w) with
    (keys := ids) (authority := authority) (content := content) (s := w)
    as (cs & w' & Hrun & Hf & Hsub & Hiff & Hrep & _); [| |done|reflexivity|].
  - intros d v [Hv _]. destruct (ws_lookup_spec t u d v (Hv Hok)) as (v' & Hl & Hok' & Hview). exists v'.
    unfold read_warm, mbind, stm_bind. rewrite Hl. split; [done|]. unfold warm_hash, only_demotes.
    split; [intros k; by rewrite Hview|]. split; [done|]. intros k. by left.
  - intros d v [Hv _]. destruct (ws_demote_spec t u d v (Hv Hok)) as (v' & Hl & Hok' & Hgone & Hkeep). exists v'.
    split; [done|]. unfold warm_hash, only_demotes. split; [by rewrite Hgone|]. split; [intros k Hk; by rewrite Hkeep|].
    split; [done|]. intros k. destruct (decide (k = slot t u d)) as [->|]; auto.
  - exists (map snd cs), w'. rewrite MagSyncCycle_run_loop, Hrun. split; [done|]. split; [done|]. split.
    + intros k [entry Hk]. specialize (Hiff k). unfold warm_hash in Hiff at 1 2. rewrite Hk in Hiff.
      setoid_rewrite stale_warm in Hiff. rewrite <- Hiff by done. destruct (view w' k); simpl; by split.
    + intros x ([d x'] & -> & Hin)%list_elem_of_fmap. destruct (Hrep d x' Hin) as (Hd & Hs & Hid & _).
      cbn. unfold id in Hid. rewrite Hid. by rewrite stale_warm in Hs.
Qed.

(** RAG wins over MAG's warm tier, whatever implements it: one [MagSyncCycle]
    pass demotes exactly the slots of the listed documents whose warm hash is
    not that of RAG's current content, reports only such documents, leaves
    every other entry as it was, and settles. *)
Theorem MagSyncCycle_settles t u ids authority content w : ok w → (∀ d, authority d = Ret (content d)) →
  ∃ conflicts w' w'', MagSyncCycle_run t u ids authority w = (Ret conflicts, w') ∧ only_demotes w w' ∧
    (∀ k, is_Some (view w k) → view w' k = None ↔ ∃ d, d ∈ ids ∧ slot t u d = k ∧ warm_disagrees t u w d (content d)) ∧
    (∀ x, x ∈ conflicts → sc_document_id x ∈ ids ∧ warm_disagrees t u w (sc_document_id x) (content (sc_document_id x))) ∧
    MagSyncCycle_run t u ids authority w' = (Ret [], w'').
Proof.
  intros Hok Hauth. destruct (warm_cycle_spec t u ids authority content w Hok Hauth) as (cs & w' & Hrun & [Hok' Hsub] & Hiff & Hrep).
  destruct (warm_cycle_spec t u ids authority content w' (Hok' Hok) Hauth) as (cs2 & w'' & Hrun2 & _ & _ & Hrep2).
  exists cs, w', w''. split_and!; [done..|]. destruct cs2 as [|x cs2]; [done|]. exfalso.
  destruct (Hrep2 x ltac:(by left)) as (Hd & entry & Hentry & Hne).
  destruct (Hsub (slot t u (sc_document_id x))) as [Heq|Heq]; [|congruence]. rewrite Heq in Hentry.
  assert (view w' (slot t u (sc_document_id x)) = None) as Hnone; [|congruence].
  apply Hiff; [by eexists|]. exists (sc_document_id x). split; [done|]. split; [done|]. by exists entry.
Qed.
End warm_settled.

(** A cache holding one stale and one current document. *)
Definition sample_hf : HFFrozenCache nat :=
  mkHF {[ (1, 10) := (content_hash "old", 3%nat); (1, 11) := (content_hash "now", 3%nat) ]}.

Lemma SyncCycle_settles_witness :
  ∃ conflicts c' c'',
    SyncCycle_run (H := hf_frozen_cache (H := length_model)) 1 [10; 11]
      (λ _, Ret "now"%string) sample_hf = (Ret conflicts, c') ∧
    only_evicts hf_view 1 sample_hf c' ∧
    (∀ d, is_Some (hf_view sample_hf !! (1, d)) →
       hf_view c' !! (1, d) = None ↔ d ∈ [10; 11] ∧ disagrees hf_view 1 sample_hf d "now") ∧
    (∀ d, d ∈ map sc_document_id conflicts ↔ d ∈ [10; 11] ∧ disagrees hf_view 1 sample_hf d "now") ∧
    NoDup (map sc_document_id conflicts) ∧
    SyncCycle_run (H := hf_frozen_cache (H := length_model)) 1 [10; 11]
      (λ _, Ret "now"%string) c' = (Ret [], c'').
Proof.
  apply (SyncCycle_settles (H := hf_frozen_cache (H := length_model)) hf_view 1 [10; 11]
    (λ _, Ret "now"%string) (λ _, "now"%string)).
  reflexivity.
Defined.

Lemma CagMagSyncCycle_settles_witness :
  ∃ conflicts c' c'',
    CagMagSyncCycle_run (H := hf_frozen_cache (H := length_model)) 1 5 ["tea"%string]
      (λ _, Ret "now"%string) sample_hf = (Ret conflicts, c') ∧
    only_evicts hf_view 1 sample_hf c' ∧
    (∀ d, is_Some (hf_view sample_hf !! (1, d)) →
       hf_view c' !! (1, d) = None ↔
       ∃ k, k ∈ ["tea"%string] ∧ cache_key 5 k = d ∧ disagrees hf_view 1 sample_hf d "now") ∧
    (∀ k x, (k, x) ∈ conflicts → k ∈ ["tea"%string] ∧ sc_document_id x = cache_key 5 k) ∧
    NoDup (map (λ kx, cache_key 5 kx.1) conflicts) ∧
    CagMagSyncCycle_run (H := hf_frozen_cache (H := length_model)) 1 5 ["tea"%string]
      (λ _, Ret "now"%string) c' = (Ret [], c'').
Proof.
  apply (CagMagSyncCycle_settles (H := hf_frozen_cache (H := length_model)) hf_view 1 5
    ["tea"%string] (λ _, Ret "now"%string) (λ _, "now"%string)).
  reflexivity.
Defined.
