(* ===== verification/AccessTracking.v ===== *)
(** * Access frequency tracking

    orchestration/infrastructure/_sliding_window_counter.py and the two
    trackers built on it, in_memory_access_tracker.py (keys are tenant and
    document) and in_memory_user_scoped_access_tracker.py (tenant, user and
    document).  The counter forgets events older than its retention, on every
    call that touches a key; the specification is the full log of everything
    ever recorded, and the theorems say that the forgetting is never visible
    to a caller whose window fits in the retention. *)

From Stdlib Require Import ZArith Lia.
From S2P Require Import Prelude PyFloat PyTime Digest Entities Ports.

(** ** SlidingWindowCounter *)

Record SlidingWindowCounter (K : Type) : Type := mkCounter {
  swc_retention : timedelta;
  swc_events : list (K * list datetime)
}.
Arguments mkCounter {K} _ _.
Arguments swc_retention {K} _.
Arguments swc_events {K} _.

Definition swc_init {K} (retention : timedelta) : SlidingWindowCounter K := mkCounter retention [].

Definition with_events {K} (c : SlidingWindowCounter K) (ev : list (K * list datetime)) :
  SlidingWindowCounter K := mkCounter (swc_retention c) ev.

Section counter.
Context {K : Type} `{EqDecision K}.

(** [self._events.get(key, [])]. *)
Definition events_of (k : K) (c : SlidingWindowCounter K) : list datetime :=
  default [] (od_get k (swc_events c)).

Definition swc_prune (k : K) (now : datetime) : stm (SlidingWindowCounter K) unit :=
  c ← get_st;
  cutoff ← lift_res (dt_sub now (swc_retention c));
  match od_get k (swc_events c) with
  | None => mret tt
  | Some events =>
      match filter (λ at_, cutoff ≤ at_) events with
      | [] => modify (λ c, with_events c (od_del k (swc_events c)))
      | kept => modify (λ c, with_events c (od_set k kept (swc_events c)))
      end
  end.

(** [self._events] is a [defaultdict(list)]: indexing a missing key creates it. *)
Definition swc_record (k : K) (at_ : datetime) : stm (SlidingWindowCounter K) unit :=
  modify (λ c, with_events c (od_set k (events_of k c ++ [at_]) (swc_events c)));;
  swc_prune k at_.

Definition swc_count (k : K) (window : timedelta) (now : datetime) :
  stm (SlidingWindowCounter K) Z :=
  swc_prune k now;;
  cutoff ← lift_res (dt_sub now window);
  c ← get_st;
  mret (Z.of_nat (length (filter (λ at_, cutoff ≤ at_ ≤ now) (events_of k c)))).

Definition swc_keys (c : SlidingWindowCounter K) : list K := od_keys (swc_events c).

(** ** The two trackers' ranking *)

(** [l\[:n\]]. *)
Definition py_take {A} (n : Z) (l : list A) : list A :=
  if 0 <=? n then take (Z.to_nat n) l else take (length l - Z.to_nat (- n)) l.

(** [{doc(key): self._counter.count(key, window, now) for key in keys if mine(key)}]. *)
Definition counts_for (mine : K → bool) (doc : K → uuid) (window : timedelta) (now : datetime) :
  stm (SlidingWindowCounter K) (list (uuid * Z)) :=
  c ← get_st;
  pairs ← for_each (filter (λ k, mine k = true) (swc_keys c))
            (λ k, n ← swc_count k window now; mret (doc k, n));
  mret (od_of_list pairs).

(** [sorted(counts.items(), key=lambda item: item\[1\], reverse=True)]. *)
Definition rank_counts (counts : list (uuid * Z)) : list (uuid * Z) :=
  sort_by (λ a b, b.2 <=? a.2) counts.

Definition ranked_documents (mine : K → bool) (doc : K → uuid) (n : Z)
    (window : timedelta) (now : datetime) : stm (SlidingWindowCounter K) (list uuid) :=
  counts ← counts_for mine doc window now;
  mret (py_take n (map fst (filter (λ p : uuid * Z, 0 < p.2) (rank_counts counts)))).
End counter.

(** [_DEFAULT_RETENTION]. *)
Definition DEFAULT_RETENTION : timedelta := days 30.

(** ** InMemoryAccessFrequencyTracker *)

Abbreviation tenant_counter := (SlidingWindowCounter (uuid * uuid)) (only parsing).

Definition im_record_access (tenant_id document_id : uuid) (at_ : datetime) :
  stm tenant_counter unit := swc_record (tenant_id, document_id) at_.

Definition im_access_count (tenant_id document_id : uuid) (window : timedelta) (now : datetime) :
  stm tenant_counter Z := swc_count (tenant_id, document_id) window now.

Definition im_most_accessed (tenant_id : uuid) (n : Z) (window : timedelta) (now : datetime) :
  stm tenant_counter (list uuid) :=
  ranked_documents (λ k, bool_decide (k.1 = tenant_id)) snd n window now.

#[global] Instance InMemoryAccessFrequencyTracker : AccessFrequencyTracker tenant_counter := {
  at_record_access := im_record_access;
  at_access_count := im_access_count;
  at_most_accessed := im_most_accessed
}.

(** ** InMemoryUserScopedAccessFrequencyTracker *)

Abbreviation user_counter := (SlidingWindowCounter (uuid * uuid * uuid)) (only parsing).

Definition us_record_access (tenant_id user_id document_id : uuid) (at_ : datetime) :
  stm user_counter unit := swc_record (tenant_id, user_id, document_id) at_.

Definition us_access_count (tenant_id user_id document_id : uuid) (window : timedelta)
    (now : datetime) : stm user_counter Z := swc_count (tenant_id, user_id, document_id) window now.

Definition us_most_accessed (tenant_id user_id : uuid) (n : Z) (window : timedelta)
    (now : datetime) : stm user_counter (list uuid) :=
  ranked_documents (λ k, bool_decide (k.1.1 = tenant_id) && bool_decide (k.1.2 = user_id))
    snd n window now.

#[global] Instance InMemoryUserScopedAccessFrequencyTracker :
    UserScopedAccessFrequencyTracker user_counter := {
  ut_record_access := us_record_access;
  ut_access_count := us_access_count;
  ut_most_accessed := us_most_accessed
}.

(** ** The specification: the full log *)

Section log.
Context {K : Type} `{EqDecision K}.

(** What a caller can do to a counter. *)
Inductive access_op : Type :=
  | OpRecord (k : K) (at_ : datetime)
  | OpCount (k : K) (window : timedelta) (now : datetime).

Definition op_time (o : access_op) : datetime :=
  match o with OpRecord _ t => t | OpCount _ _ t => t end.

(** Calls run one after the other; one that raises leaves the state it reached. *)
Definition run_op (o : access_op) (c : SlidingWindowCounter K) : SlidingWindowCounter K :=
  match o with
  | OpRecord k t => (swc_record k t c).2
  | OpCount k w now => (swc_count k w now c).2
  end.
Definition run_ops (ops : list access_op) (c : SlidingWindowCounter K) : SlidingWindowCounter K :=
  foldl (λ c o, run_op o c) c ops.

(** Everything ever recorded for a key, in order. *)
Fixpoint log_of (k : K) (ops : list access_op) : list datetime :=
  match ops with
  | [] => []
  | OpRecord k' t :: ops' => if decide (k' = k) then t :: log_of k ops' else log_of k ops'
  | OpCount _ _ _ :: ops' => log_of k ops'
  end.

Definition in_window (window : timedelta) (now : datetime) (t : datetime) : Prop :=
  now - window ≤ t ≤ now.
#[global] Instance in_window_dec window now t : Decision (in_window window now t).
Proof. unfold in_window. apply _. Defined.

(** The count the port promises. *)
Definition true_count (k : K) (window : timedelta) (now : datetime) (ops : list access_op) : Z :=
  Z.of_nat (length (filter (in_window window now) (log_of k ops))).

(** ** Pruning is invisible *)

(** The stored events agree with the log from the retention horizon of [high] on. *)
Definition agrees (high : datetime) (log : K → list datetime) (c : SlidingWindowCounter K) : Prop :=
  NoDup (od_keys (swc_events c)) ∧
  ∀ k a, high - swc_retention c ≤ a →
    filter (λ t, a ≤ t) (events_of k c) = filter (λ t, a ≤ t) (log k).

Lemma filter_ge_ge (a b : Z) (l : list Z) :
  b ≤ a → filter (λ t, a ≤ t) (filter (λ t, b ≤ t) l) = filter (λ t, a ≤ t) l.
Proof.
  intros Hab. rewrite list_filter_filter. apply list_filter_iff. intros t. lia.
Qed.

Lemma swc_prune_retention k now (c : SlidingWindowCounter K) :
  swc_retention (swc_prune k now c).2 = swc_retention c.
Proof.
  unfold swc_prune, mbind, stm_bind, get_st, lift_res, modify, mret, stm_ret.
  destruct (dt_sub _ _); [|done]. destruct (od_get _ _); [|done]. by case_match.
Qed.

(** A pruned key keeps exactly its events from the cutoff on. *)
Lemma swc_prune_events k now k' (c : SlidingWindowCounter K) cutoff :
  dt_sub now (swc_retention c) = Ret cutoff →
  (swc_prune k now c).1 = Ret tt ∧
  events_of k' (swc_prune k now c).2 =
    if decide (k = k') then filter (λ t, cutoff ≤ t) (events_of k' c) else events_of k' c.
Proof.
  intros Hc. unfold swc_prune, events_of, mbind, stm_bind, get_st, lift_res, modify, mret, stm_ret.
  rewrite Hc. destruct (od_get k (swc_events c)) as [evs|] eqn:Hk; cbn [fst snd].
  - destruct (filter (λ t, cutoff ≤ t) evs) as [|x l] eqn:Hf; cbn [fst snd swc_events with_events];
      (split; [done|]); [rewrite od_get_del|rewrite od_get_set];
      destruct (decide (k = k')) as [<-|]; rewrite ?Hk; cbn [default from_option]; try done;
      by rewrite Hf.
  - split; [done|]. destruct (decide (k = k')) as [<-|]; [|done]. by rewrite Hk.
Qed.

Lemma swc_prune_raises k now (c : SlidingWindowCounter K) e :
  dt_sub now (swc_retention c) = Raise e → swc_prune k now c = (Raise e, c).
Proof. intros Hc. unfold swc_prune, mbind, stm_bind, get_st, lift_res. by rewrite Hc. Qed.

Lemma swc_prune_nodup k now (c : SlidingWindowCounter K) :
  NoDup (od_keys (swc_events c)) → NoDup (od_keys (swc_events (swc_prune k now c).2)).
Proof.
  intros Hnd. unfold swc_prune, mbind, stm_bind, get_st, lift_res, modify, mret, stm_ret.
  destruct (dt_sub _ _); [|done]. destruct (od_get _ _); [|done].
  case_match; simpl; [by apply od_del_nodup|by apply od_set_nodup].
Qed.

Lemma swc_prune_agrees high log k now (c : SlidingWindowCounter K) :
  now ≤ high → agrees high log c → agrees high log (swc_prune k now c).2.
Proof.
  intros Hnow [Hnd Hag]. split; [by apply swc_prune_nodup|].
  intros k' a. rewrite swc_prune_retention. intros Ha. rewrite <- Hag by done.
  destruct (dt_sub now (swc_retention c)) as [cutoff|e] eqn:Hc.
  - destruct (swc_prune_events k now k' c cutoff Hc) as [_ ->].
    destruct (decide (k = k')); [|done]. apply filter_ge_ge.
    apply dt_check_inv in Hc as [-> _]. lia.
  - by rewrite (swc_prune_raises k now c e Hc).
Qed.

Lemma swc_record_agrees high log k t (c : SlidingWindowCounter K) :
  t ≤ high → agrees high log c →
  agrees high (λ k', if decide (k = k') then log k' ++ [t] else log k') (swc_record k t c).2.
Proof.
  intros Ht [Hnd Hag]. unfold swc_record, mbind, stm_bind, modify. cbn [fst snd].
  apply swc_prune_agrees; [done|]. split; [by apply od_set_nodup|].
  intros k' a Ha. unfold events_of at 1. cbn [swc_events with_events] in *. rewrite od_get_set.
  destruct (decide (k = k')) as [<-|]; [|by apply Hag].
  cbn [default from_option id]. rewrite !filter_app. f_equal. by apply Hag.
Qed.

Lemma swc_count_state k w now (c : SlidingWindowCounter K) :
  (swc_count k w now c).2 = (swc_prune k now c).2.
Proof.
  unfold swc_count, mbind, stm_bind, lift_res, get_st, mret, stm_ret.
  destruct (swc_prune k now c) as [[[]|e] c']; [|done]. by destruct (dt_sub now w).
Qed.

Lemma run_ops_agrees high log (c : SlidingWindowCounter K) ops :
  Forall (λ o, op_time o ≤ high) ops → agrees high log c →
  agrees high (λ k, log k ++ log_of k ops) (run_ops ops c).
Proof.
  intros Hall. revert log c. induction Hall as [|o ops Ho _ IH]; intros log c Hag.
  - destruct Hag as [Hnd Hag]. split; [done|]. intros k a Ha. simpl. rewrite app_nil_r. by apply Hag.
  - destruct o as [k t|k w now]; cbn [run_ops foldl run_op log_of] in *.
    + destruct (IH _ _ (swc_record_agrees high log k t c Ho Hag)) as [Hnd Hag'].
      split; [done|]. intros k' a Ha. rewrite Hag' by done. f_equal.
      destruct (decide (k = k')); [by rewrite <- app_assoc|done].
    + rewrite swc_count_state. by apply IH, swc_prune_agrees.
Qed.

Lemma run_ops_retention (c : SlidingWindowCounter K) ops :
  swc_retention (run_ops ops c) = swc_retention c.
Proof.
  revert c. induction ops as [|o ops IH]; intros c; [done|]. cbn [run_ops foldl].
  fold (run_ops ops (run_op o c)). rewrite IH.
  destruct o as [k t|k w now]; cbn [run_op].
  - unfold swc_record, mbind, stm_bind, modify. by rewrite swc_prune_retention.
  - by rewrite swc_count_state, swc_prune_retention.
Qed.

Lemma init_agrees high retention : agrees high (λ _ : K, []) (swc_init retention).
Proof. split; [apply NoDup_nil_2|done]. Qed.

(** The state a history leads to agrees with its log. *)
Lemma history_agrees high retention ops :
  Forall (λ o, op_time o ≤ high) ops →
  agrees high (λ k, log_of k ops) (run_ops ops (swc_init retention)).
Proof. intros Hops. apply (run_ops_agrees high (λ _, [])); [done|apply init_agrees]. Qed.

(** A count on a state that agrees with a log is the log's count. *)
Lemma swc_count_agrees high log k window now (c : SlidingWindowCounter K) :
  agrees high log c → now ≤ high → high - swc_retention c ≤ now - window →
  0 ≤ now - swc_retention c → now < datetime_end + swc_retention c →
  0 ≤ now - window < datetime_end →
  (swc_count k window now c).1
    = Ret (Z.of_nat (length (filter (in_window window now) (log k)))).
Proof.
  intros [Hnd Hag] Hnow Hw Hr1 Hr2 Hc. unfold swc_count, mbind, stm_bind, lift_res, get_st, mret, stm_ret.
  assert (dt_sub now (swc_retention c) = Ret (now - swc_retention c)) as Hr by (apply dt_check_ok; lia).
  destruct (swc_prune_events k now k c _ Hr) as [Hret Hev].
  destruct (swc_prune k now c) as [r c'] eqn:Hp. cbn [fst snd] in *. subst r.
  rewrite (dt_check_ok (now - window) Hc : dt_sub now window = _). cbn [fst]. do 3 f_equal.
  rewrite Hev, decide_True by done.
  specialize (Hag k (now - window) Hw).
  assert (∀ l : list Z, filter (λ t, now - window ≤ t ≤ now) l
    = filter (λ t, t ≤ now) (filter (λ t, now - window ≤ t) l)) as Hsplit.
  { intros l. rewrite list_filter_filter. apply list_filter_iff. intros t. lia. }
  unfold in_window. rewrite !Hsplit, filter_ge_ge, Hag by lia. done.
Qed.

(** ** The ranking *)

Definition log_count (log : K → list datetime) (k : K) (window : timedelta) (now : datetime) : Z :=
  Z.of_nat (length (filter (in_window window now) (log k))).

Context (mine : K → bool) (doc : K → uuid) (key : uuid → K).
Context (doc_key : ∀ d, doc (key d) = d) (mine_key : ∀ d, mine (key d) = true)
  (key_doc : ∀ k, mine k = true → key (doc k) = k).

(** Counting every key of a list, the state still agreeing throughout. *)
Lemma counts_each log window now l (c : SlidingWindowCounter K) :
  agrees now log c → 0 ≤ window ≤ swc_retention c → swc_retention c ≤ now < datetime_end →
  (for_each l (λ k, n ← swc_count k window now; mret (doc k, n)) c).1
    = Ret (map (λ k, (doc k, log_count log k window now)) l).
Proof.
  revert c. induction l as [|k l IH]; intros c Hag Hw Hr; [done|]. cbn [for_each map].
  destruct (swc_count k window now c) as [r c'] eqn:Hc.
  pose proof (swc_count_agrees now log k window now c Hag) as Hret.
  rewrite Hc in Hret. cbn [fst] in Hret. rewrite Hret in Hc by lia.
  assert (c' = (swc_prune k now c).2) as -> by (by rewrite <- (swc_count_state k window), Hc).
  unfold mbind, stm_bind, mret, stm_ret in *. rewrite Hc.
  specialize (IH (swc_prune k now c).2). rewrite swc_prune_retention in IH.
  specialize (IH (swc_prune_agrees now log k now c ltac:(lia) Hag) Hw Hr).
  destruct (for_each l _ _) as [[ys|e] c'']; cbn [fst] in *; by simplify_eq.
Qed.

(** A key with an event in the window is still stored. *)
Lemma counted_key_stored log window now k (c : SlidingWindowCounter K) :
  agrees now log c → window ≤ swc_retention c → 0 < log_count log k window now →
  k ∈ swc_keys c.
Proof.
  intros [_ Hag] Hw Hpos. destruct (decide (k ∈ swc_keys c)) as [|Hk]; [done|exfalso].
  apply od_get_None in Hk. specialize (Hag k (now - window) ltac:(lia)).
  unfold events_of in Hag. rewrite Hk in Hag. cbn in Hag.
  assert (∃ t, t ∈ filter (in_window window now) (log k)) as [t [Hin Ht]%list_elem_of_filter].
  { unfold log_count in Hpos. destruct (filter (in_window window now) (log k)) as [|t l];
      [by destruct (Z.lt_irrefl 0 Hpos)|].
    exists t. by left. }
  assert (t ∈ filter (λ t, now - window ≤ t) (log k)) as Hbad
    by (apply list_elem_of_filter; unfold in_window in Hin; split; [apply Hin|done]).
  rewrite <- Hag in Hbad. by apply not_elem_of_nil in Hbad.
Qed.

(** What a ranking of true counts promises. *)
Definition top_documents (cnt : uuid → Z) (n : Z) (ds : list uuid) : Prop :=
  NoDup ds ∧ Z.of_nat (length ds) ≤ n ∧ Forall (λ d, 0 < cnt d) ds ∧
  StronglySorted (λ a b, cnt b ≤ cnt a) ds ∧
  ∀ d, d ∉ ds → 0 < cnt d → Z.of_nat (length ds) = n ∧ Forall (λ e, cnt d ≤ cnt e) ds.

Lemma ranked_spec (cnt : uuid → Z) n (counts : list (uuid * Z)) :
  0 ≤ n → NoDup (map fst counts) → Forall (λ p, p.2 = cnt p.1) counts →
  (∀ d, 0 < cnt d → d ∈ map fst counts) →
  top_documents cnt n
    (py_take n (map fst (filter (λ p : uuid * Z, 0 < p.2) (rank_counts counts)))).
Proof.
  intros Hn Hnd Hcnt Hall. unfold py_take. rewrite (proj2 (Z.leb_le 0 n)) by done.
  set (R := map fst _).
  assert (NoDup R) as HndR.
  { unfold R. apply (sublist_NoDup _ (map fst (rank_counts counts))).
    - unfold rank_counts. by rewrite sort_by_perm.
    - apply fmap_sublist, sublist_filter. }
  assert (∀ d, d ∈ R ↔ 0 < cnt d) as HR.
  { intros d. unfold R. split.
    - intros ((e & z) & -> & [Hz Hin]%list_elem_of_filter)%list_elem_of_fmap. simpl in *.
      unfold rank_counts in Hin. rewrite sort_by_perm in Hin. rewrite list.Forall_forall in Hcnt.
      specialize (Hcnt _ Hin). simpl in Hcnt. lia.
    - intros Hd. destruct (proj1 (list_elem_of_fmap _ _ _) (Hall d Hd)) as ((e & z) & -> & Hin).
      apply list_elem_of_fmap. exists (e, z). split; [done|]. apply list_elem_of_filter.
      rewrite list.Forall_forall in Hcnt. pose proof (Hcnt _ Hin) as Hz. simpl in *.
      split; [lia|]. unfold rank_counts. by rewrite sort_by_perm. }
  assert (StronglySorted (λ a b, cnt b ≤ cnt a) R) as HsR.
  { apply StronglySorted_map, StronglySorted_filter.
    apply (StronglySorted_impl (λ a b : uuid * Z, (b.2 <=? a.2) = true)).
    - intros [a x] [b y] Ha Hb Hle. unfold rank_counts in Ha, Hb. rewrite sort_by_perm in Ha, Hb.
      rewrite list.Forall_forall in Hcnt. pose proof (Hcnt _ Ha). pose proof (Hcnt _ Hb).
      simpl in *. apply Z.leb_le in Hle. lia.
    - apply sort_by_sorted; repeat intro; rewrite ?Z.leb_le in *; lia. }
  rewrite <- (take_drop (Z.to_nat n) R) in HsR, HndR.
  apply StronglySorted_app_inv in HsR as (HsT & _ & Hcross).
  apply NoDup_app in HndR as (HndT & _ & _).
  split; [done|]. split; [rewrite length_take; lia|]. split.
  { rewrite list.Forall_forall. intros d Hd. apply HR. rewrite elem_of_take in Hd.
    destruct Hd as (i & Hi & _). by eapply list_elem_of_lookup_2. }
  split; [done|]. intros d Hd Hpos. apply HR in Hpos.
  rewrite <- (take_drop (Z.to_nat n) R) in Hpos. apply elem_of_app in Hpos as [|Hpos]; [done|].
  split.
  - rewrite length_take. apply list_elem_of_lookup in Hpos as [i Hi].
    apply lookup_lt_Some in Hi. rewrite length_drop in Hi. lia.
  - rewrite list.Forall_forall. intros e He. by apply Hcross.
Qed.

Lemma ranked_documents_spec log n window now (c : SlidingWindowCounter K) :
  agrees now log c → 0 ≤ n → 0 ≤ window ≤ swc_retention c →
  swc_retention c ≤ now < datetime_end →
  ∃ ds, (ranked_documents mine doc n window now c).1 = Ret ds ∧
    top_documents (λ d, log_count log (key d) window now) n ds.
Proof.
  intros Hag Hn Hw Hr. unfold ranked_documents, counts_for.
  set (keys := filter (λ k, mine k = true) (swc_keys c)).
  pose proof (counts_each log window now keys c Hag Hw Hr) as Hfor.
  unfold mbind, stm_bind, get_st, mret, stm_ret in *. fold keys.
  destruct (for_each keys _ c) as [r c'] eqn:Hl. cbn [fst] in Hfor. subst r. cbn [fst].
  eexists. split; [done|].
  assert (map fst (map (λ k, (doc k, log_count log k window now)) keys) = map doc keys) as Hfst
    by (rewrite map_map; done).
  assert (NoDup (map doc keys)) as Hnd.
  { apply NoDup_fmap_2_strong; [|by apply NoDup_filter, Hag].
    intros a b [Ha _]%list_elem_of_filter [Hb _]%list_elem_of_filter Hab.
    rewrite <- (key_doc a), <- (key_doc b) by done. by rewrite Hab. }
  rewrite od_of_list_nodup by (by rewrite Hfst).
  apply ranked_spec; [done|by rewrite Hfst|..].
  - rewrite list.Forall_forall. intros p (k & -> & [Hk _]%list_elem_of_filter)%list_elem_of_fmap.
    simpl. by rewrite key_doc.
  - intros d Hd. rewrite Hfst. apply list_elem_of_fmap. exists (key d). split; [done|].
    apply list_elem_of_filter. split; [done|]. 
    by apply (counted_key_stored log window now (key d) c Hag (proj2 Hw)).
Qed.
End log.
Arguments access_op : clear implicits.

(** The sliding-window counter forgets without anyone noticing: after any
    sequence of records and counts, on any keys and in any order of timestamps
    none of which passes [high], a count whose window still lies inside the
    retention horizon of [high] returns exactly the number of events ever
    recorded for that key with [now - window <= at <= now]. *)
Theorem count_is_exact {K} `{EqDecision K} (ops : list (access_op K)) (k : K)
    (retention window : timedelta) (now high : datetime) :
  Forall (λ o, op_time o ≤ high) ops → now ≤ high →
  high - retention ≤ now - window →
  0 ≤ retention ≤ now → 0 ≤ now - window → now < datetime_end → 0 ≤ window →
  (swc_count k window now (run_ops ops (swc_init retention))).1 = Ret (true_count k window now ops).
Proof.
  intros Hops Hnow Hhor Hr Hw Hend Hw0.
  pose proof (run_ops_retention (swc_init retention) ops) as Hret. simpl in Hret.
  apply (swc_count_agrees high (λ k, log_of k ops)); rewrite ?Hret; [|lia..].
  by apply history_agrees.
Qed.

Lemma count_is_exact_witness :
  (swc_count 7 (hours 1) (days 60)
     (run_ops [OpRecord 7 (days 10); OpRecord 7 (days 60 - 5); OpCount 7 (hours 2) (days 59);
               OpRecord 8 (days 60)] (swc_init (days 30)))).1 = Ret 1.
Proof.
  rewrite (count_is_exact _ 7 (days 30) (hours 1) (days 60) (days 60));
    [reflexivity|repeat constructor; vm_compute; congruence|..];
    vm_compute; try split; congruence.
Defined.

(** C24: [most_accessed] is a true top-n ranking: after any history of records
    and counts up to [now], it returns distinct documents of that tenant with
    at least one access in the window, at most [n] of them, most accessed
    first, and a document is left out only when the answer is full of
    documents accessed at least as often. *)
Theorem most_accessed_top (ops : list (access_op (uuid * uuid))) (tenant_id : uuid)
    (n : Z) (retention window : timedelta) (now : datetime) :
  Forall (λ o, op_time o ≤ now) ops → 0 ≤ n → 0 ≤ window ≤ retention →
  retention ≤ now < datetime_end →
  ∃ ds, (im_most_accessed tenant_id n window now (run_ops ops (swc_init retention))).1 = Ret ds ∧
    top_documents (λ d, true_count (tenant_id, d) window now ops) n ds.
Proof.
  intros Hops Hn Hw Hr.
  pose proof (run_ops_retention (swc_init retention) ops) as Hret. simpl in Hret.
  apply (ranked_documents_spec _ _ (λ d, (tenant_id, d))) with (log := λ k, log_of k ops);
    rewrite ?Hret; try done.
  - intros d. by apply bool_decide_eq_true.
  - intros [t d] Ht%bool_decide_eq_true. simpl in *. by subst.
  - by apply history_agrees.
Qed.

Lemma most_accessed_top_witness :
  ∃ ds, (im_most_accessed 1 2 (hours 1) (days 60)
     (run_ops [OpRecord (1, 5) (days 60 - 3); OpRecord (1, 6) (days 60 - 2);
               OpRecord (2, 9) (days 60 - 2); OpRecord (1, 6) (days 60 - 1);
               OpRecord (1, 7) (days 2)] (swc_init (days 30)))).1 = Ret ds ∧
    top_documents (λ d, true_count (1, d) (hours 1) (days 60)
      [OpRecord (1, 5) (days 60 - 3); OpRecord (1, 6) (days 60 - 2);
               OpRecord (2, 9) (days 60 - 2); OpRecord (1, 6) (days 60 - 1);
               OpRecord (1, 7) (days 2)]) 2 ds.
Proof.
  apply (most_accessed_top _ 1 2 (days 30) (hours 1) (days 60));
    [repeat constructor; vm_compute; congruence|..]; vm_compute; try split; congruence.
Defined.

Example most_accessed_example :
  (im_most_accessed 1 2 (hours 1) (days 60)
     (run_ops [OpRecord (1, 5) (days 60 - 3); OpRecord (1, 6) (days 60 - 2);
               OpRecord (2, 9) (days 60 - 2); OpRecord (1, 6) (days 60 - 1);
               OpRecord (1, 7) (days 2)] (swc_init (days 30)))).1 = Ret [6; 5].
Proof. vm_compute. reflexivity. Qed.

(** The per-user tracker's ranking, scoped to one user of one tenant. *)
Lemma user_most_accessed_top (ops : list (access_op (uuid * uuid * uuid))) (tenant_id user_id : uuid)
    (n : Z) (retention window : timedelta) (now : datetime) :
  Forall (λ o, op_time o ≤ now) ops → 0 ≤ n → 0 ≤ window ≤ retention →
  retention ≤ now < datetime_end →
  ∃ ds, (us_most_accessed tenant_id user_id n window now (run_ops ops (swc_init retention))).1
      = Ret ds ∧
    top_documents (λ d, true_count (tenant_id, user_id, d) window now ops) n ds.
Proof.
  intros Hops Hn Hw Hr.
  pose proof (run_ops_retention (swc_init retention) ops) as Hret. simpl in Hret.
  apply (ranked_documents_spec _ _ (λ d, (tenant_id, user_id, d))) with (log := λ k, log_of k ops);
    rewrite ?Hret; try done.
  - intros d. simpl. by rewrite !bool_decide_eq_true_2.
  - intros [[t u] d] [Ht%bool_decide_eq_true Hu%bool_decide_eq_true]%andb_true_iff.
    simpl in *. by subst.
  - by apply history_agrees.
Qed.
