(* ===== verification/Tiering.v ===== *)
(** * Tiering policies and cache warming

    orchestration/application/tiering_policy.py (RAG to CAG),
    mag_tiering_policy.py (RAG to MAG), cag_mag_tiering_policy.py (MAG to CAG)
    and warm_cache.py.  Each policy acts on a tracker and a store held side by
    side; the theorems are proved against the tracker and cache interfaces.
    The three evaluations are instances of one decision step, whose reference
    specification is a pure hysteresis automaton over access counts. *)

From Stdlib Require Import ZArith Lia.
From S2P Require Import Prelude PyFloat PyTime Digest Entities Ports FrozenCaches SyncMixer AccessTracking.

#[global] Instance tier_decision_eq_dec : EqDecision TierDecision.
Proof. solve_decision. Defined.

(** ** The policies *)

Definition TieringPolicy_evaluate {T C KV} `{AccessFrequencyTracker T} `{FrozenCache C KV}
    (tenant_id document_id : uuid) (content_provider : uuid → res string)
    (promote_threshold demote_threshold : Z) (window : timedelta) (now : datetime) :
  stm (T * C) TierDecision :=
  if promote_threshold <? demote_threshold
  then raise (ValueError "promote_threshold must be >= demote_threshold")
  else
    count ← on_fst (at_access_count tenant_id document_id window now);
    is_cached ← on_snd (fc_contains tenant_id document_id);
    if (promote_threshold <=? count) && negb is_cached then
      content ← lift_res (content_provider document_id);
      on_snd (fc_preload tenant_id document_id content);;
      mret PROMOTED
    else if (count <? demote_threshold) && is_cached then
      on_snd (fc_evict tenant_id document_id);;
      mret DEMOTED
    else mret UNCHANGED.

Definition MagTieringPolicy_evaluate {T W} `{UserScopedAccessFrequencyTracker T} `{WarmStore W}
    (tenant_id user_id document_id : uuid) (content_provider : uuid → res string)
    (promote_threshold demote_threshold : Z) (window : timedelta) (now : datetime) :
  stm (T * W) TierDecision :=
  if promote_threshold <? demote_threshold
  then raise (ValueError "promote_threshold must be >= demote_threshold")
  else
    count ← on_fst (ut_access_count tenant_id user_id document_id window now);
    is_warm ← on_snd (ws_contains tenant_id user_id document_id);
    if (promote_threshold <=? count) && negb is_warm then
      content ← lift_res (content_provider document_id);
      on_snd (ws_promote tenant_id user_id document_id content);;
      mret PROMOTED
    else if (count <? demote_threshold) && is_warm then
      on_snd (ws_demote tenant_id user_id document_id);;
      mret DEMOTED
    else mret UNCHANGED.

Definition CagMagTieringPolicy_evaluate {T C KV} `{UserScopedAccessFrequencyTracker T}
    `{FrozenCache C KV} (tenant_id user_id : uuid) (mag_content_key : string)
    (content_provider : string → res string)
    (promote_threshold demote_threshold : Z) (window : timedelta) (now : datetime) :
  stm (T * C) TierDecision :=
  if promote_threshold <? demote_threshold
  then raise (ValueError "promote_threshold must be >= demote_threshold")
  else
    count ← on_fst (ut_access_count tenant_id user_id (tracker_key mag_content_key) window now);
    let cache_id := cache_key user_id mag_content_key in
    is_hot ← on_snd (fc_contains tenant_id cache_id);
    if (promote_threshold <=? count) && negb is_hot then
      content ← lift_res (content_provider mag_content_key);
      on_snd (fc_preload tenant_id cache_id content);;
      mret PROMOTED
    else if (count <? demote_threshold) && is_hot then
      on_snd (fc_evict tenant_id cache_id);;
      mret DEMOTED
    else mret UNCHANGED.

(** [WarmCache.execute]. *)
Definition WarmCache_execute {T C KV} `{AccessFrequencyTracker T} `{FrozenCache C KV}
    (tenant_id : uuid) (n : Z) (window : timedelta) (now : datetime)
    (content_provider : uuid → res string) : stm (T * C) (list uuid) :=
  top_n ← on_fst (at_most_accessed tenant_id n window now);
  _ ← for_each top_n (λ document_id,
        cached ← on_snd (fc_contains tenant_id document_id);
        if (cached : bool) then mret tt
        else
          content ← lift_res (content_provider document_id);
          on_snd (fc_preload tenant_id document_id content));
  mret top_n.

(** ** The hysteresis automaton *)

Definition tier_decide (promote demote : Z) (hot : bool) (count : Z) : TierDecision :=
  if (promote <=? count) && negb hot then PROMOTED
  else if (count <? demote) && hot then DEMOTED
  else UNCHANGED.

Definition tier_next (hot : bool) (d : TierDecision) : bool :=
  match d with PROMOTED => true | DEMOTED => false | UNCHANGED => hot end.

(** The decisions a sequence of counts leads to. *)
Fixpoint hysteresis (promote demote : Z) (hot : bool) (counts : list Z) : list TierDecision :=
  match counts with
  | [] => []
  | n :: counts' =>
      let d := tier_decide promote demote hot n in
      d :: hysteresis promote demote (tier_next hot d) counts'
  end.

Lemma tier_decide_promoted promote demote hot n :
  tier_decide promote demote hot n = PROMOTED ↔ promote ≤ n ∧ hot = false.
Proof.
  unfold tier_decide. destruct (Z.leb_spec promote n), (Z.ltb_spec n demote), hot; simpl;
    split; (done || lia || (intros [??]; (done || lia))).
Qed.

Lemma tier_decide_demoted promote demote hot n :
  demote ≤ promote →
  tier_decide promote demote hot n = DEMOTED ↔ n < demote ∧ hot = true.
Proof.
  intros. unfold tier_decide.
  destruct (Z.leb_spec promote n), (Z.ltb_spec n demote), hot; simpl;
    split; (done || lia || (intros [??]; (done || lia))).
Qed.

(** A document that is hot is promoted again only after a demotion. *)
Lemma hysteresis_hot_promoted promote demote counts j :
  demote ≤ promote → hysteresis promote demote true counts !! j = Some PROMOTED →
  ∃ k n, (k < j)%nat ∧ counts !! k = Some n ∧ n < demote ∧
    hysteresis promote demote true counts !! k = Some DEMOTED.
Proof.
  intros Hle. revert j. induction counts as [|n counts IH]; intros j; simpl; [done|].
  destruct j as [|j]; simpl.
  - intros [= H]. by apply tier_decide_promoted in H as [_ ?].
  - destruct (tier_decide promote demote true n) eqn:Hd; simpl; intros Hj.
    + by apply tier_decide_promoted in Hd as [_ ?].
    + apply tier_decide_demoted in Hd as [Hn _]; [|done].
      exists 0%nat, n. split; [lia|done].
    + destruct (IH j Hj) as (k & n' & Hk & Hn' & Hlt & Hdec).
      exists (S k), n'. split; [lia|done].
Qed.

(** Between two promotions of one document its count has fallen below the
    demotion threshold. *)
Lemma hysteresis_no_flap promote demote hot counts i j :
  demote ≤ promote → (i < j)%nat →
  hysteresis promote demote hot counts !! i = Some PROMOTED →
  hysteresis promote demote hot counts !! j = Some PROMOTED →
  ∃ k n, (i < k < j)%nat ∧ counts !! k = Some n ∧ n < demote ∧
    hysteresis promote demote hot counts !! k = Some DEMOTED.
Proof.
  intros Hle. revert hot i j. induction counts as [|n counts IH]; intros hot i j; simpl; [done|].
  destruct j as [|j]; [lia|]. destruct i as [|i]; simpl; intros Hij Hi Hj.
  - injection Hi as Hi. rewrite Hi in *. simpl in *.
    destruct (hysteresis_hot_promoted promote demote counts j Hle Hj) as (k & n' & ? & ? & ? & ?).
    exists (S k), n'. split; [lia|done].
  - destruct (IH _ i j ltac:(lia) Hi Hj) as (k & n' & ? & ? & ? & ?).
    exists (S k), n'. split; [lia|done].
Qed.

(** ** One evaluation *)

Section evaluate.
(** A tracker seen through one count, a store seen through whether it holds
    one thing: what the three policies have in common. *)
Context {T S : Type} (count : datetime → stm T Z) (contains : stm S bool).
Context (provide : res string) (add : string → stm S unit) (remove : stm S unit).
Context (hot : S → bool).
Hypothesis contains_spec : ∀ s, ∃ s', contains s = (Ret (hot s), s') ∧ hot s' = hot s.
Hypothesis remove_spec : ∀ s, ∃ s', remove s = (Ret tt, s') ∧ hot s' = false.
Hypothesis add_spec : ∀ text s s', add text s = (Ret tt, s') → hot s' = true.

Definition tier_evaluate (promote demote : Z) (now : datetime) : stm (T * S) TierDecision :=
  if promote <? demote
  then raise (ValueError "promote_threshold must be >= demote_threshold")
  else
    n ← on_fst (count now);
    is_hot ← on_snd contains;
    if (promote <=? n) && negb is_hot then
      content ← lift_res provide;
      on_snd (add content);;
      mret PROMOTED
    else if (n <? demote) && is_hot then
      on_snd remove;;
      mret DEMOTED
    else mret UNCHANGED.

(** An evaluation that returns has counted once and made the automaton's decision. *)
Lemma tier_evaluate_spec promote demote now t s d ts' :
  tier_evaluate promote demote now (t, s) = (Ret d, ts') →
  demote ≤ promote ∧
  ∃ n, count now t = (Ret n, ts'.1) ∧ d = tier_decide promote demote (hot s) n ∧
    hot ts'.2 = tier_next (hot s) d.
Proof.
  unfold tier_evaluate. destruct (Z.ltb_spec promote demote) as [|Hle]; [done|].
  unfold mbind, stm_bind, on_fst, on_snd, lift_res, mret, stm_ret, raise; simpl.
  destruct (count now t) as [[n|e] t'] eqn:Hc; [|done]. simpl.
  destruct (contains_spec s) as (s1 & -> & Hs1).
  unfold tier_decide. cbn [fst snd].
  intros Hrun. split; [done|]. exists n. revert Hrun.
  destruct ((promote <=? n) && negb (hot s)).
  - destruct provide as [text|e]; [|done]. simpl.
    destruct (add text s1) as [[[]|e] s2] eqn:Ha; [|done]. intros Hrun.
    simplify_eq. apply add_spec in Ha. split_and!; [done..|exact Ha].
  - destruct ((n <? demote) && hot s).
    + destruct (remove_spec s1) as (s2 & Hr & Hs2). simpl. rewrite Hr. intros Hrun.
      simplify_eq. split_and!; [done..|exact Hs2].
    + intros Hrun. simplify_eq. split_and!; [done..|exact Hs1].
Qed.

(** A run of evaluations at successive times, against the automaton. *)
Lemma tier_run_spec promote demote nows t s ds ts' :
  for_each nows (tier_evaluate promote demote) (t, s) = (Ret ds, ts') →
  ∃ ns, for_each nows count t = (Ret ns, ts'.1) ∧
    ds = hysteresis promote demote (hot s) ns ∧ hot ts'.2 = foldl tier_next (hot s) ds.
Proof.
  revert t s ds ts'. induction nows as [|now nows IH]; intros t s ds ts'.
  { intros [= <- <-]. by exists []. }
  cbn [for_each]. unfold mbind, stm_bind, mret, stm_ret.
  destruct (tier_evaluate promote demote now (t, s)) as [[d|e] [t1 s1]] eqn:He; [|done].
  destruct (for_each nows (tier_evaluate promote demote) (t1, s1)) as [[ds'|e] ts2] eqn:Hl;
    [|done].
  intros [= <- <-]. apply tier_evaluate_spec in He as (Hle & n & Hc & -> & Hhot).
  apply IH in Hl as (ns & Hns & -> & Hfin). simpl in Hhot, Hc. rewrite Hhot in *.
  exists (n :: ns). rewrite Hc, Hns. done.
Qed.

Lemma tier_run_no_flap promote demote nows t s ds ts' i j :
  demote ≤ promote →
  for_each nows (tier_evaluate promote demote) (t, s) = (Ret ds, ts') → (i < j)%nat →
  ds !! i = Some PROMOTED → ds !! j = Some PROMOTED →
  ∃ k n ns, (i < k < j)%nat ∧ for_each nows count t = (Ret ns, ts'.1) ∧ ns !! k = Some n ∧
    n < demote ∧ ds !! k = Some DEMOTED.
Proof.
  intros Hle Hrun Hij Hi Hj. apply tier_run_spec in Hrun as (ns & Hns & -> & _).
  destruct (hysteresis_no_flap _ _ _ _ _ _ Hle Hij Hi Hj) as (k & n & ? & ? & ? & ?).
  by exists k, n, ns.
Qed.
End evaluate.

(** ** The caches and the warm store behind the interface *)

Section cache.
Context {C KV : Type} `{FrozenCache C KV} (view : C → gmap (uuid * uuid) (CacheHit KV))
  `{!FrozenCacheLaws C KV view}.

(** The document is in the hot tier. *)
Definition cached (t d : uuid) (c : C) : bool := bool_decide (is_Some (view c !! (t, d))).

Lemma cached_contains t d c :
  ∃ c', fc_contains t d c = (Ret (cached t d c), c') ∧ cached t d c' = cached t d c.
Proof.
  destruct (fc_contains_spec (view := view) t d c) as (c' & Hc & Hv). exists c'.
  split; [done|]. unfold cached. by rewrite Hv.
Qed.

Lemma cached_evict t d c : ∃ c', fc_evict t d c = (Ret tt, c') ∧ cached t d c' = false.
Proof.
  destruct (fc_evict_spec (view := view) t d c) as (c' & Hc & Hv). exists c'.
  split; [done|]. unfold cached. rewrite Hv, lookup_delete_eq.
  by apply bool_decide_eq_false, is_Some_None.
Qed.

Lemma cached_preload t d text c c' : fc_preload t d text c = (Ret tt, c') → cached t d c' = true.
Proof.
  intros Hp. pose proof (fc_preload_spec (view := view) t d text c) as Hs. rewrite Hp in Hs.
  destruct Hs as [kv Hv]. unfold cached. rewrite Hv, lookup_insert_eq.
  apply bool_decide_eq_true. by eexists.
Qed.

Lemma TieringPolicy_is_tier {T} `{AccessFrequencyTracker T} t d provider p q w now :
  TieringPolicy_evaluate (T := T) (C := C) t d provider p q w now =
  tier_evaluate (S := C) (at_access_count t d w) (fc_contains t d) (provider d)
    (fc_preload t d) (fc_evict t d) p q now.
Proof. reflexivity. Qed.

Lemma CagMagTieringPolicy_is_tier {T} `{UserScopedAccessFrequencyTracker T} t u k provider p q w now :
  CagMagTieringPolicy_evaluate (T := T) (C := C) t u k provider p q w now =
  tier_evaluate (S := C) (ut_access_count t u (tracker_key k) w) (fc_contains t (cache_key u k))
    (provider k) (fc_preload t (cache_key u k)) (fc_evict t (cache_key u k)) p q now.
Proof. reflexivity. Qed.

(** What one evaluation does to the cache, whatever it returns: only the
    document's own entry moves. *)
Lemma tier_evaluate_cache {T} (count : datetime → stm T Z) (provide : res string) t d p q now
    (ts : T * C) :
  let '(r, ts') :=
    tier_evaluate count (fc_contains t d) provide (fc_preload t d) (fc_evict t d) p q now ts in
  (∀ k, k ≠ (t, d) → view ts'.2 !! k = view ts.2 !! k) ∧
  match r with
  | Ret PROMOTED => view ts.2 !! (t, d) = None ∧ ∃ text kv, provide = Ret text ∧
      view ts'.2 = <[(t, d) := mkCacheHit (content_hash text) kv]> (view ts.2)
  | Ret DEMOTED => is_Some (view ts.2 !! (t, d)) ∧ view ts'.2 = delete (t, d) (view ts.2)
  | Ret UNCHANGED => view ts'.2 = view ts.2
  | Raise _ => True
  end.
Proof.
  destruct ts as [tr c]. unfold tier_evaluate. destruct (p <? q); [done|].
  unfold mbind, stm_bind, on_fst, on_snd, lift_res, mret, stm_ret, raise; simpl.
  destruct (count now tr) as [[n|e] tr']; [|done]. simpl.
  destruct (fc_contains_spec (view := view) t d c) as (c1 & -> & Hv1).
  rewrite <- Hv1. destruct ((p <=? n) && _) eqn:Hp.
  - apply andb_true_iff in Hp as [_ Hcold%negb_true_iff%bool_decide_eq_false%eq_None_not_Some].
    destruct provide as [text|e]; [|done]. simpl.
    pose proof (fc_preload_spec (view := view) t d text c1) as Hs.
    destruct (fc_preload t d text c1) as [[[]|e] c2]; simpl; [|split; done].
    destruct Hs as [kv Hv2]. split; [|split; [done|by exists text, kv]].
    intros k Hk. rewrite Hv2. by apply lookup_insert_ne.
  - destruct ((n <? q) && _) eqn:Hq; [|done].
    apply andb_true_iff in Hq as [_ Hhot%bool_decide_eq_true].
    destruct (fc_evict_spec (view := view) t d c1) as (c2 & He & Hv2). simpl. rewrite He. simpl.
    split; [|done]. intros k Hk. rewrite Hv2. by apply lookup_delete_ne.
Qed.

(** One round of warming: what is cached stays, and the document ends up cached. *)
Lemma warm_round {T} (provider : uuid → res string) t d (ts ts' : T * C) :
  (cached ← on_snd (fc_contains t d);
   if (cached : bool) then mret tt
   else content ← lift_res (provider d); on_snd (fc_preload t d content)) ts = (Ret tt, ts') →
  ts'.1 = ts.1 ∧
  (is_Some (view ts.2 !! (t, d)) ∧ view ts'.2 = view ts.2 ∨
   view ts.2 !! (t, d) = None ∧ ∃ text kv, provider d = Ret text ∧
     view ts'.2 = <[(t, d) := mkCacheHit (content_hash text) kv]> (view ts.2)).
Proof.
  destruct ts as [tr c].
  unfold mbind, stm_bind, on_fst, on_snd, lift_res, mret, stm_ret; simpl.
  destruct (fc_contains_spec (view := view) t d c) as (c1 & -> & Hv1). simpl. rewrite <- Hv1.
  destruct (view c1 !! (t, d)) eqn:Hc; simpl.
  - intros [= <-]. split; [done|]. left. split; [by eexists|done].
  - destruct (provider d) as [text|e]; [|done]. simpl.
    pose proof (fc_preload_spec (view := view) t d text c1) as Hs.
    destruct (fc_preload t d text c1) as [[[]|e] c2]; [|done]. intros [= <-]. simpl in *.
    destruct Hs as [kv Hs]. split; [done|]. right. split; [done|]. by exists text, kv.
Qed.
End cache.

(** ** The policies' properties *)

Section properties.
Context {T C KV : Type} `{FrozenCache C KV} (view : C → gmap (uuid * uuid) (CacheHit KV))
  `{!FrozenCacheLaws C KV view}.

(** A run of RAG-to-CAG tiering evaluations of one document implements the
    hysteresis automaton over the counts its tracker reports: the decisions
    are the automaton's, the document ends up cached exactly when the last
    promotion or demotion says so, and it is promoted twice only if its count
    fell below the demotion threshold in between, when it was demoted. *)
Theorem TieringPolicy_hysteresis `{AccessFrequencyTracker T} t d provider p q w nows
    (tr : T) (c : C) ds ts' :
  for_each nows (TieringPolicy_evaluate t d provider p q w) (tr, c) = (Ret ds, ts') →
  q ≤ p →
  ∃ ns, for_each nows (at_access_count t d w) tr = (Ret ns, ts'.1) ∧
    ds = hysteresis p q (cached view t d c) ns ∧
    cached view t d ts'.2 = foldl tier_next (cached view t d c) ds ∧
    ∀ i j, (i < j)%nat → ds !! i = Some PROMOTED → ds !! j = Some PROMOTED →
      ∃ k n, (i < k < j)%nat ∧ ns !! k = Some n ∧ n < q ∧ ds !! k = Some DEMOTED.
Proof.
  intros Hrun Hle.
  destruct (tier_run_spec (at_access_count t d w) (fc_contains t d) (provider d)
    (fc_preload t d) (fc_evict t d) (cached view t d)
    (cached_contains view t d) (cached_evict view t d) (cached_preload view t d)
    p q nows tr c ds ts' Hrun) as (ns & Hns & -> & Hfin).
  exists ns. split_and!; [done..|]. intros i j Hij Hi Hj.
  by apply (hysteresis_no_flap p q _ ns i j).
Qed.

(** One CAG-MAG tiering evaluation moves at most this user's entry for this
    content: every other key of the shared cache keeps its entry whatever the
    outcome, a promotion stores the hash of the content the provider gave, a
    demotion removes exactly the entry, and thresholds in the wrong order are
    refused before the tracker or the cache is touched. *)
Theorem CagMagTieringPolicy_effect `{UserScopedAccessFrequencyTracker T} t u k provider p q w now
    (ts : T * C) :
  let '(r, ts') := CagMagTieringPolicy_evaluate t u k provider p q w now ts in
  (p < q → r = Raise (ValueError "promote_threshold must be >= demote_threshold") ∧ ts' = ts) ∧
  (∀ key, key ≠ (t, cache_key u k) → view ts'.2 !! key = view ts.2 !! key) ∧
  match r with
  | Ret PROMOTED => view ts.2 !! (t, cache_key u k) = None ∧ ∃ text kv, provider k = Ret text ∧
      view ts'.2 = <[(t, cache_key u k) := mkCacheHit (content_hash text) kv]> (view ts.2)
  | Ret DEMOTED => is_Some (view ts.2 !! (t, cache_key u k)) ∧
      view ts'.2 = delete (t, cache_key u k) (view ts.2)
  | Ret UNCHANGED => view ts'.2 = view ts.2
  | Raise _ => True
  end.
Proof.
  rewrite CagMagTieringPolicy_is_tier.
  pose proof (tier_evaluate_cache view (ut_access_count t u (tracker_key k) w) (provider k) t
    (cache_key u k) p q now ts) as Hs.
  destruct (tier_evaluate _ _ _ _ _ _ _ _ _) as [r ts'] eqn:Hr. split; [|done].
  intros Hlt. unfold tier_evaluate in Hr. rewrite (proj2 (Z.ltb_lt p q) Hlt) in Hr.
  by injection Hr as <- <-.
Qed.

Definition warm_step `{AccessFrequencyTracker T} (provider : uuid → res string) (t d : uuid) :
  stm (T * C) unit :=
  cached ← on_snd (fc_contains t d);
  if (cached : bool) then mret tt
  else content ← lift_res (provider d); on_snd (fc_preload t d content).

Lemma warm_loop `{AccessFrequencyTracker T} (provider : uuid → res string) t ids (ts ts' : T * C) us :
  for_each ids (warm_step provider t) ts = (Ret us, ts') →
  ts'.1 = ts.1 ∧
  (∀ k hit, view ts.2 !! k = Some hit → view ts'.2 !! k = Some hit) ∧
  (∀ k, view ts.2 !! k = None → is_Some (view ts'.2 !! k) → ∃ d, d ∈ ids ∧ k = (t, d)) ∧
  (∀ d, d ∈ ids → is_Some (view ts'.2 !! (t, d))) ∧
  (∀ d hit, view ts.2 !! (t, d) = None → view ts'.2 !! (t, d) = Some hit →
     ∃ text, provider d = Ret text ∧ ch_content_hash hit = content_hash text).
Proof.
  revert ts us. induction ids as [|d ids IH]; intros ts us; cbn [for_each].
  { intros [= _ ->]. split_and!; [done|done|..].
    - intros k Hk [x Hx]. congruence.
    - intros d Hd. by apply not_elem_of_nil in Hd.
    - intros d hit H1 H2. congruence. }
  unfold mbind at 1, stm_bind at 1. destruct (warm_step provider t d ts) as [[[]|e] ts1] eqn:Hw;
    [|done].
  apply (warm_round view) in Hw as (Htr & Hv).
  unfold mbind, stm_bind, mret, stm_ret.
  destruct (for_each ids _ ts1) as [[us'|e] ts2] eqn:Hl; [|done]. intros [= _ <-].
  destruct (IH _ _ Hl) as (Htr' & Hkeep & Hnew & Hall & Hhash).
  split; [congruence|]. destruct Hv as [[Hin Hv]|[Hout (text & kv & Hp & Hv)]].
  - rewrite Hv in *. split_and!; [done|..|done].
    + intros k Hk Hk'. destruct (Hnew k Hk Hk') as (e & He & ->). exists e. split; [by right|done].
    + intros e [->|He]%elem_of_cons; [|by apply Hall]. destruct Hin as [hit Hin]. eauto.
  - rewrite Hv in *. split_and!.
    + intros k hit Hk. apply Hkeep. rewrite lookup_insert_ne; [done|]. congruence.
    + intros k Hk Hk'. destruct (decide (k = (t, d))) as [->|Hne].
      * exists d. split; [by left|done].
      * destruct (Hnew k) as (e & He & ->); [by rewrite lookup_insert_ne|done|].
        exists e. split; [by right|done].
    + intros e [->|He]%elem_of_cons; [|by apply Hall].
      exists (mkCacheHit (content_hash text) kv). apply Hkeep. apply lookup_insert_eq.
    + intros e hit Hk Hk'. destruct (decide (e = d)) as [->|Hne].
      * rewrite (Hkeep _ _ (lookup_insert_eq _ _ _)) in Hk'. injection Hk' as <-. by exists text.
      * apply Hhash; [|done]. rewrite lookup_insert_ne; [done|]. congruence.
Qed.

(** Cache warming warms exactly the tracker's top-n: when it returns, it
    returns what [most_accessed] answered, every document of that answer is
    cached, what was cached before is untouched, nothing else became cached,
    and each entry it added carries the hash of the content the provider gave. *)
Theorem WarmCache_warms `{AccessFrequencyTracker T} t n w now provider (ts ts' : T * C) ids :
  WarmCache_execute t n w now provider ts = (Ret ids, ts') →
  at_most_accessed t n w now ts.1 = (Ret ids, ts'.1) ∧
  (∀ d, d ∈ ids → is_Some (view ts'.2 !! (t, d))) ∧
  (∀ k hit, view ts.2 !! k = Some hit → view ts'.2 !! k = Some hit) ∧
  (∀ k, view ts.2 !! k = None → is_Some (view ts'.2 !! k) → ∃ d, d ∈ ids ∧ k = (t, d)) ∧
  (∀ d hit, view ts.2 !! (t, d) = None → view ts'.2 !! (t, d) = Some hit →
     ∃ text, provider d = Ret text ∧ ch_content_hash hit = content_hash text).
Proof.
  unfold WarmCache_execute, mbind at 1, stm_bind at 1, on_fst at 1.
  destruct ts as [tr c]. cbn [fst snd].
  destruct (at_most_accessed t n w now tr) as [[top|e] tr1]; [|done].
  fold (warm_step provider t). unfold mbind, stm_bind, mret, stm_ret.
  destruct (for_each top (warm_step provider t) (tr1, c)) as [[us|e] ts2] eqn:Hl; [|done].
  intros [= <- <-].
  destruct (warm_loop provider t top _ _ us Hl) as (Htr & Hkeep & Hnew & Hall & Hhash).
  simpl in *. by rewrite Htr.
Qed.
End properties.

(** ** Worked examples *)

Definition sample_tracker : SlidingWindowCounter (uuid * uuid) :=
  run_ops [OpRecord (1, 20) (days 60 - 3); OpRecord (1, 20) (days 60 - 2)] (swc_init (days 30)).

Definition sample_user_tracker : SlidingWindowCounter (uuid * uuid * uuid) :=
  run_ops [OpRecord (1, 5, 9) (days 60 - 3)] (swc_init (days 30)).

(** Promoted while accessed twice in the hour, kept hot, demoted once quiet. *)
Definition sample_run :
  res (list TierDecision) * (SlidingWindowCounter (uuid * uuid) * HFFrozenCache nat) :=
  for_each [days 60; days 60 + 1; days 60 + hours 2]
    (TieringPolicy_evaluate (H0 := hf_frozen_cache (H := length_model)) 1 20
       (λ _, Ret "now"%string) 2 1 (hours 1)) (sample_tracker, mkHF ∅).

Lemma TieringPolicy_hysteresis_witness :
  ∃ ns, for_each [days 60; days 60 + 1; days 60 + hours 2]
      (at_access_count 1 20 (hours 1)) sample_tracker = (Ret ns, sample_run.2.1) ∧
    [PROMOTED; UNCHANGED; DEMOTED] = hysteresis 2 1 (cached (hf_view (KV := nat)) 1 20 (mkHF ∅)) ns ∧
    cached hf_view 1 20 sample_run.2.2
      = foldl tier_next (cached (hf_view (KV := nat)) 1 20 (mkHF ∅)) [PROMOTED; UNCHANGED; DEMOTED] ∧
    ∀ i j, (i < j)%nat → [PROMOTED; UNCHANGED; DEMOTED] !! i = Some PROMOTED →
      [PROMOTED; UNCHANGED; DEMOTED] !! j = Some PROMOTED →
      ∃ k n, (i < k < j)%nat ∧ ns !! k = Some n ∧ n < 1 ∧
        [PROMOTED; UNCHANGED; DEMOTED] !! k = Some DEMOTED.
Proof.
  apply (TieringPolicy_hysteresis (H := hf_frozen_cache (H := length_model)) hf_view 1 20
    (λ _, Ret "now"%string) 2 1 (hours 1) [days 60; days 60 + 1; days 60 + hours 2]);
    [vm_compute; reflexivity|lia].
Defined.

Lemma CagMagTieringPolicy_effect_witness :
  let '(r, ts') := CagMagTieringPolicy_evaluate (H0 := hf_frozen_cache (H := length_model))
    1 5 "tea" (λ _, Ret "now"%string) 2 1 (hours 1) (days 60) (sample_user_tracker, sample_hf) in
  (2 < 1 → r = Raise (ValueError "promote_threshold must be >= demote_threshold") ∧
     ts' = (sample_user_tracker, sample_hf)) ∧
  (∀ key, key ≠ (1, cache_key 5 "tea") → hf_view ts'.2 !! key = hf_view (sample_user_tracker, sample_hf).2 !! key) ∧
  match r with
  | Ret PROMOTED => hf_view (sample_user_tracker, sample_hf).2 !! (1, cache_key 5 "tea") = None ∧
      ∃ text kv, Ret "now"%string = Ret text ∧ hf_view ts'.2
        = <[(1, cache_key 5 "tea") := mkCacheHit (content_hash text) kv]> (hf_view (sample_user_tracker, sample_hf).2)
  | Ret DEMOTED => is_Some (hf_view (sample_user_tracker, sample_hf).2 !! (1, cache_key 5 "tea")) ∧
      hf_view ts'.2 = delete (1, cache_key 5 "tea") (hf_view (sample_user_tracker, sample_hf).2)
  | Ret UNCHANGED => hf_view ts'.2 = hf_view (sample_user_tracker, sample_hf).2
  | Raise _ => True
  end.
Proof.
  apply (CagMagTieringPolicy_effect (H := hf_frozen_cache (H := length_model)) hf_view 1 5 "tea"
    (λ _, Ret "now"%string) 2 1 (hours 1) (days 60) (sample_user_tracker, sample_hf)).
Defined.

Definition sample_warming :
  res (list uuid) * (SlidingWindowCounter (uuid * uuid) * HFFrozenCache nat) :=
  WarmCache_execute (H0 := hf_frozen_cache (H := length_model)) 1 3 (hours 1) (days 60)
    (λ _, Ret "now"%string) (sample_tracker, sample_hf).

Lemma WarmCache_warms_witness :
  at_most_accessed 1 3 (hours 1) (days 60) sample_tracker = (Ret [20], sample_warming.2.1) ∧
  (∀ d, d ∈ [20] → is_Some (hf_view sample_warming.2.2 !! (1, d))) ∧
  (∀ k hit, hf_view sample_hf !! k = Some hit → hf_view sample_warming.2.2 !! k = Some hit) ∧
  (∀ k, hf_view sample_hf !! k = None → is_Some (hf_view sample_warming.2.2 !! k) →
     ∃ d, d ∈ [20] ∧ k = (1, d)) ∧
  (∀ d hit, hf_view sample_hf !! (1, d) = None → hf_view sample_warming.2.2 !! (1, d) = Some hit →
     ∃ text, Ret "now"%string = Ret text ∧ ch_content_hash hit = content_hash text).
Proof.
  apply (WarmCache_warms (H := hf_frozen_cache (H := length_model)) hf_view 1 3 (hours 1) (days 60)
    (λ _, Ret "now"%string) (sample_tracker, sample_hf) sample_warming.2 [20]).
  vm_compute. reflexivity.
Defined.
