(* ===== verification/RagPorts.v ===== *)
(** * RAG domain: entities and ports

    rag/domain/entities.py, errors.py and ports.py, with the cosine similarity
    of orchestration/domain/similarity.py (the same computation appears in
    rag/infrastructure/bi_encoder_rerank_reranker.py, compressing_retriever.py
    and semantic_chunker.py).  Each port is a class over its implementation's
    state; the models behind EmbeddingModel and ChatModel are outside the
    program, so their calls may return anything or raise. *)

From Stdlib Require Import ZArith Lia Floats.SpecFloat.
From S2P Require Import Prelude PyFloat PyTime.

(** ** Entities *)

Inductive DocumentStatus : Type := Processing | Completed | Failed.

#[global] Instance document_status_eq_dec : EqDecision DocumentStatus.
Proof. solve_decision. Defined.

Record Document : Type := mkDocument {
  doc_id : uuid;
  doc_tenant_id : uuid;
  doc_filename : string;
  doc_mime_type : string;
  doc_storage_path : string;
  doc_chunk_count : Z;
  doc_status : DocumentStatus;
  doc_created_at : option datetime
}.

Record Chunk : Type := mkChunk {
  chunk_id : uuid;
  chunk_document_id : uuid;
  chunk_content : string;
  chunk_embedding : list f64;
  chunk_parent_id : option uuid;
  chunk_metadata : gmap string string
}.

Record SearchResult : Type := mkSearchResult {
  sr_document_id : uuid;
  sr_chunk_id : uuid;
  sr_content : string;
  sr_score : f64
}.

Record ChatAnswer : Type := mkChatAnswer {
  ans_answer : string;
  ans_sources : list SearchResult
}.

Record ParentChildChunks : Type := mkParentChild {
  pc_parents : list string;
  pc_children : list (string * nat)
}.

(** ** Ports *)

Class EmbeddingModel (E : Type) : Type := embed : string → stm E (list f64).

Class VectorStore (V : Type) : Type := {
  vs_upsert : Chunk → uuid → stm V unit;
  vs_search : list f64 → uuid → Z → stm V (list SearchResult)
}.

Class ChatModel (M : Type) : Type := {
  cm_generate : string → string → stm M string;
  cm_complete : string → stm M string
}.

Class DocumentRepository (D : Type) : Type := {
  dr_save_document : Document → stm D unit;
  dr_update_document_status : uuid → DocumentStatus → Z → stm D unit;
  dr_save_chunks : list Chunk → uuid → stm D unit;
  dr_get_chunks_for_tenant : uuid → stm D (list Chunk);
  dr_get_chunk_by_id : uuid → stm D (option Chunk)
}.

Class Chunker (K : Type) : Type := chunk : string → stm K (list string).

Class Retriever (R : Type) : Type := retrieve : uuid → string → Z → stm R (list SearchResult).

Class Reranker (R : Type) : Type :=
  rerank : string → list SearchResult → Z → stm R (list SearchResult).

(** ** Cosine similarity *)

Fixpoint zip_strict {A B} (a : list A) (b : list B) : res (list (A * B)) :=
  match a, b with
  | [], [] => Ret []
  | x :: a', y :: b' => l ← zip_strict a' b'; Ret ((x, y) :: l)
  | _, _ => Raise (ValueError "zip() arguments have unequal lengths")
  end.

Definition norm (a : list f64) : f64 := fsqrt_raw (fsum (map (λ x, fmul x x) a)).

Definition cosine_similarity (a b : list f64) : res f64 :=
  pairs ← zip_strict a b;
  let dot := fsum (map (λ p, fmul p.1 p.2) pairs) in
  let norm_a := norm a in
  let norm_b := norm b in
  if feq norm_a fzero || feq norm_b fzero then Ret fzero
  else fdiv dot (fmul norm_a norm_b).

Lemma zip_strict_length {A B} (a : list A) (b : list B) l :
  zip_strict a b = Ret l → length a = length b.
Proof.
  revert b l. induction a as [|x a IH]; intros [|y b] l; simpl; try done.
  destruct (zip_strict a b) as [l'|e] eqn:Hz; [|done]. intros _. f_equal. by eapply IH.
Qed.

Lemma zip_strict_fst {A B} (a : list A) (b : list B) l : zip_strict a b = Ret l → map fst l = a.
Proof.
  revert b l. induction a as [|x a IH]; intros [|y b] l; simpl; try done; [by intros [= <-]|].
  destruct (zip_strict a b) as [l'|e] eqn:Hz; [|done]. intros [= <-]. simpl. by rewrite (IH b l').
Qed.


Lemma cosine_dimensions a b s : cosine_similarity a b = Ret s → length a = length b.
Proof.
  unfold cosine_similarity. destruct (zip_strict a b) as [l|e] eqn:Hz; [|done].
  intros _. by eapply zip_strict_length.
Qed.
