(* ===== verification/CacheWarmedRetrieve.v ===== *)
(** * Cache-warmed retrieval

    orchestration/application/cache_warmed_retrieve.py: a memo of the documents
    warmed for each tenant, matched by similarity and confirmed against the
    frozen cache before anything is served from it.  Embedding model, cache and
    fallback retriever are the interfaces of Ports.v and RagPorts.v. *)

From Stdlib Require Import ZArith Lia Floats.SpecFloat.
From S2P Require Import Prelude PyFloat PyTime Digest Entities Ports RagPorts FrozenCaches.

(** [(content, embedding)]. *)
Definition Warmed : Type := string * list f64.

Record CacheWarmedRetrieve (E C R : Type) : Type := mkCWR {
  cw_embedder : E;
  cw_frozen_cache : C;
  cw_fallback : R;
  cw_threshold : f64;
  cw_warmed : gmap uuid (list (uuid * Warmed));
  cw_hits : Z;
  cw_misses : Z
}.
Arguments mkCWR {E C R}.
Arguments cw_embedder {E C R}.
Arguments cw_frozen_cache {E C R}.
Arguments cw_fallback {E C R}.
Arguments cw_threshold {E C R}.
Arguments cw_warmed {E C R}.
Arguments cw_hits {E C R}.
Arguments cw_misses {E C R}.

Section cwr.
Context {E C KV R : Type} `{EmbeddingModel E} `{FrozenCache C KV} `{Retriever R}.

Definition CWR_init (embedding_model : E) (frozen_cache : C) (fallback_retriever : R)
    (similarity_threshold : f64) : CacheWarmedRetrieve E C R :=
  mkCWR embedding_model frozen_cache fallback_retriever similarity_threshold ∅ 0 0.

(** Calls on the three collaborators. *)
Definition on_embedder {A} (m : stm E A) : stm (CacheWarmedRetrieve E C R) A := λ s,
  let '(r, x) := m (cw_embedder s) in
  (r, mkCWR x (cw_frozen_cache s) (cw_fallback s) (cw_threshold s) (cw_warmed s) (cw_hits s)
        (cw_misses s)).
Definition on_cache {A} (m : stm C A) : stm (CacheWarmedRetrieve E C R) A := λ s,
  let '(r, x) := m (cw_frozen_cache s) in
  (r, mkCWR (cw_embedder s) x (cw_fallback s) (cw_threshold s) (cw_warmed s) (cw_hits s)
        (cw_misses s)).
Definition on_fallback {A} (m : stm R A) : stm (CacheWarmedRetrieve E C R) A := λ s,
  let '(r, x) := m (cw_fallback s) in
  (r, mkCWR (cw_embedder s) (cw_frozen_cache s) x (cw_threshold s) (cw_warmed s) (cw_hits s)
        (cw_misses s)).

Definition set_warmed (w : gmap uuid (list (uuid * Warmed))) (s : CacheWarmedRetrieve E C R) :
  CacheWarmedRetrieve E C R :=
  mkCWR (cw_embedder s) (cw_frozen_cache s) (cw_fallback s) (cw_threshold s) w (cw_hits s)
    (cw_misses s).
Definition count_hit (s : CacheWarmedRetrieve E C R) : CacheWarmedRetrieve E C R :=
  mkCWR (cw_embedder s) (cw_frozen_cache s) (cw_fallback s) (cw_threshold s) (cw_warmed s)
    (cw_hits s + 1) (cw_misses s).
Definition count_miss (s : CacheWarmedRetrieve E C R) : CacheWarmedRetrieve E C R :=
  mkCWR (cw_embedder s) (cw_frozen_cache s) (cw_fallback s) (cw_threshold s) (cw_warmed s)
    (cw_hits s) (cw_misses s + 1).

Definition note_warmed (tenant_id document_id : uuid) (content : string) :
  stm (CacheWarmedRetrieve E C R) unit :=
  embedding ← on_embedder (embed content);
  modify (λ s, set_warmed
    (<[tenant_id := od_set document_id (content, embedding)
                      (default [] (cw_warmed s !! tenant_id))]> (cw_warmed s)) s).

Definition forget (tenant_id document_id : uuid) : stm (CacheWarmedRetrieve E C R) unit :=
  modify (λ s, match cw_warmed s !! tenant_id with
               | None => s
               | Some entries =>
                   set_warmed (<[tenant_id := od_del document_id entries]> (cw_warmed s)) s
               end).

Definition cw_stats (s : CacheWarmedRetrieve E C R) : Z * Z := (cw_hits s, cw_misses s).

(** A scored candidate: [(similarity, document_id, content)]. *)
Definition candidate : Type := f64 * uuid * string.
Definition cand_score (c : candidate) : f64 := c.1.1.

Definition score_entry (query_embedding : list f64) (e : uuid * Warmed) : res candidate :=
  s ← cosine_similarity query_embedding e.2.2; Ret (s, e.1, e.2.1).

(** The loop over the sorted candidates: the first confirmed one wins. *)
Fixpoint first_confirmed (tenant_id : uuid) (candidates : list candidate) :
  stm (CacheWarmedRetrieve E C R) (option SearchResult) :=
  match candidates with
  | [] => mret None
  | (score, document_id, content) :: rest =>
      cached_hit ← on_cache (fc_lookup tenant_id document_id);
      match cached_hit with
      | Some hit =>
          if String.eqb (ch_content_hash hit) (content_hash content)
          then mret (Some (mkSearchResult document_id document_id content score))
          else first_confirmed tenant_id rest
      | None => first_confirmed tenant_id rest
      end
  end.

Definition best_warmed_match (tenant_id : uuid) (query_embedding : list f64) :
  stm (CacheWarmedRetrieve E C R) (option SearchResult) :=
  s ← get_st;
  match cw_warmed s !! tenant_id with
  | None | Some [] => mret None
  | Some entries =>
      scored ← lift_res (res_mapM (score_entry query_embedding) entries);
      first_confirmed tenant_id (sorted_desc cand_score scored)
  end.

Definition match_query (tenant_id : uuid) (query : string) :
  stm (CacheWarmedRetrieve E C R) (option SearchResult) :=
  query_embedding ← on_embedder (embed query);
  best_warmed_match tenant_id query_embedding.

Definition fall_through (tenant_id : uuid) (query : string) (top_k : Z) :
  stm (CacheWarmedRetrieve E C R) (list SearchResult) :=
  modify count_miss;;
  on_fallback (retrieve tenant_id query top_k).

Definition CWR_execute (tenant_id : uuid) (query : string) (top_k : Z) :
  stm (CacheWarmedRetrieve E C R) (list SearchResult) :=
  s ← get_st;
  match cw_warmed s !! tenant_id with
  | None => fall_through tenant_id query top_k
  | Some _ =>
      result ← match_query tenant_id query;
      match result with
      | Some r =>
          if fle (cw_threshold s) (sr_score r)
          then modify count_hit;; mret [r]
          else fall_through tenant_id query top_k
      | None => fall_through tenant_id query top_k
      end
  end.

#[export] Instance cwr_retriever : Retriever (CacheWarmedRetrieve E C R) := CWR_execute.

(** ** The warmed memo *)

Definition warmed_for (s : CacheWarmedRetrieve E C R) (tenant_id : uuid) : list (uuid * Warmed) :=
  default [] (cw_warmed s !! tenant_id).

Context (view : C → gmap (uuid * uuid) (CacheHit KV)) `{!FrozenCacheReads C KV view}.

(** The cache still vouches for the document: its entry hashes this content. *)
Definition confirms (s : CacheWarmedRetrieve E C R) (tenant_id document_id : uuid)
    (content : string) : Prop :=
  ∃ hit, view (cw_frozen_cache s) !! (tenant_id, document_id) = Some hit ∧
    ch_content_hash hit = content_hash content.

(** Everything but the collaborators' own state is the same. *)
Definition same_memo (s s' : CacheWarmedRetrieve E C R) : Prop :=
  cw_warmed s' = cw_warmed s ∧ cw_hits s' = cw_hits s ∧ cw_misses s' = cw_misses s ∧
  cw_threshold s' = cw_threshold s ∧ cw_fallback s' = cw_fallback s ∧
  view (cw_frozen_cache s') = view (cw_frozen_cache s).

Lemma same_memo_refl s : same_memo s s.
Proof. done. Qed.

Lemma same_memo_trans s1 s2 s3 : same_memo s1 s2 → same_memo s2 s3 → same_memo s1 s3.
Proof.
  intros (? & ? & ? & ? & ? & ?) (? & ? & ? & ? & ? & ?). unfold same_memo. split_and!; congruence.
Qed.

Lemma same_memo_confirms s s' t d c :
  same_memo s s' → confirms s' t d c ↔ confirms s t d c.
Proof. intros (_ & _ & _ & _ & _ & Hv). unfold confirms. by rewrite Hv. Qed.

(** The scan stops at the first candidate the cache confirms. *)
Lemma first_confirmed_spec t cands s :
  ∃ s' r, first_confirmed t cands s = (Ret r, s') ∧ same_memo s s' ∧
    match r with
    | None => ∀ c, c ∈ cands → ¬ confirms s t c.1.2 c.2
    | Some r => ∃ pre post, cands = pre ++ (sr_score r, sr_document_id r, sr_content r) :: post ∧
        sr_chunk_id r = sr_document_id r ∧ confirms s t (sr_document_id r) (sr_content r) ∧
        ∀ c, c ∈ pre → ¬ confirms s t c.1.2 c.2
    end.
Proof.
  revert s. induction cands as [|[[score d] content] cands IH]; intros s.
  { exists s, None. split_and!; [done..|]. intros c Hc. by apply not_elem_of_nil in Hc. }
  cbn [first_confirmed]. unfold mbind, stm_bind, on_cache.
  destruct (fc_lookup_spec (view := view) t d (cw_frozen_cache s)) as (c' & -> & Hv).
  set (s1 := mkCWR _ c' _ _ _ _ _).
  assert (same_memo s s1) as Hs1 by (unfold same_memo; done).
  assert ((confirms s t d content → False) →
    ∃ s' r, first_confirmed t cands s1 = (Ret r, s') ∧ same_memo s s' ∧
      match r with
      | None => ∀ c, c ∈ (score, d, content) :: cands → ¬ confirms s t c.1.2 c.2
      | Some r => ∃ pre post, (score, d, content) :: cands
            = pre ++ (sr_score r, sr_document_id r, sr_content r) :: post ∧
          sr_chunk_id r = sr_document_id r ∧ confirms s t (sr_document_id r) (sr_content r) ∧
          ∀ c, c ∈ pre → ¬ confirms s t c.1.2 c.2
      end) as Hskip.
  { intros Hno. destruct (IH s1) as (s' & r & Hrun & Hs' & Hr). exists s', r.
    split; [done|]. split; [by eapply same_memo_trans|].
    destruct r as [r|].
    - destruct Hr as (pre & post & -> & Hch & Hc & Hpre).
      exists ((score, d, content) :: pre), post. rewrite same_memo_confirms in Hc by done.
      split_and!; [done..|]. intros c [->|Hin]%elem_of_cons; [done|].
      rewrite <- (same_memo_confirms s s1) by done. by apply Hpre.
    - intros c [->|Hin]%elem_of_cons; [done|].
      rewrite <- (same_memo_confirms s s1) by done. by apply Hr. }
  destruct (view (cw_frozen_cache s) !! (t, d)) as [hit|] eqn:Hhit.
  - destruct (String.eqb_spec (ch_content_hash hit) (content_hash content)) as [He|Hne].
    + exists s1, (Some (mkSearchResult d d content score)). split; [done|]. split; [done|].
      exists [], cands. split_and!; [done..|by exists hit|].
      intros c Hc. by apply not_elem_of_nil in Hc.
    + apply Hskip. intros (hit' & Hh & He). congruence.
  - apply Hskip. intros (hit' & Hh & He). congruence.
Qed.

(** Every warmed document of the tenant, with its score. *)
Definition scored_memo (s : CacheWarmedRetrieve E C R) (t : uuid) (q : list f64) (c : candidate) : Prop :=
  ∃ d text v, (d, (text, v)) ∈ warmed_for s t ∧ cosine_similarity q v = Ret (cand_score c) ∧
    c.1.2 = d ∧ c.2 = text.

Lemma score_entry_candidate s t q entries scored c :
  warmed_for s t = entries → res_mapM (score_entry q) entries = Ret scored →
  c ∈ scored ↔ scored_memo s t q c.
Proof.
  intros He Hs. rewrite (res_mapM_elem _ _ _ c Hs). unfold scored_memo. rewrite He.
  unfold score_entry. split.
  - intros ([d [text v]] & Hin & Hc). simpl in Hc.
    destruct (cosine_similarity q v) as [x|e] eqn:Hx; [|done].
    injection Hc as <-. exists d, text, v. by rewrite Hx.
  - intros (d & text & v & Hin & Hx & Hd & Ht). exists (d, (text, v)). split; [done|].
    simpl. rewrite Hx. destruct c as [[x d'] text']. unfold cand_score in *. simpl in *. by subst.
Qed.

(** The best match, against the memo and the cache. *)
Definition best_of (s : CacheWarmedRetrieve E C R) (t : uuid) (q : list f64)
    (r : option SearchResult) : Prop :=
  match r with
  | Some r =>
      scored_memo s t q (sr_score r, sr_document_id r, sr_content r) ∧
      confirms s t (sr_document_id r) (sr_content r) ∧ sr_chunk_id r = sr_document_id r ∧
      ∀ c, scored_memo s t q c → confirms s t c.1.2 c.2 → fle (cand_score c) (sr_score r) = true
  | None => ∀ c, scored_memo s t q c → ¬ confirms s t c.1.2 c.2
  end.

Lemma best_match_spec t q s r s' :
  (∀ c, scored_memo s t q c → is_nan (cand_score c) = false) →
  best_warmed_match t q s = (Ret r, s') → same_memo s s' ∧ best_of s t q r.
Proof.
  intros Hnan. unfold best_warmed_match, mbind at 1, stm_bind at 1, get_st.
  destruct (cw_warmed s !! t) as [[|e entries]|] eqn:Hw; cycle 1.
  - unfold mbind, stm_bind, lift_res.
    destruct (res_mapM (score_entry q) (e :: entries)) as [scored|err] eqn:Hs; [|done].
    assert (∀ c, c ∈ scored ↔ scored_memo s t q c) as Hmemo.
    { intros c. eapply score_entry_candidate; [|done]. unfold warmed_for. by rewrite Hw. }
    destruct (first_confirmed_spec t (sorted_desc cand_score scored) s) as (s1 & r1 & Hrun & Hm & Hr).
    rewrite Hrun. intros [= -> ->]. split; [done|]. destruct r as [r|]; simpl.
    + destruct Hr as (pre & post & Hsort & Hch & Hconf & Hpre).
      assert (∀ c, c ∈ scored ↔ c ∈ pre ++ (sr_score r, sr_document_id r, sr_content r) :: post) as Hin
        by (intros c; by rewrite <- Hsort, (sorted_desc_perm cand_score)).
      split; [|split; [done|split; [done|]]].
      * apply Hmemo, Hin, elem_of_app. right. by left.
      * intros c Hc Hcc. apply Hmemo, Hin, elem_of_app in Hc as [Hc|Hc]; [by apply Hpre in Hc|].
        assert (keys_ok cand_score scored) as Hok.
        { unfold keys_ok. rewrite list.Forall_forall. intros x Hx. by apply Hnan, Hmemo. }
        pose proof (sorted_desc_sorted cand_score scored Hok) as Hss. rewrite Hsort in Hss.
        apply StronglySorted_app_inv in Hss as (_ & Hss & _).
        apply StronglySorted_inv in Hss as [_ Hall]. rewrite list.Forall_forall in Hall.
        apply elem_of_cons in Hc as [->|Hc].
        -- apply fle_refl. unfold keys_ok in Hok. rewrite list.Forall_forall in Hok.
           apply (Hok (sr_score r, sr_document_id r, sr_content r)), Hin, elem_of_app. right. by left.
        -- by apply (Hall c Hc).
    + intros c Hc. apply Hr. rewrite (sorted_desc_perm cand_score). by apply Hmemo.
  - intros [= <- <-]. split; [done|]. intros c (d & text & v & Hin & _). unfold warmed_for in Hin.
    rewrite Hw in Hin. by apply not_elem_of_nil in Hin.
  - intros [= <- <-]. split; [done|]. intros c (d & text & v & Hin & _). unfold warmed_for in Hin.
    rewrite Hw in Hin. by apply not_elem_of_nil in Hin.
Qed.

(** What was noted for a document is what the memo holds, and nothing else of
    any tenant changes. *)
Lemma note_warmed_spec t d text s s' :
  note_warmed t d text s = (Ret tt, s') →
  ∃ v, (embed text (cw_embedder s)).1 = Ret v ∧ od_get d (warmed_for s' t) = Some (text, v) ∧
    (∀ e, e ≠ d → od_get e (warmed_for s' t) = od_get e (warmed_for s t)) ∧
    (∀ u, u ≠ t → warmed_for s' u = warmed_for s u).
Proof.
  unfold note_warmed, mbind, stm_bind, on_embedder, modify.
  destruct (embed text (cw_embedder s)) as [[v|e] x]; [|done]. intros [= <-].
  exists v. unfold warmed_for. simpl. split; [done|]. rewrite lookup_insert_eq. simpl. split_and!.
  - by rewrite od_get_set, decide_True.
  - intros e He. by rewrite od_get_set, decide_False.
  - intros u Hu. by rewrite lookup_insert_ne.
Qed.

Lemma forget_spec t d s s' :
  forget t d s = (Ret tt, s') →
  od_get d (warmed_for s' t) = None ∧
  (∀ e, e ≠ d → od_get e (warmed_for s' t) = od_get e (warmed_for s t)) ∧
  (∀ u, u ≠ t → warmed_for s' u = warmed_for s u).
Proof.
  unfold forget, modify. intros [= <-]. unfold warmed_for.
  destruct (cw_warmed s !! t) as [entries|] eqn:Hw; simpl; rewrite ?Hw, ?lookup_insert_eq; simpl.
  - split_and!.
    + by rewrite od_get_del, decide_True.
    + intros e He. by rewrite od_get_del, decide_False.
    + intros u Hu. by rewrite lookup_insert_ne.
  - done.
Qed.
End cwr.

(** The best warmed match is the tenant's closest document among those
    the cache still confirms: what is returned was warmed for this very tenant,
    scores its cosine similarity to the query, is vouched for by a live cache
    entry hashing exactly the returned content, and no confirmed document
    scores above it; None means no warmed document of the tenant is confirmed.
    Matching leaves the memo and the cache's contents alone. *)
Theorem best_warmed_match_confirmed {E C KV R} `{EmbeddingModel E} `{FrozenCache C KV} `{Retriever R}
    (view : C → gmap (uuid * uuid) (CacheHit KV)) `{!FrozenCacheReads C KV view}
    t q (s s' : CacheWarmedRetrieve E C R) r :
  (∀ c, scored_memo s t q c → is_nan (cand_score c) = false) →
  best_warmed_match t q s = (Ret r, s') →
  same_memo view s s' ∧ best_of view s t q r.
Proof. intros Hnan Hrun. by apply best_match_spec. Qed.


(** ** Worked examples *)

(** An embedder that maps a text to a vector picked by its length. *)
Definition length_embedder : EmbeddingModel unit :=
  λ s, mret (if (String.length s <? 4)%nat then [fone; fzero] else [fzero; fone]).

Definition empty_retriever : Retriever unit := λ _ _ _, mret [].

(** Two warmed documents; the cache confirms only the first. *)
Definition sample_cwr : CacheWarmedRetrieve unit (HFFrozenCache nat) unit :=
  mkCWR tt (mkHF {[ (1, 10) := (content_hash "now", 3%nat); (1, 11) := (content_hash "other", 3%nat) ]})
    tt (flit 1 2)
    {[ 1 := [(11, ("old", [fone; fzero])); (10, ("now", [fone; fone]))] ]} 0 0.

Definition sample_match : res (option SearchResult) * CacheWarmedRetrieve unit (HFFrozenCache nat) unit :=
  best_warmed_match (C := HFFrozenCache nat) (KV := nat)
    (H0 := hf_frozen_cache (H := length_model)) 1 [fone; fzero] sample_cwr.

(** The document the memo still holds and the cache still confirms. *)
Definition sample_answer : SearchResult :=
  mkSearchResult 10 10 "now" (S754_finite false 6369051672525772 (-53)).

Lemma sample_memo : warmed_for sample_cwr 1 = [(11, ("old", [fone; fzero])); (10, ("now", [fone; fone]))].
Proof. reflexivity. Qed.

Lemma sample_not_nan c :
  scored_memo sample_cwr 1 [fone; fzero] c → is_nan (cand_score c) = false.
Proof.
  intros (d & text & v & Hin & Hs & _). rewrite sample_memo in Hin. revert Hs.
  generalize (cand_score c) as x. intros x.
  apply elem_of_cons in Hin as [[= -> -> ->]|[= -> -> ->]%list_elem_of_singleton];
    vm_compute; by intros [= <-].
Qed.

(** The stale document scores higher and is skipped. *)
Lemma best_warmed_match_confirmed_witness :
  sample_match.1 = Ret (Some sample_answer) ∧
  same_memo hf_view sample_cwr sample_match.2 ∧
  best_of hf_view sample_cwr 1 [fone; fzero] (Some sample_answer).
Proof.
  split; [vm_compute; reflexivity|].
  apply (best_warmed_match_confirmed (H0 := hf_frozen_cache (H := length_model))
    (H := length_embedder) (H1 := empty_retriever) hf_view 1 [fone; fzero] sample_cwr
    sample_match.2 (Some sample_answer));
    [exact sample_not_nan|vm_compute; reflexivity].
Defined.

Definition sample_execution : res (list SearchResult) * CacheWarmedRetrieve unit (HFFrozenCache nat) unit :=
  CWR_execute (C := HFFrozenCache nat) (KV := nat) (H := length_embedder)
    (H0 := hf_frozen_cache (H := length_model)) (H1 := empty_retriever) 1 "q" 5 sample_cwr.

