(* ===== verification/AssembleContext.v ===== *)
(** * Context assembly

    orchestration/application/assemble_context.py: each paradigm's items are
    packed into its own token budget, best score first, and what reallocating
    the idle budgets does to it.  The tokenizer
    (shared/tokenization.py calls tiktoken's cl100k_base) is outside the
    program: the class [TokenCounter], whose call may raise, as tiktoken's
    encode does on text that spells one of its special tokens. *)

From Stdlib Require Import ZArith Lia Ascii String Floats.SpecFloat.
From S2P Require Import Prelude PyFloat PyTime PyStr Prompts Entities BudgetAllocator.

Class TokenCounter : Type := count_tokens : string → res Z.

(** A count of tokens is never negative. *)
Class TokenCounterLaws `{TokenCounter} : Prop :=
  count_tokens_nonneg s n : count_tokens s = Ret n → 0 ≤ n.

Definition newline : string := nl.

Definition SECTION_TITLES (p : Paradigm) : string :=
  match p with
  | CAG => "Pre-loaded reference knowledge (CAG)"
  | MAG => "What is known about this user (MAG)"
  | RAG => "Retrieved documents (RAG)"
  end.

Record AssembledContext : Type := mkAssembled {
  ac_text : string;
  ac_included : list ContextItem;
  ac_dropped : gmap Paradigm Z;
  ac_tokens_used : gmap Paradigm Z
}.

Section assemble.
Context `{TokenCounter}.

(** The walk over one paradigm's ranked items: kept items, how many were
    dropped, and the tokens used. *)
Fixpoint pack (budget : Z) (ranked : list ContextItem) (used : Z) : res (list ContextItem * Z * Z) :=
  match ranked with
  | [] => Ret ([], 0, used)
  | item :: rest =>
      cost ← count_tokens (ci_content item);
      if budget <? used + cost then
        '(kept, dropped, total) ← pack budget rest used;
        Ret (kept, dropped + 1, total)
      else
        '(kept, dropped, total) ← pack budget rest (used + cost);
        Ret (item :: kept, dropped, total)
  end.

Definition items_of (p : Paradigm) (items : list ContextItem) : list ContextItem :=
  filter (λ i, ci_paradigm i = p) items.

Definition section_text (p : Paradigm) (kept : list ContextItem) : string :=
  ("## " +:+ SECTION_TITLES p +:+ newline +:+
    join (newline +:+ newline) (map ci_content kept))%string.

(** The loop over [PARADIGM_ORDER]. *)
Fixpoint assemble_sections (ps : list Paradigm) (items : list ContextItem)
    (allocation : BudgetAllocation) :
  res (list string * list ContextItem * gmap Paradigm Z * gmap Paradigm Z) :=
  match ps with
  | [] => Ret ([], [], ∅, ∅)
  | p :: ps' =>
      let ranked := sorted_desc ci_score (items_of p items) in
      '(kept, dropped, used) ← pack (ba_for allocation p) ranked 0;
      '(sections, included, drops, uses) ← assemble_sections ps' items allocation;
      Ret ((if decide (kept = []) then sections else section_text p kept :: sections),
           kept ++ included, <[p := dropped]> drops, <[p := used]> uses)
  end.

Definition assemble_context (items : list ContextItem) (allocation : BudgetAllocation) :
  res AssembledContext :=
  '(sections, included, dropped, tokens_used) ← assemble_sections PARADIGM_ORDER items allocation;
  Ret (mkAssembled (join (newline +:+ newline) sections) included dropped tokens_used).

(** ** What a packing is *)

Definition cost (i : ContextItem) : Z :=
  match count_tokens (ci_content i) with Ret n => n | Raise _ => 0 end.

Definition costs (l : list ContextItem) : Z := zsum (map cost l).

(** [kept] is a greedy, maximal packing of [ranked] into [budget]: the order
    is kept, nothing is lost, and nothing left out would still fit. *)
Record packs (budget used : Z) (ranked kept : list ContextItem) (dropped total : Z) : Prop := {
  packs_out : ∃ out, ranked ≡ₚ kept ++ out ∧ dropped = Z.of_nat (length out) ∧
    ∀ x, x ∈ out → budget < total + cost x;
  packs_order : kept `sublist_of` ranked;
  packs_total : total = used + costs kept;
  packs_fits : kept ≠ [] → total ≤ budget
}.

Lemma costs_nonneg `{!TokenCounterLaws} l : 0 ≤ costs l.
Proof.
  unfold costs. induction l as [|y l IH]; simpl; [unfold zsum; simpl; lia|].
  assert (0 ≤ cost y); [|unfold zsum in *; simpl; lia].
  unfold cost. destruct (count_tokens (ci_content y)) eqn:Hy; [|done].
  by apply count_tokens_nonneg in Hy.
Qed.

Lemma pack_spec `{!TokenCounterLaws} budget ranked used kept dropped total :
  pack budget ranked used = Ret (kept, dropped, total) → packs budget used ranked kept dropped total.
Proof.
  revert used kept dropped total. induction ranked as [|x ranked IH]; intros used kept dropped total; simpl.
  { intros [= <- <- <-]. split; [|done|unfold costs; simpl; lia|done].
    exists []. split_and!; [done..|]. intros x Hx. by apply not_elem_of_nil in Hx. }
  destruct (count_tokens (ci_content x)) as [c|e] eqn:Hc; [|done]. simpl.
  assert (cost x = c) as Hcost by (unfold cost; by rewrite Hc).
  pose proof (count_tokens_nonneg _ _ Hc) as Hc0.
  destruct (Z.ltb_spec budget (used + c)) as [Hover|Hfit].
  - destruct (pack budget ranked used) as [[[k d] t]|e] eqn:Hp; [|done]. simpl.
    intros [= <- <- <-]. destruct (IH _ _ _ _ Hp) as [(out & Hout & Hd & Hmax) Hord Htot Hfits].
    assert (used ≤ t) as Hmono.
    { pose proof (costs_nonneg k). lia. }
    split; [|by apply sublist_cons|done|done].
    exists (x :: out). split_and!.
    + rewrite Hout. by rewrite Permutation_middle.
    + simpl. lia.
    + intros y [->|Hy]%elem_of_cons; [lia|by apply Hmax].
  - destruct (pack budget ranked (used + c)) as [[[k d] t]|e] eqn:Hp; [|done]. simpl.
    intros [= <- <- <-]. destruct (IH _ _ _ _ Hp) as [(out & Hout & Hd & Hmax) Hord Htot Hfits].
    split; [|by apply sublist_skip|unfold costs in *; unfold zsum in *; simpl; lia|].
    + exists out. split_and!; [by rewrite Hout|done..].
    + intros _. destruct k as [|y k]; [|by apply Hfits].
      unfold costs, zsum in Htot. simpl in Htot. lia.
Qed.

(** The items whose text the tokenizer refuses. *)
Definition refused (l : list ContextItem) : Prop :=
  ∃ i e, i ∈ l ∧ count_tokens (ci_content i) = Raise e.

Lemma refused_cons i l :
  refused (i :: l) ↔ (∃ e, count_tokens (ci_content i) = Raise e) ∨ refused l.
Proof. unfold refused. setoid_rewrite elem_of_cons. naive_solver. Qed.

Lemma pack_raises budget ranked used :
  (∃ e, pack budget ranked used = Raise e) ↔ refused ranked.
Proof.
  revert used. induction ranked as [|x ranked IH]; intros used.
  - split; [by intros [e ?]|]. intros (i & e & Hi & _). by apply not_elem_of_nil in Hi.
  - rewrite refused_cons. simpl. destruct (count_tokens (ci_content x)) as [c|e]; simpl;
      [|naive_solver].
    destruct (budget <? used + c); [rewrite <- (IH used)|rewrite <- (IH (used + c))];
      destruct (pack budget ranked _) as [[[k d] t]|e]; simpl; naive_solver.
Qed.

Lemma sections_raise ps items allocation :
  (∃ e, assemble_sections ps items allocation = Raise e) ↔
  refused (filter (λ i, ci_paradigm i ∈ ps) items).
Proof.
  induction ps as [|p ps IH]; simpl.
  - split; [by intros [e ?]|]. intros (i & e & [Hi _]%list_elem_of_filter & _).
    by apply not_elem_of_nil in Hi.
  - pose proof (pack_raises (ba_for allocation p) (sorted_desc ci_score (items_of p items)) 0) as Hp.
    assert (refused (filter (λ i, ci_paradigm i ∈ p :: ps) items) ↔
      refused (sorted_desc ci_score (items_of p items)) ∨
      refused (filter (λ i, ci_paradigm i ∈ ps) items)) as ->.
    { unfold refused. setoid_rewrite (sorted_desc_perm ci_score). unfold items_of.
      setoid_rewrite list_elem_of_filter. setoid_rewrite elem_of_cons. naive_solver. }
    rewrite <- Hp, <- IH.
    destruct (pack _ _ _) as [[[k d] t]|e]; simpl; [|naive_solver].
    destruct (assemble_sections ps items allocation) as [[[[ss inc] ds] us]|e]; simpl; naive_solver.
Qed.

Definition section_of (p : Paradigm) (kept : list ContextItem) : list string :=
  if decide (kept = []) then [] else [section_text p kept].

(** The sections of the assembled text, from the included items alone. *)
Definition render (ps : list Paradigm) (included : list ContextItem) : list string :=
  flat_map (λ p, section_of p (items_of p included)) ps.

Lemma items_of_app p l1 l2 : items_of p (l1 ++ l2) = items_of p l1 ++ items_of p l2.
Proof. apply filter_app. Qed.

Lemma items_of_all p l : Forall (λ i, ci_paradigm i = p) l → items_of p l = l.
Proof. apply list_filter_all. Qed.

Lemma items_of_none p q l : p ≠ q → Forall (λ i, ci_paradigm i = q) l → items_of p l = [].
Proof.
  intros Hne Hl. apply list_filter_none. eapply Forall_impl; [done|]. simpl. by intros i ->.
Qed.

Lemma packs_mine `{!TokenCounterLaws} budget p items kept dropped total :
  packs budget 0 (sorted_desc ci_score (items_of p items)) kept dropped total →
  Forall (λ i, ci_paradigm i = p) kept.
Proof.
  intros [(out & Hout & _) _ _ _]. rewrite list.Forall_forall. intros i Hi.
  assert (i ∈ items_of p items) as [Hp _]%list_elem_of_filter; [|done].
  rewrite <- (sorted_desc_perm ci_score), Hout. apply elem_of_app. by left.
Qed.

Lemma assemble_sections_spec `{!TokenCounterLaws} ps items allocation sections included drops uses :
  NoDup ps →
  assemble_sections ps items allocation = Ret (sections, included, drops, uses) →
  (∀ p, p ∈ ps → ∃ dropped used, drops !! p = Some dropped ∧ uses !! p = Some used ∧
     packs (ba_for allocation p) 0 (sorted_desc ci_score (items_of p items))
       (items_of p included) dropped used) ∧
  (∀ p, p ∉ ps → items_of p included = []) ∧
  sections = render ps included ∧ included = flat_map (λ p, items_of p included) ps.
Proof.
  revert sections included drops uses.
  induction ps as [|p ps IH]; intros sections included drops uses Hnd; simpl.
  { intros [= <- <- <- <-]. split_and!; [|done..]. intros p Hp. by apply not_elem_of_nil in Hp. }
  apply NoDup_cons in Hnd as [Hp Hnd].
  destruct (pack _ _ 0) as [[[kept dropped] used]|e] eqn:Hpack; [|done]. simpl.
  destruct (assemble_sections ps items allocation) as [[[[ss inc] ds] us]|e]; [|done]. simpl.
  intros [= <- <- <- <-]. apply pack_spec in Hpack as Hpacks.
  pose proof (packs_mine _ _ _ _ _ _ Hpacks) as Hmine.
  destruct (IH _ _ _ _ Hnd eq_refl) as (Hin & Hout & -> & Hinc).
  assert (items_of p (kept ++ inc) = kept) as Hkept
    by (rewrite items_of_app, items_of_all, Hout by done; apply app_nil_r).
  assert (∀ q, q ≠ p → items_of q (kept ++ inc) = items_of q inc) as Hother
    by (intros q Hq; by rewrite items_of_app, (items_of_none q p)).
  assert (∀ {B} (f : Paradigm → list ContextItem → list B),
    flat_map (λ q, f q (items_of q (kept ++ inc))) ps = flat_map (λ q, f q (items_of q inc)) ps) as Hmap.
  { intros B f. clear -Hp Hother. induction ps as [|q ps IHps]; simpl; [done|].
    apply not_elem_of_cons in Hp as [Hq Hps]. rewrite Hother by done. by rewrite IHps. }
  split_and!.
  - intros q [->|Hq]%elem_of_cons.
    + exists dropped, used. rewrite !lookup_insert_eq, Hkept. done.
    + destruct (Hin q Hq) as (d & u & Hd & Hu & Hpk). exists d, u.
      assert (q ≠ p) by (by intros ->). rewrite !lookup_insert_ne, Hother by done. done.
  - intros q [Hq Hqs]%not_elem_of_cons. rewrite Hother by done. by apply Hout.
  - unfold render. simpl. rewrite Hkept.
    rewrite (Hmap string section_of). unfold section_of. by destruct (decide (kept = [])).
  - rewrite Hkept, (Hmap _ (λ _ l, l)). f_equal. done.
Qed.
End assemble.

Lemma assemble_context_spec `{TokenCounterLaws} items allocation a :
  assemble_context items allocation = Ret a →
  (∀ p, ∃ dropped used, ac_dropped a !! p = Some dropped ∧ ac_tokens_used a !! p = Some used ∧
     packs (ba_for allocation p) 0 (sorted_desc ci_score (items_of p items))
       (items_of p (ac_included a)) dropped used) ∧
  ac_included a = flat_map (λ p, items_of p (ac_included a)) PARADIGM_ORDER ∧
  ac_text a = join (newline +:+ newline) (render PARADIGM_ORDER (ac_included a)).
Proof.
  unfold assemble_context.
  destruct (assemble_sections PARADIGM_ORDER items allocation) as [[[[ss inc] ds] us]|e] eqn:Hs;
    [|done]. intros [= <-]. simpl ac_text. simpl ac_included. simpl ac_dropped. simpl ac_tokens_used.
  apply assemble_sections_spec in Hs as (Hin & _ & -> & Hinc).
  - split_and!; [|done..]. intros p. apply Hin, elem_of_PARADIGM_ORDER.
  - apply (bool_decide_unpack (NoDup PARADIGM_ORDER)). vm_compute. done.
Qed.

(** Context assembly is a greedy packing that loses nothing and never
    overdraws: for every paradigm the included items are the tenant's items of
    that paradigm in best-score-first order, minus exactly the dropped ones
    the counter reports; the tokens charged are the sum of their costs and
    stay within the slice whenever anything was included; and no dropped item
    would still have fitted in what is left.  Items appear grouped in paradigm
    order, and the text is made of the included items and nothing else. *)
Theorem assemble_context_packs `{TokenCounterLaws} items allocation a :
  assemble_context items allocation = Ret a →
  (∀ p, ∃ dropped used, ac_dropped a !! p = Some dropped ∧ ac_tokens_used a !! p = Some used ∧
     packs (ba_for allocation p) 0 (sorted_desc ci_score (items_of p items))
       (items_of p (ac_included a)) dropped used) ∧
  ac_included a = flat_map (λ p, items_of p (ac_included a)) PARADIGM_ORDER ∧
  ac_text a = join (newline +:+ newline) (render PARADIGM_ORDER (ac_included a)).
Proof. apply assemble_context_spec. Qed.

(** Assembling succeeds exactly when every item that some paradigm claims
    can be tokenized, whatever the budget: one item whose text the tokenizer
    refuses makes the whole assembly raise. *)
Theorem assemble_context_raises_iff `{TokenCounter} items allocation :
  (∃ e, assemble_context items allocation = Raise e) ↔
  ∃ i e, i ∈ items ∧ count_tokens (ci_content i) = Raise e.
Proof.
  assert (filter (λ i, ci_paradigm i ∈ PARADIGM_ORDER) items = items) as Hall.
  { apply list_filter_all. rewrite list.Forall_forall. intros i _. apply elem_of_PARADIGM_ORDER. }
  pose proof (sections_raise PARADIGM_ORDER items allocation) as Hs.
  rewrite Hall in Hs. unfold refused in Hs. rewrite <- Hs.
  unfold assemble_context.
  destruct (assemble_sections _ _ _) as [[[[ss inc] ds] us]|e]; simpl; naive_solver.
Qed.

(** ** A bigger slice never carries less *)

Section pack_more.
Context `{TokenCounterLaws}.

Lemma pack_total budget ranked used kept dropped total : pack budget ranked used = Ret (kept, dropped, total) →
  used ≤ total ∧ total ≤ Z.max used budget.
Proof.
  intros Hp. apply pack_spec in Hp as [_ _ Htot Hfits]. pose proof (costs_nonneg kept). split; [lia|].
  destruct kept; [unfold costs, zsum in *; cbn in *; lia|]. pose proof (Hfits ltac:(done)). lia.
Qed.

(** Two walks part at an item only the bigger slice has room for: with it the
    bigger one already holds more than the smaller ever can. *)
Lemma pack_more small big ranked used k d t k' d' t' : used ≤ small → small ≤ big →
  pack small ranked used = Ret (k, d, t) → pack big ranked used = Ret (k', d', t') → t ≤ t'.
Proof.
  intros Hu Hb. revert used k d t k' d' t' Hu. induction ranked as [|x ranked IH]; intros used k d t k' d' t' Hu; cbn [pack].
  { intros [= <- <- <-] [= <- <- <-]. lia. }
  intros Hs Hg.
  destruct (count_tokens (ci_content x)) as [c|e] eqn:Hc; cbn [mbind res_bind] in Hs, Hg; [|done]. pose proof (count_tokens_nonneg _ _ Hc).
  destruct (Z.ltb_spec small (used + c)), (Z.ltb_spec big (used + c)); [..|lia|]; res_inv.
  - by eapply IH.
  - apply pack_total in E, E0. lia.
  - eapply IH; [|done..]. lia.
Qed.

Lemma assemble_sections_packed ps items al sections included drops uses p : NoDup ps → p ∈ ps →
  assemble_sections ps items al = Ret (sections, included, drops, uses) →
  ∃ k d u, pack (ba_for al p) (sorted_desc ci_score (items_of p items)) 0 = Ret (k, d, u) ∧ drops !! p = Some d ∧ uses !! p = Some u.
Proof.
  revert sections included drops uses. induction ps as [|q ps IH]; intros sections included drops uses Hnd Hp; cbn [assemble_sections].
  { by apply not_elem_of_nil in Hp. }
  apply NoDup_cons in Hnd as [Hq Hnd]. intros Hall. destruct (pack (ba_for al q) _ 0) as [[[kept dropped] used]|e] eqn:Hpack; cbn [mbind res_bind] in Hall; [|done].
  destruct (assemble_sections ps items al) as [[[[ss inc] ds] us]|e] eqn:Hrest; cbn [mbind res_bind] in Hall; [|done]. injection Hall as <- <- <- <-.
  destruct (decide (p = q)) as [->|Hne].
  - exists kept, dropped, used. by rewrite !lookup_insert_eq.
  - apply elem_of_cons in Hp as [->|Hp]; [done|]. rewrite !lookup_insert_ne by done. by eapply IH.
Qed.

Lemma assembled_packed items al a p : assemble_context items al = Ret a →
  ∃ k d u, pack (ba_for al p) (sorted_desc ci_score (items_of p items)) 0 = Ret (k, d, u) ∧
    ac_dropped a !! p = Some d ∧ ac_tokens_used a !! p = Some u.
Proof.
  unfold assemble_context. intros Ha. res_inv. cbn [ac_dropped ac_tokens_used].
  eapply assemble_sections_packed; [apply (bool_decide_unpack (NoDup PARADIGM_ORDER)); vm_compute; done|apply elem_of_PARADIGM_ORDER|exact E].
Qed.

(** With every paradigm active nothing is donated. *)
Lemma allocate_static total shares a p : allocate total (list_to_set PARADIGM_ORDER) shares = Ret a →
  floor_share total (share_for shares p) = Ret (ba_for a p).
Proof.
  assert (∀ base order st, donate_all shares base (list_to_set PARADIGM_ORDER) order st = Ret st) as Hnone.
  { intros base order. induction order as [|i order IH]; intros st; [done|]. cbn [donate_all]. unfold donate. rewrite decide_True; [apply IH|].
    apply elem_of_list_to_set, elem_of_PARADIGM_ORDER. }
  unfold allocate, allocate_in. destruct (total <? 0); [done|]. intros Ha. res_inv. rewrite Hnone in E3. injection E3 as <-. by destruct p.
Qed.

(** Reallocating the idle slices never puts fewer tokens of any paradigm in the prompt. *)
Lemma reallocation_admits_more window shares items dynamic_allocation static_allocation dynamic static p : shares_valid shares →
  allocate window (list_to_set (map ci_paradigm items)) shares = Ret dynamic_allocation →
  allocate window (list_to_set PARADIGM_ORDER) shares = Ret static_allocation →
  assemble_context items dynamic_allocation = Ret dynamic → assemble_context items static_allocation = Ret static →
  ∃ more less, ac_tokens_used dynamic !! p = Some more ∧ ac_tokens_used static !! p = Some less ∧ 0 ≤ less ≤ more.
Proof.
  intros Hv Hda Hsa Hd Hs. destruct (assembled_packed _ _ _ p Hd) as (k & d & more & Hpd & _ & Hmore). destruct (assembled_packed _ _ _ p Hs) as (k' & d' & less & Hps & _ & Hless).
  exists more, less. split_and!; [done..| |]; [apply pack_total in Hps; lia|]. destruct (allocate_slices _ _ _ _ p Hv Hda) as [_ Hgot].
  destruct (decide (p ∈ (list_to_set (map ci_paradigm items) : gset Paradigm))) as [Hin|Hout].
  - destruct (Hgot Hin) as (base & Hbase & Hle). apply (allocate_static _ _ _ p) in Hsa. rewrite Hsa in Hbase. injection Hbase as <-.
    eapply pack_more; [| |exact Hps|exact Hpd]; lia.
  - assert (items_of p items = []) as Hnone.
    { apply list_filter_none, list.Forall_forall. intros i Hi Hip. apply Hout, elem_of_list_to_set, list_elem_of_fmap. by exists i. }
    rewrite Hnone in Hps, Hpd. cbn in Hps, Hpd. injection Hps as _ _ <-. injection Hpd as _ _ <-. done.
Qed.

(** C8: Reallocation never costs an active paradigm a token of its context: however
    the passages are cut, the slices that give the idle paradigms' shares to
    those that contributed carry at least the tokens of each paradigm that the
    plain shares carry, and so of all of them together. *)
Theorem reallocation_never_costs_tokens window shares items dynamic_allocation static_allocation dynamic static : shares_valid shares →
  allocate window (list_to_set (map ci_paradigm items)) shares = Ret dynamic_allocation →
  allocate window (list_to_set PARADIGM_ORDER) shares = Ret static_allocation →
  assemble_context items dynamic_allocation = Ret dynamic → assemble_context items static_allocation = Ret static →
  (∀ p, ∃ more less, ac_tokens_used dynamic !! p = Some more ∧ ac_tokens_used static !! p = Some less ∧ 0 ≤ less ≤ more) ∧
  costs (ac_included static) ≤ costs (ac_included dynamic).
Proof.
  intros Hv Hda Hsa Hd Hs.
  assert (∀ p, ∃ more less, ac_tokens_used dynamic !! p = Some more ∧ ac_tokens_used static !! p = Some less ∧ 0 ≤ less ≤ more) as Hall
    by (intros p; by eapply reallocation_admits_more).
  split; [exact Hall|]. apply assemble_context_spec in Hd as (Hd & Hdi & _). apply assemble_context_spec in Hs as (Hs & Hsi & _).
  assert (∀ p, costs (items_of p (ac_included static)) ≤ costs (items_of p (ac_included dynamic))) as Hp.
  { intros p. destruct (Hall p) as (more & less & Hm & Hl & Hle), (Hd p) as (? & u & _ & Hu & [_ _ Htot _]), (Hs p) as (? & v & _ & Hw & [_ _ Hwtot _]).
    rewrite Hm in Hu. rewrite Hl in Hw. injection Hu as <-. injection Hw as <-. lia. }
  rewrite Hdi, Hsi. unfold PARADIGM_ORDER. cbn [flat_map]. rewrite !app_nil_r. unfold costs in *. rewrite !map_app, !zsum_app.
  pose proof (Hp CAG). pose proof (Hp MAG). pose proof (Hp RAG). lia.
Qed.
End pack_more.

(** ** A worked example *)

(** A tokenizer that charges a token per byte and refuses an empty text. *)
Definition byte_counter : TokenCounter := λ s,
  match s with
  | EmptyString => Raise (ValueError "refused")
  | _ => Ret (Z.of_nat (String.length s))
  end.

#[export] Instance byte_counter_laws : TokenCounterLaws (H := byte_counter).
Proof. intros [|c s] n; unfold count_tokens, byte_counter; [done|]. intros [= <-]. lia. Qed.

Definition sample_items : list ContextItem :=
  [mkItem RAG "a long passage" (flit 9 10) (Some 1); mkItem CAG "policy" (flit 1 2) (Some 2);
   mkItem RAG "short" (flit 1 2) None].

Definition sample_context : res AssembledContext :=
  assemble_context (H := byte_counter) sample_items (mkAllocation 10 10 8 5 5).

Definition sample_assembled : AssembledContext :=
  match sample_context with Ret a => a | Raise _ => mkAssembled "" [] ∅ ∅ end.

Lemma assemble_context_packs_witness :
  map ci_content (ac_included sample_assembled) = ["policy"; "short"] ∧
  (∀ p, ∃ dropped used, ac_dropped sample_assembled !! p = Some dropped ∧
     ac_tokens_used sample_assembled !! p = Some used ∧
     packs (H := byte_counter) (ba_for (mkAllocation 10 10 8 5 5) p) 0
       (sorted_desc ci_score (items_of p sample_items))
       (items_of p (ac_included sample_assembled)) dropped used) ∧
  ac_included sample_assembled
    = flat_map (λ p, items_of p (ac_included sample_assembled)) PARADIGM_ORDER ∧
  ac_text sample_assembled
    = join (newline +:+ newline) (render PARADIGM_ORDER (ac_included sample_assembled)).
Proof.
  split; [vm_compute; reflexivity|].
  apply (assemble_context_packs (H := byte_counter) sample_items (mkAllocation 10 10 8 5 5)).
  vm_compute. reflexivity.
Defined.

Lemma reallocation_never_costs_tokens_witness :
  let dynamic := mkAssembled (section_text RAG [mkItem RAG "a long passage" fone None]) [mkItem RAG "a long passage" fone None] {[CAG := 0; MAG := 0; RAG := 0]} {[CAG := 0; MAG := 0; RAG := 14]} in
  let static := mkAssembled "" [] {[CAG := 0; MAG := 0; RAG := 1]} {[CAG := 0; MAG := 0; RAG := 0]} in
  (∀ p, ∃ more less, ac_tokens_used dynamic !! p = Some more ∧ ac_tokens_used static !! p = Some less ∧ 0 ≤ less ≤ more) ∧
  costs (H := byte_counter) (ac_included static) ≤ costs (H := byte_counter) (ac_included dynamic).
Proof.
  eapply (reallocation_never_costs_tokens (H := byte_counter) 50 DEFAULT_SHARES [mkItem RAG "a long passage" fone None]).
  - exact default_shares_valid.
  - vm_compute. reflexivity.
  - vm_compute. reflexivity.
  - vm_compute. reflexivity.
  - vm_compute. reflexivity.
Defined.
