(* ===== verification/Json.v ===== *)
(** * JSON, as Python's [json] module reads it

    [json.loads] on UTF-8 text: the values, the grammar with its extensions
    (NaN, Infinity), objects as insertion-ordered dicts where the last
    duplicate wins, arbitrary-precision ints limited to the interpreter's 4300
    digits, and correctly rounded floats.  Every malformed text raises
    [JSONDecodeError]; an int with too many digits raises a plain ValueError,
    which is not one.  The interpreter's recursion limit is not modelled.  The
    parser recurses on fuel; [json_loads_fuel] shows the fuel [json_loads]
    gives is always enough. *)

From Stdlib Require Import ZArith Lia Ascii String Floats.SpecFloat.
From S2P Require Import Prelude PyFloat PyStr.

Inductive json : Type :=
  | JNull
  | JBool (b : bool)
  | JInt (z : Z)
  | JFloat (x : f64)
  | JStr (s : string)
  | JList (l : list json)
  | JObj (o : list (string * json)).

(** ** Scanning *)

Definition is_json_space (c : ascii) : bool :=
  match c with
  | " " => true
  | _ => let n := N_of_ascii c in (n =? 9)%N || (n =? 10)%N || (n =? 13)%N
  end%char.

Fixpoint skip_ws (s : string) : string :=
  match s with
  | String c s' => if is_json_space c then skip_ws s' else s
  | EmptyString => EmptyString
  end.

(** The rest of the text when it starts with this character. *)
Definition eat (c : ascii) (s : string) : option string :=
  match s with
  | String d s' => if Ascii.eqb d c then Some s' else None
  | EmptyString => None
  end.

Definition quote : ascii := ascii_of_N 34.
Definition backslash : ascii := ascii_of_N 92.

Definition digit_value (c : ascii) : option Z :=
  let n := Z.of_N (N_of_ascii c) in
  if (48 <=? n) && (n <=? 57) then Some (n - 48) else None.

(** The longest run of digits: their value, how many, and the rest. *)
Fixpoint scan_digits (s : string) (acc : Z) (count : nat) : Z * nat * string :=
  match s with
  | String c s' =>
      match digit_value c with
      | Some d => scan_digits s' (10 * acc + d) (S count)
      | None => (acc, count, s)
      end
  | EmptyString => (acc, count, s)
  end.

Definition MAX_INT_DIGITS : Z := 4300.

(** The double nearest to [(-1)^neg * mantissa * 10^exponent]. *)
Definition decimal_to_float (neg : bool) (mantissa : Z) (digits : nat) (exponent : Z) : f64 :=
  match mantissa with
  | Zpos m =>
      if 400 <? exponent + Z.of_nat digits then S754_infinity neg
      else if exponent + Z.of_nat digits <? -400 then S754_zero neg
      else if 0 <=? exponent then
        binary_normalize f64_prec f64_emax ((if neg then Zneg m else Zpos m) * 10 ^ exponent) 0 neg
      else fdiv_raw (S754_finite neg m 0) (S754_finite false (Z.to_pos (10 ^ (- exponent))) 0)
  | _ => S754_zero neg
  end.

(** The optional fraction: its digits are added to the mantissa. *)
Definition scan_fraction (mantissa : Z) (count : nat) (s : string) : option (Z * nat * nat * string) :=
  s' ← eat "." s;
  match scan_digits s' mantissa 0 with
  | (_, O, _) => None
  | (m, k, s'') => Some (m, (count + k)%nat, k, s'')
  end.

Definition scan_sign (s : string) : bool * string :=
  match eat "-" s with
  | Some t => (true, t)
  | None => (false, default s (eat "+" s))
  end.

(** The optional exponent, its sign included. *)
Definition scan_exponent (s : string) : option (Z * string) :=
  s' ← match eat "e" s with Some t => Some t | None => eat "E" s end;
  let '(neg, s'') := scan_sign s' in
  match scan_digits s'' 0 0 with
  | (_, O, _) => None
  | (e, _, t) => Some ((if neg : bool then - e else e), t)
  end.

(** The integer part: a zero, or digits that do not start with one. *)
Definition scan_int (s : string) : option (Z * nat * string) :=
  match eat "0" s with
  | Some s' => Some (0, 1%nat, s')
  | None => match scan_digits s 0 0 with
            | (_, O, _) => None
            | r => Some r
            end
  end.

(** A number from its first digit on; the sign has been read. *)
Definition parse_number (neg : bool) (s : string) : res (json * string) :=
  match scan_int s with
  | None => Raise JSONDecodeError
  | Some (m, count, s1) =>
      let '(m2, count2, frac, s2, has_frac) :=
        match scan_fraction m count s1 with
        | Some (m', c', k, t) => (m', c', k, t, true)
        | None => (m, count, O, s1, false)
        end in
      match scan_exponent s2 with
      | Some (e, s3) => Ret (JFloat (decimal_to_float neg m2 count2 (e - Z.of_nat frac)), s3)
      | None =>
          if has_frac : bool
          then Ret (JFloat (decimal_to_float neg m2 count2 (- Z.of_nat frac)), s2)
          else if MAX_INT_DIGITS <? Z.of_nat count
          then Raise (ValueError "Exceeds the limit (4300 digits) for integer string conversion")
          else Ret (JInt (if neg then - m2 else m2), s2)
      end
  end.

(** ** Strings *)

Definition hex_digit_value (c : ascii) : option Z :=
  let n := Z.of_N (N_of_ascii c) in
  if (48 <=? n) && (n <=? 57) then Some (n - 48)
  else if (97 <=? n) && (n <=? 102) then Some (n - 87)
  else if (65 <=? n) && (n <=? 70) then Some (n - 55)
  else None.

Definition scan_hex4 (s : string) : option (Z * string) :=
  match s with
  | String a (String b (String c (String d s'))) =>
      x ← hex_digit_value a; y ← hex_digit_value b;
      z ← hex_digit_value c; w ← hex_digit_value d;
      Some (4096 * x + 256 * y + 16 * z + w, s')
  | _ => None
  end.

(** UTF-8, extended to lone surrogates, which a Python str may hold. *)
Definition utf8_encode (cp : Z) : string :=
  if cp <? 128 then of_codes [Z.to_N cp]
  else if cp <? 2048 then of_codes [Z.to_N (192 + cp / 64); Z.to_N (128 + cp mod 64)]
  else if cp <? 65536 then
    of_codes [Z.to_N (224 + cp / 4096); Z.to_N (128 + cp / 64 mod 64); Z.to_N (128 + cp mod 64)]
  else
    of_codes [Z.to_N (240 + cp / 262144); Z.to_N (128 + cp / 4096 mod 64);
              Z.to_N (128 + cp / 64 mod 64); Z.to_N (128 + cp mod 64)].

(** After [\u]: a high surrogate joins a low one that follows it. *)
Definition scan_unicode (s : string) : option (Z * string) :=
  '(u, s1) ← scan_hex4 s;
  if (55296 <=? u) && (u <=? 56319) then
    match eat backslash s1 ≫= eat "u" with
    | Some s2 =>
        '(v, s3) ← scan_hex4 s2;
        if (56320 <=? v) && (v <=? 57343)
        then Some (65536 + 1024 * (u - 55296) + (v - 56320), s3)
        else Some (u, s1)
    | None => Some (u, s1)
    end
  else Some (u, s1).

Definition simple_escape (c : ascii) : option ascii :=
  match c with
  | "034" => Some "034"
  | "\" => Some "\"
  | "/" => Some "/"
  | "b" => Some "008"
  | "f" => Some "012"
  | "n" => Some "010"
  | "r" => Some "013"
  | "t" => Some "009"
  | _ => None
  end%char.

(** The body of a string, up to and including its closing quote. *)
Fixpoint parse_string (fuel : nat) (s : string) : res (string * string) :=
  match fuel with
  | O => Raise JSONDecodeError
  | S n =>
      match s with
      | EmptyString => Raise JSONDecodeError
      | String c s' =>
          if Ascii.eqb c quote then Ret (EmptyString, s')
          else if Ascii.eqb c backslash then
            match eat "u" s' with
            | Some s'' =>
                match scan_unicode s'' with
                | Some (cp, t) =>
                    '(rest, t') ← parse_string n t; Ret ((utf8_encode cp +:+ rest)%string, t')
                | None => Raise JSONDecodeError
                end
            | None =>
                match s' with
                | String d s'' =>
                    match simple_escape d with
                    | Some x => '(rest, t') ← parse_string n s''; Ret (String x rest, t')
                    | None => Raise JSONDecodeError
                    end
                | EmptyString => Raise JSONDecodeError
                end
            end
          else if (N_of_ascii c <? 32)%N then Raise JSONDecodeError
          else '(rest, t') ← parse_string n s'; Ret (String c rest, t')
      end
  end.

(** ** Values *)

Definition parse_literal (s : string) : res (json * string) :=
  match strip_prefix "null" s with Some t => Ret (JNull, t) | None =>
  match strip_prefix "true" s with Some t => Ret (JBool true, t) | None =>
  match strip_prefix "false" s with Some t => Ret (JBool false, t) | None =>
  match strip_prefix "NaN" s with Some t => Ret (JFloat S754_nan, t) | None =>
  match strip_prefix "Infinity" s with Some t => Ret (JFloat finf, t) | None =>
  match strip_prefix "-Infinity" s with Some t => Ret (JFloat fninf, t) | None =>
  match eat "-" s with
  | Some s' => parse_number true s'
  | None => parse_number false s
  end end end end end end end.

Inductive parse_goal : Type :=
  | GValue
  | GElements (acc : list json)
  | GMembers (acc : list (string * json)).

(** One recursive parser for a value, the rest of an array (from an element
    on) and the rest of an object (from a key's opening quote on). *)
Fixpoint parse_json (fuel : nat) (g : parse_goal) (s : string) : res (json * string) :=
  match fuel with
  | O => Raise JSONDecodeError
  | S n =>
      match g with
      | GValue =>
          match eat quote s, eat "{" s, eat "[" s with
          | Some s', _, _ => '(str, t) ← parse_string (String.length s') s'; Ret (JStr str, t)
          | None, Some s', _ =>
              match eat "}" (skip_ws s') with
              | Some t => Ret (JObj [], t)
              | None => parse_json n (GMembers []) (skip_ws s')
              end
          | None, None, Some s' =>
              match eat "]" (skip_ws s') with
              | Some t => Ret (JList [], t)
              | None => parse_json n (GElements []) (skip_ws s')
              end
          | None, None, None => parse_literal s
          end
      | GElements acc =>
          '(v, t) ← parse_json n GValue s;
          match eat "]" (skip_ws t), eat "," (skip_ws t) with
          | Some t', _ => Ret (JList (acc ++ [v]), t')
          | None, Some t' => parse_json n (GElements (acc ++ [v])) (skip_ws t')
          | None, None => Raise JSONDecodeError
          end
      | GMembers acc =>
          match eat quote s with
          | None => Raise JSONDecodeError
          | Some s' =>
              '(key, t) ← parse_string (String.length s') s';
              match eat ":" (skip_ws t) with
              | None => Raise JSONDecodeError
              | Some t1 =>
                  '(v, t2) ← parse_json n GValue (skip_ws t1);
                  match eat "}" (skip_ws t2), eat "," (skip_ws t2) with
                  | Some t3, _ => Ret (JObj (od_set key v acc), t3)
                  | None, Some t3 => parse_json n (GMembers (od_set key v acc)) (skip_ws t3)
                  | None, None => Raise JSONDecodeError
                  end
              end
          end
      end
  end.

(** [json.loads(s)]. *)
Definition json_loads (s : string) : res json :=
  match strip_prefix (of_codes [239; 187; 191]%N) s with
  | Some _ => Raise JSONDecodeError
  | None =>
      '(v, t) ← parse_json (2 * String.length s + 2) GValue (skip_ws s);
      match skip_ws t with
      | EmptyString => Ret v
      | _ => Raise JSONDecodeError
      end
  end.

(** ** Printing *)

Fixpoint digits_go (fuel : nat) (n : Z) (acc : string) : string :=
  match fuel with
  | O => acc
  | S f =>
      let acc' := String (ascii_of_N (Z.to_N (48 + n mod 10))) acc in
      if n <? 10 then acc' else digits_go f (n / 10) acc'
  end.

(** A natural number in decimal; the bit length bounds the digits. *)
Definition show_nat (n : Z) : string := digits_go (S (Z.to_nat (Z.log2 n))) n EmptyString.

Definition show_Z (z : Z) : string := if z <? 0 then String "-" (show_nat (- z)) else show_nat z.

(** Compare [m * 2^e] with [d * 10^k]. *)
Definition cmp_dec (m e d k : Z) : comparison :=
  Z.shiftl m (Z.max e 0) * 10 ^ (Z.max (- k) 0)
  ?= d * 10 ^ (Z.max k 0) * Z.shiftl 1 (Z.max (- e) 0).

(** The decimal exponent of [m * 2^e]: the [k] with [10^k <= m * 2^e < 10^(k+1)]. *)
Definition decimal_exponent (m e : Z) : Z :=
  let k := (e + Z.log2 m) * 30103 / 100000 in
  match cmp_dec m e 1 k with
  | Lt => k - 1
  | _ => match cmp_dec m e 1 (k + 1) with Lt => k | _ => k + 1 end
  end.

(** The two [n]-digit neighbours of [m * 2^e], nearest first. *)
Definition decimal_neighbours (m e : Z) (k : Z) (n : nat) : list Z :=
  let q := k - Z.of_nat n + 1 in
  let num := Z.shiftl m (Z.max e 0) * 10 ^ (Z.max (- q) 0) in
  let den := 10 ^ (Z.max q 0) * Z.shiftl 1 (Z.max (- e) 0) in
  let lo := num / den in
  let r := num mod den in
  if (2 * r <? den) || ((2 * r =? den) && Z.even lo) then [lo; lo + 1] else [lo + 1; lo].

(** The shortest digits that read back as [x]: [(digits, how many, exponent of the first)]. *)
Fixpoint shortest (fuel : nat) (n : nat) (m : positive) (e k : Z) : Z * nat * Z :=
  let q := k - Z.of_nat n + 1 in
  let ok d := bool_decide (decimal_to_float false d n q = S754_finite false m e) in
  match fuel with
  | O => (default 0 (head (decimal_neighbours (Zpos m) e k n)), n, k)
  | S f =>
      match filter (λ d, ok d = true) (decimal_neighbours (Zpos m) e k n) with
      | d :: _ => if d =? 10 ^ Z.of_nat n then (1, 1%nat, k + 1) else (d, n, k)
      | [] => shortest f (S n) m e k
      end
  end.

Fixpoint zeros (n : nat) : string :=
  match n with O => EmptyString | S n' => String "0" (zeros n') end.

Fixpoint str_take (n : nat) (s : string) : string :=
  match n, s with S n', String c s' => String c (str_take n' s') | _, _ => EmptyString end.
Fixpoint str_drop (n : nat) (s : string) : string :=
  match n, s with S n', String _ s' => str_drop n' s' | _, _ => s end.

Definition or_zero (s : string) : string := match s with EmptyString => "0" | _ => s end.

(** [float.__repr__] of a finite number: plain notation for exponents in [-4, 16). *)
Definition repr_fixed (ds : string) (k : Z) : string :=
  if k <? 0 then ("0." +:+ zeros (Z.to_nat (- k - 1)) +:+ ds)%string
  else
    let whole := Z.to_nat (k + 1) in
    (str_take whole ds +:+ zeros (whole - String.length ds) +:+ "." +:+
      or_zero (str_drop whole ds))%string.

Definition repr_exponent (ds : string) (k : Z) : string :=
  let frac := str_drop 1 ds in
  let frac := if (String.length frac =? 0)%nat then frac else String "." frac in
  let sign := if k <? 0 then "-"%string else "+"%string in
  let pad := if Z.abs k <? 10 then "0"%string else EmptyString in
  (str_take 1 ds +:+ frac +:+ "e" +:+ sign +:+ pad +:+ show_nat (Z.abs k))%string.

Definition repr_digits (ds : string) (k : Z) : string :=
  if (-4 <=? k) && (k <? 16) then repr_fixed ds k else repr_exponent ds k.

Definition float_repr (x : f64) : string :=
  match x with
  | S754_nan => "NaN"
  | S754_infinity s => if s then "-Infinity" else "Infinity"
  | S754_zero s => if s then "-0.0" else "0.0"
  | S754_finite s m e =>
      let '(d, _, k) := shortest 17 1 m e (decimal_exponent (Zpos m) e) in
      let body := repr_digits (show_nat d) k in
      if s then String "-" body else body
  end.

(** The code points of valid UTF-8 (a byte that starts no character stands for itself). *)
Fixpoint utf8_decode (fuel : nat) (s : string) : list Z :=
  match fuel, s with
  | S n, String a s1 =>
      let b0 := Z.of_N (N_of_ascii a) in
      let tail c := Z.of_N (N_of_ascii c) - 128 in
      if b0 <? 192 then b0 :: utf8_decode n s1
      else if b0 <? 224 then
        match s1 with
        | String b s2 => (b0 - 192) * 64 + tail b :: utf8_decode n s2
        | _ => [b0]
        end
      else if b0 <? 240 then
        match s1 with
        | String b (String c s3) => (b0 - 224) * 4096 + tail b * 64 + tail c :: utf8_decode n s3
        | _ => [b0]
        end
      else
        match s1 with
        | String b (String c (String d s4)) =>
            (b0 - 240) * 262144 + tail b * 4096 + tail c * 64 + tail d :: utf8_decode n s4
        | _ => [b0]
        end
  | _, _ => []
  end.

Definition code_points (s : string) : list Z := utf8_decode (String.length s) s.

Definition hex_char (n : Z) : ascii :=
  ascii_of_N (Z.to_N (if n <? 10 then 48 + n else 87 + n)).
Definition u_escape (u : Z) : string :=
  String backslash (String "u" (String (hex_char (u / 4096)) (String (hex_char (u / 256 mod 16))
    (String (hex_char (u / 16 mod 16)) (String (hex_char (u mod 16)) EmptyString))))).

(** One character under [ensure_ascii]. *)
Definition show_char (cp : Z) : string :=
  let two c := String backslash (String c EmptyString) in
  if cp =? 34 then two quote
  else if cp =? 92 then two backslash
  else if cp =? 10 then two "n"%char
  else if cp =? 13 then two "r"%char
  else if cp =? 9 then two "t"%char
  else if cp =? 12 then two "f"%char
  else if cp =? 8 then two "b"%char
  else if (32 <=? cp) && (cp <? 127) then String (ascii_of_N (Z.to_N cp)) EmptyString
  else if cp <? 65536 then u_escape cp
  else (u_escape (55296 + (cp - 65536) / 1024) +:+ u_escape (56320 + (cp - 65536) mod 1024))%string.

Definition show_string (s : string) : string :=
  String quote (foldr (λ cp acc, (show_char cp +:+ acc)%string) (String quote EmptyString)
    (code_points s)).

Fixpoint string_leb (a b : string) : bool :=
  match a, b with
  | EmptyString, _ => true
  | String _ _, EmptyString => false
  | String c a', String d b' =>
      if (N_of_ascii c <? N_of_ascii d)%N then true
      else if (N_of_ascii d <? N_of_ascii c)%N then false
      else string_leb a' b'
  end.

(** [json.dumps(v, sort_keys=sort_keys)]: UTF-8 byte order is code point order. *)
Fixpoint json_dumps (sort_keys : bool) (v : json) : string :=
  match v with
  | JNull => "null"
  | JBool b => if b then "true" else "false"
  | JInt z => show_Z z
  | JFloat x => float_repr x
  | JStr s => show_string s
  | JList l => ("[" +:+ join ", " (map (json_dumps sort_keys) l) +:+ "]")%string
  | JObj o =>
      let members := map (λ kv, (kv.1, json_dumps sort_keys kv.2)) o in
      let ordered := if sort_keys then sort_by (λ a b, string_leb a.1 b.1) members else members in
      ("{" +:+ join ", " (map (λ kv, show_string kv.1 +:+ ": " +:+ kv.2)%string ordered) +:+ "}")%string
  end.

(** ** The parser consumes what it reads *)

Abbreviation slen := String.length (only parsing).

Lemma skip_ws_length s : (slen (skip_ws s) ≤ slen s)%nat.
Proof. induction s as [|c s IH]; simpl; [done|]. destruct (is_json_space c); simpl; lia. Qed.

Lemma strip_prefix_length p s t :
  strip_prefix p s = Some t → slen s = (slen p + slen t)%nat.
Proof.
  revert s. induction p as [|c p IH]; intros s; simpl; [by intros [= ->]|].
  destruct s as [|d s]; [done|]. destruct (Ascii.eqb c d); [|done].
  intros H%IH. simpl. lia.
Qed.

Lemma scan_digits_length s acc count v n t :
  scan_digits s acc count = (v, n, t) →
  (count ≤ n)%nat ∧ slen s = (n - count + slen t)%nat.
Proof.
  revert acc count. induction s as [|c s IH]; intros acc count; simpl.
  - intros [= _ <- <-]. simpl. lia.
  - destruct (digit_value c); [|intros [= _ <- <-]; simpl; lia].
    intros [? ?]%IH. lia.
Qed.

Lemma eat_length c s t : eat c s = Some t → slen s = S (slen t).
Proof. destruct s as [|d s]; simpl; [done|]. destruct (Ascii.eqb d c); [|done]. by intros [= ->]. Qed.

Lemma scan_fraction_length m c s m' c' k t :
  scan_fraction m c s = Some (m', c', k, t) → (slen t < slen s)%nat.
Proof.
  unfold scan_fraction. destruct (eat "." s) as [s'|] eqn:He; [|done]. simpl.
  apply eat_length in He. destruct (scan_digits s' m 0) as [[v [|n]] r] eqn:Hs; [done|].
  intros [= _ _ _ <-]. apply scan_digits_length in Hs as [_ Hl]. lia.
Qed.

Lemma scan_sign_length s b t : scan_sign s = (b, t) → (slen t ≤ slen s)%nat.
Proof.
  unfold scan_sign. destruct (eat "-" s) as [s'|] eqn:He; [apply eat_length in He; intros [= _ <-]; lia|].
  destruct (eat "+" s) as [s'|] eqn:Hp; intros [= _ <-]; simpl; [apply eat_length in Hp; lia|done].
Qed.

Lemma scan_exponent_length s e t : scan_exponent s = Some (e, t) → (slen t < slen s)%nat.
Proof.
  unfold scan_exponent.
  destruct (match eat "e" s with Some t => Some t | None => eat "E" s end) as [s'|] eqn:He; [|done].
  assert (slen s = S (slen s')) as Hl.
  { destruct (eat "e" s) as [x|] eqn:Hx; [injection He as ->|]; by eapply eat_length. }
  simpl. destruct (scan_sign s') as [neg r] eqn:Hs. apply scan_sign_length in Hs.
  destruct (scan_digits r 0 0) as [[v [|n]] r'] eqn:Hd; [done|]. intros [= _ <-].
  apply scan_digits_length in Hd as [_ Hd]. lia.
Qed.

Lemma scan_int_length s v n t : scan_int s = Some (v, n, t) → (slen t < slen s)%nat.
Proof.
  unfold scan_int. destruct (eat "0" s) as [s'|] eqn:He.
  - intros [= _ _ <-]. apply eat_length in He. lia.
  - destruct (scan_digits s 0 0) as [[x [|k]] r] eqn:Hd; [done|]. intros [= _ _ <-].
    apply scan_digits_length in Hd as [_ Hd]. lia.
Qed.

Lemma parse_number_length neg s v t : parse_number neg s = Ret (v, t) → (slen t < slen s)%nat.
Proof.
  unfold parse_number. destruct (scan_int s) as [[[m c] s1]|] eqn:Hi; [|done].
  apply scan_int_length in Hi.
  destruct (match scan_fraction m c s1 with Some _ => _ | None => _ end)
    as [[[[m2 c2] frac] s2] hf] eqn:Hf.
  assert (slen s2 ≤ slen s1)%nat as Hl.
  { destruct (scan_fraction m c s1) as [[[[m' c'] k] r]|] eqn:Hsf; simplify_eq; [|done].
    apply scan_fraction_length in Hsf. lia. }
  destruct (scan_exponent s2) as [[e s3]|] eqn:He.
  - intros [= _ <-]. apply scan_exponent_length in He. lia.
  - destruct hf; [intros [= _ <-]; lia|].
    destruct (MAX_INT_DIGITS <? Z.of_nat c); [done|]. intros [= _ <-]. lia.
Qed.

Lemma scan_hex4_length s u t : scan_hex4 s = Some (u, t) → slen s = (4 + slen t)%nat.
Proof.
  unfold scan_hex4. destruct s as [|a [|b [|c [|d s]]]]; try done.
  destruct (hex_digit_value a), (hex_digit_value b), (hex_digit_value c), (hex_digit_value d);
    simpl; try done. by intros [= _ <-].
Qed.

Lemma scan_unicode_length s u t : scan_unicode s = Some (u, t) → (slen t < slen s)%nat.
Proof.
  unfold scan_unicode. destruct (scan_hex4 s) as [[x s1]|] eqn:Hx; [|done]. simpl.
  apply scan_hex4_length in Hx.
  destruct ((55296 <=? x) && (x <=? 56319)); [|intros [= _ <-]; lia].
  destruct (eat backslash s1 ≫= eat "u") as [s2|] eqn:He; [|intros [= _ <-]; lia].
  destruct (scan_hex4 s2) as [[v s3]|] eqn:Hv; [|done]. simpl. apply scan_hex4_length in Hv.
  destruct (eat backslash s1) as [r|] eqn:Hb; [|done]. simpl in He.
  apply eat_length in Hb, He.
  destruct ((56320 <=? v) && (v <=? 57343)); intros [= _ <-]; lia.
Qed.

Lemma parse_string_length fuel s str t : parse_string fuel s = Ret (str, t) → (slen t < slen s)%nat.
Proof.
  revert s str t. induction fuel as [|n IH]; intros s str t; simpl; [done|].
  destruct s as [|c s]; [done|]. destruct (Ascii.eqb c quote); [intros [= _ <-]; simpl; lia|].
  assert (∀ r x, (slen r ≤ slen s)%nat →
    ('(rest, t') ← parse_string n r; Ret ((x rest : string), t')) = Ret (str, t) →
    (slen t < slen (String c s))%nat) as Hstep.
  { intros r x Hr. destruct (parse_string n r) as [[y t']|e] eqn:Hp; [|done].
    intros [= _ <-]. apply IH in Hp. simpl. lia. }
  destruct (Ascii.eqb c backslash).
  - destruct (eat "u" s) as [s1|] eqn:He.
    + destruct (scan_unicode s1) as [[cp r]|] eqn:Hu; [|done].
      apply eat_length in He. apply scan_unicode_length in Hu.
      apply (Hstep r (λ rest, (utf8_encode cp +:+ rest)%string)). lia.
    + destruct s as [|d s]; [done|]. destruct (simple_escape d) as [x|]; [|done].
      apply (Hstep s (λ rest, String x rest)). simpl. lia.
  - destruct (N_of_ascii c <? 32)%N; [done|]. by apply (Hstep s (λ rest, String c rest)).
Qed.

Lemma parse_literal_length s v t : parse_literal s = Ret (v, t) → (slen t < slen s)%nat.
Proof.
  unfold parse_literal. intros Hp.
  repeat match type of Hp with
  | match strip_prefix ?p s with _ => _ end = _ =>
      let H := fresh in destruct (strip_prefix p s) as [r|] eqn:H;
        [injection Hp as _ <-; apply strip_prefix_length in H; simpl in H; lia|]
  end.
  destruct (eat "-" s) as [r|] eqn:He.
  - apply eat_length in He. apply parse_number_length in Hp. lia.
  - by apply parse_number_length in Hp.
Qed.

Lemma parse_json_length fuel g s v t : parse_json fuel g s = Ret (v, t) → (slen t < slen s)%nat.
Proof.
  revert g s v t. induction fuel as [|n IH]; intros g s v t; [done|].
  destruct g as [|acc|acc]; cbn [parse_json].
  - destruct (eat quote s) as [s'|] eqn:Hq.
    { apply eat_length in Hq. destruct (parse_string _ s') as [[str r]|e] eqn:Hp; [|done].
      intros [= _ <-]. apply parse_string_length in Hp. lia. }
    destruct (eat "{" s) as [s'|] eqn:Ho.
    { apply eat_length in Ho. pose proof (skip_ws_length s').
      destruct (eat "}" (skip_ws s')) as [r|] eqn:Hc.
      - apply eat_length in Hc. intros [= _ <-]. lia.
      - intros Hm%IH. lia. }
    destruct (eat "[" s) as [s'|] eqn:Hl; [|apply parse_literal_length].
    apply eat_length in Hl. pose proof (skip_ws_length s').
    destruct (eat "]" (skip_ws s')) as [r|] eqn:Hc.
    + apply eat_length in Hc. intros [= _ <-]. lia.
    + intros Hm%IH. lia.
  - destruct (parse_json n GValue s) as [[x r]|e] eqn:Hv; [|done]. apply IH in Hv. simpl.
    pose proof (skip_ws_length r).
    destruct (eat "]" (skip_ws r)) as [r'|] eqn:Hc.
    { apply eat_length in Hc. intros [= _ <-]. lia. }
    destruct (eat "," (skip_ws r)) as [r'|] eqn:Hc'; [|done]. apply eat_length in Hc'.
    pose proof (skip_ws_length r'). intros Hm%IH. lia.
  - destruct (eat quote s) as [s'|] eqn:Hq; [|done]. apply eat_length in Hq.
    destruct (parse_string _ s') as [[key r]|e] eqn:Hp; [|done]. apply parse_string_length in Hp.
    simpl. pose proof (skip_ws_length r).
    destruct (eat ":" (skip_ws r)) as [r1|] eqn:Hcol; [|done]. apply eat_length in Hcol.
    pose proof (skip_ws_length r1).
    destruct (parse_json n GValue (skip_ws r1)) as [[x r2]|e] eqn:Hv; [|done]. apply IH in Hv.
    simpl. pose proof (skip_ws_length r2).
    destruct (eat "}" (skip_ws r2)) as [r'|] eqn:Hc.
    { apply eat_length in Hc. intros [= _ <-]. lia. }
    destruct (eat "," (skip_ws r2)) as [r'|] eqn:Hc'; [|done]. apply eat_length in Hc'.
    pose proof (skip_ws_length r'). intros Hm%IH. lia.
Qed.

(** ** The fuel is enough *)

Definition fuel_needed (g : parse_goal) (s : string) : nat :=
  match g with GElements _ => 2 * slen s + 2 | _ => 2 * slen s + 1 end.

Lemma parse_json_fuel f1 f2 g s :
  (fuel_needed g s ≤ f1)%nat → (fuel_needed g s ≤ f2)%nat → parse_json f1 g s = parse_json f2 g s.
Proof.
  revert f2 g s. induction f1 as [|n IH]; intros [|n2] g s Hf1 Hf2.
  1-3: destruct g; simpl in *; lia.
  destruct g as [|acc|acc]; cbn [parse_json]; unfold fuel_needed in Hf1, Hf2.
  - destruct (eat quote s) as [s'|]; [done|].
    destruct (eat "{" s) as [s'|] eqn:Ho.
    { apply eat_length in Ho. pose proof (skip_ws_length s').
      destruct (eat "}" (skip_ws s')); [done|]. apply IH; unfold fuel_needed; lia. }
    destruct (eat "[" s) as [s'|] eqn:Hl; [|done].
    apply eat_length in Hl. pose proof (skip_ws_length s').
    destruct (eat "]" (skip_ws s')); [done|]. apply IH; unfold fuel_needed; lia.
  - rewrite (IH n2 GValue s) by (unfold fuel_needed; lia).
    destruct (parse_json n2 GValue s) as [[x r]|e] eqn:Hv; [|done]. simpl.
    apply parse_json_length in Hv. pose proof (skip_ws_length r).
    destruct (eat "]" (skip_ws r)); [done|].
    destruct (eat "," (skip_ws r)) as [r'|] eqn:Hc'; [|done]. apply eat_length in Hc'.
    pose proof (skip_ws_length r'). apply IH; unfold fuel_needed; lia.
  - destruct (eat quote s) as [s'|] eqn:Hq; [|done]. apply eat_length in Hq.
    destruct (parse_string _ s') as [[key r]|e] eqn:Hp; [|done]. apply parse_string_length in Hp.
    simpl. pose proof (skip_ws_length r).
    destruct (eat ":" (skip_ws r)) as [r1|] eqn:Hcol; [|done]. apply eat_length in Hcol.
    pose proof (skip_ws_length r1).
    rewrite (IH n2 GValue (skip_ws r1)) by (unfold fuel_needed; lia).
    destruct (parse_json n2 GValue (skip_ws r1)) as [[x r2]|e] eqn:Hv; [|done].
    apply parse_json_length in Hv. simpl. pose proof (skip_ws_length r2).
    destruct (eat "}" (skip_ws r2)); [done|].
    destruct (eat "," (skip_ws r2)) as [r'|] eqn:Hc'; [|done]. apply eat_length in Hc'.
    pose proof (skip_ws_length r'). apply IH; unfold fuel_needed; lia.
Qed.

(** Any larger fuel gives the same answer. *)
Lemma json_loads_fuel s fuel :
  (2 * slen s + 2 ≤ fuel)%nat →
  strip_prefix (of_codes [239; 187; 191]%N) s = None →
  json_loads s =
    ('(v, t) ← parse_json fuel GValue (skip_ws s);
     match skip_ws t with EmptyString => Ret v | _ => Raise JSONDecodeError end).
Proof.
  intros Hf Hbom. unfold json_loads. rewrite Hbom. pose proof (skip_ws_length s).
  rewrite (parse_json_fuel (2 * slen s + 2) fuel); [done|unfold fuel_needed; lia..].
Qed.
