(* ===== verification/PyInt.v ===== *)
(** * [int(s)]

    An optional sign, then digits with single underscores between them, white
    space around.  The decimal digits beyond ASCII are Unicode data, a
    parameter; [int] of bytes takes none. *)

From Stdlib Require Import ZArith Lia Ascii String.
From S2P Require Import Prelude PyStr Json.

Class UnicodeDigits : Type := digit_beyond_ascii : Z → option Z.

Definition ascii_digit (c : Z) : option Z := if (48 <=? c) && (c <=? 57) then Some (c - 48) else None.
Definition unicode_digit `{UnicodeDigits} (c : Z) : option Z := if c <? 128 then ascii_digit c else digit_beyond_ascii c.

Definition bad_int : exn := ValueError "invalid literal for int() with base 10".

Section digits.
Context (base : Z) (digit : Z → option Z).

(** The value and the number of digits; an underscore only between two. *)
Fixpoint int_digits (l : list Z) (after_digit : bool) (acc count : Z) : option (Z * Z) :=
  match l with
  | [] => if after_digit then Some (acc, count) else None
  | c :: l' =>
      match digit c with
      | Some d => int_digits l' true (base * acc + d) (count + 1)
      | None => if (c =? 95) && after_digit then int_digits l' false acc count else None
      end
  end.

Definition take_sign (l : list Z) : Z * list Z :=
  match l with
  | c :: l' => if c =? 45 then (-1, l') else if c =? 43 then (1, l') else (1, l)
  | [] => (1, [])
  end.

Definition signed_int (l : list Z) : res Z :=
  let '(sign, digits) := take_sign l in
  match int_digits digits false 0 0 with
  | Some (v, count) => if MAX_INT_DIGITS <? count then Raise (ValueError "Exceeds the limit (4300 digits) for integer string conversion")
                       else Ret (sign * v)
  | None => Raise bad_int
  end.
End digits.

Definition py_int `{UnicodeDigits} (s : string) : res Z := signed_int 10 unicode_digit (code_points (strip s)).

(** bytes: ASCII white space and digits. *)
Definition ascii_space (c : Z) : bool := (c =? 32) || ((9 <=? c) && (c <=? 13)).
Fixpoint strip_left (l : list Z) : list Z :=
  match l with c :: l' => if ascii_space c then strip_left l' else l | [] => [] end.
Definition int_of_bytes (b : list Z) : res Z := signed_int 10 ascii_digit (rev (strip_left (rev (strip_left b)))).

#[local] Instance no_more_digits : UnicodeDigits := λ _, None.
Example ints : map py_int [" -12 "; "1_000"; "+7"; "1__0"; "_1"; "1_"; ""; "- 1"; "12a"]%string =
  [Ret (-12); Ret 1000; Ret 7; Raise bad_int; Raise bad_int; Raise bad_int; Raise bad_int; Raise bad_int; Raise bad_int].
Proof. vm_compute. reflexivity. Qed.
