(* ===== verification/PyUuid.v ===== *)
(** * [uuid.UUID(s)]

    The whole constructor on a string, for ids a client sends: the [urn:] and
    [uuid:] prefixes, braces and dashes are dropped wherever they stand, 32
    characters must remain, and [int(hex, 16)] reads them. On a string of hex
    digits and dashes it is [uuid_parse]. *)

From Stdlib Require Import ZArith Lia Ascii String.
From S2P Require Import Prelude PyStr Json PyInt Digest.

(** [s.replace(p, "")]; every step uses up a character. *)
Fixpoint remove_all_go (fuel : nat) (p s : string) : string :=
  match fuel with
  | O => s
  | S n =>
      match strip_prefix p s with
      | Some r => remove_all_go n p r
      | None => match s with String c s' => String c (remove_all_go n p s') | EmptyString => EmptyString end
      end
  end.
Definition remove_all (p s : string) : string := remove_all_go (String.length s) p s.

Section uuid.
Context `{UnicodeDigits}.

Definition hex_digit_of (c : Z) : option Z :=
  match unicode_digit c with
  | Some d => Some d
  | None => if (97 <=? c) && (c <=? 102) then Some (c - 87) else if (65 <=? c) && (c <=? 70) then Some (c - 55) else None
  end.

(** [0x] and one underscore after it. *)
Definition drop_hex_prefix (l : list Z) : list Z :=
  match l with
  | a :: b :: l' =>
      if (a =? 48) && ((b =? 120) || (b =? 88))
      then match l' with c :: l'' => if c =? 95 then l'' else l' | [] => [] end
      else l
  | _ => l
  end.

(** [int(s, 16)]. *)
Definition int_base_16 (s : string) : res Z :=
  let '(sign, l) := take_sign (code_points (strip s)) in
  match int_digits 16 hex_digit_of (drop_hex_prefix l) false 0 0 with
  | Some (v, _) => Ret (sign * v)
  | None => Raise (ValueError "invalid literal for int() with base 16")
  end.

Definition py_uuid (s : string) : res uuid :=
  let hex := remove_char "-" (strip_chars "{}" (remove_all "uuid:" (remove_all "urn:" s))) in
  if (length (code_points hex) =? 32)%nat then
    u ← int_base_16 hex;
    if (0 <=? u) && (u <? uuid_end) then Ret u else Raise (ValueError "int is out of range (need a 128-bit value)")
  else Raise (ValueError "badly formed hexadecimal UUID string").
End uuid.

Example py_uuid_forms (D := no_more_digits) :
  map py_uuid ["{00000000-0000-0000-0000-00000000002A}"; "urn:uuid:0000000000000000000000000000002a"; "+00000000_0000_00000000000000_2a"; "0x_000000000000000000000000002a "; "7"]%string =
  [Ret 42; Ret 42; Ret 42; Ret 42; Raise (ValueError "badly formed hexadecimal UUID string")].
Proof. vm_compute. reflexivity. Qed.

(** ** On hex digits and dashes *)

Definition hexish (c : ascii) : Prop := is_Some (hex_value c).
Definition all_hex (s : string) : Prop := Forall hexish (list_ascii_of_string s).
Definition code_of (c : ascii) : Z := Z.of_N (N_of_ascii c).

Lemma parse_hex_all acc s v : parse_hex acc s = Some v → all_hex s.
Proof.
  revert acc. induction s as [|c s IH]; intros acc; cbn; [by constructor|]. destruct (hex_value c) as [d|] eqn:Hd; [|done].
  intros Hs. constructor; [by eexists|by eapply IH].
Qed.

Lemma parse_hex_bound acc s v : parse_hex acc s = Some v → 0 ≤ acc → 0 ≤ v < (acc + 1) * 16 ^ Z.of_nat (String.length s).
Proof.
  revert acc. induction s as [|c s IH]; intros acc; cbn [parse_hex String.length].
  { intros [= <-]. change (16 ^ Z.of_nat 0) with 1. lia. }
  destruct (hex_value c) as [d|] eqn:Hd; [|done]. assert (0 ≤ d < 16) as Hb.
  { unfold hex_value in Hd. repeat case_match; simplify_eq; try done; rewrite ?andb_true_iff, ?Z.leb_le in *; lia. }
  intros Hs Hacc. destruct (IH _ Hs ltac:(lia)) as [H0 H1]. rewrite Nat2Z.inj_succ, Z.pow_succ_r by lia.
  pose proof (Z.pow_pos_nonneg 16 (Z.of_nat (String.length s)) ltac:(lia) ltac:(lia)). split; [done|]. nia.
Qed.

(** What holds of each of the 22 hex digits. *)
Definition starts_other (c : ascii) (w : string) : bool := match w with String d _ => negb (Ascii.eqb d c) | EmptyString => false end.
Definition hex_facts (c : ascii) : bool :=
  match hex_value c with
  | Some d => (code_of c <? 128) && negb (mem_char c ":{}-+xX") && forallb (starts_other c) whitespace && forallb (starts_other c) (map rev_string whitespace) &&
      match ascii_digit (code_of c) with
      | Some d' => d' =? d
      | None => if (97 <=? code_of c) && (code_of c <=? 102) then code_of c - 87 =? d else (65 <=? code_of c) && (code_of c <=? 70) && (code_of c - 55 =? d)
      end
  | None => true
  end.

Lemma hex_facts_hold c : hex_facts c = true.
Proof. destruct c as [[] [] [] [] [] [] [] []]; vm_compute; reflexivity. Qed.

Lemma hexish_facts c d : hex_value c = Some d →
  code_of c < 128 ∧ mem_char c ":{}-+xX" = false ∧ forallb (starts_other c) whitespace = true ∧ forallb (starts_other c) (map rev_string whitespace) = true ∧
  ∀ `{UnicodeDigits}, hex_digit_of (code_of c) = Some d.
Proof.
  intros Hd. pose proof (hex_facts_hold c) as H. unfold hex_facts in H. rewrite Hd, !andb_true_iff, negb_true_iff, Z.ltb_lt in H.
  destruct H as ((((Hlt & Hm) & Hw) & Hr) & Hv). split_and!; [done|done|done|done|]. intros HU. unfold hex_digit_of, unicode_digit.
  rewrite (proj2 (Z.ltb_lt _ _) Hlt). destruct (ascii_digit (code_of c)); [f_equal; lia|].
  destruct ((97 <=? code_of c) && (code_of c <=? 102)); [f_equal; lia|]. apply andb_true_iff in Hv as [-> Hv]. f_equal. lia.
Qed.

Lemma drop_one_other c s ws : forallb (starts_other c) ws = true → drop_one ws (String c s) = None.
Proof.
  induction ws as [|w ws IH]; cbn; [done|]. intros [Hw Hws]%andb_true_iff. destruct w as [|d w]; [done|]. cbn in *.
  apply negb_true_iff in Hw. by rewrite Hw, IH.
Qed.

Lemma lstrip_go_other c s n ws : forallb (starts_other c) ws = true → lstrip_go n ws (String c s) = String c s.
Proof. intros Hc. destruct n as [|n]; [done|]. cbn. by rewrite drop_one_other. Qed.

Lemma rev_string_involutive s : rev_string (rev_string s) = s.
Proof. unfold rev_string. by rewrite list_ascii_of_string_of_list_ascii, rev_involutive, string_of_list_ascii_of_string. Qed.

Lemma all_hex_rev s : all_hex s → all_hex (rev_string s).
Proof. unfold all_hex, rev_string. rewrite list_ascii_of_string_of_list_ascii. intros Hs. by apply Forall_rev. Qed.

(** Nothing to strip from hex digits. *)
Lemma strip_hex s : all_hex s → strip s = s.
Proof.
  intros Hs. unfold strip, lstrip. assert (lstrip_go (String.length s) whitespace s = s) as ->.
  { destruct s as [|c s]; [done|]. apply Forall_cons in Hs as [[d Hd] _]. apply lstrip_go_other. by apply (hexish_facts c d). }
  unfold rstrip. apply all_hex_rev in Hs. destruct (rev_string s) as [|c r] eqn:Hr.
  - rewrite <- (rev_string_involutive s), Hr. by destruct (String.length _).
  - apply Forall_cons in Hs as [[d Hd] _]. rewrite lstrip_go_other by (by apply (hexish_facts c d)). by rewrite <- Hr, rev_string_involutive.
Qed.

Lemma code_points_hex s : all_hex s → code_points s = map code_of (list_ascii_of_string s).
Proof.
  unfold code_points. induction s as [|c s IH]; intros Hs; [done|]. apply Forall_cons in Hs as [[d Hd] Hs].
  destruct (hexish_facts c d Hd) as (Hlt & _). cbn [String.length utf8_decode list_ascii_of_string map].
  fold (code_of c). destruct (Z.ltb_spec (code_of c) 192); [|lia]. by rewrite IH.
Qed.

Lemma int_digits_hex `{UnicodeDigits} s v after acc count : s ≠ EmptyString ∨ after = true → parse_hex acc s = Some v →
  ∃ n, int_digits 16 hex_digit_of (map code_of (list_ascii_of_string s)) after acc count = Some (v, n).
Proof.
  revert acc count after. induction s as [|c s IH]; intros acc count after Hne; cbn [parse_hex list_ascii_of_string map int_digits].
  - intros [= <-]. destruct Hne as [| ->]; [done|by eexists].
  - destruct (hex_value c) as [d|] eqn:Hd; [|done]. intros Hs. destruct (hexish_facts c d Hd) as (_ & _ & _ & _ & Hdig).
    rewrite Hdig. apply IH; [by right|done].
Qed.

Lemma strip_prefix_mem p s r c : strip_prefix p s = Some r → mem_char c p = true → mem_char c s = true.
Proof.
  revert s. induction p as [|a p IH]; intros s; [done|]. destruct s as [|b s]; [done|]. cbn.
  destruct (Ascii.eqb_spec a b) as [->|]; [|done]. intros Hs [Hb|Hc]%orb_true_iff; [by rewrite Hb|]. rewrite (IH s Hs Hc). apply orb_true_r.
Qed.

Lemma remove_all_none p s c : mem_char c p = true → mem_char c s = false → remove_all p s = s.
Proof.
  intros Hp. unfold remove_all. generalize (String.length s) as n. intros n. revert s.
  induction n as [|n IH]; intros s Hs; [done|]. cbn [remove_all_go].
  destruct (strip_prefix p s) as [r|] eqn:Hr; [by rewrite (strip_prefix_mem _ _ _ _ Hr Hp) in Hs|].
  destruct s as [|d s]; [done|]. cbn in Hs. apply orb_false_elim in Hs as [_ Hs]. by rewrite IH.
Qed.

Lemma lstrip_chars_none chars s : (∀ c, mem_char c chars = true → mem_char c s = false) → lstrip_chars chars s = s.
Proof.
  intros Hs. destruct s as [|c s]; [done|]. cbn. destruct (mem_char c chars) eqn:Hc; [|done].
  specialize (Hs c Hc). cbn in Hs. by rewrite Ascii.eqb_refl in Hs.
Qed.

Lemma mem_char_elem c s : mem_char c s = true ↔ c ∈ list_ascii_of_string s.
Proof.
  induction s as [|d s IH]; cbn; [split; [done|intros H; by apply not_elem_of_nil in H]|].
  rewrite orb_true_iff, elem_of_cons, IH, Ascii.eqb_eq. naive_solver.
Qed.

Lemma mem_char_rev c s : mem_char c (rev_string s) = mem_char c s.
Proof.
  apply eq_iff_eq_true. rewrite !mem_char_elem. unfold rev_string. rewrite list_ascii_of_string_of_list_ascii, !list_elem_of_In, <- in_rev. done.
Qed.

Lemma strip_chars_none chars s : (∀ c, mem_char c chars = true → mem_char c s = false) → strip_chars chars s = s.
Proof.
  intros Hs. unfold strip_chars. rewrite (lstrip_chars_none chars s Hs). rewrite lstrip_chars_none; [apply rev_string_involutive|].
  intros c Hc. rewrite mem_char_rev. by apply Hs.
Qed.

Lemma remove_dash_hexish s c : all_hex (remove_char "-" s) → mem_char c s = true → c = "-"%char ∨ hexish c.
Proof.
  induction s as [|d s IH]; cbn [remove_char mem_char]; [done|]. intros Hs [Hd|Hc]%orb_true_iff.
  - apply Ascii.eqb_eq in Hd as <-. destruct (Ascii.eqb_spec "-" d) as [<-|]; [by left|]. right. by apply Forall_cons in Hs as [? _].
  - apply IH; [|done]. destruct (Ascii.eqb "-" d); [done|]. by apply Forall_cons in Hs as [_ ?].
Qed.

Lemma hexish_not c : c = "-"%char ∨ hexish c → mem_char c ":{}" = false.
Proof.
  intros [->|[d Hd]]; [done|]. destruct (hexish_facts c d Hd) as (_ & Hm & _). cbn in Hm |- *.
  rewrite !orb_false_iff in Hm |- *. tauto.
Qed.

Lemma length_list_ascii s : length (list_ascii_of_string s) = String.length s.
Proof. induction s; cbn; congruence. Qed.

Lemma py_uuid_parse `{UnicodeDigits} s u : uuid_parse s = Ret u → py_uuid s = Ret u.
Proof.
  unfold uuid_parse, py_uuid. set (hex := remove_char "-" s).
  destruct (Nat.eqb_spec (String.length hex) 32) as [Hlen|]; [|done]. destruct (parse_hex 0 hex) as [v|] eqn:Hp; [|done]. intros [= ->].
  pose proof (parse_hex_all _ _ _ Hp) as Hall. assert (∀ c, mem_char c ":{}" = true → mem_char c s = false) as Hnone.
  { intros c Hc. destruct (mem_char c s) eqn:Hs; [|done]. pose proof (hexish_not c (remove_dash_hexish _ _ Hall Hs)). congruence. }
  rewrite !(remove_all_none _ s ":") by (done || by apply Hnone).
  rewrite (strip_chars_none "{}") by (intros c Hc; apply Hnone; cbn in *; by rewrite Hc, orb_true_r).
  fold hex. unfold int_base_16. rewrite strip_hex by done. rewrite code_points_hex by done.
  rewrite length_map, length_list_ascii, Hlen. cbn [Nat.eqb].
  assert (∀ c, c ∈ list_ascii_of_string hex → code_of c ≠ 45 ∧ code_of c ≠ 43 ∧ code_of c ≠ 120 ∧ code_of c ≠ 88) as Hplain.
  { intros c Hc. unfold all_hex in Hall. rewrite list.Forall_forall in Hall. destruct (Hall c Hc) as [d Hd].
    destruct (hexish_facts c d Hd) as (_ & Hm & _). rewrite <- (ascii_N_embedding c) in Hm. unfold code_of.
    split_and!; intros Hcode; assert (N_of_ascii c = Z.to_N (Z.of_N (N_of_ascii c))) as Hn by lia; rewrite Hcode in Hn; rewrite Hn in Hm; done. }
  assert (take_sign (map code_of (list_ascii_of_string hex)) = (1, map code_of (list_ascii_of_string hex))) as ->.
  { destruct hex as [|c hex']; [done|]. cbn [list_ascii_of_string map take_sign]. destruct (Hplain c ltac:(by left)) as (H1 & H2 & _).
    by rewrite (proj2 (Z.eqb_neq _ _) H1), (proj2 (Z.eqb_neq _ _) H2). }
  assert (drop_hex_prefix (map code_of (list_ascii_of_string hex)) = map code_of (list_ascii_of_string hex)) as ->.
  { destruct hex as [|a [|b hex']]; [done|done|]. cbn [list_ascii_of_string map drop_hex_prefix].
    destruct (Hplain b ltac:(by right; left)) as (_ & _ & H1 & H2).
    by rewrite (proj2 (Z.eqb_neq _ _) H1), (proj2 (Z.eqb_neq _ _) H2), andb_false_r. }
  destruct (int_digits_hex hex u false 0 0) as [n ->]; [left; by intros ->|done|]. cbn [mbind res_bind].
  destruct (parse_hex_bound _ _ _ Hp ltac:(lia)) as [Hlo Hhi]. rewrite Hlen in Hhi. change ((0 + 1) * 16 ^ Z.of_nat 32) with uuid_end in Hhi.
  rewrite Z.mul_1_l, (proj2 (Z.leb_le _ _) Hlo), (proj2 (Z.ltb_lt _ _) Hhi). done.
Qed.

Lemma py_uuid_str `{UnicodeDigits} u : uuid_ok u → py_uuid (uuid_str u) = Ret u.
Proof. intros Hu. by apply py_uuid_parse, uuid_parse_str. Qed.
