(* ===== verification/MagDomain.v ===== *)
(** * MAG domain: entities and ports

    mag/domain/entities.py and ports.py, with the ISO form of a timestamp that
    prompts and graph properties use.  Every store is a class over its state;
    Postgres, Qdrant, Neo4j and Redis stay behind these interfaces. *)

From Stdlib Require Import ZArith Lia Ascii String Floats.SpecFloat.
From S2P Require Import Prelude PyFloat PyTime PyStr Json.

(** ** [datetime.isoformat] in UTC *)

(** Days since 0001-01-01 to a proleptic Gregorian (year, month, day), counting
    years from March so that the leap day comes last. *)
Definition civil_of_days (n : Z) : Z * Z * Z :=
  let z := n + 306 in
  let era := z / 146097 in
  let doe := z mod 146097 in
  let yoe := (doe - doe / 1460 + doe / 36524 - doe / 146096) / 365 in
  let doy := doe - (365 * yoe + yoe / 4 - yoe / 100) in
  let mp := (5 * doy + 2) / 153 in
  let d := doy - (153 * mp + 2) / 5 + 1 in
  let m := if mp <? 10 then mp + 3 else mp - 9 in
  let y := yoe + era * 400 + (if m <=? 2 then 1 else 0) in
  (y, m, d).

(** A number padded with zeros to [width] digits. *)
Definition pad (width : nat) (n : Z) : string :=
  let s := show_nat n in (zeros (width - String.length s) +:+ s)%string.

Definition iso_with (sep : string) (t : datetime) : string :=
  let '(y, m, d) := civil_of_days (t / us_day) in
  let r := t mod us_day in
  let us := r mod us_second in
  let s := r / us_second in
  let frac := if us =? 0 then EmptyString else ("." +:+ pad 6 us)%string in
  (pad 4 y +:+ "-" +:+ pad 2 m +:+ "-" +:+ pad 2 d +:+ sep +:+ pad 2 (s / 3600) +:+ ":" +:+
    pad 2 (s / 60 mod 60) +:+ ":" +:+ pad 2 (s mod 60) +:+ frac +:+ "+00:00")%string.

Definition isoformat : datetime → string := iso_with "T".
Definition str_datetime : datetime → string := iso_with " ".

(** ** Entities *)

Abbreviation jdict := (list (string * json)) (only parsing).

Record EpisodicMemory : Type := mkEpisode {
  ep_id : uuid;
  ep_session_id : uuid;
  ep_content : jdict;
  ep_embedding : list f64;
  ep_timestamp : datetime;
  ep_salience_score : f64;
  ep_consolidated_at : option datetime
}.

Record SemanticMemory : Type := mkFact {
  sm_id : uuid;
  sm_user_id : uuid;
  sm_fact_key : string;
  sm_fact_value : string;
  sm_embedding : list f64;
  sm_confidence : f64;
  sm_source : string;
  sm_valid_until : option datetime;
  sm_archived_at : option datetime
}.

Record WorkingMemoryTurn : Type := mkTurn {
  wt_role : string;
  wt_content : string;
  wt_recorded_at : datetime;
  wt_metadata : jdict
}.

Record ScoredEpisode : Type := mkScoredEpisode {
  se_episode : EpisodicMemory;
  se_score : f64
}.

Record ScoredFact : Type := mkScoredFact {
  sf_fact : SemanticMemory;
  sf_score : f64
}.

(** A graph property: JSON, or a datetime the repository has deserialized. *)
Inductive prop_value : Type :=
  | PJson (v : json)
  | PDatetime (t : datetime).

Record ActivatedNode : Type := mkNode {
  an_node_id : string;
  an_node_type : string;
  an_properties : list (string * prop_value);
  an_activation : f64;
  an_hops : Z
}.

Inductive Origin : Type :=
  | OEpisode (e : EpisodicMemory)
  | OFact (f : SemanticMemory)
  | ONode (n : ActivatedNode).

Record GatingCandidate : Type := mkCandidate {
  gc_content_text : string;
  gc_score : f64;
  gc_salience : f64;
  gc_timestamp : option datetime;
  gc_source_type : string;
  gc_origin : Origin;
  gc_embedding : list f64
}.

Record ProceduralMemory : Type := mkProcedure {
  pm_id : uuid;
  pm_user_id : uuid;
  pm_task_pattern : string;
  pm_workflow : jdict;
  pm_success_rate : f64;
  pm_last_used : option datetime
}.

Record SemanticMemoryHistoryEntry : Type := mkHistory {
  sh_id : uuid;
  sh_original_fact_id : uuid;
  sh_user_id : uuid;
  sh_fact_key : string;
  sh_fact_value : string;
  sh_confidence : f64;
  sh_source : string;
  sh_operation : string;
  sh_superseded_at : datetime
}.

Record FactEvolutionClassification : Type := mkClassification {
  fe_operation : string;
  fe_reasoning : string
}.

(** ** Ports *)

Class EpisodicMemoryRepository (R : Type) : Type := {
  er_save : EpisodicMemory → uuid → stm R unit;
  er_get_by_session : uuid → uuid → stm R (list EpisodicMemory);
  er_get_unconsolidated_by_session : uuid → uuid → Z → stm R (list EpisodicMemory);
  er_mark_consolidated : list uuid → uuid → stm R unit;
  er_search_by_similarity : list f64 → uuid → Z → stm R (list ScoredEpisode);
  er_get_by_session_in_window : uuid → uuid → datetime → datetime → Z → stm R (list EpisodicMemory);
  er_get_recent_by_session : uuid → uuid → Z → stm R (list EpisodicMemory);
  er_get_by_session_ranked_by_salience : uuid → uuid → Z → stm R (list EpisodicMemory);
  er_get_by_session_matching_entity : uuid → uuid → string → Z → stm R (list EpisodicMemory)
}.

Class SemanticMemoryRepository (R : Type) : Type := {
  fr_save : SemanticMemory → uuid → stm R unit;
  fr_find_by_key : uuid → string → uuid → stm R (option SemanticMemory);
  fr_search_by_similarity : list f64 → uuid → uuid → Z → stm R (list ScoredFact);
  fr_invalidate : uuid → string → uuid → option datetime → stm R datetime;
  fr_archive : uuid → string → uuid → option datetime → stm R datetime;
  fr_save_history_entry : SemanticMemoryHistoryEntry → uuid → stm R unit;
  fr_find_history : uuid → string → uuid → stm R (list SemanticMemoryHistoryEntry)
}.

Class EpisodicMemoryIndex (X : Type) : Type := {
  ei_upsert : EpisodicMemory → uuid → stm X unit;
  ei_search : list f64 → uuid → uuid → Z → stm X (list ScoredEpisode)
}.

Class SemanticMemoryIndex (X : Type) : Type := {
  si_upsert : SemanticMemory → uuid → stm X unit;
  si_search : list f64 → uuid → uuid → Z → stm X (list ScoredFact);
  si_set_valid_until : uuid → uuid → option datetime → stm X unit;
  si_set_archived_at : uuid → uuid → option datetime → stm X unit
}.

Class ProceduralMemoryRepository (R : Type) : Type := {
  pr_save : ProceduralMemory → uuid → stm R unit;
  pr_find_by_task_pattern : uuid → string → uuid → stm R (option ProceduralMemory)
}.

Class WorkingMemoryStore (W : Type) : Type := {
  wm_push_turn : uuid → WorkingMemoryTurn → stm W unit;
  wm_get_recent_turns : uuid → Z → stm W (list WorkingMemoryTurn)
}.

Class MemoryGraphRepository (G : Type) : Type := {
  gr_upsert_episode_node : EpisodicMemory → uuid → stm G unit;
  gr_upsert_fact_node : SemanticMemory → uuid → stm G unit;
  gr_set_fact_valid_until : uuid → uuid → option datetime → stm G unit;
  gr_set_fact_archived_at : uuid → uuid → option datetime → stm G unit;
  gr_link_participated_in : uuid → uuid → uuid → stm G unit;
  gr_link_temporally_follows : uuid → uuid → uuid → stm G unit;
  gr_link_mentions : uuid → json → uuid → stm G unit;
  gr_link_abstracts_to : uuid → uuid → uuid → stm G unit;
  gr_spread_activation : uuid → list string → Z → f64 → f64 → stm G (list ActivatedNode)
}.

(** [WorkingMemoryStore]: recording then reading returns the newest turns, and
    a limit that is not positive returns nothing. *)
Class WorkingMemoryLaws (W : Type) `{WorkingMemoryStore W}
    (turns : W → uuid → list WorkingMemoryTurn) : Prop := {
  wm_push_spec sid t w : ∃ w', wm_push_turn sid t w = (Ret tt, w') ∧
    turns w' sid = turns w sid ++ [t] ∧ ∀ s, s ≠ sid → turns w' s = turns w s;
  wm_recent_spec sid n w : ∃ w', wm_get_recent_turns sid n w
      = (Ret (if n <=? 0 then [] else drop (length (turns w sid) - Z.to_nat n) (turns w sid)), w')
    ∧ ∀ s, turns w' s = turns w s
}.
