(* ===== verification/JsonText.v ===== *)
(** * What [json.dumps] prints, [json.loads] reads

    The round trip of Json.v for every value whose strings are text, whose ints
    are within the interpreter's digit limit and that holds no finite float:
    the scanners read back each token the printer writes and stop where it
    ends, and the parser reads back the nesting. *)

From Stdlib Require Import ZArith Lia Ascii String Floats.SpecFloat.
From S2P Require Import Prelude PyFloat PyStr Json.

(** ** Characters *)

(** A code point UTF-8 can encode. *)
Definition scalar (cp : Z) : bool := (0 <=? cp) && (cp <? 1114112) && negb ((55296 <=? cp) && (cp <=? 57343)).

Definition encode (cps : list Z) : string := foldr (λ cp acc, utf8_encode cp +:+ acc)%string EmptyString cps.

(** Valid UTF-8. *)
Definition text (s : string) : bool := forallb scalar (code_points s) && String.eqb (encode (code_points s)) s.

Lemma sapp_cons (x : ascii) (a b : string) : (String x a +:+ b)%string = String x (a +:+ b)%string.
Proof. done. Qed.

Lemma sapp_nil (b : string) : (EmptyString +:+ b)%string = b.
Proof. done. Qed.

Lemma sapp_assoc (a b c : string) : ((a +:+ b) +:+ c = a +:+ (b +:+ c))%string.
Proof. induction a as [|x a IH]; [done|]. rewrite !sapp_cons. cbn. by rewrite ?IH. Qed.

Lemma sapp_length (a b : string) : slen (a +:+ b)%string = (slen a + slen b)%nat.
Proof. induction a as [|x a IH]; [done|]. rewrite !sapp_cons. cbn. by rewrite ?IH. Qed.

Lemma sapp_nil_r (a : string) : (a +:+ EmptyString)%string = a.
Proof. induction a as [|x a IH]; [done|]. rewrite !sapp_cons. cbn. by rewrite ?IH. Qed.

(** One plain character. *)
Definition plain (cp : Z) : bool := (32 <=? cp) && (cp <? 127) && negb (cp =? 34) && negb (cp =? 92).

Definition plain_char (cp : Z) : bool :=
  let c := ascii_of_N (Z.to_N cp) in
  negb (Ascii.eqb c quote) && negb (Ascii.eqb c backslash) && negb (N_of_ascii c <? 32)%N &&
  String.eqb (utf8_encode cp) (String c EmptyString) && String.eqb (show_char cp) (String c EmptyString).

Lemma small_ints (P : Z → bool) (n : nat) : forallb P (map Z.of_nat (seq 0 n)) = true → ∀ z, 0 ≤ z < Z.of_nat n → P z = true.
Proof.
  intros Hall z Hz. rewrite forallb_forall in Hall. apply Hall. rewrite in_map_iff. exists (Z.to_nat z).
  split; [lia|]. apply in_seq. lia.
Qed.

Lemma plain_chars cp : plain cp = true → plain_char cp = true.
Proof.
  intros Hp. assert (Hall : ∀ z, 0 ≤ z < 127 → implb (plain z) (plain_char z) = true).
  { apply (small_ints (λ z, implb (plain z) (plain_char z)) 127). vm_compute. reflexivity. }
  specialize (Hall cp). rewrite Hp in Hall. apply Hall. unfold plain in Hp. lia.
Qed.

Lemma hex_char_value n : 0 ≤ n < 16 → hex_digit_value (hex_char n) = Some n.
Proof.
  intros Hn. apply (bool_decide_eq_true_1 (hex_digit_value (hex_char n) = Some n)).
  revert n Hn. apply (small_ints (λ n, bool_decide (hex_digit_value (hex_char n) = Some n)) 16). vm_compute. reflexivity.
Qed.

Lemma scan_hex4_escape u t : 0 ≤ u < 65536 →
  scan_hex4 (String (hex_char (u / 4096)) (String (hex_char (u / 256 mod 16)) (String (hex_char (u / 16 mod 16)) (String (hex_char (u mod 16)) t)))) = Some (u, t).
Proof.
  intros Hu. unfold scan_hex4. rewrite !hex_char_value by (first [apply Z.mod_pos_bound; lia|split; [apply Z.div_pos; lia|apply Z.div_lt_upper_bound; lia]]).
  cbn. do 2 f_equal. pose proof (Z.div_mod u 16 ltac:(lia)). pose proof (Z.div_mod (u / 16) 16 ltac:(lia)). pose proof (Z.div_mod (u / 256) 16 ltac:(lia)).
  rewrite !Z.div_div in * by lia. change (16 * 16) with 256 in *. change (256 * 16) with 4096 in *. lia.
Qed.

Definition hex4 (u : Z) (t : string) : string :=
  String (hex_char (u / 4096)) (String (hex_char (u / 256 mod 16)) (String (hex_char (u / 16 mod 16)) (String (hex_char (u mod 16)) t))).

Lemma u_escape_app u t : (u_escape u +:+ t)%string = String backslash (String "u" (hex4 u t)).
Proof. unfold u_escape. by rewrite !sapp_cons, sapp_nil. Qed.

Lemma scan_unicode_plain u t : 0 ≤ u < 65536 → ¬ (55296 ≤ u ≤ 56319) → scan_unicode (hex4 u t) = Some (u, t).
Proof.
  intros Hu Hs. unfold scan_unicode. unfold hex4. rewrite scan_hex4_escape by done. cbn.
  destruct (Z.leb_spec 55296 u), (Z.leb_spec u 56319); cbn; try done; lia.
Qed.

Lemma scan_unicode_pair hi lo t : 0 ≤ hi < 1024 → 0 ≤ lo < 1024 →
  scan_unicode (hex4 (55296 + hi) (String backslash (String "u" (hex4 (56320 + lo) t)))) = Some (65536 + 1024 * hi + lo, t).
Proof.
  intros Hhi Hlo. unfold scan_unicode. unfold hex4 at 1. rewrite scan_hex4_escape by lia. cbn [mbind option_bind].
  destruct (Z.leb_spec 55296 (55296 + hi)), (Z.leb_spec (55296 + hi) 56319); try lia. cbn [andb eat].
  rewrite Ascii.eqb_refl. cbn [mbind option_bind eat]. unfold hex4. cbn [Ascii.eqb Bool.eqb]. rewrite scan_hex4_escape by lia. cbn [mbind option_bind].
  destruct (Z.leb_spec 56320 (56320 + lo)), (Z.leb_spec (56320 + lo) 57343); try lia. cbn [andb]. do 2 f_equal. lia.
Qed.

(** ** Strings *)

(** What stands between the quotes, then [rest]. *)
Definition show_body (cps : list Z) (rest : string) : string := foldr (λ cp acc, (show_char cp +:+ acc)%string) rest cps.

Lemma show_string_app s t : (show_string s +:+ t)%string = String quote (show_body (code_points s) (String quote t)).
Proof.
  unfold show_string, show_body. rewrite sapp_cons. f_equal. induction (code_points s) as [|cp cps IH]; [done|]. cbn [foldr]. by rewrite sapp_assoc, IH.
Qed.

(** One printed character read back. *)
Lemma parse_char cp rest (fuel : nat) : scalar cp = true →
  parse_string (S fuel) (show_char cp +:+ rest) = ('(str, t) ← parse_string fuel rest; Ret ((utf8_encode cp +:+ str)%string, t)).
Proof.
  intros Hcp. destruct (plain cp) eqn:Hp.
  { apply plain_chars in Hp. unfold plain_char in Hp. rewrite !andb_true_iff, !negb_true_iff in Hp. destruct Hp as ((((Hq & Hb) & Hlow) & He) & Hs).
    apply String.eqb_eq in He, Hs. rewrite Hs, He, sapp_cons, sapp_nil. cbn [parse_string]. rewrite Hq, Hb, Hlow.
    destruct (parse_string fuel rest) as [[str t]|e]; [|done]. cbn. by rewrite sapp_cons, sapp_nil. }
  unfold show_char. repeat match goal with |- context [if ?a =? ?b then _ else _] => destruct (Z.eqb_spec a b) as [->|?]; [by rewrite !sapp_cons, sapp_nil|] end.
  unfold scalar in Hcp. unfold plain in Hp. destruct ((32 <=? cp) && (cp <? 127)) eqn:Hr; [lia|].
  destruct (Z.ltb_spec cp 65536).
  - rewrite u_escape_app. cbn [parse_string]. change (Ascii.eqb backslash quote) with false. rewrite Ascii.eqb_refl. cbn [eat Ascii.eqb Bool.eqb].
    rewrite scan_unicode_plain by lia. done.
  - rewrite sapp_assoc, !u_escape_app. cbn [parse_string]. change (Ascii.eqb backslash quote) with false. rewrite Ascii.eqb_refl. cbn [eat Ascii.eqb Bool.eqb].
    pose proof (Z.div_mod (cp - 65536) 1024 ltac:(lia)) as Hdm. pose proof (Z.mod_pos_bound (cp - 65536) 1024 ltac:(lia)).
    rewrite scan_unicode_pair; [|split; [apply Z.div_pos; lia|apply Z.div_lt_upper_bound; lia]|done].
    replace (65536 + 1024 * ((cp - 65536) / 1024) + (cp - 65536) mod 1024) with cp by lia. done.
Qed.

Lemma parse_body cps t (fuel : nat) : forallb scalar cps = true → (length cps < fuel)%nat →
  parse_string fuel (show_body cps (String quote t)) = Ret (encode cps, t).
Proof.
  revert fuel. induction cps as [|cp cps IH]; intros [|fuel] Hcps Hf; cbn [length] in Hf; try lia; [done|].
  cbn in Hcps. apply andb_true_iff in Hcps as [Hcp Hcps]. cbn [show_body foldr]. fold (show_body cps (String quote t)).
  rewrite parse_char by done. rewrite IH by (done || lia). done.
Qed.

Lemma show_char_nonempty cp : (1 ≤ slen (show_char cp))%nat.
Proof. unfold show_char. repeat (case_match; [cbn; lia|]). rewrite u_escape_app. cbn. lia. Qed.

Lemma show_body_length cps rest : (length cps + slen rest ≤ slen (show_body cps rest))%nat.
Proof.
  induction cps as [|cp cps IH]; [done|]. cbn [show_body foldr length]. fold (show_body cps rest). rewrite sapp_length. pose proof (show_char_nonempty cp). lia.
Qed.

Lemma parse_shown s t : text s = true → ∃ s', (show_string s +:+ t)%string = String quote s' ∧ parse_string (slen s') s' = Ret (s, t).
Proof.
  intros [Hs He]%andb_true_iff. apply String.eqb_eq in He. eexists. split; [apply show_string_app|].
  rewrite parse_body; [by rewrite He|done|]. pose proof (show_body_length (code_points s) (String quote t)). cbn in *. lia.
Qed.

(** ** Integers *)

Definition starts_digit (t : string) : bool := match t with String c _ => match digit_value c with Some _ => true | None => false end | EmptyString => false end.

(** What may follow a value: the end, or what closes or separates. *)
Definition delimited (t : string) : Prop := match t with EmptyString => True | String c _ => c = ","%char ∨ c = "]"%char ∨ c = "}"%char end.

Ltac delimited := solve [by left | by right; left | by right; right].

Lemma digit_char_value d : 0 ≤ d < 10 → digit_value (ascii_of_N (Z.to_N (48 + d))) = Some d.
Proof.
  intros Hd. apply (bool_decide_eq_true_1 (digit_value (ascii_of_N (Z.to_N (48 + d))) = Some d)).
  revert d Hd. apply (small_ints (λ d, bool_decide (digit_value (ascii_of_N (Z.to_N (48 + d))) = Some d)) 10). vm_compute. reflexivity.
Qed.

(** The printed digits scan to the number, however they are preceded, and the
    first is a zero only in 0. *)
Lemma scan_digits_go (f : nat) n acc : 0 ≤ n < 2 ^ Z.of_nat f → (0 < f)%nat →
  ∃ k : nat, (0 < k)%nat ∧ slen (digits_go f n acc) = (k + slen acc)%nat ∧
    (∀ v c, scan_digits (digits_go f n acc) v c = scan_digits acc (v * 10 ^ Z.of_nat k + n) (c + k)) ∧
    (n = 0 ∨ eat "0" (digits_go f n acc) = None) ∧ starts_digit (digits_go f n acc) = true.
Proof.
  revert n acc. induction f as [|f IH]; intros n acc Hn Hf; [lia|]. cbn [digits_go].
  pose proof (Z.mod_pos_bound n 10 ltac:(lia)) as Hm. pose proof (Z.div_mod n 10 ltac:(lia)) as Hdm.
  pose proof (digit_char_value _ Hm) as Hd. destruct (Z.ltb_spec n 10).
  - exists 1%nat. rewrite Z.mod_small by lia. rewrite Z.mod_small in Hd by lia. split_and!; [lia|done| | |by cbn; rewrite Hd].
    + intros v c. cbn [scan_digits]. rewrite Hd, Z.pow_1_r. f_equal; lia.
    + destruct (decide (n = 0)); [by left|right]. cbn [eat]. destruct (Ascii.eqb_spec (ascii_of_N (Z.to_N (48 + n))) "0") as [He|]; [|done].
      rewrite He in Hd. injection Hd. lia.
  - destruct (IH (n / 10) (String (ascii_of_N (Z.to_N (48 + n mod 10))) acc)) as (k & Hk & Hl & Hscan & Hz & Hs).
    { split; [apply Z.div_pos; lia|]. apply Z.div_lt_upper_bound; [lia|]. rewrite Nat2Z.inj_succ, Z.pow_succ_r in Hn by lia. lia. }
    { destruct f; [|lia]. cbn in Hn. lia. }
    exists (S k). split_and!; [lia|rewrite Hl; cbn; lia| |destruct Hz as [Hz|Hz]; [|by right]|done].
    + intros v c. rewrite Hscan. cbn [scan_digits]. rewrite Hd, Nat2Z.inj_succ, Z.pow_succ_r by lia. f_equal; lia.
    + assert (0 < n / 10) by (apply Z.div_str_pos; lia). lia.
Qed.

Lemma digits_go_app (f : nat) n acc t : (digits_go f n acc +:+ t)%string = digits_go f n (acc +:+ t)%string.
Proof. revert n acc. induction f as [|f IH]; intros n acc; [done|]. cbn [digits_go]. destruct (n <? 10); [done|]. by rewrite IH, sapp_cons. Qed.

Lemma scan_shown n t : 0 ≤ n → starts_digit t = false →
  ∃ k : nat, (0 < k)%nat ∧ slen (show_nat n) = k ∧ scan_int (show_nat n +:+ t) = Some (n, k, t) ∧ starts_digit (show_nat n +:+ t) = true.
Proof.
  intros Hn Ht. unfold show_nat. rewrite digits_go_app, sapp_nil. set (f := S (Z.to_nat (Z.log2 n))).
  assert (0 ≤ n < 2 ^ Z.of_nat f) as Hf.
  { split; [done|]. unfold f. rewrite Nat2Z.inj_succ, Z2Nat.id by apply Z.log2_nonneg. destruct (decide (n = 0)) as [->|]; [done|]. apply Z.log2_spec. lia. }
  destruct (scan_digits_go f n EmptyString Hf ltac:(lia)) as (k & Hk & Hl & _ & _ & _). change (slen EmptyString) with 0%nat in Hl.
  destruct (scan_digits_go f n t Hf ltac:(lia)) as (k' & Hk' & Hl' & Hscan & Hz & Hs).
  assert (k' = k) as ->.
  { pose proof (sapp_length (digits_go f n EmptyString) t) as H. rewrite digits_go_app, sapp_nil in H. lia. }
  assert (scan_digits t n k = (n, k, t)) as Hstop.
  { destruct t as [|c t]; [done|]. cbn in Ht |- *. by destruct (digit_value c). }
  exists k. split; [done|]. split; [lia|]. split; [|done]. unfold scan_int. destruct Hz as [->|Hz].
  - assert (f = 1%nat) as -> by done. cbn in *. by replace k with 1%nat by lia.
  - rewrite Hz, Hscan, Z.mul_0_l, Z.add_0_l, Nat.add_0_l, Hstop. destruct k; [lia|done].
Qed.

Lemma delimited_no_number t : delimited t → starts_digit t = false ∧ (∀ m c, scan_fraction m c t = None) ∧ scan_exponent t = None.
Proof. destruct t as [|c t]; [done|]. intros [->|[->| ->]]; done. Qed.

Lemma parse_shown_nat neg n t : 0 ≤ n → delimited t → Z.of_nat (slen (show_nat n)) ≤ MAX_INT_DIGITS →
  parse_number neg (show_nat n +:+ t) = Ret (JInt (if neg then - n else n), t).
Proof.
  intros Hn Ht Hlen. destruct (delimited_no_number t Ht) as (Hs & Hf & He). destruct (scan_shown n t Hn Hs) as (k & Hk & Hl & Hscan & _).
  unfold parse_number. rewrite Hscan, Hf, He. cbn. rewrite Hl in Hlen. destruct (Z.ltb_spec MAX_INT_DIGITS (Z.of_nat k)); [lia|done].
Qed.

(** A text that starts with a digit, or a minus and a digit, is a number. *)
Lemma literal_number s : starts_digit s = true → parse_literal s = parse_number false s.
Proof.
  destruct s as [|c s]; [done|]. cbn [starts_digit]. intros Hd.
  assert (c ≠ "n"%char ∧ c ≠ "t"%char ∧ c ≠ "f"%char ∧ c ≠ "N"%char ∧ c ≠ "I"%char ∧ c ≠ "-"%char) as (H1 & H2 & H3 & H4 & H5 & H6).
  { split_and!; intros ->; done. }
  unfold parse_literal. cbn [strip_prefix eat].
  repeat match goal with |- context [Ascii.eqb ?x ?y] => destruct (Ascii.eqb_spec x y); [congruence|] end. done.
Qed.

Lemma literal_negative s : starts_digit s = true → parse_literal (String "-" s) = parse_number true s.
Proof.
  destruct s as [|c s]; [done|]. cbn [starts_digit]. intros Hd. assert (strip_prefix "-Infinity" (String "-" (String c s)) = None) as Hinf.
  { change (strip_prefix _ _) with (if Ascii.eqb "I" c then strip_prefix "nfinity" s else None). by destruct (Ascii.eqb_spec "I" c) as [<-|]. }
  unfold parse_literal. by rewrite Hinf.
Qed.

Lemma parse_shown_Z z t : delimited t → Z.of_nat (slen (show_nat (Z.abs z))) ≤ MAX_INT_DIGITS → parse_literal (show_Z z +:+ t) = Ret (JInt z, t).
Proof.
  intros Ht Hlen. destruct (delimited_no_number t Ht) as (Hs & _). unfold show_Z. destruct (Z.ltb_spec z 0).
  - rewrite sapp_cons. replace (Z.abs z) with (- z) in Hlen by lia. destruct (scan_shown (- z) t ltac:(lia) Hs) as (? & _ & _ & _ & Hd).
    rewrite literal_negative, parse_shown_nat by (done || lia). do 2 f_equal. f_equal. lia.
  - replace (Z.abs z) with z in Hlen by lia. destruct (scan_shown z t ltac:(lia) Hs) as (? & _ & _ & _ & Hd).
    by rewrite literal_number, parse_shown_nat by (done || lia).
Qed.

(** ** Values *)

(** Induction that reaches into lists and objects. *)
Lemma json_deep_ind (P : json → Prop) :
  P JNull → (∀ b, P (JBool b)) → (∀ z, P (JInt z)) → (∀ x, P (JFloat x)) → (∀ s, P (JStr s)) →
  (∀ l, Forall P l → P (JList l)) → (∀ o, Forall (λ kv : string * json, P kv.2) o → P (JObj o)) → ∀ v, P v.
Proof.
  intros Hn Hb Hi Hf Hs Hl Ho. fix IH 1. intros [|b|z|x|s|l|o]; [done|done|done|done|done| |].
  - apply Hl. induction l as [|v l IHl]; constructor; [apply IH|done].
  - apply Ho. induction o as [|[k v] o IHo]; constructor; [apply IH|done].
Qed.

(** The values that survive: text, ints within the digit limit, no finite
    float, and objects whose keys differ. *)
Fixpoint printable (v : json) : bool :=
  match v with
  | JNull | JBool _ => true
  | JInt z => Z.of_nat (slen (show_nat (Z.abs z))) <=? MAX_INT_DIGITS
  | JFloat x => match x with S754_nan | S754_infinity _ => true | _ => false end
  | JStr s => text s
  | JList l => forallb printable l
  | JObj o => bool_decide (NoDup (map fst o)) && forallb (λ kv, text kv.1 && printable kv.2) o
  end.

(** Whatever fuel is enough, the parser reads [v] off [s] and leaves [t]. *)
Definition parses (g : parse_goal) (s : string) (v : json) (t : string) : Prop :=
  ∀ f, (fuel_needed g s ≤ f)%nat → parse_json f g s = Ret (v, t).

Definition visible (s : string) : Prop := match s with String c _ => is_json_space c = false | EmptyString => False end.

Lemma skip_visible s : visible s → skip_ws s = s.
Proof. destruct s as [|c s]; [done|]. cbn. by intros ->. Qed.

Lemma delimited_skip t : delimited t → skip_ws t = t.
Proof. destruct t as [|c t]; [done|]. by intros [->|[->| ->]]. Qed.

Lemma skip_colon s : skip_ws (String ":" s) = String ":" s.
Proof. done. Qed.

Lemma skip_comma s : skip_ws (String "," s) = String "," s.
Proof. done. Qed.

Lemma skip_space s : visible s → skip_ws (String " " s) = s.
Proof. intros Hs. change (skip_ws (String " " s)) with (skip_ws s). by apply skip_visible. Qed.

(** A value's text shows itself, and starts with none of what ends a list or an
    object or with a byte order mark. *)
Definition opens (s : string) : Prop := visible s ∧ eat "]" s = None ∧ eat "}" s = None ∧ eat "239" s = None.

Lemma digit_opens s : starts_digit s = true → opens s.
Proof.
  destruct s as [|c s]; [done|]. cbn [starts_digit]. intros Hd. unfold opens, visible. split.
  - destruct c as [[] [] [] [] [] [] [] []]; try done; vm_compute in Hd; discriminate Hd.
  - cbn [eat]. split_and!; match goal with |- (if Ascii.eqb ?a ?b then _ else _) = _ => by destruct (Ascii.eqb_spec a b) as [->|] end.
Qed.

Lemma show_Z_opens z t : delimited t → opens (show_Z z +:+ t)%string.
Proof.
  intros Ht. apply delimited_no_number in Ht as (Ht & _). unfold show_Z. destruct (Z.ltb_spec z 0); [by rewrite sapp_cons|].
  apply digit_opens. by destruct (scan_shown z t ltac:(lia) Ht) as (? & _ & _ & _ & ?).
Qed.

Lemma dumps_opens v t : printable v = true → delimited t → opens (json_dumps false v +:+ t)%string.
Proof.
  intros Hv Ht. destruct v as [|[]|z|[s|[]| |]|s|l|o]; try done; by apply show_Z_opens.
Qed.

(** The parser's equations, free of fuel. *)
Lemma parses_literal s v t : eat quote s = None → eat "{" s = None → eat "[" s = None → parse_literal s = Ret (v, t) → parses GValue s v t.
Proof. intros Hq Ho Hl Hp [|f] Hf; [cbn in Hf; lia|]. cbn [parse_json]. by rewrite Hq, Ho, Hl. Qed.

Lemma parses_number z t : delimited t → Z.of_nat (slen (show_nat (Z.abs z))) ≤ MAX_INT_DIGITS → parses GValue (show_Z z +:+ t) (JInt z) t.
Proof.
  intros Ht Hlen. pose proof (parse_shown_Z z t Ht Hlen) as Hp. apply delimited_no_number in Ht as (Hs & _).
  assert (∃ c s, (show_Z z +:+ t)%string = String c s ∧ (c = "-"%char ∨ starts_digit (String c s) = true)) as (c & s & He & Hc).
  { unfold show_Z. destruct (Z.ltb_spec z 0); [rewrite sapp_cons; by eauto|]. destruct (scan_shown z t ltac:(lia) Hs) as (? & _ & _ & _ & Hd).
    destruct (show_nat z +:+ t)%string as [|c s]; [done|]. by eauto. }
  rewrite He in Hp |- *. apply parses_literal; [..|done]; cbn [eat]; match goal with |- (if Ascii.eqb ?a ?b then _ else _) = _ => destruct (Ascii.eqb_spec a b) as [->|]; [|done] end; by destruct Hc.
Qed.

Lemma parses_string s t : text s = true → parses GValue (show_string s +:+ t) (JStr s) t.
Proof.
  intros Hs. destruct (parse_shown s t Hs) as (s' & -> & Hp). intros [|f] Hf; [cbn in Hf; lia|]. cbn [parse_json eat]. rewrite Ascii.eqb_refl. by rewrite Hp.
Qed.

Lemma parses_list s v t : eat "]" (skip_ws s) = None → parses (GElements []) (skip_ws s) v t → parses GValue (String "[" s) v t.
Proof.
  intros Hc Hp [|f] Hf; [cbn in Hf; lia|]. cbn [parse_json eat]. change (Ascii.eqb "[" quote) with false. change (Ascii.eqb "[" "{") with false. rewrite Ascii.eqb_refl, Hc.
  apply Hp. pose proof (skip_ws_length s). cbn in *. lia.
Qed.

Lemma parses_object s v t : eat "}" (skip_ws s) = None → parses (GMembers []) (skip_ws s) v t → parses GValue (String "{" s) v t.
Proof.
  intros Hc Hp [|f] Hf; [cbn in Hf; lia|]. cbn [parse_json eat]. change (Ascii.eqb "{" quote) with false. rewrite Ascii.eqb_refl, Hc.
  apply Hp. pose proof (skip_ws_length s). cbn in *. lia.
Qed.

Lemma parses_last_element s v t acc : parses GValue s v (String "]" t) → parses (GElements acc) s (JList (acc ++ [v])) t.
Proof.
  intros Hp [|f] Hf; [cbn in Hf; lia|]. cbn [parse_json]. rewrite Hp by (cbn in *; lia). cbn [mbind res_bind]. by rewrite skip_visible.
Qed.

Lemma parses_element s v t acc w t' : parses GValue s v (String "," (String " " t)) → visible t →
  parses (GElements (acc ++ [v])) t w t' → parses (GElements acc) s w t'.
Proof.
  intros Hp Ht Hrest [|f] Hf; [cbn in Hf; lia|]. cbn [fuel_needed] in Hf.
  assert (parse_json f GValue s = Ret (v, String "," (String " " t))) as Hv by (apply Hp; cbn; lia).
  cbn [parse_json]. rewrite Hv. cbn [mbind res_bind]. rewrite skip_comma. cbn [eat Ascii.eqb Bool.eqb]. rewrite skip_space by done.
  apply Hrest. apply parse_json_length in Hv. cbn in *. lia.
Qed.

Lemma parses_member key s v t acc w t' : text key = true → key ∉ map fst acc →
  parses GValue s v t → visible s →
  match eat "," t with
  | Some t1 => ∃ t2, t1 = String " " t2 ∧ visible t2 ∧ parses (GMembers (acc ++ [(key, v)])) t2 w t'
  | None => t = String "}" t' ∧ w = JObj (acc ++ [(key, v)])
  end →
  parses (GMembers acc) (show_string key +:+ (": " +:+ s)) w t'.
Proof.
  intros Hkey Hfresh Hp Hs Hrest [|f] Hf; [cbn in Hf; lia|]. destruct (parse_shown key (": " +:+ s) Hkey) as (s' & Hsk & Hparse).
  pose proof (parse_string_length _ _ _ _ Hparse) as Hl. rewrite Hsk in Hf |- *. cbn [fuel_needed String.length] in Hf.
  cbn [parse_json eat]. rewrite Ascii.eqb_refl, Hparse. cbn [mbind res_bind]. change (": " +:+ s)%string with (String ":" (String " " s)) in *.
  rewrite skip_colon. cbn [eat Ascii.eqb Bool.eqb]. rewrite skip_space by done.
  cbn [String.length] in Hl.
  assert (parse_json f GValue s = Ret (v, t)) as Hv by (apply Hp; cbn; lia).
  rewrite Hv. cbn [mbind res_bind]. apply parse_json_length in Hv. rewrite od_set_fresh by done.
  destruct (eat "," t) as [t1|] eqn:Hc.
  - destruct Hrest as (t2 & -> & Ht2 & Hrest). destruct t as [|c t]; [done|]. cbn [eat] in Hc. destruct (Ascii.eqb_spec c ",") as [->|]; [|done]. injection Hc as ->.
    rewrite skip_comma. cbn [eat Ascii.eqb Bool.eqb]. rewrite skip_space by done. apply Hrest.
    cbn in *. lia.
  - destruct Hrest as [-> ->]. done.
Qed.

Lemma join_opens v l t : printable v = true → opens (join ", " (map (json_dumps false) (v :: l)) +:+ String "]" t).
Proof.
  intros Hv. destruct l as [|v' l]; cbn [map join]; [|rewrite sapp_assoc]; apply dumps_opens; (done || delimited).
Qed.

(** The rest of a list or an object from an element on. *)
Lemma parses_elements l t acc : l ≠ [] →
  Forall (λ v, printable v = true ∧ ∀ t, delimited t → parses GValue (json_dumps false v +:+ t) v t) l →
  parses (GElements acc) (join ", " (map (json_dumps false) l) +:+ String "]" t) (JList (acc ++ l)) t.
Proof.
  intros Hne Hl. revert acc. induction Hl as [|v l [Hv Hp] Hl IH]; intros acc; [done|]. destruct l as [|v' l].
  - apply parses_last_element, Hp. delimited.
  - cbn [map join]. rewrite sapp_assoc. change (", " +:+ ?x)%string with (String "," (String " " x)). rewrite sapp_cons, sapp_cons.
    eapply parses_element; [apply Hp; delimited| |].
    + inversion Hl as [|? ? [Hv' _] _]; subst. apply (join_opens v' l t Hv').
    + replace (acc ++ v :: v' :: l) with ((acc ++ [v]) ++ v' :: l) by by rewrite <- app_assoc. by apply IH.
Qed.

(** What an object prints, from a member on. *)
Definition show_members (o : list (string * json)) : string :=
  join ", " (map (λ kv, show_string kv.1 +:+ ": " +:+ kv.2)%string (map (λ kv, (kv.1, json_dumps false kv.2)) o)).

Lemma show_member_last k v rest : (show_members [(k, v)] +:+ rest = show_string k +:+ (": " +:+ (json_dumps false v +:+ rest)))%string.
Proof. unfold show_members. cbn [map join fst snd]. by rewrite !sapp_assoc. Qed.

Lemma show_member_more k v kv o rest :
  (show_members ((k, v) :: kv :: o) +:+ rest =
    show_string k +:+ (": " +:+ (json_dumps false v +:+ String "," (String " " (show_members (kv :: o) +:+ rest)))))%string.
Proof. unfold show_members. cbn [map join fst snd]. rewrite !sapp_assoc. done. Qed.

Lemma show_members_opens kv o rest : opens (show_members (kv :: o) +:+ rest).
Proof. destruct kv as [k v], o as [|kv o]; [rewrite show_member_last|rewrite show_member_more]; by rewrite show_string_app. Qed.

Lemma parses_members o t acc : o ≠ [] → NoDup (map fst acc ++ map fst o) →
  Forall (λ kv, text kv.1 = true ∧ printable kv.2 = true ∧ ∀ t, delimited t → parses GValue (json_dumps false kv.2 +:+ t) kv.2 t) o →
  parses (GMembers acc) (show_members o +:+ String "}" t) (JObj (acc ++ o)) t.
Proof.
  intros Hne Hkeys Ho. revert acc Hkeys. induction Ho as [|[k v] o (Hk & Hv & Hp) Ho IH]; intros acc Hkeys; [done|]. cbn [fst snd] in *.
  assert (k ∉ map fst acc) as Hfresh.
  { cbn in Hkeys. apply NoDup_app in Hkeys as (_ & Hd & _). intros Hin. apply (Hd k Hin). constructor. }
  assert (visible (json_dumps false v +:+ String "}" t) ∧ ∀ s, visible (json_dumps false v +:+ String "," s)) as [Hlast Hmore].
  { split; [|intros s]; refine (proj1 (dumps_opens v _ Hv _)); delimited. }
  destruct o as [|[k' v'] o].
  - rewrite show_member_last. by eapply parses_member; [done|done|apply Hp; delimited|done|].
  - rewrite show_member_more. eapply parses_member; [done|done|apply Hp; delimited|done|].
    cbn [eat Ascii.eqb Bool.eqb]. eexists. split; [done|]. split; [apply show_members_opens|].
    pose proof (IH ltac:(done) (acc ++ [(k, v)])) as Hrest. rewrite map_app, <- !app_assoc in Hrest. exact (Hrest Hkeys).
Qed.

(** Every printable value reads back, whatever follows it. *)
Lemma parses_dumps v : printable v = true → ∀ t, delimited t → parses GValue (json_dumps false v +:+ t) v t.
Proof.
  induction v as [|[]|z|x|s|l IH|o IH] using json_deep_ind; intros Hv t Ht; cbn [json_dumps printable] in *.
  1-3: by apply parses_literal.
  - apply parses_number; [done|]. lia.
  - destruct x as [[]|[]| |]; try done; by apply parses_literal.
  - by apply parses_string.
  - rewrite !sapp_assoc, sapp_cons, sapp_nil. destruct l as [|v l].
    { intros [|f] Hf; [cbn in Hf; lia|]. done. }
    assert (printable v = true) as Hfirst by (by apply andb_true_iff in Hv as [? _]).
    change ("]" +:+ t)%string with (String "]" t). destruct (join_opens v l t Hfirst) as (Hs & Hc & _).
    apply parses_list; rewrite skip_visible by done; [done|]. apply parses_elements; [done|]. apply Forall_forall.
    intros w Hw. rewrite Forall_forall in IH. rewrite forallb_forall in Hv. apply list_elem_of_In in Hw as Hw'. auto.
  - apply andb_true_iff in Hv as [Hkeys%bool_decide_eq_true_1 Hv]. rewrite !sapp_assoc, sapp_cons, sapp_nil.
    change (parses GValue (String "{" (show_members o +:+ ("}" +:+ t))) (JObj o) t). destruct o as [|kv o].
    { intros [|f] Hf; [cbn in Hf; lia|]. done. }
    change ("}" +:+ t)%string with (String "}" t). destruct (show_members_opens kv o (String "}" t)) as (Hs & _ & Hc & _).
    apply parses_object; rewrite skip_visible by done; [done|]. apply parses_members; [done|done|]. apply Forall_forall.
    intros w Hw. rewrite Forall_forall in IH. rewrite forallb_forall in Hv. apply list_elem_of_In in Hw as Hw'.
    specialize (Hv _ Hw'). apply andb_true_iff in Hv as [Hk Hv]. auto.
Qed.

(** [json.loads(json.dumps(v)) == v]. *)
Theorem loads_dumps v : printable v = true → json_loads (json_dumps false v) = Ret v.
Proof.
  intros Hv. pose proof (parses_dumps v Hv EmptyString I) as Hp. pose proof (dumps_opens v EmptyString Hv I) as (Hs & _ & _ & Hbom). rewrite sapp_nil_r in *.
  unfold json_loads. rewrite skip_visible by done. rewrite Hp by (cbn; lia).
  assert (strip_prefix (of_codes [239; 187; 191]%N) (json_dumps false v) = None) as ->; [|done].
  destruct (json_dumps false v) as [|c s]; [done|]. cbn [eat] in Hbom. 
  change (strip_prefix _ _) with (if Ascii.eqb "239" c then strip_prefix (of_codes [187; 191]%N) s else None). rewrite Ascii.eqb_sym. by destruct (Ascii.eqb c "239").
Qed.
