(* ===== verification/PyIso.v ===== *)
(** * [datetime.fromisoformat]

    Of the text [isoformat] writes for a UTC time, which is what the program
    stores and reads back.  The other ISO 8601 spellings CPython 3.11 takes,
    other offsets among them, are a parameter. *)

From Stdlib Require Import ZArith Lia Ascii String.
From S2P Require Import Prelude PyTime PyStr Json MagDomain JsonText.

(** ** Days of a date *)

(** The inverse of [civil_of_days]. *)
Definition days_of_civil (y m d : Z) : Z :=
  let y' := if m <=? 2 then y - 1 else y in
  let era := y' / 400 in
  let yoe := y' mod 400 in
  let doy := (153 * (if 2 <? m then m - 3 else m + 9) + 2) / 5 + d - 1 in
  era * 146097 + (yoe * 365 + yoe / 4 - yoe / 100 + doy) - 306.

(** ** The text *)

(** Exactly [n] digits. *)
Fixpoint take_num (n : nat) (s : string) (acc : Z) : option (Z * string) :=
  match n with
  | O => Some (acc, s)
  | S n' =>
      match s with
      | String c s' => d ← digit_value c; take_num n' s' (10 * acc + d)
      | EmptyString => None
      end
  end.

Definition iso_candidate (s : string) : option datetime :=
  '(y, s) ← take_num 4 s 0; s ← eat "-" s;
  '(m, s) ← take_num 2 s 0; s ← eat "-" s;
  '(d, s) ← take_num 2 s 0; s ← eat "T" s;
  '(h, s) ← take_num 2 s 0; s ← eat ":" s;
  '(mi, s) ← take_num 2 s 0; s ← eat ":" s;
  '(sec, s) ← take_num 2 s 0;
  '(us, s) ← match eat "." s with Some s' => take_num 6 s' 0 | None => Some (0, s) end;
  Some (days_of_civil y m d * us_day + (h * 3600 + mi * 60 + sec) * us_second + us).

Class OtherIso : Type := other_iso : string → res datetime.

Definition fromisoformat `{OtherIso} (s : string) : res datetime :=
  match iso_candidate s with
  | Some t => if (0 <=? t) && (t <? datetime_end) && String.eqb (isoformat t) s then Ret t else other_iso s
  | None => other_iso s
  end.

(** ** It reads back what was written *)

Fixpoint all_from (P : Z → bool) (n : nat) (z : Z) : bool := match n with O => true | S n' => P z && all_from P n' (z + 1) end.

Lemma all_from_spec P n z : all_from P n z = true → ∀ x, z ≤ x < z + Z.of_nat n → P x = true.
Proof.
  revert z. induction n as [|n IH]; intros z Hall x Hx; [lia|]. cbn in Hall. apply andb_true_iff in Hall as [Hz Hall].
  destruct (decide (x = z)) as [->|]; [done|]. apply (IH _ Hall). lia.
Qed.

(** The date of a day of an era of 400 years, counted from March. *)
Definition civil_of_doe (doe : Z) : Z * Z * Z :=
  let yoe := (doe - doe / 1460 + doe / 36524 - doe / 146096) / 365 in
  let doy := doe - (365 * yoe + yoe / 4 - yoe / 100) in
  let mp := (5 * doy + 2) / 153 in
  (yoe, if mp <? 10 then mp + 3 else mp - 9, doy - (153 * mp + 2) / 5 + 1).

Definition doe_ok (doe : Z) : bool :=
  let '(yoe, m, d) := civil_of_doe doe in
  (0 <=? yoe) && (yoe <? 400) && (1 <=? m) && (m <=? 12) && (1 <=? d) && (d <=? 31) &&
  (yoe * 365 + yoe / 4 - yoe / 100 + ((153 * (if 2 <? m then m - 3 else m + 9) + 2) / 5 + d - 1) =? doe) &&
  negb ((yoe =? 399) && (m <=? 2) && (doe <? 146037)).

Lemma doe_all doe : 0 ≤ doe < 146097 → doe_ok doe = true.
Proof. intros Hd. apply (all_from_spec doe_ok (Z.to_nat 146097) 0); [vm_compute; reflexivity|lia]. Qed.

Lemma civil_round_trip n : 0 ≤ n < 3652059 →
  let '(y, m, d) := civil_of_days n in 0 ≤ y < 10000 ∧ 1 ≤ m < 13 ∧ 1 ≤ d < 32 ∧ days_of_civil y m d = n.
Proof.
  intros Hn. unfold civil_of_days. set (z := n + 306). pose proof (Z.div_mod z 146097 ltac:(lia)) as Hdm. pose proof (Z.mod_pos_bound z 146097 ltac:(lia)) as Hm.
  pose proof (doe_all (z mod 146097) Hm) as Hok. unfold doe_ok, civil_of_doe in Hok. revert Hok.
  set (doe := z mod 146097) in *. set (era := z / 146097) in *. cbv zeta.
  set (yoe := (doe - doe / 1460 + doe / 36524 - doe / 146096) / 365). set (doy := doe - (365 * yoe + yoe / 4 - yoe / 100)). set (mp := (5 * doy + 2) / 153).
  set (m := if mp <? 10 then mp + 3 else mp - 9). set (d := doy - (153 * mp + 2) / 5 + 1). clearbody m d yoe doe era. clear doy mp.
  rewrite !andb_true_iff, !Z.leb_le, !Z.ltb_lt, Z.eqb_eq, negb_true_iff. intros (((((((Hy0 & Hy1) & Hm0) & Hm1) & Hd0) & Hd1) & Hdays) & Hlast).
  assert (0 ≤ era ≤ 24) as Hera by (unfold z in *; lia).
  assert (yoe + era * 400 + (if m <=? 2 then 1 else 0) < 10000) as Hy.
  { destruct (Z.leb_spec m 2); [|lia]. destruct (Z.eqb_spec yoe 399); [|lia]. cbn in Hlast. destruct (Z.ltb_spec doe 146037); [done|]. unfold z in *. lia. }
  split; [destruct (m <=? 2); lia|]. split; [lia|]. split; [lia|]. unfold days_of_civil.
  assert ((if m <=? 2 then yoe + era * 400 + (if m <=? 2 then 1 else 0) - 1 else yoe + era * 400 + (if m <=? 2 then 1 else 0)) = era * 400 + yoe) as ->
    by (destruct (m <=? 2); lia).
  rewrite Z.div_add_l, Z.div_small, Z.add_0_r by lia. rewrite (Z.add_comm (era * 400)), Z.mod_add, Z.mod_small by lia. rewrite Hdays. unfold z in *. lia.
Qed.

Lemma take_num_go (f : nat) n acc : 0 ≤ n < 2 ^ Z.of_nat f → (0 < f)%nat →
  ∃ k : nat, (0 < k)%nat ∧ slen (digits_go f n acc) = (k + slen acc)%nat ∧
    (∀ w : nat, (0 < w)%nat → n < 10 ^ Z.of_nat w → (k ≤ w)%nat) ∧
    ∀ j v, take_num (k + j) (digits_go f n acc) v = take_num j acc (v * 10 ^ Z.of_nat k + n).
Proof.
  revert n acc. induction f as [|f IH]; intros n acc Hn Hf; [lia|]. cbn [digits_go].
  pose proof (Z.mod_pos_bound n 10 ltac:(lia)) as Hm. pose proof (Z.div_mod n 10 ltac:(lia)) as Hdm.
  pose proof (digit_char_value _ Hm) as Hd. destruct (Z.ltb_spec n 10).
  - exists 1%nat. rewrite Z.mod_small by lia. rewrite Z.mod_small in Hd by lia. split_and!; [lia|done|lia|].
    intros j v. cbn [Nat.add take_num]. rewrite Hd. cbn [mbind option_bind]. rewrite Z.pow_1_r. f_equal. lia.
  - destruct (IH (n / 10) (String (ascii_of_N (Z.to_N (48 + n mod 10))) acc)) as (k & Hk & Hl & Hw & Htake).
    { split; [apply Z.div_pos; lia|]. apply Z.div_lt_upper_bound; [lia|]. rewrite Nat2Z.inj_succ, Z.pow_succ_r in Hn by lia. lia. }
    { destruct f; [|lia]. cbn in Hn. lia. }
    exists (S k). split_and!; [lia|rewrite Hl; cbn; lia| |].
    + intros w Hw0 Hnw. destruct w as [|w]; [lia|]. rewrite Nat2Z.inj_succ, Z.pow_succ_r in Hnw by lia. destruct w as [|w]; [cbn in Hnw; lia|].
      apply le_n_S, (Hw (S w)); [lia|]. apply Z.div_lt_upper_bound; lia.
    + intros j v. replace (S k + j)%nat with (k + S j)%nat by lia. rewrite Htake. cbn [take_num]. rewrite Hd. cbn [mbind option_bind].
      rewrite Nat2Z.inj_succ, Z.pow_succ_r by lia. f_equal. lia.
Qed.

Lemma take_zeros z j s : take_num (z + j) (zeros z +:+ s) 0 = take_num j s 0.
Proof. induction z as [|z IH]; [done|]. cbn [zeros]. rewrite sapp_cons. cbn [Nat.add take_num]. exact IH. Qed.

Lemma take_pad (w : nat) n t : (0 < w)%nat → 0 ≤ n < 10 ^ Z.of_nat w → take_num w (pad w n +:+ t) 0 = Some (n, t).
Proof.
  intros Hw Hn. unfold pad, show_nat. rewrite sapp_assoc, digits_go_app, sapp_nil. set (f := S (Z.to_nat (Z.log2 n))).
  assert (0 ≤ n < 2 ^ Z.of_nat f) as Hf.
  { split; [lia|]. unfold f. rewrite Nat2Z.inj_succ, Z2Nat.id by apply Z.log2_nonneg. destruct (decide (n = 0)) as [->|]; [done|]. apply Z.log2_spec. lia. }
  destruct (take_num_go f n EmptyString Hf ltac:(lia)) as (k & _ & Hl & Hk & _). destruct (take_num_go f n t Hf ltac:(lia)) as (k' & _ & Hl' & _ & Htake).
  change (slen EmptyString) with 0%nat in Hl. specialize (Hk w Hw ltac:(lia)).
  assert (k' = k) as ->.
  { pose proof (sapp_length (digits_go f n EmptyString) t) as H. rewrite digits_go_app, sapp_nil in H. lia. }
  rewrite Hl, Nat.add_0_r. replace w with ((w - k) + (k + 0))%nat at 1 by lia. rewrite take_zeros, Htake. cbn [take_num]. done.
Qed.

Lemma sapp_one c x : (String c EmptyString +:+ x)%string = String c x.
Proof. done. Qed.

Lemma iso_candidate_isoformat t : 0 ≤ t < datetime_end → iso_candidate (isoformat t) = Some t.
Proof.
  intros Ht. unfold isoformat, iso_with. pose proof (Z.div_mod t us_day ltac:(done)) as Hday. pose proof (Z.mod_pos_bound t us_day ltac:(done)) as Hr.
  set (r := t mod us_day) in *. pose proof (Z.div_mod r us_second ltac:(done)) as Hsec. pose proof (Z.mod_pos_bound r us_second ltac:(done)) as Hus.
  set (us := r mod us_second) in *. set (s := r / us_second) in *.
  assert (0 ≤ t / us_day < 3652059) as Hn.
  { split; [apply Z.div_pos; unfold us_day, us_second in *; lia|]. apply Z.div_lt_upper_bound; unfold datetime_end, us_day, us_second in *; lia. }
  assert (0 ≤ s < 86400) as Hs by (unfold us_day, us_second in *; lia).
  pose proof (civil_round_trip _ Hn) as Hcivil. destruct (civil_of_days (t / us_day)) as [[y m] d]. destruct Hcivil as (Hy & Hm & Hd & Hdays).
  pose proof (Z.div_mod s 60 ltac:(lia)) as H60. pose proof (Z.mod_pos_bound s 60 ltac:(lia)). pose proof (Z.div_mod (s / 60) 60 ltac:(lia)) as H3600.
  pose proof (Z.mod_pos_bound (s / 60) 60 ltac:(lia)). rewrite Z.div_div in H3600 by lia. change (60 * 60) with 3600 in H3600.
  assert (0 ≤ s / 3600 < 24) by (split; [apply Z.div_pos; lia|apply Z.div_lt_upper_bound; lia]).
  unfold iso_candidate. rewrite (take_pad 4) by (cbn; lia). rewrite !sapp_one. cbn [mbind option_bind eat Ascii.eqb Bool.eqb mbind option_bind].
  rewrite (take_pad 2) by (cbn; lia). cbn [eat Ascii.eqb Bool.eqb mbind option_bind]. rewrite (take_pad 2) by (cbn; lia). cbn [mbind option_bind].
  cbn [eat Ascii.eqb Bool.eqb mbind option_bind].
  rewrite (take_pad 2) by (cbn; lia). cbn [eat Ascii.eqb Bool.eqb mbind option_bind]. rewrite (take_pad 2) by (cbn; lia). cbn [eat Ascii.eqb Bool.eqb mbind option_bind].
  rewrite (take_pad 2) by (cbn; lia). cbn [mbind option_bind].
  assert (∀ u, u = us → days_of_civil y m d * us_day + (s / 3600 * 3600 + s / 60 mod 60 * 60 + s mod 60) * us_second + u = t) as Hall.
  { intros u ->. rewrite Hdays. replace (s / 3600 * 3600 + s / 60 mod 60 * 60 + s mod 60) with s by lia. lia. }
  destruct (Z.eqb_spec us 0) as [Hzero|Hsome].
  - rewrite sapp_nil. cbn [eat Ascii.eqb Bool.eqb mbind option_bind]. by rewrite Hall.
  - rewrite sapp_cons. cbn [eat Ascii.eqb Bool.eqb mbind option_bind].
    rewrite (take_pad 6) by (unfold us_second in *; cbn; lia). cbn [mbind option_bind]. by rewrite Hall.
Qed.

Lemma fromisoformat_isoformat `{OtherIso} t : 0 ≤ t < datetime_end → fromisoformat (isoformat t) = Ret t.
Proof.
  intros Ht. unfold fromisoformat. rewrite iso_candidate_isoformat by done. rewrite String.eqb_refl.
  destruct (Z.leb_spec 0 t), (Z.ltb_spec t datetime_end); (done || lia).
Qed.
