(* ===== verification/Doubles.v ===== *)
(** * Concrete collaborators

    The smallest implementations of the ports that stand for services outside
    the repository, on which the witnesses run: a chat model that reads its
    replies from a list, an embedding model given by a function, an index and a
    graph that accept every write, or refuse every one. *)

From Stdlib Require Import ZArith Ascii String Floats.SpecFloat.
From S2P Require Import Prelude PyFloat PyTime Json MagDomain RagPorts.

(** Replies in order; the model fails once they run out. *)
Record ScriptedChat : Type := mkScripted { script : list string }.

Definition next_reply : stm ScriptedChat string := λ m,
  match script m with
  | r :: rest => (Ret r, mkScripted rest)
  | [] => (Raise (BackendError "no more replies"), m)
  end.

#[export] Instance scripted_chat : ChatModel ScriptedChat := {|
  cm_generate := λ _ _, next_reply;
  cm_complete := λ _, next_reply
|}.

(** Embeddings by a function of the text's length. *)
Record LengthEmbedder : Type := mkLengthEmbedder { embedder_calls : nat }.

#[export] Instance length_embedder : EmbeddingModel LengthEmbedder := λ text e,
  (Ret [fone; of_Z_raw (Z.of_nat (String.length text))], mkLengthEmbedder (S (embedder_calls e))).

(** A service that takes every write, counting them, or refuses every one. *)
Record Sink : Type := mkSink {
  sink_up : bool;
  sink_writes : nat
}.

Definition sink_down : exn := BackendError "service unavailable".

Definition sink_write : stm Sink unit := λ s,
  if sink_up s then (Ret tt, mkSink true (S (sink_writes s))) else (Raise sink_down, s).

Definition sink_read {A} (a : A) : stm Sink A := λ s,
  if sink_up s then (Ret a, s) else (Raise sink_down, s).

#[export] Instance sink_fact_index : SemanticMemoryIndex Sink := {|
  si_upsert := λ _ _, sink_write;
  si_search := λ _ _ _ _, sink_read [];
  si_set_valid_until := λ _ _ _, sink_write;
  si_set_archived_at := λ _ _ _, sink_write
|}.

#[export] Instance sink_episode_index : EpisodicMemoryIndex Sink := {|
  ei_upsert := λ _ _, sink_write;
  ei_search := λ _ _ _ _, sink_read []
|}.

#[export] Instance sink_graph : MemoryGraphRepository Sink := {|
  gr_upsert_episode_node := λ _ _, sink_write;
  gr_upsert_fact_node := λ _ _, sink_write;
  gr_set_fact_valid_until := λ _ _ _, sink_write;
  gr_set_fact_archived_at := λ _ _ _, sink_write;
  gr_link_participated_in := λ _ _ _, sink_write;
  gr_link_temporally_follows := λ _ _ _, sink_write;
  gr_link_mentions := λ _ _ _, sink_write;
  gr_link_abstracts_to := λ _ _ _, sink_write;
  gr_spread_activation := λ _ _ _ _ _, sink_read []
|}.
