(* ===== verification/LlmJson.v ===== *)
(** * Reading a language model's reply

    mag/infrastructure/_llm_json.py and the validation idioms its callers
    share: subscripting parsed JSON, [float()] of a JSON value, and the bounded
    retry loop around a chat model whose replies may not parse. *)

From Stdlib Require Import ZArith Lia Ascii String Floats.SpecFloat.
From S2P Require Import Prelude PyFloat PyTime PyStr Prompts Json MagDomain RagPorts.

Definition fence : string := "```".

Definition strip_markdown_fence (text : string) : string :=
  let stripped := strip text in
  if startswith fence stripped then
    let lines := splitlines stripped in
    let lines' :=
      match last lines with
      | Some l => if String.eqb (strip l) fence then drop 1 (take (length lines - 1) lines)
                  else drop 1 lines
      | None => drop 1 lines
      end in
    join nl lines'
  else stripped.

(** [format_episodes_for_reflection]: episodes numbered from one. *)
Definition format_episodes_for_reflection (episodes : list EpisodicMemory) : string :=
  let numbered := zip_with (λ i e,
    ("Episode " +:+ show_Z (Z.of_nat i) +:+ " (" +:+ isoformat (ep_timestamp e) +:+ "):" +:+ nl +:+
      json_dumps true (JObj (ep_content e)))%string) (seq 1 (length episodes)) episodes in
  ("Episodes (oldest first):" +:+ nl +:+ nl +:+ join (nl +:+ nl) numbered)%string.

(** ** Python operations on parsed JSON *)

(** [v\[key\]]. *)
Definition json_item (v : json) (key : string) : res json :=
  match v with
  | JObj o => match od_get key o with Some x => Ret x | None => Raise KeyError end
  | _ => Raise (TypeError "subscript")
  end.

(** [d.get(key, default)] on a dict's items. *)
Definition dict_get (key : string) (default_value : json) (o : list (string * json)) : json :=
  default default_value (od_get key o).

Definition is_number (v : json) : bool :=
  match v with JInt _ | JFloat _ => true | _ => false end.

(** Digits with single underscores between them: value, count and rest. *)
Fixpoint scan_float_digits (s : string) (acc : Z) (count : nat) : Z * nat * string :=
  match s with
  | String c s' =>
      match digit_value c with
      | Some d => scan_float_digits s' (10 * acc + d) (S count)
      | None =>
          match s' with
          | String c' s'' =>
              match digit_value c' with
              | Some d => if Ascii.eqb c "_" && (0 <? count)%nat
                          then scan_float_digits s'' (10 * acc + d) (S count)
                          else (acc, count, s)
              | None => (acc, count, s)
              end
          | EmptyString => (acc, count, s)
          end
      end
  | EmptyString => (acc, count, s)
  end.

(** [float(s)] of a str, for ASCII digits. *)
Definition float_of_string (s : string) : res f64 :=
  let bad := Raise (ValueError "could not convert string to float") in
  let t := lower (strip s) in
  let '(neg, t) := scan_sign t in
  if String.eqb t "inf" || String.eqb t "infinity" then Ret (S754_infinity neg)
  else if String.eqb t "nan" then Ret S754_nan
  else
    let '(m, c, t1) := scan_float_digits t 0 0 in
    let '(m2, k, t2) :=
      match eat "." t1 with
      | Some r => let '(m', k', r') := scan_float_digits r m 0 in (m', k', r')
      | None => (m, O, t1)
      end in
    if (c + k =? 0)%nat then bad
    else
      match t2 with
      | EmptyString => Ret (decimal_to_float neg m2 (c + k) (- Z.of_nat k))
      | _ =>
          match eat "e" t2 with
          | None => bad
          | Some r =>
              let '(eneg, r') := scan_sign r in
              match scan_float_digits r' 0 0 with
              | (e, S _, EmptyString) =>
                  Ret (decimal_to_float neg m2 (c + k) ((if eneg : bool then - e else e) - Z.of_nat k))
              | _ => bad
              end
          end
      end.

(** [float(v)]. *)
Definition py_float (v : json) : res f64 :=
  match v with
  | JInt z => int_to_float z
  | JFloat x => Ret x
  | JBool b => Ret (if b then fone else fzero)
  | JStr s => float_of_string s
  | _ => Raise (TypeError "float() argument must be a string or a real number")
  end.

(** A number, but not a bool, in [0, 1]: the guard four validators share. *)
Definition unit_score (v : json) : res f64 :=
  if negb (is_number v) then Raise (TypeError "must be a number")
  else
    score ← py_float v;
    if fle fzero score && fle score fone then Ret score
    else Raise (ValueError "out of [0.0, 1.0] range").

(** ** The retry loop *)

(** [except (json.JSONDecodeError, KeyError, TypeError)]. *)
Definition caught_parse (e : exn) : bool :=
  match e with JSONDecodeError | KeyError | TypeError _ => true | _ => false end.

(** The same with [ValueError], whose subclass JSONDecodeError is. *)
Definition caught_value (e : exn) : bool :=
  match e with ValueError _ => true | _ => caught_parse e end.

Section retry.
Context {S A : Type} (ask : stm S string) (parse : string → res A) (caught : exn → bool).

(** Ask, parse, and ask again after a caught failure, [attempts] times. *)
Fixpoint retry_parse (attempts : nat) (fallback : A) : stm S A :=
  match attempts with
  | O => mret fallback
  | Datatypes.S n =>
      response ← ask;
      match parse response with
      | Ret a => mret a
      | Raise e => if caught e then retry_parse n fallback else raise e
      end
  end.

(** Whatever is returned was parsed from a reply, or is the fallback. *)
Lemma retry_parse_result attempts fallback s a s' :
  retry_parse attempts fallback s = (Ret a, s') → a = fallback ∨ ∃ r, parse r = Ret a.
Proof.
  revert s. induction attempts as [|n IH]; intros s; cbn [retry_parse].
  - intros [= <- _]. by left.
  - unfold mbind, stm_bind, raise, mret, stm_ret. destruct (ask s) as [[r|e] s1]; [|done].
    destruct (parse r) as [x|e] eqn:Hp.
    + intros [= <- _]. right. by exists r.
    + destruct (caught e); [apply IH|done].
Qed.

(** It raises only what asking raised, or a parse failure nobody catches. *)
Lemma retry_parse_raises attempts fallback s e s' :
  retry_parse attempts fallback s = (Raise e, s') →
  (∃ s1 s2, ask s1 = (Raise e, s2)) ∨ (caught e = false ∧ ∃ r, parse r = Raise e).
Proof.
  revert s. induction attempts as [|n IH]; intros s; cbn [retry_parse]; [done|].
  unfold mbind, stm_bind, raise, mret, stm_ret. destruct (ask s) as [[r|x] s1] eqn:Ha.
  - destruct (parse r) as [a|x] eqn:Hp; [done|]. destruct (caught x) eqn:Hc; [apply IH|].
    intros [= -> _]. right. split; [done|]. by exists r.
  - intros [= -> _]. left. by exists s, s1.
Qed.

(** A model that always replies, with replies whose failures are caught: the
    loop returns, after at most [attempts] questions. *)
Lemma retry_parse_total attempts fallback s :
  (∀ s, ∃ r s', ask s = (Ret r, s')) → (∀ r e, parse r = Raise e → caught e = true) →
  ∃ a s', retry_parse attempts fallback s = (Ret a, s').
Proof.
  intros Hask Hcaught. revert s. induction attempts as [|n IH]; intros s; cbn [retry_parse]; [by eauto|].
  unfold mbind, stm_bind, mret, stm_ret. destruct (Hask s) as (r & s1 & ->).
  destruct (parse r) as [a|e] eqn:Hp; [by eauto|]. by rewrite (Hcaught r e Hp).
Qed.

(** What every question keeps, the loop keeps. *)
Lemma retry_parse_steps (R : S → S → Prop) `{!PreOrder R} attempts fallback s :
  (∀ s, R s (ask s).2) → R s (retry_parse attempts fallback s).2.
Proof.
  intros Hask. revert s. induction attempts as [|n IH]; intros s; cbn [retry_parse]; [done|].
  unfold mbind, stm_bind, raise, mret, stm_ret. specialize (Hask s) as Hs.
  destruct (ask s) as [[r|e] s1]; [|done]. cbn [snd] in Hs.
  destruct (parse r) as [a|e]; [done|]. destruct (caught e); [|done]. by transitivity s1.
Qed.
End retry.

(** ** The unit score *)

Definition in_unit (x : f64) : Prop := fle fzero x = true ∧ fle x fone = true.

Lemma unit_score_range v x : unit_score v = Ret x → in_unit x.
Proof.
  unfold unit_score. destruct (is_number v); [|done]. simpl.
  destruct (py_float v) as [y|e]; [|done]. simpl.
  destruct (fle fzero y && fle y fone) eqn:Hr; [|done]. intros [= <-].
  by apply andb_true_iff.
Qed.

(** The one failure of the guard its callers do not catch: an int too large
    for a float. *)
Lemma unit_score_uncaught v e :
  unit_score v = Raise e → caught_value e = false →
  e = OverflowError ∧ ∃ z, v = JInt z ∧ int_to_float z = Raise OverflowError.
Proof.
  unfold unit_score. destruct v as [|b|z|x|str|l|o]; cbn; try (by intros [= <-]).
  - destruct (int_to_float z) as [y|err] eqn:Hz; cbn.
    + destruct (_ && _); [done|by intros [= <-]].
    + intros [= ->] _. unfold int_to_float in Hz. destruct (of_Z_raw z) eqn:Hr; simplify_eq.
      split; [done|]. exists z. split; [done|]. unfold int_to_float. by rewrite Hr.
  - destruct (_ && _); [done|by intros [= <-]].
Qed.

Example strip_fence_example :
  strip_markdown_fence ("```json" +:+ nl +:+ "{}" +:+ nl +:+ "```" +:+ nl)%string = "{}"%string.
Proof. vm_compute. reflexivity. Qed.

Example float_of_string_examples :
  map float_of_string [" 0.5 "; "1_0"; "-1e-1"; "high"; "1."; "."]%string
  = [Ret (flit 1 2); Ret (of_Z_raw 10); Ret (fopp (flit 1 10));
     Raise (ValueError "could not convert string to float"); Ret fone;
     Raise (ValueError "could not convert string to float")].
Proof. vm_compute. reflexivity. Qed.
