(* ===== verification/SemanticStore.v ===== *)
(** * Semantic facts in Postgres

    The contract a SemanticMemoryRepository keeps and
    mag/infrastructure/postgres_semantic_memory_repository.py, with the SQL of
    each method read as an operation on the two tables it touches.  The
    row-level security policies and the (user_id, fact_key) uniqueness come from
    alembic/versions/0003 and 0005; pgvector's cosine distance is a parameter. *)

From Stdlib Require Import ZArith Lia Ascii String Floats.SpecFloat.
From S2P Require Import Prelude PyFloat PyTime PyStr Json MagDomain.

(** A fact as a Postgres read returns it: the embedding is never read back. *)
Definition no_embedding (f : SemanticMemory) : SemanticMemory :=
  mkFact (sm_id f) (sm_user_id f) (sm_fact_key f) (sm_fact_value f) [] (sm_confidence f)
    (sm_source f) (sm_valid_until f) (sm_archived_at f).

Definition with_valid_until (f : SemanticMemory) (t : option datetime) : SemanticMemory :=
  mkFact (sm_id f) (sm_user_id f) (sm_fact_key f) (sm_fact_value f) (sm_embedding f)
    (sm_confidence f) (sm_source f) t (sm_archived_at f).

Definition with_archived_at (f : SemanticMemory) (t : option datetime) : SemanticMemory :=
  mkFact (sm_id f) (sm_user_id f) (sm_fact_key f) (sm_fact_value f) (sm_embedding f)
    (sm_confidence f) (sm_source f) (sm_valid_until f) t.

(** ** The contract *)

(** One tenant's facts are a finite map from (user, key), its history a list,
    oldest first.  A write that raises leaves both as they were. *)
Class SemanticMemoryLaws (R : Type) `{SemanticMemoryRepository R}
    (facts : R → uuid → gmap (uuid * string) SemanticMemory)
    (history : R → uuid → list SemanticMemoryHistoryEntry) : Prop := {
  fr_find_spec u k t r : ∃ r', fr_find_by_key u k t r = (Ret (no_embedding <$> facts r t !! (u, k)), r')
    ∧ facts r' t = facts r t ∧ history r' t = history r t;
  fr_save_spec f t r :
    match fr_save f t r with
    | (Ret _, r') => facts r' t = <[(sm_user_id f, sm_fact_key f) := f]> (facts r t)
        ∧ history r' t = history r t
    | (Raise _, r') => facts r' t = facts r t ∧ history r' t = history r t
    end;
  fr_history_spec e t r :
    match fr_save_history_entry e t r with
    | (Ret _, r') => facts r' t = facts r t ∧ history r' t = history r t ++ [e]
    | (Raise _, r') => facts r' t = facts r t ∧ history r' t = history r t
    end;
  fr_invalidate_spec u k t at_ r :
    match fr_invalidate u k t at_ r with
    | (Ret d, r') => ∃ f, facts r t !! (u, k) = Some f ∧ (∀ a, at_ = Some a → d = a)
        ∧ facts r' t = <[(u, k) := with_valid_until f (Some d)]> (facts r t)
        ∧ history r' t = history r t
    | (Raise _, r') => facts r' t = facts r t ∧ history r' t = history r t
    end;
  fr_archive_spec u k t at_ r :
    match fr_archive u k t at_ r with
    | (Ret d, r') => ∃ f, facts r t !! (u, k) = Some f ∧ (∀ a, at_ = Some a → d = a)
        ∧ facts r' t = <[(u, k) := with_archived_at f (Some d)]> (facts r t)
        ∧ history r' t = history r t
    | (Raise _, r') => facts r' t = facts r t ∧ history r' t = history r t
    end
}.

(** ** The tables *)

Record FactRow : Type := mkRow {
  row_tenant_id : uuid;
  row_fact : SemanticMemory
}.

(** [semantic_memory] under its unique constraint, [semantic_memory_history],
    the transaction's [app.current_tenant_id] and its [now()]. *)
Record PostgresFacts : Type := mkPgFacts {
  pf_rows : gmap (uuid * string) FactRow;
  pf_history : list (uuid * SemanticMemoryHistoryEntry);
  pf_tenant : uuid;
  pf_now : datetime
}.

Definition pf_set_rows (rows : gmap (uuid * string) FactRow) (p : PostgresFacts) : PostgresFacts :=
  mkPgFacts rows (pf_history p) (pf_tenant p) (pf_now p).

(** The tenant_isolation policy: only the current tenant's rows are visible. *)
Definition visible_row (p : PostgresFacts) (k : uuid * string) : option FactRow :=
  row ← pf_rows p !! k; guard (row_tenant_id row = pf_tenant p);; Some row.

Definition rls_violation : exn := BackendError "row-level security".
Definition no_row : exn := BackendError "No row was found when one was required".

Definition pf_save (fact : SemanticMemory) (tenant_id : uuid) : stm PostgresFacts unit :=
  p ← get_st;
  let k := (sm_user_id fact, sm_fact_key fact) in
  if decide (tenant_id = pf_tenant p) then
    match pf_rows p !! k with
    | Some row =>
        (* ON CONFLICT DO UPDATE: the row keeps its tenant *)
        if decide (row_tenant_id row = pf_tenant p)
        then modify (pf_set_rows (<[k := mkRow (row_tenant_id row) fact]> (pf_rows p)))
        else raise rls_violation
    | None => modify (pf_set_rows (<[k := mkRow tenant_id fact]> (pf_rows p)))
    end
  else raise rls_violation.

Definition pf_find_by_key (user_id : uuid) (fact_key : string) (tenant_id : uuid) :
  stm PostgresFacts (option SemanticMemory) :=
  p ← get_st;
  mret (row ← visible_row p (user_id, fact_key);
        guard (row_tenant_id row = tenant_id);;
        Some (no_embedding (row_fact row))).

(** An UPDATE of one row's status RETURNING the value written. *)
Definition pf_update_status (set_status : SemanticMemory → option datetime → SemanticMemory)
    (user_id : uuid) (fact_key : string) (tenant_id : uuid) (at_ : option datetime) :
  stm PostgresFacts datetime :=
  p ← get_st;
  match visible_row p (user_id, fact_key) with
  | Some row =>
      if decide (row_tenant_id row = tenant_id) then
        let d := default (pf_now p) at_ in
        modify (pf_set_rows (<[(user_id, fact_key) :=
          mkRow (row_tenant_id row) (set_status (row_fact row) (Some d))]> (pf_rows p)));;
        mret d
      else raise no_row
  | None => raise no_row
  end.

Definition pf_invalidate : uuid → string → uuid → option datetime → stm PostgresFacts datetime :=
  pf_update_status with_valid_until.
Definition pf_archive : uuid → string → uuid → option datetime → stm PostgresFacts datetime :=
  pf_update_status with_archived_at.

Definition pf_save_history_entry (entry : SemanticMemoryHistoryEntry) (tenant_id : uuid) :
  stm PostgresFacts unit :=
  p ← get_st;
  if decide (tenant_id = pf_tenant p)
  then modify (λ p, mkPgFacts (pf_rows p) (pf_history p ++ [(tenant_id, entry)]) (pf_tenant p) (pf_now p))
  else raise rls_violation.

(** The history a tenant sees, oldest first. *)
Definition history_of (p : PostgresFacts) (tenant_id : uuid) : list SemanticMemoryHistoryEntry :=
  map snd (filter (λ te, te.1 = tenant_id ∧ te.1 = pf_tenant p) (pf_history p)).

Definition pf_find_history (user_id : uuid) (fact_key : string) (tenant_id : uuid) :
  stm PostgresFacts (list SemanticMemoryHistoryEntry) :=
  p ← get_st;
  mret (sort_by (λ a b, sh_superseded_at b <=? sh_superseded_at a)
    (filter (λ e, sh_user_id e = user_id ∧ sh_fact_key e = fact_key) (history_of p tenant_id))).

(** [valid_until IS NULL OR valid_until > now()] and [archived_at IS NULL]. *)
Definition retrievable (now : datetime) (f : SemanticMemory) : bool :=
  match sm_valid_until f with Some v => now <? v | None => true end &&
  match sm_archived_at f with Some _ => false | None => true end.

(** The facts of one tenant that row-level security lets through. *)
Definition facts_of (p : PostgresFacts) (tenant_id : uuid) : gmap (uuid * string) SemanticMemory :=
  row_fact <$> filter (λ kr, row_tenant_id kr.2 = tenant_id ∧ row_tenant_id kr.2 = pf_tenant p) (pf_rows p).

Section postgres.
(** pgvector's [<=>]. *)
Context (cosine_distance : list f64 → list f64 → f64).

Definition pf_search_by_similarity (query_embedding : list f64) (user_id tenant_id : uuid) (top_k : Z) :
  stm PostgresFacts (list ScoredFact) :=
  p ← get_st;
  if top_k <? 0 then raise (BackendError "LIMIT must not be negative") else
  let candidates := filter (λ f, sm_user_id f = user_id ∧ retrievable (pf_now p) f = true)
                      (map snd (map_to_list (facts_of p tenant_id))) in
  let distance f := cosine_distance (sm_embedding f) query_embedding in
  mret (map (λ f, mkScoredFact (no_embedding f) (fsub fone (distance f)))
          (take (Z.to_nat top_k) (sorted_asc distance candidates))).

#[export] Instance postgres_semantic_memory : SemanticMemoryRepository PostgresFacts := {|
  fr_save := pf_save;
  fr_find_by_key := pf_find_by_key;
  fr_search_by_similarity := pf_search_by_similarity;
  fr_invalidate := pf_invalidate;
  fr_archive := pf_archive;
  fr_save_history_entry := pf_save_history_entry;
  fr_find_history := pf_find_history
|}.

(** ** It keeps the contract *)

Lemma facts_of_lookup p t k :
  facts_of p t !! k =
    row ← pf_rows p !! k; guard (row_tenant_id row = t ∧ row_tenant_id row = pf_tenant p);;
    Some (row_fact row).
Proof.
  unfold facts_of. rewrite lookup_fmap, map_lookup_filter.
  destruct (pf_rows p !! k) as [row|]; [|done]. simpl. by repeat case_guard.
Qed.

(** Another tenant than the transaction's sees nothing. *)
Lemma facts_of_other p t : t ≠ pf_tenant p → facts_of p t = ∅.
Proof.
  intros Hne. apply map_eq. intros k. rewrite facts_of_lookup, lookup_empty.
  destruct (pf_rows p !! k) as [row|]; [|done]. simpl. case_guard; [naive_solver|done].
Qed.

Lemma facts_of_insert p k f :
  facts_of (pf_set_rows (<[k := mkRow (pf_tenant p) f]> (pf_rows p)) p) (pf_tenant p)
    = <[k := f]> (facts_of p (pf_tenant p)).
Proof.
  apply map_eq. intros k'. rewrite facts_of_lookup. simpl.
  destruct (decide (k = k')) as [<-|Hne].
  - rewrite !lookup_insert_eq. simpl. by case_guard; naive_solver.
  - by rewrite !lookup_insert_ne, facts_of_lookup by done.
Qed.

Lemma pf_update_status_spec set_status u k t at_ p :
  match pf_update_status set_status u k t at_ p with
  | (Ret d, p') => ∃ f, facts_of p t !! (u, k) = Some f ∧ d = default (pf_now p) at_
      ∧ facts_of p' t = <[(u, k) := set_status f (Some d)]> (facts_of p t)
      ∧ history_of p' t = history_of p t ∧ pf_now p' = pf_now p ∧ pf_tenant p' = pf_tenant p
  | (Raise _, p') => p' = p
  end.
Proof.
  unfold pf_update_status, mbind, stm_bind, get_st, modify, raise, mret, stm_ret.
  destruct (visible_row p (u, k)) as [row|] eqn:Hv; [|done].
  destruct (decide (row_tenant_id row = t)) as [Ht|]; [|done].
  unfold visible_row in Hv. destruct (pf_rows p !! (u, k)) as [row'|] eqn:Hr; [|done]. simpl in Hv.
  case_guard as Hp; [|done]. injection Hv as ->.
  assert (t = pf_tenant p) as -> by congruence. rewrite Hp. exists (row_fact row). split_and!; try done.
  - rewrite facts_of_lookup, Hr. simpl. case_guard; naive_solver.
  - apply facts_of_insert.
Qed.

#[export] Instance postgres_semantic_laws : SemanticMemoryLaws PostgresFacts facts_of history_of.
Proof.
  split.
  - intros u k t p. exists p. split; [|done]. cbn. unfold pf_find_by_key, mbind, stm_bind, get_st, mret, stm_ret.
    do 2 f_equal. rewrite facts_of_lookup. unfold visible_row.
    destruct (pf_rows p !! (u, k)) as [row|]; [|done]. simpl.
    repeat (case_guard; simpl); try done; naive_solver.
  - intros f t p. cbn. unfold pf_save, mbind, stm_bind, get_st, modify, raise.
    destruct (decide (t = pf_tenant p)) as [->|]; [|done].
    destruct (pf_rows p !! _) as [row|] eqn:Hr; [|split; [apply facts_of_insert|done]].
    destruct (decide (row_tenant_id row = pf_tenant p)) as [->|]; [|done].
    split; [apply facts_of_insert|done].
  - intros e t p. cbn. unfold pf_save_history_entry, mbind, stm_bind, get_st, modify, raise.
    destruct (decide (t = pf_tenant p)) as [->|]; [|done]. split; [done|].
    unfold history_of. simpl. rewrite filter_app, map_app. f_equal.
    rewrite filter_cons_True by done. by rewrite filter_nil.
  - intros u k t at_ p. pose proof (pf_update_status_spec with_valid_until u k t at_ p) as Hs.
    cbn. unfold pf_invalidate. destruct (pf_update_status _ _ _ _ _ _) as [[d|e] p']; [|by subst].
    destruct Hs as (f & Hf & -> & Hfacts & Hh & _). exists f. split_and!; try done. by intros a ->.
  - intros u k t at_ p. pose proof (pf_update_status_spec with_archived_at u k t at_ p) as Hs.
    cbn. unfold pf_archive. destruct (pf_update_status _ _ _ _ _ _) as [[d|e] p']; [|by subst].
    destruct Hs as (f & Hf & -> & Hfacts & Hh & _). exists f. split_and!; try done. by intros a ->.
Qed.
End postgres.
