(* ===== verification/MemoryEvolution.v ===== *)
(** * Recording and evolving facts

    mag/application/commands: record_semantic_fact.py, update_memory.py,
    refine_memory.py, invalidate_memory.py, archive_memory.py, evolve_memory.py;
    mag/application/queries/classify_fact_evolution.py; and the two best-effort
    write wrappers of mag/infrastructure.  A command acts on the stores held
    side by side: the repository, the vector index, the graph, the embedding
    model and the chat model, each behind its interface. *)

From Stdlib Require Import ZArith Lia Ascii String Floats.SpecFloat.
From S2P Require Import Prelude PyFloat PyTime Digest PyStr Prompts Json MagDomain RagPorts Doubles LlmJson SemanticStore.

(** The collaborators of the commands, with the application's clock and the
    values [uuid.uuid4] will return. *)
Record MagStores (R X G E M : Type) : Type := mkStores {
  ms_repository : R;
  ms_index : X;
  ms_graph : G;
  ms_embedder : E;
  ms_chat : M;
  ms_now : datetime;
  ms_uuids : nat → uuid;
  ms_issued : nat
}.
Arguments mkStores {R X G E M}.
Arguments ms_repository {R X G E M}.
Arguments ms_index {R X G E M}.
Arguments ms_graph {R X G E M}.
Arguments ms_embedder {R X G E M}.
Arguments ms_chat {R X G E M}.
Arguments ms_now {R X G E M}.
Arguments ms_uuids {R X G E M}.
Arguments ms_issued {R X G E M}.

(** [best_effort_graph_write] and [best_effort_index_write]: an [Exception] is
    logged and dropped; a cancellation is not an [Exception]. *)
Definition best_effort {S} (write : stm S unit) : stm S unit := λ s,
  match write s with
  | (Raise CancelledError, s') => (Raise CancelledError, s')
  | (_, s') => (Ret tt, s')
  end.

Lemma best_effort_cases {S} (write : stm S unit) s :
  best_effort write s = (Ret tt, (write s).2) ∨
  (best_effort write s = (Raise CancelledError, (write s).2) ∧ (write s).1 = Raise CancelledError).
Proof. unfold best_effort. destruct (write s) as [[[]|[]] s']; simpl; auto. Qed.

Section commands.
Context {R X G E M : Type} `{SemanticMemoryRepository R} `{SemanticMemoryIndex X}
  `{MemoryGraphRepository G} `{EmbeddingModel E} `{ChatModel M}.
Abbreviation Stores := (MagStores R X G E M) (only parsing).

Definition on_repository {A} (m : stm R A) : stm Stores A := λ s,
  let '(r, x) := m (ms_repository s) in
  (r, mkStores x (ms_index s) (ms_graph s) (ms_embedder s) (ms_chat s) (ms_now s) (ms_uuids s) (ms_issued s)).
Definition on_index {A} (m : stm X A) : stm Stores A := λ s,
  let '(r, x) := m (ms_index s) in
  (r, mkStores (ms_repository s) x (ms_graph s) (ms_embedder s) (ms_chat s) (ms_now s) (ms_uuids s) (ms_issued s)).
Definition on_graph {A} (m : stm G A) : stm Stores A := λ s,
  let '(r, x) := m (ms_graph s) in
  (r, mkStores (ms_repository s) (ms_index s) x (ms_embedder s) (ms_chat s) (ms_now s) (ms_uuids s) (ms_issued s)).
Definition on_embedder {A} (m : stm E A) : stm Stores A := λ s,
  let '(r, x) := m (ms_embedder s) in
  (r, mkStores (ms_repository s) (ms_index s) (ms_graph s) x (ms_chat s) (ms_now s) (ms_uuids s) (ms_issued s)).
Definition on_chat {A} (m : stm M A) : stm Stores A := λ s,
  let '(r, x) := m (ms_chat s) in
  (r, mkStores (ms_repository s) (ms_index s) (ms_graph s) (ms_embedder s) x (ms_now s) (ms_uuids s) (ms_issued s)).
Definition uuid4 : stm Stores uuid := λ s,
  (Ret (ms_uuids s (ms_issued s)),
   mkStores (ms_repository s) (ms_index s) (ms_graph s) (ms_embedder s) (ms_chat s) (ms_now s)
     (ms_uuids s) (S (ms_issued s))).
Definition utc_now : stm Stores datetime := λ s, (Ret (ms_now s), s).

(** ** RecordSemanticFact *)

(** The deterministic id of a user's fact. *)
Definition fact_id (user_id : uuid) (fact_key : string) : uuid :=
  uuid5 NAMESPACE_OID ("semantic_memory:" +:+ uuid_str user_id +:+ ":" +:+ fact_key)%string.

Definition RecordSemanticFact_execute (tenant_id user_id : uuid) (fact_key fact_value : string)
    (confidence : f64) (source : string) (valid_until archived_at : option datetime) :
  stm Stores SemanticMemory :=
  embedding ← on_embedder (embed fact_value);
  let fact := mkFact (fact_id user_id fact_key) user_id fact_key fact_value embedding confidence
                source valid_until archived_at in
  on_repository (fr_save fact tenant_id);;
  on_index (si_upsert fact tenant_id);;
  best_effort (on_graph (gr_upsert_fact_node fact tenant_id));;
  mret fact.

(** ** The four evolution operations *)

Definition no_existing_fact : exn := ValueError "no existing fact".

(** The snapshot Update and Refine take of the value they overwrite. *)
Definition history_entry (id : uuid) (existing : SemanticMemory) (user_id : uuid) (fact_key : string)
    (operation : string) (now : datetime) : SemanticMemoryHistoryEntry :=
  mkHistory id (sm_id existing) user_id fact_key (sm_fact_value existing) (sm_confidence existing)
    (sm_source existing) operation now.

Definition UpdateMemory_execute (tenant_id user_id : uuid) (fact_key new_fact_value : string)
    (confidence : f64) (source : string) : stm Stores SemanticMemory :=
  existing ← on_repository (fr_find_by_key user_id fact_key tenant_id);
  match existing with
  | None => raise no_existing_fact
  | Some existing =>
      id ← uuid4;
      now ← utc_now;
      on_repository (fr_save_history_entry
        (history_entry id existing user_id fact_key "update" now) tenant_id);;
      RecordSemanticFact_execute tenant_id user_id fact_key new_fact_value confidence source
        (sm_valid_until existing) (sm_archived_at existing)
  end.

Definition _MAX_REFINE_ATTEMPTS : nat := 3.

Definition build_refine_user_message (existing_fact_value new_information : string) : string :=
  ("Existing fact: " +:+ existing_fact_value +:+ nl +:+ nl +:+ "New information: " +:+ new_information)%string.
Definition build_fact_evolution_user_message : string → string → string := build_refine_user_message.

Definition parse_merged (response : string) : res string :=
  parsed ← json_loads (strip_markdown_fence response);
  merged ← json_item parsed "merged_fact_value";
  match merged with
  | JStr m => if is_blank m then Raise (TypeError "merged_fact_value must be a non-empty string") else Ret m
  | _ => Raise (TypeError "merged_fact_value must be a non-empty string")
  end.

Definition merge_values (existing_fact_value new_information : string) : stm Stores string :=
  let prompt := (REFINE_SYSTEM_PROMPT +:+ nl +:+ nl +:+
                 build_refine_user_message existing_fact_value new_information)%string in
  retry_parse (on_chat (cm_complete prompt)) parse_merged caught_parse _MAX_REFINE_ATTEMPTS
    (existing_fact_value +:+ "; " +:+ new_information)%string.

Definition RefineMemory_execute (tenant_id user_id : uuid) (fact_key new_information : string) :
  stm Stores SemanticMemory :=
  existing ← on_repository (fr_find_by_key user_id fact_key tenant_id);
  match existing with
  | None => raise no_existing_fact
  | Some existing =>
      merged_fact_value ← merge_values (sm_fact_value existing) new_information;
      id ← uuid4;
      now ← utc_now;
      on_repository (fr_save_history_entry
        (history_entry id existing user_id fact_key "refine" now) tenant_id);;
      RecordSemanticFact_execute tenant_id user_id fact_key merged_fact_value
        (sm_confidence existing) (sm_source existing) (sm_valid_until existing) (sm_archived_at existing)
  end.

Definition InvalidateMemory_execute (tenant_id user_id : uuid) (fact_key : string)
    (invalidated_at : option datetime) : stm Stores SemanticMemory :=
  existing ← on_repository (fr_find_by_key user_id fact_key tenant_id);
  match existing with
  | None => raise no_existing_fact
  | Some existing =>
      actual ← on_repository (fr_invalidate user_id fact_key tenant_id invalidated_at);
      best_effort (on_index (si_set_valid_until (sm_id existing) tenant_id (Some actual)));;
      best_effort (on_graph (gr_set_fact_valid_until (sm_id existing) tenant_id (Some actual)));;
      mret (with_valid_until existing (Some actual))
  end.

Definition ArchiveMemory_execute (tenant_id user_id : uuid) (fact_key : string)
    (archived_at : option datetime) : stm Stores SemanticMemory :=
  existing ← on_repository (fr_find_by_key user_id fact_key tenant_id);
  match existing with
  | None => raise no_existing_fact
  | Some existing =>
      actual ← on_repository (fr_archive user_id fact_key tenant_id archived_at);
      best_effort (on_index (si_set_archived_at (sm_id existing) tenant_id (Some actual)));;
      best_effort (on_graph (gr_set_fact_archived_at (sm_id existing) tenant_id (Some actual)));;
      mret (with_archived_at existing (Some actual))
  end.

(** ** ClassifyFactEvolution and EvolveMemory *)

Definition _MAX_CLASSIFICATION_ATTEMPTS : nat := 3.
Definition _VALID_OPERATIONS : list string := ["update"; "invalidate"; "refine"; "no_conflict"]%string.

Definition parse_classification (response : string) : res FactEvolutionClassification :=
  parsed ← json_loads (strip_markdown_fence response);
  operation ← json_item parsed "operation";
  let reasoning := match parsed with JObj o => dict_get "reasoning" (JStr "") o | _ => JStr "" end in
  match operation with
  | JStr op =>
      if decide (op ∈ _VALID_OPERATIONS) then
        match reasoning with
        | JStr r => Ret (mkClassification op r)
        | _ => Raise (TypeError "reasoning must be a string")
        end
      else Raise (TypeError "operation must be one of update/invalidate/refine/no_conflict")
  | _ => Raise (TypeError "operation must be one of update/invalidate/refine/no_conflict")
  end.

Definition default_classification : FactEvolutionClassification :=
  mkClassification "no_conflict" "classification failed after retries; defaulting to no-op".

Definition ClassifyFactEvolution_execute (tenant_id user_id : uuid) (fact_key new_information : string) :
  stm Stores FactEvolutionClassification :=
  existing ← on_repository (fr_find_by_key user_id fact_key tenant_id);
  match existing with
  | None => raise no_existing_fact
  | Some existing =>
      let prompt := (FACT_EVOLUTION_SYSTEM_PROMPT +:+ nl +:+ nl +:+
                     build_fact_evolution_user_message (sm_fact_value existing) new_information)%string in
      retry_parse (on_chat (cm_complete prompt)) parse_classification caught_parse
        _MAX_CLASSIFICATION_ATTEMPTS default_classification
  end.

Definition EvolveMemory_execute (tenant_id user_id : uuid) (fact_key new_information : string) :
  stm Stores (FactEvolutionClassification * option SemanticMemory) :=
  classification ← ClassifyFactEvolution_execute tenant_id user_id fact_key new_information;
  if String.eqb (fe_operation classification) "update" then
    result ← UpdateMemory_execute tenant_id user_id fact_key new_information fone EmptyString;
    mret (classification, Some result)
  else if String.eqb (fe_operation classification) "refine" then
    result ← RefineMemory_execute tenant_id user_id fact_key new_information;
    mret (classification, Some result)
  else if String.eqb (fe_operation classification) "invalidate" then
    result ← InvalidateMemory_execute tenant_id user_id fact_key None;
    mret (classification, Some result)
  else mret (classification, None).

(** ** What the commands do to the repository *)

Context (facts : R → uuid → gmap (uuid * string) SemanticMemory)
  (history : R → uuid → list SemanticMemoryHistoryEntry) `{!SemanticMemoryLaws R facts history}.

Definition facts_in (s : Stores) (t : uuid) := facts (ms_repository s) t.
Definition history_in (s : Stores) (t : uuid) := history (ms_repository s) t.

(** The tenant's facts and history are the same. *)
Definition same_facts (t : uuid) (s s' : Stores) : Prop :=
  facts_in s' t = facts_in s t ∧ history_in s' t = history_in s t.

#[export] Instance same_facts_preorder t : PreOrder (same_facts t).
Proof. split; [done|]. intros a b c [? ?] [? ?]. split; congruence. Qed.

Lemma find_fact_spec u k t s : ∃ s1,
  on_repository (fr_find_by_key u k t) s = (Ret (no_embedding <$> facts_in s t !! (u, k)), s1) ∧
  same_facts t s s1.
Proof.
  unfold on_repository. destruct (fr_find_spec (history := history) u k t (ms_repository s))
    as (r' & -> & Hf & Hh). by eexists.
Qed.

(** Calls elsewhere leave the repository alone. *)
Lemma on_index_same t {A} (m : stm X A) s : same_facts t s (on_index m s).2.
Proof. unfold on_index. by destruct (m _). Qed.
Lemma on_graph_same t {A} (m : stm G A) s : same_facts t s (on_graph m s).2.
Proof. unfold on_graph. by destruct (m _). Qed.
Lemma on_embedder_same t {A} (m : stm E A) s : same_facts t s (on_embedder m s).2.
Proof. unfold on_embedder. by destruct (m _). Qed.
Lemma on_chat_same t {A} (m : stm M A) s : same_facts t s (on_chat m s).2.
Proof. unfold on_chat. by destruct (m _). Qed.
Lemma best_effort_same t (m : stm Stores unit) s :
  same_facts t s (m s).2 → same_facts t s (best_effort m s).2.
Proof. intros Hm. destruct (best_effort_cases m s) as [->|[-> _]]; done. Qed.

(** Recording writes exactly the fact it is asked to, or raises; once the row
    is saved, neither the graph's failures nor the history are touched. *)
Lemma record_spec t u k v conf src vu ar s :
  let '(r, s') := RecordSemanticFact_execute t u k v conf src vu ar s in
  (same_facts t s s' ∧ ∃ e, r = Raise e) ∨
  ∃ emb, let f := mkFact (fact_id u k) u k v emb conf src vu ar in
    facts_in s' t = <[(u, k) := f]> (facts_in s t) ∧ history_in s' t = history_in s t ∧
    ((∃ e, r = Raise e) ∨ r = Ret f).
Proof.
  unfold RecordSemanticFact_execute, mbind, stm_bind, mret, stm_ret.
  pose proof (on_embedder_same t (embed v) s) as Hemb.
  destruct (on_embedder (embed v) s) as [[emb|e] s1]; [|left; eauto].
  set (f := mkFact _ _ _ _ emb _ _ _ _).
  pose proof (fr_save_spec (facts := facts) (history := history) f t (ms_repository s1)) as Hsave.
  unfold on_repository. destruct (fr_save f t (ms_repository s1)) as [[[]|e] r']; cycle 1.
  { left. split; [|eauto]. transitivity s1; [exact Hemb|exact Hsave]. }
  destruct Hsave as [Hf Hh]. cbn [snd] in Hemb. destruct Hemb as [Hf1 Hh1].
  set (s2 := mkStores r' _ _ _ _ _ _ _).
  assert (facts_in s2 t = <[(u, k) := f]> (facts_in s t) ∧ history_in s2 t = history_in s t) as [Hf2 Hh2].
  { unfold facts_in, history_in in *. simpl. rewrite Hf, Hh, Hf1, Hh1. done. }
  pose proof (on_index_same t (si_upsert f t) s2) as Hidx.
  destruct (on_index (si_upsert f t) s2) as [[[]|e] s3]; destruct Hidx as [Hf3 Hh3]; cbn [snd] in *.
  - pose proof (best_effort_same t _ _ (on_graph_same t (gr_upsert_fact_node f t) s3)) as Hg.
    destruct (best_effort _ s3) as [[[]|e] s4]; destruct Hg as [Hf4 Hh4]; cbn [snd] in *;
      (right; exists emb; rewrite Hf4, Hh4, Hf3, Hh3; split; [exact Hf2|split; [exact Hh2|eauto]]).
  - right. exists emb. rewrite Hf3, Hh3. split; [exact Hf2|split; [exact Hh2|eauto]].
Qed.

(** ** Nothing is forgotten *)

(** From [s] to [s'], of the tenant's facts only [(u, k)] may have changed; it
    keeps its archival and any invalidation, a replaced value is in the
    history, and the history only grows. *)
Definition remembers (t u : uuid) (k : string) (s s' : Stores) : Prop :=
  (∃ new, history_in s' t = history_in s t ++ new) ∧
  (∀ key, key ≠ (u, k) → facts_in s' t !! key = facts_in s t !! key) ∧
  ∀ old, facts_in s t !! (u, k) = Some old → ∃ new, facts_in s' t !! (u, k) = Some new ∧
    sm_archived_at new = sm_archived_at old ∧
    (is_Some (sm_valid_until old) → is_Some (sm_valid_until new)) ∧
    (sm_fact_value new = sm_fact_value old ∨
     ∃ e, e ∈ history_in s' t ∧ sh_user_id e = u ∧ sh_fact_key e = k ∧
       sh_fact_value e = sm_fact_value old).

Lemma same_remembers t u k s s' : same_facts t s s' → remembers t u k s s'.
Proof.
  intros [Hf Hh]. unfold remembers. rewrite Hf, Hh. split_and!; [by exists []; rewrite app_nil_r|done|].
  intros old Hold. exists old. split_and!; [done..|]. by left.
Qed.

Lemma remembers_same_l t u k s s1 s' : same_facts t s s1 → remembers t u k s1 s' → remembers t u k s s'.
Proof. intros [Hf Hh]. unfold remembers. by rewrite Hf, Hh. Qed.

(** Snapshot the existing value, then record a new one with its status. *)
Lemma snapshot_and_record t u k v conf src op s1 old :
  facts_in s1 t !! (u, k) = Some old →
  let ex := no_embedding old in
  let '(r, s') :=
    (id ← uuid4; now ← utc_now;
     on_repository (fr_save_history_entry (history_entry id ex u k op now) t);;
     RecordSemanticFact_execute t u k v conf src (sm_valid_until ex) (sm_archived_at ex)) s1 in
  remembers t u k s1 s' ∧
  (∀ f, r = Ret f → facts_in s' t = <[(u, k) := f]> (facts_in s1 t) ∧ sm_fact_value f = v ∧
     sm_valid_until f = sm_valid_until old ∧ sm_archived_at f = sm_archived_at old ∧
     ∃ id now, history_in s' t = history_in s1 t ++ [history_entry id ex u k op now]).
Proof.
  intros Hold. simpl. unfold uuid4, utc_now, mbind, stm_bind.
  set (e := history_entry _ (no_embedding old) u k op _). set (s2 := mkStores _ _ _ _ _ _ _ _).
  pose proof (fr_history_spec (facts := facts) (history := history) e t (ms_repository s2)) as Hhist.
  unfold on_repository at 1. destruct (fr_save_history_entry e t (ms_repository s2)) as [[[]|err] r'];
    destruct Hhist as [Hf Hh]; [|split; [by apply same_remembers|done]].
  set (s3 := mkStores r' _ _ _ _ _ _ _).
  assert (facts_in s3 t = facts_in s1 t) as Hf3 by exact Hf.
  assert (history_in s3 t = history_in s1 t ++ [e]) as Hh3 by exact Hh.
  pose proof (record_spec t u k v conf src (sm_valid_until (no_embedding old))
    (sm_archived_at (no_embedding old)) s3) as Hrec.
  destruct (RecordSemanticFact_execute _ _ _ _ _ _ _ _ s3) as [r s'].
  destruct Hrec as [[[Hf' Hh'] [err ->]]|(emb & Hf' & Hh' & Hr)].
  - split; [|done]. unfold remembers. rewrite Hf', Hh', Hf3, Hh3. split_and!; [by exists [e]|done|].
    intros o Ho. exists o. split_and!; [done..|]. by left.
  - rewrite Hf3 in Hf'. rewrite Hh3 in Hh'. split.
    + unfold remembers. rewrite Hf', Hh'. split_and!; [by exists [e]| |].
      * intros key Hkey. by rewrite lookup_insert_ne.
      * intros o Ho. assert (o = old) as -> by congruence. rewrite lookup_insert_eq.
        eexists. split; [done|]. split_and!; [done..|]. right. exists e. split_and!; [|done..].
        apply elem_of_app. right. by apply list_elem_of_singleton.
    + intros f ->. destruct Hr as [[err Hr]|[= ->]]; [done|]. split_and!; [done..|]. by do 2 eexists.
Qed.

Lemma update_spec t u k v conf src s :
  let '(r, s') := UpdateMemory_execute t u k v conf src s in
  remembers t u k s s' ∧
  ∀ f, r = Ret f → ∃ old, facts_in s t !! (u, k) = Some old ∧
    facts_in s' t = <[(u, k) := f]> (facts_in s t) ∧ sm_fact_value f = v ∧
    sm_valid_until f = sm_valid_until old ∧ sm_archived_at f = sm_archived_at old ∧
    ∃ id now, history_in s' t = history_in s t ++ [history_entry id (no_embedding old) u k "update" now].
Proof.
  unfold UpdateMemory_execute. destruct (find_fact_spec u k t s) as (s1 & Hfind & Hs1).
  stm_step Hfind. destruct (facts_in s t !! (u, k)) as [old|] eqn:Hold; cbn [fmap option_fmap option_map].
  2: { split; [by apply same_remembers|done]. }
  destruct Hs1 as [Hf1 Hh1]. rewrite <- Hf1 in Hold.
  pose proof (snapshot_and_record t u k v conf src "update" s1 old Hold) as Hsr. cbn zeta in Hsr.
  revert Hsr. stm_run r s'. intros [Hrem Hret]. split.
  - by apply (remembers_same_l t u k s s1).
  - intros f Hr. exists old. rewrite <- Hf1, <- Hh1. split; [done|]. by apply Hret.
Qed.

Lemma refine_spec t u k info s :
  let '(r, s') := RefineMemory_execute t u k info s in
  remembers t u k s s' ∧
  ∀ f, r = Ret f → ∃ old, facts_in s t !! (u, k) = Some old ∧
    facts_in s' t = <[(u, k) := f]> (facts_in s t) ∧
    (sm_fact_value f = (sm_fact_value old +:+ "; " +:+ info)%string ∨
     ∃ reply, parse_merged reply = Ret (sm_fact_value f)) ∧
    sm_valid_until f = sm_valid_until old ∧ sm_archived_at f = sm_archived_at old ∧
    ∃ id now, history_in s' t = history_in s t ++ [history_entry id (no_embedding old) u k "refine" now].
Proof.
  unfold RefineMemory_execute. destruct (find_fact_spec u k t s) as (s1 & Hfind & Hs1).
  stm_step Hfind. destruct (facts_in s t !! (u, k)) as [old|] eqn:Hold; cbn [fmap option_fmap option_map].
  2: { split; [by apply same_remembers|done]. }
  set (m := merge_values _ _).
  assert (Hm : same_facts t s1 (m s1).2).
  { unfold m, merge_values. apply (retry_parse_steps _ _ _ _). intros x. apply on_chat_same. }
  unfold mbind at 1, stm_bind at 1. destruct (m s1) as [[merged|e] s2] eqn:Hmerge; cbn [snd] in Hm.
  2: { split; [|done]. apply same_remembers. by transitivity s1. }
  assert (Hs2 : same_facts t s s2) by (by transitivity s1). destruct Hs2 as [Hf2 Hh2].
  rewrite <- Hf2 in Hold.
  pose proof (snapshot_and_record t u k merged (sm_confidence (no_embedding old)) (sm_source (no_embedding old))
    "refine" s2 old Hold) as Hsr. cbn zeta in Hsr.
  revert Hsr. stm_run r s'. intros [Hrem Hret]. split.
  - by apply (remembers_same_l t u k s s2).
  - intros f Hr. exists old. destruct (Hret f Hr) as (Hfacts & Hv & Hvu & Har & Hh).
    rewrite <- Hf2, <- Hh2. split_and!; try done.
    rewrite Hv. apply (retry_parse_result _ _ _) in Hmerge. by destruct Hmerge as [->|?]; [left|right].
Qed.

Lemma invalidate_spec t u k at_ s :
  let '(r, s') := InvalidateMemory_execute t u k at_ s in
  remembers t u k s s' ∧
  ∀ f, r = Ret f → ∃ old d, facts_in s t !! (u, k) = Some old ∧ f = with_valid_until (no_embedding old) (Some d) ∧
    facts_in s' t = <[(u, k) := with_valid_until old (Some d)]> (facts_in s t) ∧
    history_in s' t = history_in s t ∧ ∀ a, at_ = Some a → d = a.
Proof.
  unfold InvalidateMemory_execute. destruct (find_fact_spec u k t s) as (s1 & Hfind & Hs1).
  stm_step Hfind. destruct (facts_in s t !! (u, k)) as [old|] eqn:Hold; cbn [fmap option_fmap option_map].
  2: { split; [by apply same_remembers|done]. }
  unfold mbind, stm_bind, mret, stm_ret.
  pose proof (fr_invalidate_spec (facts := facts) (history := history) u k t at_ (ms_repository s1)) as Hinv.
  unfold on_repository at 1. destruct (fr_invalidate u k t at_ (ms_repository s1)) as [[d|e] r'].
  2: { split; [|done]. apply same_remembers. transitivity s1; [exact Hs1|exact Hinv]. }
  destruct Hinv as (f0 & Hf0 & Hat & Hfacts & Hhist). destruct Hs1 as [Hf1 Hh1].
  set (s2 := mkStores r' _ _ _ _ _ _ _).
  assert (f0 = old) as -> by (unfold facts_in in *; congruence).
  assert (facts_in s2 t = <[(u, k) := with_valid_until old (Some d)]> (facts_in s t)) as Hf2.
  { unfold facts_in in *. cbn. by rewrite Hfacts, Hf1. }
  assert (history_in s2 t = history_in s t) as Hh2.
  { unfold history_in in *. cbn. by rewrite Hhist, Hh1. }
  assert (Hrem : ∀ s', same_facts t s2 s' → remembers t u k s s').
  { intros s' [Hf Hh]. unfold remembers. rewrite Hf, Hh, Hf2, Hh2. split_and!.
    - by exists []; rewrite app_nil_r.
    - intros key Hkey. by rewrite lookup_insert_ne.
    - intros o Ho. assert (o = old) as -> by congruence. rewrite lookup_insert_eq.
      eexists. split_and!; [done|done|by intros _; exists d|by left]. }
  set (w1 := best_effort (on_index _)). assert (Hw1 : same_facts t s2 (w1 s2).2).
  { apply best_effort_same, on_index_same. }
  destruct (w1 s2) as [[[]|e] s3]; cbn [snd] in *; [|split; [by apply Hrem|done]].
  set (w2 := best_effort (on_graph _)). assert (Hw2 : same_facts t s2 (w2 s3).2).
  { transitivity s3; [done|]. apply best_effort_same, on_graph_same. }
  destruct (w2 s3) as [[[]|e] s4]; cbn [snd] in *; (split; [by apply Hrem|]); [|done].
  intros f [= <-]. exists old, d. destruct Hw2 as [Hf4 Hh4]. rewrite Hf4, Hh4. done.
Qed.

Lemma classify_same t u k info s : same_facts t s (ClassifyFactEvolution_execute t u k info s).2.
Proof.
  unfold ClassifyFactEvolution_execute. destruct (find_fact_spec u k t s) as (s1 & Hfind & Hs1).
  stm_step Hfind. destruct (no_embedding <$> _); [|done]. transitivity s1; [done|].
  apply (retry_parse_steps _ _ _ _). intros x. apply on_chat_same.
Qed.

(** An operation the classifier returns is one of the four. *)
Lemma parse_classification_valid r c : parse_classification r = Ret c → fe_operation c ∈ _VALID_OPERATIONS.
Proof.
  unfold parse_classification, mbind, res_bind. destruct (json_loads _) as [p|]; [|done].
  destruct (json_item p _) as [[| | | |op| |]|]; try done.
  destruct (decide (op ∈ _VALID_OPERATIONS)); [|done].
  by destruct (match p with JObj o => _ | _ => _ end); intros [= <-].
Qed.

Lemma classify_valid t u k info s c s' :
  ClassifyFactEvolution_execute t u k info s = (Ret c, s') → fe_operation c ∈ _VALID_OPERATIONS.
Proof.
  unfold ClassifyFactEvolution_execute. destruct (find_fact_spec u k t s) as (s1 & Hfind & Hs1).
  stm_step Hfind. destruct (no_embedding <$> _); [|done]. intros Hr.
  apply retry_parse_result in Hr as [->|[r Hr]]; [|by apply (parse_classification_valid r)].
  unfold _VALID_OPERATIONS, default_classification. cbn [fe_operation]. in_list.
Qed.

(** C6: Evolving a fact never loses anything, however it ends: whether it
    returns, or the model, a store or a cancellation stops it half-way, the
    user's other facts are as they were, the evolved fact is still there with
    its archival and any invalidation it had, a value that was replaced is in
    the history, and the history only grew. *)
Theorem EvolveMemory_remembers t u k info s :
  remembers t u k s (EvolveMemory_execute t u k info s).2.
Proof.
  unfold EvolveMemory_execute, mbind at 1, stm_bind at 1.
  pose proof (classify_same t u k info s) as Hc.
  destruct (ClassifyFactEvolution_execute t u k info s) as [[c|e] s1]; cbn [snd] in *;
    [|by apply same_remembers].
  apply (remembers_same_l t u k s s1); [done|]. unfold mbind, stm_bind, mret, stm_ret.
  pose proof (update_spec t u k info fone "" s1) as Hu. pose proof (refine_spec t u k info s1) as Hr.
  pose proof (invalidate_spec t u k None s1) as Hi.
  destruct (String.eqb _ _); [|destruct (String.eqb _ _); [|destruct (String.eqb _ _)]].
  - by destruct (UpdateMemory_execute _ _ _ _ _ _ s1) as [[]]; destruct Hu.
  - by destruct (RefineMemory_execute _ _ _ _ s1) as [[]]; destruct Hr.
  - by destruct (InvalidateMemory_execute _ _ _ _ s1) as [[]]; destruct Hi.
  - by apply same_remembers.
Qed.

(** What each classification makes of the fact. *)
Definition evolved (t u : uuid) (k info : string) (c : FactEvolutionClassification)
    (result : option SemanticMemory) (s s' : Stores) : Prop :=
  match result with
  | None => fe_operation c = "no_conflict"%string ∧ same_facts t s s'
  | Some f => ∃ old, facts_in s t !! (u, k) = Some old ∧
      ((fe_operation c = "update"%string ∧ sm_fact_value f = info ∧ sm_valid_until f = sm_valid_until old ∧
        facts_in s' t = <[(u, k) := f]> (facts_in s t)) ∨
       (fe_operation c = "refine"%string ∧ sm_valid_until f = sm_valid_until old ∧
        (sm_fact_value f = (sm_fact_value old +:+ "; " +:+ info)%string ∨
         ∃ reply, parse_merged reply = Ret (sm_fact_value f)) ∧
        facts_in s' t = <[(u, k) := f]> (facts_in s t)) ∨
       (fe_operation c = "invalidate"%string ∧ ∃ d, f = with_valid_until (no_embedding old) (Some d) ∧
        facts_in s' t = <[(u, k) := with_valid_until old (Some d)]> (facts_in s t)))
  end.

(** When evolving a fact returns, the operation is one of the four the
    prompt names and is the one that was carried out: the new value, the merged
    or concatenated one, the closed validity, or nothing at all. *)
Theorem EvolveMemory_dispatch t u k info s c result s' :
  EvolveMemory_execute t u k info s = (Ret (c, result), s') → evolved t u k info c result s s'.
Proof.
  unfold EvolveMemory_execute, mbind at 1, stm_bind at 1.
  pose proof (classify_same t u k info s) as Hc. pose proof (classify_valid t u k info s) as Hvalid.
  destruct (ClassifyFactEvolution_execute t u k info s) as [[c1|e] s1]; cbn [snd] in *; [|done].
  specialize (Hvalid _ _ eq_refl). destruct Hc as [Hf1 Hh1].
  unfold mbind, stm_bind, mret, stm_ret.
  pose proof (update_spec t u k info fone "" s1) as Hu. pose proof (refine_spec t u k info s1) as Hr.
  pose proof (invalidate_spec t u k None s1) as Hi. rewrite Hf1 in Hu, Hr, Hi. revert Hu Hr Hi.
  destruct (String.eqb_spec (fe_operation c1) "update") as [Hop|Hu1];
    [|destruct (String.eqb_spec (fe_operation c1) "refine") as [Hop|Hu2];
    [|destruct (String.eqb_spec (fe_operation c1) "invalidate") as [Hop|Hu3]]].
  - destruct (UpdateMemory_execute _ _ _ _ _ _ s1) as [[f|e] s2]; [|done].
    intros [_ Hu] _ _ [= <- <- <-]. destruct (Hu f eq_refl) as (old & ? & ? & ? & ? & ? & _).
    exists old. split; [done|]. by left.
  - destruct (RefineMemory_execute _ _ _ _ s1) as [[f|e] s2]; [|done].
    intros _ [_ Hr] _ [= <- <- <-]. destruct (Hr f eq_refl) as (old & ? & ? & ? & ? & ? & _).
    exists old. split; [done|]. right. by left.
  - destruct (InvalidateMemory_execute _ _ _ _ s1) as [[f|e] s2]; [|done].
    intros _ _ [_ Hi] [= <- <- <-]. destruct (Hi f eq_refl) as (old & d & ? & ? & ? & _).
    exists old. split; [done|]. right; right. split; [done|]. by exists d.
  - intros _ _ _ [= <- <- <-]. split; [|done].
    unfold _VALID_OPERATIONS in Hvalid.
    rewrite !elem_of_cons in Hvalid. by destruct Hvalid as [?|[?|[?|[?|?%elem_of_nil]]]].
Qed.
End commands.

(** ** On the Postgres tables *)

(** The user's address, on file in tenant 1, with the graph down. *)
Definition sample_fact : SemanticMemory :=
  mkFact 11 7 "address" "Lima" [fone] fone "s" None None.

Definition sample_stores (replies : list string) :
  MagStores PostgresFacts Sink Sink LengthEmbedder ScriptedChat :=
  mkStores (mkPgFacts {[ (7, "address"%string) := mkRow 1 sample_fact ]} [] 1 1000)
    (mkSink true 0) (mkSink false 0) (mkLengthEmbedder 0) (mkScripted replies) 1000 Z.of_nat 0.

(** The keys of a JSON object, with the quotes of the reply. *)
Definition json_field (k v : string) : string := (dq +:+ k +:+ dq +:+ ":" +:+ dq +:+ v +:+ dq)%string.
Definition sample_reply (operation : string) : string :=
  ("{" +:+ json_field "operation" operation +:+ "," +:+ json_field "reasoning" "r" +:+ "}")%string.

Definition sample_distance (a b : list f64) : f64 :=
  match cosine_similarity a b with Ret x => fsub fone x | Raise _ => fone end.
#[local] Instance sample_repository : SemanticMemoryRepository PostgresFacts :=
  postgres_semantic_memory sample_distance.
#[local] Instance sample_laws : SemanticMemoryLaws PostgresFacts facts_of history_of :=
  postgres_semantic_laws sample_distance.

Lemma EvolveMemory_remembers_witness :
  let s := sample_stores ["not json"; sample_reply "update"]%string in
  remembers facts_of history_of 1 7 "address" s (EvolveMemory_execute 1 7 "address" "Cusco" s).2.
Proof. exact (EvolveMemory_remembers facts_of history_of 1 7 "address" "Cusco" _). Defined.

Lemma EvolveMemory_dispatch_witness :
  let s := sample_stores ["not json"; sample_reply "invalidate"]%string in
  match EvolveMemory_execute 1 7 "address" "Cusco" s with
  | (Ret (c, result), s') => evolved facts_of history_of 1 7 "address" "Cusco" c result s s'
  | (Raise _, _) => False
  end.
Proof.
  intros s. destruct (EvolveMemory_execute 1 7 "address" "Cusco" s) as [[[c result]|e] s'] eqn:Hrun.
  - exact (EvolveMemory_dispatch facts_of history_of 1 7 "address" "Cusco" s c result s' Hrun).
  - vm_compute in Hrun. discriminate Hrun.
Defined.
