(* ===== verification/CascadeTiers.v ===== *)
(** * The cascade's three tiers

    orchestration/application/cascade_tiers.py.  Each tier turns what one
    paradigm found into a TierResult, through the validating constructor of
    Entities.v. *)

From Stdlib Require Import ZArith Lia String Floats.SpecFloat.
From S2P Require Import Prelude PyFloat PyTime Entities Ports FrozenCaches RagPorts MagDomain CacheWarmedRetrieve.

(** [SemanticFactSearch] of orchestration/domain/ports.py. *)
Class SemanticFactSearch (S : Type) : Type :=
  fact_search : uuid → uuid → list f64 → Z → stm S (list ScoredFact).

(** ** Construction *)

Definition _check_thresholds (hit_threshold partial_threshold : f64) : res unit :=
  if flt hit_threshold partial_threshold
  then Raise (ValueError "partial_threshold cannot exceed hit_threshold") else Ret tt.

Definition _check_top_k (top_k : Z) : res unit :=
  if top_k <? 1 then Raise (ValueError "top_k must be at least 1") else Ret tt.

Record Thresholds : Type := mkThresholds {
  th_hit : f64;
  th_partial : f64
}.

Definition CagTier_init (hit_threshold partial_threshold : f64) : res Thresholds :=
  _check_thresholds hit_threshold partial_threshold;; Ret (mkThresholds hit_threshold partial_threshold).

Definition MagTier_init (hit_threshold partial_threshold : f64) (top_k : Z) : res (Thresholds * Z) :=
  _check_thresholds hit_threshold partial_threshold;; _check_top_k top_k;;
  Ret (mkThresholds hit_threshold partial_threshold, top_k).

Definition RagTier_init (top_k : Z) : res Z := _check_top_k top_k;; Ret top_k.

(** ** Attempts *)

Definition hit_or_partial (reached : bool) : TierOutcome := if reached then HIT else PARTIAL.

Section cag.
Context {E C KV R : Type} `{EmbeddingModel E} `{FrozenCache C KV} `{Retriever R}.

Definition CagTier_attempt (th : Thresholds) (request : TierRequest) :
  stm (CacheWarmedRetrieve E C R) TierResult :=
  result ← best_warmed_match (tr_tenant_id request) (tr_query_embedding request);
  match result with
  | None => lift_res (TierResult_init MISS [])
  | Some result =>
      if flt (sr_score result) (th_partial th) then lift_res (TierResult_init MISS [])
      else
        let item := mkItem CAG (sr_content result) (sr_score result) (Some (sr_document_id result)) in
        lift_res (TierResult_init (hit_or_partial (fle (th_hit th) (sr_score result))) [item])
  end.
End cag.

Definition mag_item (scored : ScoredFact) : ContextItem :=
  mkItem MAG (sm_fact_key (sf_fact scored) +:+ ": " +:+ sm_fact_value (sf_fact scored))%string
    (sf_score scored) (Some (sm_id (sf_fact scored))).

Definition relevant (th : Thresholds) (facts : list ScoredFact) : list ScoredFact :=
  filter (λ scored, fle (th_partial th) (sf_score scored) = true) facts.

(** What the tier makes of the facts it was given. *)
Definition mag_result (th : Thresholds) (facts : list ScoredFact) : res TierResult :=
  match relevant th facts with
  | [] => TierResult_init MISS []
  | scored :: rest =>
      let best := py_max (sf_score scored) (map sf_score rest) in
      TierResult_init (hit_or_partial (fle (th_hit th) best)) (map mag_item (scored :: rest))
  end.

Section mag.
Context {S : Type} `{SemanticFactSearch S}.

Definition MagTier_attempt (th : Thresholds) (top_k : Z) (request : TierRequest) : stm S TierResult :=
  facts ← fact_search (tr_tenant_id request) (tr_user_id request) (tr_query_embedding request) top_k;
  lift_res (mag_result th facts).
End mag.

Section rag.
Context {R : Type} `{Retriever R}.

Definition rag_item (r : SearchResult) : ContextItem :=
  mkItem RAG (sr_content r) (sr_score r) (Some (sr_document_id r)).

Definition RagTier_attempt (top_k : Z) (request : TierRequest) : stm R TierResult :=
  results ← retrieve (tr_tenant_id request) (tr_query request) top_k;
  match results with
  | [] => lift_res (TierResult_init MISS [])
  | _ => lift_res (TierResult_init HIT (map rag_item results))
  end.
End rag.

(** ** What a tier reports *)

(** A result the cascade can rely on: the outcome is one a tier may report,
    every item carries the tier's paradigm, and items come exactly with a hit
    or a partial hit. *)
Definition tier_reports (p : Paradigm) (r : TierResult) : Prop :=
  tier_reportable (res_outcome r) = true ∧
  Forall (λ i, ci_paradigm i = p) (res_items r) ∧
  (res_items r = [] ↔ res_outcome r = MISS).

Lemma tier_result_miss : TierResult_init MISS [] = Ret (mkTierResult MISS []).
Proof. done. Qed.
Lemma tier_result_found b i l :
  TierResult_init (hit_or_partial b) (i :: l) = Ret (mkTierResult (hit_or_partial b) (i :: l)).
Proof. by destruct b. Qed.
Lemma tier_result_hit i l : TierResult_init HIT (i :: l) = Ret (mkTierResult HIT (i :: l)).
Proof. done. Qed.

Lemma items_paradigm {A} (f : A → ContextItem) p l :
  (∀ x, ci_paradigm (f x) = p) → Forall (λ i, ci_paradigm i = p) (map f l).
Proof. intros Hf. induction l; constructor; [apply Hf|done]. Qed.

(** What counts as a hit for the facts found. *)
Definition mag_outcome (th : Thresholds) (facts : list ScoredFact) (o : TierOutcome) : Prop :=
  (o = HIT ↔ ∃ f, f ∈ facts ∧ fle (th_hit th) (sf_score f) = true ∧ fle (th_partial th) (sf_score f) = true) ∧
  (o = MISS ↔ ∀ f, f ∈ facts → fle (th_partial th) (sf_score f) = false).

Lemma mag_result_spec th facts :
  ∃ r, mag_result th facts = Ret r ∧ tier_reports MAG r ∧ mag_outcome th facts (res_outcome r) ∧
    res_items r = map mag_item (relevant th facts).
Proof.
  unfold mag_result. assert (Hin : ∀ f, f ∈ relevant th facts ↔ fle (th_partial th) (sf_score f) = true ∧ f ∈ facts).
  { intros f. unfold relevant. by rewrite list_elem_of_filter. }
  destruct (relevant th facts) as [|s l] eqn:Hrel.
  - eexists. split; [apply tier_result_miss|]. split; [|split; [split|done]].
    + split; [done|]. split; [constructor|done].
    + split; [done|]. intros (f & Hf & _ & Hp). exfalso. by apply (not_elem_of_nil f), Hin.
    + split; [|done]. intros _ f Hf. apply not_true_is_false. intros Hp. exfalso. by apply (not_elem_of_nil f), Hin.
  - eexists. split; [apply tier_result_found|]. cbn [res_outcome res_items].
    assert (Hnan : Forall (λ v, is_nan v = false) (map sf_score (s :: l))).
    { apply Forall_map. rewrite list.Forall_forall. intros f Hf. apply Hin in Hf as [Hf _].
      by apply fle_not_nan in Hf as [_ ?]. }
    assert (Hhit : ∀ b, hit_or_partial b = HIT ↔ b = true) by (by intros []).
    split; [split; [|split]|split; [split|done]].
    + by destruct (fle _ _).
    + by apply (items_paradigm mag_item MAG (s :: l)).
    + cbn [map res_outcome res_items]. by destruct (fle _ _).
    + rewrite Hhit, (py_max_reaches _ _ _ Hnan). change (sf_score s :: map sf_score l) with (map sf_score (s :: l)).
      split.
      * intros (v & Hv & Hh). change (v ∈ sf_score <$> (s :: l)) in Hv. apply list_elem_of_fmap in Hv as (f & -> & [Hp Hf]%Hin). by exists f.
      * intros (f & Hf & Hh & Hp). exists (sf_score f). split; [|done].
        change (sf_score f ∈ sf_score <$> (s :: l)). apply list_elem_of_fmap. exists f. split; [done|]. by apply Hin.
    + split; [by destruct (fle _ _)|]. intros Hmiss. exfalso.
      assert (s ∈ s :: l) as [Hp Hf]%Hin by (by left). by rewrite Hmiss in Hp.
Qed.

(** A MAG attempt over the facts the search returned never fails of its
    own: it is a HIT exactly when some fact reaches the hit threshold (and the
    partial one), a MISS exactly when none reaches the partial threshold,
    PARTIAL otherwise, and it carries one item for each relevant fact, in the
    search's order. *)
Theorem MagTier_attempt_outcome {S} `{SemanticFactSearch S} th top_k request s :
  let '(found, s1) := fact_search (tr_tenant_id request) (tr_user_id request)
                        (tr_query_embedding request) top_k s in
  match found with
  | Raise e => MagTier_attempt th top_k request s = (Raise e, s1)
  | Ret facts => ∃ r, MagTier_attempt th top_k request s = (Ret r, s1) ∧ tier_reports MAG r ∧
      mag_outcome th facts (res_outcome r) ∧ res_items r = map mag_item (relevant th facts)
  end.
Proof.
  unfold MagTier_attempt, mbind, stm_bind, lift_res.
  destruct (fact_search _ _ _ _ s) as [[facts|e] s1]; [|done].
  destruct (mag_result_spec th facts) as (r & -> & Hr). by exists r.
Qed.

Section cag_attempt.
Context {E C KV R : Type} `{EmbeddingModel E} `{FrozenCache C KV} `{Retriever R}.
Context (view : C → gmap (uuid * uuid) (CacheHit KV)) `{!FrozenCacheReads C KV view}.

(** What a CAG attempt may report, given the memo and the cache. *)
Definition cag_reports (th : Thresholds) (s : CacheWarmedRetrieve E C R) (request : TierRequest)
    (r : TierResult) : Prop :=
  let t := tr_tenant_id request in
  let q := tr_query_embedding request in
  match res_outcome r with
  | MISS => ∀ c, scored_memo s t q c → confirms view s t c.1.2 c.2 → flt (cand_score c) (th_partial th) = true
  | o => ∃ d text score, res_items r = [mkItem CAG text score (Some d)] ∧
      scored_memo s t q (score, d, text) ∧ confirms view s t d text ∧
      flt score (th_partial th) = false ∧ (o = HIT ↔ fle (th_hit th) score = true)
  end.

Lemma cag_attempt_spec th request s r s' :
  is_nan (th_partial th) = false →
  (∀ c, scored_memo s (tr_tenant_id request) (tr_query_embedding request) c → is_nan (cand_score c) = false) →
  CagTier_attempt th request s = (Ret r, s') →
  same_memo view s s' ∧ tier_reports CAG r ∧ cag_reports th s request r.
Proof.
  intros Hth Hnan. unfold CagTier_attempt, mbind, stm_bind.
  destruct (best_warmed_match _ _ s) as [[best|e] s1] eqn:Hb; [|done].
  apply (best_match_spec view) in Hb as [Hm Hbest]; [|done].
  destruct best as [b|]; cbn [best_of] in Hbest.
  - destruct Hbest as (Hmemo & Hconf & _ & Htop).
    destruct (flt (sr_score b) (th_partial th)) eqn:Hlow.
    + intros [= <- <-]. split; [done|]. split; [done|]. unfold cag_reports. cbn [res_outcome].
      intros c Hc Hcc. specialize (Htop c Hc Hcc). apply Hnan in Hc, Hmemo. cbn in Hmemo.
      rewrite flt_not_fle in Hlow |- * by done. apply negb_true_iff in Hlow. apply negb_true_iff.
      apply not_true_is_false. intros Hp. apply not_true_iff_false in Hlow. apply Hlow.
      by apply fle_trans with (cand_score c).
    + unfold lift_res. rewrite tier_result_found. intros [= <- <-].
      split; [done|]. unfold tier_reports, cag_reports. cbn [res_outcome res_items].
      destruct (fle (th_hit th) (sr_score b)) eqn:Hhit; cbn [hit_or_partial];
        (split; [split; [done|split; [by constructor|done]]|]);
        exists (sr_document_id b), (sr_content b), (sr_score b); split_and!; try done; by rewrite Hhit.
  - intros [= <- <-]. split; [done|]. split; [done|]. unfold cag_reports. cbn [res_outcome].
    intros c Hc Hcc. by destruct (Hbest c Hc).
Qed.
End cag_attempt.

(** A CAG attempt serves only what the frozen cache vouches for: a reported
    item is a document warmed for the request's tenant, scored by its
    similarity to the query, confirmed by a live cache entry hashing exactly
    its text, at or above the partial threshold, and a HIT exactly from the hit
    threshold on; a MISS means every confirmed document scores below the
    partial threshold. *)
Theorem CagTier_attempt_confirmed {E C KV R} `{EmbeddingModel E} `{FrozenCache C KV} `{Retriever R}
    (view : C → gmap (uuid * uuid) (CacheHit KV)) `{!FrozenCacheReads C KV view}
    th request (s s' : CacheWarmedRetrieve E C R) r :
  is_nan (th_partial th) = false →
  (∀ c, scored_memo s (tr_tenant_id request) (tr_query_embedding request) c → is_nan (cand_score c) = false) →
  CagTier_attempt th request s = (Ret r, s') →
  same_memo view s s' ∧ tier_reports CAG r ∧ cag_reports view th s request r.
Proof. intros Hth Hnan Hrun. by apply cag_attempt_spec. Qed.

Lemma rag_attempt_spec {R} `{Retriever R} top_k request s r s' :
  RagTier_attempt top_k request s = (Ret r, s') →
  tier_reports RAG r ∧ (res_outcome r = HIT ∨ res_outcome r = MISS).
Proof.
  unfold RagTier_attempt, mbind, stm_bind. destruct (retrieve _ _ _ s) as [[[|x l]|e] s1]; [..|done].
  - intros [= <- _]. split; [done|]. by right.
  - unfold lift_res. cbn [map]. rewrite tier_result_hit. intros [= <- _].
    split; [|by left]. split; [done|]. split; [|done]. cbn [res_items].
    by apply (items_paradigm rag_item RAG (x :: l)).
Qed.

(** ** A worked example *)

Definition sample_tier_request : TierRequest := mkRequest 1 7 9 "q" [fone; fzero].

Definition sample_attempt : res TierResult * CacheWarmedRetrieve unit (HFFrozenCache nat) unit :=
  CagTier_attempt (C := HFFrozenCache nat) (KV := nat) (R := unit)
    (H0 := hf_frozen_cache (H := length_model))
    (mkThresholds (flit 9 10) (flit 1 2)) sample_tier_request sample_cwr.

Lemma CagTier_attempt_confirmed_witness :
  match sample_attempt with
  | (Ret r, s') => same_memo hf_view sample_cwr s' ∧ tier_reports CAG r ∧
      cag_reports hf_view (mkThresholds (flit 9 10) (flit 1 2)) sample_cwr sample_tier_request r
  | (Raise _, _) => False
  end.
Proof.
  destruct sample_attempt as [[r|e] s'] eqn:Hrun.
  - apply (CagTier_attempt_confirmed (H0 := hf_frozen_cache (H := length_model))
      (H := length_embedder) (H1 := empty_retriever) hf_view
      (mkThresholds (flit 9 10) (flit 1 2)) sample_tier_request sample_cwr s' r);
      [reflexivity|exact sample_not_nan|exact Hrun].
  - vm_compute in Hrun. discriminate Hrun.
Defined.
