(* ===== verification/LatencyCascade.v ===== *)
(** * The latency-adaptive fallback cascade

    orchestration/application/latency_cascade.py as an event machine.  Runs of
    the cascade share one event loop and one set of background completions, so
    the state holds every run in progress, every tier task, the background and
    cancelled sets, the access tracker and the findings handed to the sink; an
    event is one thing the loop can do next, and [step] is the synchronous code
    that runs before the next await.

    - [run], [_run_unrouted], [_run_routed], [_run_parallel] are [begin_phase]
      and [deliver_phase]: what a run waits for, and where an attempt's outcome
      takes it;
    - [_attempt] is split at its one await: a tier task is started with the
      phase that waits for it, and [attempt_resumes] or [attempt_times_out] is
      the code after the await;
    - [_finish_in_background] is [finish_resumes], again after its await;
    - a tier that ends, a timer that fires, a caller that cancels and a sink
      that completes are events, in any order and any interleaving.

    The background deadline has no event of its own: all it does is ask the tier
    to cancel, and the tier then ends as any tier may.  [asyncio.gather]'s
    cancellation of the sibling attempts is taken in the step that fails the run. *)

From Stdlib Require Import ZArith Lia String Floats.SpecFloat.
From S2P Require Import Prelude PyFloat PyTime Entities Ports AccessTracking.

(** ** Configuration *)

Record TierTimeouts : Type := mkTimeouts {
  tt_cag : f64;
  tt_mag : f64;
  tt_rag : f64
}.

Definition TierTimeouts_init (cag mag rag : f64) : res TierTimeouts :=
  if fle (py_min cag [mag; rag]) fzero then Raise (ValueError "tier timeouts must be positive")
  else Ret (mkTimeouts cag mag rag).

Definition default_timeouts : TierTimeouts := mkTimeouts (flit 1 100) (flit 1 20) (of_Z_raw 2).

Definition timeout_for (t : TierTimeouts) (p : Paradigm) : f64 :=
  match p with CAG => tt_cag t | MAG => tt_mag t | RAG => tt_rag t end.

Definition DEFAULT_BACKGROUND_TIMEOUT : f64 := of_Z_raw 30.
Definition DEFAULT_MAX_BACKGROUND : Z := 16.

Record LatencyCascade : Type := mkCascade {
  lc_tiers : gset Paradigm;
  lc_timeouts : TierTimeouts;
  lc_has_sink : bool;
  lc_background_timeout : f64;
  lc_max_background : Z
}.

Definition LatencyCascade_init (tiers : list Paradigm) (timeouts : option TierTimeouts) (has_sink : bool)
    (background_timeout : f64) (max_background : Z) : res LatencyCascade :=
  let by_paradigm : gset Paradigm := list_to_set tiers in
  if negb (Nat.eqb (size by_paradigm) (length tiers))
  then Raise (ValueError "configure at most one tier per paradigm")
  else if negb (bool_decide (RAG ∈ by_paradigm))
  then Raise (ValueError "a RAG tier is required: it is the cascade's last resort")
  else if fle background_timeout fzero then Raise (ValueError "background_timeout must be positive")
  else if max_background <? 1 then Raise (ValueError "max_background must be at least 1")
  else Ret (mkCascade by_paradigm (default default_timeouts timeouts) has_sink background_timeout
              max_background).

(** ** Collecting attempts *)

(** What [_attempt] returns: the record, and the result unless it degraded. *)
Definition AttemptResult : Type := TierAttempt * option TierResult.

Record Collector : Type := mkCollector {
  co_items : list ContextItem;
  co_attempts : list TierAttempt;
  co_satisfied : gset Paradigm;
  co_degraded : bool
}.

Definition empty_collector : Collector := mkCollector [] [] ∅ false.

Definition collector_add (c : Collector) (a : AttemptResult) : Collector :=
  match a.2 with
  | None => mkCollector (co_items c) (co_attempts c ++ [a.1]) (co_satisfied c) true
  | Some result =>
      mkCollector (co_items c ++ res_items result) (co_attempts c ++ [a.1])
        (if decide (res_outcome result = HIT) then co_satisfied c ∪ {[ta_paradigm a.1]} else co_satisfied c)
        (co_degraded c)
  end.

Definition collector_result (c : Collector) : CascadeResult :=
  mkCascadeResult (co_items c) (co_attempts c) (co_satisfied c) (co_degraded c).

Definition is_hit (a : AttemptResult) : bool :=
  match a.2 with Some r => bool_decide (res_outcome r = HIT) | None => false end.

(** ** The phases of a run *)

Inductive RunPhase : Type :=
  | Sequential (current : Paradigm) (rest : list Paradigm) (c : Collector)
  | Gathering (slots : list (Paradigm * option AttemptResult))
  | Returned (r : CascadeResult)
  | Failed (e : exn).

(** The attempts a phase awaits. *)
Definition waiting_of (phase : RunPhase) : list Paradigm :=
  match phase with
  | Sequential p _ _ => [p]
  | Gathering slots => map fst (filter (λ s, s.2 = None) slots)
  | Returned _ | Failed _ => []
  end.

Section machine.
Context (cascade : LatencyCascade).

Definition configured : list Paradigm := filter (λ p, p ∈ lc_tiers cascade) PARADIGM_ORDER.

Definition eligible (d : RoutingDecision) : list Paradigm :=
  filter (λ p, p ∈ lc_tiers cascade ∧ (p ∈ rd_paradigms d ∨ p = RAG)) PARADIGM_ORDER.

(** The head of the loop of [_run_routed], or of [_run_unrouted]. *)
Definition next_phase (decision : option RoutingDecision) (rest : list Paradigm) (c : Collector) : RunPhase :=
  match rest with
  | [] => Returned (collector_result c)
  | p :: rest' =>
      match decision with
      | Some d => if decide (rd_paradigms d ⊆ co_satisfied c) then Returned (collector_result c)
                  else Sequential p rest' c
      | None => Sequential p rest' c
      end
  end.

(** The rest of the loop body, after the attempt. *)
Definition after_attempt (decision : option RoutingDecision) (rest : list Paradigm) (c : Collector)
    (a : AttemptResult) : RunPhase :=
  let c' := collector_add c a in
  match decision with
  | None => if is_hit a then Returned (collector_result c') else next_phase None rest c'
  | Some d => next_phase (Some d) rest c'
  end.

(** [gather] returns once every slot is filled, in the order of the tasks. *)
Definition gathered (slots : list (Paradigm * option AttemptResult)) : RunPhase :=
  if bool_decide (filter (λ s, s.2 = None) slots = [])
  then Returned (collector_result (foldl collector_add empty_collector (omap snd slots)))
  else Gathering slots.

Definition begin_phase (decision : option RoutingDecision) : RunPhase :=
  match decision with
  | None => next_phase None configured empty_collector
  | Some d =>
      match rd_mode d with
      | PARALLEL => gathered (map (λ p, (p, None)) (eligible d))
      | CASCADE => next_phase (Some d) (eligible d) empty_collector
      end
  end.

Definition fill_slot (p : Paradigm) (a : AttemptResult) (s : Paradigm * option AttemptResult) :
  Paradigm * option AttemptResult := if decide (s.1 = p) then (p, Some a) else s.

(** An attempt's outcome reaches its run; [None] is a CancelledError. *)
Definition deliver_phase (decision : option RoutingDecision) (phase : RunPhase) (p : Paradigm)
    (outcome : option AttemptResult) : RunPhase :=
  match outcome with
  | None => Failed CancelledError
  | Some a =>
      match phase with
      | Sequential _ rest c => after_attempt decision rest c a
      | Gathering slots => gathered (map (fill_slot p a) slots)
      | _ => phase
      end
  end.

(** ** The state of the loop *)

(** A tier task is named by its run and its paradigm. *)
Abbreviation task := (nat * Paradigm)%type.

Inductive TaskState : Type :=
  | Running
  | Done (r : res TierResult).

(** A background completion awaits the tier, then the sink. *)
Inductive BackgroundPhase : Type := AwaitingTier | AwaitingSink.

Record Run : Type := mkRun {
  run_request : TierRequest;
  run_decision : option RoutingDecision;
  run_phase : RunPhase
}.

Context {T : Type} `{AccessFrequencyTracker T}.

Record State : Type := mkState {
  st_runs : gmap nat Run;
  st_tasks : gmap task TaskState;
  st_background : gmap task BackgroundPhase;
  st_cancelled : gset task;
  st_tracker : option T;
  st_findings : list (TierRequest * list ContextItem)
}.

Definition set_run (rid : nat) (run : Run) (phase : RunPhase) (s : State) : State :=
  mkState (<[rid := mkRun (run_request run) (run_decision run) phase]> (st_runs s)) (st_tasks s)
    (st_background s) (st_cancelled s) (st_tracker s) (st_findings s).
Definition set_task (t : task) (ts : TaskState) (s : State) : State :=
  mkState (st_runs s) (<[t := ts]> (st_tasks s)) (st_background s) (st_cancelled s) (st_tracker s)
    (st_findings s).
Definition set_background (b : gmap task BackgroundPhase) (s : State) : State :=
  mkState (st_runs s) (st_tasks s) b (st_cancelled s) (st_tracker s) (st_findings s).
Definition set_cancelled (c : gset task) (s : State) : State :=
  mkState (st_runs s) (st_tasks s) (st_background s) c (st_tracker s) (st_findings s).
Definition set_tracker (tr : option T) (s : State) : State :=
  mkState (st_runs s) (st_tasks s) (st_background s) (st_cancelled s) tr (st_findings s).
Definition add_finding (f : TierRequest * list ContextItem) (s : State) : State :=
  mkState (st_runs s) (st_tasks s) (st_background s) (st_cancelled s) (st_tracker s) (st_findings s ++ [f]).

(** [create_task(tier.attempt(request))], for each of these paradigms. *)
Definition start_tasks (rid : nat) (ps : list Paradigm) (s : State) : State :=
  foldl (λ s p, set_task (rid, p) Running s) s ps.

(** [_record_rag_access]: one access per document, in order of first
    appearance; a tracker that raises is logged and stops the loop. *)
Definition rag_documents (items : list ContextItem) : list uuid :=
  od_keys (od_of_list (map (λ d, (d, tt)) (omap ci_source_id items))).

Definition _record_rag_access (request : TierRequest) (items : list ContextItem) (now : datetime)
    (s : State) : State :=
  match st_tracker s with
  | None => s
  | Some tr =>
      let '(_, tr') := for_each (rag_documents items)
        (λ d, at_record_access (tr_tenant_id request) d now) tr in
      set_tracker (Some tr') s
  end.

(** [_cancel_tier]; a task already done leaves the set at once. *)
Definition _cancel_tier (t : task) (s : State) : State :=
  match st_tasks s !! t with
  | Some Running => set_cancelled (st_cancelled s ∪ {[t]}) s
  | _ => s
  end.

(** ** After an await *)

(** [_attempt], woken by its tier's end. *)
Definition attempt_times_out (t : task) (elapsed : f64) (s : State) : option AttemptResult * State :=
  (Some (mkAttempt t.2 TIMEOUT elapsed, None),
   if bool_decide (t.2 = RAG) && lc_has_sink cascade
      && (Z.of_nat (size (st_background s)) <? lc_max_background cascade)
   then set_background (<[t := AwaitingTier]> (st_background s)) s
   else _cancel_tier t s).

Definition attempt_resumes (t : task) (request : TierRequest) (r : res TierResult) (elapsed : f64)
    (now : datetime) (s : State) : option AttemptResult * State :=
  match r with
  | Ret result =>
      (Some (mkAttempt t.2 (res_outcome result) elapsed, Some result),
       if bool_decide (t.2 = RAG) && bool_decide (res_outcome result = HIT)
       then _record_rag_access request (res_items result) now s else s)
  | Raise TimeoutError => attempt_times_out t elapsed s
  | Raise CancelledError => (None, _cancel_tier t s)
  | Raise _ => (Some (mkAttempt t.2 ERROR elapsed, None), s)
  end.

(** The run takes the outcome; a failing run cancels the other attempts. *)
Definition deliver (rid : nat) (run : Run) (p : Paradigm) (outcome : option AttemptResult) (s : State) : State :=
  let phase := deliver_phase (run_decision run) (run_phase run) p outcome in
  let s := set_run rid run phase s in
  match outcome, phase with
  | None, _ => foldl (λ s q, _cancel_tier (rid, q) s) s (waiting_of (run_phase run))
  | Some _, Sequential q _ _ => start_tasks rid [q] s
  | Some _, _ => s
  end.

(** [finish], woken by the tier's end. *)
Definition finish_resumes (t : task) (request : TierRequest) (r : res TierResult) (now : datetime)
    (s : State) : State :=
  match r with
  | Ret result =>
      if decide (res_outcome result = HIT) then
        let s := _record_rag_access request (res_items result) now s in
        add_finding (request, res_items result)
          (set_background (<[t := AwaitingSink]> (st_background s)) s)
      else set_background (delete t (st_background s)) s
  | Raise _ => set_background (delete t (st_background s)) s
  end.

(** ** Events *)

Inductive Event : Type :=
  | EStart (rid : nat) (request : TierRequest) (decision : option RoutingDecision)
  | ETierEnds (t : task) (r : res TierResult)
  | EResume (t : task) (elapsed : f64) (now : datetime)
  | ETimer (t : task) (elapsed : f64)
  | ECancelRun (rid : nat)
  | EFinish (t : task) (now : datetime)
  | ESinkEnds (t : task).

(** A TierResult that its constructor accepts. *)
Definition tier_valid (r : res TierResult) : bool :=
  match r with
  | Ret t => tier_reportable (res_outcome t) &&
      match res_outcome t, res_items t with MISS, _ :: _ => false | _, _ => true end
  | Raise _ => true
  end.

(** The run that awaits this task's attempt. *)
Definition awaiting_run (t : task) (s : State) : option Run :=
  run ← st_runs s !! t.1; guard (t.2 ∈ waiting_of (run_phase run));; Some run.

Definition step (e : Event) (s : State) : option State :=
  match e with
  | EStart rid request decision =>
      match st_runs s !! rid with
      | Some _ => None
      | None =>
          let phase := begin_phase decision in
          Some (start_tasks rid (waiting_of phase) (set_run rid (mkRun request decision phase) phase s))
      end
  | ETierEnds t r =>
      match st_tasks s !! t with
      | Some Running =>
          if tier_valid r then Some (set_cancelled (st_cancelled s ∖ {[t]}) (set_task t (Done r) s)) else None
      | _ => None
      end
  | EResume t elapsed now =>
      match awaiting_run t s, st_tasks s !! t with
      | Some run, Some (Done r) =>
          let '(outcome, s1) := attempt_resumes t (run_request run) r elapsed now s in
          Some (deliver t.1 run t.2 outcome s1)
      | _, _ => None
      end
  | ETimer t elapsed =>
      match awaiting_run t s with
      | Some run =>
          let '(outcome, s1) := attempt_times_out t elapsed s in
          Some (deliver t.1 run t.2 outcome s1)
      | None => None
      end
  | ECancelRun rid =>
      match st_runs s !! rid with
      | Some run =>
          match waiting_of (run_phase run) with
          | [] => None
          | p :: _ => Some (deliver rid run p None s)
          end
      | None => None
      end
  | EFinish t now =>
      match st_background s !! t, st_tasks s !! t, st_runs s !! t.1 with
      | Some AwaitingTier, Some (Done r), Some run => Some (finish_resumes t (run_request run) r now s)
      | _, _, _ => None
      end
  | ESinkEnds t =>
      match st_background s !! t with
      | Some AwaitingSink => Some (set_background (delete t (st_background s)) s)
      | _ => None
      end
  end.

Fixpoint steps (es : list Event) (s : State) : option State :=
  match es with
  | [] => Some s
  | e :: es' => s' ← step e s; steps es' s'
  end.

Definition initial (tracker : option T) : State := mkState ∅ ∅ ∅ ∅ tracker [].

(** [drain] returns when nothing is left in either set. *)
Definition drained (s : State) : Prop := st_background s = ∅ ∧ st_cancelled s = ∅.

(** ** The specification of a run *)

(** Each tier's outcome, had it been attempted. *)
Abbreviation outcomes := (Paradigm → AttemptResult).

Definition attempt_ok (p : Paradigm) (a : AttemptResult) : Prop :=
  ta_paradigm a.1 = p ∧
  match a.2 with
  | None => ta_outcome a.1 = TIMEOUT ∨ ta_outcome a.1 = ERROR
  | Some r => ta_outcome a.1 = res_outcome r ∧ tier_valid (Ret r) = true
  end.

Definition sat_add (sat : gset Paradigm) (a : AttemptResult) : gset Paradigm :=
  if is_hit a then sat ∪ {[ta_paradigm a.1]} else sat.

Definition stops (decision : option RoutingDecision) (sat : gset Paradigm) : bool :=
  match decision with Some d => bool_decide (rd_paradigms d ⊆ sat) | None => false end.

(** One tier after the other: a routed run stops once the routed paradigms are
    satisfied, an unrouted one after its first hit. *)
Fixpoint sequential_spec (decision : option RoutingDecision) (sat : gset Paradigm)
    (ps : list Paradigm) (out : outcomes) : list AttemptResult :=
  match ps with
  | [] => []
  | p :: ps' =>
      if stops decision sat then []
      else out p :: (match decision with
                     | None => if is_hit (out p) then [] else sequential_spec decision (sat_add sat (out p)) ps' out
                     | Some _ => sequential_spec decision (sat_add sat (out p)) ps' out
                     end)
  end.

Definition run_spec (decision : option RoutingDecision) (out : outcomes) : list AttemptResult :=
  match decision with
  | None => sequential_spec None ∅ configured out
  | Some d =>
      match rd_mode d with
      | PARALLEL => map out (eligible d)
      | CASCADE => sequential_spec (Some d) ∅ (eligible d) out
      end
  end.

Definition hits (l : list AttemptResult) : gset Paradigm :=
  list_to_set (map (λ a, ta_paradigm a.1) (filter (λ a, is_hit a = true) l)).

Definition summarize (l : list AttemptResult) : CascadeResult :=
  mkCascadeResult (flat_map (λ a, match a.2 with Some r => res_items r | None => [] end) l)
    (map fst l) (hits l) (existsb (λ a, match a.2 with None => true | Some _ => false end) l).

(** The paradigms a run may attempt. *)
Definition planned (decision : option RoutingDecision) : list Paradigm :=
  match decision with None => configured | Some d => eligible d end.

(** ** Collecting is summarizing *)

Lemma hits_app l1 l2 : hits (l1 ++ l2) = hits l1 ∪ hits l2.
Proof. unfold hits. by rewrite filter_app, map_app, list_to_set_app_L. Qed.

Lemma hits_snoc l a : hits (l ++ [a]) = sat_add (hits l) a.
Proof.
  rewrite hits_app. unfold hits at 2, sat_add. rewrite filter_cons, filter_nil.
  destruct (is_hit a); simpl; set_solver.
Qed.

Lemma collector_add_satisfied c a : co_satisfied (collector_add c a) = sat_add (co_satisfied c) a.
Proof.
  unfold collector_add, sat_add, is_hit. destruct a.2 as [r|]; [|done]. simpl.
  destruct (decide (res_outcome r = HIT)); [by rewrite bool_decide_true|by rewrite bool_decide_false].
Qed.

Lemma collected_snoc l a :
  foldl collector_add empty_collector (l ++ [a]) = collector_add (foldl collector_add empty_collector l) a.
Proof. apply foldl_snoc. Qed.

Lemma collected l : collector_result (foldl collector_add empty_collector l) = summarize l.
Proof.
  induction l as [|a l IH] using rev_ind; [done|].
  rewrite collected_snoc. unfold collector_result. rewrite collector_add_satisfied.
  injection IH as Hi Ha Hs Hd. unfold summarize.
  rewrite flat_map_app, map_app, existsb_app, hits_snoc, Hs.
  unfold AttemptResult in *. rewrite <- Hd, <- Ha, <- Hi.
  unfold collector_add. by destruct a as [t [r|]]; simpl; rewrite ?app_nil_r, ?orb_false_r, ?orb_true_r.
Qed.

Lemma collected_satisfied l : co_satisfied (foldl collector_add empty_collector l) = hits l.
Proof. pose proof (collected l) as Hc. by injection Hc. Qed.

(** ** What each phase of a run has achieved *)

(** Outcomes read off the attempts made, with an error for the others. *)
Definition outcome_of (l : list (Paradigm * AttemptResult)) : outcomes := λ p,
  default (mkAttempt p ERROR fzero, None) (od_get p l).

Lemma outcome_of_ok l : Forall (λ pa, attempt_ok pa.1 pa.2) l → ∀ p, attempt_ok p (outcome_of l p).
Proof.
  intros Hl p. unfold outcome_of. induction Hl as [|[q a] l Ha _ IH].
  - split; [done|]. by right.
  - rewrite od_get_cons. destruct (decide (q = p)) as [<-|]; [done|apply IH].
Qed.

Lemma outcome_of_elem l p a : NoDup (map fst l) → (p, a) ∈ l → outcome_of l p = a.
Proof.
  intros Hnd Hin. unfold outcome_of. induction l as [|[q b] l IH]; [by apply not_elem_of_nil in Hin|].
  rewrite od_get_cons. apply NoDup_cons in Hnd as [Hq Hnd].
  apply elem_of_cons in Hin as [[= <- <-]|Hin]; [by rewrite decide_True|].
  rewrite decide_False; [by apply IH|]. intros ->. apply Hq.
  change (p ∈ fst <$> l). apply list_elem_of_fmap. by exists (p, a).
Qed.

Abbreviation par a := (ta_paradigm (fst a)).

(** A sequential run, having made the attempts [made], goes on as the
    specification does. *)
Record follows (decision : option RoutingDecision) (made : list AttemptResult) (todo : list Paradigm)
    (continue_ : outcomes → list AttemptResult) : Prop := {
  fo_ok : Forall (λ a, attempt_ok (par a) a) made;
  fo_nodup : NoDup (map (λ a, par a) made ++ todo);
  fo_planned : ∀ p, p ∈ todo → p ∈ planned decision;
  fo_spec out : (∀ a, a ∈ made → out (par a) = a) → run_spec decision out = made ++ continue_ out
}.

Definition rest_spec (decision : option RoutingDecision) (sat : gset Paradigm) (p : Paradigm)
    (rest : list Paradigm) (out : outcomes) : list AttemptResult :=
  out p :: match decision with
           | None => if is_hit (out p) then [] else sequential_spec decision (sat_add sat (out p)) rest out
           | Some _ => sequential_spec decision (sat_add sat (out p)) rest out
           end.

Definition slot_ok (s : Paradigm * option AttemptResult) : Prop :=
  match s.2 with Some a => attempt_ok s.1 a | None => True end.

Definition phase_ok (decision : option RoutingDecision) (phase : RunPhase) : Prop :=
  match phase with
  | Sequential p rest c => ∃ made, c = foldl collector_add empty_collector made ∧
      follows decision made (p :: rest) (rest_spec decision (hits made) p rest)
  | Gathering slots => ∃ d, decision = Some d ∧ rd_mode d = PARALLEL ∧ map fst slots = eligible d ∧
      Forall slot_ok slots ∧ waiting_of (Gathering slots) ≠ []
  | Returned r => ∃ out, (∀ p, attempt_ok p (out p)) ∧ r = summarize (run_spec decision out)
  | Failed e => e = CancelledError
  end.

Lemma follows_returns decision made todo :
  follows decision made todo (λ _, []) →
  phase_ok decision (Returned (collector_result (foldl collector_add empty_collector made))).
Proof.
  intros [Hok Hnd _ Hspec]. exists (outcome_of (map (λ a, (par a, a)) made)). split.
  - apply outcome_of_ok. by apply Forall_map.
  - rewrite collected, Hspec; [by rewrite app_nil_r|]. intros a Ha. apply outcome_of_elem.
    + rewrite map_map. by apply NoDup_app in Hnd as [? _].
    + change ((par a, a) ∈ (λ a : AttemptResult, (par a, a)) <$> made). apply list_elem_of_fmap. by exists a.
Qed.

Lemma next_phase_ok decision made ps :
  follows decision made ps (sequential_spec decision (hits made) ps) →
  phase_ok decision (next_phase decision ps (foldl collector_add empty_collector made)).
Proof.
  intros Hf. destruct ps as [|p ps]; cbn [next_phase]; [by apply (follows_returns _ _ [])|].
  rewrite collected_satisfied.
  assert (stops decision (hits made) = false → phase_ok decision
    (Sequential p ps (foldl collector_add empty_collector made))) as Hgo.
  { intros Hstop. exists made. split; [done|]. destruct Hf as [? ? ? Hspec]. split; [done..|].
    intros out Hout. rewrite (Hspec out Hout). cbn [sequential_spec]. by rewrite Hstop. }
  destruct decision as [d|]; [|by apply Hgo].
  destruct (decide (rd_paradigms d ⊆ hits made)) as [Hsub|Hsub].
  - apply (follows_returns _ _ (p :: ps)). destruct Hf as [? ? ? Hspec]. split; [done..|].
    intros out Hout. rewrite (Hspec out Hout). cbn [sequential_spec stops]. by rewrite bool_decide_true.
  - apply Hgo. cbn [stops]. by apply bool_decide_false.
Qed.

(** An attempt made extends what a run has made. *)
Lemma follows_snoc decision made p rest a continue_ :
  follows decision made (p :: rest) (λ out, out p :: continue_ out (out p)) → attempt_ok p a →
  follows decision (made ++ [a]) rest (λ out, continue_ out a).
Proof.
  intros [Hok Hnd Hpl Hspec] Ha. destruct Ha as [Hp Ha]. split.
  - apply Forall_app. split; [done|]. constructor; [|constructor]. by split.
  - rewrite map_app, <- (assoc_L (++)). simpl. by rewrite Hp.
  - intros q Hq. apply Hpl. by right.
  - intros out Hout. rewrite Hspec by (intros b Hb; apply Hout, elem_of_app; by left).
    rewrite <- (assoc_L (++)). simpl.
    assert (out p = a) as -> by (rewrite <- Hp; apply Hout, elem_of_app; right; by left). done.
Qed.

Lemma after_attempt_ok decision p rest c a :
  phase_ok decision (Sequential p rest c) → attempt_ok p a → phase_ok decision (after_attempt decision rest c a).
Proof.
  intros (made & -> & Hf) Ha. unfold after_attempt. rewrite <- collected_snoc.
  apply (follows_snoc decision made p rest a (λ out b, match decision with
    | None => if is_hit b then [] else sequential_spec decision (sat_add (hits made) b) rest out
    | Some _ => sequential_spec decision (sat_add (hits made) b) rest out end)) in Hf; [|done].
  destruct decision as [d|]; [|destruct (is_hit a) eqn:Hhit].
  - apply next_phase_ok. by rewrite hits_snoc.
  - by apply (follows_returns _ _ rest).
  - apply next_phase_ok. by rewrite hits_snoc.
Qed.

Lemma PARADIGM_ORDER_nodup : NoDup PARADIGM_ORDER.
Proof. apply (bool_decide_unpack (NoDup PARADIGM_ORDER)). vm_compute. done. Qed.

Lemma planned_nodup decision : NoDup (planned decision).
Proof. destruct decision; apply NoDup_filter, PARADIGM_ORDER_nodup. Qed.

Lemma filled_slots slots :
  filter (λ s : Paradigm * option AttemptResult, s.2 = None) slots = [] →
  ∃ l : list (Paradigm * AttemptResult), slots = map (λ pa, (pa.1, Some pa.2)) l.
Proof.
  induction slots as [|[p [a|]] slots IH]; [by exists []| |].
  - rewrite filter_cons_False by done. intros (l & ->)%IH. by exists ((p, a) :: l).
  - by rewrite filter_cons_True.
Qed.

Lemma omap_filled (l : list (Paradigm * AttemptResult)) :
  omap snd (map (λ pa, (pa.1, Some pa.2)) l) = map snd l.
Proof. induction l as [|x l IH]; [done|]. cbn. f_equal. exact IH. Qed.

Lemma gathered_ok d slots :
  rd_mode d = PARALLEL → map fst slots = eligible d → Forall slot_ok slots →
  phase_ok (Some d) (gathered slots).
Proof.
  intros Hmode Hfst Hok. unfold gathered.
  destruct (bool_decide_reflect (filter (λ s : Paradigm * option AttemptResult, s.2 = None) slots = []))
    as [Hall|Hsome]; [|by exists d; split_and!; try done; intros ?%map_eq_nil].
  destruct (filled_slots slots Hall) as [l ->].
  assert (Hl : Forall (λ pa : Paradigm * AttemptResult, attempt_ok pa.1 pa.2) l) by (by rewrite Forall_map in Hok).
  assert (Hfst' : map fst l = eligible d) by (rewrite <- Hfst, map_map; done).
  exists (outcome_of l). split; [by apply outcome_of_ok|].
  rewrite omap_filled.
  rewrite collected. f_equal. unfold run_spec. rewrite Hmode, <- Hfst', map_map.
  apply map_ext_in. intros [p a] Hin%list_elem_of_In. symmetry. apply outcome_of_elem; [|done].
  rewrite Hfst'. apply (planned_nodup (Some d)).
Qed.

Lemma begin_phase_ok decision : phase_ok decision (begin_phase decision).
Proof.
  unfold begin_phase.
  assert (Hseq : ∀ ps, ps = planned decision →
    (∀ out, run_spec decision out = sequential_spec decision ∅ ps out) →
    phase_ok decision (next_phase decision ps empty_collector)).
  { intros ps -> Hspec. apply (next_phase_ok decision []). split; [done|apply planned_nodup|done|].
    intros out _. apply Hspec. }
  destruct decision as [d|]; [|by apply Hseq].
  destruct (rd_mode d) eqn:Hmode.
  - apply Hseq; [done|]. intros out. unfold run_spec. by rewrite Hmode.
  - apply gathered_ok; [done|by rewrite map_map, map_id|].
    rewrite Forall_map. by apply Forall_true.
Qed.

Lemma fill_slots_ok p a slots :
  attempt_ok p a → Forall slot_ok slots → Forall slot_ok (map (fill_slot p a) slots).
Proof.
  intros Ha Hs. rewrite Forall_map. eapply Forall_impl; [done|]. intros s Hok.
  unfold fill_slot. by destruct (decide (s.1 = p)).
Qed.

Lemma fill_slots_fst p a slots : map fst (map (fill_slot p a) slots) = map fst slots.
Proof.
  rewrite map_map. apply map_ext. intros s. unfold fill_slot. by destruct (decide (s.1 = p)).
Qed.

Lemma deliver_phase_ok decision phase p outcome :
  phase_ok decision phase → p ∈ waiting_of phase → (∀ a, outcome = Some a → attempt_ok p a) →
  phase_ok decision (deliver_phase decision phase p outcome).
Proof.
  intros Hok Hp Ha. destruct outcome as [a|]; [|done]. specialize (Ha a eq_refl). cbn [deliver_phase].
  destruct phase as [q rest c|slots|r|e]; [|..|done|done].
  - apply list_elem_of_singleton in Hp as ->. by apply (after_attempt_ok _ q).
  - destruct Hok as (d & -> & Hmode & Hfst & Hok & _).
    apply gathered_ok; [done|by rewrite fill_slots_fst|by apply fill_slots_ok].
Qed.

(** What a phase awaits, and what it starts to await next. *)
Lemma next_phase_waiting decision ps c p : p ∈ waiting_of (next_phase decision ps c) → p ∈ ps.
Proof.
  destruct ps as [|q ps]; cbn [next_phase]; [by intros ?%elem_of_nil|].
  destruct decision as [d|]; [destruct (decide _); [by intros ?%elem_of_nil|]|];
    intros ->%list_elem_of_singleton; by left.
Qed.

Lemma gathered_waiting slots p : p ∈ waiting_of (gathered slots) → p ∈ waiting_of (Gathering slots).
Proof. unfold gathered. destruct (bool_decide _); [by intros ?%elem_of_nil|done]. Qed.

Lemma gathering_waiting slots p : p ∈ waiting_of (Gathering slots) ↔ (p, None) ∈ slots.
Proof.
  cbn [waiting_of]. change (p ∈ fst <$> filter (λ s : Paradigm * option AttemptResult, s.2 = None) slots ↔ (p, None) ∈ slots).
  rewrite list_elem_of_fmap. split.
  - intros ([q o] & -> & [Ho Hin]%list_elem_of_filter). simpl in *. by subst.
  - intros Hin. exists (p, None). split; [done|]. by apply list_elem_of_filter.
Qed.

Lemma waiting_planned decision phase p : phase_ok decision phase → p ∈ waiting_of phase → p ∈ planned decision.
Proof.
  destruct phase as [q rest c|slots|r|e]; [| |by intros _ ?%elem_of_nil|by intros _ ?%elem_of_nil].
  - intros (made & _ & Hf) ->%list_elem_of_singleton. apply (fo_planned _ _ _ _ Hf). by left.
  - intros (d & -> & _ & Hfst & _). rewrite gathering_waiting. intros Hin. cbn [planned]. rewrite <- Hfst.
    change (p ∈ fst <$> slots). apply list_elem_of_fmap. by exists (p, None).
Qed.

(** ** The invariant of the loop *)

(** A running task somebody still holds, other than the attempt awaiting it. *)
Definition held (s : State) (t : task) : Prop :=
  t ∈ st_cancelled s ∨ st_background s !! t = Some AwaitingTier.

Record Inv (s : State) : Prop := {
  inv_runs rid run : st_runs s !! rid = Some run → phase_ok (run_decision run) (run_phase run);
  inv_tasks t ts : st_tasks s !! t = Some ts →
    ∃ run, st_runs s !! t.1 = Some run ∧ t.2 ∈ planned (run_decision run);
  inv_valid t r : st_tasks s !! t = Some (Done r) → tier_valid r = true;
  inv_held t : st_tasks s !! t = Some Running → held s t ∨ is_Some (awaiting_run t s);
  inv_waiting t : is_Some (awaiting_run t s) → is_Some (st_tasks s !! t);
  inv_cancelled t : t ∈ st_cancelled s → st_tasks s !! t = Some Running;
  inv_background t b : st_background s !! t = Some b → is_Some (st_tasks s !! t) ∧ t.2 = RAG;
  inv_bound : Z.of_nat (size (st_background s)) ≤ Z.max 0 (lc_max_background cascade)
}.

Lemma awaiting_run_spec t s run :
  awaiting_run t s = Some run ↔ st_runs s !! t.1 = Some run ∧ t.2 ∈ waiting_of (run_phase run).
Proof.
  unfold awaiting_run. destruct (st_runs s !! t.1) as [run'|]; simpl; [|naive_solver].
  case_guard as Hw; simpl; naive_solver.
Qed.

(** Cancelling touches the cancelled set only. *)
Lemma cancel_tier_spec t s :
  _cancel_tier t s = set_cancelled (st_cancelled (_cancel_tier t s)) s ∧
  st_cancelled s ⊆ st_cancelled (_cancel_tier t s) ∧
  (st_tasks s !! t = Some Running → t ∈ st_cancelled (_cancel_tier t s)) ∧
  (∀ x, x ∈ st_cancelled (_cancel_tier t s) → x ∈ st_cancelled s ∨ st_tasks s !! x = Some Running).
Proof.
  unfold _cancel_tier. destruct s as [runs tasks bg cs tr fs]. simpl.
  destruct (tasks !! t) as [[|r]|] eqn:Ht; simpl; split_and!; try done; try set_solver.
Qed.

Lemma cancel_tiers_spec rid ps s :
  let s' := foldl (λ s q, _cancel_tier (rid, q) s) s ps in
  s' = set_cancelled (st_cancelled s') s ∧ st_cancelled s ⊆ st_cancelled s' ∧
  (∀ q, q ∈ ps → st_tasks s !! (rid, q) = Some Running → (rid, q) ∈ st_cancelled s') ∧
  (∀ x, x ∈ st_cancelled s' → x ∈ st_cancelled s ∨ st_tasks s !! x = Some Running).
Proof.
  revert s. induction ps as [|p ps IH]; intros s; simpl.
  - split_and!; [by destruct s|done|by intros q ?%elem_of_nil|tauto].
  - destruct (cancel_tier_spec (rid, p) s) as (Heq & Hsub & Hin & Hout).
    destruct (IH (_cancel_tier (rid, p) s)) as (Heq' & Hsub' & Hin' & Hout').
    set (s1 := _cancel_tier (rid, p) s) in *. set (s2 := foldl _ s1 ps) in *.
    assert (st_tasks s1 = st_tasks s) as Htasks by by rewrite Heq.
    split_and!.
    + rewrite Heq', Heq. done.
    + set_solver.
    + intros q [->|Hq]%elem_of_cons Hr; [apply Hsub'; by apply Hin|]. apply Hin'; [done|]. by rewrite Htasks.
    + intros x [Hx|Hx]%Hout'; [by apply Hout|]. right. by rewrite <- Htasks.
Qed.

(** A larger cancelled set of running tasks keeps the invariant. *)
Lemma inv_set_cancelled s cs :
  Inv s → st_cancelled s ⊆ cs → (∀ x, x ∈ cs → st_tasks s !! x = Some Running) → Inv (set_cancelled cs s).
Proof.
  intros [] Hsub Hrun. split; simpl; try done.
  intros t Ht. destruct (inv_held0 t Ht) as [[Hc|Hb]|Hw]; [left; left; set_solver|left; by right|by right].
Qed.

Lemma cancel_tier_inv t s : Inv s → Inv (_cancel_tier t s).
Proof.
  intros Hs. destruct (cancel_tier_spec t s) as (-> & Hsub & _ & Hout).
  apply inv_set_cancelled; [done|done|]. intros x [Hx|Hx]%Hout; [by apply Hs|done].
Qed.

(** An attempt that timed out is settled: its task is finished, in the
    background, or cancelled. *)
Definition settled (s : State) (t : task) : Prop := st_tasks s !! t = Some Running → held s t.

Lemma times_out_inv t elapsed s run :
  Inv s → awaiting_run t s = Some run →
  let '(outcome, s1) := attempt_times_out t elapsed s in
  Inv s1 ∧ st_runs s1 = st_runs s ∧ settled s1 t ∧ ∃ a, outcome = Some a ∧ attempt_ok t.2 a.
Proof.
  intros Hs Hw. unfold attempt_times_out.
  assert (Hok : attempt_ok t.2 (mkAttempt t.2 TIMEOUT elapsed, None)) by (split; [done|by left]).
  destruct (_ && _) eqn:Hbg.
  - apply andb_true_iff in Hbg as [[Hrag _]%andb_true_iff Hsize].
    apply bool_decide_eq_true in Hrag. apply Z.ltb_lt in Hsize.
    split; [|split; [done|split; [by right; simpl; rewrite lookup_insert_eq|by eexists]]].
    destruct Hs. split; simpl; try done.
    + intros x Hx. destruct (decide (x = t)) as [->|Hne]; [left; right; simpl; by rewrite lookup_insert_eq|].
      destruct (inv_held0 x Hx) as [[Hc|Hb]|Ha]; [by left; left|left; right; simpl; by rewrite lookup_insert_ne|by right].
    + intros x b Hx. destruct (decide (x = t)) as [->|Hne].
      * split; [|done]. apply inv_waiting0. by eexists.
      * rewrite lookup_insert_ne in Hx by done. by apply (inv_background0 x b).
    + destruct (st_background s !! t) as [b|] eqn:Hb.
      * rewrite map_size_insert_Some; [lia|by eexists].
      * rewrite map_size_insert_None by done. lia.
  - split; [by apply cancel_tier_inv|].
    destruct (cancel_tier_spec t s) as (Heq & _ & Hin & _).
    split; [by rewrite Heq|]. split; [|by eexists]. intros Hr. left. apply Hin. rewrite Heq in Hr. done.
Qed.

Lemma record_rag_access_same request items now s :
  _record_rag_access request items now s = set_tracker (st_tracker (_record_rag_access request items now s)) s.
Proof. unfold _record_rag_access. destruct s as [? ? ? ? [tr|] ?]; [|done]. simpl. by destruct (for_each _ _ tr). Qed.

Lemma inv_set_tracker s tr : Inv s → Inv (set_tracker tr s).
Proof. by intros []. Qed.

Lemma resumes_inv t r elapsed now s run :
  Inv s → awaiting_run t s = Some run → st_tasks s !! t = Some (Done r) →
  let '(outcome, s1) := attempt_resumes t (run_request run) r elapsed now s in
  Inv s1 ∧ st_runs s1 = st_runs s ∧ settled s1 t ∧ ∀ a, outcome = Some a → attempt_ok t.2 a.
Proof.
  intros Hs Hw Ht. pose proof (times_out_inv t elapsed s run Hs Hw) as Hto.
  assert (Hset : settled s t) by (intros Hr; congruence).
  assert (Herr : ∀ a, Some (mkAttempt t.2 ERROR elapsed, None) = Some a → attempt_ok t.2 a).
  { intros a [= <-]. split; [done|by right]. }
  unfold attempt_resumes. destruct r as [result|[]]; try (split_and!; done).
  - split_and!.
    + destruct (_ && _); [|done]. rewrite record_rag_access_same. by apply inv_set_tracker.
    + destruct (_ && _); [|done]. by rewrite record_rag_access_same.
    + destruct (_ && _); [|done]. by rewrite record_rag_access_same.
    + intros a [= <-]. split; [done|]. split; [done|]. by apply (inv_valid s Hs t).
  - destruct (attempt_times_out t elapsed s) as [o s1]. destruct Hto as (? & ? & ? & a & -> & ?).
    split_and!; try done. by intros ? [= <-].
  - split; [by apply cancel_tier_inv|]. destruct (cancel_tier_spec t s) as (Heq & _ & Hin & _).
    split; [by rewrite Heq|]. split; [|done]. intros Hr. left. apply Hin. rewrite Heq in Hr. done.
Qed.

Lemma gathered_keeps slots p : (p, None) ∈ slots → p ∈ waiting_of (gathered slots).
Proof.
  intros Hp. unfold gathered.
  destruct (bool_decide_reflect (filter (λ s : Paradigm * option AttemptResult, s.2 = None) slots = [])) as [He|_].
  - assert ((p, None) ∈ filter (λ s : Paradigm * option AttemptResult, s.2 = None) slots) as Hin
      by (by apply list_elem_of_filter).
    rewrite He in Hin. by apply not_elem_of_nil in Hin.
  - by apply gathering_waiting.
Qed.

Lemma fill_slot_none p a slots q :
  (q, None) ∈ map (fill_slot p a) slots ↔ q ≠ p ∧ (q, None) ∈ slots.
Proof.
  change (map (fill_slot p a) slots) with (fill_slot p a <$> slots). rewrite list_elem_of_fmap. split.
  - intros ([q' o] & Heq & Hin). unfold fill_slot in Heq. simpl in Heq.
    destruct (decide (q' = p)); [done|]. injection Heq as -> <-. done.
  - intros [Hne Hin]. exists (q, None). split; [|done]. unfold fill_slot. simpl. by rewrite decide_False.
Qed.

(** Other attempts stay awaited when one is delivered, and only a sequential
    run awaits something new. *)
Lemma deliver_phase_waiting decision phase p a q :
  p ∈ waiting_of phase → q ∈ waiting_of phase → q ≠ p →
  q ∈ waiting_of (deliver_phase decision phase p (Some a)).
Proof.
  cbn [deliver_phase]. destruct phase as [c rest co|slots|r|e]; try done.
  - intros ->%list_elem_of_singleton ->%list_elem_of_singleton. done.
  - rewrite !gathering_waiting. intros _ Hq Hne. apply gathered_keeps, fill_slot_none. done.
Qed.

Lemma deliver_phase_new decision phase p a q :
  q ∈ waiting_of (deliver_phase decision phase p (Some a)) →
  (∃ rest c, deliver_phase decision phase p (Some a) = Sequential q rest c) ∨ (q ∈ waiting_of phase ∧ q ≠ p).
Proof.
  assert (Hseq : ∀ ph, (∀ slots, ph ≠ Gathering slots) → q ∈ waiting_of ph → ∃ rest c, ph = Sequential q rest c).
  { intros [c rest co|slots|r|e] Hng Hq; [|by edestruct Hng|by apply not_elem_of_nil in Hq..].
    apply list_elem_of_singleton in Hq as ->. by eexists _, _. }
  assert (Hnext : ∀ d ps c slots, next_phase d ps c ≠ Gathering slots).
  { intros [d|] [|? ?] c slots; simpl; try done. by destruct (decide _). }
  cbn [deliver_phase]. destruct phase as [c rest co|slots|r|e]; [| |by intros ?%elem_of_nil..].
  - intros Hq. left. apply Hseq; [|done]. intros slots. unfold after_attempt.
    destruct decision; [apply Hnext|]. destruct (is_hit a); [done|apply Hnext].
  - intros Hq%gathered_waiting. right. rewrite gathering_waiting in Hq |- *. by apply fill_slot_none in Hq as [? ?].
Qed.

(** Moving one run to another phase. *)
Lemma awaiting_set_run t rid run phase s :
  awaiting_run t (set_run rid run phase s) =
    if decide (t.1 = rid) then
      guard (t.2 ∈ waiting_of phase);; Some (mkRun (run_request run) (run_decision run) phase)
    else awaiting_run t s.
Proof.
  unfold awaiting_run. simpl. destruct (decide (t.1 = rid)) as [->|Hne].
  - by rewrite lookup_insert_eq.
  - by rewrite lookup_insert_ne.
Qed.

Lemma is_some_guard {A} (P : Prop) `{Decision P} (a : A) : is_Some (guard P;; Some a) ↔ P.
Proof. case_guard; simpl; split; try done; by intros [? ?]. Qed.

Lemma set_run_inv rid run phase s :
  Inv s → st_runs s !! rid = Some run → phase_ok (run_decision run) phase →
  (∀ q, q ∈ waiting_of phase → is_Some (st_tasks s !! (rid, q))) →
  (∀ q, q ∈ waiting_of (run_phase run) → st_tasks s !! (rid, q) = Some Running →
     q ∈ waiting_of phase ∨ held s (rid, q)) →
  Inv (set_run rid run phase s).
Proof.
  intros [] Hrun Hok Hnew Hold. split; simpl; try done.
  - intros r' run'. destruct (decide (r' = rid)) as [->|Hne].
    + rewrite lookup_insert_eq. by intros [= <-].
    + rewrite lookup_insert_ne by done. apply inv_runs0.
  - intros t ts Ht. destruct (inv_tasks0 t ts Ht) as (run' & Hr & Hp). destruct (decide (t.1 = rid)) as [<-|Hne].
    + rewrite lookup_insert_eq. eexists. split; [done|]. simpl. congruence.
    + rewrite lookup_insert_ne by done. by exists run'.
  - intros [r' q] Ht. destruct (inv_held0 _ Ht) as [Hh|Hw]; [by left|].
    rewrite awaiting_set_run. cbn [fst snd]. destruct (decide (r' = rid)) as [->|Hne]; [|by right].
    destruct Hw as [run' Hw]. apply awaiting_run_spec in Hw as [Hr Hq]. cbn [fst snd] in *.
    assert (run' = run) as -> by congruence.
    destruct (Hold q Hq Ht) as [Hq'|Hh]; [right; by apply is_some_guard|by left].
  - intros [r' q]. rewrite awaiting_set_run. cbn [fst snd]. destruct (decide (r' = rid)) as [->|Hne].
    + intros Hq%is_some_guard. by apply Hnew.
    + apply inv_waiting0.
Qed.

(** Starting tasks of a run, ahead of the phase that awaits them. *)
Lemma start_tasks_spec rid ps s :
  start_tasks rid ps s = mkState (st_runs s) (st_tasks (start_tasks rid ps s)) (st_background s)
    (st_cancelled s) (st_tracker s) (st_findings s) ∧
  ∀ t, st_tasks (start_tasks rid ps s) !! t =
    if decide (t.1 = rid ∧ t.2 ∈ ps) then Some Running else st_tasks s !! t.
Proof.
  unfold start_tasks. revert s. induction ps as [|p ps IH]; intros s; cbn [foldl].
  - split; [by destruct s|]. intros t. rewrite decide_False; [done|]. by intros [_ ?%elem_of_nil].
  - destruct (IH (set_task (rid, p) Running s)) as [Heq Ht]. split; [exact Heq|].
    intros [r q]. rewrite Ht. cbn [fst snd st_tasks set_task].
    destruct (decide (r = rid ∧ q ∈ ps)) as [[-> Hq]|Hn].
    + rewrite decide_True; [done|]. split; [done|]. by right.
    + destruct (decide ((rid, p) = (r, q))) as [[= <- <-]|Hne].
      * rewrite lookup_insert_eq, decide_True; [done|]. split; [done|by left].
      * rewrite lookup_insert_ne by done. rewrite decide_False; [done|].
        intros [-> [->|Hq]%elem_of_cons]; [done|]. by apply Hn.
Qed.

Lemma start_tasks_inv rid ps s run phase :
  Inv s → (st_runs s !! rid = None ∨ st_runs s !! rid = Some run) →
  (∀ q, q ∈ waiting_of phase → q ∈ ps) → ps ⊆ waiting_of phase →
  (∀ q, st_runs s !! rid = Some run → q ∈ waiting_of (run_phase run) →
     st_tasks s !! (rid, q) = Some Running → held s (rid, q)) →
  phase_ok (run_decision run) phase →
  Inv (start_tasks rid ps (set_run rid run phase s)).
Proof.
  intros [] Hrun Hps Hsub Hold Hok.
  destruct (start_tasks_spec rid ps (set_run rid run phase s)) as [Heq Htask].
  set (s1 := start_tasks _ _ _) in *. clearbody s1.
  assert (Hr1 : st_runs s1 = <[rid := mkRun (run_request run) (run_decision run) phase]> (st_runs s)) by by rewrite Heq.
  assert (Hb1 : st_background s1 = st_background s) by by rewrite Heq.
  assert (Hc1 : st_cancelled s1 = st_cancelled s) by by rewrite Heq.
  assert (Haw : ∀ t, awaiting_run t s1 = awaiting_run t (set_run rid run phase s)).
  { intros t. unfold awaiting_run. by rewrite Hr1. }
  clear Heq. cbn [st_tasks set_run] in Htask.
  assert (Hh1 : ∀ t, held s t → held s1 t) by (intros t; unfold held; by rewrite Hb1, Hc1).
  split; rewrite ?Hb1; try done.
  - intros r' run'. rewrite Hr1. destruct (decide (r' = rid)) as [->|Hne].
    + rewrite lookup_insert_eq. by intros [= <-].
    + rewrite lookup_insert_ne by done. apply inv_runs0.
  - intros [r q] ts. rewrite Htask, Hr1. cbn [fst snd]. destruct (decide (r = rid)) as [->|Hne].
    + rewrite lookup_insert_eq. destruct (decide (rid = rid ∧ q ∈ ps)) as [[_ Hq]|_].
      * intros _. eexists. split; [done|]. simpl. apply Hsub in Hq. by eapply waiting_planned.
      * intros Ht. destruct (inv_tasks0 _ _ Ht) as (run' & Hr & Hp). cbn [fst snd] in *.
        eexists. split; [done|]. simpl. destruct Hrun as [|]; congruence.
    + rewrite decide_False by naive_solver. rewrite lookup_insert_ne by done. apply (inv_tasks0 (r, q)).
  - intros t r. rewrite Htask. destruct (decide _); [done|]. apply inv_valid0.
  - intros [r q]. rewrite Haw, Htask, awaiting_set_run. cbn [fst snd]. destruct (decide (r = rid)) as [->|Hne].
    + rewrite is_some_guard. destruct (decide (rid = rid ∧ q ∈ ps)) as [[_ Hq]|_]; [right; by apply Hsub|].
      intros Ht. left. apply Hh1. destruct (inv_held0 _ Ht) as [Hh|[run' Hw]]; [done|].
      apply awaiting_run_spec in Hw as [Hr Hq]. cbn [fst snd] in *.
      destruct Hrun as [|Hrun]; [congruence|]. assert (run' = run) as -> by congruence. by apply Hold.
    + rewrite decide_False by naive_solver. intros Ht. destruct (inv_held0 (r, q) Ht); [left; by apply Hh1|by right].
  - intros [r q]. rewrite Haw, Htask, awaiting_set_run. cbn [fst snd]. destruct (decide (r = rid)) as [->|Hne].
    + rewrite is_some_guard. intros Hq. rewrite decide_True; [done|]. split; [done|by apply Hps].
    + rewrite decide_False by naive_solver. apply inv_waiting0.
  - intros t. rewrite Hc1, Htask. intros Ht. destruct (decide _); [done|]. by apply inv_cancelled0.
  - intros t b Hb. rewrite Htask. destruct (inv_background0 t b Hb). by destruct (decide _).
Qed.

Lemma deliver_inv t run a s :
  Inv s → awaiting_run t s = Some run → attempt_ok t.2 a → settled s t → Inv (deliver t.1 run t.2 (Some a) s).
Proof.
  intros Hs Hw Ha Hset. destruct t as [rid p]. cbn [fst snd] in *.
  pose proof (proj1 (awaiting_run_spec _ _ _) Hw) as [Hr Hp]. cbn [fst snd] in *.
  pose proof (inv_runs s Hs rid run Hr) as Hok.
  assert (Hok' : phase_ok (run_decision run) (deliver_phase (run_decision run) (run_phase run) p (Some a))).
  { apply deliver_phase_ok; [done..|]. by intros ? [= <-]. }
  unfold deliver.
  pose proof (deliver_phase_waiting (run_decision run) (run_phase run) p a) as Hkeep.
  pose proof (deliver_phase_new (run_decision run) (run_phase run) p a) as Hnew.
  set (phase := deliver_phase _ _ p (Some a)) in *.
  assert (Hold : ∀ q, q ∈ waiting_of (run_phase run) → st_tasks s !! (rid, q) = Some Running →
    q ∈ waiting_of phase ∨ held s (rid, q)).
  { intros q Hq Hrun. destruct (decide (q = p)) as [->|Hne]; [right; by apply Hset|left; by apply Hkeep]. }
  assert (Hset_run : (∀ q rest c, phase ≠ Sequential q rest c) → Inv (set_run rid run phase s)).
  { intros Hns. apply set_run_inv; [done..| |done]. intros q Hq.
    destruct (Hnew q Hq) as [(rest & c & Hseq)|[Hq' _]]; [by destruct (Hns q rest c)|].
    apply (inv_waiting s Hs). eexists. by apply awaiting_run_spec. }
  destruct phase as [q rest c|slots|r|e] eqn:Hphase; try (by apply Hset_run).
  apply (start_tasks_inv _ _ _ _ (Sequential q rest c)); [done|by right|done|done| |done].
  intros x _ Hx Hrun. destruct (decide (x = p)) as [->|Hne]; [by apply Hset|].
  (* a sequential run awaits one attempt *)
  exfalso. destruct (run_phase run) as [q' rest' c'|slots| |]; [| |by apply not_elem_of_nil in Hx..].
  - apply list_elem_of_singleton in Hx as ->, Hp as ->. done.
  - unfold phase in Hphase. cbn [deliver_phase] in Hphase. unfold gathered in Hphase. by destruct (bool_decide _).
Qed.

Lemma deliver_none_inv rid run p s :
  Inv s → st_runs s !! rid = Some run → Inv (deliver rid run p None s).
Proof.
  intros Hs Hr. unfold deliver. cbn [deliver_phase].
  destruct (cancel_tiers_spec rid (waiting_of (run_phase run)) s) as (_ & Hsub & Hin & Hout).
  destruct (cancel_tiers_spec rid (waiting_of (run_phase run)) (set_run rid run (Failed CancelledError) s))
    as (-> & Hsub' & Hin' & Hout').
  set (cs := st_cancelled (foldl _ (set_run _ _ _ _) _)) in *.
  change (set_cancelled cs (set_run rid run (Failed CancelledError) s))
    with (set_run rid run (Failed CancelledError) (set_cancelled cs s)).
  apply set_run_inv; try done.
  - apply inv_set_cancelled; [done|done|]. intros x [Hx|Hx]%Hout'; [by apply (inv_cancelled s Hs)|done].
  - by intros q ?%elem_of_nil.
  - intros q Hq Hrun. right. left. by apply Hin'.
Qed.

Lemma finish_inv t request r now s :
  Inv s → st_background s !! t = Some AwaitingTier → st_tasks s !! t = Some (Done r) →
  Inv (finish_resumes t request r now s).
Proof.
  intros Hs Hb Ht.
  assert (Hupd : ∀ b bg, (b = None ∨ b = Some AwaitingSink) → bg = partial_alter (λ _, b) t (st_background s) →
    Inv (set_background bg s)).
  { intros b bg Hb' Hbg. assert (Hlk : ∀ x, bg !! x = if decide (x = t) then b else st_background s !! x).
    { intros x. rewrite Hbg. destruct (decide (x = t)) as [->|]; [by rewrite lookup_partial_alter_eq|].
      by rewrite lookup_partial_alter_ne. }
    assert (Hsz : (size bg ≤ size (st_background s))%nat).
    { rewrite Hbg. destruct Hb' as [->| ->].
      - change (partial_alter (λ _, None) t (st_background s)) with (delete t (st_background s)).
        rewrite map_size_delete_Some; [lia|by eexists].
      - change (partial_alter (λ _, Some AwaitingSink) t (st_background s)) with (<[t := AwaitingSink]> (st_background s)).
        rewrite map_size_insert_Some; [done|by eexists]. }
    destruct Hs. split; simpl; try done.
    - intros x Hx. destruct (inv_held0 x Hx) as [[Hc|Hx']|Hw]; [left; by left| |by right].
      left; right. simpl. rewrite Hlk. destruct (decide (x = t)) as [->|]; [congruence|done].
    - intros x bx. rewrite Hlk. destruct (decide (x = t)) as [->|]; [|apply inv_background0].
      intros _. by apply (inv_background0 t AwaitingTier).
    - lia. }
  assert (Hdel : Inv (set_background (delete t (st_background s)) s)) by (apply (Hupd None); [by left|done]).
  unfold finish_resumes. destruct r as [result|e]; [|done].
  destruct (decide (res_outcome result = HIT)); [|done].
  rewrite record_rag_access_same. set (tr := st_tracker _). cbn [st_background set_tracker].
  specialize (Hupd (Some AwaitingSink) _ (or_intror eq_refl) eq_refl).
  apply (inv_set_tracker _ tr) in Hupd. by destruct Hupd.
Qed.

Lemma step_inv e s s' : Inv s → step e s = Some s' → Inv s'.
Proof.
  intros Hs. destruct e as [rid request decision|t r|t elapsed now|t elapsed|rid|t now|t]; cbn [step].
  - destruct (st_runs s !! rid) as [run|] eqn:Hr; [done|]. intros [= <-].
    apply start_tasks_inv; try done; [by left| |apply begin_phase_ok].
    intros q Hq. congruence.
  - destruct (st_tasks s !! t) as [[|]|] eqn:Ht; try done. destruct (tier_valid r) eqn:Hv; [|done].
    intros [= <-]. pose proof Hs as [].
    assert (Hlk : ∀ x, <[t := Done r]> (st_tasks s) !! x = if decide (x = t) then Some (Done r) else st_tasks s !! x).
    { intros x. destruct (decide (x = t)) as [->|]; [by rewrite lookup_insert_eq|by rewrite lookup_insert_ne]. }
    split; try done; cbn [st_tasks set_cancelled set_task st_cancelled].
    + intros x ts. rewrite Hlk. destruct (decide (x = t)) as [->|]; [|apply inv_tasks0].
      intros _. by apply (inv_tasks0 t Running).
    + intros x rx. rewrite Hlk. destruct (decide (x = t)) as [->|]; [by intros [= <-]|apply inv_valid0].
    + intros x. rewrite Hlk. destruct (decide (x = t)) as [->|Hne]; [done|]. intros Hx.
      destruct (inv_held0 x Hx) as [[Hc|Hb]|Hw]; [left; left|left; by right|by right].
      simpl. apply elem_of_difference. split; [done|]. by intros ?%elem_of_singleton.
    + intros x Hx. rewrite Hlk. destruct (decide (x = t)); [done|]. by apply inv_waiting0.
    + intros x [Hx Hne]%elem_of_difference. rewrite Hlk. rewrite decide_False; [by apply inv_cancelled0|].
      intros ->. by apply Hne, elem_of_singleton.
    + intros x b Hx. rewrite Hlk. destruct (inv_background0 x b Hx). by destruct (decide (x = t)).
  - destruct (awaiting_run t s) as [run|] eqn:Hw; [|done].
    destruct (st_tasks s !! t) as [[|r]|] eqn:Ht; try done.
    pose proof (resumes_inv t r elapsed now s run Hs Hw Ht) as Hres.
    destruct (attempt_resumes t (run_request run) r elapsed now s) as [o s1].
    destruct Hres as (Hs1 & Hruns & Hset & Ha). intros [= <-].
    destruct o as [a|]; [apply deliver_inv; [done| |by apply Ha|done]; unfold awaiting_run; by rewrite Hruns|].
    apply deliver_none_inv; [done|]. rewrite Hruns. by apply awaiting_run_spec in Hw as [? _].
  - destruct (awaiting_run t s) as [run|] eqn:Hw; [|done].
    pose proof (times_out_inv t elapsed s run Hs Hw) as Hto.
    destruct (attempt_times_out t elapsed s) as [o s1].
    destruct Hto as (Hs1 & Hruns & Hset & a & -> & Ha). intros [= <-].
    apply deliver_inv; [done| |done|done]. unfold awaiting_run. by rewrite Hruns.
  - destruct (st_runs s !! rid) as [run|] eqn:Hr; [|done].
    destruct (waiting_of (run_phase run)) as [|p l] eqn:Hw; [done|]. intros [= <-]. by apply (deliver_none_inv rid run p s).
  - destruct (st_background s !! t) as [[|]|] eqn:Hb; try done.
    destruct (st_tasks s !! t) as [[|r]|] eqn:Ht; try done.
    destruct (st_runs s !! t.1) as [run|]; [|done]. intros [= <-]. by apply finish_inv.
  - destruct (st_background s !! t) as [[|]|] eqn:Hb; try done. intros [= <-].
    destruct Hs. split; simpl; try done.
    + intros x Hx. destruct (inv_held0 x Hx) as [[Hc|Hx']|Hw]; [left; by left| |by right].
      left; right. simpl. rewrite lookup_delete_ne; [done|]. intros ->. congruence.
    + intros x b [Hne Hx]%lookup_delete_Some. by apply (inv_background0 x b).
    + rewrite map_size_delete_Some; [lia|by eexists].
Qed.

Lemma initial_inv tr : Inv (initial tr).
Proof.
  split; simpl; try (by intros ? ? ?%lookup_empty_Some); try done.
  - intros t [run Hw]. apply awaiting_run_spec in Hw as [Hw _]. simpl in Hw. by rewrite lookup_empty in Hw.
  - rewrite map_size_empty. lia.
Qed.

Lemma steps_inv es s s' : Inv s → steps es s = Some s' → Inv s'.
Proof.
  revert s. induction es as [|e es IH]; intros s Hs; simpl; [by intros [= <-]|].
  destruct (step e s) as [s1|] eqn:He; simpl; [|done]. apply IH. by apply (step_inv e s).
Qed.

(** ** What the specification promises *)

Definition hit_paradigms (l : list TierAttempt) : gset Paradigm :=
  list_to_set (map ta_paradigm (filter (λ a, ta_outcome a = HIT) l)).

Definition degraded_attempt (a : TierAttempt) : bool :=
  match ta_outcome a with TIMEOUT | ERROR => true | _ => false end.

(** A sequential run that made these attempts goes on. *)
Definition goes_on (decision : option RoutingDecision) (made : list TierAttempt) : Prop :=
  match decision with
  | Some d => ¬ rd_paradigms d ⊆ hit_paradigms made
  | None => hit_paradigms made = ∅
  end.

Definition is_parallel (decision : option RoutingDecision) : bool :=
  match decision with Some d => bool_decide (rd_mode d = PARALLEL) | None => false end.

(** The attempts are the first [k] planned ones; all of them in a parallel
    run, and in a sequential one exactly as many as it takes. *)
Record result_ok (decision : option RoutingDecision) (r : CascadeResult) : Prop := {
  ro_attempts : ∃ k, map ta_paradigm (cr_attempts r) = take k (planned decision) ∧
    if is_parallel decision then k = length (planned decision)
    else (∀ j, (j < k)%nat → goes_on decision (take j (cr_attempts r))) ∧
         ((k = length (planned decision)) ∨ ¬ goes_on decision (cr_attempts r));
  ro_satisfied : cr_satisfied r = hit_paradigms (cr_attempts r);
  ro_degraded : cr_degraded r = existsb degraded_attempt (cr_attempts r)
}.

Lemma attempt_ok_hit p a : attempt_ok p a → is_hit a = bool_decide (ta_outcome a.1 = HIT).
Proof.
  unfold attempt_ok, is_hit. destruct a as [t [r|]]; simpl.
  - by intros (_ & -> & _).
  - intros [_ [-> | ->]]; done.
Qed.

Lemma attempt_ok_degraded p a :
  attempt_ok p a → match a.2 with None => true | Some _ => false end = degraded_attempt a.1.
Proof.
  unfold attempt_ok, degraded_attempt. destruct a as [t [r|]]; simpl.
  - intros (_ & -> & Hv). by destruct (res_outcome r).
  - by intros [_ [-> | ->]].
Qed.

Lemma hits_attempts l :
  Forall (λ a, attempt_ok (par a) a) l → hits l = hit_paradigms (map fst l).
Proof.
  intros Hl. unfold hits, hit_paradigms. f_equal. induction Hl as [|a l Ha _ IH]; [done|].
  simpl. rewrite !filter_cons. rewrite (attempt_ok_hit _ _ Ha).
  destruct (decide (ta_outcome a.1 = HIT)) as [Hh|Hh].
  - rewrite bool_decide_true by done. rewrite decide_True by done. simpl. by rewrite IH.
  - rewrite bool_decide_false by done. rewrite decide_False by done. done.
Qed.

Lemma sat_add_hits pre a : sat_add (hits pre) a = hits (pre ++ [a]).
Proof. by rewrite hits_snoc. Qed.

Lemma sequential_spec_shape decision ps out pre :
  (∀ p, attempt_ok p (out p)) → (decision = None → hits pre = ∅) →
  let go l := match decision with Some d => ¬ rd_paradigms d ⊆ hits l | None => hits l = ∅ end in
  let l := sequential_spec decision (hits pre) ps out in
  ∃ k, (k ≤ length ps)%nat ∧ l = map out (take k ps) ∧ (∀ j, (j < k)%nat → go (pre ++ take j l)) ∧
    (k = length ps ∨ ¬ go (pre ++ l)).
Proof.
  intros Hok. revert pre. induction ps as [|p ps IH]; intros pre Hpre; cbn zeta.
  - exists 0%nat. split_and!; [done|done|lia|by left].
  - cbn [sequential_spec]. destruct (stops decision (hits pre)) eqn:Hstop.
    { exists 0%nat. split_and!; [lia|done|lia|]. right. rewrite app_nil_r.
      destruct decision as [d|]; [|done]. apply bool_decide_eq_true in Hstop. tauto. }
    assert (Hgo : match decision with Some d => ¬ rd_paradigms d ⊆ hits pre | None => hits pre = ∅ end).
    { destruct decision as [d|]; [by apply bool_decide_eq_false in Hstop|by apply Hpre]. }
    assert (Hrec : (decision = None → hits (pre ++ [out p]) = ∅) →
      let l := out p :: sequential_spec decision (sat_add (hits pre) (out p)) ps out in
      ∃ k, (k ≤ length (p :: ps))%nat ∧ l = map out (take k (p :: ps)) ∧
        (∀ j, (j < k)%nat → match decision with Some d => ¬ rd_paradigms d ⊆ hits (pre ++ take j l)
                            | None => hits (pre ++ take j l) = ∅ end) ∧
        (k = length (p :: ps) ∨ ¬ match decision with Some d => ¬ rd_paradigms d ⊆ hits (pre ++ l)
                                  | None => hits (pre ++ l) = ∅ end)).
    { intros Hn. destruct (IH (pre ++ [out p]) Hn) as (k & Hk & Hl & Hj & Hend).
      rewrite sat_add_hits. exists (S k). cbn zeta. split_and!.
      - simpl. lia.
      - simpl. by rewrite Hl at 1.
      - intros [|j] Hjk; simpl; [by rewrite app_nil_r|].
        specialize (Hj j ltac:(lia)). by rewrite <- (assoc_L (++)) in Hj.
      - rewrite <- (assoc_L (++)) in Hend. destruct Hend as [->|Hend]; [by left|by right]. }
    destruct decision as [d|]; [by apply Hrec|]. destruct (is_hit (out p)) eqn:Hhit.
    + exists 1%nat. split_and!; [simpl; lia|done| |].
      * intros j Hj. replace j with 0%nat by lia. simpl. by rewrite app_nil_r.
      * right. rewrite hits_snoc. unfold sat_add. rewrite Hhit. set_solver.
    + apply Hrec. intros _. rewrite hits_snoc. unfold sat_add. by rewrite Hhit, Hpre.
Qed.

Lemma map_out_paradigms (out : outcomes) ps :
  (∀ p, attempt_ok p (out p)) → map (λ a, par a) (map out ps) = ps.
Proof. intros Hok. rewrite map_map. rewrite <- (map_id ps) at 2. apply map_ext. intros p. apply Hok. Qed.

Lemma map_out_ok (out : outcomes) ps :
  (∀ p, attempt_ok p (out p)) → Forall (λ a, attempt_ok (par a) a) (map out ps).
Proof.
  intros Hok. rewrite Forall_map. apply Forall_true. intros p. destruct (Hok p) as [Hp Ha].
  split; [done|exact Ha].
Qed.

Lemma run_spec_result decision out :
  (∀ p, attempt_ok p (out p)) → result_ok decision (summarize (run_spec decision out)).
Proof.
  intros Hok.
  assert (Hgen : ∃ k, run_spec decision out = map out (take k (planned decision)) ∧
    if is_parallel decision then k = length (planned decision)
    else (∀ j, (j < k)%nat → goes_on decision (map fst (take j (run_spec decision out)))) ∧
         (k = length (planned decision) ∨ ¬ goes_on decision (map fst (run_spec decision out)))).
  { assert (Hseq : run_spec decision out = sequential_spec decision (hits []) (planned decision) out →
      is_parallel decision = false → ∃ k, run_spec decision out = map out (take k (planned decision)) ∧
      (∀ j, (j < k)%nat → goes_on decision (map fst (take j (run_spec decision out)))) ∧
      (k = length (planned decision) ∨ ¬ goes_on decision (map fst (run_spec decision out)))).
    { intros Hrun _. rewrite Hrun.
      destruct (sequential_spec_shape decision (planned decision) out [] Hok) as (k & _ & Hl & Hj & Hend);
        [by intros _|]. exists k. cbn zeta in *. rewrite Hl in Hj, Hend |- *.
      assert (Hgo : ∀ l, Forall (λ a, attempt_ok (par a) a) l →
        goes_on decision (map fst l) ↔ match decision with Some d => ¬ rd_paradigms d ⊆ hits l | None => hits l = ∅ end).
      { intros l Hok'. unfold goes_on. by rewrite (hits_attempts l Hok'). }
      split_and!; [done| |].
      - intros j Hjk. apply Hgo; [|by apply Hj]. by apply Forall_take, map_out_ok.
      - destruct Hend as [Hend|Hend]; [by left|]. right. rewrite Hgo; [done|]. by apply map_out_ok. }
    destruct decision as [d|]; [|by apply Hseq]. unfold is_parallel. destruct (rd_mode d) eqn:Hm.
    - rewrite bool_decide_false by done. apply Hseq; unfold run_spec, is_parallel; by rewrite Hm.
    - rewrite bool_decide_true by done. exists (length (planned (Some d))). split; [|done].
      unfold run_spec. rewrite Hm, take_ge; [done|lia]. }
  destruct Hgen as (k & Hrun & Hk). set (l := run_spec decision out) in *.
  assert (Hl : Forall (λ a, attempt_ok (par a) a) l) by (rewrite Hrun; by apply map_out_ok).
  split; simpl.
  - exists k. split.
    + rewrite map_map, Hrun. by apply (map_out_paradigms out).
    + destruct (is_parallel decision); [done|]. destruct Hk as [Hj Hend]. split; [|done].
      intros j Hjk. change (take j (map fst l)) with (take j (fst <$> l)).
      rewrite <- fmap_take. by apply Hj.
  - by apply hits_attempts.
  - clear Hk Hrun. induction Hl as [|a l' Ha _ IH]; [done|]. simpl. by rewrite IH, (attempt_ok_degraded _ _ Ha).
Qed.

(** ** How one event moves one run *)

Definition resolves (rid : nat) (e : Event) : bool :=
  match e with
  | EResume t _ _ | ETimer t _ => bool_decide (t.1 = rid)
  | _ => false
  end.

(** The events that may fail a run. *)
Definition cancels (rid : nat) (e : Event) (s : State) : Prop :=
  e = ECancelRun rid ∨
  ∃ p elapsed now, e = EResume (rid, p) elapsed now ∧ st_tasks s !! (rid, p) = Some (Done (Raise CancelledError)).

Inductive run_moves (e : Event) (s : State) (rid : nat) : option Run → option Run → Prop :=
  | moves_not o : resolves rid e = false → run_moves e s rid o o
  | moves_start request decision :
      e = EStart rid request decision →
      run_moves e s rid None (Some (mkRun request decision (begin_phase decision)))
  | moves_deliver run p a :
      p ∈ waiting_of (run_phase run) →
      run_moves e s rid (Some run) (Some (mkRun (run_request run) (run_decision run)
        (deliver_phase (run_decision run) (run_phase run) p (Some a))))
  | moves_fail run p :
      p ∈ waiting_of (run_phase run) → cancels rid e s →
      run_moves e s rid (Some run) (Some (mkRun (run_request run) (run_decision run) (Failed CancelledError))).

Lemma start_tasks_runs rid ps s : st_runs (start_tasks rid ps s) = st_runs s.
Proof. by destruct (start_tasks_spec rid ps s) as [-> _]. Qed.

Lemma deliver_runs rid run p o s :
  st_runs (deliver rid run p o s) =
    <[rid := mkRun (run_request run) (run_decision run)
              (deliver_phase (run_decision run) (run_phase run) p o)]> (st_runs s).
Proof.
  unfold deliver. set (phase := deliver_phase _ _ _ _).
  destruct o as [a|].
  - destruct phase; done.
  - by destruct (cancel_tiers_spec rid (waiting_of (run_phase run)) (set_run rid run phase s)) as (-> & _).
Qed.

Lemma cancel_tier_runs t s : st_runs (_cancel_tier t s) = st_runs s.
Proof. by destruct (cancel_tier_spec t s) as (-> & _). Qed.

Lemma times_out_runs t elapsed s : st_runs (attempt_times_out t elapsed s).2 = st_runs s.
Proof. unfold attempt_times_out. simpl. destruct (_ && _); [done|apply cancel_tier_runs]. Qed.

Lemma resumes_runs t request r elapsed now s : st_runs (attempt_resumes t request r elapsed now s).2 = st_runs s.
Proof.
  unfold attempt_resumes. destruct r as [result|[]]; try done.
  - simpl. destruct (_ && _); [|done]. by rewrite record_rag_access_same.
  - apply times_out_runs.
  - apply cancel_tier_runs.
Qed.

(** An attempt resolved to nothing was cancelled. *)
Lemma resumes_none t request r elapsed now s s1 :
  attempt_resumes t request r elapsed now s = (None, s1) → r = Raise CancelledError.
Proof. by destruct r as [result|[]]. Qed.

Lemma step_moves e s s' rid :
  step e s = Some s' → run_moves e s rid (st_runs s !! rid) (st_runs s' !! rid).
Proof.
  assert (Hinsert : ∀ t run o s1, awaiting_run t s = Some run → st_runs s1 = st_runs s →
    (o = None → cancels t.1 e s) → (t.1 ≠ rid → resolves rid e = false) →
    run_moves e s rid (st_runs s !! rid) (st_runs (deliver t.1 run t.2 o s1) !! rid)).
  { intros t run o s1 Hw Hs1 Hc Hne. rewrite deliver_runs, Hs1. apply awaiting_run_spec in Hw as [Hr Hp].
    destruct (decide (t.1 = rid)) as [<-|Hrid].
    - rewrite lookup_insert_eq, Hr. destruct o as [a|]; [by apply moves_deliver|].
      apply moves_fail with t.2; [done|by apply Hc].
    - rewrite lookup_insert_ne by done. apply moves_not. by apply Hne. }
  destruct e as [r0 request decision|t r|t elapsed now|t elapsed|r0|t now|t]; cbn [step].
  - destruct (st_runs s !! r0) as [run|] eqn:Hr; [done|]. intros [= <-]. rewrite start_tasks_runs. simpl.
    destruct (decide (r0 = rid)) as [->|Hne].
    + rewrite lookup_insert_eq, Hr. by apply moves_start.
    + rewrite lookup_insert_ne by done. by apply moves_not.
  - destruct (st_tasks s !! t) as [[|]|]; try done. destruct (tier_valid r); [|done]. intros [= <-].
    by apply moves_not.
  - destruct (awaiting_run t s) as [run|] eqn:Hw; [|done]. destruct (st_tasks s !! t) as [[|r]|] eqn:Ht; try done.
    pose proof (resumes_runs t (run_request run) r elapsed now s) as Hruns.
    destruct (attempt_resumes t (run_request run) r elapsed now s) as [o s1] eqn:Hres. intros [= <-].
    apply Hinsert; [done|done| |].
    + intros ->. right. apply resumes_none in Hres as ->. destruct t as [r p]. by exists p, elapsed, now.
    + intros Hne. simpl. by apply bool_decide_false.
  - destruct (awaiting_run t s) as [run|] eqn:Hw; [|done].
    pose proof (times_out_runs t elapsed s) as Hruns.
    destruct (attempt_times_out t elapsed s) as [o s1] eqn:Hto. intros [= <-].
    apply Hinsert; [done|done| |].
    + intros ->. unfold attempt_times_out in Hto. done.
    + intros Hne. simpl. by apply bool_decide_false.
  - destruct (st_runs s !! r0) as [run|] eqn:Hr; [|done].
    destruct (waiting_of (run_phase run)) as [|p l] eqn:Hw; [done|]. intros Hs'.
    assert (s' = deliver r0 run p None s) as -> by congruence.
    apply (Hinsert (r0, p)); [|done|by left|done].
    apply awaiting_run_spec. cbn [fst snd]. rewrite Hw. split; [done|]. by left.
  - destruct (st_background s !! t) as [[|]|]; try done. destruct (st_tasks s !! t) as [[|r]|]; try done.
    destruct (st_runs s !! t.1) as [run|]; [|done]. intros [= <-].
    assert (st_runs (finish_resumes t (run_request run) r now s) = st_runs s) as ->; [|by apply moves_not].
    unfold finish_resumes. destruct r as [result|]; [|done].
    destruct (decide _); [|done]. by rewrite record_rag_access_same.
  - destruct (st_background s !! t) as [[|]|]; try done. intros [= <-]. by apply moves_not.
Qed.

(** ** Termination *)

(** How many attempts a phase may still resolve. *)
Definition remaining (phase : RunPhase) : nat :=
  match phase with
  | Sequential _ rest _ => Datatypes.S (length rest)
  | Gathering slots => length (filter (λ s, s.2 = None) slots)
  | Returned _ | Failed _ => 0
  end.

Lemma next_phase_remaining decision ps c : (remaining (next_phase decision ps c) ≤ length ps)%nat.
Proof. destruct ps as [|p ps], decision as [d|]; simpl; try lia. destruct (decide _); simpl; lia. Qed.

Lemma gathered_remaining slots :
  (remaining (gathered slots) ≤ length (filter (λ s : Paradigm * option AttemptResult, s.2 = None) slots))%nat.
Proof. unfold gathered. destruct (bool_decide _); simpl; lia. Qed.

Lemma fill_slot_eq p a o : fill_slot p a (p, o) = (p, Some a).
Proof. unfold fill_slot. cbn [fst]. by rewrite decide_True. Qed.
Lemma fill_slot_ne p a q o : q ≠ p → fill_slot p a (q, o) = (q, o).
Proof. intros Hne. unfold fill_slot. cbn [fst]. by rewrite decide_False. Qed.

Lemma fill_slot_remaining p a slots :
  (p, None) ∈ slots →
  (length (filter (λ s : Paradigm * option AttemptResult, s.2 = None) (map (fill_slot p a) slots))
   < length (filter (λ s : Paradigm * option AttemptResult, s.2 = None) slots))%nat.
Proof.
  assert (Hle : ∀ l, (length (filter (λ s : Paradigm * option AttemptResult, s.2 = None) (map (fill_slot p a) l))
    ≤ length (filter (λ s : Paradigm * option AttemptResult, s.2 = None) l))%nat).
  { induction l as [|[q o] l IH]; [done|]. simpl map. destruct (decide (q = p)) as [->|Hne].
    - rewrite fill_slot_eq. rewrite !filter_cons. destruct o; simpl; lia.
    - rewrite fill_slot_ne by done. rewrite !filter_cons. destruct o; simpl; lia. }
  induction slots as [|[q o] slots IH]; [by intros ?%elem_of_nil|].
  intros [[= <- <-]|Hin]%elem_of_cons; simpl map.
  - rewrite fill_slot_eq, !filter_cons. simpl. specialize (Hle slots). lia.
  - specialize (IH Hin). destruct (decide (q = p)) as [->|Hne].
    + rewrite fill_slot_eq, !filter_cons. destruct o; simpl; lia.
    + rewrite fill_slot_ne, !filter_cons by done. destruct o; simpl; lia.
Qed.

Lemma deliver_remaining decision phase p a :
  p ∈ waiting_of phase → (remaining (deliver_phase decision phase p (Some a)) < remaining phase)%nat.
Proof.
  cbn [deliver_phase]. destruct phase as [q rest c|slots|r|e]; [| |by intros ?%elem_of_nil..].
  - intros _. unfold after_attempt. cbn [remaining].
    pose proof (next_phase_remaining decision rest (collector_add c a)) as Hn.
    destruct decision; [lia|]. destruct (is_hit a); [simpl; lia|lia].
  - rewrite gathering_waiting. intros Hp. pose proof (fill_slot_remaining p a slots Hp).
    pose proof (gathered_remaining (map (fill_slot p a) slots)). simpl remaining. lia.
Qed.

Lemma waiting_remaining phase : waiting_of phase = [] ↔ remaining phase = 0%nat.
Proof.
  destruct phase as [q rest c|slots|r|e]; try done. cbn [waiting_of remaining].
  rewrite length_zero_iff_nil. split; [apply map_eq_nil|by intros ->].
Qed.

Lemma begin_remaining decision : (remaining (begin_phase decision) ≤ length (planned decision))%nat.
Proof.
  unfold begin_phase. destruct decision as [d|]; [|apply next_phase_remaining].
  destruct (rd_mode d); [apply next_phase_remaining|].
  pose proof (gathered_remaining (map (λ p, (p, None)) (eligible d))) as Hg.
  pose proof (length_filter (λ s : Paradigm * option AttemptResult, s.2 = None) (map (λ p, (p, None)) (eligible d))) as Hl.
  rewrite length_map in Hl. cbn [planned]. lia.
Qed.

(** The attempts a trace resolves for a run. *)
Definition resolved (rid : nat) (es : list Event) : nat :=
  length (filter (λ e, resolves rid e = true) es).

Lemma resolved_cons rid e es :
  resolved rid (e :: es) = ((if resolves rid e then 1 else 0) + resolved rid es)%nat.
Proof. unfold resolved. rewrite filter_cons. by destruct (resolves rid e). Qed.

Lemma steps_remaining es s s' rid run :
  steps es s = Some s' → st_runs s !! rid = Some run →
  ∃ run', st_runs s' !! rid = Some run' ∧ run_decision run' = run_decision run ∧
    (resolved rid es + remaining (run_phase run') ≤ remaining (run_phase run))%nat.
Proof.
  revert s run. induction es as [|e es IH]; intros s run; cbn [steps].
  - intros [= <-] Hr. exists run. split_and!; [done|done|]. unfold resolved. simpl. lia.
  - destruct (step e s) as [s1|] eqn:He; simpl; [|done]. intros Hes Hr.
    pose proof (step_moves e s s1 rid He) as Hm. rewrite Hr in Hm. rewrite resolved_cons.
    inversion Hm as [o Hno Ho Ho'| |run0 p a Hp Hrun Hrun'|run0 p Hp Hc Hrun Hrun']; subst.
    + symmetry in Ho'. destruct (IH s1 run Hes Ho') as (run' & ? & ? & ?). rewrite Hno. exists run'. split_and!; [done|done|lia].
    + symmetry in Hrun'. destruct (IH s1 _ Hes Hrun') as (run' & ? & ? & Hle). exists run'. cbn [run_phase run_decision deliver_phase] in *.
      pose proof (deliver_remaining (run_decision run) (run_phase run) p a Hp) as Hlt. cbn [deliver_phase] in Hlt.
      split_and!; [done|done|]. destruct (resolves rid e); lia.
    + symmetry in Hrun'. destruct (IH s1 _ Hes Hrun') as (run' & ? & ? & Hle). exists run'. cbn [run_phase run_decision remaining] in *.
      assert (remaining (run_phase run) ≠ 0%nat).
      { intros Hz. apply waiting_remaining in Hz. rewrite Hz in Hp. by apply not_elem_of_nil in Hp. }
      split_and!; [done|done|]. destruct (resolves rid e); lia.
Qed.

Lemma steps_resolved es s s' rid run' :
  steps es s = Some s' → st_runs s !! rid = None → st_runs s' !! rid = Some run' →
  (resolved rid es + remaining (run_phase run') ≤ length (planned (run_decision run')))%nat.
Proof.
  revert s. induction es as [|e es IH]; intros s; cbn [steps].
  - intros [= <-]. congruence.
  - destruct (step e s) as [s1|] eqn:He; simpl; [|done]. intros Hes Hr Hr'.
    pose proof (step_moves e s s1 rid He) as Hm. rewrite Hr in Hm. rewrite resolved_cons.
    inversion Hm as [o Hno Ho Ho'|request decision Hst Ho Ho'| |]; subst.
    + rewrite Hno. by apply (IH s1).
    + symmetry in Ho'. destruct (steps_remaining es s1 s' rid _ Hes Ho') as (run & Hrun & Hdec & Hle).
      assert (run = run') as -> by congruence. simpl in Hdec, Hle. rewrite Hdec.
      pose proof (begin_remaining decision). simpl. lia.
Qed.

(** ** Failing *)

Lemma steps_snoc es e s s' :
  steps (es ++ [e]) s = Some s' ↔ ∃ s1, steps es s = Some s1 ∧ step e s1 = Some s'.
Proof.
  revert s. induction es as [|e0 es IH]; intros s; simpl.
  - split; [|by intros (? & [= <-] & ->)]. intros He. exists s. split; [done|]. by destruct (step e s).
  - destruct (step e0 s) as [s1|]; simpl; [apply IH|]. split; [done|by intros (? & ? & ?)].
Qed.

(** A finished task finished by an event. *)
Definition done_by (es : list Event) (s : State) : Prop :=
  ∀ t r, st_tasks s !! t = Some (Done r) → ETierEnds t r ∈ es.

Lemma deliver_tasks rid run p o s t r :
  st_tasks (deliver rid run p o s) !! t = Some (Done r) → st_tasks s !! t = Some (Done r).
Proof.
  unfold deliver. set (phase := deliver_phase _ _ _ _). destruct o as [a|].
  - destruct phase as [q rest c| | |]; try done.
    destruct (start_tasks_spec rid [q] (set_run rid run (Sequential q rest c) s)) as [_ ->].
    by destruct (decide _).
  - by destruct (cancel_tiers_spec rid (waiting_of (run_phase run)) (set_run rid run phase s)) as (-> & _).
Qed.

Lemma cancel_tier_tasks t s : st_tasks (_cancel_tier t s) = st_tasks s.
Proof. by destruct (cancel_tier_spec t s) as (-> & _). Qed.

Lemma times_out_tasks t elapsed s : st_tasks (attempt_times_out t elapsed s).2 = st_tasks s.
Proof. unfold attempt_times_out. simpl. destruct (_ && _); [done|apply cancel_tier_tasks]. Qed.

Lemma resumes_tasks t request r elapsed now s : st_tasks (attempt_resumes t request r elapsed now s).2 = st_tasks s.
Proof.
  unfold attempt_resumes. destruct r as [result|[]]; try done.
  - simpl. destruct (_ && _); [|done]. by rewrite record_rag_access_same.
  - apply times_out_tasks.
  - apply cancel_tier_tasks.
Qed.

Lemma step_done_by es e s s' : done_by es s → step e s = Some s' → done_by (es ++ [e]) s'.
Proof.
  intros Hd Hstep t r Ht. apply elem_of_app.
  assert (st_tasks s !! t = Some (Done r) ∨ e = ETierEnds t r) as [Hold| ->]; [|left; by apply Hd|right; by left].
  destruct e as [r0 request decision|x rx|x elapsed now|x elapsed|r0|x now|x]; cbn [step] in Hstep.
  - destruct (st_runs s !! r0); [done|]. injection Hstep as <-. left. revert Ht.
    match goal with |- st_tasks (start_tasks ?a ?b ?c) !! _ = _ → _ =>
      destruct (start_tasks_spec a b c) as [_ ->] end. by destruct (decide _).
  - destruct (st_tasks s !! x) as [[|]|]; try done. destruct (tier_valid rx); [|done].
    injection Hstep as <-. simpl in Ht. destruct (decide (x = t)) as [->|Hne].
    + rewrite lookup_insert_eq in Ht. right. congruence.
    + left. by rewrite lookup_insert_ne in Ht.
  - destruct (awaiting_run x s) as [run|]; [|done]. destruct (st_tasks s !! x) as [[|rx]|]; try done.
    pose proof (resumes_tasks x (run_request run) rx elapsed now s) as Hr.
    destruct (attempt_resumes _ _ _ _ _ s) as [o s1]. injection Hstep as <-. left.
    apply deliver_tasks in Ht. cbn [snd] in Hr. by rewrite Hr in Ht.
  - destruct (awaiting_run x s) as [run|]; [|done].
    pose proof (times_out_tasks x elapsed s) as Hr.
    destruct (attempt_times_out _ _ s) as [o s1]. injection Hstep as <-. left.
    apply deliver_tasks in Ht. cbn [snd] in Hr. by rewrite Hr in Ht.
  - destruct (st_runs s !! r0) as [run|]; [|done].
    destruct (waiting_of (run_phase run)) as [|p l]; [done|].
    assert (s' = deliver r0 run p None s) as -> by congruence. left. by apply deliver_tasks in Ht.
  - destruct (st_background s !! x) as [[|]|]; try done. destruct (st_tasks s !! x) as [[|rx]|]; try done.
    destruct (st_runs s !! x.1) as [run|]; [|done]. injection Hstep as <-. left. revert Ht.
    unfold finish_resumes. destruct rx as [result|]; [|done].
    destruct (decide _); [|done]. by rewrite record_rag_access_same.
  - destruct (st_background s !! x) as [[|]|]; try done. injection Hstep as <-. by left.
Qed.

(** Why a run failed, in the events so far. *)
Definition failure_explained (es : list Event) (s : State) : Prop :=
  ∀ rid run x, st_runs s !! rid = Some run → run_phase run = Failed x →
    x = CancelledError ∧ (ECancelRun rid ∈ es ∨ ∃ p, ETierEnds (rid, p) (Raise CancelledError) ∈ es).

(** Phases other than a failure are never failed by an outcome. *)
Lemma next_phase_not_failed decision ps c x : next_phase decision ps c ≠ Failed x.
Proof. destruct ps, decision; simpl; try done. by destruct (decide _). Qed.

Lemma begin_phase_not_failed decision x : begin_phase decision ≠ Failed x.
Proof.
  unfold begin_phase. destruct decision as [d|]; [|apply next_phase_not_failed].
  destruct (rd_mode d); [apply next_phase_not_failed|]. unfold gathered. by destruct (bool_decide _).
Qed.

Lemma deliver_not_failed decision phase p a x :
  p ∈ waiting_of phase → deliver_phase decision phase p (Some a) ≠ Failed x.
Proof.
  cbn [deliver_phase]. destruct phase as [q rest c|slots|r|e]; [| |by intros ?%elem_of_nil..]; intros _.
  - unfold after_attempt. destruct decision; [apply next_phase_not_failed|].
    destruct (is_hit a); [done|apply next_phase_not_failed].
  - unfold gathered. by destruct (bool_decide _).
Qed.

Lemma steps_explained es tr s : steps es (initial tr) = Some s → done_by es s ∧ failure_explained es s.
Proof.
  revert s. induction es as [|e es IH] using rev_ind; intros s.
  - intros [= <-]. split.
    + intros t r Ht. simpl in Ht. by rewrite lookup_empty in Ht.
    + intros rid run x Hr. simpl in Hr. by rewrite lookup_empty in Hr.
  - intros (s1 & Hes & He)%steps_snoc. destruct (IH s1 Hes) as [Hd Hf]. split; [by eapply step_done_by|].
    intros rid run x Hr Hx. pose proof (step_moves e s1 s rid He) as Hm. rewrite Hr in Hm.
    inversion Hm as [o Hno Ho Ho'|request decision Hst Ho Ho'|run0 p a Hp Ho Ho'|run0 p Hp Hc Ho Ho'];
      [assert (Hsame : st_runs s1 !! rid = Some run) by congruence|subst run..].
    + destruct (Hf rid run x Hsame Hx) as [-> Hwhy]. split; [done|].
      destruct Hwhy as [Hw|[p Hw]]; [left|right; exists p]; apply elem_of_app; by left.
    + cbn [run_phase] in Hx. by apply begin_phase_not_failed in Hx.
    + cbn [run_phase] in Hx. by apply deliver_not_failed in Hx.
    + cbn [run_phase] in Hx. injection Hx as <-. split; [done|].
      destruct Hc as [->|(q & elapsed & now & -> & Ht)].
      * left. apply elem_of_app. right. by left.
      * right. exists q. apply elem_of_app. left. by apply Hd.
Qed.

(** ** The theorems *)



(** C4: No tier task is ever orphaned: in every reachable state a running task
    is awaited by its run, kept in the background set, or in the cancelled set;
    background completions stay within their bound; the cancelled set holds
    only running tasks; and once no run awaits anything and drain's two sets
    are empty, no tier task is running. *)
Theorem cascade_no_orphans es tr s :
  steps es (initial tr) = Some s →
  (∀ t, st_tasks s !! t = Some Running → held s t ∨ is_Some (awaiting_run t s)) ∧
  (∀ t, t ∈ st_cancelled s → st_tasks s !! t = Some Running) ∧
  Z.of_nat (size (st_background s)) ≤ Z.max 0 (lc_max_background cascade) ∧
  ((∀ rid run, st_runs s !! rid = Some run → waiting_of (run_phase run) = []) → drained s →
   ∀ t, st_tasks s !! t ≠ Some Running).
Proof.
  intros Hes. pose proof (steps_inv es _ s (initial_inv tr) Hes) as Hs.
  split_and!; [apply Hs|apply Hs|apply Hs|]. intros Hidle [Hbg Hc] t Ht.
  destruct (inv_held s Hs t Ht) as [[Hin|Hin]|[run Hw]].
  - rewrite Hc in Hin. by apply not_elem_of_empty in Hin.
  - by rewrite Hbg, lookup_empty in Hin.
  - apply awaiting_run_spec in Hw as [Hr Hp]. rewrite (Hidle _ _ Hr) in Hp. by apply not_elem_of_nil in Hp.
Qed.

(** C5: Every run ends: in any interleaving a run resolves at most one attempt
    per planned tier, and as long as it has neither returned nor failed it is
    waiting for an attempt whose timer the loop can fire, which brings it
    strictly closer to its end. *)
Theorem cascade_terminates es tr s rid run :
  steps es (initial tr) = Some s → st_runs s !! rid = Some run →
  (resolved rid es + remaining (run_phase run) ≤ length (planned (run_decision run)))%nat ∧
  ((∃ r, run_phase run = Returned r) ∨ (∃ e, run_phase run = Failed e) ∨
   ∃ p, p ∈ waiting_of (run_phase run) ∧ ∀ elapsed, ∃ s' run', step (ETimer (rid, p) elapsed) s = Some s' ∧
     st_runs s' !! rid = Some run' ∧ (remaining (run_phase run') < remaining (run_phase run))%nat).
Proof.
  intros Hes Hrun. split; [by apply (steps_resolved es (initial tr) s)|].
  pose proof (steps_inv es _ s (initial_inv tr) Hes) as Hinv.
  pose proof (inv_runs s Hinv rid run Hrun) as Hok.
  assert (Hwait : ∀ p, p ∈ waiting_of (run_phase run) → ∀ elapsed, ∃ s' run',
    step (ETimer (rid, p) elapsed) s = Some s' ∧ st_runs s' !! rid = Some run' ∧
    (remaining (run_phase run') < remaining (run_phase run))%nat).
  { intros p Hp elapsed. cbn [step].
    assert (awaiting_run (rid, p) s = Some run) as -> by (by apply awaiting_run_spec).
    pose proof (times_out_runs (rid, p) elapsed s) as Hruns.
    destruct (attempt_times_out (rid, p) elapsed s) as [o s1] eqn:Hto.
    assert (∃ a, o = Some a) as [a ->] by (injection Hto as <- _; by eexists).
    eexists _, _. split; [done|]. rewrite deliver_runs, lookup_insert_eq. split; [done|].
    by apply deliver_remaining. }
  destruct (run_phase run) as [q rest c|slots|r|e] eqn:Hphase; [| |left; by eexists|right; left; by eexists].
  - right; right. exists q. split; [by left|]. apply Hwait. by left.
  - right; right. destruct (waiting_of (Gathering slots)) as [|p l] eqn:Hw; [|exists p; split; [by left|apply Hwait; by left]].
    by destruct Hok as (d & _ & _ & _ & _ & []).
Qed.

(** A timeout or an exception degrades the answer instead of failing it: a
    run that fails fails with CancelledError, and either its caller cancelled
    it or one of its tiers ended in a CancelledError. *)
Theorem cascade_fails_only_cancelled es tr s rid run e :
  steps es (initial tr) = Some s → st_runs s !! rid = Some run → run_phase run = Failed e →
  e = CancelledError ∧ (ECancelRun rid ∈ es ∨ ∃ p, ETierEnds (rid, p) (Raise CancelledError) ∈ es).
Proof. intros Hes Hrun He. destruct (steps_explained es tr s Hes) as [_ Hf]. by apply (Hf rid run). Qed.
End machine.

(** ** A worked trace *)

(** Run 0, unrouted: CAG times out and is cancelled, MAG misses, RAG times out
    and goes on in the background, where it finds a document.  Run 1 is
    cancelled by its caller meanwhile. *)
Definition sample_cascade : LatencyCascade := mkCascade all_paradigms default_timeouts true fone 1.

Definition sample_request : TierRequest := mkRequest 1 7 9 "q" [].

Definition sample_events : list Event :=
  [EStart 0 sample_request None; ETimer (0%nat, CAG) fone; ETierEnds (0%nat, CAG) (Raise CancelledError);
   EStart 1 sample_request None; ETierEnds (0%nat, MAG) (Ret (mkTierResult MISS []));
   EResume (0%nat, MAG) fone 5; ETimer (0%nat, RAG) fone; ECancelRun 1;
   ETierEnds (0%nat, RAG) (Ret (mkTierResult HIT [mkItem RAG "text" fone (Some 3)]));
   EFinish (0%nat, RAG) 6; ESinkEnds (0%nat, RAG)].

Abbreviation SampleState := (State (T := tenant_counter)) (only parsing).

Definition sample_start : SampleState := initial (Some (swc_init DEFAULT_RETENTION)).

Definition sample_state : SampleState := default sample_start (steps sample_cascade sample_events sample_start).

Definition sample_result : CascadeResult :=
  mkCascadeResult [] [mkAttempt CAG TIMEOUT fone; mkAttempt MAG MISS fone; mkAttempt RAG TIMEOUT fone] ∅ true.

Example sample_runs :
  steps sample_cascade sample_events sample_start = Some sample_state ∧
  st_runs sample_state !! 0%nat = Some (mkRun sample_request None (Returned sample_result)) ∧
  st_runs sample_state !! 1%nat = Some (mkRun sample_request None (Failed CancelledError)) ∧
  st_findings sample_state = [(sample_request, [mkItem RAG "text" fone (Some 3)])].
Proof. vm_compute. split_and!; reflexivity. Qed.



Lemma cascade_no_orphans_witness :
  Z.of_nat (size (st_background sample_state)) ≤ Z.max 0 (lc_max_background sample_cascade).
Proof.
  apply (cascade_no_orphans sample_cascade sample_events (Some (swc_init DEFAULT_RETENTION)) sample_state).
  apply sample_runs.
Defined.

Lemma cascade_terminates_witness :
  (resolved 0 sample_events + remaining (Returned sample_result) ≤ length (planned sample_cascade None))%nat.
Proof.
  apply (cascade_terminates sample_cascade sample_events (Some (swc_init DEFAULT_RETENTION)) sample_state 0
    (mkRun sample_request None (Returned sample_result))); apply sample_runs.
Defined.

Lemma cascade_fails_only_cancelled_witness :
  CancelledError = CancelledError ∧
  (ECancelRun 1 ∈ sample_events ∨ ∃ p, ETierEnds (1%nat, p) (Raise CancelledError) ∈ sample_events).
Proof.
  apply (cascade_fails_only_cancelled sample_cascade sample_events (Some (swc_init DEFAULT_RETENTION)) sample_state 1
    (mkRun sample_request None (Failed CancelledError)) CancelledError); [apply sample_runs..|reflexivity].
Defined.
