(* ===== verification/Sessions.v ===== *)
(** * Chat sessions

    identity/domain/entities.py (ChatSession), the ChatSessionRepository port,
    identity/infrastructure/postgres_chat_session_repository.py,
    orchestration/infrastructure/postgres_session_budget_recorder.py and
    orchestration/application/answer_in_session.py.  The table is the [sessions]
    relation of alembic/versions/0001: every call is one transaction that sets
    the tenant, under which the tenant_isolation policy shows that tenant's rows
    only.  Ids and timestamps the server generates are part of the state. *)

From Stdlib Require Import ZArith Lia Ascii String Floats.SpecFloat.
From S2P Require Import Prelude PyFloat PyTime PyStr Digest Entities BudgetAllocator Json MagDomain.

(** ** Entities and port *)

Definition MAX_SESSION_TITLE_CHARS : Z := 200.

Record ChatSession : Type := mkSession {
  cs_id : uuid;
  cs_tenant_id : uuid;
  cs_user_id : uuid;
  cs_title : option string;
  cs_context_budget : option json;
  cs_created_at : datetime
}.

(** [len(s)] in code points. *)
Definition py_len (s : string) : Z := Z.of_nat (length (utf8_decode (String.length s) s)).

Definition ChatSession_init (s : ChatSession) : res ChatSession :=
  match cs_title s with
  | Some t => if MAX_SESSION_TITLE_CHARS <? py_len t
              then Raise (ValueError "a session title is at most 200 characters") else Ret s
  | None => Ret s
  end.

Class ChatSessionRepository (R : Type) : Type := {
  cr_create : uuid → uuid → option string → stm R ChatSession;
  cr_find_owned : uuid → uuid → uuid → stm R (option ChatSession);
  cr_list_owned : uuid → uuid → Z → stm R (list ChatSession)
}.

(** [SessionBudgetRecorder] of orchestration/domain/ports.py. *)
Class SessionBudgetRecorder (R : Type) : Type :=
  record_budget : uuid → uuid → uuid → BudgetAllocation → gset Paradigm → stm R unit.

(** ** The table *)

(** The rows by id, the users a row may reference, the transaction's [now()]
    and the ids [uuid_generate_v4] will return. *)
Record PostgresSessions : Type := mkPgSessions {
  ps_rows : gmap uuid ChatSession;
  ps_users : gset uuid;
  ps_now : datetime;
  ps_ids : nat → uuid;
  ps_issued : nat
}.

Definition ps_set_rows (rows : gmap uuid ChatSession) (p : PostgresSessions) : PostgresSessions :=
  mkPgSessions rows (ps_users p) (ps_now p) (ps_ids p) (ps_issued p).

(** The rows a query of this user sees in this tenant's transaction. *)
Definition owned (p : PostgresSessions) (tenant_id user_id : uuid) : gmap uuid ChatSession :=
  filter (λ kr, cs_tenant_id kr.2 = tenant_id ∧ cs_user_id kr.2 = user_id) (ps_rows p).

Definition foreign_key_violation : exn := BackendError "foreign key violation".
Definition unique_violation : exn := BackendError "unique violation".

Definition ps_create (tenant_id user_id : uuid) (title : option string) : stm PostgresSessions ChatSession :=
  p ← get_st;
  let id := ps_ids p (ps_issued p) in
  let row := mkSession id tenant_id user_id title None (ps_now p) in
  modify (λ p, mkPgSessions (ps_rows p) (ps_users p) (ps_now p) (ps_ids p) (S (ps_issued p)));;
  if negb (bool_decide (user_id ∈ ps_users p)) then raise foreign_key_violation
  else if bool_decide (is_Some (ps_rows p !! id)) then raise unique_violation
  else
    modify (λ p, ps_set_rows (<[id := row]> (ps_rows p)) p);;
    lift_res (ChatSession_init row).

Definition ps_find_owned (tenant_id user_id session_id : uuid) : stm PostgresSessions (option ChatSession) :=
  p ← get_st;
  match owned p tenant_id user_id !! session_id with
  | None => mret None
  | Some row => s ← lift_res (ChatSession_init row); mret (Some s)
  end.

(** [ORDER BY created_at DESC, id DESC]. *)
Definition newer (a b : ChatSession) : bool :=
  (cs_created_at b <? cs_created_at a) || ((cs_created_at a =? cs_created_at b) && (cs_id b <=? cs_id a)).

Definition ps_list_owned (tenant_id user_id : uuid) (limit : Z) : stm PostgresSessions (list ChatSession) :=
  p ← get_st;
  if limit <? 0 then raise (BackendError "LIMIT must not be negative")
  else
    let rows := sort_by newer (map snd (map_to_list (owned p tenant_id user_id))) in
    lift_res (res_mapM ChatSession_init (take (Z.to_nat limit) rows)).

#[export] Instance postgres_chat_sessions : ChatSessionRepository PostgresSessions := {|
  cr_create := ps_create;
  cr_find_owned := ps_find_owned;
  cr_list_owned := ps_list_owned
|}.

(** ** The budget recorder *)

Definition paradigm_value (p : Paradigm) : string :=
  match p with CAG => "cag" | MAG => "mag" | RAG => "rag" end.

Definition budget_record (allocation : BudgetAllocation) (contributing : gset Paradigm)
    (recorded_at : datetime) : json :=
  JObj [("total", JInt (ba_total allocation));
        ("slices", JObj [("cag", JInt (ba_cag allocation)); ("mag", JInt (ba_mag allocation));
                         ("rag", JInt (ba_rag allocation)); ("query", JInt (ba_query allocation));
                         ("reserve", JInt (ba_reserve allocation))]);
        ("contributing", JList (map (λ p, JStr (paradigm_value p))
                                (filter (λ p, p ∈ contributing) PARADIGM_ORDER)));
        ("recorded_at", JStr (isoformat recorded_at))]%string.

Definition with_budget (s : ChatSession) (b : json) : ChatSession :=
  mkSession (cs_id s) (cs_tenant_id s) (cs_user_id s) (cs_title s) (Some b) (cs_created_at s).

(** The UPDATE matches at most one row; [clock] is the recorder's own. *)
Definition pr_record (clock : datetime) (tenant_id user_id session_id : uuid)
    (allocation : BudgetAllocation) (contributing : gset Paradigm) : stm PostgresSessions unit :=
  p ← get_st;
  match owned p tenant_id user_id !! session_id with
  | None => raise (SessionNotFound session_id)
  | Some row =>
      modify (ps_set_rows (<[session_id := with_budget row (budget_record allocation contributing clock)]>
                             (ps_rows p)))
  end.

Definition postgres_budget_recorder (clock : datetime) : SessionBudgetRecorder PostgresSessions := pr_record clock.

(** ** AnswerInSession *)

Section answer_in_session.
Context {R A Answer : Type} `{ChatSessionRepository R}
  (answer : uuid → uuid → uuid → string → stm A Answer).

Definition AnswerInSession_execute (tenant_id user_id session_id : uuid) (question : string) :
  stm (R * A) Answer :=
  found ← on_fst (cr_find_owned tenant_id user_id session_id);
  match found with
  | None => raise (SessionNotFound session_id)
  | Some _ => on_snd (answer tenant_id user_id session_id question)
  end.
End answer_in_session.

(** ** Isolation *)

(** The calls a user's requests make. *)
Inductive SessionCall : Type :=
  | CallCreate (title : option string)
  | CallFind (session_id : uuid)
  | CallList (limit : Z)
  | CallRecord (clock : datetime) (session_id : uuid) (allocation : BudgetAllocation) (contributing : gset Paradigm).

Inductive SessionReply : Type :=
  | ReplySession (s : ChatSession)
  | ReplyFound (s : option ChatSession)
  | ReplyList (l : list ChatSession)
  | ReplyDone.

Definition session_call (t u : uuid) (c : SessionCall) : stm PostgresSessions SessionReply :=
  match c with
  | CallCreate title => s ← ps_create t u title; mret (ReplySession s)
  | CallFind sid => s ← ps_find_owned t u sid; mret (ReplyFound s)
  | CallList limit => l ← ps_list_owned t u limit; mret (ReplyList l)
  | CallRecord clock sid a c => pr_record clock t u sid a c;; mret ReplyDone
  end.

(** What the caller can tell two databases apart by: its own rows, whether its
    user exists, and the server's clock, ids and free ids. *)
Definition same_for (t u : uuid) (p q : PostgresSessions) : Prop :=
  owned p t u = owned q t u ∧ (u ∈ ps_users p ↔ u ∈ ps_users q) ∧ ps_now p = ps_now q ∧
  ps_ids p = ps_ids q ∧ ps_issued p = ps_issued q ∧
  ∀ n, (ps_issued p ≤ n)%nat → (is_Some (ps_rows p !! ps_ids p n) ↔ is_Some (ps_rows q !! ps_ids q n)).

Lemma owned_lookup p (t u sid : uuid) s :
  owned p t u !! sid = Some s ↔ ps_rows p !! sid = Some s ∧ cs_tenant_id s = t ∧ cs_user_id s = u.
Proof. unfold owned. by rewrite map_lookup_filter_Some. Qed.

Lemma owned_set_rows p (sid : uuid) s (t' u' : uuid) :
  owned (ps_set_rows (<[sid := s]> (ps_rows p)) p) t' u' =
    if decide (cs_tenant_id s = t' ∧ cs_user_id s = u') then <[sid := s]> (owned p t' u')
    else delete sid (owned p t' u').
Proof.
  unfold owned. simpl. destruct (decide _) as [Hd|Hd].
  - by rewrite map_filter_insert_True.
  - rewrite map_filter_insert_False by done. apply map_filter_delete.
Qed.

(** Nobody else's rows change. *)
Lemma session_call_frame t u c p t' u' :
  (t', u') ≠ (t, u) → owned (session_call t u c p).2 t' u' = owned p t' u'.
Proof.
  intros Hne. assert (Hd : ∀ s, cs_tenant_id s = t → cs_user_id s = u → ¬ (cs_tenant_id s = t' ∧ cs_user_id s = u')).
  { intros s <- <- [<- <-]. done. }
  destruct c as [title|sid|limit|clock sid a c]; cbn [session_call]; unfold mbind, stm_bind, mret, stm_ret.
  - unfold ps_create, mbind, stm_bind, get_st, modify, raise, lift_res.
    destruct (negb _); [done|]. destruct (bool_decide_reflect (is_Some (ps_rows p !! ps_ids p (ps_issued p)))) as [|Hfree]; [done|].
    cbn [ps_rows ps_set_rows]. set (row := mkSession _ t u title None _).
    assert (owned (ps_set_rows (<[ps_ids p (ps_issued p) := row]> (ps_rows p)) p) t' u' = owned p t' u') as Ho.
    { rewrite owned_set_rows, decide_False by (by apply Hd). apply delete_id.
      destruct (owned p t' u' !! ps_ids p (ps_issued p)) eqn:Hl; [|done].
      apply owned_lookup in Hl as [Hl _]. destruct Hfree. by eexists. }
    by destruct (ChatSession_init row).
  - unfold ps_find_owned, mbind, stm_bind, get_st, mret, stm_ret, lift_res.
    destruct (owned p t u !! sid) as [row|]; [|done]. by destruct (ChatSession_init row).
  - unfold ps_list_owned, mbind, stm_bind, get_st, raise, lift_res.
    destruct (limit <? 0); [done|]. by destruct (res_mapM _ _).
  - unfold pr_record, mbind, stm_bind, get_st, raise, modify.
    destruct (owned p t u !! sid) as [row|] eqn:Hl; [|done]. cbn [snd].
    apply owned_lookup in Hl as (Hl & Ht & Hu). rewrite owned_set_rows, decide_False by (by apply Hd).
    apply delete_id. destruct (owned p t' u' !! sid) as [row'|] eqn:Hl'; [|done].
    apply owned_lookup in Hl' as (Hl' & Ht' & Hu'). assert (row' = row) as -> by congruence.
    by destruct (Hd row).
Qed.

(** Two databases the caller cannot tell apart answer alike and stay so. *)
Lemma create_same t u title p q :
  same_for t u p q → (ps_create t u title p).1 = (ps_create t u title q).1 ∧
  same_for t u (ps_create t u title p).2 (ps_create t u title q).2.
Proof.
  intros (Ho & Hu & Hn & Hids & Hi & Hfree). unfold ps_create, mbind, stm_bind, get_st, modify, raise, lift_res.
  rewrite <- Hids in Hfree. rewrite <- Hn, <- Hids, <- Hi.
  assert (Hsame : same_for t u
    (mkPgSessions (ps_rows p) (ps_users p) (ps_now p) (ps_ids p) (S (ps_issued p)))
    (mkPgSessions (ps_rows q) (ps_users q) (ps_now p) (ps_ids p) (S (ps_issued p)))).
  { split_and!; try done. simpl. intros n Hle. apply Hfree. lia. }
  rewrite (bool_decide_ext _ _ Hu).
  destruct (negb (bool_decide (u ∈ ps_users q))); [by split|].
  assert (Hid : is_Some (ps_rows p !! ps_ids p (ps_issued p)) ↔ is_Some (ps_rows q !! ps_ids p (ps_issued p))).
  { by apply Hfree. }
  rewrite (bool_decide_ext _ _ Hid).
  destruct (bool_decide _); [by split|]. cbn [fst snd ps_rows ps_set_rows].
  set (row := mkSession _ t u title None _). destruct (ChatSession_init row) as [s|e]; cbn [fst snd].
  all: split; [done|]; destruct Hsame as (Hso & Hsu & Hsn & Hsids & Hsi & Hsfree); split_and!; try done.
  1, 3: match goal with |- owned (ps_set_rows _ ?a) _ _ = owned (ps_set_rows _ ?b) _ _ =>
      rewrite (owned_set_rows a), (owned_set_rows b), !decide_True by done; by rewrite Hso end.
  all: cbn [ps_issued ps_rows ps_ids ps_set_rows] in *; intros n Hle;
    destruct (decide (ps_ids p (ps_issued p) = ps_ids p n)) as [<-|Hne];
    [rewrite !lookup_insert_eq; split; by eexists|rewrite !lookup_insert_ne by done; by apply Hsfree].
Qed.

Lemma session_call_same t u c p q :
  same_for t u p q → (session_call t u c p).1 = (session_call t u c q).1 ∧
  same_for t u (session_call t u c p).2 (session_call t u c q).2.
Proof.
  intros Hs. pose proof Hs as (Ho & _ & _ & _ & _ & Hfree).
  destruct c as [title|sid|limit|clock sid a c]; cbn [session_call]; unfold mbind, stm_bind, mret, stm_ret.
  - pose proof (create_same t u title p q Hs) as [Hr Hst].
    destruct (ps_create t u title p) as [[s|e] p'], (ps_create t u title q) as [[s'|e'] q']; simpl in *; try done;
      (split; [congruence|done]).
  - unfold ps_find_owned, mbind, stm_bind, get_st, mret, stm_ret, lift_res. rewrite Ho.
    destruct (owned q t u !! sid) as [row|]; [|done]. by destruct (ChatSession_init row).
  - unfold ps_list_owned, mbind, stm_bind, get_st, raise, lift_res. rewrite Ho.
    destruct (limit <? 0); [done|]. by destruct (res_mapM _ _).
  - unfold pr_record, mbind, stm_bind, get_st, raise, modify. rewrite Ho.
    destruct (owned q t u !! sid) as [row|] eqn:Hl; [|done]. cbn [fst snd]. split; [done|].
    destruct Hs as (_ & Hu & Hn & Hids & Hi & _). split_and!; try done.
    + rewrite !owned_set_rows. by rewrite Ho.
    + intros n Hle. cbn [ps_rows ps_set_rows ps_ids ps_issued] in *.
      rewrite <- Hids in Hfree |- *. destruct (decide (sid = ps_ids p n)) as [->|Hne].
      * rewrite !lookup_insert_eq. split; by eexists.
      * rewrite !lookup_insert_ne by done. by apply Hfree.
Qed.

(** C38: Sessions are isolated: a call made by a user of a tenant changes no
    other user's or tenant's sessions, and two databases that agree on the
    caller's own sessions (and on the server's clock and ids) give it the same
    reply and still agree afterwards, whatever other sessions they hold: it
    cannot tell a session that belongs to somebody else from one that does not
    exist. *)
Theorem sessions_isolated t u c p q :
  same_for t u p q →
  (session_call t u c p).1 = (session_call t u c q).1 ∧
  same_for t u (session_call t u c p).2 (session_call t u c q).2 ∧
  ∀ t' u', (t', u') ≠ (t, u) → owned (session_call t u c p).2 t' u' = owned p t' u'.
Proof.
  intros Hs. destruct (session_call_same t u c p q Hs) as [Hr Hst].
  split; [done|]. split; [done|]. intros t' u'. apply session_call_frame.
Qed.

(** Without the session nothing is asked. *)
Lemma find_refuses {R A Answer} `{ChatSessionRepository R} (answer : uuid → uuid → uuid → string → stm A Answer) t u sid question p a :
  cr_find_owned t u sid p = (Ret None, p) →
  AnswerInSession_execute answer t u sid question (p, a) = (Raise (SessionNotFound sid), (p, a)).
Proof. intros Hn. unfold AnswerInSession_execute, mbind, stm_bind, on_fst. cbn [fst snd]. by rewrite Hn. Qed.

(** ** A worked example *)

(** Sessions 100 of user 7 and 200 of user 8, in tenant 1. *)
Definition sample_sessions (other : option string) : PostgresSessions :=
  mkPgSessions (<[100 := mkSession 100 1 7 None None 50]> {[ 200 := mkSession 200 1 8 other None 60 ]})
    {[7; 8]} 1000 (λ n, 300 + Z.of_nat n) 0.

Lemma sample_same : same_for 1 7 (sample_sessions None) (sample_sessions (Some "private"%string)).
Proof.
  unfold same_for. split; [vm_compute; reflexivity|].
  split; [done|]. split; [done|]. split; [done|]. split; [done|].
  intros n _. cbn [ps_rows ps_ids sample_sessions].
  rewrite !lookup_insert_ne, !lookup_singleton_ne by lia. done.
Qed.

Lemma sessions_isolated_witness :
  (session_call 1 7 (CallFind 200) (sample_sessions None)).1 = Ret (ReplyFound None) ∧
  (session_call 1 7 (CallFind 200) (sample_sessions None)).1 =
    (session_call 1 7 (CallFind 200) (sample_sessions (Some "private"%string))).1.
Proof.
  split; [vm_compute; reflexivity|].
  apply (sessions_isolated 1 7 (CallFind 200) (sample_sessions None) (sample_sessions (Some "private"%string)) sample_same).
Defined.
