(* ===== verification/UnifiedAnswer.v ===== *)
(** * Answering a question

    orchestration/application/unified_answer_question.py: the question's tokens
    are checked against the Query slice, it is embedded and routed, the cascade
    runs, the context window is allocated and filled, the budget is recorded and
    the model answers.  Every collaborator is behind its interface;
    [cascade_run] is LatencyCascade's [run] as its caller sees it.  A
    classifier that overruns its limit shows as a call that raises TimeoutError. *)

From Stdlib Require Import ZArith Lia Ascii String Floats.SpecFloat.
From S2P Require Import Prelude PyFloat PyTime Entities BudgetAllocator ParadigmRouter RagPorts Doubles AssembleContext Sessions.

Definition DEFAULT_CONTEXT_TOKENS : Z := 128000.
Definition DEFAULT_CLASSIFIER_TIMEOUT : f64 := of_Z_raw 2.

Inductive RoutingFallback : Type := classifier_timeout | classifier_error.

Record StageTimings : Type := mkTimings {
  st_embed_ms : f64;
  st_route_ms : f64;
  st_cascade_ms : f64;
  st_assemble_ms : f64;
  st_record_ms : f64;
  st_generate_ms : f64
}.

Record UnifiedAnswer : Type := mkAnswer {
  an_answer : string;
  an_sources : list ContextItem;
  an_decision : option RoutingDecision;
  an_routing_fallback : option RoutingFallback;
  an_attempts : list TierAttempt;
  an_allocation : BudgetAllocation;
  an_dropped : gmap Paradigm Z;
  an_degraded : bool;
  an_timings : StageTimings
}.

Class QueryClassifier (Q : Type) : Type := classify : string → list f64 → stm Q (gmap Paradigm f64).
Class CascadeRunner (C : Type) : Type := cascade_run : TierRequest → option RoutingDecision → stm C CascadeResult.

Record UnifiedAnswerQuestion (E Q C M B : Type) : Type := mkUA {
  ua_embedder : E;
  ua_classifier : option Q;
  ua_cascade : C;
  ua_chat : M;
  ua_recorder : option B;
  ua_total : Z;
  ua_shares : BudgetShares;
  ua_select_threshold : f64;
  ua_uncertainty_margin : f64;
  ua_clock : nat → f64;
  ua_ticks : nat
}.
Arguments mkUA {E Q C M B}.
Arguments ua_embedder {E Q C M B}.
Arguments ua_classifier {E Q C M B}.
Arguments ua_cascade {E Q C M B}.
Arguments ua_chat {E Q C M B}.
Arguments ua_recorder {E Q C M B}.
Arguments ua_total {E Q C M B}.
Arguments ua_shares {E Q C M B}.
Arguments ua_select_threshold {E Q C M B}.
Arguments ua_uncertainty_margin {E Q C M B}.
Arguments ua_clock {E Q C M B}.
Arguments ua_ticks {E Q C M B}.

Section unified.
Context {E Q C M B : Type} `{EmbeddingModel E} `{QueryClassifier Q} `{CascadeRunner C} `{ChatModel M}
  `{SessionBudgetRecorder B} `{TokenCounter}.
Abbreviation UA := (UnifiedAnswerQuestion E Q C M B) (only parsing).

Definition UnifiedAnswerQuestion_init (embedding_model : E) (classifier : option Q) (cascade : C)
    (chat_model : M) (total_context_tokens : Z) (shares : BudgetShares)
    (select_threshold uncertainty_margin classifier_timeout : f64) (budget_recorder : option B)
    (clock : nat → f64) : res UA :=
  if total_context_tokens <=? 0 then Raise (ValueError "total_context_tokens must be positive")
  else if fle classifier_timeout fzero then Raise (ValueError "classifier_timeout must be positive")
  else Ret (mkUA embedding_model classifier cascade chat_model budget_recorder total_context_tokens
              shares select_threshold uncertainty_margin clock 0).

(** Calls on the collaborators. *)
Definition on_embedder {A} (m : stm E A) : stm UA A := λ s,
  let '(r, x) := m (ua_embedder s) in
  (r, mkUA x (ua_classifier s) (ua_cascade s) (ua_chat s) (ua_recorder s) (ua_total s) (ua_shares s)
        (ua_select_threshold s) (ua_uncertainty_margin s) (ua_clock s) (ua_ticks s)).
Definition set_classifier (q : Q) (s : UA) : UA :=
  mkUA (ua_embedder s) (Some q) (ua_cascade s) (ua_chat s) (ua_recorder s) (ua_total s) (ua_shares s)
    (ua_select_threshold s) (ua_uncertainty_margin s) (ua_clock s) (ua_ticks s).
Definition on_cascade {A} (m : stm C A) : stm UA A := λ s,
  let '(r, x) := m (ua_cascade s) in
  (r, mkUA (ua_embedder s) (ua_classifier s) x (ua_chat s) (ua_recorder s) (ua_total s) (ua_shares s)
        (ua_select_threshold s) (ua_uncertainty_margin s) (ua_clock s) (ua_ticks s)).
Definition on_chat {A} (m : stm M A) : stm UA A := λ s,
  let '(r, x) := m (ua_chat s) in
  (r, mkUA (ua_embedder s) (ua_classifier s) (ua_cascade s) x (ua_recorder s) (ua_total s) (ua_shares s)
        (ua_select_threshold s) (ua_uncertainty_margin s) (ua_clock s) (ua_ticks s)).
Definition set_recorder (b : B) (s : UA) : UA :=
  mkUA (ua_embedder s) (ua_classifier s) (ua_cascade s) (ua_chat s) (Some b) (ua_total s) (ua_shares s)
    (ua_select_threshold s) (ua_uncertainty_margin s) (ua_clock s) (ua_ticks s).
Definition perf_counter : stm UA f64 := λ s,
  (Ret (ua_clock s (ua_ticks s)),
   mkUA (ua_embedder s) (ua_classifier s) (ua_cascade s) (ua_chat s) (ua_recorder s) (ua_total s)
     (ua_shares s) (ua_select_threshold s) (ua_uncertainty_margin s) (ua_clock s) (S (ua_ticks s))).

(** ** Routing *)

(** What [_route] makes of the classifier's outcome: [None] lets a
    cancellation through. *)
Definition routed (select_threshold uncertainty_margin : f64) (outcome : res (gmap Paradigm f64)) :
  option (RoutingDecision * option RoutingFallback) :=
  match outcome with
  | Ret scores =>
      match decide_route scores select_threshold uncertainty_margin with
      | Ret d => Some (d, None)
      | Raise _ => Some (fallback_decision ∅, Some classifier_error)
      end
  | Raise TimeoutError => Some (fallback_decision ∅, Some classifier_timeout)
  | Raise CancelledError => None
  | Raise _ => Some (fallback_decision ∅, Some classifier_error)
  end.

Definition _route (classifier : Q) (question : string) (embedding : list f64) :
  stm UA (RoutingDecision * option RoutingFallback) := λ s,
  let '(outcome, q) := classify question embedding classifier in
  match routed (ua_select_threshold s) (ua_uncertainty_margin s) outcome with
  | Some d => (Ret d, set_classifier q s)
  | None => (Raise CancelledError, set_classifier q s)
  end.

Definition route_stage (question : string) (embedding : list f64) :
  stm UA (option RoutingDecision * option RoutingFallback) :=
  s ← get_st;
  match ua_classifier s with
  | None => mret (None, None)
  | Some classifier => d ← _route classifier question embedding; mret (Some d.1, d.2)
  end.

(** ** The stages *)

Definition check_question (question : string) : stm UA unit :=
  s ← get_st;
  query_slice ← lift_res (floor_share (ua_total s) (bs_query (ua_shares s)));
  query_tokens ← lift_res (count_tokens question);
  if query_slice <? query_tokens then raise (QueryExceedsBudget query_tokens query_slice) else mret tt.

(** Allocate and fill the context window. *)
Definition assemble_stage (r : CascadeResult) : stm UA (BudgetAllocation * AssembledContext) :=
  s ← get_st;
  allocation ← lift_res (allocate (ua_total s) (contributing r) (ua_shares s));
  assembled ← lift_res (assemble_context (cr_items r) allocation);
  mret (allocation, assembled).

Definition record_stage (tenant_id user_id session_id : uuid) (allocation : BudgetAllocation)
    (active : gset Paradigm) : stm UA unit := λ s,
  match ua_recorder s with
  | None => (Ret tt, s)
  | Some recorder =>
      let '(r, b) := record_budget tenant_id user_id session_id allocation active recorder in
      (r, set_recorder b s)
  end.

Definition _ms (start end_ : f64) : f64 := fmul (fsub end_ start) (of_Z_raw 1000).

Definition UnifiedAnswerQuestion_execute (tenant_id user_id session_id : uuid) (question : string) :
  stm UA UnifiedAnswer :=
  check_question question;;
  started ← perf_counter;
  embedding ← on_embedder (embed question);
  embedded ← perf_counter;
  route ← route_stage question embedding;
  routed_at ← perf_counter;
  let request := mkRequest tenant_id user_id session_id question embedding in
  cascade_result ← on_cascade (cascade_run request route.1);
  cascaded ← perf_counter;
  context ← assemble_stage cascade_result;
  assembled_at ← perf_counter;
  record_stage tenant_id user_id session_id context.1 (contributing cascade_result);;
  recorded ← perf_counter;
  answer ← on_chat (cm_generate question (ac_text context.2));
  generated ← perf_counter;
  s ← get_st;
  mret (mkAnswer answer (ac_included context.2) route.1 route.2 (cr_attempts cascade_result) context.1
    (ac_dropped context.2) (cr_degraded cascade_result)
    (mkTimings (_ms started embedded) (_ms embedded routed_at) (_ms routed_at cascaded)
       (_ms cascaded assembled_at)
       (match ua_recorder s with Some _ => _ms assembled_at recorded | None => fzero end)
       (_ms recorded generated))).

(** ** What answering promises *)

Lemma check_question_cases question s :
  let '(r, s') := check_question question s in
  s' = s ∧
  (r = Ret tt → ∃ slice n, floor_share (ua_total s) (bs_query (ua_shares s)) = Ret slice ∧
     count_tokens question = Ret n ∧ n ≤ slice).
Proof.
  unfold check_question, mbind, stm_bind, get_st, lift_res, raise, mret, stm_ret.
  destruct (floor_share _ _) as [slice|e]; [|done]. destruct (count_tokens question) as [n|e]; [|done].
  destruct (Z.ltb_spec slice n); [done|]. split; [done|]. intros _. by exists slice, n.
Qed.

Lemma allocate_query total active shares a :
  allocate total active shares = Ret a → floor_share total (bs_query shares) = Ret (ba_query a) ∧ ba_total a = total.
Proof.
  unfold allocate, allocate_in. destruct (total <? 0); [done|]. intros H'. res_inv. split; [done|].
  apply donate_all_sum in E4. unfold slicing_sum, slices_sum, ba_total in *.
  cbn [sl_slices sl_reserve ba_cag ba_mag ba_rag ba_query ba_reserve] in *. lia.
Qed.

(** The parts of the state a stage leaves alone. *)
Definition same_settings (s s' : UA) : Prop :=
  ua_total s' = ua_total s ∧ ua_shares s' = ua_shares s.

#[export] Instance same_settings_preorder : PreOrder same_settings.
Proof. split; [done|]. intros x y z [? ?] [? ?]. split; congruence. Qed.

Lemma assemble_stage_cases r s :
  let '(o, s') := assemble_stage r s in
  s' = s ∧ (∀ c, o = Ret c → allocate (ua_total s) (contributing r) (ua_shares s) = Ret c.1 ∧
     assemble_context (cr_items r) c.1 = Ret c.2).
Proof.
  unfold assemble_stage, mbind, stm_bind, get_st, lift_res, mret, stm_ret.
  destruct (allocate _ _ _) as [al|e]; [|done]. destruct (assemble_context _ al) as [as_|e] eqn:Ha; [|done].
  split; [done|]. by intros c [= <-].
Qed.

(** Up to the cascade, only the clock, the embedder and the classifier move. *)
Definition before_cascade (s s' : UA) : Prop :=
  ua_cascade s' = ua_cascade s ∧ ua_chat s' = ua_chat s ∧ ua_recorder s' = ua_recorder s ∧
  same_settings s s'.

#[export] Instance before_cascade_preorder : PreOrder before_cascade.
Proof. split; [done|]. intros x y z (? & ? & ? & ? & ?) (? & ? & ? & ? & ?). split_and!; try congruence. split; congruence. Qed.

Lemma perf_counter_before s : before_cascade s (perf_counter s).2.
Proof. done. Qed.
Lemma on_embedder_before {A} (m : stm E A) s : before_cascade s (on_embedder m s).2.
Proof. unfold on_embedder. by destruct (m _). Qed.
Lemma route_stage_before question embedding s : before_cascade s (route_stage question embedding s).2.
Proof.
  unfold route_stage, mbind, stm_bind, get_st. destruct (ua_classifier s) as [q|]; [|done].
  unfold _route. destruct (classify _ _ q) as [o q']. by destruct (routed _ _ o).
Qed.
Lemma record_stage_chat t u sid al active s : ua_chat (record_stage t u sid al active s).2 = ua_chat s.
Proof. unfold record_stage. destruct (ua_recorder s) as [b|]; [|done]. by destruct (record_budget _ _ _ _ _ b). Qed.

(** What an answer is made of. *)
Lemma execute_inv t u sid question s a s' :
  UnifiedAnswerQuestion_execute t u sid question s = (Ret a, s') →
  ∃ slice n embedding x r c allocation assembled,
    floor_share (ua_total s) (bs_query (ua_shares s)) = Ret slice ∧ count_tokens question = Ret n ∧ n ≤ slice ∧
    embed question (ua_embedder s) = (Ret embedding, x) ∧
    cascade_run (mkRequest t u sid question embedding) (an_decision a) (ua_cascade s) = (Ret r, c) ∧
    allocate (ua_total s) (contributing r) (ua_shares s) = Ret allocation ∧
    assemble_context (cr_items r) allocation = Ret assembled ∧
    an_allocation a = allocation ∧ an_sources a = ac_included assembled ∧ an_dropped a = ac_dropped assembled ∧
    an_attempts a = cr_attempts r ∧ an_degraded a = cr_degraded r.
Proof.
  intros Hrun. unfold UnifiedAnswerQuestion_execute in Hrun.
  apply stm_bind_inv in Hrun as ([] & s1 & Hcheck & Hrun).
  pose proof (check_question_cases question s) as Hc. rewrite Hcheck in Hc. destruct Hc as [-> Hc].
  destruct (Hc eq_refl) as (slice & n & Hslice & Hn & Hle).
  apply stm_bind_inv in Hrun as (tick1 & s2 & [= _ <-] & Hrun).
  apply stm_bind_inv in Hrun as (embedding & s3 & Hemb & Hrun).
  set (s2 := mkUA _ _ _ _ _ _ _ _ _ _ _) in Hemb.
  pose proof (on_embedder_before (embed question) s2) as Hb3. rewrite Hemb in Hb3. cbn [snd] in Hb3.
  unfold on_embedder in Hemb. destruct (embed question (ua_embedder s2)) as [o x] eqn:Hx.
  assert (o = Ret embedding) as -> by congruence. clear Hemb.
  apply stm_bind_inv in Hrun as (tick2 & s4 & Hp4 & Hrun).
  pose proof (perf_counter_before s3) as Hb4. rewrite Hp4 in Hb4. cbn [snd] in Hb4.
  apply stm_bind_inv in Hrun as ([decision fb] & s5 & Hroute & Hrun).
  pose proof (route_stage_before question embedding s4) as Hb5. rewrite Hroute in Hb5. cbn [snd] in Hb5.
  apply stm_bind_inv in Hrun as (tick3 & s6 & Hp6 & Hrun).
  pose proof (perf_counter_before s5) as Hb6. rewrite Hp6 in Hb6. cbn [snd] in Hb6.
  assert (Hb : before_cascade s s6).
  { transitivity s2; [done|]. transitivity s3; [done|]. transitivity s4; [done|]. by transitivity s5. }
  clear Hb3 Hb4 Hb5 Hb6. destruct Hb as (Hcas & _ & _ & Hset).
  apply stm_bind_inv in Hrun as (r & s7 & Hrun7 & Hrun). unfold on_cascade in Hrun7.
  rewrite Hcas in Hrun7. destruct (cascade_run _ _ _) as [o c] eqn:Hcr.
  assert (o = Ret r) as -> by congruence. assert (Hs7 : same_settings s s7).
  { injection Hrun7 as <-. exact Hset. } clear Hrun7.
  apply stm_bind_inv in Hrun as (tick4 & s8 & [= _ <-] & Hrun).
  apply stm_bind_inv in Hrun as ([allocation assembled] & s9 & Hasm & Hrun).
  set (s8 := mkUA _ _ _ _ _ _ _ _ _ _ _) in Hasm.
  pose proof (assemble_stage_cases r s8) as Hc9. rewrite Hasm in Hc9. destruct Hc9 as [-> Hc9].
  destruct (Hc9 _ eq_refl) as [Hal Has]. cbn [fst snd ua_total ua_shares] in *.
  destruct Hs7 as [Ht Hsh]. cbn in Hal. rewrite Ht, Hsh in Hal.
  apply stm_bind_inv in Hrun as (tick5 & s10 & _ & Hrun).
  apply stm_bind_inv in Hrun as ([] & s11 & _ & Hrun).
  apply stm_bind_inv in Hrun as (tick6 & s12 & _ & Hrun).
  apply stm_bind_inv in Hrun as (answer & s13 & _ & Hrun).
  apply stm_bind_inv in Hrun as (tick7 & s14 & _ & Hrun).
  apply stm_bind_inv in Hrun as (tick8 & s15 & _ & Hrun). injection Hrun as <- _.
  exists slice, n, embedding, x, r, c, allocation, assembled. split_and!; done.
Qed.

(** Nothing is paid for before the budget is on record. *)
Lemma execute_chat t u sid question s b :
  ua_recorder s = Some b →
  ua_chat (UnifiedAnswerQuestion_execute t u sid question s).2 = ua_chat s ∨
  ∃ allocation active b', record_budget t u sid allocation active b = (Ret tt, b').
Proof.
  intros Hb. unfold UnifiedAnswerQuestion_execute, mbind, stm_bind.
  pose proof (check_question_cases question s) as Hc.
  destruct (check_question question s) as [[[]|e] s1]; destruct Hc as [-> _]; [|by left].
  cbn [perf_counter]. set (s2 := mkUA _ _ _ _ _ _ _ _ _ _ _).
  pose proof (on_embedder_before (embed question) s2) as Hb3.
  destruct (on_embedder (embed question) s2) as [[embedding|e] s3]; cbn [snd] in Hb3; [|left; apply Hb3].
  cbn [perf_counter]. set (s4 := mkUA _ _ _ _ _ _ _ _ _ _ _).
  pose proof (route_stage_before question embedding s4) as Hb5.
  destruct (route_stage question embedding s4) as [[[decision fb]|e] s5]; cbn [snd] in Hb5;
    [|left; transitivity (ua_chat s4); [apply Hb5|apply Hb3]].
  cbn [perf_counter]. set (s6 := mkUA _ _ _ _ _ _ _ _ _ _ _).
  assert (Hb6 : ua_chat s6 = ua_chat s ∧ ua_recorder s6 = Some b).
  { destruct Hb5 as (_ & Hch5 & Hr5 & _), Hb3 as (_ & Hch3 & Hr3 & _). simpl in *. split; congruence. }
  destruct Hb6 as [Hch Hrec].
  unfold on_cascade. destruct (cascade_run _ _ (ua_cascade s6)) as [[r|e] c]; [|by left].
  cbn [perf_counter ua_chat ua_recorder ua_total ua_shares ua_clock ua_ticks]. set (s7 := mkUA _ _ _ _ _ _ _ _ _ _ _).
  pose proof (assemble_stage_cases r s7) as Hc9.
  destruct (assemble_stage r s7) as [[[al asm]|e] s9]; destruct Hc9 as [-> _]; [|by left].
  cbn [fst snd perf_counter]. set (s10 := mkUA _ _ _ _ _ _ _ _ _ _ _).
  unfold record_stage. assert (ua_recorder s10 = Some b) as -> by done.
  destruct (record_budget t u sid al (contributing r) b) as [[[]|e] b'] eqn:Hrb; [|by left].
  right. by exists al, (contributing r), b'.
Qed.

(** Routing never fails a question: whatever the classifier does short of
    being cancelled, [_route] returns a decision with at least one paradigm; it
    is the classifier's own decision exactly when its scores are usable, and
    otherwise the fallback that runs every paradigm in parallel, marked as a
    timeout exactly when the classifier timed out. *)
Theorem route_never_fails classifier question embedding s :
  let outcome := (classify question embedding classifier).1 in
  let decision_of scores := decide_route scores (ua_select_threshold s) (ua_uncertainty_margin s) in
  match (_route classifier question embedding s).1 with
  | Raise e => e = CancelledError ∧ outcome = Raise CancelledError
  | Ret (d, None) => rd_paradigms d ≠ ∅ ∧ ∃ scores, outcome = Ret scores ∧ decision_of scores = Ret d
  | Ret (d, Some why) => d = fallback_decision ∅ ∧ rd_paradigms d = all_paradigms ∧
      outcome ≠ Raise CancelledError ∧ (∀ scores, outcome = Ret scores → ∃ e, decision_of scores = Raise e) ∧
      (why = classifier_timeout ↔ outcome = Raise TimeoutError)
  end.
Proof.
  cbn zeta. unfold _route. destruct (classify question embedding classifier) as [o q]. cbn [fst].
  destruct o as [scores|e]; cbn [routed].
  - destruct (decide_route scores _ _) as [d|e] eqn:Hd; cbn [fst].
    + split; [by eapply decide_route_nonempty|]. by exists scores.
    + split_and!; try done. intros ? [= <-]. by exists e.
  - destruct e; cbn [fst]; split_and!; try done.
Qed.

(** A question longer than the Query slice is refused before anything else
    happens: no collaborator is called and nothing is recorded. *)
Theorem execute_refuses_long_questions t u sid question s slice n :
  floor_share (ua_total s) (bs_query (ua_shares s)) = Ret slice → count_tokens question = Ret n → slice < n →
  UnifiedAnswerQuestion_execute t u sid question s = (Raise (QueryExceedsBudget n slice), s).
Proof.
  intros Hs Hn Hlt. unfold UnifiedAnswerQuestion_execute. apply stm_bind_raise.
  unfold check_question, mbind, stm_bind, get_st, lift_res, raise. rewrite Hs, Hn.
  by destruct (Z.ltb_spec slice n); [|lia].
Qed.

(** The model is never called for a turn whose budget was not recorded:
    with a recorder configured, either the chat model is as it was, whatever
    failed, or the recorder accepted this session's record. *)
Theorem execute_records_before_paying t u sid question s b :
  ua_recorder s = Some b →
  ua_chat (UnifiedAnswerQuestion_execute t u sid question s).2 = ua_chat s ∨
  ∃ allocation active b', record_budget t u sid allocation active b = (Ret tt, b').
Proof. apply execute_chat. Qed.
End unified.

(** C7: An answer keeps to its budget: the allocation adds up to the configured
    window, the question fits the Query slice the allocation reserves, each
    paradigm's sources fit its slice, and all of them are among the items the
    cascade returned for exactly this question, user and session, whose
    attempts and degraded flag the answer reports. *)
Theorem execute_keeps_to_budget {E Q C M B} `{EmbeddingModel E} `{QueryClassifier Q} `{CascadeRunner C}
    `{ChatModel M} `{SessionBudgetRecorder B} `{TokenCounterLaws} t u sid question
    (s s' : UnifiedAnswerQuestion E Q C M B) a :
  UnifiedAnswerQuestion_execute t u sid question s = (Ret a, s') →
  ba_total (an_allocation a) = ua_total s ∧
  (∃ n, count_tokens question = Ret n ∧ n ≤ ba_query (an_allocation a)) ∧
  (∀ p, items_of p (an_sources a) ≠ [] → costs (items_of p (an_sources a)) ≤ ba_for (an_allocation a) p) ∧
  ∃ embedding r c, (embed question (ua_embedder s)).1 = Ret embedding ∧
    cascade_run (mkRequest t u sid question embedding) (an_decision a) (ua_cascade s) = (Ret r, c) ∧
    (∀ i, i ∈ an_sources a → i ∈ cr_items r) ∧ an_attempts a = cr_attempts r ∧ an_degraded a = cr_degraded r.
Proof.
  intros Hrun. apply execute_inv in Hrun as (slice & n & embedding & x & r & c & allocation & assembled &
    Hslice & Hn & Hle & Hemb & Hcr & Hal & Has & -> & -> & _ & Hat & Hdeg).
  apply allocate_query in Hal as [Hq Htot]. apply assemble_context_spec in Has as (Hpacks & Hincl & _).
  assert (Hitems : ∀ i, i ∈ ac_included assembled → i ∈ cr_items r).
  { intros i Hi. destruct (Hpacks (ci_paradigm i)) as (dropped & used & _ & _ & [_ Hord _ _]).
    assert (i ∈ items_of (ci_paradigm i) (ac_included assembled)) as Hin by (by apply list_elem_of_filter).
    eapply elem_of_submseteq in Hin; [|by apply sublist_submseteq].
    rewrite (sorted_desc_perm ci_score) in Hin. by apply list_elem_of_filter in Hin as [_ Hin]. }
  split; [done|]. split; [exists n; split; [done|]; congruence|]. split.
  - intros p Hp. destruct (Hpacks p) as (dropped & used & _ & _ & [_ _ Htotal Hfits]).
    specialize (Hfits Hp). lia.
  - exists embedding, r, c. rewrite Hemb. by split_and!.
Qed.

(** ** A worked example *)

(** A classifier with one answer, a cascade with one result, and the Postgres
    recorder over user 7's session 100. *)
Definition one_score : QueryClassifier (res (gmap Paradigm f64)) := λ _ _ q, (q, q).
Definition one_result : CascadeRunner CascadeResult := λ _ _ r, (Ret r, r).
Definition sample_recorder : SessionBudgetRecorder PostgresSessions := postgres_budget_recorder 1000.

Definition sample_cascade_result : CascadeResult :=
  mkCascadeResult [mkItem RAG "a document" fone (Some 3)] [mkAttempt RAG HIT fone] {[RAG]} false.

Definition sample_ua (total : Z) (sessions : PostgresSessions) :
  UnifiedAnswerQuestion LengthEmbedder (res (gmap Paradigm f64)) CascadeResult ScriptedChat PostgresSessions :=
  mkUA (mkLengthEmbedder 0) (Some (Raise TimeoutError)) sample_cascade_result (mkScripted ["yes"%string])
    (Some sessions) total default_shares DEFAULT_SELECT_THRESHOLD DEFAULT_UNCERTAINTY_MARGIN
    (λ n, of_Z_raw (Z.of_nat n)) 0.

Definition sample_answer (total : Z) (user_id : uuid) :=
  UnifiedAnswerQuestion_execute (H0 := one_score) (H1 := one_result) (H3 := sample_recorder)
    (H4 := byte_counter) 1 user_id 100 "is it?" (sample_ua total (sample_sessions None)).
#[global] Strategy expand [sample_answer].

Definition returns {A S} (r : res A * S) : bool := match r.1 with Ret _ => true | Raise _ => false end.

Lemma sample_answer_returns : returns (sample_answer 1000 7) = true.
Proof. vm_compute. reflexivity. Qed.

Lemma execute_keeps_to_budget_witness :
  match sample_answer 1000 7 with
  | (Ret a, _) => ba_total (an_allocation a) = ua_total (sample_ua 1000 (sample_sessions None))
  | (Raise _, _) => False
  end.
Proof.
  pose proof sample_answer_returns as Hret.
  pose proof (execute_keeps_to_budget (H0 := one_score) (H1 := one_result) (H3 := sample_recorder)
      (H4 := byte_counter) 1 7 100 "is it?" (sample_ua 1000 (sample_sessions None))) as Hkeeps.
  fold (sample_answer 1000 7) in Hkeeps.
  destruct (sample_answer 1000 7) as [[a|e] s'].
  - exact (proj1 (Hkeeps s' a eq_refl)).
  - discriminate Hret.
Defined.

Lemma execute_refuses_long_questions_witness :
  sample_answer 50 7 = (Raise (QueryExceedsBudget 6 5), sample_ua 50 (sample_sessions None)).
Proof.
  apply (execute_refuses_long_questions (H0 := one_score) (H1 := one_result) (H3 := sample_recorder)
    (H4 := byte_counter)); [vm_compute; reflexivity..|lia].
Defined.

(** User 8 asks in user 7's session: the recorder refuses, nothing is asked. *)
Lemma execute_records_before_paying_witness :
  ua_chat (sample_answer 1000 8).2 = mkScripted ["yes"%string] ∨
  ∃ allocation active b', record_budget (SessionBudgetRecorder := sample_recorder) 1 8 100 allocation active
    (sample_sessions None) = (Ret tt, b').
Proof.
  apply (execute_records_before_paying (H0 := one_score) (H1 := one_result) (H3 := sample_recorder)
    (H4 := byte_counter) 1 8 100 "is it?" (sample_ua 1000 (sample_sessions None))). reflexivity.
Defined.
