(* ===== verification/DataSourceRepo.v ===== *)
(** * The registry of data sources

    The DataSourceRepository port of orchestration/domain/ports.py, its contract,
    and orchestration/infrastructure/postgres_data_source_repository.py over the
    two tables of alembic/versions/0006: each method is one transaction under
    the tenant it is given, so row-level security and the explicit tenant filter
    select the same rows. *)

From Stdlib Require Import ZArith Lia Ascii String Floats.SpecFloat.
From S2P Require Import Prelude PyFloat PyTime PyStr Digest Entities Json Sessions.

(** ** The port *)

Class DataSourceRepository (R : Type) : Type := {
  src_get : uuid → string → option uuid → stm R (option DataSource);
  src_save : DataSource → option SourceVersion → stm R unit;
  src_mark_pending : uuid → uuid → string → stm R unit;
  src_record_cached_until : uuid → uuid → string → option datetime → stm R bool;
  src_migrate : uuid → uuid → string → IngestionRoute → timedelta → option datetime → stm R bool;
  src_version_times : uuid → uuid → stm R (list datetime);
  src_current_content : uuid → uuid → stm R (option string);
  src_list_sources : uuid → stm R (list DataSource)
}.

(** ** What each write makes of a row *)

(** The columns of the ON CONFLICT update: content only, never the route. *)
Definition saved_over (old s : DataSource) : DataSource :=
  mkSource (ds_id old) (ds_tenant_id old) (ds_user_id old) (ds_source_key old) (ds_scope old)
    (ds_expected_change_interval old) (ds_route old) (ds_content_hash s) (ds_last_changed_at s)
    (ds_last_ingested_at s) (ds_cached_until s) (ds_pending_hash s).

Definition with_pending (s : DataSource) (h : option string) : DataSource :=
  mkSource (ds_id s) (ds_tenant_id s) (ds_user_id s) (ds_source_key s) (ds_scope s)
    (ds_expected_change_interval s) (ds_route s) (ds_content_hash s) (ds_last_changed_at s)
    (ds_last_ingested_at s) (ds_cached_until s) h.

Definition with_cached_until (s : DataSource) (c : option datetime) : DataSource :=
  mkSource (ds_id s) (ds_tenant_id s) (ds_user_id s) (ds_source_key s) (ds_scope s)
    (ds_expected_change_interval s) (ds_route s) (ds_content_hash s) (ds_last_changed_at s)
    (ds_last_ingested_at s) c (ds_pending_hash s).

Definition migrated (s : DataSource) (route : IngestionRoute) (interval : timedelta)
    (c : option datetime) : DataSource :=
  mkSource (ds_id s) (ds_tenant_id s) (ds_user_id s) (ds_source_key s) (ds_scope s)
    interval route (ds_content_hash s) (ds_last_changed_at s) (ds_last_ingested_at s) c (ds_pending_hash s).

(** [_UNCHANGED]: the row a conditional write applies to. *)
Definition unchanged (rows : gmap uuid DataSource) (tenant_id source_id : uuid) (expected_hash : string) :
  option DataSource :=
  row ← rows !! source_id;
  guard (ds_tenant_id row = tenant_id ∧ ds_content_hash row = expected_hash ∧ ds_pending_hash row = None);;
  Some row.

Definition tenant_row (rows : gmap uuid DataSource) (tenant_id source_id : uuid) : option DataSource :=
  row ← rows !! source_id; guard (ds_tenant_id row = tenant_id);; Some row.

(** ** The contract *)

(** A finite map of sources by id and each source's versions, oldest first.
    Reads and failing writes change nothing. *)
Class DataSourceLaws (R : Type) `{DataSourceRepository R} (rows : R → gmap uuid DataSource)
    (versions : R → uuid → uuid → list (datetime * option string)) : Prop := {
  src_get_spec t k u r :
    let '(o, r') := src_get t k u r in
    rows r' = rows r ∧ (∀ x d, versions r' x d = versions r x d) ∧
    match o with
    | Ret (Some s) => ∃ id, rows r !! id = Some s ∧ ds_tenant_id s = t ∧ ds_source_key s = k ∧ ds_user_id s = u
    | Ret None => ∀ id s, rows r !! id = Some s → ¬ (ds_tenant_id s = t ∧ ds_source_key s = k ∧ ds_user_id s = u)
    | Raise _ => True
    end;
  src_save_spec s v r :
    match src_save s v r with
    | (Ret _, r') =>
        rows r' = <[ds_id s := match rows r !! ds_id s with Some old => saved_over old s | None => s end]> (rows r) ∧
        (∀ old, rows r !! ds_id s = Some old → ds_tenant_id old = ds_tenant_id s) ∧
        ∀ x d, versions r' x d = versions r x d ++
          match v with
          | Some v => if decide (x = ds_tenant_id s ∧ d = ds_id s) then [(ds_last_changed_at s, sv_content v)] else []
          | None => []
          end
    | (Raise _, r') => rows r' = rows r ∧ ∀ x d, versions r' x d = versions r x d
    end;
  src_mark_spec t d h r :
    match src_mark_pending t d h r with
    | (Ret _, r') =>
        rows r' = match tenant_row (rows r) t d with
                  | Some row => <[d := with_pending row (Some h)]> (rows r)
                  | None => rows r
                  end ∧ ∀ x e, versions r' x e = versions r x e
    | (Raise _, r') => rows r' = rows r ∧ ∀ x e, versions r' x e = versions r x e
    end;
  src_record_spec t d h c r :
    match src_record_cached_until t d h c r with
    | (Ret b, r') =>
        match unchanged (rows r) t d h with
        | Some row => b = true ∧ rows r' = <[d := with_cached_until row c]> (rows r)
        | None => b = false ∧ rows r' = rows r
        end ∧ ∀ x e, versions r' x e = versions r x e
    | (Raise _, r') => rows r' = rows r ∧ ∀ x e, versions r' x e = versions r x e
    end;
  src_migrate_spec t d h route i c r :
    match src_migrate t d h route i c r with
    | (Ret b, r') =>
        match unchanged (rows r) t d h with
        | Some row => b = true ∧ rows r' = <[d := migrated row route i c]> (rows r)
        | None => b = false ∧ rows r' = rows r
        end ∧ ∀ x e, versions r' x e = versions r x e
    | (Raise _, r') => rows r' = rows r ∧ ∀ x e, versions r' x e = versions r x e
    end;
  src_times_spec t d r :
    let '(o, r') := src_version_times t d r in
    rows r' = rows r ∧ (∀ x e, versions r' x e = versions r x e) ∧
    ∀ l, o = Ret l → l = sort_by Z.leb (map fst (versions r t d));
  src_content_spec t d r :
    let '(o, r') := src_current_content t d r in
    rows r' = rows r ∧ (∀ x e, versions r' x e = versions r x e) ∧
    ∀ c, o = Ret c → c = last (omap snd (versions r t d));
  src_list_spec t r :
    let '(o, r') := src_list_sources t r in
    rows r' = rows r ∧ (∀ x e, versions r' x e = versions r x e) ∧
    ∀ l, o = Ret l → l ≡ₚ map snd (map_to_list (filter (λ kr, ds_tenant_id kr.2 = t) (rows r)))
}.

(** ** The tables *)

Record SourceVersionRow : Type := mkVersionRow {
  vr_source_id : uuid;
  vr_tenant_id : uuid;
  vr_content_hash : string;
  vr_content : option string;
  vr_ingested_at : datetime
}.

(** [data_sources] by id, [data_source_versions] in insertion order, and the
    users a row may reference. *)
Record PostgresSources : Type := mkPgSources {
  pd_rows : gmap uuid DataSource;
  pd_versions : list SourceVersionRow;
  pd_users : gset uuid
}.

Definition pd_set_rows (rows : gmap uuid DataSource) (p : PostgresSources) : PostgresSources :=
  mkPgSources rows (pd_versions p) (pd_users p).

Definition check_violation : exn := BackendError "check constraint violation".

(** ck_data_sources_interval_positive and ck_data_sources_scope_user. *)
Definition checks_ok (s : DataSource) : bool :=
  (0 <? ds_expected_change_interval s) &&
  eqb (bool_decide (ds_scope s = USER_SCOPE)) (bool_decide (is_Some (ds_user_id s))).

(** uq_data_sources_tenant_user_key, NULLS NOT DISTINCT. *)
Definition key_taken (rows : gmap uuid DataSource) (s : DataSource) : bool :=
  bool_decide (filter (λ kr, ds_tenant_id kr.2 = ds_tenant_id s ∧ ds_user_id kr.2 = ds_user_id s ∧
                             ds_source_key kr.2 = ds_source_key s) rows ≠ ∅).

Definition user_known (p : PostgresSources) (u : option uuid) : bool :=
  match u with Some u => bool_decide (u ∈ pd_users p) | None => true end.

Definition pd_get (tenant_id : uuid) (source_key : string) (user_id : option uuid) :
  stm PostgresSources (option DataSource) :=
  p ← get_st;
  mret (snd <$> head (map_to_list (filter (λ kr, ds_tenant_id kr.2 = tenant_id ∧
    ds_source_key kr.2 = source_key ∧ ds_user_id kr.2 = user_id) (pd_rows p)))).

Definition pd_add_version (s : DataSource) (version : option SourceVersion) (p : PostgresSources) : PostgresSources :=
  match version with
  | None => p
  | Some v => mkPgSources (pd_rows p)
      (pd_versions p ++ [mkVersionRow (ds_id s) (ds_tenant_id s) (ds_content_hash s) (sv_content v)
                           (ds_last_changed_at s)]) (pd_users p)
  end.

Definition pd_save (source : DataSource) (version : option SourceVersion) : stm PostgresSources unit :=
  p ← get_st;
  if negb (checks_ok source) then raise check_violation
  else match pd_rows p !! ds_id source with
  | Some old =>
      if decide (ds_tenant_id old = ds_tenant_id source) then
        modify (λ p, pd_add_version source version
                       (pd_set_rows (<[ds_id source := saved_over old source]> (pd_rows p)) p))
      else raise (BackendError "row-level security")
  | None =>
      if key_taken (pd_rows p) source then raise unique_violation
      else if negb (user_known p (ds_user_id source)) then raise foreign_key_violation
      else modify (λ p, pd_add_version source version
                          (pd_set_rows (<[ds_id source := source]> (pd_rows p)) p))
  end.

Definition pd_mark_pending (tenant_id source_id : uuid) (content_hash : string) : stm PostgresSources unit :=
  p ← get_st;
  match tenant_row (pd_rows p) tenant_id source_id with
  | Some row => modify (pd_set_rows (<[source_id := with_pending row (Some content_hash)]> (pd_rows p)))
  | None => mret tt
  end.

Definition pd_record_cached_until (tenant_id source_id : uuid) (expected_hash : string)
    (cached_until : option datetime) : stm PostgresSources bool :=
  p ← get_st;
  match unchanged (pd_rows p) tenant_id source_id expected_hash with
  | Some row => modify (pd_set_rows (<[source_id := with_cached_until row cached_until]> (pd_rows p)));; mret true
  | None => mret false
  end.

Definition pd_migrate (tenant_id source_id : uuid) (expected_hash : string) (route : IngestionRoute)
    (interval : timedelta) (cached_until : option datetime) : stm PostgresSources bool :=
  p ← get_st;
  match unchanged (pd_rows p) tenant_id source_id expected_hash with
  | Some row =>
      if interval <=? 0 then raise check_violation
      else modify (pd_set_rows (<[source_id := migrated row route interval cached_until]> (pd_rows p)));; mret true
  | None => mret false
  end.

(** The versions a tenant sees of a source, in insertion order. *)
Definition versions_of (p : PostgresSources) (tenant_id source_id : uuid) : list (datetime * option string) :=
  map (λ v, (vr_ingested_at v, vr_content v))
    (filter (λ v, vr_tenant_id v = tenant_id ∧ vr_source_id v = source_id) (pd_versions p)).

Definition pd_version_times (tenant_id source_id : uuid) : stm PostgresSources (list datetime) :=
  p ← get_st; mret (sort_by Z.leb (map fst (versions_of p tenant_id source_id))).

Definition pd_current_content (tenant_id source_id : uuid) : stm PostgresSources (option string) :=
  p ← get_st; mret (last (omap snd (versions_of p tenant_id source_id))).

(** [ORDER BY source_key, user_id NULLS FIRST]. *)
Definition source_order (a b : DataSource) : bool :=
  if String.eqb (ds_source_key a) (ds_source_key b) then
    match ds_user_id a, ds_user_id b with
    | None, _ => true
    | Some _, None => false
    | Some x, Some y => x <=? y
    end
  else string_leb (ds_source_key a) (ds_source_key b).

Definition pd_list_sources (tenant_id : uuid) : stm PostgresSources (list DataSource) :=
  p ← get_st;
  mret (sort_by source_order (map snd (map_to_list (filter (λ kr, ds_tenant_id kr.2 = tenant_id) (pd_rows p))))).

#[export] Instance postgres_data_sources : DataSourceRepository PostgresSources := {|
  src_get := pd_get;
  src_save := pd_save;
  src_mark_pending := pd_mark_pending;
  src_record_cached_until := pd_record_cached_until;
  src_migrate := pd_migrate;
  src_version_times := pd_version_times;
  src_current_content := pd_current_content;
  src_list_sources := pd_list_sources
|}.

(** ** It keeps the contract *)

Lemma versions_of_add p s v t d :
  versions_of (pd_add_version s v p) t d = versions_of p t d ++
    match v with
    | Some v => if decide (t = ds_tenant_id s ∧ d = ds_id s) then [(ds_last_changed_at s, sv_content v)] else []
    | None => []
    end.
Proof.
  unfold versions_of, pd_add_version. destruct v as [v|]; [|by rewrite app_nil_r]. simpl.
  rewrite filter_app, map_app. f_equal. rewrite filter_cons, filter_nil. simpl.
  destruct (decide (ds_tenant_id s = t ∧ ds_id s = d)) as [[<- <-]|Hn]; [by rewrite decide_True|].
  rewrite decide_False; [done|]. intros [-> ->]. by apply Hn.
Qed.

#[export] Instance postgres_source_laws : DataSourceLaws PostgresSources pd_rows versions_of.
Proof.
  split; cbn [src_get src_save src_mark_pending src_record_cached_until src_migrate src_version_times
              src_current_content src_list_sources postgres_data_sources].
  - intros t k u p. unfold pd_get, mbind, stm_bind, get_st, mret, stm_ret. split; [done|]. split; [done|].
    set (m := filter _ (pd_rows p)).
    assert (Hm : ∀ id s, m !! id = Some s ↔ pd_rows p !! id = Some s ∧ ds_tenant_id s = t ∧
      ds_source_key s = k ∧ ds_user_id s = u) by (intros id s; unfold m; by rewrite map_lookup_filter_Some).
    destruct (map_to_list m) as [|[id s] l] eqn:Hl; simpl.
    + intros id s Hs Hq. apply map_to_list_empty_iff in Hl.
      assert (m !! id = Some s) as Hin by (by apply Hm). by rewrite Hl, lookup_empty in Hin.
    + exists id. apply Hm, elem_of_map_to_list. rewrite Hl. by left.
  - intros s v p. unfold pd_save, mbind, stm_bind, get_st, raise, modify.
    destruct (negb _); [done|]. destruct (pd_rows p !! ds_id s) as [old|] eqn:Hold.
    + destruct (decide _) as [Ht|]; [|done].
      split; [by destruct v|]. split; [by intros ? [= <-]|]. intros x d. by rewrite versions_of_add.
    + destruct (key_taken _ _); [done|]. destruct (negb _); [done|].
      split; [by destruct v|]. split; [done|]. intros x d. by rewrite versions_of_add.
  - intros t d h p. unfold pd_mark_pending, mbind, stm_bind, get_st, modify, mret, stm_ret.
    by destruct (tenant_row (pd_rows p) t d).
  - intros t d h c p. unfold pd_record_cached_until, mbind, stm_bind, get_st, modify, mret, stm_ret.
    by destruct (unchanged (pd_rows p) t d h).
  - intros t d h route i c p. unfold pd_migrate, mbind, stm_bind, get_st, modify, raise, mret, stm_ret.
    destruct (unchanged (pd_rows p) t d h); [|done]. by destruct (i <=? 0).
  - intros t d p. unfold pd_version_times, mbind, stm_bind, get_st, mret, stm_ret.
    split; [done|]. split; [done|]. by intros l [= <-].
  - intros t d p. unfold pd_current_content, mbind, stm_bind, get_st, mret, stm_ret.
    split; [done|]. split; [done|]. by intros l [= <-].
  - intros t p. unfold pd_list_sources, mbind, stm_bind, get_st, mret, stm_ret.
    split; [done|]. split; [done|]. intros l [= <-]. apply sort_by_perm.
Qed.
