(* ===== verification/Ingestion.v ===== *)
(** * Ingestion, refresh and review

    orchestration/application/ingest_data_source.py, refresh_cached_sources.py
    and review_source_freshness.py, over the registry of DataSourceRepo.v, the
    RagIndex and SessionFactWriter ports and the warmed retriever, whose frozen
    cache is the very object the three use cases call.  Every await is a call on
    one of the four stores; a run that raises keeps what its earlier calls did. *)

From Stdlib Require Import ZArith Lia Ascii String Floats.SpecFloat.
From S2P Require Import Prelude PyFloat PyTime PyStr Digest Entities FreshnessRouter Ports FrozenCaches RagPorts CacheWarmedRetrieve Doubles DataSourceRepo.

(** ** Ports *)

Class RagIndex (I : Type) : Type := ri_replace : uuid → uuid → string → string → stm I unit.

(** The index holds at most one text per document; a replacement that fails
    half-way may leave anything of that document, and touches no other. *)
Class RagIndexLaws (I : Type) `{RagIndex I} (texts : I → gmap (uuid * uuid) string) : Prop :=
  ri_replace_spec t d title text i :
    match ri_replace t d title text i with
    | (Ret _, i') => texts i' = <[(t, d) := text]> (texts i)
    | (Raise _, i') => ∀ k, k ≠ (t, d) → texts i' !! k = texts i !! k
    end.

Class SessionFactWriter (W : Type) : Type := fw_record : uuid → uuid → string → string → stm W unit.

Record Router (R I E C F W : Type) : Type := mkRouter {
  rt_repository : R;
  rt_index : I;
  rt_warmed : CacheWarmedRetrieve E C F;
  rt_writer : W
}.
Arguments mkRouter {R I E C F W}.
Arguments rt_repository {R I E C F W}.
Arguments rt_index {R I E C F W}.
Arguments rt_warmed {R I E C F W}.
Arguments rt_writer {R I E C F W}.

Section router.
Context {R I E C KV F W : Type} `{DataSourceRepository R} `{RagIndex I} `{EmbeddingModel E}
  `{FrozenCache C KV, !ExpiringCache C KV} `{Retriever F} `{SessionFactWriter W}.
Abbreviation Rt := (Router R I E C F W) (only parsing).

Definition on_repository {A} (m : stm R A) : stm Rt A := λ s,
  let '(r, x) := m (rt_repository s) in (r, mkRouter x (rt_index s) (rt_warmed s) (rt_writer s)).
Definition on_index {A} (m : stm I A) : stm Rt A := λ s,
  let '(r, x) := m (rt_index s) in (r, mkRouter (rt_repository s) x (rt_warmed s) (rt_writer s)).
Definition on_warmed {A} (m : stm (CacheWarmedRetrieve E C F) A) : stm Rt A := λ s,
  let '(r, x) := m (rt_warmed s) in (r, mkRouter (rt_repository s) (rt_index s) x (rt_writer s)).
Definition on_cache {A} (m : stm C A) : stm Rt A := on_warmed (CacheWarmedRetrieve.on_cache m).
Definition on_writer {A} (m : stm W A) : stm Rt A := λ s,
  let '(r, x) := m (rt_writer s) in (r, mkRouter (rt_repository s) (rt_index s) (rt_warmed s) x).

(** The constructor arguments of the three use cases. *)
Context (policy : FreshnessPolicy) (route_policy : DataSourceProfile → FreshnessPolicy → IngestionRoute)
  (permit_user_scope_outside_mag : bool).

(** ** IngestDataSource *)

Definition _new_source (tenant_id : uuid) (profile : DataSourceProfile) (digest : string)
    (now : datetime) (user_id : option uuid) : res DataSource :=
  let route := route_policy profile policy in
  if decide (route = MAG_ROUTE ∧ dp_scope profile = TENANT_SCOPE)
  then Raise (ValueError "a tenant-scoped source cannot route to MAG")
  else if bool_decide (dp_scope profile = USER_SCOPE ∧ route ≠ MAG_ROUTE) && negb permit_user_scope_outside_mag
  then Raise (ValueError "a user-scoped source routes to MAG; placing it elsewhere puts personal data in tenant-wide stores and must be permitted explicitly")
  else Ret (mkSource (source_id_for tenant_id (dp_source_key profile) user_id) tenant_id user_id
              (dp_source_key profile) (dp_scope profile) (dp_expected_change_interval profile) route digest
              now now None None).

(** [now + ttl], or no expiry. *)
Definition expiry_after (interval : timedelta) (from : datetime) : res (option datetime) :=
  ttl ← cache_ttl interval policy;
  match ttl with None => Ret None | Some ttl => Some <$> dt_add from ttl end.

Definition _apply_route (source : DataSource) (content : string) (reapply : bool) (now : datetime) :
  stm Rt (option datetime) :=
  match ds_route source with
  | MAG_ROUTE =>
      match reapply, ds_user_id source with
      | true, Some user_id =>
          on_writer (fw_record (ds_tenant_id source) user_id (ds_source_key source) content);; mret None
      | _, _ => mret None
      end
  | route =>
      (if reapply
       then on_index (ri_replace (ds_tenant_id source) (ds_id source) (ds_source_key source) content)
       else mret tt);;
      match route with
      | RAG_ONLY => mret None
      | _ =>
          if reapply then
            on_cache (fc_evict (ds_tenant_id source) (ds_id source));;
            on_warmed (forget (ds_tenant_id source) (ds_id source));;
            mret None
          else
            expires_at ← lift_res (expiry_after (ds_expected_change_interval source) now);
            renewed ← on_cache (ec_renew (ds_tenant_id source) (ds_id source) expires_at);
            mret (if (renewed : bool) then expires_at else None)
      end
  end.

(** The source an ingestion will save: a new one, or the stored one with the
    delivered content. *)
Definition replaced (existing : DataSource) (digest : string) (changed : bool) (now : datetime) : DataSource :=
  mkSource (ds_id existing) (ds_tenant_id existing) (ds_user_id existing) (ds_source_key existing)
    (ds_scope existing) (ds_expected_change_interval existing) (ds_route existing) digest
    (if changed then now else ds_last_changed_at existing) now (ds_cached_until existing) None.

(** The effects and the save. *)
Definition apply_and_save (source : DataSource) (content : string) (changed reapply : bool) (now : datetime) :
  stm Rt IngestionResult :=
  cached_until ← _apply_route source content reapply now;
  let version := if changed
                 then Some (mkVersion (if decide (ds_route source = MAG_ROUTE) then None else Some content))
                 else None in
  on_repository (src_save (with_cached_until source cached_until) version);;
  mret (mkIngestionResult (ds_id source) (ds_route source) changed).

(** [execute] from the point where the registry has been read. *)
Definition ingest_from (tenant_id : uuid) (profile : DataSourceProfile) (content : string) (now : datetime)
    (user_id : option uuid) (existing : option DataSource) : stm Rt IngestionResult :=
  let digest := content_hash content in
  match existing with
  | None =>
      source ← lift_res (_new_source tenant_id profile digest now user_id);
      apply_and_save source content true true now
  | Some existing =>
      let changed := negb (String.eqb (ds_content_hash existing) digest) in
      let reapply := changed || bool_decide (is_Some (ds_pending_hash existing)) in
      (if reapply then on_repository (src_mark_pending tenant_id (ds_id existing) digest) else mret tt);;
      apply_and_save (replaced existing digest changed now) content changed reapply now
  end.

Definition IngestDataSource_execute (tenant_id : uuid) (profile : DataSourceProfile) (content : string)
    (now : datetime) (user_id : option uuid) : stm Rt IngestionResult :=
  if negb (eqb (bool_decide (dp_scope profile = USER_SCOPE)) (bool_decide (is_Some user_id)))
  then raise (ScopeMismatch (dp_source_key profile) (bool_decide (is_Some user_id)))
  else
    existing ← on_repository (src_get tenant_id (dp_source_key profile) user_id);
    ingest_from tenant_id profile content now user_id existing.

(** ** RefreshCachedSources *)

(** One turn of the loop: the source key when its pre-load was recorded. *)
Definition refresh_one (tenant_id : uuid) (now : datetime) (source : DataSource) : stm Rt (option string) :=
  if negb (bool_decide (ds_route source = CAG_WITH_RAG_BACKUP)) then mret None
  else if bool_decide (is_Some (ds_pending_hash source)) then mret None
  else
    held ← on_cache (fc_contains tenant_id (ds_id source));
    if (held : bool) then mret None
    else
      expires_at ← lift_res (expiry_after (ds_expected_change_interval source) (ds_last_ingested_at source));
      if expired expires_at now then mret None
      else
        content ← on_repository (src_current_content tenant_id (ds_id source));
        match content with
        | None => mret None
        | Some content =>
            if negb (String.eqb (content_hash content) (ds_content_hash source)) then mret None
            else
              on_cache (ec_preload_until tenant_id (ds_id source) content expires_at);;
              on_warmed (note_warmed tenant_id (ds_id source) content);;
              recorded ← on_repository (src_record_cached_until tenant_id (ds_id source)
                                          (ds_content_hash source) expires_at);
              if negb (recorded : bool) then
                on_cache (fc_evict tenant_id (ds_id source));;
                on_warmed (forget tenant_id (ds_id source));;
                mret None
              else mret (Some (ds_source_key source))
        end.

Definition RefreshCachedSources_run (tenant_id : uuid) (now : datetime) : stm Rt (list string) :=
  listing ← on_repository (src_list_sources tenant_id);
  preloaded ← for_each listing (refresh_one tenant_id now);
  mret (omap id preloaded).

(** ** ReviewSourceFreshness *)

Definition review_one (tenant_id : uuid) (now : datetime) (source : DataSource) : stm Rt (option SourceMigration) :=
  if bool_decide (ds_scope source = USER_SCOPE) || bool_decide (is_Some (ds_pending_hash source)) then mret None
  else
    times ← on_repository (src_version_times tenant_id (ds_id source));
    decision ← lift_res (decide_migration source times now policy);
    match decision with
    | None => mret None
    | Some decision =>
        let demoted := bool_decide (md_to_route decision = RAG_ONLY) in
        did ← on_repository (src_migrate tenant_id (ds_id source) (ds_content_hash source)
                (md_to_route decision) (md_interval decision)
                (if demoted then None else ds_cached_until source));
        if negb (did : bool) then mret None
        else
          (if demoted then
             on_cache (fc_evict tenant_id (ds_id source));;
             on_warmed (forget tenant_id (ds_id source))
           else mret tt);;
          mret (Some (mkSourceMigration (ds_source_key source) (ds_route source) (md_to_route decision)
                        (md_interval decision)))
    end.

Definition ReviewSourceFreshness_run (tenant_id : uuid) (now : datetime) : stm Rt (list SourceMigration) :=
  listing ← on_repository (src_list_sources tenant_id);
  migrations ← for_each listing (review_one tenant_id now);
  mret (omap id migrations).

(** ** Consistency *)

(** What ingestion and refresh need of the cache: a key found absent holds,
    after a pre-load, at most the text it was given. *)
Class RefreshableCache (view : C → gmap (uuid * uuid) (CacheHit KV)) : Prop := {
  rc_evict t d c : ∃ c', fc_evict t d c = (Ret tt, c') ∧ view c' = delete (t, d) (view c);
  rc_contains t d c : ∃ c', fc_contains t d c = (Ret (bool_decide (is_Some (view c !! (t, d)))), c') ∧ view c' = view c;
  rc_renew t d e c : view (ec_renew t d e c).2 ⊆ view c;
  rc_preload t d text e c c1 :
    fc_contains t d c = (Ret false, c1) →
    ∀ k hit, view (ec_preload_until t d text e c1).2 !! k = Some hit →
      (k = (t, d) ∧ ch_content_hash hit = content_hash text) ∨ view c !! k = Some hit
}.

Context (rows : R → gmap uuid DataSource) (versions : R → uuid → uuid → list (datetime * option string))
  `{!DataSourceLaws R rows versions} (texts : I → gmap (uuid * uuid) string) `{!RagIndexLaws I texts}
  (view : C → gmap (uuid * uuid) (CacheHit KV)) `{!RefreshableCache view}.

Definition rows_of (s : Rt) : gmap uuid DataSource := rows (rt_repository s).
Definition texts_of (s : Rt) : gmap (uuid * uuid) string := texts (rt_index s).
Definition cached_of (s : Rt) : gmap (uuid * uuid) (CacheHit KV) := view (cw_frozen_cache (rt_warmed s)).

(** A source's name, and the sources in play: distinct names have distinct ids. *)
Abbreviation name := (uuid * string * option uuid)%type.
Definition name_id (n : name) : uuid := source_id_for n.1.1 n.1.2 n.2.
Definition name_of (row : DataSource) : name := (ds_tenant_id row, ds_source_key row, ds_user_id row).

Context (names : list name)
  (names_distinct : ∀ n n', n ∈ names → n' ∈ names → name_id n = name_id n' → n = n').

(** Whatever is cached is the recorded version of a source that is routed to
    the cache; and unless a change is pending, the RAG index holds the recorded
    version of every source outside MAG. *)
Record consistent (s : Rt) : Prop := {
  co_cached t d hit : cached_of s !! (t, d) = Some hit → ∃ row, rows_of s !! d = Some row ∧
    ds_tenant_id row = t ∧ ds_content_hash row = ch_content_hash hit ∧ ds_route row = CAG_WITH_RAG_BACKUP;
  co_indexed d row : rows_of s !! d = Some row → ds_pending_hash row = None → ds_route row ≠ MAG_ROUTE →
    ∃ text, texts_of s !! (ds_tenant_id row, d) = Some text ∧ content_hash text = ds_content_hash row;
  co_ids d row : rows_of s !! d = Some row → ds_id row = d ∧ name_of row ∈ names ∧ name_id (name_of row) = d
}.

(** *** Calls that leave the three stores alone *)

Definition same_stores (s s' : Rt) : Prop :=
  rows_of s' = rows_of s ∧ texts_of s' = texts_of s ∧ cached_of s' = cached_of s.

Lemma consistent_same s s' : same_stores s s' → consistent s → consistent s'.
Proof. intros (Hr & Ht & Hc) []. split; rewrite ?Hr, ?Ht, ?Hc; done. Qed.

Lemma on_repository_read {A} (m : stm R A) s :
  rows (m (rt_repository s)).2 = rows_of s → same_stores s (on_repository m s).2.
Proof. intros Hm. unfold on_repository, same_stores, rows_of in *. by destruct (m _). Qed.

Lemma on_writer_same {A} (m : stm W A) s : same_stores s (on_writer m s).2.
Proof. unfold on_writer. by destruct (m _). Qed.

Lemma note_warmed_same t d text s : same_stores s (on_warmed (note_warmed t d text) s).2.
Proof.
  unfold on_warmed, note_warmed, mbind, stm_bind, CacheWarmedRetrieve.on_embedder, modify, same_stores, rows_of, texts_of, cached_of.
  by destruct (embed text _) as [[v|e] x].
Qed.

Lemma forget_same t d s : same_stores s (on_warmed (forget t d) s).2.
Proof.
  unfold on_warmed, forget, modify, same_stores, rows_of, texts_of, cached_of. simpl.
  by destruct (cw_warmed _ !! t).
Qed.

(** *** Each atomic step *)

Lemma evict_spec t d s : ∃ s', on_cache (fc_evict t d) s = (Ret tt, s') ∧
  rows_of s' = rows_of s ∧ texts_of s' = texts_of s ∧ cached_of s' = delete (t, d) (cached_of s).
Proof.
  destruct (rc_evict t d (cw_frozen_cache (rt_warmed s))) as (c' & Hev & Hv).
  unfold on_cache, on_warmed, CacheWarmedRetrieve.on_cache, rows_of, texts_of, cached_of. rewrite Hev.
  by eexists.
Qed.

Lemma smaller_cache s s' :
  consistent s → rows_of s' = rows_of s → texts_of s' = texts_of s → cached_of s' ⊆ cached_of s → consistent s'.
Proof.
  intros [] Hr Ht Hc. split; rewrite ?Hr, ?Ht; try done.
  intros t d hit Hhit. apply (co_cached0 t d hit). by eapply lookup_weaken.
Qed.

(** Forget what is cached for a document. *)
Lemma evict_triple t d (P : Rt → Prop) :
  (∀ s s', P s → rows_of s' = rows_of s → texts_of s' = texts_of s → P s') →
  triple (λ s, consistent s ∧ P s) (on_cache (fc_evict t d);; on_warmed (forget t d))
    (λ _ s, consistent s ∧ P s ∧ cached_of s !! (t, d) = None) consistent.
Proof.
  intros HP s [Hs Hp]. destruct (evict_spec t d s) as (s1 & Hev & Hr & Ht & Hc).
  stm_step Hev. destruct (forget_same t d s1) as (Hr1 & Ht1 & Hc1).
  assert (Hs1 : consistent (on_warmed (forget t d) s1).2).
  { apply (smaller_cache s); [done|congruence|congruence|]. rewrite Hc1, Hc. apply delete_subseteq. }
  unfold on_warmed, forget, modify in *. cbn [snd] in *. split; [done|]. split.
  - eapply (HP s); [done|congruence|congruence].
  - rewrite Hc1, Hc. apply lookup_delete_eq.
Qed.

(** Replace the indexed text of a document no settled row speaks of. *)
Lemma replace_triple t d title text o :
  (∀ row, o = Some row → ds_tenant_id row = t → ds_pending_hash row ≠ None) →
  triple (λ s, consistent s ∧ rows_of s !! d = o) (on_index (ri_replace t d title text))
    (λ _ s, consistent s ∧ rows_of s !! d = o ∧ texts_of s !! (t, d) = Some text) consistent.
Proof.
  intros Ho s [Hs Hd].
  assert (Hgo : ∀ i', (∀ k, k ≠ (t, d) → texts i' !! k = texts_of s !! k) →
    consistent (mkRouter (rt_repository s) i' (rt_warmed s) (rt_writer s))).
  { intros i' Hi'. destruct Hs. split; try done. intros d' row Hrow Hpend Hroute.
    change (rows_of s !! d' = Some row) in Hrow.
    unfold texts_of. simpl. rewrite Hi'; [by apply co_indexed0|].
    intros [= Hten ->]. apply (Ho row); congruence. }
  unfold on_index. pose proof (ri_replace_spec t d title text (rt_index s)) as Hspec.
  destruct (ri_replace t d title text (rt_index s)) as [[[]|e] i'].
  - split; [|split; [done|]].
    + apply Hgo. intros k Hk. rewrite Hspec. by rewrite lookup_insert_ne.
    + unfold texts_of. simpl. rewrite Hspec. apply lookup_insert_eq.
  - by apply Hgo.
Qed.

(** Changing one row, when the other stores fit its new contents. *)
Lemma update_row s s' d row :
  consistent s → rows_of s' = <[d := row]> (rows_of s) → texts_of s' = texts_of s → cached_of s' = cached_of s →
  (∀ t hit, cached_of s !! (t, d) = Some hit → ds_tenant_id row = t ∧
     ds_content_hash row = ch_content_hash hit ∧ ds_route row = CAG_WITH_RAG_BACKUP) →
  (ds_pending_hash row = None → ds_route row ≠ MAG_ROUTE →
     ∃ text, texts_of s !! (ds_tenant_id row, d) = Some text ∧ content_hash text = ds_content_hash row) →
  ds_id row = d → name_of row ∈ names → name_id (name_of row) = d → consistent s'.
Proof.
  intros [] Hr Ht Hc Hcached Hindexed Hid Hname Hnid. split; rewrite ?Hr, ?Ht, ?Hc.
  - intros t e hit Hhit. destruct (decide (e = d)) as [->|Hne].
    + rewrite lookup_insert_eq. exists row. split; [done|]. by apply Hcached.
    + rewrite lookup_insert_ne by done. by apply co_cached0.
  - intros e row'. destruct (decide (e = d)) as [->|Hne].
    + rewrite lookup_insert_eq. by intros [= <-].
    + rewrite lookup_insert_ne by done. apply co_indexed0.
  - intros e row'. destruct (decide (e = d)) as [->|Hne].
    + rewrite lookup_insert_eq. by intros [= <-].
    + rewrite lookup_insert_ne by done. apply co_ids0.
Qed.

Lemma mark_triple d h row :
  triple (λ s, consistent s ∧ rows_of s !! d = Some row)
    (on_repository (src_mark_pending (ds_tenant_id row) d h))
    (λ _ s, consistent s ∧ rows_of s !! d = Some (with_pending row (Some h))) consistent.
Proof.
  intros s [Hs Hd]. unfold on_repository.
  pose proof (src_mark_spec (rows := rows) (versions := versions) (ds_tenant_id row) d h (rt_repository s)) as Hm.
  destruct (src_mark_pending _ d h (rt_repository s)) as [[[]|e] r']; destruct Hm as [Hm _].
  - unfold tenant_row in Hm. change (rows (rt_repository s)) with (rows_of s) in Hm.
    rewrite Hd in Hm. simpl in Hm. rewrite option_guard_True in Hm by done. simpl in Hm.
    assert (Hrows : rows_of (mkRouter r' (rt_index s) (rt_warmed s) (rt_writer s))
      = <[d := with_pending row (Some h)]> (rows_of s)) by exact Hm.
    destruct (co_ids s Hs d row Hd) as (? & ? & ?). split; [|by rewrite Hrows, lookup_insert_eq].
    eapply (update_row s); [done|done|done|done| |done|done|done|done].
    intros t hit Hhit. destruct (co_cached s Hs t d hit Hhit) as (row' & Hr' & Hten & Hhash & Hroute).
    assert (row' = row) as -> by congruence. done.
  - by apply (consistent_same s).
Qed.

(** What makes a source safe to save. *)
Definition saveable (source : DataSource) (s : Rt) : Prop :=
  (ds_route source ≠ MAG_ROUTE → ∃ text, texts_of s !! (ds_tenant_id source, ds_id source) = Some text ∧
     content_hash text = ds_content_hash source) ∧
  ∀ hit, cached_of s !! (ds_tenant_id source, ds_id source) = Some hit →
    ch_content_hash hit = ds_content_hash source ∧ ds_route source = CAG_WITH_RAG_BACKUP.

(** The row, if any, that the saved source will be written over. *)
Definition overwrites (o : option DataSource) (source : DataSource) : Prop :=
  match o with
  | Some old => name_of old = name_of source ∧ ds_route old = ds_route source
  | None => name_of source ∈ names ∧ name_id (name_of source) = ds_id source
  end.

(** The registry holds a delivered version, with no change pending. *)
Definition recorded (source : DataSource) (s : Rt) : Prop :=
  ∃ row, rows_of s !! ds_id source = Some row ∧ name_of row = name_of source ∧
    ds_route row = ds_route source ∧ ds_content_hash row = ds_content_hash source ∧ ds_pending_hash row = None.

Lemma save_triple source v o :
  overwrites o source → ds_pending_hash source = None →
  triple (λ s, consistent s ∧ rows_of s !! ds_id source = o ∧ saveable source s)
    (on_repository (src_save source v)) (λ _ s, consistent s ∧ recorded source s) consistent.
Proof.
  intros Hover Hpend s (Hs & Hd & Htext & Hcache). unfold on_repository.
  pose proof (src_save_spec (rows := rows) (versions := versions) source v (rt_repository s)) as Hm.
  destruct (src_save source v (rt_repository s)) as [[[]|e] r'].
  2: { destruct Hm as [Hm _]. by apply (consistent_same s). }
  destruct Hm as (Hm & _ & _). change (rows (rt_repository s)) with (rows_of s) in Hm. rewrite Hd in Hm.
  assert (Hcached : ∀ t hit, cached_of s !! (t, ds_id source) = Some hit →
    t = ds_tenant_id source ∧ ds_content_hash source = ch_content_hash hit ∧ ds_route source = CAG_WITH_RAG_BACKUP).
  { intros t hit Hhit. destruct (co_cached s Hs t _ hit Hhit) as (row' & Hr' & Hten & _).
    rewrite Hd in Hr'. rewrite Hr' in Hover. destruct Hover as [Hn _]. unfold name_of in Hn.
    assert (t = ds_tenant_id source) as -> by congruence. destruct (Hcache hit Hhit). done. }
  destruct o as [old|]; simpl in Hm.
  - destruct Hover as [Hn Hroute]. destruct (co_ids s Hs _ old Hd) as (Hid & Hin & Hnid).
    unfold name_of in Hn. injection Hn as Hten Hkey Huser.
    split; [|exists (saved_over old source); split; [change (rows_of _) with (rows r'); rewrite Hm; apply lookup_insert_eq|];
             unfold name_of; simpl; split_and!; [congruence|done..]].
    eapply (update_row s); [done|exact Hm|done|done| | |exact Hid|exact Hin|exact Hnid].
    + intros t hit Hhit. simpl. rewrite Hten, Hroute. by destruct (Hcached t hit Hhit) as (-> & ? & ?).
    + simpl. intros _ Hne. rewrite Hten. apply Htext. congruence.
  - destruct Hover as [Hin Hnid].
    split; [|exists source; split; [change (rows_of _) with (rows r'); rewrite Hm; apply lookup_insert_eq|done]].
    eapply (update_row s); [done|exact Hm|done|done| | |done|exact Hin|exact Hnid].
    + intros t hit Hhit. by destruct (Hcached t hit Hhit) as (-> & ? & ?).
    + intros _. apply Htext.
Qed.

(** Renewing keeps a live entry or drops it. *)
Lemma renew_triple t d e (P : Rt → Prop) :
  (∀ s s', P s → rows_of s' = rows_of s → texts_of s' = texts_of s → cached_of s' ⊆ cached_of s → P s') →
  triple (λ s, consistent s ∧ P s) (on_cache (ec_renew t d e)) (λ _ s, consistent s ∧ P s) consistent.
Proof.
  intros HP s [Hs Hp]. unfold on_cache, on_warmed, CacheWarmedRetrieve.on_cache.
  pose proof (rc_renew t d e (cw_frozen_cache (rt_warmed s))) as Hv.
  destruct (ec_renew t d e (cw_frozen_cache (rt_warmed s))) as [r c']. cbn [snd] in Hv.
  set (s' := mkRouter _ _ _ _).
  assert (Hs' : consistent s') by (by apply (smaller_cache s)).
  destruct r; [split; [done|]; by apply (HP s)|done].
Qed.

(** Before the effects: a change is settled by nothing yet recorded about the
    document; a confirmation repeats what is recorded. *)
Definition appliable (o : option DataSource) (source : DataSource) (reapply : bool) : Prop :=
  overwrites o source ∧
  if reapply then ∀ row, o = Some row → ds_pending_hash row ≠ None
  else ∃ row, o = Some row ∧ ds_pending_hash row = None ∧ ds_content_hash row = ds_content_hash source.

(** Nothing is cached for a source outside the cache's route. *)
Lemma uncached_route o source s hit :
  overwrites o source → consistent s → rows_of s !! ds_id source = o → ds_route source ≠ CAG_WITH_RAG_BACKUP →
  cached_of s !! (ds_tenant_id source, ds_id source) = Some hit → False.
Proof.
  intros Hover Hs Hd Hne Hhit. destruct (co_cached s Hs _ _ hit Hhit) as (row & Hr & _ & _ & Hroute).
  rewrite Hd in Hr. rewrite Hr in Hover. destruct Hover as [_ Hover]. congruence.
Qed.

(** A confirmation finds everything already in place. *)
Lemma confirmed_saveable o source s :
  appliable o source false → consistent s → rows_of s !! ds_id source = o → saveable source s.
Proof.
  intros [Hover (row & -> & Hpend & Hh)] Hs Hd. destruct Hover as [Hn Hroute]. unfold name_of in Hn. split.
  - intros Hne. destruct (co_indexed s Hs _ row Hd Hpend) as (text & Htext & Heq); [congruence|].
    exists text. split; [|congruence]. assert (ds_tenant_id row = ds_tenant_id source) as <- by congruence. done.
  - intros hit Hhit. destruct (co_cached s Hs _ _ hit Hhit) as (row' & Hr & _ & Heq & Hr'). split; congruence.
Qed.

(** A change reaches the index; a confirmation leaves it. *)
Lemma index_triple source content reapply o :
  appliable o source reapply →
  triple (λ s, consistent s ∧ rows_of s !! ds_id source = o)
    (if reapply then on_index (ri_replace (ds_tenant_id source) (ds_id source) (ds_source_key source) content)
     else mret tt)
    (λ _ s, consistent s ∧ rows_of s !! ds_id source = o ∧
       (reapply = true → texts_of s !! (ds_tenant_id source, ds_id source) = Some content)) consistent.
Proof.
  intros [Hover Hcase]. destruct reapply; [|by intros s [Hs Hd]].
  eapply triple_conseq; [apply (replace_triple (ds_tenant_id source) (ds_id source) (ds_source_key source) content o)| |].
  - intros row Hrow _. by apply Hcase.
  - done.
  - intros [] s (Hs & Hd & Ht). by split_and!.
Qed.

Lemma apply_route_triple source content reapply now o :
  appliable o source reapply → content_hash content = ds_content_hash source →
  triple (λ s, consistent s ∧ rows_of s !! ds_id source = o) (_apply_route source content reapply now)
    (λ _ s, consistent s ∧ rows_of s !! ds_id source = o ∧ saveable source s) consistent.
Proof.
  intros Hap Hhash. pose proof (index_triple source content reapply o Hap) as Hindex.
  pose proof (λ s hit, uncached_route o source s hit (proj1 Hap)) as Hout.
  pose proof (λ s, confirmed_saveable o source s) as Hsettled.
  unfold _apply_route. destruct (ds_route source) eqn:Hroute.
  - (* RAG only *)
    eapply triple_bind; [exact Hindex|]. intros []. apply triple_ret. intros s (Hs & Hd & Ht).
    split; [done|]. split; [done|]. destruct reapply; [|by apply Hsettled]. split.
    + intros _. exists content. split; [by apply Ht|done].
    + intros hit Hhit. exfalso. eapply (Hout s hit); [done|done|congruence|exact Hhit].
  - (* cached *)
    eapply triple_bind; [exact Hindex|]. intros []. destruct reapply.
    + change (on_cache (fc_evict (ds_tenant_id source) (ds_id source));;
        on_warmed (forget (ds_tenant_id source) (ds_id source));; mret (M := stm Rt) None)
        with (on_cache (fc_evict (ds_tenant_id source) (ds_id source));;
          (on_warmed (forget (ds_tenant_id source) (ds_id source));; mret (M := stm Rt) (None (A := datetime)))).
      intros s (Hs & Hd & Ht).
      pose proof (evict_triple (ds_tenant_id source) (ds_id source) (λ s, rows_of s !! ds_id source = o ∧
        texts_of s !! (ds_tenant_id source, ds_id source) = Some content)) as Hev.
      specialize (Hev ltac:(intros ? ? [? ?] ? ?; split; congruence) s
        (conj Hs (conj Hd (Ht eq_refl)))). revert Hev.
      unfold mbind, stm_bind, mret, stm_ret.
      destruct (on_cache (fc_evict _ _) s) as [[[]|e] s1]; [|done].
      destruct (on_warmed (forget _ _) s1) as [[[]|e] s2]; [|done].
      intros (Hs2 & [Hd2 Ht2] & Hc2). split; [done|]. split; [done|]. split.
      * intros _. exists content. by split.
      * intros hit Hhit. congruence.
    + eapply triple_bind with (R := λ _ s, consistent s ∧ rows_of s !! ds_id source = o); [apply triple_lift|].
      * by intros s a (Hs & Hd & _) _.
      * by intros s (Hs & _).
      * intros e. eapply triple_bind; [apply renew_triple with (P := λ s, rows_of s !! ds_id source = o)|].
        -- intros s s' Hp Hr _ _. congruence.
        -- intros b. apply triple_ret. intros s (Hs & Hd). split; [done|]. split; [done|]. by apply Hsettled.
  - (* remembered for its user *)
    assert (Hdone : ∀ s, consistent s → rows_of s !! ds_id source = o → saveable source s).
    { intros s Hs Hd. split; [done|]. intros hit Hhit. exfalso. by eapply (Hout s hit). }
    destruct reapply, (ds_user_id source) as [u|].
    2-4: apply triple_ret; intros s [Hs Hd]; by auto.
    eapply triple_bind with (R := λ _ s, consistent s ∧ rows_of s !! ds_id source = o).
    + intros s [Hs Hd].
      pose proof (on_writer_same (fw_record (ds_tenant_id source) u (ds_source_key source) content) s) as Hsame.
      pose proof Hsame as (Hr & _). apply consistent_same in Hsame; [|done].
      destruct (on_writer _ s) as [[[]|e] s']; cbn [snd] in *; [split; [done|congruence]|done].
    + intros []. apply triple_ret. intros s [Hs Hd]. by auto.
Qed.

Lemma apply_and_save_triple source content changed reapply now o :
  appliable o source reapply → content_hash content = ds_content_hash source → ds_pending_hash source = None →
  triple (λ s, consistent s ∧ rows_of s !! ds_id source = o) (apply_and_save source content changed reapply now)
    (λ r s, consistent s ∧ r = mkIngestionResult (ds_id source) (ds_route source) changed ∧ recorded source s) consistent.
Proof.
  intros Hap Hhash Hpend. eapply triple_bind; [by apply apply_route_triple|]. intros cached_until.
  eapply triple_bind with (R := λ _ s, consistent s ∧ recorded source s);
    [|intros []; apply triple_ret; by intros s [? ?]].
  apply (save_triple (with_cached_until source cached_until) _ o); [|done].
  destruct Hap as [Hover _]. by destruct o.
Qed.

(** What a registry read establishes. *)
Definition read_as (t : uuid) (k : string) (u : option uuid) (existing : option DataSource) (s : Rt) : Prop :=
  match existing with
  | Some row => rows_of s !! ds_id row = Some row ∧ name_of row = (t, k, u)
  | None => ∀ d row, rows_of s !! d = Some row → name_of row ≠ (t, k, u)
  end.

Lemma get_triple t k u :
  triple consistent (on_repository (src_get t k u))
    (λ existing s, consistent s ∧ read_as t k u existing s) consistent.
Proof.
  intros s Hs. pose proof (src_get_spec (rows := rows) (versions := versions) t k u (rt_repository s)) as Hg.
  pose proof (on_repository_read (src_get t k u) s) as Hsame. unfold on_repository in *.
  destruct (src_get t k u (rt_repository s)) as [o r']. destruct Hg as (Hr & _ & Hg). cbn [snd] in Hsame.
  specialize (Hsame Hr). assert (consistent (mkRouter r' (rt_index s) (rt_warmed s) (rt_writer s))) as Hs'
    by (by apply (consistent_same s)).
  destruct o as [[row|]|e]; [| |done]; (split; [done|]); unfold read_as; change (rows_of _) with (rows r'); rewrite Hr.
  - destruct Hg as (id & Hid & <- & <- & <-). destruct (co_ids s Hs id row Hid) as (-> & _). done.
  - intros d row Hd [= <- <- <-]. by apply (Hg d row Hd).
Qed.

Lemma new_source_spec t profile h now u source :
  _new_source t profile h now u = Ret source →
  name_of source = (t, dp_source_key profile, u) ∧ ds_id source = source_id_for t (dp_source_key profile) u ∧
  ds_content_hash source = h ∧ ds_pending_hash source = None.
Proof.
  unfold _new_source. destruct (decide _); [done|]. destruct (_ && _); [done|]. by intros [= <-].
Qed.

(** What a successful ingestion leaves in the registry. *)
Definition ingested (t : uuid) (k : string) (u : option uuid) (content : string) (r : IngestionResult) (s : Rt) : Prop :=
  ∃ row, rows_of s !! ir_source_id r = Some row ∧ name_of row = (t, k, u) ∧ ds_route row = ir_route r ∧
    ds_content_hash row = content_hash content ∧ ds_pending_hash row = None.

(** A delivery to a known source, confirmed or changed. *)
Lemma ingest_known_triple row profile content now u :
  name_of row = (ds_tenant_id row, dp_source_key profile, u) →
  triple (λ s, consistent s ∧ rows_of s !! ds_id row = Some row)
    (ingest_from (ds_tenant_id row) profile content now u (Some row))
    (λ r s, consistent s ∧ ingested (ds_tenant_id row) (dp_source_key profile) u content r s) consistent.
Proof.
  intros Hn. unfold ingest_from. set (h := content_hash content).
  set (changed := negb (String.eqb (ds_content_hash row) h)). set (reapply := changed || _).
  eapply triple_bind with (R := λ _ s, consistent s ∧ rows_of s !! ds_id row =
    Some (if reapply then with_pending row (Some h) else row)).
  { destruct reapply; [|by intros s (Hs & Hd)]. by apply mark_triple. }
  intros []. eapply triple_conseq with (P' := λ s, consistent s ∧ rows_of s !! ds_id row =
      Some (if reapply then with_pending row (Some h) else row));
    [apply (apply_and_save_triple (replaced row h changed now)); [split|done..]|done|].
  - by destruct reapply.
  - subst reapply. destruct (bool_decide_reflect (is_Some (ds_pending_hash row))) as [Hp|Hp].
    + rewrite orb_true_r. by intros ? [= <-].
    + rewrite orb_false_r. subst changed. destruct (String.eqb_spec (ds_content_hash row) h) as [Heq|]; simpl.
      * exists row. split; [done|]. split; [by apply eq_None_not_Some|done].
      * by intros ? [= <-].
  - intros r s (Hs & -> & row' & Hrow' & Hn' & Hrest). split; [done|]. exists row'. rewrite Hn', <- Hn. done.
Qed.

(** From the registry read on: whatever happens, the stores agree. *)
Lemma ingest_from_triple t profile content now u existing :
  (t, dp_source_key profile, u) ∈ names →
  triple (λ s, consistent s ∧ read_as t (dp_source_key profile) u existing s)
    (ingest_from t profile content now u existing)
    (λ r s, consistent s ∧ ingested t (dp_source_key profile) u content r s) consistent.
Proof.
  intros Hname. destruct existing as [row|].
  - intros s (Hs & Hd & Hn). assert (t = ds_tenant_id row) as -> by (unfold name_of in Hn; congruence).
    by apply ingest_known_triple.
  - intros s [Hs Hread]. unfold ingest_from, mbind, stm_bind, lift_res.
    destruct (_new_source _ _ _ _ _) as [source|e] eqn:Hnew; [|done].
    apply new_source_spec in Hnew as (Hn & Hid & Hh & Hpend).
    eapply triple_conseq;
      [apply (apply_and_save_triple source content true true now None)|intros ? Hp; exact Hp| |].
    + split; [|by intros]. unfold overwrites, name_id. by rewrite Hn, Hid.
    + done.
    + done.
    + intros r s' (Hs' & -> & row' & Hrow' & Hn' & Hrest). split; [done|]. exists row'. rewrite Hn', Hn, <- Hh. done.
    + split; [done|]. destruct (rows_of s !! ds_id source) as [row|] eqn:Hrow; [|done]. exfalso.
      destruct (co_ids s Hs _ row Hrow) as (_ & Hin & Hnid). apply (Hread _ row Hrow).
      apply names_distinct; [done..|]. rewrite Hnid, Hid. done.
Qed.

Lemma execute_triple t profile content now u :
  (t, dp_source_key profile, u) ∈ names →
  triple consistent (IngestDataSource_execute t profile content now u) 
    (λ r s, consistent s ∧ ingested t (dp_source_key profile) u content r s) consistent.
Proof.
  intros Hname. unfold IngestDataSource_execute. destruct (negb _); [by apply triple_raise|].
  eapply triple_bind; [apply get_triple|]. intros existing. by apply ingest_from_triple.
Qed.

(** *** One turn of the two loops *)

(** The row as the loop's listing has it, in a registry [m]. *)
Definition listed (m : gmap uuid DataSource) (t : uuid) (x : DataSource) : Prop :=
  m !! ds_id x = Some x ∧ ds_tenant_id x = t.

(** A turn may change only its own row. *)
Definition others_kept (m : gmap uuid DataSource) (d : uuid) (s : Rt) : Prop :=
  ∀ d', d' ≠ d → rows_of s !! d' = m !! d'.

Lemma others_kept_refl s d : others_kept (rows_of s) d s.
Proof. by intros d' _. Qed.

Lemma others_kept_same m d s s' : rows_of s' = rows_of s → others_kept m d s → others_kept m d s'.
Proof. intros Hr Hk d' Hd. rewrite Hr. by apply Hk. Qed.

(** A conditional write finds the listed row unchanged. *)
Lemma listed_unchanged m t x :
  listed m t x → ds_pending_hash x = None → unchanged m t (ds_id x) (ds_content_hash x) = Some x.
Proof.
  intros [Hx Ht] Hp. unfold unchanged. rewrite Hx. simpl. by rewrite option_guard_True.
Qed.

(** The cache just answered that it does not hold a document. *)
Definition absent (t d : uuid) (s : Rt) : Prop :=
  ∃ c, fc_contains t d c = (Ret false, cw_frozen_cache (rt_warmed s)) ∧ view c = cached_of s.

Lemma contains_triple t d m :
  triple (λ s, consistent s ∧ rows_of s = m) (on_cache (fc_contains t d))
    (λ (held : bool) s, (consistent s ∧ rows_of s = m) ∧ (held = false → absent t d s)) consistent.
Proof.
  intros s [Hs Hm]. destruct (rc_contains t d (cw_frozen_cache (rt_warmed s))) as (c' & Hcon & Hview).
  unfold on_cache, on_warmed, CacheWarmedRetrieve.on_cache. rewrite Hcon.
  split; [split; [|done]|].
  - by apply (consistent_same s).
  - intros Hheld. rewrite Hheld in Hcon. by exists (cw_frozen_cache (rt_warmed s)).
Qed.

(** Pre-loading the recorded text of a settled source nobody holds. *)
Lemma preload_triple t x text e m :
  listed m t x → ds_route x = CAG_WITH_RAG_BACKUP → content_hash text = ds_content_hash x →
  triple (λ s, (consistent s ∧ rows_of s = m) ∧ absent t (ds_id x) s)
    (on_cache (ec_preload_until t (ds_id x) text e)) (λ _ s, consistent s ∧ rows_of s = m) consistent.
Proof.
  intros [Hx Ht] Hroute Hhash s [[Hs <-] (c & Hcon & Hview)].
  pose proof (rc_preload t (ds_id x) text e c _ Hcon) as Hpre.
  unfold on_cache, on_warmed, CacheWarmedRetrieve.on_cache.
  destruct (ec_preload_until t (ds_id x) text e _) as [r c']. cbn [snd] in *.
  set (s' := mkRouter _ _ _ _).
  assert (consistent s') as Hs'; [|by destruct r].
  destruct Hs. split; [|done|done]. intros t' d hit Hhit. destruct (Hpre (t', d) hit Hhit) as [[Hk Hh]|Hold].
  - injection Hk as -> ->. exists x. split_and!; [done|done|congruence|done].
  - apply co_cached0. by rewrite <- Hview.
Qed.

Lemma note_triple t d text m :
  triple (λ s, consistent s ∧ rows_of s = m) (on_warmed (note_warmed t d text))
    (λ _ s, consistent s ∧ rows_of s = m) consistent.
Proof.
  intros s [Hs Hm]. pose proof (note_warmed_same t d text s) as Hsame. pose proof Hsame as (Hr & _).
  apply consistent_same in Hsame; [|done]. destruct (on_warmed _ s) as [[[]|e] s']; cbn [snd] in *; [|done].
  split; [done|congruence].
Qed.

Lemma record_triple t x e m :
  listed m t x → ds_pending_hash x = None →
  triple (λ s, consistent s ∧ rows_of s = m)
    (on_repository (src_record_cached_until t (ds_id x) (ds_content_hash x) e))
    (λ (b : bool) s, b = true ∧ consistent s ∧ others_kept m (ds_id x) s) consistent.
Proof.
  intros Hx Hp s [Hs Hm]. unfold on_repository.
  pose proof (src_record_spec (rows := rows) (versions := versions) t (ds_id x) (ds_content_hash x) e
    (rt_repository s)) as Hr.
  destruct (src_record_cached_until _ _ _ _ (rt_repository s)) as [[b|ex] r']; destruct Hr as [Hr _].
  2: by apply (consistent_same s).
  change (rows (rt_repository s)) with (rows_of s) in Hr. rewrite Hm, (listed_unchanged m t x Hx Hp) in Hr.
  destruct Hr as [-> Hr]. split; [done|]. set (s' := mkRouter _ _ _ _).
  assert (Hrows : rows_of s' = <[ds_id x := with_cached_until x e]> (rows_of s)) by (by rewrite Hm).
  destruct Hx as [Hx Ht]. rewrite <- Hm in Hx. destruct (co_ids s Hs _ x Hx) as (? & ? & ?). split.
  - eapply (update_row s); [done|exact Hrows|done|done| | |done|done|done].
    + intros t' hit Hhit. destruct (co_cached s Hs t' _ hit Hhit) as (row & Hrow & Hrest).
      assert (row = x) as -> by congruence. done.
    + intros _ Hne. by apply (co_indexed s Hs _ x).
  - intros d' Hd. rewrite Hrows, lookup_insert_ne by done. by rewrite Hm.
Qed.

Lemma skip_triple {A} (a : A) d m :
  triple (λ s, consistent s ∧ rows_of s = m) (mret a : stm Rt A) (λ _ s, consistent s ∧ others_kept m d s) consistent.
Proof. apply triple_ret. intros s [Hs <-]. split; [done|apply others_kept_refl]. Qed.

Lemma refresh_one_triple t now x m :
  listed m t x →
  triple (λ s, consistent s ∧ rows_of s = m) (refresh_one t now x)
    (λ _ s, consistent s ∧ others_kept m (ds_id x) s) consistent.
Proof.
  intros Hx. unfold refresh_one.
  assert (Hskip : triple (λ s, consistent s ∧ rows_of s = m) (mret None : stm Rt (option string))
    (λ _ s, consistent s ∧ others_kept m (ds_id x) s) consistent) by apply skip_triple.
  destruct (bool_decide_reflect (ds_route x = CAG_WITH_RAG_BACKUP)) as [Hroute|]; [|exact Hskip].
  destruct (bool_decide_reflect (is_Some (ds_pending_hash x))) as [|Hp]; [exact Hskip|].
  apply eq_None_not_Some in Hp. simpl. eapply triple_bind; [apply contains_triple|]. intros held.
  destruct held; [by eapply triple_conseq; [exact Hskip|intros s [? _]|]|].
  set (P := λ s, (consistent s ∧ rows_of s = m) ∧ absent t (ds_id x) s).
  assert (HskipP : triple P (mret None : stm Rt (option string))
    (λ _ s, consistent s ∧ others_kept m (ds_id x) s) consistent).
  { by eapply triple_conseq; [exact Hskip|intros s [? _]|]. }
  eapply triple_conseq with (P' := P) (Q' := λ _ s, consistent s ∧ others_kept m (ds_id x) s);
    [|by intros s [? ?]; split; auto|done].
  eapply triple_bind with (R := λ _, P).
  { apply triple_lift; [done|]. by intros s [[? _] _]. }
  intros e. destruct (expired e now); [done|].
  eapply triple_bind with (R := λ _, P).
  { intros s [[Hs Hm] Ha]. unfold on_repository.
    pose proof (src_content_spec (rows := rows) (versions := versions) t (ds_id x) (rt_repository s)) as Hc.
    destruct (src_current_content _ _ _) as [[c|ex] r']; destruct Hc as (Hr & _).
    2: by apply (consistent_same s).
    split; [|done]. split; [by apply (consistent_same s)|]. by rewrite <- Hm. }
  intros [text|]; [|done]. destruct (String.eqb_spec (content_hash text) (ds_content_hash x)) as [Hh|]; [|done].
  simpl. eapply triple_bind; [by apply preload_triple|]. intros [].
  eapply triple_bind; [apply note_triple|]. intros [].
  eapply triple_bind; [by apply record_triple|]. intros b s (-> & Hs & Hk). done.
Qed.

(** A loop over a listing of distinct rows, whose turns keep each other's. *)
Lemma listing_loop {B} t (turn : DataSource → stm Rt B) l m :
  (∀ x m, listed m t x → triple (λ s, consistent s ∧ rows_of s = m) (turn x)
     (λ _ s, consistent s ∧ others_kept m (ds_id x) s) consistent) →
  NoDup (map ds_id l) → Forall (listed m t) l →
  triple (λ s, consistent s ∧ rows_of s = m) (for_each l turn) (λ _, consistent) consistent.
Proof.
  intros Hturn. revert m. induction l as [|x l IH]; intros m Hnd Hl; simpl.
  { apply triple_ret. by intros s [Hs _]. }
  inversion_clear Hnd as [|? ? Hx Hnd']. inversion_clear Hl as [|? ? Hlx Hl'].
  eapply triple_bind; [by apply Hturn|]. intros b s (Hs & Hk).
  assert (Forall (listed (rows_of s) t) l) as Hl2.
  { apply Forall_forall. intros y Hy. rewrite Forall_forall in Hl'. destruct (Hl' y Hy) as [Hm Ht].
    split; [|done]. rewrite Hk; [done|]. intros Heq. apply Hx. rewrite <- Heq.
    change (ds_id y ∈ ds_id <$> l). apply list_elem_of_fmap. by exists y. }
  eapply triple_bind; [by apply (IH (rows_of s))| |done]. intros bs. by apply triple_ret.
Qed.

(** A tenant's listing: distinct ids, each row as stored. *)
Lemma listing_listed s t l :
  consistent s → l ≡ₚ map snd (map_to_list (filter (λ kr, ds_tenant_id kr.2 = t) (rows_of s))) →
  NoDup (map ds_id l) ∧ Forall (listed (rows_of s) t) l.
Proof.
  intros Hs Hperm. set (m := filter _ (rows_of s)) in Hperm.
  assert (Hm : ∀ d row, (d, row) ∈ map_to_list m → ds_id row = d ∧ listed (rows_of s) t row).
  { intros d row Hin. apply elem_of_map_to_list, map_lookup_filter_Some in Hin as [Hd Ht].
    destruct (co_ids s Hs d row Hd) as (<- & _). done. }
  split.
  - change (map ds_id l) with (ds_id <$> l). rewrite Hperm. change (map snd ?x) with (snd <$> x).
    rewrite <- list_fmap_compose. rewrite (list_fmap_ext _ fst).
    + apply NoDup_fst_map_to_list.
    + intros i [d row] Hi. simpl. apply Hm. by eapply list_elem_of_lookup_2.
  - rewrite Hperm. change (map snd ?x) with (snd <$> x). apply Forall_fmap, Forall_forall.
    intros [d row] Hin. by apply (Hm d row).
Qed.

Lemma listing_triple t {B D} (turn : DataSource → stm Rt B) (f : list B → D) :
  (∀ x m, listed m t x → triple (λ s, consistent s ∧ rows_of s = m) (turn x)
     (λ _ s, consistent s ∧ others_kept m (ds_id x) s) consistent) →
  triple consistent
    (listing ← on_repository (src_list_sources t); answers ← for_each listing turn; mret (f answers))
    (λ _, consistent) consistent.
Proof.
  intros Hturn. eapply triple_bind with (R := λ l s, consistent s ∧ NoDup (map ds_id l) ∧ Forall (listed (rows_of s) t) l).
  - intros s Hs.
    pose proof (src_list_spec (rows := rows) (versions := versions) t (rt_repository s)) as Hlist.
    pose proof (on_repository_read (src_list_sources t) s) as Hsame. unfold on_repository in *.
    destruct (src_list_sources t (rt_repository s)) as [o r']. destruct Hlist as (Hr & _ & Hperm).
    cbn [snd] in Hsame. specialize (Hsame Hr). set (s1 := mkRouter _ _ _ _) in *.
    assert (Hs1 : consistent s1) by (by apply (consistent_same s)). destruct o as [l|e]; [|done].
    split; [done|]. apply listing_listed; [done|]. destruct Hsame as (-> & _). by apply Hperm.
  - intros l s (Hs & Hnd & Hl). eapply triple_bind; [by apply (listing_loop t turn l (rows_of s))| |done].
    intros bs. by apply triple_ret.
Qed.

Lemma refresh_triple t now : triple consistent (RefreshCachedSources_run t now) (λ _, consistent) consistent.
Proof. apply listing_triple. intros x m. apply refresh_one_triple. Qed.

(** A review moves a source between RAG alone and the cache, never in or out of MAG. *)
Lemma decide_migration_targets source times now d :
  decide_migration source times now policy = Ret (Some d) →
  ds_route source ≠ MAG_ROUTE ∧ (md_to_route d = RAG_ONLY ∨ md_to_route d = CAG_WITH_RAG_BACKUP).
Proof.
  unfold decide_migration. destruct (ds_route source); [| |done].
  - destruct (last _); [|done]. destruct (td_mul _ _); [|done]. cbn [mbind res_bind].
    destruct (_ <=? _); [|done]. intros [= <-]. auto.
  - destruct (last _); [|done]. destruct (_ <? _); [done|]. destruct (td_mul _ _); [|done]. cbn [mbind res_bind].
    destruct (dt_sub _ _); [|done]. cbn [mbind res_bind]. destruct (head _); [|done]. destruct (_ <=? _); [done|]. cbn [mbind res_bind].
    destruct (observed_change_interval _) as [[i|]|]; [|done..]. intros [= <-]. auto.
Qed.

(** Moving a settled row, once what its old route cached is gone. *)
Lemma migrated_consistent s s' x t route i c :
  consistent s → listed (rows_of s) t x → ds_pending_hash x = None → ds_route x ≠ MAG_ROUTE →
  (route = CAG_WITH_RAG_BACKUP ∧ cached_of s' = cached_of s ∨ cached_of s' = delete (t, ds_id x) (cached_of s)) →
  rows_of s' = <[ds_id x := migrated x route i c]> (rows_of s) → texts_of s' = texts_of s → consistent s'.
Proof.
  intros Hs [Hx Ht] Hp Hroute Hcache Hrows Htexts. destruct (co_ids s Hs _ x Hx) as (? & ? & ?).
  set (s0 := mkRouter (rt_repository s) (rt_index s) (rt_warmed s') (rt_writer s)).
  assert (consistent s0) as Hs0.
  { apply (smaller_cache s); [done..|]. change (cached_of s0) with (cached_of s').
    destruct Hcache as [[_ ->]| ->]; [done|apply delete_subseteq]. }
  eapply (update_row s0); [done|exact Hrows|exact Htexts|done| | |done|done|done].
  - intros t' hit Hhit. change (cached_of s0) with (cached_of s') in Hhit.
    assert (cached_of s !! (t', ds_id x) = Some hit ∧ (ds_tenant_id x = t' → route = CAG_WITH_RAG_BACKUP))
      as [Hold Hr].
    { destruct Hcache as [[-> Hc]|Hc]; rewrite Hc in Hhit; [done|].
      apply lookup_delete_Some in Hhit as [Hne Hhit]. split; [done|]. intros <-. by destruct Hne; rewrite Ht. }
    destruct (co_cached s Hs t' _ hit Hold) as (row & Hrow & Hten & Hh & _).
    assert (row = x) as -> by congruence. split_and!; [done|done|by apply Hr].
  - intros _ _. by apply (co_indexed s Hs _ x).
Qed.

Lemma evict_forget_spec t d s :
  ∃ s', (on_cache (fc_evict t d);; on_warmed (forget t d)) s = (Ret tt, s') ∧
    rows_of s' = rows_of s ∧ texts_of s' = texts_of s ∧ cached_of s' = delete (t, d) (cached_of s).
Proof.
  destruct (evict_spec t d s) as (s1 & Hev & Hr & Ht & Hc). destruct (forget_same t d s1) as (Hr1 & Ht1 & Hc1).
  exists (on_warmed (forget t d) s1).2. split.
  - by rewrite (stm_bind_eq _ _ _ _ _ Hev).
  - split_and!; congruence.
Qed.

Lemma migrate_triple t x route i c m :
  listed m t x → ds_pending_hash x = None → ds_route x ≠ MAG_ROUTE →
  route = RAG_ONLY ∨ route = CAG_WITH_RAG_BACKUP →
  triple (λ s, consistent s ∧ rows_of s = m)
    (did ← on_repository (src_migrate t (ds_id x) (ds_content_hash x) route i c);
     if negb (did : bool) then mret None
     else
       (if bool_decide (route = RAG_ONLY) then
          on_cache (fc_evict t (ds_id x));; on_warmed (forget t (ds_id x))
        else mret tt);;
       mret (Some (mkSourceMigration (ds_source_key x) (ds_route x) route i)))
    (λ _ s, consistent s ∧ others_kept m (ds_id x) s) consistent.
Proof.
  intros Hx Hp Hroute Hto s [Hs <-]. unfold on_repository at 1, mbind at 1, stm_bind at 1.
  pose proof (src_migrate_spec (rows := rows) (versions := versions) t (ds_id x) (ds_content_hash x) route i c
    (rt_repository s)) as Hr.
  destruct (src_migrate _ _ _ _ _ _ (rt_repository s)) as [[b|ex] r']; destruct Hr as [Hr _].
  2: by apply (consistent_same s).
  change (rows (rt_repository s)) with (rows_of s) in Hr. rewrite (listed_unchanged _ t x Hx Hp) in Hr.
  destruct Hr as [-> Hr]. simpl. set (s1 := mkRouter _ _ _ _).
  assert (Hrows : rows_of s1 = <[ds_id x := migrated x route i c]> (rows_of s)) by done.
  assert (Hk : ∀ s', rows_of s' = rows_of s1 → others_kept (rows_of s) (ds_id x) s').
  { intros s' Hr' d' Hd. by rewrite Hr', Hrows, lookup_insert_ne. }
  destruct Hto as [-> | ->]; simpl.
  - destruct (evict_forget_spec t (ds_id x) s1) as (s2 & Hev & Hr2 & Ht2 & Hc2). stm_step Hev.
    split; [|by apply Hk]. eapply (migrated_consistent s); try done; [by right|by rewrite Hr2].
  - split; [|by apply Hk]. eapply (migrated_consistent s); try done. by left.
Qed.

Lemma review_one_triple t now x m :
  listed m t x →
  triple (λ s, consistent s ∧ rows_of s = m) (review_one t now x)
    (λ _ s, consistent s ∧ others_kept m (ds_id x) s) consistent.
Proof.
  intros Hx. unfold review_one. destruct (bool_decide (ds_scope x = USER_SCOPE)); [apply skip_triple|].
  destruct (bool_decide_reflect (is_Some (ds_pending_hash x))) as [|Hp]; [apply skip_triple|].
  apply eq_None_not_Some in Hp. cbn [orb].
  eapply triple_bind with (R := λ _ s, consistent s ∧ rows_of s = m).
  { intros s [Hs Hm]. unfold on_repository.
    pose proof (src_times_spec (rows := rows) (versions := versions) t (ds_id x) (rt_repository s)) as Hc.
    destruct (src_version_times _ _ _) as [[l|ex] r']; destruct Hc as (Hr & _).
    2: by apply (consistent_same s).
    split; [by apply (consistent_same s)|]. by rewrite <- Hm. }
  intros times s Hs. unfold lift_res. destruct (decide_migration x times now policy) as [[d|]|e] eqn:Hd.
  - destruct (decide_migration_targets _ _ _ _ Hd) as [Hne Hto].
    by apply (migrate_triple t x (md_to_route d) (md_interval d) _ m).
  - by apply skip_triple.
  - apply Hs.
Qed.

Lemma review_triple t now : triple consistent (ReviewSourceFreshness_run t now) (λ _, consistent) consistent.
Proof. apply listing_triple. intros x m. apply review_one_triple. Qed.

(** ** Histories *)

(** What happens to the stores between one request and the next: an ingestion,
    a refresh, a review, and entries of the cache passing their expiry. *)
Inductive RouterEvent : Type :=
| Ingest (tenant_id : uuid) (profile : DataSourceProfile) (content : string) (now : datetime) (user_id : option uuid)
| Refresh (tenant_id : uuid) (now : datetime)
| Review (tenant_id : uuid) (now : datetime).

Definition router_event (e : RouterEvent) (s : Rt) : Rt :=
  match e with
  | Ingest t profile content now u => (IngestDataSource_execute t profile content now u s).2
  | Refresh t now => (RefreshCachedSources_run t now s).2
  | Review t now => (ReviewSourceFreshness_run t now s).2
  end.

Inductive router_step (s : Rt) : Rt → Prop :=
| router_call e :
    (∀ t profile content now u, e = Ingest t profile content now u → (t, dp_source_key profile, u) ∈ names) →
    router_step s (router_event e s)
| router_expiry s' :
    rows_of s' = rows_of s → texts_of s' = texts_of s → cached_of s' ⊆ cached_of s → router_step s s'.

Lemma router_step_consistent s s' : router_step s s' → consistent s → consistent s'.
Proof.
  intros [e Hname|s2 Hr Ht Hc] Hs; [|by apply (smaller_cache s)].
  destruct e as [t profile content now u|t now|t now]; simpl.
  - pose proof (execute_triple t profile content now u (Hname _ _ _ _ _ eq_refl) s Hs) as Hrun.
    destruct (IngestDataSource_execute _ _ _ _ _ s) as [[r|e] s1]; [apply Hrun|done].
  - by apply (proj1 (triple_preserves consistent _) (refresh_triple t now)).
  - by apply (proj1 (triple_preserves consistent _) (review_triple t now)).
Qed.

Lemma router_steps_consistent s s' : rtc router_step s s' → consistent s → consistent s'.
Proof. induction 1; [done|]. eauto using router_step_consistent. Qed.

(** *** A read that has gone stale *)

Lemma on_repository_cached {A} (m : stm R A) s : cached_of (on_repository m s).2 = cached_of s.
Proof. unfold on_repository. by destruct (m _). Qed.
Lemma on_index_cached {A} (m : stm I A) s : cached_of (on_index m s).2 = cached_of s.
Proof. unfold on_index. by destruct (m _). Qed.

(** An ingestion that read the source as RAG-only never touches the cache. *)
Lemma rag_only_ingestion_cached t profile content now u row s :
  ds_route row = RAG_ONLY →
  cached_of (ingest_from t profile content now u (Some row) s).2 = cached_of s.
Proof.
  intros Hroute. set (I0 := λ s1 : Rt, cached_of s1 = cached_of s).
  enough (preserves I0 (ingest_from t profile content now u (Some row))) as Hp by by apply Hp.
  assert (Hrep : ∀ A (m : stm R A), preserves I0 (on_repository m)).
  { intros A m s1 Hs1. unfold I0. by rewrite on_repository_cached. }
  unfold ingest_from. apply preserves_bind; [destruct (_ || _); auto with invariants|]. intros [].
  unfold apply_and_save. apply preserves_bind.
  - unfold _apply_route. simpl. rewrite Hroute. apply preserves_bind; [|auto with invariants].
    destruct (_ || _); [|auto with invariants]. intros s1 Hs1. unfold I0. by rewrite on_index_cached.
  - intros c. apply preserves_bind; [apply Hrep|]. auto with invariants.
Qed.
End router.

(** ** The caches the router is deployed with *)

(** A refused pre-load leaves the wrapped cache as it was. *)
Lemma hf_preload_raise {KV} `{HFModel KV} t d text (c : HFFrozenCache KV) e c' :
  hf_preload t d text c = (Raise e, c') → c' = c.
Proof.
  unfold hf_preload, mbind, stm_bind, lift_res. destruct (hf_forward text); [done|]. by intros [= _ <-].
Qed.

(** A document found absent is not in the wrapped cache any more. *)
Lemma ex_absent_inner {KV} `{HFModel KV} t d (c c' : ExpiringFrozenCache (HFFrozenCache KV)) :
  ex_contains t d c = (Ret false, c') → hf_view (ex_inner c') !! (t, d) = None.
Proof.
  intros Hcon. unfold ex_contains in Hcon.
  destruct (expire_if_due_spec hf_view t d c) as (s1 & Hrun & _ & Hdue & Hgone & Hv).
  rewrite (stm_bind_eq _ _ _ _ _ Hrun) in Hcon. destruct (due_at c (t, d)) eqn:Hd.
  - injection Hcon as <-. specialize (Hgone eq_refl). by rewrite ex_view_lookup, Hdue in Hgone.
  - unfold on_inner in Hcon. destruct (fc_contains_spec (view := hf_view) t d (ex_inner s1)) as (x & Hl & Hx).
    rewrite Hl in Hcon. injection Hcon as Hb <-. simpl. rewrite Hx. apply eq_None_not_Some.
    by apply bool_decide_eq_false_1 in Hb.
Qed.

#[export] Instance expiring_refreshable {KV} `{HFModel KV} :
  RefreshableCache (C := ExpiringFrozenCache (HFFrozenCache KV)) (ex_view hf_view).
Proof.
  split.
  - intros t d c. apply (fc_evict_spec (view := ex_view hf_view)).
  - intros t d c. apply (fc_contains_spec (view := ex_view hf_view)).
  - intros t d e c. destruct (ec_renew_spec (view := ex_view hf_view) t d e c) as (c' & Hr & Hv).
    rewrite Hr. simpl. rewrite Hv. destruct (expired _ _); [apply delete_subseteq|done].
  - intros t d text e c c1 Hcon k hit.
    destruct (fc_contains_spec (view := ex_view hf_view) t d c) as (c2 & Hc2 & Hv).
    rewrite Hc2 in Hcon. assert (Hcon' := Hc2). injection Hcon as Hb <-. rewrite Hb in Hcon'.
    pose proof (ex_absent_inner t d c c2 Hcon') as Hin. rewrite <- Hv.
    pose proof (ec_preload_until_spec (view := ex_view hf_view) t d text e c2) as Hp.
    change (ec_preload_until t d text e c2) with (ex_preload_until t d text e c2) in *.
    destruct (ex_preload_until t d text e c2) as [[[]|ex] c3] eqn:Hpre; cbn [snd].
    + destruct Hp as [kv Hp]. rewrite Hp. destruct (expired _ _).
      * intros Hk. apply lookup_delete_Some in Hk as [_ Hk]. by right.
      * intros Hk. apply lookup_insert_Some in Hk as [[<- <-]|[_ Hk]]; [by left|by right].
    + destruct (decide (k = (t, d))) as [->|Hk]; [|rewrite Hp by done; by right].
      intros Hhit. exfalso. rewrite ex_view_lookup in Hhit. destruct (due_at c3 (t, d)); [done|].
      unfold ex_preload_until, preload_until_begin, modify, mbind, stm_bind, on_inner in Hpre. simpl in Hpre.
      destruct (hf_preload t d text (ex_inner c2)) as [r c'] eqn:Hraise.
      injection Hpre as -> <-. apply hf_preload_raise in Hraise as ->. simpl in Hhit. congruence.
Qed.

#[export] Instance null_refreshable {KV} : RefreshableCache (C := NullFrozenCache) (KV := KV) (λ _, ∅).
Proof.
  split.
  - intros t d c. by exists c.
  - intros t d c. by exists c.
  - intros t d e c. done.
  - intros t d text e c c1 _ k hit. cbn. by rewrite lookup_empty.
Qed.

(** ** Properties *)

Section properties.
Context {R I E C KV F W : Type} `{DataSourceRepository R} `{RagIndex I} `{EmbeddingModel E}
  `{FrozenCache C KV, !ExpiringCache C KV} `{Retriever F} `{SessionFactWriter W}
  (rows : R → gmap uuid DataSource) (versions : R → uuid → uuid → list (datetime * option string))
  `{!DataSourceLaws R rows versions} (texts : I → gmap (uuid * uuid) string) `{!RagIndexLaws I texts}
  (view : C → gmap (uuid * uuid) (CacheHit KV)) `{!RefreshableCache view}
  (policy : FreshnessPolicy) (route_policy : DataSourceProfile → FreshnessPolicy → IngestionRoute) (permit : bool).

(** C2: The stores stay in agreement.  Start where they agree, and let any
    sequence of ingestions, refreshes and reviews run, each of which may raise
    at any call, with cached entries passing their expiry in between: whatever
    the cache then holds for a document is the recorded version of a source
    still routed to the cache; and the RAG index holds the recorded version of
    every source outside MAG that has no change pending. *)
Theorem router_stores_agree names (s s' : Router R I E C F W) :
  (∀ n n', n ∈ names → n' ∈ names → name_id n = name_id n' → n = n') →
  consistent rows texts view names s →
  rtc (router_step policy route_policy permit rows texts view names) s s' →
  (∀ t d hit, cached_of view s' !! (t, d) = Some hit → ∃ row, rows_of rows s' !! d = Some row ∧
     ds_tenant_id row = t ∧ ds_content_hash row = ch_content_hash hit ∧ ds_route row = CAG_WITH_RAG_BACKUP) ∧
  (∀ d row, rows_of rows s' !! d = Some row → ds_pending_hash row = None → ds_route row ≠ MAG_ROUTE →
     ∃ text, texts_of texts s' !! (ds_tenant_id row, d) = Some text ∧ content_hash text = ds_content_hash row).
Proof.
  intros Hnames Hs Hsteps.
  pose proof (router_steps_consistent policy route_policy permit rows versions texts view names Hnames s s' Hsteps Hs)
    as [Hc Hi _].
  by split.
Qed.


(** The agreement needs the three jobs not to overlap.  An ingestion that
    read its source as RAG-only, before a review promoted it and a refresh
    cached the text it is about to replace, returns with that text still
    cached: the registry records the new version with nothing pending, and the
    cache holds the old one. *)
Theorem stale_read_leaves_old_text_cached t profile content now u row (s : Router R I E C F W) t' hit :
  ds_route row = RAG_ONLY → ds_tenant_id row = t →
  cached_of view s !! (t', ds_id row) = Some hit → ch_content_hash hit ≠ content_hash content →
  match ingest_from policy route_policy permit t profile content now u (Some row) s with
  | (Ret _, s') => cached_of view s' !! (t', ds_id row) = Some hit ∧
      ∃ row', rows_of rows s' !! ds_id row = Some row' ∧ ds_pending_hash row' = None ∧
        ds_content_hash row' ≠ ch_content_hash hit
  | (Raise _, _) => True
  end.
Proof.
  intros Hroute Ht Hhit Hne.
  pose proof (rag_only_ingestion_cached policy route_policy permit view t profile content now u row s Hroute) as Hc.
  destruct (ingest_from _ _ _ _ _ _ _ _ _ s) as [[r|e] s'] eqn:Hrun; [|done]. cbn [snd] in Hc.
  split; [by rewrite Hc|]. unfold ingest_from in Hrun.
  apply stm_bind_inv in Hrun as ([] & s1 & _ & Hrun). unfold apply_and_save in Hrun.
  apply stm_bind_inv in Hrun as (cached_until & s2 & _ & Hrun).
  apply stm_bind_inv in Hrun as ([] & s3 & Hsave & [= _ <-]). unfold on_repository in Hsave.
  set (source := with_cached_until _ _) in Hsave.
  match type of Hsave with context [src_save source ?v ?r0] =>
    pose proof (src_save_spec (rows := rows) (versions := versions) source v r0) as Hm;
    destruct (src_save source v r0) as [[[]|e] r'] end; [|done].
  injection Hsave as <-. destruct Hm as (Hm & _). unfold rows_of. simpl in *.
  destruct (rows (rt_repository s2) !! ds_id row) as [old|].
  - exists (saved_over old source). rewrite Hm, lookup_insert_eq. split; [done|]. split; [done|].
    simpl. congruence.
  - exists source. rewrite Hm, lookup_insert_eq. split; [done|]. split; [done|]. simpl. congruence.
Qed.
End properties.

(** *** Worked examples *)

(** An index holding one text per document. *)
Record MapIndex : Type := mkMapIndex { map_index : gmap (uuid * uuid) string }.

#[export] Instance map_rag_index : RagIndex MapIndex := λ t d _ text,
  modify (λ i, mkMapIndex (<[(t, d) := text]> (map_index i))).

#[export] Instance map_rag_index_laws : RagIndexLaws MapIndex map_index.
Proof. by intros t d title text i. Qed.

#[export] Instance null_fact_writer : SessionFactWriter unit := λ _ _ _ _, mret tt.

Definition no_results : Retriever unit := λ _ _ _, mret [].

Abbreviation SampleRouter := (Router PostgresSources MapIndex LengthEmbedder
  (ExpiringFrozenCache (HFFrozenCache nat)) unit unit) (only parsing).

Definition sample_router (rows : gmap uuid DataSource) (texts : gmap (uuid * uuid) string)
    (cached : gmap (uuid * uuid) (string * nat)) : SampleRouter :=
  mkRouter (mkPgSources rows [] ∅) (mkMapIndex texts)
    (CWR_init (mkLengthEmbedder 0) (mkExpiring (mkHF cached) ∅ 0) tt (flit 1 2)) tt.

Definition empty_router : SampleRouter := sample_router ∅ ∅ ∅.

#[local] Existing Instance length_model.
#[local] Existing Instance no_results.

Definition sample_profile : DataSourceProfile := mkProfile "handbook" TENANT_SCOPE (40 * 86400000000).
Definition sample_names : list (uuid * string * option uuid) := [(1, "handbook"%string, None)].

Lemma sample_names_distinct n n' :
  n ∈ sample_names → n' ∈ sample_names → name_id n = name_id n' → n = n'.
Proof. intros ->%list_elem_of_singleton ->%list_elem_of_singleton _. done. Qed.

Lemma empty_router_consistent : consistent pd_rows map_index (ex_view hf_view) sample_names empty_router.
Proof.
  split.
  - intros t d hit Hhit. unfold cached_of in Hhit. rewrite ex_view_lookup in Hhit. by destruct (due_at _ _).
  - intros d row Hrow. unfold rows_of in Hrow. simpl in Hrow. by rewrite lookup_empty in Hrow.
  - intros d row Hrow. unfold rows_of in Hrow. simpl in Hrow. by rewrite lookup_empty in Hrow.
Qed.

(** The handbook is delivered, then pre-loaded. *)
Definition sample_history : SampleRouter :=
  router_event default_policy route_for false (Refresh 1 10)
    (router_event default_policy route_for false (Ingest 1 sample_profile "text" 5 None) empty_router).

Lemma router_stores_agree_witness :
  (∀ t d hit, cached_of (ex_view hf_view) sample_history !! (t, d) = Some hit → ∃ row,
     rows_of pd_rows sample_history !! d = Some row ∧ ds_tenant_id row = t ∧
     ds_content_hash row = ch_content_hash hit ∧ ds_route row = CAG_WITH_RAG_BACKUP) ∧
  (∀ d row, rows_of pd_rows sample_history !! d = Some row → ds_pending_hash row = None →
     ds_route row ≠ MAG_ROUTE →
     ∃ text, texts_of map_index sample_history !! (ds_tenant_id row, d) = Some text ∧
       content_hash text = ds_content_hash row).
Proof.
  eapply (router_stores_agree pd_rows versions_of map_index (ex_view hf_view) default_policy route_for false
    sample_names empty_router sample_history).
  - exact sample_names_distinct.
  - exact empty_router_consistent.
  - unfold sample_history. eapply rtc_l; [|apply rtc_once]; apply router_call.
    + intros t profile content now u [= <- <- <- <- <-]. by left.
    + done.
Defined.


(** The handbook as a reader saw it before a review promoted it. *)
Definition stale_row : DataSource :=
  mkSource 7 1 None "handbook" TENANT_SCOPE 86400000000 RAG_ONLY "old" 0 0 None None.

(** It has been promoted since, and pre-loaded. *)
Definition promoted_router : SampleRouter :=
  sample_router {[ 7 := migrated stale_row CAG_WITH_RAG_BACKUP 5000000000000 None ]} ∅ {[ (1, 7) := ("old"%string, 4%nat) ]}.

Lemma stale_read_leaves_old_text_cached_witness :
  match ingest_from default_policy route_for false 1 sample_profile "new" 9 None (Some stale_row) promoted_router with
  | (Ret _, s') => cached_of (ex_view hf_view) s' !! (1, 7) = Some (mkCacheHit "old" 4%nat) ∧
      ∃ row', rows_of pd_rows s' !! 7 = Some row' ∧ ds_pending_hash row' = None ∧ ds_content_hash row' ≠ "old"%string
  | (Raise _, _) => False
  end.
Proof.
  pose proof (stale_read_leaves_old_text_cached pd_rows versions_of (ex_view hf_view) default_policy route_for false
    1 sample_profile "new" 9 None stale_row promoted_router 1 (mkCacheHit "old" 4%nat)) as Hrun.
  destruct (ingest_from _ _ _ _ _ _ _ _ _ promoted_router) as [[r|e] s'] eqn:Heq.
  - apply Hrun; [reflexivity|reflexivity|reflexivity|vm_compute; discriminate].
  - vm_compute in Heq. discriminate Heq.
Defined.
