(* ===== verification/KVAllocators.v ===== *)
(** * KV-cache allocators

    cag/infrastructure/paged_allocator.py and contiguous_allocator.py behind the
    KVCacheAllocator port of cag/domain/ports.py: a pool of token slots, cut
    into reference-counted blocks that forks share until they write, or handed
    out as contiguous runs, first fit.  The contract both keep is a map from
    sequence ids to the tokens they hold. *)

From Stdlib Require Import ZArith Lia.
From S2P Require Import Prelude PyFloat IntDivision.

(** ** The port *)

Class KVCacheAllocator (S : Type) : Type := {
  kv_allocate : string → Z → stm S bool;
  kv_extend : string → Z → stm S bool;
  kv_fork : string → string → stm S bool;
  kv_free : string → stm S unit;
  kv_physical_slots_used : S → Z;
  kv_logical_tokens_held : S → Z;
  kv_free_runs : S → list Z
}.

Definition msg_allocated : exn := ValueError "sequence is already allocated".
Definition msg_negative_tokens : exn := ValueError "num_tokens must be non-negative".
Definition msg_negative_extra : exn := ValueError "additional_tokens must be non-negative".

(** ** PagedKVAllocator *)

Record PagedKVAllocator : Type := mkPaged {
  pg_block_size : Z;
  pg_free_blocks : list Z;
  pg_block_tables : gmap string (list Z);
  pg_token_counts : gmap string Z;
  pg_refcounts : gmap Z Z
}.

Definition Paged_init (total_blocks block_size : Z) : res PagedKVAllocator :=
  if total_blocks <? 1 then Raise (ValueError "total_blocks must be at least 1")
  else if block_size <? 1 then Raise (ValueError "block_size must be at least 1")
  else Ret (mkPaged block_size (seqZ 0 total_blocks) ∅ ∅ ∅).

(** [math.ceil(num_tokens / self._block_size)]. *)
Definition _blocks_needed (s : PagedKVAllocator) (num_tokens : Z) : res Z :=
  ceil_div num_tokens (pg_block_size s).

(** The blocks [count] pops take off the end of the free list, in that order. *)
Definition popped (count : Z) (free : list Z) : list Z := take (Z.to_nat count) (reverse free).
Definition left_after (count : Z) (free : list Z) : list Z := reverse (drop (Z.to_nat count) (reverse free)).

Definition set_refs (blocks : list Z) (refs : gmap Z Z) : gmap Z Z :=
  foldl (λ m b, <[b := 1]> m) refs blocks.

Definition _take (count : Z) (s : PagedKVAllocator) : option (list Z * PagedKVAllocator) :=
  if Z.of_nat (length (pg_free_blocks s)) <? count then None
  else
    let taken := popped count (pg_free_blocks s) in
    Some (taken, mkPaged (pg_block_size s) (left_after count (pg_free_blocks s)) (pg_block_tables s)
                   (pg_token_counts s) (set_refs taken (pg_refcounts s))).

Definition set_table (sequence_id : string) (table : list Z) (s : PagedKVAllocator) : PagedKVAllocator :=
  mkPaged (pg_block_size s) (pg_free_blocks s) (<[sequence_id := table]> (pg_block_tables s))
    (pg_token_counts s) (pg_refcounts s).

Definition set_count (sequence_id : string) (tokens : Z) (s : PagedKVAllocator) : PagedKVAllocator :=
  mkPaged (pg_block_size s) (pg_free_blocks s) (pg_block_tables s)
    (<[sequence_id := tokens]> (pg_token_counts s)) (pg_refcounts s).

Definition set_refcounts (refs : gmap Z Z) (s : PagedKVAllocator) : PagedKVAllocator :=
  mkPaged (pg_block_size s) (pg_free_blocks s) (pg_block_tables s) (pg_token_counts s) refs.

Definition Paged_allocate (sequence_id : string) (num_tokens : Z) : stm PagedKVAllocator bool := λ s,
  match pg_block_tables s !! sequence_id with
  | Some _ => (Raise msg_allocated, s)
  | None =>
      if num_tokens <? 0 then (Raise msg_negative_tokens, s)
      else
        match _blocks_needed s num_tokens with
        | Raise e => (Raise e, s)
        | Ret needed =>
            match _take needed s with
            | None => (Ret false, s)
            | Some (taken, s1) => (Ret true, set_count sequence_id num_tokens (set_table sequence_id taken s1))
            end
        end
  end.

(** [self._refcounts[block]], and [self._refcounts[block] += d]. *)
Definition refcount (block : Z) (s : PagedKVAllocator) : res Z :=
  match pg_refcounts s !! block with Some c => Ret c | None => Raise KeyError end.

Definition add_ref (d block : Z) : stm PagedKVAllocator unit := λ s,
  match pg_refcounts s !! block with
  | Some c => (Ret tt, set_refcounts (<[block := c + d]> (pg_refcounts s)) s)
  | None => (Raise KeyError, s)
  end.

(** Copy-on-write of the last block: a growing sequence that shares the block
    it is about to write moves to a private one; [false] when there is none. *)
Definition cow (sequence_id : string) (table : list Z) (current : Z) : stm PagedKVAllocator (option (list Z)) := λ s,
  match last table with
  | None => (Ret (Some table), s)
  | Some tail =>
      match refcount tail s with
      | Raise e => (Raise e, s)
      | Ret c =>
          if (1 <? c) && negb (current mod pg_block_size s =? 0) then
            match _take 1 s with
            | None => (Ret None, s)
            | Some (replacement, s1) =>
                match add_ref (-1) tail s1 with
                | (Raise e, s2) => (Raise e, s2)
                | (Ret _, s2) =>
                    let table' := removelast table ++ replacement in
                    (Ret (Some table'), set_table sequence_id table' s2)
                end
            end
          else (Ret (Some table), s)
      end
  end.

Definition Paged_extend (sequence_id : string) (additional_tokens : Z) : stm PagedKVAllocator bool := λ s,
  match pg_block_tables s !! sequence_id with
  | None => (Raise KeyError, s)
  | Some table =>
      if additional_tokens <? 0 then (Raise msg_negative_extra, s)
      else
        match pg_token_counts s !! sequence_id with
        | None => (Raise KeyError, s)
        | Some current =>
            match cow sequence_id table current s with
            | (Raise e, s1) => (Raise e, s1)
            | (Ret None, s1) => (Ret false, s1)
            | (Ret (Some table1), s1) =>
                let target := current + additional_tokens in
                match _blocks_needed s1 target with
                | Raise e => (Raise e, s1)
                | Ret needed =>
                    let extra_blocks := needed - Z.of_nat (length table1) in
                    if 0 <? extra_blocks then
                      match _take extra_blocks s1 with
                      | None => (Ret false, s1)
                      | Some (taken, s2) =>
                          (Ret true, set_count sequence_id target (set_table sequence_id (table1 ++ taken) s2))
                      end
                    else (Ret true, set_count sequence_id target s1)
                end
            end
        end
  end.

Definition Paged_fork (parent_id child_id : string) : stm PagedKVAllocator bool := λ s,
  match pg_block_tables s !! parent_id with
  | None => (Raise KeyError, s)
  | Some table =>
      match pg_block_tables s !! child_id with
      | Some _ => (Raise msg_allocated, s)
      | None =>
          match for_each table (add_ref 1) s with
          | (Raise e, s1) => (Raise e, s1)
          | (Ret _, s1) =>
              let s2 := set_table child_id table s1 in
              match pg_token_counts s2 !! parent_id with
              | None => (Raise KeyError, s2)
              | Some n => (Ret true, set_count child_id n s2)
              end
          end
      end
  end.

(** One turn of [free]'s loop: a block nobody refers to goes back. *)
Definition release (block : Z) : stm PagedKVAllocator unit := λ s,
  match add_ref (-1) block s with
  | (Raise e, s1) => (Raise e, s1)
  | (Ret _, s1) =>
      if decide (pg_refcounts s1 !! block = Some 0) then
        (Ret tt, mkPaged (pg_block_size s1) (pg_free_blocks s1 ++ [block]) (pg_block_tables s1)
                   (pg_token_counts s1) (delete block (pg_refcounts s1)))
      else (Ret tt, s1)
  end.

Definition Paged_free (sequence_id : string) : stm PagedKVAllocator unit := λ s,
  match pg_block_tables s !! sequence_id with
  | None => (Raise KeyError, s)
  | Some table =>
      let s1 := mkPaged (pg_block_size s) (pg_free_blocks s) (delete sequence_id (pg_block_tables s))
                  (pg_token_counts s) (pg_refcounts s) in
      match for_each table release s1 with
      | (Raise e, s2) => (Raise e, s2)
      | (Ret _, s2) =>
          match pg_token_counts s2 !! sequence_id with
          | None => (Raise KeyError, s2)
          | Some _ => (Ret tt, mkPaged (pg_block_size s2) (pg_free_blocks s2) (pg_block_tables s2)
                                 (delete sequence_id (pg_token_counts s2)) (pg_refcounts s2))
          end
      end
  end.

Definition map_sum (m : gmap string Z) : Z := map_fold (λ _ n acc, n + acc) 0 m.

#[export] Instance paged_allocator : KVCacheAllocator PagedKVAllocator := {|
  kv_allocate := Paged_allocate;
  kv_extend := Paged_extend;
  kv_fork := Paged_fork;
  kv_free := Paged_free;
  kv_physical_slots_used := λ s, Z.of_nat (size (pg_refcounts s)) * pg_block_size s;
  kv_logical_tokens_held := λ s, map_sum (pg_token_counts s);
  kv_free_runs := λ s, [Z.of_nat (length (pg_free_blocks s)) * pg_block_size s]
|}.

(** ** ContiguousKVAllocator *)

Record ContiguousKVAllocator : Type := mkContiguous {
  ct_total_slots : Z;
  ct_regions : gmap string (Z * Z)
}.

Definition Contiguous_init (total_slots : Z) : res ContiguousKVAllocator :=
  if total_slots <? 1 then Raise (ValueError "total_slots must be at least 1")
  else Ret (mkContiguous total_slots ∅).

(** Tuples compare lexicographically. *)
Definition region_leb (a b : Z * Z) : bool := (a.1 <? b.1) || ((a.1 =? b.1) && (a.2 <=? b.2)).

(** The regions of [sorted(...)], every key or all but one. *)
Definition sorted_regions (regions : gmap string (Z * Z)) : list (Z * Z) :=
  sort_by region_leb (map snd (map_to_list regions)).

Definition _sorted_regions (s : ContiguousKVAllocator) : list (Z * Z) := sorted_regions (ct_regions s).

(** The loop of [_find_run] over the sorted regions. *)
Fixpoint first_gap (size cursor total : Z) (occupied : list (Z * Z)) : option Z :=
  match occupied with
  | [] => if size <=? total - cursor then Some cursor else None
  | (start, length) :: rest =>
      if size <=? start - cursor then Some cursor
      else first_gap size (Z.max cursor (start + length)) total rest
  end.

Definition _find_run (size : Z) (ignoring : option string) (s : ContiguousKVAllocator) : option Z :=
  if size =? 0 then Some 0
  else first_gap size 0 (ct_total_slots s)
         (sorted_regions (match ignoring with
                          | Some key => delete key (ct_regions s)
                          | None => ct_regions s
                          end)).

Definition set_region (sequence_id : string) (r : Z * Z) (s : ContiguousKVAllocator) : ContiguousKVAllocator :=
  mkContiguous (ct_total_slots s) (<[sequence_id := r]> (ct_regions s)).

Definition Contiguous_allocate (sequence_id : string) (num_tokens : Z) : stm ContiguousKVAllocator bool := λ s,
  match ct_regions s !! sequence_id with
  | Some _ => (Raise msg_allocated, s)
  | None =>
      if num_tokens <? 0 then (Raise msg_negative_tokens, s)
      else
        match _find_run num_tokens None s with
        | None => (Ret false, s)
        | Some start => (Ret true, set_region sequence_id (start, num_tokens) s)
        end
  end.

Definition overlaps (start target : Z) (other : Z * Z) : bool :=
  (other.1 <? start + target) && (start <? other.1 + other.2).

Definition Contiguous_extend (sequence_id : string) (additional_tokens : Z) : stm ContiguousKVAllocator bool := λ s,
  match ct_regions s !! sequence_id with
  | None => (Raise KeyError, s)
  | Some (start, length) =>
      if additional_tokens <? 0 then (Raise msg_negative_extra, s)
      else
        let target := length + additional_tokens in
        let neighbours := map snd (map_to_list (delete sequence_id (ct_regions s))) in
        let blocked := existsb (overlaps start target) neighbours in
        if negb blocked && (start + target <=? ct_total_slots s)
        then (Ret true, set_region sequence_id (start, target) s)
        else
          match _find_run target (Some sequence_id) s with
          | None => (Ret false, s)
          | Some relocated => (Ret true, set_region sequence_id (relocated, target) s)
          end
  end.

Definition Contiguous_fork (parent_id child_id : string) : stm ContiguousKVAllocator bool := λ s,
  match ct_regions s !! parent_id with
  | None => (Raise KeyError, s)
  | Some (_, length) =>
      match ct_regions s !! child_id with
      | Some _ => (Raise msg_allocated, s)
      | None => Contiguous_allocate child_id length s
      end
  end.

Definition Contiguous_free (sequence_id : string) : stm ContiguousKVAllocator unit := λ s,
  match ct_regions s !! sequence_id with
  | None => (Raise KeyError, s)
  | Some _ => (Ret tt, mkContiguous (ct_total_slots s) (delete sequence_id (ct_regions s)))
  end.

(** The gaps [free_runs] lists. *)
Fixpoint gaps (cursor total : Z) (occupied : list (Z * Z)) : list Z :=
  match occupied with
  | [] => if cursor <? total then [total - cursor] else []
  | (start, length) :: rest =>
      (if cursor <? start then [start - cursor] else []) ++ gaps (Z.max cursor (start + length)) total rest
  end.

Definition physical_of (regions : gmap string (Z * Z)) : Z := map_sum (snd <$> regions).

#[export] Instance contiguous_allocator : KVCacheAllocator ContiguousKVAllocator := {|
  kv_allocate := Contiguous_allocate;
  kv_extend := Contiguous_extend;
  kv_fork := Contiguous_fork;
  kv_free := Contiguous_free;
  kv_physical_slots_used := λ s, physical_of (ct_regions s);
  kv_logical_tokens_held := λ s, physical_of (ct_regions s);
  kv_free_runs := λ s, gaps 0 (ct_total_slots s) (_sorted_regions s)
|}.

(** ** Fragmentation *)

(** allocation_metrics.py. *)
Definition internal_fragmentation (physical_slots_used logical_tokens_held : Z) : res f64 :=
  if (physical_slots_used <? 0) || (logical_tokens_held <? 0)
  then Raise (ValueError "slot counts must be non-negative")
  else if physical_slots_used <? logical_tokens_held
  then Raise (ValueError "logical tokens held cannot exceed physical slots used")
  else if physical_slots_used =? 0 then Ret fzero
  else int_true_div (physical_slots_used - logical_tokens_held) physical_slots_used.

Definition external_fragmentation (free_runs : list Z) : res f64 :=
  if existsb (λ run, run <? 0) free_runs then Raise (ValueError "free run sizes must be non-negative")
  else
    let total_free := zsum free_runs in
    if total_free =? 0 then Ret fzero
    else x ← int_true_div (foldr Z.max 0 free_runs) total_free; Ret (fsub fone x).

(** ** The contract *)

(** Requests small enough for [math.ceil(n / block_size)] to be exact. *)
Definition small (n : Z) : Prop := n < 2 ^ 52.

Inductive KVCall : Type :=
| CAllocate (sequence_id : string) (num_tokens : Z)
| CExtend (sequence_id : string) (additional_tokens : Z)
| CFork (parent_id child_id : string)
| CFree (sequence_id : string).

Definition small_call (c : KVCall) : Prop :=
  match c with CAllocate _ n | CExtend _ n => small n | _ => True end.

Definition kv_call {S} `{KVCacheAllocator S} (c : KVCall) : stm S bool :=
  match c with
  | CAllocate id n => kv_allocate id n
  | CExtend id n => kv_extend id n
  | CFork p c => kv_fork p c
  | CFree id => kv_free id;; mret true
  end.

(** What a reply means for the tokens each sequence holds: the new map, or
    [None] for a reply the contract rules out.  A request may be refused for
    lack of room; nothing else may go unserved, and no call may fail. *)
Definition kv_meaning (c : KVCall) (r : res bool) (held : gmap string Z) : option (gmap string Z) :=
  match c with
  | CAllocate id n =>
      match held !! id with
      | Some _ => match r with Raise e => if decide (e = msg_allocated) then Some held else None | _ => None end
      | None => if n <? 0
                then match r with Raise e => if decide (e = msg_negative_tokens) then Some held else None | _ => None end
                else match r with Ret true => Some (<[id := n]> held) | Ret false => Some held | _ => None end
      end
  | CExtend id n =>
      match held !! id with
      | None => match r with Raise e => if decide (e = KeyError) then Some held else None | _ => None end
      | Some k => if n <? 0
                  then match r with Raise e => if decide (e = msg_negative_extra) then Some held else None | _ => None end
                  else match r with Ret true => Some (<[id := k + n]> held) | Ret false => Some held | _ => None end
      end
  | CFork p c =>
      match held !! p with
      | None => match r with Raise e => if decide (e = KeyError) then Some held else None | _ => None end
      | Some k =>
          match held !! c with
          | Some _ => match r with Raise e => if decide (e = msg_allocated) then Some held else None | _ => None end
          | None => match r with Ret true => Some (<[c := k]> held) | Ret false => Some held | _ => None end
          end
      end
  | CFree id =>
      match held !! id with
      | None => match r with Raise e => if decide (e = KeyError) then Some held else None | _ => None end
      | Some _ => match r with Ret true => Some (delete id held) | _ => None end
      end
  end.

Class KVCacheAllocatorLaws (S : Type) `{KVCacheAllocator S} (inv : S → Prop) (held : S → gmap string Z) : Prop := {
  kv_call_spec c s : inv s → small_call c →
    let '(r, s') := kv_call c s in inv s' ∧ kv_meaning c r (held s) = Some (held s');
  kv_logical_spec s : kv_logical_tokens_held s = map_sum (held s);
  kv_slots_spec s : inv s → 0 ≤ kv_physical_slots_used s ∧ Forall (λ run, 0 ≤ run) (kv_free_runs s)
}.

(** ** The paged allocator's ledger *)


(** How often a block occurs in a table, and in all of them. *)
Definition cnt (b : Z) (t : list Z) : Z := Z.of_nat (length (filter (λ x, x = b) t)).
Definition occ (b : Z) (tables : gmap string (list Z)) : Z := map_fold (λ _ t acc, cnt b t + acc) 0 tables.

Lemma cnt_app b t u : cnt b (t ++ u) = cnt b t + cnt b u.
Proof. unfold cnt. rewrite filter_app, length_app. lia. Qed.

Lemma cnt_nodup b t : NoDup t → cnt b t = if decide (b ∈ t) then 1 else 0.
Proof.
  unfold cnt. induction 1 as [|x t Hx Hnd IH]; [done|]. rewrite filter_cons.
  destruct (decide (x = b)) as [->|Hne]; simpl.
  - rewrite (decide_True (P := b ∈ b :: t)) by (by left). rewrite decide_False in IH by done. lia.
  - rewrite IH. destruct (decide (b ∈ t)).
    + by rewrite decide_True by (by right).
    + by rewrite decide_False by (rewrite elem_of_cons; naive_solver).
Qed.

Lemma cnt_nonneg b t : 0 ≤ cnt b t.
Proof. unfold cnt. lia. Qed.

Lemma occ_insert b id t tables : tables !! id = None → occ b (<[id := t]> tables) = cnt b t + occ b tables.
Proof. intros Hid. unfold occ. rewrite map_fold_insert_L; [done| |done]. intros. lia. Qed.

Lemma occ_delete b id t tables : tables !! id = Some t → occ b tables = cnt b t + occ b (delete id tables).
Proof.
  intros Hid. rewrite <- (insert_delete_id tables id t Hid) at 1. apply occ_insert, lookup_delete_eq.
Qed.

Lemma occ_replace b id t t' tables :
  tables !! id = Some t → occ b (<[id := t']> tables) = occ b tables - cnt b t + cnt b t'.
Proof.
  intros Hid. rewrite (occ_delete b id t tables Hid). rewrite <- (insert_delete_eq tables id t').
  rewrite occ_insert by apply lookup_delete_eq. lia.
Qed.

Lemma occ_nonneg b tables : 0 ≤ occ b tables.
Proof.
  induction tables as [|id t tables Hid IH] using map_ind; [done|].
  rewrite occ_insert by done. pose proof (cnt_nonneg b t). lia.
Qed.

Lemma occ_pos b id t tables : tables !! id = Some t → b ∈ t → 0 < occ b tables.
Proof.
  intros Hid Hb. rewrite (occ_delete b id t tables Hid). pose proof (occ_nonneg b (delete id tables)).
  assert (0 < cnt b t); [|lia]. unfold cnt.
  assert (b ∈ filter (λ x, x = b) t) as Hin by (by apply list_elem_of_filter).
  destruct (filter _ t); [by apply not_elem_of_nil in Hin|simpl; lia].
Qed.

(** Every block of the pool is free or referred to; a free block is in no
    table; a block's reference count is the number of tables it is in; no table
    has a block twice. *)
Record ledger (N : Z) (s : PagedKVAllocator) : Prop := {
  lg_block_size : 0 < pg_block_size s;
  lg_free_nodup : NoDup (pg_free_blocks s);
  lg_free b : b ∈ pg_free_blocks s ↔ 0 ≤ b < N ∧ pg_refcounts s !! b = None;
  lg_refs b c : pg_refcounts s !! b = Some c → 0 ≤ b < N ∧ 0 < c ∧ c = occ b (pg_block_tables s);
  lg_unref b : pg_refcounts s !! b = None → occ b (pg_block_tables s) = 0;
  lg_table id t : pg_block_tables s !! id = Some t → NoDup t
}.

Lemma ledger_table_ref N s id t b :
  ledger N s → pg_block_tables s !! id = Some t → b ∈ t → is_Some (pg_refcounts s !! b).
Proof.
  intros Hs Hid Hb. destruct (pg_refcounts s !! b) eqn:Hr; [by eexists|].
  pose proof (lg_unref N s Hs b Hr). pose proof (occ_pos b id t _ Hid Hb). lia.
Qed.

Lemma set_refs_lookup taken refs b : set_refs taken refs !! b = if decide (b ∈ taken) then Some 1 else refs !! b.
Proof.
  unfold set_refs. revert refs. induction taken as [|x taken IH]; intros refs; [done|]. simpl. rewrite IH.
  destruct (decide (b ∈ taken)) as [Hin|Hin].
  - by rewrite decide_True by (by right).
  - destruct (decide (b = x)) as [->|Hne].
    + rewrite lookup_insert_eq. by rewrite decide_True by (by left).
    + rewrite lookup_insert_ne by done. by rewrite decide_False by (rewrite elem_of_cons; naive_solver).
Qed.

(** What a successful [_take] did. *)
Lemma take_spec count s taken s1 :
  NoDup (pg_free_blocks s) → _take count s = Some (taken, s1) →
  Z.of_nat (length taken) = Z.max 0 count ∧ pg_free_blocks s ≡ₚ taken ++ pg_free_blocks s1 ∧
  s1 = mkPaged (pg_block_size s) (pg_free_blocks s1) (pg_block_tables s) (pg_token_counts s)
         (set_refs taken (pg_refcounts s)).
Proof.
  intros Hnd. unfold _take. destruct (Z.ltb_spec (Z.of_nat (length (pg_free_blocks s))) count); [done|].
  intros [= <- <-]. cbn [pg_free_blocks]. unfold popped, left_after. split_and!.
  - rewrite length_take, length_reverse. lia.
  - rewrite <- (reverse_Permutation (pg_free_blocks s)) at 1.
    rewrite <- (take_drop (Z.to_nat count) (reverse (pg_free_blocks s))) at 1.
    by rewrite (reverse_Permutation (drop _ _)).
  - done.
Qed.

Lemma take_nodup count s taken s1 :
  NoDup (pg_free_blocks s) → _take count s = Some (taken, s1) →
  NoDup taken ∧ NoDup (pg_free_blocks s1) ∧ ∀ b, b ∈ pg_free_blocks s ↔ b ∈ taken ∨ b ∈ pg_free_blocks s1.
Proof.
  intros Hnd Ht. destruct (take_spec count s taken s1 Hnd Ht) as (_ & Hperm & _).
  rewrite Hperm in Hnd. apply NoDup_app in Hnd as (? & _ & ?). split_and!; [done..|].
  intros b. rewrite Hperm. apply elem_of_app.
Qed.

(** Handing the taken blocks to a table.  [t0] is what the table had. *)
Lemma ledger_take N s count taken s1 id t0 :
  ledger N s → _take count s = Some (taken, s1) → default [] (pg_block_tables s !! id) = t0 →
  ledger N (set_table id (t0 ++ taken) s1).
Proof.
  intros Hs Ht Ht0. pose proof (lg_free_nodup N s Hs) as Hnd.
  destruct (take_nodup count s taken s1 Hnd Ht) as (Hndt & Hnd1 & Hin).
  destruct (take_spec count s taken s1 Hnd Ht) as (_ & Hperm & ->). cbn [pg_free_blocks] in *.
  assert (Hdisj : ∀ b, b ∈ taken → b ∉ pg_free_blocks s1).
  { rewrite Hperm in Hnd. apply NoDup_app in Hnd as (_ & Hd & _). exact Hd. }
  assert (Hfresh : ∀ b, b ∈ taken → 0 ≤ b < N ∧ pg_refcounts s !! b = None).
  { intros b Hb. apply (lg_free N s Hs). apply Hin. by left. }
  assert (Hocc : ∀ b, occ b (<[id := t0 ++ taken]> (pg_block_tables s)) =
    occ b (pg_block_tables s) + if decide (b ∈ taken) then 1 else 0).
  { intros b. rewrite <- cnt_nodup by done. destruct (pg_block_tables s !! id) as [t|] eqn:Hid; simpl in Ht0; subst t0.
    - rewrite (occ_replace b id t) by done. rewrite cnt_app. lia.
    - rewrite occ_insert by done. rewrite cnt_app. unfold cnt at 1. simpl. lia. }
  unfold set_table. split; cbn [pg_block_size pg_free_blocks pg_block_tables pg_token_counts pg_refcounts].
  - apply (lg_block_size N s Hs).
  - done.
  - intros b. rewrite set_refs_lookup. destruct (decide (b ∈ taken)) as [Hb|Hb].
    + split; [|by intros []]. intros Hf. by destruct (Hdisj b Hb).
    + rewrite <- (lg_free N s Hs), Hin. naive_solver.
  - intros b c. rewrite set_refs_lookup, Hocc. destruct (decide (b ∈ taken)) as [Hb|Hb].
    + intros [= <-]. destruct (Hfresh b Hb) as [Hr Hn]. rewrite (lg_unref N s Hs b Hn). lia.
    + intros Hc. destruct (lg_refs N s Hs b c Hc) as (? & ? & ?). lia.
  - intros b. rewrite set_refs_lookup, Hocc. destruct (decide (b ∈ taken)) as [Hb|Hb]; [done|].
    intros Hn. rewrite (lg_unref N s Hs b Hn). lia.
  - intros id' t. destruct (decide (id' = id)) as [->|Hne].
    + rewrite lookup_insert_eq. intros [= <-]. apply NoDup_app. split_and!; [| |done].
      * destruct (pg_block_tables s !! id) as [t|] eqn:Hid; simpl in Ht0; subst t0; [|by apply NoDup_nil].
        by apply (lg_table N s Hs id).
      * intros b Hb Hbt. destruct (Hfresh b Hbt) as [_ Hn].
        destruct (pg_block_tables s !! id) as [t|] eqn:Hid; simpl in Ht0; subst t0; [|by apply not_elem_of_nil in Hb].
        destruct (ledger_table_ref N s id t b Hs Hid Hb). congruence.
    + rewrite lookup_insert_ne by done. apply (lg_table N s Hs).
Qed.

Lemma ledger_set_count N s id n : ledger N s → ledger N (set_count id n s).
Proof. intros []. by split. Qed.

(** Trading a shared tail block for a fresh one. *)
Lemma ledger_cow N s id front tail c r s1 :
  ledger N s → pg_block_tables s !! id = Some (front ++ [tail]) → pg_refcounts s !! tail = Some c → 1 < c →
  _take 1 s = Some ([r], s1) →
  ∃ s2, add_ref (-1) tail s1 = (Ret tt, s2) ∧ ledger N (set_table id (front ++ [r]) s2) ∧
    pg_block_size s2 = pg_block_size s ∧ pg_block_tables s2 = pg_block_tables s ∧
    pg_token_counts s2 = pg_token_counts s ∧ pg_refcounts s2 !! r = Some 1.
Proof.
  intros Hs Hid Hc Hc1 Ht. pose proof (ledger_take N s 1 [r] s1 id _ Hs Ht eq_refl) as Hs1. rewrite Hid in Hs1.
  change (default [] (Some (front ++ [tail]))) with (front ++ [tail]) in Hs1.
  destruct (take_spec 1 s [r] s1 (lg_free_nodup N s Hs) Ht) as (_ & _ & Heq).
  assert (Hr : pg_refcounts s !! r = None).
  { apply (lg_free N s Hs). apply (take_nodup 1 s [r] s1 (lg_free_nodup N s Hs) Ht). left. by left. }
  assert (Htr : tail ≠ r) by congruence.
  pose proof (lg_table N _ Hs1 id _ (lookup_insert_eq _ _ _)) as Hnd. simpl in Hnd.
  rewrite <- app_assoc in Hnd. apply NoDup_app in Hnd as (Hndf & Hdf & Hndr).
  assert (Hcf : ∀ b, cnt b (front ++ [r]) = cnt b ((front ++ [tail]) ++ [r]) - if decide (b = tail) then 1 else 0).
  { intros b. rewrite !cnt_app. assert (cnt b [tail] = if decide (b = tail) then 1 else 0) as ->; [|lia].
    rewrite cnt_nodup by apply NoDup_singleton. destruct (decide (b = tail)) as [->|].
    - by rewrite decide_True by (by left).
    - by rewrite decide_False by (by rewrite list_elem_of_singleton). }
  set (refs1 := set_refs [r] (pg_refcounts s)) in *.
  assert (Htail1 : refs1 !! tail = Some c) by (unfold refs1, set_refs; simpl; by rewrite lookup_insert_ne).
  exists (set_refcounts (<[tail := c - 1]> refs1) s1). split.
  { unfold add_ref. rewrite Heq. cbn [pg_refcounts]. fold refs1. by rewrite Htail1. }
  rewrite Heq in Hs1 |- *. unfold set_table, set_refcounts in *. cbn [pg_block_size pg_free_blocks pg_block_tables pg_token_counts pg_refcounts] in *.
  split; [|split_and!; try done; rewrite lookup_insert_ne by done; unfold refs1, set_refs; simpl; apply lookup_insert_eq].
  assert (Hocc : ∀ b, occ b (<[id := front ++ [r]]> (pg_block_tables s)) =
    occ b (<[id := (front ++ [tail]) ++ [r]]> (pg_block_tables s)) - if decide (b = tail) then 1 else 0).
  { intros b. rewrite !(occ_replace b id _ _ _ Hid). rewrite Hcf. lia. }
  pose proof (lg_refs N _ Hs1) as Hrefs. pose proof (lg_unref N _ Hs1) as Hunref. pose proof (lg_free N _ Hs1) as Hfree.
  cbn [pg_block_size pg_free_blocks pg_block_tables pg_token_counts pg_refcounts] in *.
  split; cbn [pg_block_size pg_free_blocks pg_block_tables pg_token_counts pg_refcounts].
  - apply (lg_block_size N s Hs).
  - apply (lg_free_nodup N _ Hs1).
  - intros b. rewrite Hfree. destruct (decide (b = tail)) as [->|Hne]; [|by rewrite lookup_insert_ne].
    rewrite lookup_insert_eq, Htail1. naive_solver.
  - intros b c'. rewrite Hocc. destruct (decide (b = tail)) as [->|Hne].
    + rewrite lookup_insert_eq. intros [= <-]. destruct (Hrefs tail c Htail1) as (? & ? & ?). lia.
    + rewrite lookup_insert_ne by done. intros Hb. destruct (Hrefs b c' Hb) as (? & ? & ?). lia.
  - intros b. rewrite Hocc. destruct (decide (b = tail)) as [->|Hne]; [by rewrite lookup_insert_eq|].
    rewrite lookup_insert_ne by done. intros Hb. rewrite (Hunref b Hb). lia.
  - intros id' t. destruct (decide (id' = id)) as [->|Hne].
    + rewrite lookup_insert_eq. intros [= <-]. apply NoDup_app. split_and!; [done| |apply NoDup_singleton].
      intros b Hb Hbr. apply (Hdf b Hb). apply elem_of_app. by right.
    + rewrite lookup_insert_ne by done. apply (lg_table N s Hs).
Qed.

(** A fork's references. *)
Lemma add_refs_spec t s :
  NoDup t → (∀ b, b ∈ t → is_Some (pg_refcounts s !! b)) →
  ∃ refs us, for_each t (add_ref 1) s = (Ret us, set_refcounts refs s) ∧
    ∀ b, refs !! b = (λ c, c + if decide (b ∈ t) then 1 else 0) <$> pg_refcounts s !! b.
Proof.
  intros Hnd. revert s. induction Hnd as [|x t Hx Hnd IH]; intros s Href.
  - exists (pg_refcounts s), []. split; [by destruct s|]. intros b. destruct (pg_refcounts s !! b); simpl; [|done].
    by rewrite Z.add_0_r.
  - destruct (Href x ltac:(by left)) as [c Hc].
    set (s1 := set_refcounts (<[x := c + 1]> (pg_refcounts s)) s).
    destruct (IH s1) as (refs & us & Hrun & Hrefs).
    { intros b Hb. unfold s1. simpl. destruct (decide (x = b)) as [<-|]; [by rewrite lookup_insert_eq|].
      rewrite lookup_insert_ne by done. apply Href. by right. }
    exists refs, (tt :: us). split.
    { cbn [for_each]. assert (add_ref 1 x s = (Ret tt, s1)) as Hadd by (unfold add_ref; by rewrite Hc).
      stm_step Hadd. stm_step Hrun. done. }
    intros b. rewrite Hrefs. unfold s1. simpl. destruct (decide (x = b)) as [<-|Hne].
    + rewrite lookup_insert_eq, Hc. simpl. rewrite decide_False by done. rewrite decide_True by (by left).
      f_equal. lia.
    + rewrite lookup_insert_ne by done. destruct (pg_refcounts s !! b); simpl; [|done]. f_equal. f_equal.
      destruct (decide (b ∈ t)); [by rewrite decide_True by (by right)|].
      by rewrite decide_False by (rewrite elem_of_cons; naive_solver).
Qed.

Lemma ledger_fork N s p t child refs :
  ledger N s → pg_block_tables s !! p = Some t → pg_block_tables s !! child = None →
  (∀ b, refs !! b = (λ c, c + if decide (b ∈ t) then 1 else 0) <$> pg_refcounts s !! b) →
  ledger N (set_table child t (set_refcounts refs s)).
Proof.
  intros Hs Hp Hc Hrefs. pose proof (lg_table N s Hs p t Hp) as Hnd.
  assert (Hocc : ∀ b, occ b (<[child := t]> (pg_block_tables s)) =
    occ b (pg_block_tables s) + if decide (b ∈ t) then 1 else 0).
  { intros b. rewrite occ_insert, cnt_nodup by done. lia. }
  unfold set_table, set_refcounts. split; cbn [pg_block_size pg_free_blocks pg_block_tables pg_token_counts pg_refcounts].
  - apply (lg_block_size N s Hs).
  - apply (lg_free_nodup N s Hs).
  - intros b. by rewrite Hrefs, fmap_None, (lg_free N s Hs).
  - intros b c. rewrite Hrefs, Hocc. intros (c0 & Hb & ->)%fmap_Some.
    destruct (lg_refs N s Hs b c0 Hb) as (? & ? & ->). pose proof (occ_nonneg b (pg_block_tables s)).
    destruct (decide (b ∈ t)); lia.
  - intros b. rewrite Hrefs, fmap_None, Hocc. intros Hb. rewrite (lg_unref N s Hs b Hb).
    rewrite decide_False; [done|]. intros Hin. destruct (ledger_table_ref N s p t b Hs Hp Hin). congruence.
  - intros id' t'. destruct (decide (id' = child)) as [->|Hne].
    + rewrite lookup_insert_eq. by intros [= <-].
    + rewrite lookup_insert_ne by done. apply (lg_table N s Hs).
Qed.

(** Releasing a freed table's blocks one by one. *)
Definition one_less (t : list Z) (b : Z) (c : option Z) : option Z :=
  if decide (b ∈ t) then match c with Some c => if decide (c = 1) then None else Some (c - 1) | None => None end else c.

Lemma release_spec t s :
  NoDup t → (∀ b, b ∈ t → ∃ c, pg_refcounts s !! b = Some c ∧ 0 < c) →
  ∃ s' us, for_each t release s = (Ret us, s') ∧
    pg_block_size s' = pg_block_size s ∧ pg_block_tables s' = pg_block_tables s ∧ pg_token_counts s' = pg_token_counts s ∧
    pg_free_blocks s' = pg_free_blocks s ++ filter (λ b, pg_refcounts s !! b = Some 1) t ∧
    ∀ b, pg_refcounts s' !! b = one_less t b (pg_refcounts s !! b).
Proof.
  intros Hnd. revert s. induction Hnd as [|x t Hx Hnd IH]; intros s Href.
  { exists s, []. rewrite filter_nil, app_nil_r. split_and!; try done. }
  destruct (Href x ltac:(by left)) as (c & Hc & Hpos).
  assert (Hstep : ∃ s1, release x s = (Ret tt, s1) ∧ pg_block_size s1 = pg_block_size s ∧
    pg_block_tables s1 = pg_block_tables s ∧ pg_token_counts s1 = pg_token_counts s ∧
    pg_free_blocks s1 = pg_free_blocks s ++ (if decide (c = 1) then [x] else []) ∧
    pg_refcounts s1 = if decide (c = 1) then delete x (pg_refcounts s) else <[x := c - 1]> (pg_refcounts s)).
  { unfold release, add_ref. rewrite Hc. cbn [pg_refcounts set_refcounts]. rewrite lookup_insert_eq.
    destruct (decide (c = 1)) as [->|Hne].
    - rewrite decide_True by done. eexists. split; [done|]. cbn. split_and!; try done. apply delete_insert_eq.
    - rewrite decide_False by (intros [= ?]; lia). eexists. split; [done|]. cbn. by rewrite app_nil_r. }
  destruct Hstep as (s1 & Hrel & Hbs & Htb & Htk & Hfr & Hrf).
  assert (Hother : ∀ b, b ≠ x → pg_refcounts s1 !! b = pg_refcounts s !! b).
  { intros b Hb. rewrite Hrf. destruct (decide (c = 1)); [by rewrite lookup_delete_ne|by rewrite lookup_insert_ne]. }
  destruct (IH s1) as (s' & us & Hrun & Hbs' & Htb' & Htk' & Hfr' & Hrf').
  { intros b Hb. rewrite Hother by (by intros ->). apply Href. by right. }
  exists s', (tt :: us). split; [|split_and!; [congruence..| |]].
  - cbn [for_each]. stm_step Hrel. stm_step Hrun. done.
  - rewrite Hfr', Hfr, <- app_assoc. f_equal. rewrite filter_cons.
    rewrite (list_filter_in _ (λ b, pg_refcounts s !! b = Some 1) t)
      by (intros b Hb; by rewrite Hother by (by intros ->)).
    destruct (decide (c = 1)) as [->|Hne]; [by rewrite decide_True|].
    rewrite decide_False by congruence. done.
  - intros b. rewrite Hrf'. unfold one_less. destruct (decide (b = x)) as [->|Hne].
    + rewrite decide_False by done. rewrite decide_True by (by left). rewrite Hc, Hrf.
      destruct (decide (c = 1)); [by rewrite lookup_delete_eq|by rewrite lookup_insert_eq].
    + rewrite Hother by done. destruct (decide (b ∈ t)); [by rewrite decide_True by (by right)|].
      by rewrite decide_False by (rewrite elem_of_cons; naive_solver).
Qed.

Lemma ledger_free N s s' id t :
  ledger N s → pg_block_tables s !! id = Some t →
  pg_block_size s' = pg_block_size s → pg_block_tables s' = delete id (pg_block_tables s) →
  pg_free_blocks s' = pg_free_blocks s ++ filter (λ b, pg_refcounts s !! b = Some 1) t →
  (∀ b, pg_refcounts s' !! b = one_less t b (pg_refcounts s !! b)) → ledger N s'.
Proof.
  intros Hs Hid Hbs Htb Hfr Hrf. pose proof (lg_table N s Hs id t Hid) as Hnd.
  assert (Hocc : ∀ b, occ b (delete id (pg_block_tables s)) =
    occ b (pg_block_tables s) - if decide (b ∈ t) then 1 else 0).
  { intros b. rewrite (occ_delete b id t _ Hid), cnt_nodup by done. lia. }
  split; rewrite ?Hbs, ?Htb.
  - apply (lg_block_size N s Hs).
  - rewrite Hfr. apply NoDup_app. split_and!; [apply (lg_free_nodup N s Hs)| |by apply NoDup_filter].
    intros b Hb Hf. apply list_elem_of_filter in Hf as [Hone _]. apply (lg_free N s Hs) in Hb as [_ Hn]. congruence.
  - intros b. rewrite Hfr, elem_of_app, list_elem_of_filter, (lg_free N s Hs), Hrf. unfold one_less.
    destruct (decide (b ∈ t)) as [Hb|Hb]; [|naive_solver].
    destruct (ledger_table_ref N s id t b Hs Hid Hb) as [c Hc]. rewrite Hc.
    destruct (lg_refs N s Hs b c Hc) as (? & ? & _). destruct (decide (c = 1)) as [->|Hne]; [naive_solver|].
    split; [intros [[_ ?]|[[= ?] _]]; done|intros [_ ?]; done].
  - intros b c. rewrite Hrf, Hocc. unfold one_less. destruct (decide (b ∈ t)) as [Hb|Hb].
    + destruct (pg_refcounts s !! b) as [c0|] eqn:Hc; [|done]. destruct (decide (c0 = 1)); [done|].
      intros [= <-]. destruct (lg_refs N s Hs b c0 Hc) as (? & ? & ?). lia.
    + intros Hc. destruct (lg_refs N s Hs b c Hc) as (? & ? & ?). lia.
  - intros b. rewrite Hrf, Hocc. unfold one_less. destruct (decide (b ∈ t)) as [Hb|Hb].
    + destruct (ledger_table_ref N s id t b Hs Hid Hb) as [c Hc]. rewrite Hc.
      destruct (lg_refs N s Hs b c Hc) as (? & ? & ?). destruct (decide (c = 1)); [lia|done].
    + intros Hn. rewrite (lg_unref N s Hs b Hn). lia.
  - intros id' t' Ht'. apply lookup_delete_Some in Ht' as [_ Ht']. by apply (lg_table N s Hs id').
Qed.

(** *** The invariant *)

Definition ceilZ (n b : Z) : Z := (n + b - 1) / b.

Lemma ceilZ_bounds n b : 0 < b → (ceilZ n b - 1) * b < n ≤ ceilZ n b * b.
Proof. apply ceil_unique. Qed.

Lemma ceilZ_nonneg n b : 0 < b → 0 ≤ n → 0 ≤ ceilZ n b.
Proof. intros Hb Hn. apply Z.div_pos; lia. Qed.

Lemma ceilZ_mono n m b : 0 < b → n ≤ m → ceilZ n b ≤ ceilZ m b.
Proof. intros Hb Hn. apply Z.div_le_mono; lia. Qed.

(** Every sequence has exactly the blocks its tokens fill. *)
Record paged_inv (N : Z) (s : PagedKVAllocator) : Prop := {
  pi_ledger : ledger N s;
  pi_pool : 0 < N ∧ N * pg_block_size s ≤ 2 ^ 52;
  pi_dom id : is_Some (pg_block_tables s !! id) ↔ is_Some (pg_token_counts s !! id);
  pi_fits id t n : pg_block_tables s !! id = Some t → pg_token_counts s !! id = Some n →
    0 ≤ n ∧ Z.of_nat (length t) = ceilZ n (pg_block_size s)
}.

Lemma ledger_length N s id t : ledger N s → 0 < N → pg_block_tables s !! id = Some t → Z.of_nat (length t) ≤ N.
Proof.
  intros Hs HN Hid. assert (length t ≤ length (seqZ 0 N))%nat as Hl.
  { apply submseteq_length, NoDup_submseteq; [by apply (lg_table N s Hs id)|].
    intros b Hb. destruct (ledger_table_ref N s id t b Hs Hid Hb) as [c Hc].
    destruct (lg_refs N s Hs b c Hc) as [Hr _]. apply elem_of_seqZ. lia. }
  rewrite length_seqZ in Hl. lia.
Qed.

(** What a sequence holds fits the pool. *)
Lemma paged_count_bound N s id n : paged_inv N s → pg_token_counts s !! id = Some n → 0 ≤ n ≤ 2 ^ 52.
Proof.
  intros Hs Hn. destruct (proj2 (pi_dom N s Hs id) ltac:(by eexists)) as [t Ht].
  destruct (pi_fits N s Hs id t n Ht Hn) as [Hpos Hlen]. split; [done|].
  pose proof (ledger_length N s id t (pi_ledger N s Hs) (proj1 (pi_pool N s Hs)) Ht) as Hl.
  pose proof (lg_block_size N s (pi_ledger N s Hs)) as Hb. pose proof (proj2 (pi_pool N s Hs)).
  pose proof (ceilZ_bounds n _ Hb). nia.
Qed.

Lemma paged_needed N s n : paged_inv N s → 0 ≤ n < 2 ^ 53 → _blocks_needed s n = Ret (ceilZ n (pg_block_size s)).
Proof.
  intros Hs Hn. apply ceil_div_exact; [done|].
  pose proof (lg_block_size N s (pi_ledger N s Hs)). pose proof (pi_pool N s Hs) as [HN Hp]. split; [done|]. nia.
Qed.

(** Installing a table and a count that fit. *)
Lemma paged_install N s s0 id t n :
  paged_inv N s → ledger N s0 → pg_block_size s0 = pg_block_size s →
  pg_block_tables s0 = <[id := t]> (pg_block_tables s) →
  pg_token_counts s0 = pg_token_counts s →
  0 ≤ n → Z.of_nat (length t) = ceilZ n (pg_block_size s) → paged_inv N (set_count id n s0).
Proof.
  intros Hs Hl Hbs Htb Htk Hn Hlen. split.
  - by apply ledger_set_count.
  - unfold set_count. simpl. rewrite Hbs. apply (pi_pool N s Hs).
  - intros id'. unfold set_count. simpl. rewrite Htb, Htk. destruct (decide (id' = id)) as [->|Hne].
    + rewrite !lookup_insert_eq. split; by eexists.
    + rewrite !lookup_insert_ne by done. apply (pi_dom N s Hs).
  - intros id' t' n'. unfold set_count. simpl. rewrite Htb, Htk, Hbs. destruct (decide (id' = id)) as [->|Hne].
    + rewrite !lookup_insert_eq. by intros [= <-] [= <-].
    + rewrite !lookup_insert_ne by done. apply (pi_fits N s Hs).
Qed.

Lemma Paged_init_inv N bs s : Paged_init N bs = Ret s → N * bs ≤ 2 ^ 52 → paged_inv N s ∧ pg_token_counts s = ∅.
Proof.
  unfold Paged_init. destruct (Z.ltb_spec N 1); [done|]. destruct (Z.ltb_spec bs 1); [done|]. intros [= <-] Hp.
  split; [|done]. split; cbn.
  - split; cbn; [lia|apply NoDup_seqZ| | |done|done].
    + intros b. rewrite elem_of_seqZ, lookup_empty. naive_solver lia.
    + intros b c. by rewrite lookup_empty.
  - lia.
  - intros id. rewrite !lookup_empty. done.
  - intros id t n. by rewrite lookup_empty.
Qed.

(** *** Each operation *)

Lemma last_app_inv {A} (l : list A) x : last l = Some x → l = removelast l ++ [x].
Proof.
  destruct l as [|y l] using rev_ind; [done|]. rewrite last_snoc. intros [= ->]. by rewrite removelast_last.
Qed.

Lemma take_one s taken s1 : NoDup (pg_free_blocks s) → _take 1 s = Some (taken, s1) → ∃ r, taken = [r].
Proof.
  intros Hnd Ht. destruct (take_spec 1 s taken s1 Hnd Ht) as (Hlen & _).
  destruct taken as [|r [|]]; simpl in Hlen; [lia|by exists r|lia].
Qed.

(** Afterwards the sequence has a table of the same length, the block being
    written is its own, and the other sequences have theirs. *)
Lemma cow_spec N s id t current :
  paged_inv N s → pg_block_tables s !! id = Some t → pg_token_counts s !! id = Some current →
  match cow id t current s with
  | (Ret None, s1) => s1 = s
  | (Ret (Some t1), s1) =>
      paged_inv N s1 ∧ pg_block_tables s1 = <[id := t1]> (pg_block_tables s) ∧
      pg_token_counts s1 = pg_token_counts s ∧ pg_block_size s1 = pg_block_size s ∧ length t1 = length t ∧
      removelast t1 = removelast t ∧
      (current mod pg_block_size s ≠ 0 → ∀ b, last t1 = Some b → pg_refcounts s1 !! b = Some 1)
  | (Raise _, _) => False
  end.
Proof.
  intros Hs Hid Hcur. pose proof (pi_ledger N s Hs) as Hl. unfold cow.
  assert (Hsame : (current mod pg_block_size s ≠ 0 → ∀ b, last t = Some b → pg_refcounts s !! b = Some 1) →
    paged_inv N s ∧ pg_block_tables s = <[id := t]> (pg_block_tables s) ∧
    pg_token_counts s = pg_token_counts s ∧ pg_block_size s = pg_block_size s ∧ length t = length t ∧
    removelast t = removelast t ∧
    (current mod pg_block_size s ≠ 0 → ∀ b, last t = Some b → pg_refcounts s !! b = Some 1)).
  { intros H'. split_and!; try done. by rewrite insert_id. }
  destruct (last t) as [tail|] eqn:Hlast; rewrite <- Hlast in Hsame; [|apply Hsame; congruence].
  pose proof (last_app_inv t tail Hlast) as Ht.
  destruct (ledger_table_ref N s id t tail Hl Hid) as [c Hc]; [rewrite Ht; apply elem_of_app; right; by left|].
  unfold refcount. rewrite Hc. destruct (lg_refs N s Hl tail c Hc) as (_ & Hpos & _).
  destruct ((1 <? c) && _) eqn:Hcond.
  2: { apply Hsame. intros Hmod b. rewrite Hlast. intros [= <-]. rewrite Hc. f_equal.
       apply andb_false_iff in Hcond as [Hcond|Hcond]; [apply Z.ltb_ge in Hcond; lia|].
       apply negb_false_iff, Z.eqb_eq in Hcond. done. }
  apply andb_true_iff in Hcond as [Hcond _]. apply Z.ltb_lt in Hcond.
  destruct (_take 1 s) as [[taken s1]|] eqn:Htake; [|done].
  destruct (take_one s taken s1 (lg_free_nodup N s Hl) Htake) as [r ->].
  assert (Hid' : pg_block_tables s !! id = Some (removelast t ++ [tail])) by (by rewrite <- Ht).
  destruct (ledger_cow N s id (removelast t) tail c r s1 Hl Hid' Hc Hcond Htake)
    as (s2 & -> & Hl2 & Hbs & Htb & Htk & Hr).
  assert (Hlen : length (removelast t ++ [r]) = length t) by (rewrite Ht at 2; by rewrite !length_app).
  split_and!; try done.
  - split; [exact Hl2| | |]; unfold set_table; cbn; rewrite ?Hbs, ?Htk, ?Htb; [apply (pi_pool N s Hs)| |].
    + intros id'. destruct (decide (id' = id)) as [->|Hne].
      * rewrite lookup_insert_eq, Hcur. split; by eexists.
      * rewrite lookup_insert_ne by done. apply (pi_dom N s Hs).
    + intros id' t' n'. destruct (decide (id' = id)) as [->|Hne].
      * rewrite lookup_insert_eq. intros [= <-] Hn'. rewrite Hlen. by apply (pi_fits N s Hs id).
      * rewrite lookup_insert_ne by done. apply (pi_fits N s Hs).
  - unfold set_table. cbn. by rewrite Htb.
  - by rewrite removelast_last.
  - intros _ b. rewrite last_snoc. by intros [= <-].
Qed.

Section paged.
Context (N : Z).

Lemma paged_dom_none s id : paged_inv N s → pg_block_tables s !! id = None → pg_token_counts s !! id = None.
Proof. intros Hs Hid. apply eq_None_not_Some. rewrite <- (pi_dom N s Hs), Hid. by intros []. Qed.

Lemma paged_dom_some s id t :
  paged_inv N s → pg_block_tables s !! id = Some t → ∃ n, pg_token_counts s !! id = Some n.
Proof. intros Hs Hid. destruct (proj1 (pi_dom N s Hs id)) as [n Hn]; [by eexists|by exists n]. Qed.

Lemma Paged_allocate_spec id n s :
  paged_inv N s → small n →
  let '(r, s') := Paged_allocate id n s in
  paged_inv N s' ∧ kv_meaning (CAllocate id n) r (pg_token_counts s) = Some (pg_token_counts s').
Proof.
  intros Hs Hn. unfold Paged_allocate, kv_meaning. destruct (pg_block_tables s !! id) as [t|] eqn:Hid.
  { by destruct (paged_dom_some s id t Hs Hid) as [k ->]. }
  rewrite (paged_dom_none s id Hs Hid). destruct (Z.ltb_spec n 0); [done|].
  rewrite (paged_needed N s n Hs) by (unfold small in Hn; lia).
  destruct (_take _ s) as [[taken s1]|] eqn:Htake; [|done]. pose proof (pi_ledger N s Hs) as Hl.
  destruct (take_spec _ s taken s1 (lg_free_nodup N s Hl) Htake) as (Hlen & _ & Heq).
  split; [|by rewrite Heq]. apply (paged_install N s _ id taken n Hs); [|by rewrite Heq..|done|].
  - pose proof (ledger_take N s _ taken s1 id [] Hl Htake) as Hl1. simpl in Hl1. apply Hl1. by rewrite Hid.
  - rewrite Hlen. apply Z.max_r, ceilZ_nonneg; [apply (lg_block_size N s Hl)|done].
Qed.

(** Extending, with the privacy of every block the new tokens are written to. *)
Definition private_write (s : PagedKVAllocator) (id : string) (from to : Z) : Prop :=
  ∀ pos, from ≤ pos < to → ∃ t b, pg_block_tables s !! id = Some t ∧
    t !! Z.to_nat (pos / pg_block_size s) = Some b ∧ pg_refcounts s !! b = Some 1.

Lemma block_index pos n b (l : nat) :
  0 < b → 0 ≤ n ≤ pos → Z.of_nat l = ceilZ n b → (Z.to_nat (pos / b) < l)%nat →
  Z.to_nat (pos / b) = (l - 1)%nat ∧ n mod b ≠ 0.
Proof.
  intros Hb Hn Hl Hi. assert (n / b ≤ pos / b) by (apply Z.div_le_mono; lia).
  assert (0 ≤ n / b) by (apply Z.div_pos; lia). pose proof (ceilZ_bounds n b Hb).
  pose proof (Z.div_mod n b ltac:(lia)). pose proof (Z.mod_pos_bound n b Hb). rewrite <- Hl in *.
  assert (pos / b < Z.of_nat l) by lia. split; [|nia]. assert (Z.of_nat l - 1 ≤ n / b) by nia. lia.
Qed.

Lemma Paged_extend_spec id n s :
  paged_inv N s → small n →
  let '(r, s') := Paged_extend id n s in
  paged_inv N s' ∧ kv_meaning (CExtend id n) r (pg_token_counts s) = Some (pg_token_counts s') ∧
  (r = Ret true → ∀ k, pg_token_counts s !! id = Some k → private_write s' id k (k + n)).
Proof.
  intros Hs Hn. unfold Paged_extend, kv_meaning. destruct (pg_block_tables s !! id) as [t|] eqn:Hid.
  2: { by rewrite (paged_dom_none s id Hs Hid). }
  destruct (paged_dom_some s id t Hs Hid) as [k Hk]. rewrite Hk. destruct (Z.ltb_spec n 0); [done|].
  pose proof (cow_spec N s id t k Hs Hid Hk) as Hcow.
  destruct (cow id t k s) as [[[t1|]|e] s1]; [|by subst s1|done].
  destruct Hcow as (Hs1 & Htb & Htk & Hbs & Hlen & _ & Hpriv).
  pose proof (paged_count_bound N s id k Hs Hk) as Hkb. destruct (pi_fits N s Hs id t k Hid Hk) as [_ Hfit].
  unfold small in Hn. rewrite (paged_needed N s1) by (done || lia).
  pose proof (pi_ledger N s1 Hs1) as Hl1. pose proof (lg_block_size N s1 Hl1) as Hb.
  assert (Hid1 : pg_block_tables s1 !! id = Some t1) by (rewrite Htb; apply lookup_insert_eq).
  assert (Hlen1 : Z.of_nat (length t1) = ceilZ k (pg_block_size s1)) by (by rewrite Hlen, Hbs).
  pose proof (ceilZ_mono k (k + n) (pg_block_size s1) Hb ltac:(lia)) as Hmono.
  assert (Hold : ∀ pos, k ≤ pos < k + n → (Z.to_nat (pos / pg_block_size s1) < length t1)%nat →
    ∃ b, t1 !! Z.to_nat (pos / pg_block_size s1) = Some b ∧ pg_refcounts s1 !! b = Some 1).
  { intros pos Hpos Hi. destruct (block_index pos k _ _ Hb ltac:(lia) Hlen1 Hi) as [Hidx Hmod].
    rewrite Hidx. destruct (last t1) as [b|] eqn:Hlast.
    - exists b. rewrite last_lookup, <- Nat.sub_1_r in Hlast. split; [done|]. apply Hpriv; congruence.
    - apply last_None in Hlast. subst t1. simpl in Hi. lia. }
  destruct (Z.ltb_spec 0 (ceilZ (k + n) (pg_block_size s1) - Z.of_nat (length t1))) as [Hextra|Hextra].
  2: { split; [|split; [by rewrite <- Htk|]].
    - apply (paged_install N s1 s1 id t1 (k + n) Hs1); [done|done|by rewrite insert_id|done|lia|lia].
    - intros _ k' [= <-] pos Hpos. destruct (Hold pos Hpos) as (b & Hb1 & Hb2); [|by exists t1, b].
      pose proof (ceilZ_bounds (k + n) (pg_block_size s1) Hb).
      assert (pos / pg_block_size s1 < Z.of_nat (length t1)) by (apply Z.div_lt_upper_bound; nia).
      assert (0 ≤ pos / pg_block_size s1) by (apply Z.div_pos; lia). lia. }
  destruct (_take _ s1) as [[taken s2]|] eqn:Htake; [|split; [done|split; [by rewrite <- Htk|done]]].
  destruct (take_spec _ s1 taken s2 (lg_free_nodup N s1 Hl1) Htake) as (Htl & _ & Heq).
  pose proof (ledger_take N s1 _ taken s2 id t1 Hl1 Htake ltac:(by rewrite Hid1)) as Hl2.
  split; [|split; [by rewrite Heq, <- Htk|]].
  - apply (paged_install N s1 _ id (t1 ++ taken) (k + n) Hs1 Hl2); [by rewrite Heq..|lia|].
    rewrite length_app. lia.
  - intros _ k' [= <-] pos Hpos. rewrite Heq. unfold set_count, set_table. cbn.
    pose proof (ceilZ_bounds (k + n) (pg_block_size s1) Hb).
    assert (pos / pg_block_size s1 < Z.of_nat (length (t1 ++ taken)))
      by (rewrite length_app; apply Z.div_lt_upper_bound; nia).
    assert (0 ≤ pos / pg_block_size s1) by (apply Z.div_pos; lia).
    assert (is_Some ((t1 ++ taken) !! Z.to_nat (pos / pg_block_size s1))) as [b Hlook] by (apply lookup_lt_is_Some; lia).
    exists (t1 ++ taken), b. rewrite lookup_insert_eq. split; [done|]. split; [done|].
    rewrite set_refs_lookup. destruct (decide (b ∈ taken)) as [|Hnin]; [done|].
    destruct (lt_dec (Z.to_nat (pos / pg_block_size s1)) (length t1)) as [Hlt|Hge].
    + destruct (Hold pos Hpos Hlt) as (b' & Hb1 & Hb2). rewrite lookup_app_l in Hlook by done. congruence.
    + rewrite lookup_app_r in Hlook by lia. apply list_elem_of_lookup_2 in Hlook. done.
Qed.

Lemma cow_others id t current s id' :
  id' ≠ id → pg_block_tables (cow id t current s).2 !! id' = pg_block_tables s !! id'.
Proof.
  intros Hne. unfold cow. destruct (last t) as [tail|]; [|done]. destruct (refcount tail s); [|done].
  destruct (_ && _); [|done]. unfold _take. destruct (_ <? _); [done|]. unfold add_ref. cbn.
  destruct (set_refs _ _ !! tail); [|done]. cbn. by rewrite lookup_insert_ne.
Qed.

Lemma Paged_extend_others id n s s' id' :
  Paged_extend id n s = (Ret true, s') → id' ≠ id → pg_block_tables s' !! id' = pg_block_tables s !! id'.
Proof.
  intros Hext Hne. unfold Paged_extend in Hext. destruct (pg_block_tables s !! id) as [t|]; [|done].
  destruct (n <? 0); [done|]. destruct (pg_token_counts s !! id) as [k|]; [|done].
  pose proof (cow_others id t k s id' Hne) as Hcow. destruct (cow id t k s) as [[[t1|]|e] s1]; [|done|done]. cbn in Hcow.
  destruct (_blocks_needed s1 (k + n)); [|done]. destruct (0 <? _).
  - unfold _take in Hext. destruct (_ <? _); [done|]. injection Hext as <-. cbn. by rewrite lookup_insert_ne.
  - by injection Hext as <-.
Qed.

Lemma Paged_fork_spec p c s :
  paged_inv N s →
  let '(r, s') := Paged_fork p c s in
  paged_inv N s' ∧ kv_meaning (CFork p c) r (pg_token_counts s) = Some (pg_token_counts s').
Proof.
  intros Hs. unfold Paged_fork, kv_meaning. destruct (pg_block_tables s !! p) as [t|] eqn:Hp.
  2: { by rewrite (paged_dom_none s p Hs Hp). }
  destruct (paged_dom_some s p t Hs Hp) as [k Hk]. rewrite Hk.
  destruct (pg_block_tables s !! c) as [tc|] eqn:Hc.
  { by destruct (paged_dom_some s c tc Hs Hc) as [kc ->]. }
  rewrite (paged_dom_none s c Hs Hc). pose proof (pi_ledger N s Hs) as Hl.
  destruct (add_refs_spec t s (lg_table N s Hl p t Hp) (λ b, ledger_table_ref N s p t b Hl Hp))
    as (refs & us & -> & Hrefs).
  cbn. rewrite Hk. split; [|done].
  apply (paged_install N s (set_table c t (set_refcounts refs s)) c t k Hs); try done.
  - by apply (ledger_fork N s p).
  - apply (pi_fits N s Hs p t k Hp Hk).
  - apply (pi_fits N s Hs p t k Hp Hk).
Qed.

Lemma Paged_free_spec id s :
  paged_inv N s →
  let '(r, s') := (Paged_free id;; mret true) s in
  paged_inv N s' ∧ kv_meaning (CFree id) r (pg_token_counts s) = Some (pg_token_counts s').
Proof.
  intros Hs. unfold Paged_free, kv_meaning, mbind, stm_bind.
  destruct (pg_block_tables s !! id) as [t|] eqn:Hid.
  2: { by rewrite (paged_dom_none s id Hs Hid). }
  destruct (paged_dom_some s id t Hs Hid) as [k Hk]. rewrite Hk. pose proof (pi_ledger N s Hs) as Hl.
  set (s1 := mkPaged _ _ (delete id _) _ _).
  destruct (release_spec t s1 (lg_table N s Hl id t Hid)) as (s2 & us & -> & Hbs & Htb & Htk & Hfr & Hrf).
  { intros b Hb. destruct (ledger_table_ref N s id t b Hl Hid Hb) as [c Hc]. exists c. split; [done|].
    by destruct (lg_refs N s Hl b c Hc) as (_ & ? & _). }
  rewrite Htk. cbn [pg_token_counts s1]. rewrite Hk. split; [|done].
  pose proof (ledger_free N s s2 id t Hl Hid Hbs Htb Hfr Hrf) as Hl2.
  split; [destruct Hl2; by split| | |]; cbn; rewrite ?Hbs, ?Htb; cbn; [apply (pi_pool N s Hs)| |].
  - intros id'. destruct (decide (id' = id)) as [->|Hne].
    + rewrite !lookup_delete_eq. split; by intros [].
    + rewrite !lookup_delete_ne by done. apply (pi_dom N s Hs).
  - intros id' t' n' [_ Ht']%lookup_delete_Some [_ Hn']%lookup_delete_Some. by apply (pi_fits N s Hs id').
Qed.
End paged.

#[export] Instance paged_allocator_laws N : KVCacheAllocatorLaws PagedKVAllocator (paged_inv N) pg_token_counts.
Proof.
  split.
  - intros [id n|id n|p c|id] s Hs Hsmall; unfold kv_call.
    + by apply Paged_allocate_spec.
    + pose proof (Paged_extend_spec N id n s Hs Hsmall) as H'. cbn. destruct (Paged_extend id n s). tauto.
    + by apply Paged_fork_spec.
    + by apply Paged_free_spec.
  - done.
  - intros s Hs. pose proof (lg_block_size N s (pi_ledger N s Hs)). cbn. split; [lia|]. constructor; [lia|done].
Qed.

(** ** The contiguous allocator's regions *)

Lemma region_leb_total l : total_on region_leb l.
Proof. intros [a b] [c d] _ _. unfold region_leb. cbn. lia. Qed.

Lemma region_leb_trans l : trans_on region_leb l.
Proof. intros [a b] [c d] [e f] _ _ _. unfold region_leb. cbn. lia. Qed.

Definition in_pool (total : Z) (r : Z * Z) : Prop := 0 ≤ r.1 ∧ 0 ≤ r.2 ∧ r.1 + r.2 ≤ total ∧ (r.2 = 0 → r.1 = 0).

(** The first gap is free and as far left as any. *)
Lemma first_gap_spec size total occ cursor :
  0 < size → 0 ≤ cursor → StronglySorted (λ a b, region_leb a b = true) occ → Forall (in_pool total) occ →
  match first_gap size cursor total occ with
  | Some c => cursor ≤ c ∧ c + size ≤ total ∧ Forall (λ r, overlaps c size r = false) occ ∧
              ∀ c', cursor ≤ c' < c → Exists (λ r, overlaps c' size r = true) occ
  | None => ∀ c', cursor ≤ c' → c' + size ≤ total → Exists (λ r, overlaps c' size r = true) occ
  end.
Proof.
  intros Hsize. revert cursor. induction occ as [|[start len] occ IH]; intros cursor Hcur Hs Hp; simpl.
  - destruct (Z.leb_spec size (total - cursor)); [|lia]. split_and!; [lia|lia|done|lia].
  - apply StronglySorted_inv in Hs as [Hs Hall]. inversion_clear Hp as [|? ? (Hst & Hlen & Htot & _) Hp']. simpl in *.
    destruct (Z.leb_spec size (start - cursor)) as [Hfit|Hfull].
    + split_and!; [lia|lia| |lia]. constructor; [unfold overlaps; cbn; lia|].
      rewrite Forall_forall in Hall |- *. intros [st' len'] Hr. specialize (Hall _ Hr).
      unfold region_leb, overlaps in *. cbn in *. lia.
    + assert (Hskip : ∀ c', cursor ≤ c' → c' < Z.max cursor (start + len) → overlaps c' size (start, len) = true).
      { intros c' Hc1 Hc2. unfold overlaps. cbn. lia. }
      specialize (IH (Z.max cursor (start + len)) ltac:(lia) Hs Hp').
      destruct (first_gap size (Z.max cursor (start + len)) total occ) as [c|].
      * destruct IH as (Hc & Hct & Hfree & Hleft). split_and!; [lia|done| |].
        -- constructor; [unfold overlaps; cbn; lia|done].
        -- intros c' Hc'. destruct (Z.lt_ge_cases c' (Z.max cursor (start + len))).
           ++ apply Exists_cons_hd, Hskip; lia.
           ++ apply Exists_cons_tl, Hleft. lia.
      * intros c' Hc1 Hc2. destruct (Z.lt_ge_cases c' (Z.max cursor (start + len))).
        -- apply Exists_cons_hd, Hskip; lia.
        -- apply Exists_cons_tl, IH; lia.
Qed.

(** Regions lie in the pool, and no slot is in two of them. *)
Record contiguous_inv (s : ContiguousKVAllocator) : Prop := {
  ci_total : 0 < ct_total_slots s;
  ci_pool id r : ct_regions s !! id = Some r → in_pool (ct_total_slots s) r;
  ci_disjoint id id' r r' : ct_regions s !! id = Some r → ct_regions s !! id' = Some r' → id ≠ id' →
    overlaps r.1 r.2 r' = false ∨ r.2 = 0 ∨ r'.2 = 0
}.

(** The run of [size] slots from [c] is inside the pool and meets no region. *)
Definition free_run (regions : gmap string (Z * Z)) (total c size : Z) : Prop :=
  0 ≤ c ∧ c + size ≤ total ∧ ∀ id r, regions !! id = Some r → overlaps c size r = false.

Lemma sorted_regions_spec regions r : r ∈ sorted_regions regions ↔ ∃ id, regions !! id = Some r.
Proof.
  unfold sorted_regions. rewrite elem_of_sort_by. change (map snd ?l) with (snd <$> l).
  rewrite list_elem_of_fmap. split.
  - intros ([id r'] & -> & Hin). exists id. by apply elem_of_map_to_list.
  - intros (id & Hid). exists (id, r). split; [done|]. by apply elem_of_map_to_list.
Qed.

(** First fit: the leftmost free run, or none because there is none. *)
Lemma first_fit regions total size :
  0 < size → (∀ id r, regions !! id = Some r → in_pool total r) →
  match first_gap size 0 total (sorted_regions regions) with
  | Some c => free_run regions total c size ∧ ∀ c', 0 ≤ c' < c → ¬ free_run regions total c' size
  | None => ∀ c', ¬ free_run regions total c' size
  end.
Proof.
  intros Hsize Hp.
  assert (Hno : ∀ c', Exists (λ r, overlaps c' size r = true) (sorted_regions regions) → ¬ free_run regions total c' size).
  { intros c' Hex (_ & _ & Hfree). apply Exists_exists in Hex as (r & Hr & Ho).
    apply sorted_regions_spec in Hr as [id Hid]. rewrite (Hfree id r Hid) in Ho. done. }
  pose proof (first_gap_spec size total (sorted_regions regions) 0 Hsize ltac:(lia)) as Hgap.
  destruct (first_gap size 0 total (sorted_regions regions)) as [c|].
  - destruct Hgap as (Hc & Hct & Hfree & Hleft).
    + apply sort_by_sorted; [apply region_leb_total|apply region_leb_trans].
    + apply Forall_forall. intros r [id Hid]%sorted_regions_spec. by apply (Hp id).
    + split; [|intros c' Hc'; by apply Hno, Hleft]. split_and!; [done|done|]. intros id r Hid.
      rewrite Forall_forall in Hfree. apply Hfree, sorted_regions_spec. by exists id.
  - intros c' Hrun. pose proof Hrun as (Hc0 & Hct & _). revert Hrun. apply Hno, Hgap; [| |lia..].
    + apply sort_by_sorted; [apply region_leb_total|apply region_leb_trans].
    + apply Forall_forall. intros r [id Hid]%sorted_regions_spec. by apply (Hp id).
Qed.

Lemma overlaps_sym a n b m : overlaps a n (b, m) = overlaps b m (a, n).
Proof. unfold overlaps. cbn. apply andb_comm. Qed.

Lemma region_install s id c n :
  contiguous_inv s → 0 ≤ n → (n = 0 → c = 0) → free_run (delete id (ct_regions s)) (ct_total_slots s) c n ∨ n = 0 →
  contiguous_inv (set_region id (c, n) s).
Proof.
  intros Hs Hn Hz Hrun. pose proof (ci_total s Hs). split; [done| |].
  - intros id' r. unfold set_region. cbn. destruct (decide (id' = id)) as [->|Hne].
    + rewrite lookup_insert_eq. intros [= <-]. unfold in_pool. cbn.
      destruct Hrun as [(? & ? & _)| ->]; [by split_and!|]. rewrite Hz by done. lia.
    + rewrite lookup_insert_ne by done. apply (ci_pool s Hs).
  - intros id1 id2 r1 r2. unfold set_region. cbn.
    assert (Hfree : ∀ id' r, id' ≠ id → ct_regions s !! id' = Some r → overlaps c n r = false ∨ n = 0 ∨ r.2 = 0).
    { intros id' r Hne Hr. destruct Hrun as [(_ & _ & Hrun)|]; [|tauto]. left. apply (Hrun id').
      by rewrite lookup_delete_ne. }
    destruct (decide (id1 = id)) as [->|Hne1], (decide (id2 = id)) as [->|Hne2]; try done.
    + rewrite lookup_insert_eq, lookup_insert_ne by done. intros [= <-] Hr2 _. by apply (Hfree id2).
    + rewrite lookup_insert_ne, lookup_insert_eq by done. intros Hr1 [= <-] _. cbn.
      destruct (Hfree id1 r1 Hne1 Hr1) as [Ho|[?|?]]; [|tauto..]. left. rewrite overlaps_sym. by destruct r1.
    + rewrite !lookup_insert_ne by done. apply (ci_disjoint s Hs).
Qed.

(** What the search answers, over all regions or all but one. *)
Lemma find_run_spec size ignoring s :
  contiguous_inv s → 0 ≤ size →
  let others := match ignoring with Some key => delete key (ct_regions s) | None => ct_regions s end in
  match _find_run size ignoring s with
  | Some c => (size = 0 → c = 0) ∧ (free_run others (ct_total_slots s) c size ∨ size = 0) ∧
              ∀ c', 0 ≤ c' < c → ¬ free_run others (ct_total_slots s) c' size
  | None => 0 < size ∧ ∀ c', ¬ free_run others (ct_total_slots s) c' size
  end.
Proof.
  intros Hs Hsize others. unfold _find_run. destruct (Z.eqb_spec size 0) as [->|Hne].
  { split_and!; [done|by right|lia]. }
  assert (Hp : ∀ id r, others !! id = Some r → in_pool (ct_total_slots s) r).
  { intros id r. unfold others. destruct ignoring; [intros [_ Hr]%lookup_delete_Some|intros Hr]; by apply (ci_pool s Hs id). }
  pose proof (first_fit others (ct_total_slots s) size ltac:(lia) Hp) as Hfit. unfold others in *.
  destruct (first_gap _ _ _ _) as [c|]; [|split; [lia|done]]. destruct Hfit. split_and!; [lia|by left|done].
Qed.

Definition region_sizes (s : ContiguousKVAllocator) : gmap string Z := snd <$> ct_regions s.

Lemma region_sizes_lookup s id : region_sizes s !! id = snd <$> ct_regions s !! id.
Proof. apply lookup_fmap. Qed.

Lemma region_sizes_set s id c n : region_sizes (set_region id (c, n) s) = <[id := n]> (region_sizes s).
Proof. unfold region_sizes, set_region. cbn. by rewrite fmap_insert. Qed.

Lemma Contiguous_allocate_spec id n s :
  contiguous_inv s →
  let '(r, s') := Contiguous_allocate id n s in
  contiguous_inv s' ∧ kv_meaning (CAllocate id n) r (region_sizes s) = Some (region_sizes s') ∧
  (r = Ret false → 0 < n ∧ ∀ c, ¬ free_run (ct_regions s) (ct_total_slots s) c n) ∧
  (r = Ret true → ∃ c, ct_regions s' !! id = Some (c, n) ∧
     ∀ c', 0 ≤ c' < c → ¬ free_run (ct_regions s) (ct_total_slots s) c' n).
Proof.
  intros Hs. unfold Contiguous_allocate, kv_meaning. rewrite region_sizes_lookup.
  destruct (ct_regions s !! id) as [r|] eqn:Hid; [done|]. cbn.
  destruct (Z.ltb_spec n 0); [done|]. pose proof (find_run_spec n None s Hs ltac:(lia)) as Hfind. cbn in Hfind.
  destruct (_find_run n None s) as [c|]; [|done]. destruct Hfind as (Hz & Hrun & Hleft).
  split_and!; [|by rewrite region_sizes_set|done|].
  - apply region_install; [done..|]. by rewrite delete_id.
  - intros _. exists c. split; [apply lookup_insert_eq|done].
Qed.

Lemma Contiguous_extend_spec id n s :
  contiguous_inv s →
  let '(r, s') := Contiguous_extend id n s in
  contiguous_inv s' ∧ kv_meaning (CExtend id n) r (region_sizes s) = Some (region_sizes s') ∧
  (r = Ret false → ∀ start len, ct_regions s !! id = Some (start, len) →
     ∀ c, ¬ free_run (delete id (ct_regions s)) (ct_total_slots s) c (len + n)).
Proof.
  intros Hs. unfold Contiguous_extend, kv_meaning. rewrite region_sizes_lookup.
  destruct (ct_regions s !! id) as [[start len]|] eqn:Hid; [|done]. cbn.
  destruct (Z.ltb_spec n 0); [done|]. destruct (ci_pool s Hs id _ Hid) as (H1 & H2 & H3 & H4). cbn in *.
  destruct (negb _ && _) eqn:Hplace.
  - apply andb_true_iff in Hplace as [Hb Hfit]. apply Z.leb_le in Hfit. apply negb_true_iff in Hb.
    split_and!; [|by rewrite region_sizes_set|done]. apply region_install; [done|lia| |].
    + intros Hz. apply H4. lia.
    + left. split_and!; [done|done|]. intros id' r Hr.
      destruct (overlaps start (len + n) r) eqn:Ho; [|done]. exfalso.
      assert (existsb (overlaps start (len + n)) (map snd (map_to_list (delete id (ct_regions s)))) = true); [|congruence].
      apply existsb_exists. exists r. split; [|done]. apply list_elem_of_In.
      change (map snd ?l) with (snd <$> l). apply list_elem_of_fmap. exists (id', r).
      split; [done|]. by apply elem_of_map_to_list.
  - pose proof (find_run_spec (len + n) (Some id) s Hs ltac:(lia)) as Hfind. cbn in Hfind.
    destruct (_find_run (len + n) (Some id) s) as [c|].
    + destruct Hfind as (Hz & Hrun & _). split_and!; [|by rewrite region_sizes_set|done].
      apply region_install; [done|lia|done|done].
    + split_and!; [done|done|]. intros _ ? ? [= <- <-]. apply Hfind.
Qed.

Lemma map_sum_nonneg m : (∀ k n, m !! k = Some n → 0 ≤ n) → 0 ≤ map_sum m.
Proof.
  induction m as [|k n m Hk IH] using map_ind; intros Hm; [done|].
  unfold map_sum in *. rewrite map_fold_insert_L; [|intros; lia|done].
  assert (0 ≤ n) by (apply (Hm k), lookup_insert_eq).
  assert (0 ≤ map_fold (λ _ x acc, x + acc) 0 m); [|lia].
  apply IH. intros k' n' Hk'. apply (Hm k'). rewrite lookup_insert_ne by congruence. done.
Qed.

Lemma gaps_nonneg cursor total occ : Forall (λ run, 0 ≤ run) (gaps cursor total occ).
Proof.
  revert cursor. induction occ as [|[start len] occ IH]; intros cursor; simpl.
  - destruct (Z.ltb_spec cursor total); [constructor; [lia|done]|done].
  - apply Forall_app. split; [|apply IH]. destruct (Z.ltb_spec cursor start); [constructor; [lia|done]|done].
Qed.

#[export] Instance contiguous_allocator_laws : KVCacheAllocatorLaws ContiguousKVAllocator contiguous_inv region_sizes.
Proof.
  split.
  - intros [id n|id n|p c|id] s Hs _; unfold kv_call; cbn [kv_allocate kv_extend kv_fork kv_free contiguous_allocator].
    + pose proof (Contiguous_allocate_spec id n s Hs) as H'. destruct (Contiguous_allocate id n s). tauto.
    + pose proof (Contiguous_extend_spec id n s Hs) as H'. destruct (Contiguous_extend id n s). tauto.
    + unfold Contiguous_fork, kv_meaning. rewrite !region_sizes_lookup.
      destruct (ct_regions s !! p) as [[st len]|] eqn:Hp; [|done]. cbn.
      destruct (ct_regions s !! c) as [rc|] eqn:Hc; [done|]. cbn.
      destruct (ci_pool s Hs p _ Hp) as (_ & Hlen & _). cbn in Hlen.
      pose proof (Contiguous_allocate_spec c len s Hs) as H'. unfold kv_meaning in H'.
      rewrite region_sizes_lookup, Hc in H'. cbn in H'. rewrite (proj2 (Z.ltb_ge len 0) Hlen) in H'.
      destruct (Contiguous_allocate c len s). tauto.
    + unfold Contiguous_free, kv_meaning, mbind, stm_bind. rewrite region_sizes_lookup.
      destruct (ct_regions s !! id) as [r|] eqn:Hid; [|done]. cbn. split.
      * split; cbn; [apply (ci_total s Hs)| |].
        -- intros id' r' [_ Hr]%lookup_delete_Some. by apply (ci_pool s Hs id').
        -- intros id1 id2 r1 r2 [_ Hr1]%lookup_delete_Some [_ Hr2]%lookup_delete_Some. by apply (ci_disjoint s Hs id1 id2).
      * unfold region_sizes. cbn. by rewrite fmap_delete.
  - done.
  - intros s Hs. split; [|apply gaps_nonneg]. apply map_sum_nonneg. intros id n Hn.
    apply lookup_fmap_Some in Hn as (r & <- & Hr). apply (ci_pool s Hs id r Hr).
Qed.

(** ** Histories *)

Fixpoint kv_run {S} `{KVCacheAllocator S} (calls : list KVCall) (s : S) : list (res bool) * S :=
  match calls with
  | [] => ([], s)
  | c :: rest => let '(r, s1) := kv_call c s in let '(rs, s2) := kv_run rest s1 in (r :: rs, s2)
  end.

Fixpoint kv_spec_run (calls : list KVCall) (replies : list (res bool)) (held : gmap string Z) : option (gmap string Z) :=
  match calls, replies with
  | [], [] => Some held
  | c :: calls, r :: replies => held' ← kv_meaning c r held; kv_spec_run calls replies held'
  | _, _ => None
  end.

Lemma kv_run_refines {S} `{KVCacheAllocatorLaws S inv held} calls s :
  inv s → Forall small_call calls →
  let '(rs, s') := kv_run calls s in inv s' ∧ kv_spec_run calls rs (held s) = Some (held s').
Proof.
  intros Hs Hc. revert s Hs. induction Hc as [|c calls Hsmall _ IH]; intros s Hs; [done|]. cbn [kv_run].
  pose proof (kv_call_spec c s Hs Hsmall) as H'. destruct (kv_call c s) as [r s1]. destruct H' as [Hs1 Hm].
  specialize (IH s1 Hs1). destruct (kv_run calls s1) as [rs s2]. cbn [kv_spec_run]. by rewrite Hm.
Qed.

(** ** Properties *)

(** Both allocators implement the port's contract.  Whatever sequence of
    allocations, extensions, forks and frees is run, the replies and the tokens
    each sequence then holds are those of a plain map from sequence ids to
    token counts: only a request for room may be refused, a refused request
    changes nothing, bad requests raise exactly where the map says, nothing
    else fails, and [logical_tokens_held] is the map's sum. *)
Theorem allocator_refines_map {S} `{KVCacheAllocatorLaws S inv held} calls s :
  inv s → Forall small_call calls →
  let '(rs, s') := kv_run calls s in
  kv_spec_run calls rs (held s) = Some (held s') ∧ kv_logical_tokens_held s' = map_sum (held s').
Proof.
  intros Hs Hc. pose proof (kv_run_refines calls s Hs Hc) as Hrun. destruct (kv_run calls s) as [rs s'].
  split; [apply Hrun|apply kv_logical_spec].
Qed.

(** C12: The paged pool is never leaked, over-committed or double-booked.
    Starting from a fresh pool of [N] blocks, after any calls every block is
    either free, once, or referred to; its reference count is the number of
    sequences whose table has it; each sequence has exactly the distinct blocks
    its tokens fill, and as many slots as tokens. *)
Theorem paged_pool_conserved N bs s0 calls :
  Paged_init N bs = Ret s0 → N * bs ≤ 2 ^ 52 → Forall small_call calls →
  let s := (kv_run calls s0).2 in
  NoDup (pg_free_blocks s) ∧
  (∀ b, 0 ≤ b < N → (b ∈ pg_free_blocks s ↔ pg_refcounts s !! b = None)) ∧
  (∀ b, default 0 (pg_refcounts s !! b) = occ b (pg_block_tables s)) ∧
  (∀ id, is_Some (pg_block_tables s !! id) ↔ is_Some (pg_token_counts s !! id)) ∧
  ∀ id t n, pg_block_tables s !! id = Some t → pg_token_counts s !! id = Some n →
    NoDup t ∧ (∀ b, b ∈ t → 0 ≤ b < N) ∧ Z.of_nat (length t) = ceilZ n (pg_block_size s) ∧
    n ≤ Z.of_nat (length t) * pg_block_size s.
Proof.
  intros Hinit Hp Hc s. destruct (Paged_init_inv N bs s0 Hinit Hp) as [Hs0 _].
  pose proof (kv_run_refines (inv := paged_inv N) (held := pg_token_counts) calls s0 Hs0 Hc) as Hrun. unfold s. clear s.
  destruct (kv_run calls s0) as [rs s]. destruct Hrun as [Hs _]. cbn [snd].
  pose proof (pi_ledger N s Hs) as Hl. split_and!; [apply (lg_free_nodup N s Hl)| | |apply (pi_dom N s Hs)|].
  - intros b Hb. rewrite (lg_free N s Hl). naive_solver.
  - intros b. destruct (pg_refcounts s !! b) as [c|] eqn:Hr; simpl.
    + apply (lg_refs N s Hl b c Hr).
    + by rewrite (lg_unref N s Hl b Hr).
  - intros id t n Ht Hn. destruct (pi_fits N s Hs id t n Ht Hn) as [_ Hlen]. split_and!; [by apply (lg_table N s Hl id)| |done|].
    + intros b Hb. destruct (ledger_table_ref N s id t b Hl Ht Hb) as [c Hc']. by apply (lg_refs N s Hl b c).
    + rewrite Hlen. apply ceilZ_bounds, (lg_block_size N s Hl).
Qed.

(** Copy-on-write isolates forks.  In any reachable pool, an extension
    that is granted writes its new tokens only to blocks no other sequence's
    table has, and leaves every other sequence's table as it was. *)
Theorem paged_extend_writes_private N bs s0 calls id n s s' :
  Paged_init N bs = Ret s0 → N * bs ≤ 2 ^ 52 → Forall small_call calls → s = (kv_run calls s0).2 →
  small n → Paged_extend id n s = (Ret true, s') →
  (∀ k, pg_token_counts s !! id = Some k → ∀ pos, k ≤ pos < k + n → ∃ t b,
     pg_block_tables s' !! id = Some t ∧ t !! Z.to_nat (pos / pg_block_size s') = Some b ∧
     ∀ id' t', id' ≠ id → pg_block_tables s' !! id' = Some t' → b ∉ t') ∧
  ∀ id', id' ≠ id → pg_block_tables s' !! id' = pg_block_tables s !! id'.
Proof.
  intros Hinit Hp Hc -> Hn Hext. destruct (Paged_init_inv N bs s0 Hinit Hp) as [Hs0 _].
  pose proof (kv_run_refines (inv := paged_inv N) (held := pg_token_counts) calls s0 Hs0 Hc) as Hrun.
  destruct (kv_run calls s0) as [rs s]. destruct Hrun as [Hs _]. cbn [snd] in *.
  pose proof (Paged_extend_spec N id n s Hs Hn) as Hspec. rewrite Hext in Hspec. destruct Hspec as (Hs' & _ & Hpriv).
  split; [|intros id' Hne; by apply (Paged_extend_others id n s s')].
  intros k Hk pos Hpos. destruct (Hpriv eq_refl k Hk pos Hpos) as (t & b & Ht & Hb & Hone). exists t, b.
  split; [done|]. split; [done|]. intros id' t' Hne Ht' Hbt'.
  destruct (lg_refs N s' (pi_ledger N s' Hs') b 1 Hone) as (_ & _ & Hocc).
  rewrite (occ_delete b id t _ Ht) in Hocc. apply list_elem_of_lookup_2 in Hb.
  pose proof (occ_pos b id' t' (delete id (pg_block_tables s')) ltac:(by rewrite lookup_delete_ne) Hbt').
  rewrite cnt_nodup, decide_True in Hocc by (done || by apply (lg_table N s' (pi_ledger N s' Hs') id)). lia.
Qed.

(** The contiguous allocator is first fit and refuses only when it must.
    After any calls on a fresh pool its regions lie in the pool and no two
    share a slot; an allocation takes the leftmost free run of its size, and is
    refused only when there is none, as is an extension when no run, counting
    the sequence's own slots as free, is large enough. *)
Theorem contiguous_first_fit total s0 calls :
  Contiguous_init total = Ret s0 → Forall small_call calls →
  let s := (kv_run calls s0).2 in
  (∀ id r, ct_regions s !! id = Some r → in_pool (ct_total_slots s) r) ∧
  (∀ id id' r r' slot, ct_regions s !! id = Some r → ct_regions s !! id' = Some r' →
     r.1 ≤ slot < r.1 + r.2 → r'.1 ≤ slot < r'.1 + r'.2 → id = id') ∧
  (∀ id n s', Contiguous_allocate id n s = (Ret true, s') → ∃ c, ct_regions s' !! id = Some (c, n) ∧
     ∀ c', 0 ≤ c' < c → ¬ free_run (ct_regions s) (ct_total_slots s) c' n) ∧
  (∀ id n s', Contiguous_allocate id n s = (Ret false, s') → ∀ c, ¬ free_run (ct_regions s) (ct_total_slots s) c n) ∧
  (∀ id n s' start len, Contiguous_extend id n s = (Ret false, s') → ct_regions s !! id = Some (start, len) →
     ∀ c, ¬ free_run (delete id (ct_regions s)) (ct_total_slots s) c (len + n)).
Proof.
  intros Hinit Hc s. assert (Hs0 : contiguous_inv s0).
  { unfold Contiguous_init in Hinit. destruct (Z.ltb_spec total 1); [done|]. injection Hinit as <-.
    split; cbn; [lia| |]; intros *; by rewrite lookup_empty. }
  pose proof (kv_run_refines (inv := contiguous_inv) (held := region_sizes) calls s0 Hs0 Hc) as Hrun. unfold s. clear s.
  destruct (kv_run calls s0) as [rs s]. destruct Hrun as [Hs _]. cbn [snd]. split_and!; [apply (ci_pool s Hs)| | | |].
  - intros id id' [a n] [b m] slot Hr Hr' H1 H2. destruct (decide (id = id')) as [|Hne]; [done|]. exfalso. cbn in *.
    destruct (ci_disjoint s Hs id id' _ _ Hr Hr' Hne) as [Ho|Ho]; unfold overlaps in *; cbn in *; lia.
  - intros id n s' Hrun. pose proof (Contiguous_allocate_spec id n s Hs) as H'. rewrite Hrun in H'. by apply H'.
  - intros id n s' Hrun. pose proof (Contiguous_allocate_spec id n s Hs) as H'. rewrite Hrun in H'. by apply H'.
  - intros id n s' start len Hrun Hid. pose proof (Contiguous_extend_spec id n s Hs) as H'. rewrite Hrun in H'.
    by apply (proj2 (proj2 H') eq_refl start len).
Qed.

(** C0: [math.ceil(num_tokens / block_size)] divides through a float, and is
    still the exact number of blocks for every token count below 2^53. *)
Theorem blocks_needed_exact s n :
  0 ≤ n < 2 ^ 53 → 0 < pg_block_size s < 2 ^ 53 →
  ∃ k, _blocks_needed s n = Ret k ∧ (k - 1) * pg_block_size s < n ≤ k * pg_block_size s.
Proof.
  intros Hn Hb. exists (ceilZ n (pg_block_size s)). split; [by apply ceil_div_exact|]. apply ceilZ_bounds; lia.
Qed.

(** *** Worked examples *)

(** A prompt of six tokens in blocks of four, forked, the fork extended. *)
Definition sample_calls : list KVCall :=
  [CAllocate "a" 6; CFork "a" "b"; CExtend "b" 1; CAllocate "c" 5; CFree "a"; CExtend "x" 1].

Definition sample_pool : PagedKVAllocator := mkPaged 4 (seqZ 0 4) ∅ ∅ ∅.

Lemma sample_calls_small : Forall small_call sample_calls.
Proof. unfold sample_calls. repeat (constructor; [cbn; unfold small; lia|]). constructor. Qed.

Lemma sample_pool_inv : paged_inv 4 sample_pool.
Proof. apply (Paged_init_inv 4 4); [reflexivity|lia]. Qed.

Lemma sample_slots_inv : contiguous_inv (mkContiguous 16 ∅).
Proof. split; cbn; [lia| |]; intros *; by rewrite lookup_empty. Qed.

Example sample_replies :
  (kv_run sample_calls sample_pool).1 = [Ret true; Ret true; Ret true; Ret false; Ret true; Raise KeyError].
Proof. vm_compute. reflexivity. Qed.

Lemma allocator_refines_map_witness :
  (let '(rs, s') := kv_run sample_calls sample_pool in
   kv_spec_run sample_calls rs (pg_token_counts sample_pool) = Some (pg_token_counts s') ∧ kv_logical_tokens_held s' = map_sum (pg_token_counts s')) ∧
  let '(rs, s') := kv_run sample_calls (mkContiguous 16 ∅) in
   kv_spec_run sample_calls rs (region_sizes (mkContiguous 16 ∅)) = Some (region_sizes s') ∧ kv_logical_tokens_held s' = map_sum (region_sizes s').
Proof.
  pose proof (allocator_refines_map (held := pg_token_counts) (inv := paged_inv 4) sample_calls sample_pool
    sample_pool_inv sample_calls_small) as Hpaged.
  pose proof (allocator_refines_map (held := region_sizes) (inv := contiguous_inv) sample_calls (mkContiguous 16 ∅)
    sample_slots_inv sample_calls_small) as Hcontiguous.
  split; [exact Hpaged|exact Hcontiguous].
Defined.

Lemma paged_pool_conserved_witness :
  let s := (kv_run sample_calls sample_pool).2 in
  NoDup (pg_free_blocks s) ∧ ∀ b, default 0 (pg_refcounts s !! b) = occ b (pg_block_tables s).
Proof.
  pose proof (paged_pool_conserved 4 4 sample_pool sample_calls eq_refl ltac:(lia) sample_calls_small) as Hall.
  split; apply Hall.
Defined.

(** The fork's seventh token goes to a block of its own. *)
Lemma paged_extend_writes_private_witness :
  let s := (kv_run [CAllocate "a" 6; CFork "a" "b"] sample_pool).2 in
  let s' := (Paged_extend "b" 1 s).2 in
  ∃ t b, pg_block_tables s' !! "b"%string = Some t ∧ t !! 1%nat = Some b ∧
    ∀ id' t', id' ≠ "b"%string → pg_block_tables s' !! id' = Some t' → b ∉ t'.
Proof.
  intros s s'.
  apply (proj1 (paged_extend_writes_private 4 4 sample_pool [CAllocate "a" 6; CFork "a" "b"] "b" 1 s s' eq_refl
    ltac:(lia) ltac:(repeat (constructor; [cbn; unfold small; lia|]); constructor) eq_refl ltac:(unfold small; lia) ltac:(vm_compute; reflexivity))
    6 ltac:(vm_compute; reflexivity) 6 ltac:(lia)).
Defined.

Lemma contiguous_first_fit_witness :
  let s := (kv_run sample_calls (mkContiguous 16 ∅)).2 in
  (∀ id r, ct_regions s !! id = Some r → in_pool (ct_total_slots s) r) ∧
  ∀ c, ¬ free_run (ct_regions s) (ct_total_slots s) c 7.
Proof.
  pose proof (contiguous_first_fit 16 (mkContiguous 16 ∅) sample_calls eq_refl sample_calls_small) as Hall.
  split; [apply Hall|]. destruct Hall as (_ & _ & _ & Href & _).
  apply (Href "d"%string 7 (kv_run sample_calls (mkContiguous 16 ∅)).2). vm_compute. reflexivity.
Defined.

Lemma blocks_needed_exact_witness : ∃ k, _blocks_needed sample_pool 6 = Ret k ∧ (k - 1) * 4 < 6 ≤ k * 4.
Proof. apply (blocks_needed_exact sample_pool 6); [lia|cbn; lia]. Defined.
