(* ===== verification/SpeculativeDecode.v ===== *)
(** * Speculative decoding

    cag/domain/ngram_search.py, the two candidate generators over it
    (prompt_lookup_candidate_generator.py, lookahead_candidate_generator.py),
    hf_target_model.py, and the propose-verify-accept loop of
    cag/application/speculative_decode.py.  The network itself is a parameter:
    the token its logits favour at each position of a sequence. *)

From Stdlib Require Import ZArith Lia.
From S2P Require Import Prelude PySeq.

(** ** Entities and ports *)

Record VerificationResult : Type := mkVerification {
  vr_accepted_tokens : list Z;
  vr_bonus_token : option Z
}.

Record SpeculativeDecodingRun : Type := mkRun {
  sd_generated_tokens : list Z;
  sd_forward_passes : Z;
  sd_tokens_accepted_from_candidates : Z;
  sd_tokens_proposed : Z
}.

Class CandidateGenerator (G : Type) : Type := propose : list Z → list Z → Z → stm G (list Z).
Class TargetModel (T : Type) : Type := verify_candidates : list Z → list Z → stm T VerificationResult.

(** ** N-gram search *)

Definition match_at (ngram haystack : list Z) (ngram_size num_candidates start : Z) : option (list Z) :=
  if decide (py_slice start (start + ngram_size) haystack = ngram)
  then Some (py_slice (start + ngram_size) (start + ngram_size + num_candidates) haystack)
  else None.

Definition search_ceiling (haystack : list Z) (max_start : option Z) : Z :=
  match max_start with
  | None => Z.of_nat (length haystack)
  | Some m => Z.min m (Z.of_nat (length haystack))
  end.

Definition find_ngram_continuation (tail haystack : list Z) (num_candidates max_ngram_size min_ngram_size : Z)
    (max_start : option Z) : list Z :=
  match tail, haystack with
  | [], _ | _, [] => []
  | _, _ =>
      let largest := Z.min max_ngram_size (Z.of_nat (length tail)) in
      default [] (first_some (λ ngram_size,
        first_some (match_at (last_slice ngram_size tail) haystack ngram_size num_candidates)
          (range_down (search_ceiling haystack max_start - ngram_size) 0))
        (range_down largest min_ngram_size))
  end.

(** ** The candidate generators *)

Record PromptLookup : Type := mkPromptLookup { pl_max_ngram_size : Z; pl_min_ngram_size : Z }.

Definition PromptLookup_propose (prompt_tokens generated_tokens : list Z) (num_candidates : Z) :
  stm PromptLookup (list Z) := λ g,
  let context := prompt_tokens ++ generated_tokens in
  match context with
  | [] => (Ret [], g)
  | _ =>
      let tail := last_slice (pl_max_ngram_size g) context in
      let max_start := Z.of_nat (length prompt_tokens) - 1 in
      (Ret (find_ngram_continuation tail prompt_tokens num_candidates (pl_max_ngram_size g) (pl_min_ngram_size g)
              (Some max_start)), g)
  end.

#[export] Instance prompt_lookup : CandidateGenerator PromptLookup := PromptLookup_propose.

Record Lookahead : Type := mkLookahead { la_max_ngram_size : Z; la_min_ngram_size : Z }.

Definition Lookahead_propose (prompt_tokens generated_tokens : list Z) (num_candidates : Z) :
  stm Lookahead (list Z) := λ g,
  let tail := last_slice (la_max_ngram_size g) generated_tokens in
  (Ret (find_ngram_continuation tail generated_tokens num_candidates (la_max_ngram_size g) (la_min_ngram_size g)
          (Some (Z.of_nat (length generated_tokens) - 1))), g).

#[export] Instance lookahead : CandidateGenerator Lookahead := Lookahead_propose.

(** The cases of tests/unit/test_ngram_search.py. *)
Example ngram_most_recent : find_ngram_continuation [3; 4] [3; 4; 99; 3; 4; 100; 101] 2 3 1 None = [100; 101].
Proof. vm_compute. reflexivity. Qed.
Example prompt_lookup_echo :
  (PromptLookup_propose [5; 6; 7; 5; 6; 7] [7] 3 (mkPromptLookup 3 1)).1 = Ret [5; 6; 7].
Proof. vm_compute. reflexivity. Qed.

(** ** HFTargetModel *)

(** One forward pass: the argmax of the logits at every position. *)
Class CausalLM : Type := lm_argmax : list Z → res (list Z).

Section hf.
Context `{CausalLM}.

(** The loop over the candidates, from index [i]. *)
Fixpoint accept_from (logits : list Z) (base i : Z) (candidates accepted : list Z) :
  res (list Z * option Z) :=
  match candidates with
  | [] => Ret (accepted, None)
  | candidate :: rest =>
      predicted ← py_index (base + i) logits;
      if negb (predicted =? candidate) then Ret (accepted, Some predicted)
      else accept_from logits base (i + 1) rest (accepted ++ [candidate])
  end.

Definition HF_verify (tokens candidates : list Z) : stm unit VerificationResult :=
  lift_res (
    logits ← lm_argmax (tokens ++ candidates);
    '(accepted, mismatch) ← accept_from logits (Z.of_nat (length tokens) - 1) 0 candidates [];
    match mismatch with
    | Some predicted => Ret (mkVerification accepted (Some predicted))
    | None => bonus ← py_index (-1) logits; Ret (mkVerification accepted (Some bonus))
    end).

#[export] Instance hf_target_model : TargetModel unit := HF_verify.
End hf.

(** ** The loop *)

Section decode.
Context {T G : Type} `{TargetModel T} `{CandidateGenerator G}.

Definition no_progress : exn := RuntimeError ("speculative decoding made no progress this round -- " ++
  "TargetModel.verify_candidates returned no accepted tokens and no " ++
  "bonus_token while still under max_new_tokens, violating its own contract")%string.

(** One round, from the state of the counters. *)
Definition round (prompt_tokens : list Z) (max_new_tokens num_candidates : Z) (run : SpeculativeDecodingRun) :
  stm (T * G) SpeculativeDecodingRun :=
  candidates ← on_snd (propose prompt_tokens (sd_generated_tokens run) num_candidates);
  result ← on_fst (verify_candidates (prompt_tokens ++ sd_generated_tokens run) candidates);
  let remaining_budget := max_new_tokens - Z.of_nat (length (sd_generated_tokens run)) in
  let accepted_within_budget := py_slice 0 remaining_budget (vr_accepted_tokens result) in
  let extended := sd_generated_tokens run ++ accepted_within_budget in
  let generated :=
    match vr_bonus_token result with
    | Some bonus => if Z.of_nat (length extended) <? max_new_tokens then extended ++ [bonus] else extended
    | None => extended
    end in
  if (length generated =? length (sd_generated_tokens run))%nat then raise no_progress
  else mret (mkRun generated (sd_forward_passes run + 1)
               (sd_tokens_accepted_from_candidates run + Z.of_nat (length accepted_within_budget))
               (sd_tokens_proposed run + Z.of_nat (length candidates))).

(** The while loop; [None] when the fuel runs out before its condition fails. *)
Fixpoint decode_loop (fuel : nat) (prompt_tokens : list Z) (max_new_tokens num_candidates : Z)
    (run : SpeculativeDecodingRun) : stm (T * G) (option SpeculativeDecodingRun) :=
  if Z.of_nat (length (sd_generated_tokens run)) <? max_new_tokens then
    match fuel with
    | O => mret None
    | S fuel =>
        run' ← round prompt_tokens max_new_tokens num_candidates run;
        decode_loop fuel prompt_tokens max_new_tokens num_candidates run'
    end
  else mret (Some run).

Definition SpeculativeDecode_execute (fuel : nat) (prompt_tokens : list Z) (max_new_tokens num_candidates : Z) :
  stm (T * G) (option SpeculativeDecodingRun) :=
  decode_loop fuel prompt_tokens max_new_tokens num_candidates (mkRun [] 0 0 0).
End decode.

(** ** One round *)

Lemma py_slice_prefix {A} k (l : list A) : 0 ≤ k → py_slice 0 k l = take (Z.to_nat k) l.
Proof.
  intros Hk. unfold py_slice, clamp. rewrite (proj2 (Z.ltb_ge k 0) Hk). cbn [Z.ltb Z.compare].
  replace (Z.min 0 (Z.of_nat (length l))) with 0 by lia. rewrite drop_0.
  destruct (Z.le_ge_cases k (Z.of_nat (length l))).
  - f_equal. lia.
  - rewrite !take_ge by lia. done.
Qed.

(** What a round does to the counters, whatever the model and the generator. *)
Record round_ok (max : Z) (run run' : SpeculativeDecodingRun) : Prop := {
  ro_extends : ∃ more, sd_generated_tokens run' = sd_generated_tokens run ++ more ∧ more ≠ [];
  ro_budget : Z.of_nat (length (sd_generated_tokens run')) ≤ max;
  ro_passes : sd_forward_passes run' = sd_forward_passes run + 1;
  ro_accepted : sd_tokens_accepted_from_candidates run ≤ sd_tokens_accepted_from_candidates run' ∧
    Z.of_nat (length (sd_generated_tokens run')) - Z.of_nat (length (sd_generated_tokens run)) ≤
    sd_tokens_accepted_from_candidates run' - sd_tokens_accepted_from_candidates run + 1;
  ro_surviving : sd_tokens_accepted_from_candidates run' - sd_tokens_accepted_from_candidates run ≤
    Z.of_nat (length (sd_generated_tokens run')) - Z.of_nat (length (sd_generated_tokens run))
}.

Section loop.
Context {T G : Type} `{TargetModel T} `{CandidateGenerator G}.

Lemma round_spec prompt max k run s run' s' :
  Z.of_nat (length (sd_generated_tokens run)) < max →
  round prompt max k run s = (Ret run', s') → round_ok max run run'.
Proof.
  intros Hlt Hrun. unfold round in Hrun. apply stm_bind_inv in Hrun as (candidates & s1 & _ & Hrun).
  apply stm_bind_inv in Hrun as (result & s2 & _ & Hrun). rewrite py_slice_prefix in Hrun by lia.
  set (acc := take _ (vr_accepted_tokens result)) in Hrun.
  assert (Hacc : Z.of_nat (length acc) ≤ max - Z.of_nat (length (sd_generated_tokens run)))
    by (unfold acc; rewrite length_take; lia).
  set (gen := match vr_bonus_token result with Some _ => _ | None => _ end) in Hrun.
  assert (Hgen : ∃ more, gen = sd_generated_tokens run ++ more ∧
    (Z.of_nat (length acc) ≤ Z.of_nat (length more) ≤ Z.of_nat (length acc) + 1) ∧
    Z.of_nat (length (sd_generated_tokens run)) + Z.of_nat (length more) ≤ max).
  { unfold gen. destruct (vr_bonus_token result) as [b|]; [|exists acc; split; [done|lia]].
    destruct (Z.ltb_spec (Z.of_nat (length (sd_generated_tokens run ++ acc))) max) as [Hb|Hb];
      [|exists acc; split; [done|lia]].
    rewrite length_app in Hb. exists (acc ++ [b]). rewrite length_app, <- app_assoc. split; [done|]. simpl. lia. }
  destruct Hgen as (more & Heq & Hmore & Hmax). rewrite Heq in Hrun.
  destruct (Nat.eqb_spec (length (sd_generated_tokens run ++ more)) (length (sd_generated_tokens run))) as [He|He]; [done|].
  injection Hrun as <- _. rewrite length_app in He. split; cbn; rewrite ?length_app; try lia.
  exists more. split; [done|]. intros ->. simpl in He. lia.
Qed.

(** Enough fuel: one unit per token still to come. *)
Lemma decode_loop_spec fuel prompt max k run s :
  max ≤ Z.of_nat (length (sd_generated_tokens run)) + Z.of_nat fuel →
  match decode_loop fuel prompt max k run s with
  | (Ret (Some run'), _) =>
      max ≤ Z.of_nat (length (sd_generated_tokens run')) ∧
      (Z.of_nat (length (sd_generated_tokens run)) ≤ max → Z.of_nat (length (sd_generated_tokens run')) = max) ∧
      (∃ more, sd_generated_tokens run' = sd_generated_tokens run ++ more) ∧
      sd_forward_passes run ≤ sd_forward_passes run' ∧
      sd_forward_passes run' - sd_forward_passes run ≤
        Z.of_nat (length (sd_generated_tokens run')) - Z.of_nat (length (sd_generated_tokens run)) ≤
        sd_forward_passes run' - sd_forward_passes run +
          (sd_tokens_accepted_from_candidates run' - sd_tokens_accepted_from_candidates run) ∧
      0 ≤ sd_tokens_accepted_from_candidates run' - sd_tokens_accepted_from_candidates run ≤
        Z.of_nat (length (sd_generated_tokens run')) - Z.of_nat (length (sd_generated_tokens run))
  | (Ret None, _) => False
  | (Raise _, _) => True
  end.
Proof.
  revert run s. induction fuel as [|fuel IH]; intros run s Hfuel; cbn [decode_loop].
  { destruct (Z.ltb_spec (Z.of_nat (length (sd_generated_tokens run))) max); [lia|].
    split_and!; try lia. exists []. by rewrite app_nil_r. }
  destruct (Z.ltb_spec (Z.of_nat (length (sd_generated_tokens run))) max) as [Hlt|Hge].
  2: { split_and!; try lia. exists []. by rewrite app_nil_r. }
  unfold mbind, stm_bind. destruct (round prompt max k run s) as [[run1|e] s1] eqn:Hround; [|done].
  apply round_spec in Hround as [(more & Hext & Hne) Hbud Hpass [Hacc0 Hacc] Hsurv]; [|done].
  assert (length (sd_generated_tokens run) < length (sd_generated_tokens run1))%nat.
  { rewrite Hext, length_app. destruct more; [done|simpl; lia]. }
  specialize (IH run1 s1 ltac:(lia)). destruct (decode_loop fuel prompt max k run1 s1) as [[[run2|]|e] s2]; [|done|done].
  destruct IH as (Hmax & Hex & (more2 & Hext2) & Hp & Hlen & Hac). split_and!; try lia.
  exists (more ++ more2). by rewrite Hext2, Hext, app_assoc.
Qed.
End loop.

(** ** The verifier accepts exactly the model's own continuation *)

Section greedy.
Context `{CausalLM} (greedy : list Z → Z).

(** A causal model's prediction at a position depends on the tokens up to it. *)
Definition causal : Prop := ∀ l, l ≠ [] → ∃ ps, lm_argmax l = Ret ps ∧ length ps = length l ∧
  ∀ i, (i < length l)%nat → ps !! i = Some (greedy (take (S i) l)).

(** Naive decoding: one token per pass. *)
Fixpoint autoregress (n : nat) (seq : list Z) : list Z :=
  match n with O => [] | S n => greedy seq :: autoregress n (seq ++ [greedy seq]) end.

Lemma autoregress_app n m seq : autoregress (n + m) seq = autoregress n seq ++ autoregress m (seq ++ autoregress n seq).
Proof.
  revert seq. induction n as [|n IH]; intros seq; simpl; [by rewrite app_nil_r|].
  rewrite IH, <- app_assoc. done.
Qed.

Lemma autoregress_length n seq : length (autoregress n seq) = n.
Proof. revert seq. induction n; intros seq; simpl; congruence. Qed.

Lemma autoregress_take n m seq : (m ≤ n)%nat → take m (autoregress n seq) = autoregress m seq.
Proof.
  intros Hm. replace n with (m + (n - m))%nat by lia. rewrite autoregress_app.
  rewrite take_app_length'; [done|]. by rewrite autoregress_length.
Qed.

Lemma autoregress_snoc n seq : autoregress (S n) seq = autoregress n seq ++ [greedy (seq ++ autoregress n seq)].
Proof. replace (S n) with (n + 1)%nat by lia. by rewrite autoregress_app. Qed.

Lemma accept_from_spec logits tokens cands i :
  tokens ≠ [] → (i ≤ length cands)%nat →
  (∀ j, (j < length (tokens ++ cands))%nat → logits !! j = Some (greedy (take (S j) (tokens ++ cands)))) →
  take i cands = autoregress i tokens →
  ∃ acc mismatch, accept_from logits (Z.of_nat (length tokens) - 1) (Z.of_nat i) (drop i cands) (take i cands)
      = Ret (acc, mismatch) ∧ acc = autoregress (length acc) tokens ∧
    match mismatch with
    | Some b => b = greedy (tokens ++ acc)
    | None => acc = cands
    end.
Proof.
  intros Htok Hi Hlog. remember (length cands - i)%nat as n eqn:Hn. revert i Hi Hn.
  induction n as [|n IH]; intros i Hi Hn Htake.
  - rewrite drop_ge, take_ge in * by lia. exists cands, None. split; [done|]. split; [|done].
    assert (length cands = i) as -> by lia. done.
  - destruct (lookup_lt_is_Some_2 cands i ltac:(lia)) as [c Hc].
    rewrite (drop_S _ c i) by done. cbn [accept_from].
    assert (0 < length tokens)%nat by (destruct tokens; [done|simpl; lia]).
    assert (Hpred : logits !! (length tokens - 1 + i)%nat = Some (greedy (tokens ++ take i cands))).
    { rewrite Hlog by (rewrite length_app; lia). do 2 f_equal.
      replace (S (length tokens - 1 + i)) with (length tokens + i)%nat by lia. by rewrite take_app_add. }
    replace (Z.of_nat (length tokens) - 1 + Z.of_nat i) with (Z.of_nat (length tokens - 1 + i)) by lia.
    rewrite (py_index_nonneg _ _ _ Hpred). cbn [mbind res_bind].
    destruct (Z.eqb_spec (greedy (tokens ++ take i cands)) c) as [Heq|Hne]; simpl.
    + assert (Hsnoc : take i cands ++ [c] = take (S i) cands) by (symmetry; by apply take_S_r).
      rewrite Hsnoc. replace (Z.of_nat i + 1) with (Z.of_nat (S i)) by lia. apply IH; [lia|lia|].
      rewrite <- Hsnoc, autoregress_snoc, Htake. congruence.
    + exists (take i cands), (Some (greedy (tokens ++ take i cands))). split; [done|]. split; [|done].
      rewrite length_take_le by lia. done.
Qed.

(** Accepted tokens and bonus are the greedy continuation. *)
Lemma HF_verify_spec tokens cands :
  causal → tokens ≠ [] →
  ∃ acc b, HF_verify tokens cands = (λ s, (Ret (mkVerification acc (Some b)), s)) ∧
    acc ++ [b] = autoregress (S (length acc)) tokens.
Proof.
  intros Hcausal Htok. destruct (Hcausal (tokens ++ cands)) as (logits & Hlm & Hlen & Hlog); [by destruct tokens|].
  destruct (accept_from_spec logits tokens cands 0 Htok ltac:(lia) Hlog eq_refl) as (acc & mismatch & Hacc & Hauto & Hmis).
  rewrite drop_0, take_0 in Hacc. change (Z.of_nat 0) with 0 in Hacc.
  assert (Hsnoc : acc ++ [greedy (tokens ++ acc)] = autoregress (S (length acc)) tokens)
    by (by rewrite autoregress_snoc, <- Hauto).
  exists acc, (greedy (tokens ++ acc)). split; [|done]. unfold HF_verify. rewrite Hlm. cbn [mbind res_bind].
  rewrite Hacc. cbn [mbind res_bind]. destruct mismatch as [b|]; [by subst b|]. subst acc.
  rewrite (py_index_last logits (greedy (tokens ++ cands))); [done|].
  rewrite last_lookup, Hlog by (rewrite Hlen, length_app; destruct tokens; simpl; [done|lia]).
  rewrite Hlen, take_ge by lia. done.
Qed.
End greedy.

(** ** Losslessness *)

Section lossless.
Context `{CausalLM} {G : Type} `{CandidateGenerator G} (greedy : list Z → Z) (prompt : list Z) (max k : Z).

(** The run so far is a prefix of the naive one, one pass or more per token. *)
Record lossless_run (run : SpeculativeDecodingRun) : Prop := {
  lr_prefix : sd_generated_tokens run = autoregress greedy (length (sd_generated_tokens run)) prompt;
  lr_budget : Z.of_nat (length (sd_generated_tokens run)) ≤ Z.max 0 max;
  lr_passes : sd_forward_passes run ≤ Z.of_nat (length (sd_generated_tokens run)) ≤
    sd_forward_passes run + sd_tokens_accepted_from_candidates run;
  lr_proposed : 0 ≤ sd_tokens_accepted_from_candidates run ≤ sd_tokens_proposed run
}.

Definition generator_raises (e : exn) : Prop := ∃ gen g, (propose prompt gen k g).1 = Raise e.

Lemma accepted_prefix logits base i cands acc :
  match accept_from logits base i cands acc with
  | Ret (acc', _) => (length acc' ≤ length acc + length cands)%nat
  | Raise _ => True
  end.
Proof.
  revert i acc. induction cands as [|c cands IH]; intros i acc; simpl; [lia|].
  destruct (py_index (base + i) logits) as [p|e]; simpl; [|done]. destruct (p =? c); simpl; [|lia].
  specialize (IH (i + 1) (acc ++ [c])). destruct (accept_from _ _ _ _ _) as [[acc' m]|]; [|done].
  rewrite length_app in IH. simpl in IH. lia.
Qed.

Lemma HF_accepted_le tokens cands r s s' :
  HF_verify tokens cands s = (Ret r, s') → (length (vr_accepted_tokens r) ≤ length cands)%nat.
Proof.
  unfold HF_verify, lift_res. destruct (lm_argmax _) as [logits|e]; simpl; [|done].
  pose proof (accepted_prefix logits (Z.of_nat (length tokens) - 1) 0 cands []) as Hle.
  destruct (accept_from _ _ _ _ _) as [[acc [b|]]|e]; simpl; [| |done].
  - intros [= <- _]. simpl in *. lia.
  - destruct (py_index (-1) logits); simpl; [|done]. intros [= <- _]. simpl in *. lia.
Qed.

Lemma round_lossless run s :
  causal greedy → prompt ≠ [] → lossless_run run → Z.of_nat (length (sd_generated_tokens run)) < max →
  match round prompt max k run s with
  | (Ret run', _) => lossless_run run'
  | (Raise e, _) => generator_raises e
  end.
Proof.
  intros Hcausal Hprompt Hrun Hlt. destruct s as [[] g]. unfold round. unfold mbind at 1, stm_bind at 1, on_snd.
  simpl. destruct (propose prompt (sd_generated_tokens run) k g) as [[cands|e] g'] eqn:Hprop.
  2: { exists (sd_generated_tokens run), g. by rewrite Hprop. }
  unfold mbind, stm_bind, on_fst, verify_candidates, hf_target_model. cbn [fst snd].
  destruct (HF_verify_spec greedy (prompt ++ sd_generated_tokens run) cands Hcausal) as (acc & b & Hver & Hab);
    [by destruct prompt|].
  assert (Hle : (length acc ≤ length cands)%nat).
  { apply (HF_accepted_le (prompt ++ sd_generated_tokens run) cands (mkVerification acc (Some b)) () ()).
    by rewrite Hver. }
  rewrite Hver. cbn [vr_accepted_tokens vr_bonus_token]. rewrite py_slice_prefix by lia.
  destruct Hrun as [Hpre Hbud Hpass Hprp]. set (gen := sd_generated_tokens run) in *.
  set (n := Z.to_nat (max - Z.of_nat (length gen))).
  set (gen' := if _ <? max then _ else _).
  assert (Hgen' : gen' = gen ++ take n (acc ++ [b])).
  { unfold gen'. rewrite length_app, take_app, length_take, <- app_assoc.
    destruct (Z.ltb_spec (Z.of_nat (length gen + n `min` length acc)) max).
    - rewrite (take_ge [b]); [done|]. simpl. lia.
    - replace (n - length acc)%nat with O by lia. by rewrite take_0, app_nil_r. }
  assert (Hlen : length (take n (acc ++ [b])) = (n `min` S (length acc))%nat).
  { rewrite length_take, length_app. simpl. lia. }
  assert (Hlen' : length gen' = (length gen + n `min` S (length acc))%nat) by (rewrite Hgen', length_app; lia).
  destruct (Nat.eqb_spec (length gen') (length gen)) as [Heq|_]; [lia|].
  unfold mret, stm_ret. split; cbn; rewrite ?length_take; [|lia|lia|lia].
  rewrite Hlen', autoregress_app, <- Hpre, Hgen'. f_equal. rewrite Hab.
  destruct (decide (n ≤ S (length acc))%nat).
  - rewrite autoregress_take by lia. f_equal. lia.
  - rewrite take_ge by (rewrite autoregress_length; lia). f_equal. lia.
Qed.

Lemma decode_loop_lossless fuel run s :
  causal greedy → prompt ≠ [] → lossless_run run →
  max ≤ Z.of_nat (length (sd_generated_tokens run)) + Z.of_nat fuel →
  match decode_loop fuel prompt max k run s with
  | (Ret (Some run'), _) => lossless_run run' ∧ max ≤ Z.of_nat (length (sd_generated_tokens run'))
  | (Ret None, _) => False
  | (Raise e, _) => generator_raises e
  end.
Proof.
  intros Hcausal Hprompt. revert run s. induction fuel as [|fuel IH]; intros run s Hrun Hfuel; cbn [decode_loop].
  { destruct (Z.ltb_spec (Z.of_nat (length (sd_generated_tokens run))) max); [lia|done]. }
  destruct (Z.ltb_spec (Z.of_nat (length (sd_generated_tokens run))) max) as [Hlt|Hge]; [|done].
  pose proof (round_lossless run s Hcausal Hprompt Hrun Hlt) as Hround. unfold mbind, stm_bind.
  destruct (round prompt max k run s) as [[run1|e] s1] eqn:Heq; [|done].
  apply round_spec in Heq as [(more & Hext & Hne) _ _ _ _]; [|done].
  apply IH; [done|]. rewrite Hext, length_app. destruct more; [done|]. simpl. lia.
Qed.
End lossless.

(** ** The properties *)

(** C11: Speculative decoding is lossless: whatever the candidate generator proposes, with a causal model behind
    HFTargetModel and a non-empty prompt the tokens generated are the model's own greedy continuation, token for
    token, exactly [max_new_tokens] of them (none when the budget is not positive); it never takes more forward
    passes than that, and no more tokens are counted accepted than proposed.  An execution that does not finish
    raises what the generator raised. *)
Theorem speculative_decoding_lossless `{CausalLM} {G : Type} `{CandidateGenerator G} (greedy : list Z → Z)
    (prompt : list Z) (max k : Z) (fuel : nat) (g : G) :
  causal greedy → prompt ≠ [] → max ≤ Z.of_nat fuel →
  match SpeculativeDecode_execute fuel prompt max k ((), g) with
  | (Ret (Some run), _) =>
      sd_generated_tokens run = autoregress greedy (Z.to_nat max) prompt ∧
      sd_forward_passes run ≤ Z.max 0 max ≤ sd_forward_passes run + sd_tokens_accepted_from_candidates run ∧
      0 ≤ sd_tokens_accepted_from_candidates run ≤ sd_tokens_proposed run
  | (Ret None, _) => False
  | (Raise e, _) => ∃ generated g', (propose prompt generated k g').1 = Raise e
  end.
Proof.
  intros Hcausal Hprompt Hfuel. unfold SpeculativeDecode_execute.
  pose proof (decode_loop_lossless greedy prompt max k fuel (mkRun [] 0 0 0) ((), g) Hcausal Hprompt
    ltac:(split; simpl; lia || done) ltac:(simpl; lia)) as Hloop.
  destruct (decode_loop _ _ _ _ _ _) as [[[run|]|e] s].
  2, 3: exact Hloop.
  destruct Hloop as [[Hpre Hbud Hpass Hprop] Hmax].
  assert (Hlen : length (sd_generated_tokens run) = Z.to_nat max) by lia.
  rewrite Hpre, Hlen. split; [done|]. lia.
Qed.

(** A toy network: the next token is the successor of the last, modulo five. *)
Definition toy_greedy (l : list Z) : Z := (default 0 (last l) + 1) `mod` 5.
Definition toy_lm : CausalLM := λ l, Ret ((λ i, toy_greedy (take (S i) l)) <$> seq 0 (length l)).

Lemma toy_causal : @causal toy_lm toy_greedy.
Proof.
  intros l _. eexists. split; [reflexivity|]. rewrite length_fmap, length_seq. split; [done|].
  intros i Hi. rewrite list_lookup_fmap, lookup_seq_lt by done. done.
Qed.

Definition toy_run := @SpeculativeDecode_execute unit PromptLookup (@hf_target_model toy_lm) prompt_lookup 6
  [0; 1; 2; 3; 4; 0] 6 3 ((), mkPromptLookup 3 1).

Example toy_run_saves_passes :
  toy_run = (Ret (Some (mkRun [1; 2; 3; 4; 0; 1] 2 4 4)), ((), mkPromptLookup 3 1)).
Proof. vm_compute. reflexivity. Qed.

Lemma speculative_decoding_lossless_witness :
  match toy_run with
  | (Ret (Some run), _) =>
      sd_generated_tokens run = autoregress toy_greedy (Z.to_nat 6) [0; 1; 2; 3; 4; 0] ∧
      sd_forward_passes run ≤ Z.max 0 6 ≤ sd_forward_passes run + sd_tokens_accepted_from_candidates run ∧
      0 ≤ sd_tokens_accepted_from_candidates run ≤ sd_tokens_proposed run
  | (Ret None, _) => False
  | (Raise e, _) => ∃ generated g', (PromptLookup_propose [0; 1; 2; 3; 4; 0] generated 3 g').1 = Raise e
  end.
Proof.
  pose proof (@speculative_decoding_lossless toy_lm PromptLookup prompt_lookup toy_greedy [0; 1; 2; 3; 4; 0] 6 3 6
    (mkPromptLookup 3 1) toy_causal ltac:(done) ltac:(lia)) as Hw. exact Hw.
Defined.

(** Progress, for any target model and any candidate generator, contract-abiding or not: given one unit of
    fuel per token of the budget the loop ends, in a run with exactly [max_new_tokens] tokens (no fewer, and none
    over), reached in at most that many forward passes, or in an exception; never by running on without
    progress. *)
Theorem decode_reaches_the_budget {T G : Type} `{TargetModel T} `{CandidateGenerator G} (fuel : nat)
    (prompt : list Z) (max k : Z) (s : T * G) :
  0 ≤ max ≤ Z.of_nat fuel →
  match SpeculativeDecode_execute fuel prompt max k s with
  | (Ret (Some run), _) =>
      Z.of_nat (length (sd_generated_tokens run)) = max ∧
      0 ≤ sd_forward_passes run ≤ max ∧ 0 ≤ sd_tokens_accepted_from_candidates run ≤ max
  | (Ret None, _) => False
  | (Raise _, _) => True
  end.
Proof.
  intros Hfuel. pose proof (decode_loop_spec fuel prompt max k (mkRun [] 0 0 0) s ltac:(simpl; lia)) as Hloop.
  unfold SpeculativeDecode_execute. destruct (decode_loop _ _ _ _ _ _) as [[[run|]|e] s']; [|done|done].
  simpl in Hloop. lia.
Qed.

Lemma decode_reaches_the_budget_witness :
  match toy_run with
  | (Ret (Some run), _) =>
      Z.of_nat (length (sd_generated_tokens run)) = 6 ∧
      0 ≤ sd_forward_passes run ≤ 6 ∧ 0 ≤ sd_tokens_accepted_from_candidates run ≤ 6
  | (Ret None, _) => False
  | (Raise _, _) => True
  end.
Proof.
  pose proof (@decode_reaches_the_budget unit PromptLookup (@hf_target_model toy_lm) prompt_lookup 6
    [0; 1; 2; 3; 4; 0] 6 3 ((), mkPromptLookup 3 1) ltac:(lia)) as Hw. exact Hw.
Defined.

(** What the n-gram search proposes: when some suffix of the tail of an admissible size occurs in the buffer at
    a start the ceiling allows, the tokens returned are those following the latest such occurrence of the longest
    such suffix; when none does, nothing is proposed. *)
Theorem find_ngram_continuation_longest_latest (tail haystack : list Z) (k max_size min_size : Z)
    (max_start : option Z) :
  1 ≤ min_size →
  let occurs n start := min_size ≤ n ≤ Z.min max_size (Z.of_nat (length tail)) ∧
    0 ≤ start ≤ search_ceiling haystack max_start - n ∧
    py_slice start (start + n) haystack = last_slice n tail in
  (∃ n start, occurs n start ∧
     (∀ n' start', occurs n' start' → n' < n ∨ n' = n ∧ start' ≤ start) ∧
     find_ngram_continuation tail haystack k max_size min_size max_start =
       py_slice (start + n) (start + n + k) haystack) ∨
  (∀ n start, ¬ occurs n start) ∧ find_ngram_continuation tail haystack k max_size min_size max_start = [].
Proof.
  intros Hmin occurs. destruct (decide (tail = [] ∨ haystack = [])) as [Hempty|Hnonempty].
  { right. unfold occurs, search_ceiling. destruct Hempty as [-> | ->]; [|split; [|by destruct tail]]; [split; [|done]|].
    - intros n start (Hn & _). simpl in Hn. lia.
    - intros n start (Hn & Hs & _). destruct max_start; simpl in Hs; lia. }
  set (inner n := first_some (match_at (last_slice n tail) haystack n k)
    (range_down (search_ceiling haystack max_start - n) 0)).
  set (hits := range_down (Z.min max_size (Z.of_nat (length tail))) min_size).
  assert (Hfind : find_ngram_continuation tail haystack k max_size min_size max_start = default [] (first_some inner hits))
    by (destruct tail, haystack; try done; exfalso; auto).
  assert (Hmatch : ∀ n start y, match_at (last_slice n tail) haystack n k start = y →
    match y with
    | Some c => py_slice start (start + n) haystack = last_slice n tail ∧ c = py_slice (start + n) (start + n + k) haystack
    | None => py_slice start (start + n) haystack ≠ last_slice n tail
    end).
  { intros n start y <-. unfold match_at. by destruct (decide _). }
  rewrite Hfind. destruct (first_some inner hits) as [c|] eqn:Hsome.
  - left. apply first_some_down in Hsome as (n & Hn & Hinner & Hlonger).
    apply first_some_down in Hinner as (start & Hstart & [Hocc ->]%Hmatch & Hlater).
    exists n, start. split; [done|]. split; [|done]. intros n' start' (Hn' & Hs' & Ho').
    destruct (Z.lt_trichotomy n' n) as [|[->|Hgt]]; [by left| |].
    + right. split; [done|]. destruct (Z.le_gt_cases start' start); [done|].
      specialize (Hlater start' ltac:(lia)). by apply Hmatch in Hlater.
    + specialize (Hlonger n' ltac:(lia)). apply first_some_None with (x := start') in Hlonger.
      * by apply Hmatch in Hlonger.
      * apply elem_of_range_down. lia.
  - right. split; [|done]. intros n start (Hn & Hs & Ho).
    apply first_some_None with (x := n) in Hsome; [|apply elem_of_range_down; lia].
    apply first_some_None with (x := start) in Hsome; [|apply elem_of_range_down; lia]. by apply Hmatch in Hsome.
Qed.

Lemma find_ngram_continuation_longest_latest_witness :
  let tail := [9; 3; 4] in let haystack := [3; 4; 99; 3; 4; 100; 101] in
  let occurs n start := 1 ≤ n ≤ Z.min 3 (Z.of_nat (length tail)) ∧
    0 ≤ start ≤ search_ceiling haystack None - n ∧
    py_slice start (start + n) haystack = last_slice n tail in
  (∃ n start, occurs n start ∧
     (∀ n' start', occurs n' start' → n' < n ∨ n' = n ∧ start' ≤ start) ∧
     find_ngram_continuation tail haystack 2 3 1 None = py_slice (start + n) (start + n + 2) haystack) ∨
  (∀ n start, ¬ occurs n start) ∧ find_ngram_continuation tail haystack 2 3 1 None = [].
Proof.
  intros tail haystack.
  pose proof (find_ngram_continuation_longest_latest tail haystack 2 3 1 None ltac:(lia)) as Hw.
  exact Hw.
Defined.
