(* ===== verification/BatchScheduling.v ===== *)
(** * Batch scheduling

    cag/infrastructure/fifo_batch_scheduler.py and
    prefix_aware_batch_scheduler.py behind the port [BatchScheduler] of
    cag/domain/ports.py, and the prefill accounting of
    cag/domain/batching_metrics.py that compares them. *)

From Stdlib Require Import ZArith Lia.
From S2P Require Import Prelude PySeq.

Record BatchRequest : Type := mkRequest { br_request_id : string; br_tokens : list Z }.

#[export] Instance batch_request_eq_dec : EqDecision BatchRequest.
Proof. solve_decision. Defined.

Definition msg_max_batch_size : exn := ValueError "max_batch_size must be at least 1".
Definition msg_block_size : exn := ValueError "block_size must be at least 1".
Definition msg_grouping_blocks : exn := ValueError "grouping_blocks must be at least 1".

Class BatchScheduler (S : Type) : Type :=
  form_batches : S → list BatchRequest → Z → res (list (list BatchRequest)).

(** [[l[start : start + size] for start in range(0, len(l), size)]]. *)
Definition slices_of {A} (size : Z) (l : list A) : list (list A) :=
  map (λ start, py_slice start (start + size) l) (range_step (Z.of_nat (length l)) size).

(** ** FIFOBatchScheduler *)

Inductive FIFOBatchScheduler : Type := mkFIFO.

Definition FIFO_form_batches (_ : FIFOBatchScheduler) (pending : list BatchRequest) (max_batch_size : Z) :
  res (list (list BatchRequest)) :=
  if max_batch_size <? 1 then Raise msg_max_batch_size else Ret (slices_of max_batch_size pending).

#[export] Instance fifo_scheduler : BatchScheduler FIFOBatchScheduler := FIFO_form_batches.

(** ** PrefixAwareBatchScheduler *)

Record PrefixAwareBatchScheduler : Type := mkPrefixAware { pa_block_size : Z; pa_grouping_blocks : Z }.

Definition PrefixAware_init (block_size grouping_blocks : Z) : res PrefixAwareBatchScheduler :=
  if block_size <? 1 then Raise msg_block_size
  else if grouping_blocks <? 1 then Raise msg_grouping_blocks
  else Ret (mkPrefixAware block_size grouping_blocks).

Definition _signature (s : PrefixAwareBatchScheduler) (request : BatchRequest) : list Z :=
  let usable_blocks :=
    Z.min (Z.of_nat (length (br_tokens request)) / pa_block_size s) (pa_grouping_blocks s) in
  py_slice 0 (usable_blocks * pa_block_size s) (br_tokens request).

(** The loop of [setdefault(...).append(...)]: a dict keeps its insertion order. *)
Definition group_by_signature (s : PrefixAwareBatchScheduler) (pending : list BatchRequest) :
  list (list Z * list BatchRequest) :=
  foldl (λ groups request,
    let sig := _signature s request in
    od_set sig (default [] (od_get sig groups) ++ [request]) groups) [] pending.

Definition PrefixAware_form_batches (s : PrefixAwareBatchScheduler) (pending : list BatchRequest)
    (max_batch_size : Z) : res (list (list BatchRequest)) :=
  if max_batch_size <? 1 then Raise msg_max_batch_size
  else
    let groups := group_by_signature s pending in
    let signatures := sort_by (λ a b, (length b <=? length a)%nat) (od_keys groups) in
    Ret (concat (map (λ sig, slices_of max_batch_size (default [] (od_get sig groups))) signatures)).

#[export] Instance prefix_aware_scheduler : BatchScheduler PrefixAwareBatchScheduler := PrefixAware_form_batches.

(** ** batching_metrics.py *)

(** [len({sequence[i] for sequence in sequences}) == 1]. *)
Definition all_agree (sequences : list (list Z)) (i : nat) : bool :=
  (length (remove_dups (omap (.!! i) sequences)) =? 1)%nat.

(** The while loop, from [matched] with [fuel] positions left. *)
Fixpoint match_loop (sequences : list (list Z)) (fuel matched : nat) : nat :=
  match fuel with
  | O => matched
  | S fuel => if all_agree sequences matched then match_loop sequences fuel (S matched) else matched
  end.

Definition shortest_of (sequences : list (list Z)) : nat :=
  match map length sequences with [] => O | n :: ns => foldl Nat.min n ns end.

Definition longest_common_block_prefix (sequences : list (list Z)) (block_size : Z) : res Z :=
  if block_size <? 1 then Raise msg_block_size
  else match sequences with
  | [] => Ret 0
  | _ => Ret (Z.of_nat (match_loop sequences (shortest_of sequences) 0) / block_size * block_size)
  end.

Definition batch_cost (batch : list (list Z)) (block_size : Z) : res Z :=
  match batch with
  | [] => Ret 0
  | _ =>
      shared ← longest_common_block_prefix batch block_size;
      Ret (shared + zsum (map (λ sequence, Z.of_nat (length sequence) - shared) batch))
  end.

Definition prefill_tokens_required (batches : list (list (list Z))) (block_size : Z) : res Z :=
  if block_size <? 1 then Raise msg_block_size
  else
    costs ← res_mapM (λ batch, batch_cost batch block_size) batches;
    Ret (zsum costs).

Definition unbatched_prefill_tokens (sequences : list (list Z)) : Z :=
  zsum (map (λ sequence, Z.of_nat (length sequence)) sequences).

(** Two prefixes interleaved by arrival order. *)
Definition interleaved : list BatchRequest :=
  [mkRequest "a1" [1; 1; 9]; mkRequest "b1" [2; 2; 8]; mkRequest "a2" [1; 1; 7]; mkRequest "b2" [2; 2]].

Example fifo_scatters :
  FIFO_form_batches mkFIFO interleaved 2 =
    Ret [[mkRequest "a1" [1; 1; 9]; mkRequest "b1" [2; 2; 8]]; [mkRequest "a2" [1; 1; 7]; mkRequest "b2" [2; 2]]].
Proof. vm_compute. reflexivity. Qed.
Example prefix_aware_groups :
  PrefixAware_form_batches (mkPrefixAware 2 1) interleaved 2 =
    Ret [[mkRequest "a1" [1; 1; 9]; mkRequest "a2" [1; 1; 7]]; [mkRequest "b1" [2; 2; 8]; mkRequest "b2" [2; 2]]].
Proof. vm_compute. reflexivity. Qed.
Example prefill_saved :
  prefill_tokens_required [[[1; 1; 9]; [1; 1; 7]]; [[2; 2; 8]; [2; 2]]] 2 = Ret 7.
Proof. vm_compute. reflexivity. Qed.

(** ** Slicing a list into batches *)

Section slices.
Context {A : Type} (size : Z) (Hsize : 1 ≤ size).
Implicit Types l : list A.

Lemma slices_of_nil : slices_of size (@nil A) = [].
Proof. unfold slices_of, range_step. simpl. rewrite seqZ_nil; [done|]. apply Zlt_succ_le, Z.div_lt_upper_bound; lia. Qed.

Lemma py_slice_shift l start : 0 ≤ start →
  py_slice (start + size) (start + size + size) l = py_slice start (start + size) (drop (Z.to_nat size) l).
Proof.
  intros Hs. unfold py_slice, clamp. rewrite drop_drop, length_drop.
  repeat match goal with |- context [?a <? 0] => rewrite (proj2 (Z.ltb_ge a 0)) by lia end.
  destruct (Z.le_gt_cases (start + size) (Z.of_nat (length l))).
  - f_equal; [|f_equal]; lia.
  - rewrite !drop_ge by lia. by rewrite !take_nil.
Qed.

Lemma slices_of_cons l : l ≠ [] →
  slices_of size l = take (Z.to_nat size) l :: slices_of size (drop (Z.to_nat size) l).
Proof.
  intros Hl. assert (0 < length l)%nat by (destruct l; [done|simpl; lia]). unfold slices_of, range_step.
  set (n := Z.of_nat (length l)). rewrite length_drop.
  assert (Hn : (n + size - 1) / size = Z.succ ((n - size + size - 1) / size)).
  { replace (n + size - 1) with (n - size + size - 1 + 1 * size) by lia. rewrite Z.div_add by lia. lia. }
  assert (0 ≤ (n - size + size - 1) / size) by (apply Z.div_pos; lia).
  rewrite Hn, seqZ_cons by lia. rewrite Z.pred_succ. cbn [map]. f_equal.
  { unfold py_slice, clamp. rewrite Z.mul_0_l, Z.add_0_l. cbn [Z.ltb Z.compare]. rewrite (proj2 (Z.ltb_ge size 0)) by lia.
    replace (Z.min 0 (Z.of_nat (length l))) with 0 by lia. rewrite drop_0.
    destruct (Z.le_gt_cases size (Z.of_nat (length l))); [f_equal; lia|]. by rewrite !take_ge by lia. }
  rewrite !map_map. rewrite <- (fmap_add_seqZ 1 0). change (map ?f ?x) with (f <$> x). rewrite <- list_fmap_compose.
  assert (Hlen : (n - size + size - 1) / size = (Z.of_nat (length l - Z.to_nat size) + size - 1) / size).
  { destruct (Z.le_gt_cases size n); [do 2 f_equal; lia|].
    rewrite !Z.div_small by lia. done. }
  rewrite Hlen. apply list_fmap_ext. intros i k Hk%list_elem_of_lookup_2%elem_of_seqZ. simpl.
  replace ((1 + k) * size) with (k * size + size) by lia. apply py_slice_shift. lia.
Qed.

Lemma slices_ind (P : list A → Prop) : P [] → (∀ l, l ≠ [] → P (drop (Z.to_nat size) l) → P l) → ∀ l, P l.
Proof.
  intros Hnil Hcons l. remember (length l) as n eqn:Hn. revert l Hn. induction n as [n IH] using lt_wf_ind.
  intros l ->. destruct (decide (l = [])) as [->|Hl]; [done|]. apply Hcons; [done|].
  assert (0 < length l)%nat by (destruct l; [done|simpl; lia]).
  apply (IH (length (drop (Z.to_nat size) l))); [rewrite length_drop; lia|done].
Qed.

Lemma slices_of_concat l : concat (slices_of size l) = l.
Proof.
  induction l as [|l Hl IH] using slices_ind; [by rewrite slices_of_nil|].
  rewrite slices_of_cons by done. simpl. by rewrite IH, take_drop.
Qed.

Lemma slices_of_bounds l : Forall (λ b, b ≠ [] ∧ Z.of_nat (length b) ≤ size) (slices_of size l).
Proof.
  induction l as [|l Hl IH] using slices_ind; [by rewrite slices_of_nil|].
  rewrite slices_of_cons by done. constructor; [|done]. rewrite length_take. split; [|lia].
  destruct l; [done|]. replace (Z.to_nat size) with (S (Z.to_nat (size - 1))) by lia. done.
Qed.

Lemma slices_of_sublist l : Forall (λ b, b `sublist_of` l) (slices_of size l).
Proof.
  induction l as [|l Hl IH] using slices_ind; [by rewrite slices_of_nil|].
  rewrite slices_of_cons by done. constructor; [apply sublist_take|].
  eapply Forall_impl; [exact IH|]. intros b Hb. etransitivity; [exact Hb|apply sublist_drop].
Qed.

(** As few batches as the bound allows. *)
Lemma slices_of_length l : Z.of_nat (length (slices_of size l)) = (Z.of_nat (length l) + size - 1) / size.
Proof.
  unfold slices_of, range_step. rewrite 2 length_map, length_seqZ. rewrite Z2Nat.id; [done|].
  apply Z.div_pos; lia.
Qed.
End slices.

(** ** Grouping by signature *)

(** Splitting a list by a key and putting the parts side by side keeps every element. *)
Lemma split_by_key_perm {A K} `{EqDecision K} (key : A → K) (ks : list K) (l : list A) :
  NoDup ks → (∀ x, x ∈ l → key x ∈ ks) → concat (map (λ k, filter (λ x, key x = k) l) ks) ≡ₚ l.
Proof.
  revert l. induction ks as [|k ks IH]; intros l Hnd Hall.
  - destruct l as [|x l]; [done|]. specialize (Hall x ltac:(by left)). by apply not_elem_of_nil in Hall.
  - apply NoDup_cons in Hnd as [Hk Hnd]. simpl.
    rewrite <- (filter_app_complement (λ x, key x = k) l) at 2. f_equiv.
    rewrite <- (IH (filter (λ x, key x ≠ k) l)); [|done|].
    + apply reflexive_eq. f_equal. apply map_ext_in. intros k' Hk'%list_elem_of_In.
      rewrite list_filter_filter. apply list_filter_in. intros x _. set_solver.
    + intros x [Hne Hx]%list_elem_of_filter. specialize (Hall x Hx). by apply elem_of_cons in Hall as [].
Qed.

Section groups.
Context (s : PrefixAwareBatchScheduler).
Implicit Types l : list BatchRequest.

(** The requests a signature's group collects, in arrival order. *)
Definition sharing (sig : list Z) (l : list BatchRequest) : list BatchRequest :=
  filter (λ r, _signature s r = sig) l.

Lemma group_by_signature_snoc l r : group_by_signature s (l ++ [r]) =
  let sig := _signature s r in let d := group_by_signature s l in
  od_set sig (default [] (od_get sig d) ++ [r]) d.
Proof. unfold group_by_signature. by rewrite foldl_app. Qed.

Lemma group_by_signature_spec l :
  NoDup (od_keys (group_by_signature s l)) ∧
  (∀ r, r ∈ l → _signature s r ∈ od_keys (group_by_signature s l)) ∧
  (∀ sig, default [] (od_get sig (group_by_signature s l)) = sharing sig l).
Proof.
  induction l as [|r l (Hnd & Hkeys & Hget)] using rev_ind.
  { split; [constructor|]. split; [intros r Hr; by apply not_elem_of_nil in Hr|done]. }
  rewrite group_by_signature_snoc. cbv zeta. split; [by apply od_set_nodup|]. split.
  - intros r' Hr'. rewrite od_keys_set. apply elem_of_app in Hr' as [Hr'|Heq%list_elem_of_singleton].
    + specialize (Hkeys r' Hr'). case_decide; set_solver.
    + subst r'. case_decide; set_solver.
  - intros sig. rewrite od_get_set. unfold sharing. rewrite filter_app. fold (sharing sig l).
    rewrite filter_cons, filter_nil. destruct (decide (_signature s r = sig)) as [<-|]; simpl.
    + by rewrite <- Hget.
    + by rewrite app_nil_r, Hget.
Qed.

(** The batches of the signatures, longest first. *)
Definition sorted_signatures (l : list BatchRequest) : list (list Z) :=
  sort_by (λ a b, (length b <=? length a)%nat) (od_keys (group_by_signature s l)).

Lemma PrefixAware_form_batches_eq pending max_batch_size : 1 ≤ max_batch_size →
  PrefixAware_form_batches s pending max_batch_size =
    Ret (concat (map (λ sig, slices_of max_batch_size (sharing sig pending)) (sorted_signatures pending))).
Proof.
  intros Hmax. unfold PrefixAware_form_batches. rewrite (proj2 (Z.ltb_ge _ _)) by done. do 2 f_equal.
  apply map_ext. intros sig. by rewrite (proj2 (proj2 (group_by_signature_spec pending))).
Qed.

Lemma sharing_partition l : concat (map (λ sig, sharing sig l) (sorted_signatures l)) ≡ₚ l.
Proof.
  destruct (group_by_signature_spec l) as (Hnd & Hkeys & _). apply split_by_key_perm.
  - unfold sorted_signatures. by rewrite sort_by_perm.
  - intros r Hr. unfold sorted_signatures. rewrite elem_of_sort_by. by apply Hkeys.
Qed.

(** A signature is a prefix of every request that has it, cut at a block boundary. *)
Lemma _signature_prefix r : 1 ≤ pa_block_size s → 0 ≤ pa_grouping_blocks s →
  ∃ n, (n <= length (br_tokens r))%nat ∧ _signature s r = take n (br_tokens r) ∧ length (_signature s r) = n ∧
    Z.of_nat n = Z.min (Z.of_nat (length (br_tokens r)) / pa_block_size s) (pa_grouping_blocks s) * pa_block_size s.
Proof.
  intros Hb Hg. set (k := Z.min _ _).
  assert (0 ≤ k * pa_block_size s) by (assert (0 ≤ Z.of_nat (length (br_tokens r)) / pa_block_size s) by (apply Z.div_pos; lia); nia).
  assert (k * pa_block_size s ≤ Z.of_nat (length (br_tokens r))).
  { pose proof (Z.mul_div_le (Z.of_nat (length (br_tokens r))) (pa_block_size s)). unfold k. nia. }
  exists (Z.to_nat (k * pa_block_size s)). split; [lia|]. unfold _signature. fold k.
  unfold py_slice, clamp. cbn [Z.ltb Z.compare]. rewrite (proj2 (Z.ltb_ge (k * _) 0)) by lia.
  replace (Z.min 0 (Z.of_nat (length (br_tokens r)))) with 0 by lia. rewrite drop_0.
  replace (Z.to_nat (Z.min (k * pa_block_size s) (Z.of_nat (length (br_tokens r))) - 0))
    with (Z.to_nat (k * pa_block_size s)) by lia.
  split; [done|]. rewrite length_take. lia.
Qed.
End groups.

(** ** The scheduler contract *)

(** What the port promises: every request in exactly one batch, none empty,
    none over the bound, arrival order kept inside a batch. *)
Class BatchSchedulerLaws (S : Type) `{BatchScheduler S} : Prop := {
  fb_refuses : ∀ (s : S) pending max_batch_size, max_batch_size < 1 →
    form_batches s pending max_batch_size = Raise msg_max_batch_size;
  fb_serves : ∀ (s : S) pending max_batch_size, 1 ≤ max_batch_size →
    ∃ batches, form_batches s pending max_batch_size = Ret batches ∧ concat batches ≡ₚ pending ∧
      Forall (λ b, b ≠ [] ∧ Z.of_nat (length b) ≤ max_batch_size ∧ b `sublist_of` pending) batches
}.

Lemma slices_ok {A} size (l l' : list A) : 1 ≤ size → l `sublist_of` l' →
  Forall (λ b, b ≠ [] ∧ Z.of_nat (length b) ≤ size ∧ b `sublist_of` l') (slices_of size l).
Proof.
  intros Hsize Hl. pose proof (slices_of_bounds size Hsize l) as H1. pose proof (slices_of_sublist size Hsize l) as H2.
  rewrite !list.Forall_forall in *. intros b Hb. specialize (H1 b Hb) as [? ?]. split; [done|]. split; [done|].
  etransitivity; [by apply H2|done].
Qed.

#[export] Instance fifo_laws : BatchSchedulerLaws FIFOBatchScheduler.
Proof.
  split; intros s pending m Hm; unfold form_batches, fifo_scheduler, FIFO_form_batches.
  - by rewrite (proj2 (Z.ltb_lt _ _)).
  - rewrite (proj2 (Z.ltb_ge _ _)) by done. eexists. split; [done|]. rewrite slices_of_concat by done.
    split; [done|]. by apply slices_ok.
Qed.

Lemma filter_sublist {A} (P : A → Prop) `{∀ x, Decision (P x)} (l : list A) : filter P l `sublist_of` l.
Proof. induction l as [|x l IH]; [done|]. rewrite filter_cons. case_decide; by constructor. Qed.

#[export] Instance prefix_aware_laws : BatchSchedulerLaws PrefixAwareBatchScheduler.
Proof.
  split; intros s pending m Hm; unfold form_batches, prefix_aware_scheduler.
  - unfold PrefixAware_form_batches. by rewrite (proj2 (Z.ltb_lt _ _)).
  - rewrite PrefixAware_form_batches_eq by done. eexists. split; [done|]. split.
    + rewrite <- (sharing_partition s pending) at 2. induction (sorted_signatures s pending) as [|sig sigs IH]; [done|].
      cbn [map concat]. rewrite concat_app, slices_of_concat by done. by rewrite IH.
    + apply Forall_concat, Forall_map, list.Forall_forall. intros sig _. apply slices_ok; [done|].
      apply filter_sublist.
Qed.

(** ** The shared prefix of a batch *)

(** Every sequence starts with one sequence of [n] tokens. *)
Definition share_prefix (n : nat) (sequences : list (list Z)) : Prop :=
  ∃ p, length p = n ∧ ∀ q, q ∈ sequences → p `prefix_of` q.

Lemma singleton_set {A} `{EqDecision A} (l : list A) :
  length (remove_dups l) = 1%nat ↔ ∃ x, x ∈ l ∧ ∀ y, y ∈ l → y = x.
Proof.
  split.
  - destruct (remove_dups l) as [|x [|y m]] eqn:Hr; try done. intros _. exists x. split.
    + rewrite <- elem_of_remove_dups, Hr. by left.
    + intros y. rewrite <- elem_of_remove_dups, Hr. by intros Hy%list_elem_of_singleton.
  - intros (x & Hx & Hall). assert (Hp : remove_dups l ≡ₚ [x]).
    { apply NoDup_Permutation; [apply NoDup_remove_dups|apply NoDup_singleton|]. intros y.
      rewrite elem_of_remove_dups, list_elem_of_singleton. split; [apply Hall|by intros ->]. }
    by rewrite Hp.
Qed.

Lemma all_agree_spec sequences i q0 :
  q0 ∈ sequences → (∀ q, q ∈ sequences → (i < length q)%nat) →
  all_agree sequences i = true ↔ ∀ q, q ∈ sequences → q !! i = q0 !! i.
Proof.
  intros Hq0 Hlen. unfold all_agree. rewrite Nat.eqb_eq, singleton_set. setoid_rewrite list_elem_of_omap. split.
  - intros (t & _ & Hall) q Hq. destruct (lookup_lt_is_Some_2 q i (Hlen q Hq)) as [u Hu].
    destruct (lookup_lt_is_Some_2 q0 i (Hlen q0 Hq0)) as [u0 Hu0]. rewrite Hu, Hu0. f_equal.
    transitivity t; [|symmetry]; apply Hall; eauto.
  - intros Hall. destruct (lookup_lt_is_Some_2 q0 i (Hlen q0 Hq0)) as [t Ht]. exists t. split; [eauto|].
    intros y (q & Hq & Hy). rewrite (Hall q Hq) in Hy. congruence.
Qed.

Lemma match_loop_spec sequences fuel m :
  let m' := match_loop sequences fuel m in
  (m <= m' <= m + fuel)%nat ∧ (∀ i, (m <= i < m')%nat → all_agree sequences i = true) ∧
  (m' = (m + fuel)%nat ∨ all_agree sequences m' = false).
Proof.
  revert m. induction fuel as [|fuel IH]; intros m; simpl; [split; [lia|]; split; [lia|left; lia]|].
  destruct (all_agree sequences m) eqn:Hm; [|split; [lia|]; split; [lia|by right]].
  destruct (IH (S m)) as (Hle & Hall & Hend). split; [lia|]. split.
  - intros i Hi. destruct (decide (i = m)) as [->|]; [done|]. apply Hall. lia.
  - destruct Hend; [left; lia|by right].
Qed.

Lemma shortest_of_spec sequences : sequences ≠ [] →
  (∀ q, q ∈ sequences → (shortest_of sequences <= length q)%nat) ∧
  ∃ q, q ∈ sequences ∧ length q = shortest_of sequences.
Proof.
  destruct sequences as [|q0 qs]; [done|]. intros _. unfold shortest_of. cbn [map].
  induction qs as [|q qs IH] using rev_ind.
  { simpl. split; [intros q ->%list_elem_of_singleton; done|]. exists q0. split; [by left|done]. }
  rewrite map_app, foldl_app. simpl. destruct IH as (Hle & q1 & Hq1 & Heq). split.
  - intros q' Hq'. rewrite app_comm_cons in Hq'. apply elem_of_app in Hq' as [Hq'|Hq'%list_elem_of_singleton].
    + specialize (Hle q' Hq'). lia.
    + subst q'. lia.
  - destruct (Nat.min_spec (foldl Nat.min (length q0) (map length qs)) (length q)) as [[_ ->]|[_ ->]].
    + exists q1. split; [set_solver|done].
    + exists q. split; [set_solver|done].
Qed.

(** The loop stops at the longest common prefix. *)
Lemma match_loop_longest sequences n : sequences ≠ [] →
  share_prefix n sequences ↔ (n <= match_loop sequences (shortest_of sequences) 0)%nat.
Proof.
  intros Hne. destruct (shortest_of_spec sequences Hne) as (Hshort & qs & Hqs & Hlen).
  pose proof (match_loop_spec sequences (shortest_of sequences) 0) as (Hle & Hall & Hend).
  set (m := match_loop _ _ _) in *. split.
  - intros (p & Hp & Hpre). destruct (le_lt_dec n m) as [|Hlt]; [done|exfalso].
    assert (Hnq : ∀ q, q ∈ sequences → (n <= length q)%nat) by (intros q Hq; rewrite <- Hp; by apply prefix_length, Hpre).
    assert (all_agree sequences m = true) as Hm.
    { apply (all_agree_spec sequences m qs Hqs); [intros q Hq; specialize (Hnq q Hq); lia|].
      intros q Hq. destruct (lookup_lt_is_Some_2 p m ltac:(lia)) as [t Ht].
      by rewrite (prefix_lookup_Some _ _ _ _ Ht (Hpre q Hq)), (prefix_lookup_Some _ _ _ _ Ht (Hpre qs Hqs)). }
    destruct Hend as [Hend|]; [|congruence]. specialize (Hnq qs Hqs). lia.
  - intros Hn. exists (take n qs). rewrite length_take. split; [lia|]. intros q Hq. exists (drop n q).
    rewrite <- (take_drop n q) at 1. f_equal. apply list_eq. intros i. destruct (le_lt_dec n i) as [Hi|Hi].
    + by rewrite !lookup_take_ge by lia.
    + rewrite !lookup_take_lt by lia.
      assert (Hin : (0 <= i < m)%nat) by lia. pose proof (Hall i Hin) as Ha.
      rewrite (all_agree_spec sequences i qs Hqs) in Ha; [by rewrite (Ha q Hq)|].
      intros q' Hq'. specialize (Hshort q' Hq'). lia.
Qed.

Lemma share_prefix_le n m sequences : (m <= n)%nat → share_prefix n sequences → share_prefix m sequences.
Proof.
  intros Hle (p & Hp & Hpre). exists (take m p). rewrite length_take. split; [lia|]. intros q Hq.
  etransitivity; [apply prefix_take|by apply Hpre].
Qed.

(** [longest_common_block_prefix] on the arguments that do not raise. *)
Lemma longest_common_block_prefix_exact sequences block_size : 1 ≤ block_size → sequences ≠ [] →
  ∃ k, 0 ≤ k ∧ longest_common_block_prefix sequences block_size = Ret (k * block_size) ∧
    ∀ j, share_prefix (Z.to_nat (j * block_size)) sequences ↔ j ≤ k.
Proof.
  intros Hb Hne. unfold longest_common_block_prefix. rewrite (proj2 (Z.ltb_ge _ _)) by done.
  set (m := match_loop sequences (shortest_of sequences) 0).
  exists (Z.of_nat m / block_size). split; [apply Z.div_pos; lia|]. split; [by destruct sequences|].
  intros j. rewrite match_loop_longest by done. fold m.
  pose proof (Z.mul_div_le (Z.of_nat m) block_size ltac:(lia)).
  pose proof (Z.mul_succ_div_gt (Z.of_nat m) block_size ltac:(lia)). split; intros Hj; [|nia].
  destruct (Z.le_gt_cases j (Z.of_nat m / block_size)); [done|exfalso].
  assert (Z.of_nat m < j * block_size) by nia. lia.
Qed.

(** ** What batching saves *)

(** Tokens a batch does not compute again. *)
Definition saved_by (shared : Z) (batch : list (list Z)) : Z := (Z.of_nat (length batch) - 1) * shared.

Lemma unbatched_app l1 l2 : unbatched_prefill_tokens (l1 ++ l2) = unbatched_prefill_tokens l1 + unbatched_prefill_tokens l2.
Proof. unfold unbatched_prefill_tokens. by rewrite map_app, zsum_app. Qed.

Lemma shared_sum shared batch :
  zsum (map (λ q, Z.of_nat (length q) - shared) batch) =
  unbatched_prefill_tokens batch - Z.of_nat (length batch) * shared.
Proof. unfold unbatched_prefill_tokens. induction batch as [|q qs IH]; simpl in *; unfold zsum in *; simpl in *; lia. Qed.

Lemma batch_cost_exact batch block_size : 1 ≤ block_size → batch ≠ [] →
  ∃ k, 0 ≤ k ∧ batch_cost batch block_size = Ret (unbatched_prefill_tokens batch - saved_by (k * block_size) batch) ∧
    ∀ j, share_prefix (Z.to_nat (j * block_size)) batch ↔ j ≤ k.
Proof.
  intros Hb Hne. destruct (longest_common_block_prefix_exact batch block_size Hb Hne) as (k & Hk & Heq & Hmax).
  exists k. split; [done|]. split; [|done]. unfold batch_cost. destruct batch as [|q qs]; [done|].
  rewrite Heq. cbn [mbind res_bind]. rewrite shared_sum. f_equal. unfold saved_by. lia.
Qed.

(** A batch pays for its tokens less the shared blocks of every member but one. *)
Lemma prefill_tokens_required_exact batches block_size : 1 ≤ block_size → Forall (λ b, b ≠ []) batches →
  ∃ ks, length ks = length batches ∧
    prefill_tokens_required batches block_size =
      Ret (unbatched_prefill_tokens (concat batches) - zsum (zip_with (λ k b, saved_by (k * block_size) b) ks batches)) ∧
    Forall2 (λ k b, 0 ≤ k ∧ ∀ j, share_prefix (Z.to_nat (j * block_size)) b ↔ j ≤ k) ks batches.
Proof.
  intros Hb Hall. unfold prefill_tokens_required. rewrite (proj2 (Z.ltb_ge _ _)) by done.
  induction Hall as [|b bs Hne _ (ks & Hlen & Heq & Hks)].
  - exists []. split; [done|]. split; [done|constructor].
  - destruct (batch_cost_exact b block_size Hb Hne) as (k & Hk & Hcost & Hmax).
    exists (k :: ks). split; [simpl; lia|]. split; [|by constructor].
    cbn [res_mapM concat zip_with]. rewrite Hcost. cbn [mbind res_bind].
    destruct (res_mapM _ bs) as [costs|e]; [|done]. cbn [mbind res_bind] in *. injection Heq as Heq.
    unfold zsum in *. cbn [foldr]. rewrite unbatched_app. f_equal. lia.
Qed.

Section savings.
Context (s : PrefixAwareBatchScheduler) (Hb : 1 ≤ pa_block_size s) (Hg : 1 ≤ pa_grouping_blocks s).

(** The signature of a batch: its first request's. *)
Definition sig_of (batch : list BatchRequest) : list Z :=
  match batch with [] => [] | r :: _ => _signature s r end.

Definition one_signature (batch : list BatchRequest) : Prop := ∀ r, r ∈ batch → _signature s r = sig_of batch.

(** The batches cut from one signature's group. *)
Lemma group_batches pending max sig : 1 ≤ max →
  Forall (λ b, b ≠ [] ∧ sig_of b = sig ∧ one_signature b) (slices_of max (sharing s sig pending)).
Proof.
  intros Hm. assert (Hsub : sharing s sig pending `sublist_of` sharing s sig pending) by done.
  pose proof (slices_ok max _ _ Hm Hsub) as Hok. eapply Forall_impl; [exact Hok|]. intros b (Hne & _ & Hin).
  assert (Hsig : ∀ r, r ∈ b → _signature s r = sig).
  { intros r Hr. assert (r ∈ sharing s sig pending) as [Hr' _]%list_elem_of_filter; [|done].
    by apply (sublist_subseteq _ _ Hin). }
  assert (Hsb : sig_of b = sig) by (destruct b; [done|apply Hsig; by left]).
  split; [done|]. split; [done|]. intros r Hr. rewrite Hsb. by apply Hsig.
Qed.

Lemma StronglySorted_concat {A} (R : A → A → Prop) (f : list Z → list A) (rel : list Z → list Z → Prop) sigs :
  StronglySorted rel sigs → (∀ a b x y, rel a b → x ∈ f a → y ∈ f b → R x y) →
  (∀ a x y, x ∈ f a → y ∈ f a → R x y) → StronglySorted R (concat (map f sigs)).
Proof.
  intros Hs Hcross Hin. induction Hs as [|a l _ IH Hall]; [constructor|]. cbn [map concat].
  assert (Hrest : ∀ x y, x ∈ f a → y ∈ concat (map f l) → R x y).
  { intros x y Hx Hy. apply list_elem_of_In, in_concat in Hy as (ys & Hys & Hy).
    apply list_elem_of_In in Hy. apply in_map_iff in Hys as (b & <- & Hb'). apply list_elem_of_In in Hb'.
    rewrite list.Forall_forall in Hall. eauto. }
  assert (Hsub : ∀ x, x ∈ f a → x ∈ f a) by done. revert Hsub. generalize (f a) at 1 3.
  intros l'. induction l' as [|x l' IHl']; intros Hsub; [done|]. simpl. constructor.
  - apply IHl'. intros y Hy. apply Hsub. by right.
  - apply list.Forall_forall. intros y [Hy|Hy]%elem_of_app.
    + apply (Hin a); apply Hsub; [by left|by right].
    + apply Hrest; [apply Hsub; by left|done].
Qed.

Lemma batch_shares_signature b : one_signature b → b ≠ [] →
  ∃ j, 0 ≤ j ∧ Z.of_nat (length (sig_of b)) = j * pa_block_size s ∧
    share_prefix (Z.to_nat (j * pa_block_size s)) (map br_tokens b).
Proof.
  intros Hone Hne. destruct b as [|r0 b]; [done|].
  destruct (_signature_prefix s r0 Hb ltac:(lia)) as (n & Hn & Htake & Hlen & Hz).
  eexists. cbn [sig_of]. rewrite Hlen. split; [|split; [exact Hz|]].
  { apply Z.min_glb; [apply Z.div_pos; lia|lia]. }
  rewrite <- Hz, Nat2Z.id. exists (_signature s r0). split; [done|].
  intros q Hq. apply list_elem_of_In, in_map_iff in Hq as (r & <- & Hr). apply list_elem_of_In in Hr.
  specialize (Hone r Hr). cbn [sig_of] in Hone. rewrite <- Hone.
  destruct (_signature_prefix s r Hb ltac:(lia)) as (m & _ & -> & _). apply prefix_take.
Qed.

(** What a batching saves at least: the signature, once per member but one. *)
Lemma savings_at_least batches : Forall (λ b, b ≠ [] ∧ one_signature b) batches →
  ∃ cost, prefill_tokens_required (map (map br_tokens) batches) (pa_block_size s) = Ret cost ∧
    cost + zsum (map (λ b, saved_by (Z.of_nat (length (sig_of b))) (map br_tokens b)) batches) ≤
      unbatched_prefill_tokens (map br_tokens (concat batches)).
Proof.
  intros Hall. destruct (prefill_tokens_required_exact (map (map br_tokens) batches) (pa_block_size s)) as (ks & _ & Heq & Hks);
    [done|apply Forall_map; eapply Forall_impl; [exact Hall|]; intros [|] []; done|].
  eexists. split; [exact Heq|]. rewrite <- concat_map. clear Heq.
  assert (Hle : zsum (map (λ b, saved_by (Z.of_nat (length (sig_of b))) (map br_tokens b)) batches) ≤
    zsum (zip_with (λ k b, saved_by (k * pa_block_size s) b) ks (map (map br_tokens) batches))); [|lia].
  revert ks Hks. induction Hall as [|b bs [Hne Hone] _ IH]; intros ks Hks; inversion Hks as [|k ? ks' ? [Hk Hmax] Hks']; subst; [done|].
  cbn [map zip_with]. unfold zsum in *. cbn [foldr]. specialize (IH ks' Hks').
  destruct (batch_shares_signature b Hone Hne) as (j & Hj & -> & Hshare). apply Hmax in Hshare.
  assert (saved_by (j * pa_block_size s) (map br_tokens b) ≤ saved_by (k * pa_block_size s) (map br_tokens b)); [|by apply Z.add_le_mono].
  unfold saved_by. rewrite length_map. assert (0 < length b)%nat by (destruct b; [done|simpl; lia]).
  apply Z.mul_le_mono_nonneg_l; [lia|]. apply Z.mul_le_mono_nonneg_r; lia.
Qed.
End savings.

(** ** The properties *)

(** Both schedulers keep the scheduling contract, for every queue and every bound: a bound below one is refused;
    otherwise every pending request lands in exactly one batch, no batch is empty or over the bound, and inside a
    batch requests keep the order they arrived in. *)
Theorem schedulers_serve_every_request (s : PrefixAwareBatchScheduler) (pending : list BatchRequest) (max : Z) :
  Forall (λ batches : res (list (list BatchRequest)),
    match batches with
    | Ret batches => 1 ≤ max ∧ concat batches ≡ₚ pending ∧
        Forall (λ b, b ≠ [] ∧ Z.of_nat (length b) ≤ max ∧ b `sublist_of` pending) batches
    | Raise e => max < 1 ∧ e = ValueError "max_batch_size must be at least 1"
    end) [FIFO_form_batches mkFIFO pending max; PrefixAware_form_batches s pending max].
Proof.
  change (FIFO_form_batches mkFIFO) with (form_batches mkFIFO).
  change (PrefixAware_form_batches s) with (form_batches s).
  destruct (Z.le_gt_cases 1 max) as [Hm|Hm].
  - destruct (fb_serves mkFIFO pending max Hm) as (b1 & -> & H1), (fb_serves s pending max Hm) as (b2 & -> & H2).
    repeat constructor; naive_solver.
  - rewrite (fb_refuses mkFIFO pending max Hm), (fb_refuses s pending max Hm). by repeat (constructor; [by split|]).
Qed.

(** What prefix-aware batching is for: the requests of a batch all start with the same whole leading blocks, the
    batches come longest shared signature first, and the prefill the batches need is below the unbatched one by at
    least a signature for every member of a batch but one. *)
Theorem prefix_aware_saves_prefill (block_size grouping_blocks max : Z) (s : PrefixAwareBatchScheduler)
    (pending : list BatchRequest) (batches : list (list BatchRequest)) :
  PrefixAware_init block_size grouping_blocks = Ret s → PrefixAware_form_batches s pending max = Ret batches →
  Forall (one_signature s) batches ∧
  StronglySorted (λ a b, length (sig_of s b) <= length (sig_of s a))%nat batches ∧
  ∃ cost, prefill_tokens_required (map (map br_tokens) batches) block_size = Ret cost ∧
    cost + zsum (map (λ b, (Z.of_nat (length b) - 1) * Z.of_nat (length (sig_of s b))) batches) ≤
      unbatched_prefill_tokens (map br_tokens pending).
Proof.
  unfold PrefixAware_init. destruct (Z.ltb_spec block_size 1) as [|Hb]; [done|].
  destruct (Z.ltb_spec grouping_blocks 1) as [|Hg]; [done|]. intros [= <-] Hform.
  assert (Hm : 1 ≤ max) by (unfold PrefixAware_form_batches in Hform; destruct (Z.ltb_spec max 1); [done|lia]).
  set (s := mkPrefixAware block_size grouping_blocks) in *.
  rewrite PrefixAware_form_batches_eq in Hform by done. injection Hform as <-.
  assert (Hall : Forall (λ b, b ≠ [] ∧ one_signature s b)
    (concat (map (λ sig, slices_of max (sharing s sig pending)) (sorted_signatures s pending)))).
  { apply Forall_concat, Forall_map, list.Forall_forall. intros sig _.
    eapply Forall_impl; [by apply (group_batches s)|]. naive_solver. }
  split; [eapply Forall_impl; [exact Hall|]; naive_solver|]. split.
  - eapply StronglySorted_concat with (rel := λ a b, (length b <=? length a)%nat = true).
    + apply sort_by_sorted; repeat intro; rewrite ?Nat.leb_le in *; lia.
    + intros a b x y Hab%Nat.leb_le Hx Hy. pose proof (group_batches s pending max a Hm) as Ha.
      pose proof (group_batches s pending max b Hm) as Hb'. rewrite list.Forall_forall in Ha, Hb'.
      destruct (Ha x Hx) as (_ & -> & _), (Hb' y Hy) as (_ & -> & _). done.
    + intros a x y Hx Hy. pose proof (group_batches s pending max a Hm) as Ha. rewrite list.Forall_forall in Ha.
      destruct (Ha x Hx) as (_ & -> & _), (Ha y Hy) as (_ & -> & _). done.
  - destruct (savings_at_least s Hb Hg _ Hall) as (cost & Hcost & Hle). exists cost. split; [done|].
    assert (Hperm : unbatched_prefill_tokens (map br_tokens (concat (concat (map (λ sig, slices_of max (sharing s sig pending))
      (sorted_signatures s pending))))) = unbatched_prefill_tokens (map br_tokens pending)).
    { unfold unbatched_prefill_tokens. apply zsum_perm. do 2 f_equiv.
      destruct (fb_serves s pending max Hm) as (bs & Heq & Hperm & _).
      unfold form_batches, prefix_aware_scheduler in Heq. rewrite PrefixAware_form_batches_eq in Heq by done.
      by injection Heq as <-. }
    rewrite <- Hperm. etransitivity; [|exact Hle]. apply Z.eq_le_incl. do 2 f_equal. apply map_ext. intros b.
    unfold saved_by. by rewrite length_map.
Qed.

Lemma prefix_aware_saves_prefill_witness :
  let s := mkPrefixAware 2 1 in
  let batches := [[mkRequest "a1" [1; 1; 9]; mkRequest "a2" [1; 1; 7]]; [mkRequest "b1" [2; 2; 8]; mkRequest "b2" [2; 2]]] in
  Forall (one_signature s) batches ∧
  StronglySorted (λ a b, length (sig_of s b) <= length (sig_of s a))%nat batches ∧
  ∃ cost, prefill_tokens_required (map (map br_tokens) batches) 2 = Ret cost ∧
    cost + zsum (map (λ b, (Z.of_nat (length b) - 1) * Z.of_nat (length (sig_of s b))) batches) ≤
      unbatched_prefill_tokens (map br_tokens interleaved).
Proof.
  intros s batches.
  pose proof (prefix_aware_saves_prefill 2 1 2 s interleaved batches eq_refl ltac:(vm_compute; reflexivity)) as Hw.
  exact Hw.
Defined.
