(* ===== verification/Evictors.v ===== *)
(** * KV-cache eviction

    The five evictors of cag/infrastructure (h2o_evictor.py,
    snapkv_evictor.py, morphkv_evictor.py, nacl_evictor.py,
    hashevict_evictor.py) behind the ports [KVCacheEvictor],
    [RecentPatternEvictor] and [HashBasedEvictor] of cag/domain/ports.py, the
    distiller of infinipot_distiller.py, and cag/domain/eviction_metrics.py.
    The random generators of NACL and HASHEVICT are parameters. *)

From Stdlib Require Import ZArith Lia.
From S2P Require Import Prelude PyFloat IntDivision PySeq.

Record EvictionDecision : Type := mkDecision {
  ed_method : string;
  ed_keep_indices : list Z;
  ed_evicted_count : Z
}.

Class KVCacheEvictor (E : Type) : Type :=
  select_keep_indices : list f64 → Z → stm E EvictionDecision.

(** [range(a, b)]. *)
Definition py_range (a b : Z) : list Z := seqZ a (b - a).

(** [scores[i]] for an index of [range(len(scores))]. *)
Definition score_at (scores : list f64) (i : Z) : f64 := default fzero (scores !! Z.to_nat i).

(** [sorted(set)]. *)
Definition sorted_set (l : list Z) : list Z := sort_by Z.leb (remove_dups l).

Definition keep_all (method : string) (seq_len : Z) : EvictionDecision :=
  mkDecision method (py_range 0 seq_len) 0.
Definition keep_only (method : string) (seq_len : Z) (keep : list Z) : EvictionDecision :=
  mkDecision method keep (seq_len - Z.of_nat (length keep)).

Definition msg_no_scores : exn := ValueError "attention_scores must be non-empty".
Definition msg_budget : exn := ValueError "budget must be at least 1".

(** The recent window, topped up with the best of what is older. *)
Definition keep_recent_and_top (key : Z → f64) (recent_window seq_len budget : Z) : list Z :=
  let recent_start := Z.max 0 (seq_len - recent_window) in
  let recent_indices := py_range recent_start seq_len in
  if budget <=? Z.of_nat (length recent_indices) then py_range (seq_len - budget) seq_len
  else
    let heavy_hitter_budget := budget - Z.of_nat (length recent_indices) in
    let candidates := filter (λ i, i ∉ recent_indices) (py_range 0 seq_len) in
    let heavy_hitters := py_slice 0 heavy_hitter_budget (sorted_desc key candidates) in
    sorted_set (recent_indices ++ heavy_hitters).

(** ** H2O *)

Record H2OEvictor : Type := mkH2O { h2_recent_window : Z }.

Definition H2O_init (recent_window : Z) : res H2OEvictor :=
  if recent_window <? 0 then Raise (ValueError "recent_window must be non-negative") else Ret (mkH2O recent_window).

Definition H2O_select (attention_scores : list f64) (budget : Z) : stm H2OEvictor EvictionDecision := λ e,
  (match attention_scores with
   | [] => Raise msg_no_scores
   | _ =>
       if budget <? 1 then Raise msg_budget
       else
         let seq_len := Z.of_nat (length attention_scores) in
         if seq_len <=? budget then Ret (keep_all "h2o" seq_len)
         else Ret (keep_only "h2o" seq_len
                (keep_recent_and_top (score_at attention_scores) (h2_recent_window e) seq_len budget))
   end, e).

#[export] Instance h2o_evictor : KVCacheEvictor H2OEvictor := H2O_select.

(** ** SnapKV *)

Record SnapKVEvictor : Type := mkSnapKV { sn_pool_kernel_size : Z; sn_recent_window : Z }.

Definition SnapKV_init (pool_kernel_size recent_window : Z) : res SnapKVEvictor :=
  if pool_kernel_size <? 1 then Raise (ValueError "pool_kernel_size must be at least 1")
  else if recent_window <? 0 then Raise (ValueError "recent_window must be non-negative")
  else Ret (mkSnapKV pool_kernel_size recent_window).

(** [max(...)] of a window; the windows here are never empty. *)
Definition max_of (l : list f64) : f64 := match l with [] => fzero | x :: l' => py_max x l' end.

Definition _pooled (e : SnapKVEvictor) (scores : list f64) : list f64 :=
  let half := sn_pool_kernel_size e / 2 in
  let seq_len := Z.of_nat (length scores) in
  map (λ i, max_of (py_slice (Z.max 0 (i - half)) (Z.min seq_len (i + half + 1)) scores)) (py_range 0 seq_len).

Definition SnapKV_select (attention_scores : list f64) (budget : Z) : stm SnapKVEvictor EvictionDecision := λ e,
  (match attention_scores with
   | [] => Raise msg_no_scores
   | _ =>
       if budget <? 1 then Raise msg_budget
       else
         let seq_len := Z.of_nat (length attention_scores) in
         let pooled := _pooled e attention_scores in
         if seq_len <=? budget then Ret (keep_all "snapkv" seq_len)
         else Ret (keep_only "snapkv" seq_len
                (keep_recent_and_top (score_at pooled) (sn_recent_window e) seq_len budget))
   end, e).

#[export] Instance snapkv_evictor : KVCacheEvictor SnapKVEvictor := SnapKV_select.

(** ** NACL *)

(** [random.Random.sample], from the generator's state. *)
Class Random (R : Type) : Type := rng_sample : list Z → Z → stm R (list Z).

Record NACLEvictor (R : Type) : Type := mkNACL { na_random_fraction : f64; na_rng : R }.
#[global] Arguments mkNACL {_}.
#[global] Arguments na_random_fraction {_}.
#[global] Arguments na_rng {_}.

Definition NACL_init {R} (random_fraction : f64) (rng : R) : res (NACLEvictor R) :=
  if fle fzero random_fraction && fle random_fraction fone then Ret (mkNACL random_fraction rng)
  else Raise (ValueError "random_fraction must be between 0.0 and 1.0").

Definition NACL_select {R} `{Random R} (attention_scores : list f64) (budget : Z) :
  stm (NACLEvictor R) EvictionDecision := λ e,
  match attention_scores with
  | [] => (Raise msg_no_scores, e)
  | _ =>
      if budget <? 1 then (Raise msg_budget, e)
      else
        let seq_len := Z.of_nat (length attention_scores) in
        if seq_len <=? budget then (Ret (keep_all "nacl" seq_len), e)
        else
          match (b ← int_to_float budget; py_round (fmul b (na_random_fraction e))) with
          | Raise err => (Raise err, e)
          | Ret random_budget =>
              let deterministic_budget := budget - random_budget in
              let ranked := sorted_desc (score_at attention_scores) (py_range 0 seq_len) in
              let deterministic_keep := py_slice 0 deterministic_budget ranked in
              let remaining_pool := py_slice deterministic_budget seq_len ranked in
              match rng_sample remaining_pool (Z.min random_budget (Z.of_nat (length remaining_pool))) (na_rng e) with
              | (Raise err, rng') => (Raise err, mkNACL (na_random_fraction e) rng')
              | (Ret random_keep, rng') =>
                  (Ret (keep_only "nacl" seq_len (sorted_set (deterministic_keep ++ random_keep))),
                   mkNACL (na_random_fraction e) rng')
              end
          end
  end.

#[export] Instance nacl_evictor {R} `{Random R} : KVCacheEvictor (NACLEvictor R) := NACL_select.

(** ** MorphKV *)

Class RecentPatternEvictor (E : Type) : Type :=
  select_keep_recent : list (list f64) → Z → stm E EvictionDecision.

Inductive MorphKVEvictor : Type := mkMorphKV.

(** [window[i] for window in windows]. *)
Definition column (windows : list (list f64)) (i : Z) : list f64 := map (λ w, score_at w i) windows.

Definition fused_at (windows : list (list f64)) (i : Z) : f64 :=
  fadd (fsum (column windows i)) (max_of (column windows i)).

Definition MorphKV_select (recent_attention_windows : list (list f64)) (budget : Z) :
  stm MorphKVEvictor EvictionDecision := λ e,
  (match recent_attention_windows with
   | [] => Raise (ValueError "recent_attention_windows must be non-empty")
   | w0 :: _ =>
       let seq_len := Z.of_nat (length w0) in
       if seq_len =? 0 then Raise (ValueError "each attention window must be non-empty")
       else if negb (forallb (λ w, Z.of_nat (length w) =? seq_len) recent_attention_windows) then
         Raise (ValueError "every attention window must have the same length")
       else if budget <? 1 then Raise msg_budget
       else if seq_len <=? budget then Ret (keep_all "morphkv" seq_len)
       else Ret (keep_only "morphkv" seq_len
              (sort_by Z.leb (py_slice 0 budget (sorted_desc (fused_at recent_attention_windows) (py_range 0 seq_len)))))
   end, e).

#[export] Instance morphkv_evictor : RecentPatternEvictor MorphKVEvictor := MorphKV_select.

(** ** HASHEVICT *)

Class HashBasedEvictor (E : Type) : Type :=
  select_keep_hashed : list (list f64) → Z → stm E EvictionDecision.

(** [rng.gauss(0.0, 1.0)] drawn [count] times from [random.Random(seed)]. *)
Class GaussDraws : Type := gauss_draws : Z → nat → list f64.

Record HASHEVICTEvictor : Type := mkHASHEVICT { he_num_hash_bits : Z; he_random_seed : Z }.

Definition HASHEVICT_init (num_hash_bits random_seed : Z) : res HASHEVICTEvictor :=
  if num_hash_bits <? 1 then Raise (ValueError "num_hash_bits must be at least 1")
  else Ret (mkHASHEVICT num_hash_bits random_seed).

(** Rows of [dim] draws, one after the other. *)
Fixpoint rows_of (dim rows : nat) (draws : list f64) : list (list f64) :=
  match rows with O => [] | S rows => take dim draws :: rows_of dim rows (drop dim draws) end.

Definition _hyperplanes `{GaussDraws} (e : HASHEVICTEvictor) (dim : nat) : list (list f64) :=
  let bits := Z.to_nat (he_num_hash_bits e) in
  rows_of dim bits (gauss_draws (he_random_seed e) (dim * bits)).

(** [zip(vector, hyperplane, strict=True)]. *)
Definition zip_strict {A B} (l : list A) (k : list B) : res (list (A * B)) :=
  if (length l =? length k)%nat then Ret (zip l k)
  else if (length k <? length l)%nat then Raise (ValueError "zip() argument 2 is shorter than argument 1")
  else Raise (ValueError "zip() argument 2 is longer than argument 1").

Definition _bucket (vector : list f64) (hyperplanes : list (list f64)) : res (list Z) :=
  res_mapM (λ hyperplane,
    pairs ← zip_strict vector hyperplane;
    Ret (if fle fzero (fsum (map (λ p, fmul p.1 p.2) pairs)) then 1 else 0)) hyperplanes.

(** The loop over the vectors: the last index of each bucket. *)
Fixpoint last_seen (hyperplanes : list (list f64)) (index : Z) (vectors : list (list f64))
    (seen : list (list Z * Z)) : res (list (list Z * Z)) :=
  match vectors with
  | [] => Ret seen
  | v :: rest =>
      b ← _bucket v hyperplanes;
      last_seen hyperplanes (index + 1) rest (od_set b index seen)
  end.

Definition HASHEVICT_select `{GaussDraws} (kv_vectors : list (list f64)) (budget : Z) :
  stm HASHEVICTEvictor EvictionDecision := λ e,
  (match kv_vectors with
   | [] => Raise (ValueError "kv_vectors must be non-empty")
   | v0 :: _ =>
       if budget <? 1 then Raise msg_budget
       else
         let seq_len := Z.of_nat (length kv_vectors) in
         if seq_len <=? budget then Ret (keep_all "hashevict" seq_len)
         else
           seen ← last_seen (_hyperplanes e (length v0)) 0 kv_vectors [];
           let deduped := sort_by Z.leb (map snd seen) in
           Ret (keep_only "hashevict" seq_len
             (if budget <? Z.of_nat (length deduped) then last_slice budget deduped else deduped))
   end, e).

#[export] Instance hashevict_evictor `{GaussDraws} : HashBasedEvictor HASHEVICTEvictor := HASHEVICT_select.

(** ** InfiniPot *)

Class CacheDistiller (D : Type) : Type := distill : list (list f64) → Z → stm D (list (list f64)).

Inductive InfiniPotDistiller : Type := mkInfiniPot.

Definition centroid (dim : nat) (group : list (list f64)) : res (list f64) :=
  res_mapM (λ c,
    col ← res_mapM (λ row, py_index c row) group;
    n ← int_to_float (Z.of_nat (length group));
    fdiv (fsum col) n) (py_range 0 (Z.of_nat dim)).

(** The rows each of the [budget] groups takes. *)
Fixpoint groups_from (base_size remainder : Z) (group_index : Z) (groups : nat) (start : Z) (kv : list (list f64)) :
  list (list (list f64)) :=
  match groups with
  | O => []
  | S groups =>
      let group_size := base_size + (if group_index <? remainder then 1 else 0) in
      py_slice start (start + group_size) kv ::
        groups_from base_size remainder (group_index + 1) groups (start + group_size) kv
  end.

Definition InfiniPot_distill (kv : list (list f64)) (budget : Z) : stm InfiniPotDistiller (list (list f64)) := λ d,
  (match kv with
   | [] => Raise (ValueError "kv must be non-empty")
   | row0 :: _ =>
       if budget <? 1 then Raise msg_budget
       else
         let seq_len := Z.of_nat (length kv) in
         if seq_len <=? budget then Ret kv
         else
           res_mapM (centroid (length row0))
             (groups_from (seq_len / budget) (seq_len `mod` budget) 0 (Z.to_nat budget) 0 kv)
   end, d).

#[export] Instance infinipot_distiller : CacheDistiller InfiniPotDistiller := InfiniPot_distill.

(** ** eviction_metrics.py *)

Definition memory_reduction_ratio (original_token_count kept_token_count : Z) : res f64 :=
  if kept_token_count <=? 0 then Raise (ValueError "kept_token_count must be a positive number of tokens")
  else if original_token_count <? kept_token_count then
    Raise (ValueError "original_token_count must be at least kept_token_count")
  else int_true_div original_token_count kept_token_count.

(** The inner loop adds a row to the scores, which a row of another length leaves half done: it raises first. *)
Definition accumulate_attention_scores (attention_matrix : list (list f64)) : res (list f64) :=
  match attention_matrix with
  | [] => Raise (ValueError "attention_matrix must be non-empty")
  | _ =>
      let seq_len := length attention_matrix in
      foldl (λ scores query_row,
        sc ← scores;
        if (length query_row =? seq_len)%nat then Ret (zip_with fadd sc query_row)
        else Raise (ValueError "attention_matrix must be square (seq_len x seq_len)"))
        (Ret (replicate seq_len fzero)) attention_matrix
  end.

Definition retained_attention_mass (scores : list f64) (keep_indices : list Z) : res f64 :=
  match scores with
  | [] => Raise (ValueError "scores must be non-empty")
  | _ =>
      let total := fsum scores in
      if fle total fzero then Raise (ValueError "scores must sum to a positive total")
      else
        kept ← res_mapM (λ i, py_index i scores) keep_indices;
        fdiv (fsum kept) total
  end.

Example h2o_keeps_hitter_and_recent :
  (H2O_select [flit 9 1; flit 1 10; flit 5 1; flit 2 10; flit 3 10] 3 (mkH2O 2)).1 =
    Ret (mkDecision "h2o" [0; 3; 4] 2).
Proof. vm_compute. reflexivity. Qed.
Example snapkv_pools_neighbours :
  (SnapKV_select [flit 1 10; flit 9 1; flit 1 10; flit 1 10; flit 1 10; flit 1 10] 3 (mkSnapKV 3 0)).1 =
    Ret (mkDecision "snapkv" [0; 1; 2] 3).
Proof. vm_compute. reflexivity. Qed.
Example infinipot_averages :
  (InfiniPot_distill [[flit 1 1]; [flit 3 1]; [flit 5 1]] 2 mkInfiniPot).1 = Ret [[flit 2 1]; [flit 5 1]].
Proof. vm_compute. reflexivity. Qed.

(** ** Ranges and sorted index sets *)

Lemma elem_of_py_range a b x : x ∈ py_range a b ↔ a ≤ x < b.
Proof. unfold py_range. rewrite elem_of_seqZ. lia. Qed.

Lemma py_range_length a b : length (py_range a b) = Z.to_nat (b - a).
Proof. apply length_seqZ. Qed.

Lemma py_range_app a b c : a ≤ b ≤ c → py_range a c = py_range a b ++ py_range b c.
Proof.
  intros Hle. unfold py_range. replace (c - a) with ((b - a) + (c - b)) by lia.
  rewrite seqZ_app by lia. do 2 f_equal. lia.
Qed.

Lemma py_range_NoDup a b : NoDup (py_range a b).
Proof. apply NoDup_seqZ. Qed.

Lemma py_range_sorted a b : StronglySorted Z.lt (py_range a b).
Proof.
  unfold py_range. remember (Z.to_nat (b - a)) as n eqn:Hn. revert a Hn. induction n as [|n IH]; intros a Hn.
  - rewrite seqZ_nil by lia. constructor.
  - rewrite seqZ_cons by lia. replace (Z.pred (b - a)) with (b - Z.succ a) by lia. constructor; [apply IH; lia|].
    apply list.Forall_forall. intros x Hx%elem_of_seqZ. lia.
Qed.

Lemma py_slice_whole_prefix {A} k (l : list A) : 0 ≤ k → py_slice 0 k l = take (Z.to_nat k) l.
Proof.
  intros Hk. unfold py_slice, clamp. rewrite (proj2 (Z.ltb_ge k 0) Hk). cbn [Z.ltb Z.compare].
  replace (Z.min 0 (Z.of_nat (length l))) with 0 by lia. rewrite drop_0.
  destruct (Z.le_ge_cases k (Z.of_nat (length l))); [f_equal; lia|]. by rewrite !take_ge by lia.
Qed.

(** Sorting distinct integers orders them strictly. *)
Lemma sort_strict (l : list Z) : NoDup l → StronglySorted Z.lt (sort_by Z.leb l).
Proof.
  intros Hnd. assert (Hs : StronglySorted (λ a b, Z.leb a b = true) (sort_by Z.leb l))
    by (apply sort_by_sorted; repeat intro; rewrite ?Z.leb_le in *; lia).
  assert (Hnd' : NoDup (sort_by Z.leb l)) by (by rewrite sort_by_perm).
  induction Hs as [|x l' _ IH Hall]; [constructor|]. apply NoDup_cons in Hnd' as [Hx Hnd'].
  constructor; [by apply IH|]. rewrite list.Forall_forall in *. intros y Hy. specialize (Hall y Hy).
  apply Z.leb_le in Hall. destruct (decide (x = y)) as [->|]; [done|lia].
Qed.

Lemma sorted_set_strict l : StronglySorted Z.lt (sorted_set l).
Proof. apply sort_strict, NoDup_remove_dups. Qed.

Lemma elem_of_sorted_set x l : x ∈ sorted_set l ↔ x ∈ l.
Proof. unfold sorted_set. by rewrite elem_of_sort_by, elem_of_remove_dups. Qed.

Lemma remove_dups_NoDup {A} `{EqDecision A} (l : list A) : NoDup l → remove_dups l = l.
Proof.
  induction 1 as [|x l Hx _ IH]; [done|]. simpl. destruct (decide_rel elem_of x l) as [Hin|]; [done|]. by rewrite IH.
Qed.

Lemma sorted_set_length l : NoDup l → length (sorted_set l) = length l.
Proof. intros Hnd. unfold sorted_set. by rewrite sort_by_length, remove_dups_NoDup. Qed.

(** The best [k] of a list by a score: none of the others scores higher. *)
(** ** The eviction contract *)

(** What [EvictionDecision] promises of [seq_len] positions under a budget. *)
Record decision_ok (seq_len budget : Z) (d : EvictionDecision) : Prop := {
  do_sorted : StronglySorted Z.lt (ed_keep_indices d);
  do_range : ∀ i, i ∈ ed_keep_indices d → 0 ≤ i < seq_len;
  do_count : Z.of_nat (length (ed_keep_indices d)) = Z.min budget seq_len;
  do_evicted : ed_evicted_count d = seq_len - Z.of_nat (length (ed_keep_indices d))
}.

Lemma keep_all_ok method seq_len budget : 0 ≤ seq_len ≤ budget → decision_ok seq_len budget (keep_all method seq_len).
Proof.
  intros Hle. split; cbn; rewrite ?py_range_length; try lia; [apply py_range_sorted|]. intros i Hi%elem_of_py_range. lia.
Qed.

(** The recent window and the heavy hitters before it. *)
Section recent_top.
Context (key : Z → f64) (recent_window seq_len budget : Z).
Context (Hw : 0 ≤ recent_window) (Hb : 1 ≤ budget < seq_len).

Let recent_start := Z.max 0 (seq_len - recent_window).
Let older := filter (λ i, i ∉ py_range recent_start seq_len) (py_range 0 seq_len).

Lemma older_range : older = py_range 0 recent_start.
Proof.
  unfold older. assert (Hr : 0 ≤ recent_start ≤ seq_len) by (unfold recent_start; lia).
  rewrite (py_range_app 0 recent_start seq_len) by lia.
  rewrite filter_app, list_filter_all, list_filter_none; [by rewrite app_nil_r|..].
  - apply list.Forall_forall. intros x Hx Hn. by apply Hn.
  - apply list.Forall_forall. intros x Hx%elem_of_py_range Hin%elem_of_py_range. lia.
Qed.

(** Membership, count and order of the positions kept. *)
Lemma keep_recent_and_top_spec :
  let keep := keep_recent_and_top key recent_window seq_len budget in
  let hitters := take (Z.to_nat (budget - (seq_len - recent_start))) (sorted_desc key older) in
  StronglySorted Z.lt keep ∧ Z.of_nat (length keep) = budget ∧ (∀ i, i ∈ keep → 0 ≤ i < seq_len) ∧
  (budget ≤ seq_len - recent_start → ∀ i, i ∈ keep ↔ seq_len - budget ≤ i < seq_len) ∧
  (seq_len - recent_start < budget → ∀ i, i ∈ keep ↔ recent_start ≤ i < seq_len ∨ i ∈ hitters).
Proof.
  assert (Hr : 0 ≤ recent_start ≤ seq_len) by (unfold recent_start; lia).
  cbv zeta. unfold keep_recent_and_top. fold recent_start older. rewrite py_range_length.
  destruct (Z.leb_spec budget (Z.of_nat (Z.to_nat (seq_len - recent_start)))) as [Hle|Hgt].
  { split; [apply py_range_sorted|]. rewrite py_range_length. split; [lia|].
    split; [intros i Hi%elem_of_py_range; lia|]. split; [|lia]. intros _ i. apply elem_of_py_range. }
  rewrite py_slice_whole_prefix by lia. rewrite Z2Nat.id by lia.
  set (hit := take _ _). assert (Hnd : NoDup hit).
  { apply take_sorted_desc_NoDup. rewrite older_range. apply py_range_NoDup. }
  assert (Hhit : ∀ i, i ∈ hit → 0 ≤ i < recent_start).
  { intros i Hi%take_sorted_desc_in. rewrite older_range in Hi. by apply elem_of_py_range in Hi. }
  assert (Hlen : length hit = Z.to_nat (budget - (seq_len - recent_start))).
  { unfold hit. rewrite length_take, (sorted_desc_perm key older), older_range, py_range_length. lia. }
  split; [apply sorted_set_strict|]. split; [|split; [|split; [lia|]]].
  - rewrite sorted_set_length, length_app, py_range_length, Hlen; [lia|]. apply NoDup_app.
    split; [apply py_range_NoDup|]. split; [|done]. intros x Hx%elem_of_py_range Hx'%Hhit. lia.
  - intros i. rewrite elem_of_sorted_set, elem_of_app, elem_of_py_range. intros [|Hi%Hhit]; lia.
  - intros _ i. by rewrite elem_of_sorted_set, elem_of_app, elem_of_py_range.
Qed.

(** Position by position: a kept older position is worth no less than an evicted one. *)
Lemma keep_recent_and_top_dominates i j :
  (∀ i, 0 ≤ i < seq_len → is_nan (key i) = false) →
  let keep := keep_recent_and_top key recent_window seq_len budget in
  i ∈ keep → i < recent_start → 0 ≤ j < recent_start → j ∉ keep → seq_len - recent_start < budget →
  fle (key j) (key i) = true.
Proof.
  intros Hnan keep Hi Hir Hj Hnj Hbud. destruct keep_recent_and_top_spec as (_ & _ & _ & _ & Hspec).
  specialize (Hspec Hbud). fold keep in Hspec. apply Hspec in Hi. rewrite Hspec in Hnj.
  destruct Hi as [Hi|Hi]; [lia|]. eapply best_dominate; [|exact Hi| |].
  - unfold keys_ok. rewrite older_range. apply list.Forall_forall. intros x Hx%elem_of_py_range.
    apply Hnan. unfold recent_start in Hx. lia.
  - rewrite older_range, elem_of_py_range. lia.
  - tauto.
Qed.
End recent_top.

(** ** The contract of the score-based evictors *)

(** Which configurations a constructor lets through, and what a decision promises
    whatever the scores. *)
Class KVCacheEvictorLaws (E : Type) `{KVCacheEvictor E} (ev_wf : E → Prop) : Prop := {
  el_empty : ∀ (e : E) budget, select_keep_indices [] budget e = (Raise msg_no_scores, e);
  el_budget : ∀ (e : E) scores budget, scores ≠ [] → budget < 1 →
    select_keep_indices scores budget e = (Raise msg_budget, e);
  el_decides : ∀ (e : E) scores budget, ev_wf e → scores ≠ [] → 1 ≤ budget →
    ∃ d e', select_keep_indices scores budget e = (Ret d, e') ∧ ev_wf e' ∧
      decision_ok (Z.of_nat (length scores)) budget d
}.

Lemma keep_only_ok method seq_len budget keep : budget ≤ seq_len →
  StronglySorted Z.lt keep → (∀ i, i ∈ keep → 0 ≤ i < seq_len) → Z.of_nat (length keep) = budget →
  decision_ok seq_len budget (keep_only method seq_len keep).
Proof. intros Hle Hs Hr Hlen. split; cbn; try done; lia. Qed.

(** The last step of H2O and SnapKV. *)
Lemma recent_top_decision method key w seq_len budget : 0 ≤ w → 1 ≤ budget → 0 ≤ seq_len →
  decision_ok seq_len budget
    (if seq_len <=? budget then keep_all method seq_len
     else keep_only method seq_len (keep_recent_and_top key w seq_len budget)).
Proof.
  intros Hw Hb Hn. destruct (Z.leb_spec seq_len budget); [by apply keep_all_ok|].
  destruct (keep_recent_and_top_spec key w seq_len budget Hw) as (Hs & Hlen & Hr & _); [lia|].
  by apply keep_only_ok; [lia|..].
Qed.

Lemma ret_if {A} (b : bool) (x y : A) : (if b then Ret x else Ret y) = Ret (if b then x else y).
Proof. by destruct b. Qed.

Definition h2o_wf (e : H2OEvictor) : Prop := 0 ≤ h2_recent_window e.
Definition snapkv_wf (e : SnapKVEvictor) : Prop := 1 ≤ sn_pool_kernel_size e ∧ 0 ≤ sn_recent_window e.

#[export] Instance h2o_laws : KVCacheEvictorLaws H2OEvictor h2o_wf.
Proof.
  split; [done|..]; intros e [|x scores] budget; try done; unfold select_keep_indices, h2o_evictor, H2O_select.
  - intros _ Hb. by rewrite (proj2 (Z.ltb_lt _ _) Hb).
  - intros Hwf _ Hb. rewrite (proj2 (Z.ltb_ge _ _) Hb), ret_if. eexists _, e. split; [done|]. split; [done|].
    apply recent_top_decision; [done|done|lia].
Qed.

#[export] Instance snapkv_laws : KVCacheEvictorLaws SnapKVEvictor snapkv_wf.
Proof.
  split; [done|..]; intros e [|x scores] budget; try done; unfold select_keep_indices, snapkv_evictor, SnapKV_select.
  - intros _ Hb. by rewrite (proj2 (Z.ltb_lt _ _) Hb).
  - intros Hwf _ Hb. rewrite (proj2 (Z.ltb_ge _ _) Hb), ret_if. eexists _, e. split; [done|]. split; [done|].
    apply recent_top_decision; [apply Hwf|done|lia].
Qed.

(** NACL, when the random share of the budget rounds into the budget and the
    generator samples as documented: [k] distinct members of the pool. *)
Definition samples {R} `{Random R} : Prop := ∀ pool k rng, NoDup pool → 0 ≤ k ≤ Z.of_nat (length pool) →
  ∃ drawn rng', rng_sample pool k rng = (Ret drawn, rng') ∧ NoDup drawn ∧ drawn ⊆ pool ∧ Z.of_nat (length drawn) = k.

Lemma nacl_decides {R} `{Random R} (e : NACLEvictor R) scores budget random_budget :
  samples → scores ≠ [] → 1 ≤ budget →
  (b ← int_to_float budget; py_round (fmul b (na_random_fraction e))) = Ret random_budget →
  0 ≤ random_budget ≤ budget →
  ∃ d e', NACL_select scores budget e = (Ret d, e') ∧ decision_ok (Z.of_nat (length scores)) budget d ∧
    (budget < Z.of_nat (length scores) →
     ∀ i, i ∈ take (Z.to_nat (budget - random_budget)) (sorted_desc (score_at scores) (py_range 0 (Z.of_nat (length scores)))) →
       i ∈ ed_keep_indices d).
Proof.
  intros Hsam Hne Hb Hround Hr. destruct scores as [|x scores]; [done|]. unfold NACL_select.
  rewrite (proj2 (Z.ltb_ge _ _) Hb), Hround. set (n := Z.of_nat (length (x :: scores))).
  destruct (Z.leb_spec n budget) as [Hle|Hgt].
  { eexists _, _. split; [done|]. split; [apply keep_all_ok; lia|lia]. }
  set (ranked := sorted_desc _ _). assert (Hlen : length ranked = Z.to_nat n).
  { unfold ranked. rewrite (sorted_desc_perm (score_at (x :: scores))), py_range_length. lia. }
  assert (Hnd : NoDup ranked) by (unfold ranked; rewrite (sorted_desc_perm (score_at (x :: scores))); apply py_range_NoDup).
  rewrite py_slice_whole_prefix by lia. set (k := Z.to_nat (budget - random_budget)).
  assert (Hpool : py_slice (budget - random_budget) n ranked = drop k ranked).
  { unfold py_slice, clamp. repeat match goal with |- context [?a <? 0] => rewrite (proj2 (Z.ltb_ge a 0)) by lia end.
    rewrite Hlen. rewrite take_ge by (rewrite length_drop; lia). f_equal. unfold k. lia. }
  rewrite Hpool, length_drop, Hlen.
  destruct (Hsam (drop k ranked) (Z.min random_budget (Z.of_nat (Z.to_nat n - k))) (na_rng e))
    as (drawn & rng' & -> & Hdnd & Hsub & Hdlen).
  { eapply sublist_NoDup; [exact Hnd|apply sublist_drop]. }
  { rewrite length_drop, Hlen. lia. }
  eexists _, _. split; [done|]. assert (Hdisj : NoDup (take k ranked ++ drawn)).
  { rewrite <- (take_drop k ranked) in Hnd. apply NoDup_app in Hnd as (? & Hd & _). apply NoDup_app.
    split; [done|]. split; [|done]. intros i Hi Hi'. by apply (Hd i Hi), Hsub. }
  split.
  - apply keep_only_ok; [lia|apply sorted_set_strict|..].
    + intros i. rewrite elem_of_sorted_set, elem_of_app. intros Hi. apply elem_of_py_range.
      rewrite <- (sorted_desc_perm (score_at (x :: scores))). fold ranked.
      destruct Hi as [(j & Hj%list_elem_of_lookup_2 & _)%elem_of_take|Hi%Hsub]; [done|].
      by eapply sublist_subseteq; [apply sublist_drop|].
    + rewrite sorted_set_length, length_app, length_take, Hlen by done. unfold k in *. lia.
  - intros _ i Hi. cbn. rewrite elem_of_sorted_set. set_solver.
Qed.

(** ** MorphKV: the best fused positions *)

Lemma morphkv_decides windows budget e w0 rest :
  windows = w0 :: rest → w0 ≠ [] → Forall (λ w, length w = length w0) windows → 1 ≤ budget →
  ∃ d, MorphKV_select windows budget e = (Ret d, e) ∧ decision_ok (Z.of_nat (length w0)) budget d ∧
    (keys_ok (fused_at windows) (py_range 0 (Z.of_nat (length w0))) →
     ∀ i j, i ∈ ed_keep_indices d → 0 ≤ j < Z.of_nat (length w0) → j ∉ ed_keep_indices d →
       fle (fused_at windows j) (fused_at windows i) = true).
Proof.
  intros -> Hne Hlens Hb. unfold MorphKV_select. set (n := Z.of_nat (length w0)).
  assert (Hn : 0 < n) by (unfold n; destruct w0; [done|simpl; lia]).
  destruct (Z.eqb_spec n 0); [lia|].
  assert (forallb (λ w, Z.of_nat (length w) =? n) (w0 :: rest) = true) as ->.
  { apply forallb_forall. intros w Hw%list_elem_of_In. rewrite list.Forall_forall in Hlens. apply Z.eqb_eq.
    unfold n. by rewrite (Hlens w Hw). }
  cbn [negb]. rewrite (proj2 (Z.ltb_ge _ _) Hb). set (key := fused_at (w0 :: rest)).
  destruct (Z.leb_spec n budget) as [Hle|Hgt].
  { eexists. split; [done|]. split; [apply keep_all_ok; lia|]. intros _ i j _ Hj Hnj. exfalso. apply Hnj.
    cbn. by apply elem_of_py_range. }
  rewrite py_slice_whole_prefix by lia. eexists. split; [done|]. split.
  - assert (Hnd : NoDup (take (Z.to_nat budget) (sorted_desc key (py_range 0 n))))
      by (apply take_sorted_desc_NoDup, py_range_NoDup).
    apply keep_only_ok; [lia|by apply sort_strict|..].
    + intros i. rewrite elem_of_sort_by. intros Hi%take_sorted_desc_in. by apply elem_of_py_range.
    + rewrite sort_by_length, length_take, (sorted_desc_perm key), py_range_length. lia.
  - intros Hok i j. cbn. rewrite !elem_of_sort_by. intros Hi Hj Hnj.
    eapply best_dominate; [exact Hok|exact Hi|by apply elem_of_py_range|done].
Qed.

(** ** HASHEVICT: one survivor per bucket *)

Definition bucket_at (hyperplanes : list (list f64)) (vectors : list (list f64)) (i : Z) : option (res (list Z)) :=
  (λ v, _bucket v hyperplanes) <$> vectors !! Z.to_nat i.

(** [seen] records, for the buckets of the vectors before [index], their last index. *)
Record last_seen_ok (hyperplanes vectors : list (list f64)) (index : Z) (seen : list (list Z * Z)) : Prop := {
  ls_nodup : NoDup (od_keys seen);
  ls_last : ∀ b i, od_get b seen = Some i ↔
    0 ≤ i < index ∧ bucket_at hyperplanes vectors i = Some (Ret b) ∧
    ∀ j, i < j < index → bucket_at hyperplanes vectors j ≠ Some (Ret b);
  ls_all : ∀ j, 0 ≤ j < index → ∃ b i, bucket_at hyperplanes vectors j = Some (Ret b) ∧ j ≤ i ∧ od_get b seen = Some i
}.

Lemma last_seen_step hyperplanes vectors index seen v b : 0 ≤ index →
  vectors !! Z.to_nat index = Some v → _bucket v hyperplanes = Ret b →
  last_seen_ok hyperplanes vectors index seen → last_seen_ok hyperplanes vectors (index + 1) (od_set b index seen).
Proof.
  intros Hi Hv Hb [Hnd Hlast Hall].
  assert (Hat : bucket_at hyperplanes vectors index = Some (Ret b)) by (unfold bucket_at; rewrite Hv; simpl; by rewrite Hb).
  split; [by apply od_set_nodup|..].
  - intros b' i. rewrite od_get_set. destruct (decide (b = b')) as [<-|Hne].
    + split.
      * intros [= <-]. split; [lia|]. split; [done|]. lia.
      * intros (Hi' & Hb' & Hmax). f_equal. destruct (decide (i = index)) as [|Hn]; [done|].
        exfalso. apply (Hmax index); [lia|done].
    + rewrite Hlast. split; intros (Hi' & Hb' & Hmax).
      * split; [lia|]. split; [done|]. intros j Hj. destruct (decide (j = index)) as [->|]; [congruence|].
        apply Hmax. lia.
      * assert (i ≠ index) by congruence. split; [lia|]. split; [done|]. intros j Hj. apply Hmax. lia.
  - intros j Hj. destruct (decide (j = index)) as [->|Hn].
    + exists b, index. split; [done|]. split; [lia|]. rewrite od_get_set. by rewrite decide_True.
    + destruct (Hall j) as (b' & i & Hb' & Hji & Hget); [lia|]. destruct (decide (b = b')) as [<-|Hne].
      * exists b, index. split; [done|]. split; [lia|]. rewrite od_get_set. by rewrite decide_True.
      * exists b', i. split; [done|]. split; [done|]. rewrite od_get_set. by rewrite decide_False.
Qed.

Lemma last_seen_spec hyperplanes vectors front rest index seen final :
  vectors = front ++ rest → index = Z.of_nat (length front) →
  last_seen_ok hyperplanes vectors index seen → last_seen hyperplanes index rest seen = Ret final →
  last_seen_ok hyperplanes vectors (Z.of_nat (length vectors)) final.
Proof.
  revert front index seen. induction rest as [|v rest IH]; intros front index seen Hvec Hidx Hok; simpl.
  - intros [= <-]. rewrite app_nil_r in Hvec. by subst.
  - destruct (_bucket v hyperplanes) as [b|err] eqn:Hb; simpl; [|discriminate]. intros Hrun.
    apply (IH (front ++ [v]) (index + 1) (od_set b index seen)); [by rewrite Hvec, <- app_assoc|rewrite length_app; simpl; lia| |done].
    apply last_seen_step with v; [lia| |done|done].
    rewrite Hvec, lookup_app_r by lia. replace (Z.to_nat index - length front)%nat with O by lia. done.
Qed.

Lemma last_seen_total hyperplanes vectors final : last_seen hyperplanes 0 vectors [] = Ret final →
  last_seen_ok hyperplanes vectors (Z.of_nat (length vectors)) final.
Proof.
  intros Hrun. apply (last_seen_spec hyperplanes vectors [] vectors 0 []); try done.
  split; [constructor| |lia]. intros b i. split; [done|lia].
Qed.

Lemma od_values {K V} `{EqDecision K} (d : list (K * V)) v :
  NoDup (od_keys d) → v ∈ map snd d ↔ ∃ k, od_get k d = Some v.
Proof.
  induction d as [|[k w] d IH]; intros Hnd.
  - split; [intros Hv; by apply not_elem_of_nil in Hv|by intros []].
  - apply NoDup_cons in Hnd as [Hk Hnd]. cbn [map snd]. rewrite elem_of_cons, IH by done.
    setoid_rewrite od_get_cons. split.
    + intros [->|(k' & Hk')]; [exists k; by rewrite decide_True|]. exists k'. rewrite decide_False; [done|].
      intros ->. apply Hk. destruct (decide (k' ∈ od_keys d)) as [|Hn]; [done|]. apply od_get_None in Hn. congruence.
    + intros (k' & Hk'). destruct (decide (k = k')); [injection Hk' as ->; by left|right; eauto].
Qed.

Lemma od_values_NoDup {K V} `{EqDecision K} (d : list (K * V)) :
  NoDup (od_keys d) → (∀ k k' v, od_get k d = Some v → od_get k' d = Some v → k = k') → NoDup (map snd d).
Proof.
  induction d as [|[k w] d IH]; intros Hnd Hinj; [constructor|]. apply NoDup_cons in Hnd as [Hk Hnd].
  assert (Hne : ∀ k' v, od_get k' d = Some v → k' ≠ k).
  { intros k' v Hv ->. apply Hk. destruct (decide (k ∈ od_keys d)) as [|Hn]; [done|]. apply od_get_None in Hn. congruence. }
  cbn [map snd]. apply NoDup_cons. split.
  - intros (k' & Hk')%od_values; [|done]. apply (Hne k' w Hk'). symmetry. apply (Hinj k k' w).
    + rewrite od_get_cons, decide_True; done.
    + rewrite od_get_cons, decide_False; [done|]. intros ->. by apply (Hne k' w Hk').
  - apply IH; [done|]. intros k1 k2 v H1 H2. apply (Hinj k1 k2 v); rewrite od_get_cons, decide_False; try done.
    + intros ->. by apply (Hne k1 v H1).
    + intros ->. by apply (Hne k2 v H2).
Qed.

(** The tail of a strictly ascending list. *)
Lemma last_slice_sorted (n : Z) (l : list Z) : StronglySorted Z.lt l → 1 ≤ n ≤ Z.of_nat (length l) →
  StronglySorted Z.lt (last_slice n l) ∧ Z.of_nat (length (last_slice n l)) = n ∧
  last_slice n l `sublist_of` l ∧ ∀ x y, x ∈ l → x ∉ last_slice n l → y ∈ last_slice n l → x < y.
Proof.
  intros Hs Hn. unfold last_slice. rewrite (proj2 (Z.ltb_lt _ _)) by lia. set (k := (length l - Z.to_nat n)%nat).
  rewrite <- (take_drop k l) in Hs. apply StronglySorted_app_inv in Hs as (_ & Hs & Hcross).
  split; [done|]. split; [rewrite length_drop; lia|]. split; [apply sublist_drop|].
  intros x y Hx Hnx Hy. rewrite <- (take_drop k l) in Hx. apply elem_of_app in Hx as [Hx|]; [|done]. by apply Hcross.
Qed.

(** ** InfiniPot: the groups partition the cache *)

Lemma groups_from_spec base_size remainder g n start kv :
  0 ≤ base_size → 0 ≤ start →
  start + Z.of_nat n * base_size + Z.max 0 (Z.min (Z.of_nat n) (remainder - g)) = Z.of_nat (length kv) →
  concat (groups_from base_size remainder g n start kv) = drop (Z.to_nat start) kv ∧
  length (groups_from base_size remainder g n start kv) = n ∧
  Forall (λ group, base_size ≤ Z.of_nat (length group) ≤ base_size + 1)
    (groups_from base_size remainder g n start kv).
Proof.
  intros Hb. revert g start. induction n as [|n IH]; intros g start Hs Hlen; simpl.
  - rewrite drop_ge by lia. repeat constructor.
  - set (size := base_size + (if g <? remainder then 1 else 0)).
    assert (Hsz : size = base_size + (if g <? remainder then 1 else 0)) by done.
    assert (Hle : base_size ≤ size ≤ base_size + 1 ∧ start + size ≤ Z.of_nat (length kv))
      by (destruct (Z.ltb_spec g remainder); split; nia).
    destruct (IH (g + 1) (start + size)) as (Hc & Hl & Hf); [lia|destruct (Z.ltb_spec g remainder); lia|].
    assert (Hslice : py_slice start (start + size) kv = take (Z.to_nat size) (drop (Z.to_nat start) kv)).
    { unfold py_slice, clamp. rewrite !(proj2 (Z.ltb_ge _ 0)) by lia. rewrite !Z.min_l by lia. f_equal. lia. }
    rewrite Hslice. split; [|split; [lia|]].
    + rewrite Hc, Z2Nat.inj_add, <- drop_drop by lia. by rewrite take_drop.
    + constructor; [|done]. rewrite length_take, length_drop. lia.
Qed.

(** ** The properties *)

(** C31: H2O and SnapKV keep the eviction contract for every score list, NaN scores included: an empty list and a
    budget below one are refused; otherwise the kept positions are distinct, ascending and in range, exactly
    [min(budget, len)] of them, the count evicted is the rest, and the most recent positions, up to the window and
    the budget, all survive. *)
Theorem evictors_keep_the_budget (w k : Z) (h : H2OEvictor) (s : SnapKVEvictor) (scores : list f64) (budget : Z) :
  H2O_init w = Ret h → SnapKV_init k w = Ret s →
  Forall (λ r : res EvictionDecision,
    match r with
    | Raise e => scores = [] ∧ e = ValueError "attention_scores must be non-empty" ∨
        scores ≠ [] ∧ budget < 1 ∧ e = ValueError "budget must be at least 1"
    | Ret d => decision_ok (Z.of_nat (length scores)) budget d ∧
        ∀ i, Z.of_nat (length scores) - Z.min w budget ≤ i < Z.of_nat (length scores) → 0 ≤ i → i ∈ ed_keep_indices d
    end) [(H2O_select scores budget h).1; (SnapKV_select scores budget s).1].
Proof.
  unfold H2O_init, SnapKV_init. destruct (Z.ltb_spec w 0) as [|Hw]; [done|]. intros [= <-].
  destruct (Z.ltb_spec k 1) as [|Hk]; [done|]. intros [= <-].
  destruct scores as [|x scores]; [by do 2 (constructor; [by left|])|].
  unfold H2O_select, SnapKV_select. set (n := Z.of_nat (length (x :: scores))). assert (0 ≤ n) by lia.
  destruct (Z.ltb_spec budget 1) as [Hb|Hb]; [by do 2 (constructor; [by right|])|].
  assert (Hall : ∀ method key, match (if n <=? budget then Ret (keep_all method n)
      else Ret (keep_only method n (keep_recent_and_top key w n budget))) with
    | Raise _ => False
    | Ret d => decision_ok n budget d ∧ ∀ i, n - Z.min w budget ≤ i < n → 0 ≤ i → i ∈ ed_keep_indices d
    end).
  { intros method key. rewrite ret_if. split; [by apply recent_top_decision|]. intros i Hi H0.
    destruct (Z.leb_spec n budget); [cbn; apply elem_of_py_range; lia|]. cbn.
    destruct (keep_recent_and_top_spec key w n budget Hw) as (_ & _ & _ & Htight & Hroom); [lia|].
    destruct (Z.le_gt_cases budget (n - Z.max 0 (n - w))); [apply Htight; lia|]. apply Hroom; [lia|left; lia]. }
  constructor; [|constructor; [|constructor]]; cbn [fst h2_recent_window sn_recent_window].
  - specialize (Hall "h2o"%string (score_at (x :: scores))). rewrite ret_if in *. exact Hall.
  - specialize (Hall "snapkv"%string (score_at (_pooled (mkSnapKV k w) (x :: scores)))). rewrite ret_if in *. exact Hall.
Qed.

Lemma evictors_keep_the_budget_witness :
  let scores := [flit 9 1; flit 1 10; flit 5 1; flit 2 10; flit 3 10] in
  Forall (λ r : res EvictionDecision,
    match r with
    | Raise e => scores = [] ∧ e = ValueError "attention_scores must be non-empty" ∨
        scores ≠ [] ∧ 3 < 1 ∧ e = ValueError "budget must be at least 1"
    | Ret d => decision_ok (Z.of_nat (length scores)) 3 d ∧
        ∀ i, Z.of_nat (length scores) - Z.min 2 3 ≤ i < Z.of_nat (length scores) → 0 ≤ i → i ∈ ed_keep_indices d
    end) [(H2O_select scores 3 (mkH2O 2)).1; (SnapKV_select scores 3 (mkSnapKV 3 2)).1].
Proof.
  intros scores. pose proof (evictors_keep_the_budget 2 3 (mkH2O 2) (mkSnapKV 3 2) scores 3 eq_refl eq_refl) as Hw.
  exact Hw.
Defined.

(** The heavy-hitter oracle: when no score is NaN, a position older than the recent window that survives scores
    at least as high as every position evicted. *)
Theorem h2o_heavy_hitters (w : Z) (h : H2OEvictor) (scores : list f64) (budget : Z) (d : EvictionDecision) :
  H2O_init w = Ret h → Forall (λ x, is_nan x = false) scores → (H2O_select scores budget h).1 = Ret d →
  ∀ i j, i ∈ ed_keep_indices d → i < Z.of_nat (length scores) - w → 0 ≤ j < Z.of_nat (length scores) →
    j ∉ ed_keep_indices d → fle (score_at scores j) (score_at scores i) = true.
Proof.
  unfold H2O_init. destruct (Z.ltb_spec w 0) as [|Hw]; [done|]. intros [= <-] Hnan.
  destruct scores as [|x scores]; [done|]. unfold H2O_select. set (n := Z.of_nat (length (x :: scores))).
  destruct (Z.ltb_spec budget 1) as [|Hb]; [done|]. cbn [fst h2_recent_window].
  destruct (Z.leb_spec n budget) as [Hle|Hgt]; intros [= <-] i j Hi Hiw Hj Hnj.
  { exfalso. apply Hnj. cbn. by apply elem_of_py_range. }
  cbn in Hi, Hnj. set (key := score_at (x :: scores)) in *.
  destruct (keep_recent_and_top_spec key w n budget Hw) as (_ & _ & Hr & Htight & Hroom); [lia|].
  specialize (Hr i Hi). destruct (Z.le_gt_cases budget (n - Z.max 0 (n - w))) as [Ht|Ht].
  { apply Htight in Hi; lia. }
  apply (keep_recent_and_top_dominates key w n budget Hw); [lia| |done|lia| |done|done].
  - intros a Ha. unfold key, score_at. destruct (lookup_lt_is_Some_2 (x :: scores) (Z.to_nat a)) as [y Hy]; [lia|].
    rewrite Hy. cbn. rewrite list.Forall_forall in Hnan. by apply Hnan, (list_elem_of_lookup_2 _ (Z.to_nat a)).
  - destruct (Z.le_gt_cases (Z.max 0 (n - w)) j); [|lia]. exfalso. apply Hnj, (Hroom Ht). left. lia.
Qed.

Lemma h2o_heavy_hitters_witness :
  let scores := [flit 9 1; flit 1 10; flit 5 1; flit 2 10; flit 3 10] in
  ∀ i j, i ∈ [0; 3; 4] → i < Z.of_nat (length scores) - 2 → 0 ≤ j < Z.of_nat (length scores) →
    j ∉ [0; 3; 4] → fle (score_at scores j) (score_at scores i) = true.
Proof.
  intros scores.
  pose proof (h2o_heavy_hitters 2 (mkH2O 2) scores 3 (mkDecision "h2o" [0; 3; 4] 2) eq_refl
    ltac:(repeat constructor) ltac:(vm_compute; reflexivity)) as Hw. exact Hw.
Defined.

(** HASHEVICT keeps the latest vector of a bucket: when it decides at all, the kept positions are ascending and
    within the budget, no later vector falls in a kept one's bucket, and a position evicted is either followed by a
    later kept one of its own bucket or its bucket's last vector is older than all of a full budget of kept ones. *)
Theorem hashevict_keeps_latest `{GaussDraws} (e : HASHEVICTEvictor) (v0 : list f64) (rest : list (list f64))
    (budget : Z) (d : EvictionDecision) :
  (HASHEVICT_select (v0 :: rest) budget e).1 = Ret d → budget < Z.of_nat (length (v0 :: rest)) →
  let vectors := v0 :: rest in
  let bucket := bucket_at (_hyperplanes e (length v0)) vectors in
  StronglySorted Z.lt (ed_keep_indices d) ∧ Z.of_nat (length (ed_keep_indices d)) ≤ budget ∧
  ed_evicted_count d = Z.of_nat (length vectors) - Z.of_nat (length (ed_keep_indices d)) ∧
  (∀ i, i ∈ ed_keep_indices d → 0 ≤ i < Z.of_nat (length vectors) ∧
     ∀ j, i < j < Z.of_nat (length vectors) → bucket j ≠ bucket i) ∧
  (∀ j, 0 ≤ j < Z.of_nat (length vectors) → ∃ i, j ≤ i ∧ bucket i = bucket j ∧
     (i ∈ ed_keep_indices d ∨
      Z.of_nat (length (ed_keep_indices d)) = budget ∧ ∀ k, k ∈ ed_keep_indices d → i < k)).
Proof.
  unfold HASHEVICT_select. destruct (Z.ltb_spec budget 1) as [|Hb]; [done|]. set (vectors := v0 :: rest).
  set (n := Z.of_nat (length vectors)). cbn [fst]. intros Hsel Hlt. rewrite (proj2 (Z.leb_gt _ _)) in Hsel by done.
  destruct (last_seen _ 0 vectors []) as [seen|err] eqn:Hseen; cbn [mbind res_bind] in Hsel; [|done].
  apply last_seen_total in Hseen as [Hnd Hlast Hall]. fold n in Hlast, Hall. injection Hsel as <-.
  set (planes := _hyperplanes e (length v0)) in *. set (dd := sort_by Z.leb (map snd seen)) in *.
  set (keep := if budget <? Z.of_nat (length dd) then last_slice budget dd else dd).
  assert (Hdd : ∀ i, i ∈ dd ↔ ∃ b, od_get b seen = Some i) by (intros i; unfold dd; by rewrite elem_of_sort_by, od_values).
  assert (Hsorted : StronglySorted Z.lt dd).
  { apply sort_strict, od_values_NoDup; [done|]. intros k k' v (_ & Hk & _)%Hlast (_ & Hk' & _)%Hlast. congruence. }
  assert (Hkeep : StronglySorted Z.lt keep ∧ Z.of_nat (length keep) ≤ budget ∧ keep ⊆ dd ∧
    ∀ i, i ∈ dd → i ∈ keep ∨ Z.of_nat (length keep) = budget ∧ ∀ k, k ∈ keep → i < k).
  { unfold keep. destruct (Z.ltb_spec budget (Z.of_nat (length dd))).
    - destruct (last_slice_sorted budget dd Hsorted) as (Hs & Hlen & Hsub & Hold); [lia|].
      split; [done|]. split; [lia|]. split; [by apply sublist_subseteq|].
      intros i Hi. destruct (decide (i ∈ last_slice budget dd)); [by left|right]. split; [lia|]. intros k Hk.
      by apply Hold.
    - split; [done|]. split; [lia|]. split; [done|]. intros i Hi. by left. }
  destruct Hkeep as (Hs & Hlen & Hsub & Hold). cbv zeta. cbn [ed_keep_indices ed_evicted_count keep_only].
  split; [done|]. split; [done|]. split; [done|]. split.
  - intros i Hi%Hsub. apply Hdd in Hi as (b & (Hr & Hbi & Hmax)%Hlast). split; [done|].
    intros j Hj. rewrite Hbi. by apply Hmax.
  - intros j Hj. destruct (Hall j Hj) as (b & i & Hbj & Hji & Hget). exists i. split; [done|].
    pose proof (proj1 (Hlast b i) Hget) as (_ & Hbi & _). split; [congruence|]. apply Hold, Hdd. by exists b.
Qed.

(** A hyperplane generator for the examples. *)
Definition unit_draws : GaussDraws := λ _ count, replicate count fone.

Lemma hashevict_keeps_latest_witness :
  let vectors := [[flit 1 1]; [flit (-1) 1]; [flit 2 1]] in let e := mkHASHEVICT 1 7 in
  let bucket := bucket_at (@_hyperplanes unit_draws e 1) vectors in
  StronglySorted Z.lt [1; 2] ∧ 2 ≤ 2 ∧ 1 = 3 - 2 ∧
  (∀ i, i ∈ [1; 2] → 0 ≤ i < 3 ∧ ∀ j, i < j < 3 → bucket j ≠ bucket i) ∧
  (∀ j, 0 ≤ j < 3 → ∃ i, j ≤ i ∧ bucket i = bucket j ∧ (i ∈ [1; 2] ∨ 2 = 2 ∧ ∀ k, k ∈ [1; 2] → i < k)).
Proof.
  intros vectors e. pose proof (@hashevict_keeps_latest unit_draws e [flit 1 1] [[flit (-1) 1]; [flit 2 1]] 2
    (mkDecision "hashevict" [1; 2] 1) ltac:(vm_compute; reflexivity) ltac:(simpl; lia)) as Hw. exact Hw.
Defined.

(** The groups InfiniPot averages: [budget] of them, consecutive, none empty, sizes one apart at most. *)
Lemma infinipot_partition kv budget : 1 ≤ budget < Z.of_nat (length kv) →
  let groups := groups_from (Z.of_nat (length kv) / budget) (Z.of_nat (length kv) `mod` budget) 0 (Z.to_nat budget) 0 kv in
  concat groups = kv ∧ Z.of_nat (length groups) = budget ∧
  Forall (λ g, g ≠ [] ∧ Z.of_nat (length kv) / budget ≤ Z.of_nat (length g) ≤ Z.of_nat (length kv) / budget + 1) groups.
Proof.
  intros Hb. set (n := Z.of_nat (length kv)) in *. cbv zeta.
  assert (1 ≤ n / budget) by (apply Z.div_le_lower_bound; lia).
  pose proof (Z.mod_pos_bound n budget ltac:(lia)). pose proof (Z.div_mod n budget ltac:(lia)).
  destruct (groups_from_spec (n / budget) (n `mod` budget) 0 (Z.to_nat budget) 0 kv) as (Hc & Hl & Hf); [lia|lia|fold n; nia|].
  split; [by rewrite Hc|]. split; [lia|]. eapply Forall_impl; [exact Hf|]. intros g Hg. cbv beta in Hg. split; [|exact Hg].
  intros ->. simpl in Hg. lia.
Qed.
