(* ===== verification/MultiTurn.v ===== *)
(** * Multi-turn sessions

    The session strategies of cag/infrastructure (naive_recompute_session.py,
    sglang_session.py, memserve_session.py, rocketkv_mt_session.py,
    kvzip_session.py, shadowkv_session.py) behind the port
    [MultiTurnCacheStrategy], and cag/domain/session_metrics.py. *)

From Stdlib Require Import ZArith Lia.
From S2P Require Import Prelude PyFloat IntDivision PySeq.

Record ConversationTurn : Type := mkTurn {
  tn_turn_id : string;
  tn_new_tokens : Z;
  tn_parent_turn_id : option string
}.

Record SessionRun : Type := mkSessionRun {
  sr_strategy : string;
  sr_per_turn_recompute : list Z;
  sr_tokens_recomputed : Z;
  sr_peak_tokens_held : Z;
  sr_transfer_tokens : Z
}.

Class MultiTurnCacheStrategy (S : Type) : Type := run_session : S → list ConversationTurn → res SessionRun.

(** ** The ancestry of a turn *)

(** [{turn.turn_id: turn for turn in turns}]: the last turn of an id wins. *)
Definition by_id (turns : list ConversationTurn) : gmap string ConversationTurn :=
  foldl (λ m t, <[tn_turn_id t := t]> m) ∅ turns.

(** The while loop; [None] when the fuel runs out. *)
Fixpoint ancestry (ids : gmap string ConversationTurn) (fuel : nat) (current : option string)
    (total : Z) (seen : gset string) : option Z :=
  match current with
  | None => Some total
  | Some c =>
      match ids !! c with
      | None => Some total
      | Some turn =>
          if decide (c ∈ seen) then Some total
          else match fuel with
          | O => None
          | S fuel =>
              ancestry ids fuel (tn_parent_turn_id turn) (total + tn_new_tokens turn) ({[c]} ∪ seen)
          end
      end
  end.

(** As many rounds as there are ids: an id is counted once. *)
Definition history_of (turns : list ConversationTurn) (turn : ConversationTurn) : Z :=
  let ids := by_id turns in default 0 (ancestry ids (size ids) (tn_parent_turn_id turn) 0 ∅).

Definition history_tokens_before (turns : list ConversationTurn) (index : Z) : res Z :=
  turn ← py_index index turns; Ret (history_of turns turn).

(** [max(peak, ...)] over the turns, from zero. *)
Definition peak_of (l : list Z) : Z := foldl Z.max 0 l.

(** What holding a turn and its history takes. *)
Definition resident_of (turns : list ConversationTurn) (turn : ConversationTurn) : Z :=
  history_of turns turn + tn_new_tokens turn.

(** ** The strategies *)

Inductive NaiveRecomputeSession : Type := mkNaive.

Definition Naive_run_session (_ : NaiveRecomputeSession) (turns : list ConversationTurn) : res SessionRun :=
  let per_turn := map (resident_of turns) turns in
  Ret (mkSessionRun "naive-recompute" per_turn (zsum per_turn)
    (match per_turn with [] => 0 | x :: l => foldl Z.max x l end) 0).

Inductive IncrementalAppendSession : Type := mkIncremental.

(** [per_turn] of the loop, after the turn [previous_turn_id]. *)
Fixpoint incremental_costs (turns rest : list ConversationTurn) (previous_turn_id : option string) : list Z :=
  match rest with
  | [] => []
  | turn :: rest =>
      (if decide (tn_parent_turn_id turn = previous_turn_id) then tn_new_tokens turn else resident_of turns turn)
        :: incremental_costs turns rest (Some (tn_turn_id turn))
  end.

Definition Incremental_run_session (_ : IncrementalAppendSession) (turns : list ConversationTurn) : res SessionRun :=
  let per_turn := incremental_costs turns turns None in
  Ret (mkSessionRun "incremental-append" per_turn (zsum per_turn) (peak_of (map (resident_of turns) turns)) 0).

Inductive SGLangSession : Type := mkSGLang.

Fixpoint sglang_costs (turns rest : list ConversationTurn) (materialised : gset string) : list Z :=
  match rest with
  | [] => []
  | turn :: rest =>
      let cost :=
        match tn_parent_turn_id turn with
        | None => tn_new_tokens turn
        | Some p =>
            if decide (p ∈ materialised) then tn_new_tokens turn
            else tn_new_tokens turn + history_of turns turn
        end in
      let parents : gset string := match tn_parent_turn_id turn with Some p => {[p]} | None => ∅ end in
      cost :: sglang_costs turns rest (parents ∪ ({[tn_turn_id turn]} ∪ materialised))
  end.

Definition SGLang_run_session (_ : SGLangSession) (turns : list ConversationTurn) : res SessionRun :=
  let per_turn := sglang_costs turns turns ∅ in
  Ret (mkSessionRun "sglang" per_turn (zsum per_turn) (peak_of (map (resident_of turns) turns)) 0).

Record MemServeSession : Type := mkMemServe { ms_local_resident_tokens : Z }.

Definition MemServe_init (local_resident_tokens : Z) : res MemServeSession :=
  if local_resident_tokens <? 0 then Raise (ValueError "local_resident_tokens must be non-negative")
  else Ret (mkMemServe local_resident_tokens).

Definition MemServe_run_session (s : MemServeSession) (turns : list ConversationTurn) : res SessionRun :=
  let per_turn := map tn_new_tokens turns in
  let transfer := zsum (map (λ t, Z.max 0 (history_of turns t - ms_local_resident_tokens s)) turns) in
  let peak_local :=
    peak_of (map (λ t, Z.min (history_of turns t) (ms_local_resident_tokens s) + tn_new_tokens t) turns) in
  Ret (mkSessionRun "memserve" per_turn (zsum per_turn) peak_local transfer).

Record RocketKVMTSession : Type := mkRocket { rk_current_turn_budget : Z }.

Definition RocketKVMT_init (current_turn_budget : Z) : res RocketKVMTSession :=
  if current_turn_budget <? 1 then Raise (ValueError "current_turn_budget must be at least 1")
  else Ret (mkRocket current_turn_budget).

Definition RocketKVMT_run_session (s : RocketKVMTSession) (turns : list ConversationTurn) : res SessionRun :=
  let per_turn := map (λ t, Z.min (tn_new_tokens t) (rk_current_turn_budget s)) turns in
  Ret (mkSessionRun "rocketkv-mt" per_turn (zsum per_turn) (peak_of (map (resident_of turns) turns)) 0).

Record KVzipSession : Type := mkKVzip { kz_compression_ratio : f64; kz_overhead : Z }.

Definition KVzip_init (compression_ratio : f64) (compression_overhead_tokens : Z) : res KVzipSession :=
  if negb (flt fzero compression_ratio && fle compression_ratio fone) then
    Raise (ValueError "compression_ratio must be in (0.0, 1.0]")
  else if compression_overhead_tokens <? 0 then
    Raise (ValueError "compression_overhead_tokens must be non-negative")
  else Ret (mkKVzip compression_ratio compression_overhead_tokens).

Definition KVzip_run_session (s : KVzipSession) (turns : list ConversationTurn) : res SessionRun :=
  let per_turn :=
    match map tn_new_tokens turns with [] => [] | x :: l => (x + kz_overhead s) :: l end in
  held ← res_mapM (λ t, r ← int_to_float (resident_of turns t); py_trunc (fmul r (kz_compression_ratio s))) turns;
  Ret (mkSessionRun "kvzip" per_turn (zsum per_turn) (peak_of held) 0).

Record ShadowKVSession : Type := mkShadow { sh_subspace_reuse : f64 }.

Definition ShadowKVSession_init (subspace_reuse : f64) : res ShadowKVSession :=
  if negb (fle fzero subspace_reuse && fle subspace_reuse fone) then
    Raise (ValueError "subspace_reuse must be between 0.0 and 1.0")
  else Ret (mkShadow subspace_reuse).

(** The cost of a turn after the first. *)
Definition unshared (s : ShadowKVSession) (turn : ConversationTurn) : res Z :=
  n ← int_to_float (tn_new_tokens turn);
  k ← py_trunc (fmul n (fsub fone (sh_subspace_reuse s)));
  Ret (Z.max 1 k).

Definition ShadowKVSession_run_session (s : ShadowKVSession) (turns : list ConversationTurn) : res SessionRun :=
  per_turn ← (match turns with
              | [] => Ret []
              | t :: rest => l ← res_mapM (unshared s) rest; Ret (tn_new_tokens t :: l)
              end);
  Ret (mkSessionRun "shadowkv" per_turn (zsum per_turn) (peak_of (map (resident_of turns) turns)) 0).

#[export] Instance naive_session : MultiTurnCacheStrategy NaiveRecomputeSession := Naive_run_session.
#[export] Instance incremental_session : MultiTurnCacheStrategy IncrementalAppendSession := Incremental_run_session.
#[export] Instance sglang_session : MultiTurnCacheStrategy SGLangSession := SGLang_run_session.
#[export] Instance memserve_session : MultiTurnCacheStrategy MemServeSession := MemServe_run_session.
#[export] Instance rocketkv_session : MultiTurnCacheStrategy RocketKVMTSession := RocketKVMT_run_session.
#[export] Instance kvzip_session : MultiTurnCacheStrategy KVzipSession := KVzip_run_session.
#[export] Instance shadowkv_session : MultiTurnCacheStrategy ShadowKVSession := ShadowKVSession_run_session.

(** ** session_metrics.py *)

Definition amortized_tokens_per_turn (tokens_recomputed num_turns : Z) : res f64 :=
  if num_turns <? 1 then Raise (ValueError "num_turns must be at least 1")
  else if tokens_recomputed <? 0 then Raise (ValueError "tokens_recomputed must be non-negative")
  else int_true_div tokens_recomputed num_turns.

Definition recompute_ratio (strategy_tokens naive_tokens : Z) : res f64 :=
  if naive_tokens <=? 0 then Raise (ValueError "naive_tokens must be positive")
  else if strategy_tokens <? 0 then Raise (ValueError "strategy_tokens must be non-negative")
  else int_true_div strategy_tokens naive_tokens.

(** An int against a float, exactly. *)
Definition int_le_float (z : Z) (x : f64) : bool :=
  match py_floor x with
  | Ret n => z <=? n
  | Raise _ => match x with SpecFloat.S754_infinity s => negb s | _ => false end
  end.

Definition is_flat_per_turn (per_turn_recompute : list Z) (tolerance : f64) : res bool :=
  match per_turn_recompute with
  | [] => Raise (ValueError "per_turn_recompute must be non-empty")
  | first :: rest =>
      if flt tolerance fzero then Raise (ValueError "tolerance must be non-negative")
      else if first =? 0 then Ret (forallb (λ cost, cost =? 0) per_turn_recompute)
      else
        f ← int_to_float first;
        Ret (int_le_float (foldl Z.max first rest) (fmul f (fadd fone tolerance)))
  end.

(** A trunk with two branches. *)
Definition branching : list ConversationTurn :=
  [mkTurn "a" 100 None; mkTurn "b" 10 (Some "a"); mkTurn "c" 20 (Some "a"); mkTurn "d" 5 (Some "c")].

Example branching_naive : Naive_run_session mkNaive branching =
  Ret (mkSessionRun "naive-recompute" [100; 110; 120; 125] 455 125 0).
Proof. vm_compute. reflexivity. Qed.
Example branching_incremental : Incremental_run_session mkIncremental branching =
  Ret (mkSessionRun "incremental-append" [100; 10; 120; 5] 235 125 0).
Proof. vm_compute. reflexivity. Qed.
Example branching_sglang : SGLang_run_session mkSGLang branching =
  Ret (mkSessionRun "sglang" [100; 10; 20; 5] 135 125 0).
Proof. vm_compute. reflexivity. Qed.

(** ** The ancestry walk *)

(** The fuel is enough: a round marks an id not seen before. *)
Lemma ancestry_enough ids fuel current total seen :
  (size (dom ids ∖ seen) <= fuel)%nat → is_Some (ancestry ids fuel current total seen).
Proof.
  revert current total seen. induction fuel as [|fuel IH]; intros [c|] total seen Hfuel; simpl; try by eexists.
  all: destruct (ids !! c) as [turn|] eqn:Hc; [|by eexists]; case_decide as Hseen; [by eexists|].
  all: assert (Hin : c ∈ dom ids ∖ seen) by (apply elem_of_difference; split; [by eapply elem_of_dom_2|done]).
  - exfalso. assert (Hz : size (dom ids ∖ seen) = O) by lia. apply size_empty_inv in Hz. set_solver.
  - apply IH. assert (Heq : dom ids ∖ ({[c]} ∪ seen) = dom ids ∖ seen ∖ {[c]}) by set_solver.
    rewrite Heq, size_difference_alt. replace (dom ids ∖ seen ∩ {[c]}) with ({[c]} : gset string) by set_solver.
    rewrite size_singleton. lia.
Qed.

Lemma history_of_total turns turn :
  ancestry (by_id turns) (size (by_id turns)) (tn_parent_turn_id turn) 0 ∅ = Some (history_of turns turn).
Proof.
  unfold history_of. destruct (ancestry_enough (by_id turns) (size (by_id turns)) (tn_parent_turn_id turn) 0 ∅) as [x ->]; [|done].
  rewrite difference_empty_L, size_dom. done.
Qed.

Definition nonneg_turns (turns : list ConversationTurn) : Prop := Forall (λ t, 0 ≤ tn_new_tokens t) turns.

Lemma by_id_in turns c turn : by_id turns !! c = Some turn → turn ∈ turns ∧ tn_turn_id turn = c.
Proof.
  unfold by_id. induction turns as [|t turns IH] using rev_ind; [done|]. rewrite foldl_app. cbn [foldl].
  destruct (decide (tn_turn_id t = c)) as [<-|Hne].
  - rewrite lookup_insert_eq. intros [= <-]. split; [|done]. apply elem_of_app. right. by left.
  - rewrite lookup_insert_ne by done. intros [Hin Hid]%IH. split; [|done]. apply elem_of_app. by left.
Qed.

Lemma ancestry_grows turns fuel current total seen r : nonneg_turns turns →
  ancestry (by_id turns) fuel current total seen = Some r → total ≤ r.
Proof.
  intros Hnn. revert current total seen. induction fuel as [|fuel IH]; intros [c|] total seen; simpl; intros Hr;
    try (simplify_eq; lia).
  all: destruct (by_id turns !! c) as [turn|] eqn:Hc; [|simplify_eq; lia]; case_decide; [simplify_eq; lia|]; try done.
  apply IH in Hr. apply by_id_in in Hc as [Hin _]. unfold nonneg_turns in Hnn. rewrite list.Forall_forall in Hnn.
  specialize (Hnn turn Hin). lia.
Qed.

Lemma history_of_nonneg turns turn : nonneg_turns turns → 0 ≤ history_of turns turn.
Proof. intros Hnn. eapply ancestry_grows; [exact Hnn|apply history_of_total]. Qed.

(** ** The strategies compared turn by turn *)

Lemma incremental_below_naive turns rest prev : nonneg_turns turns →
  Forall2 Z.le (incremental_costs turns rest prev) (map (resident_of turns) rest).
Proof.
  intros Hnn. revert prev. induction rest as [|t rest IH]; intros prev; simpl; constructor; [|apply IH].
  unfold resident_of. pose proof (history_of_nonneg turns t Hnn). case_decide; lia.
Qed.

Lemma sglang_below_incremental turns rest prev mat : nonneg_turns turns →
  match prev with Some p => p ∈ mat | None => True end →
  Forall2 Z.le (sglang_costs turns rest mat) (incremental_costs turns rest prev).
Proof.
  intros Hnn. revert prev mat. induction rest as [|t rest IH]; intros prev mat Hprev; simpl; constructor.
  - pose proof (history_of_nonneg turns t Hnn). unfold resident_of. destruct (tn_parent_turn_id t) as [p|] eqn:Hp.
    + destruct (decide (p ∈ mat)); [case_decide; lia|]. case_decide as Heq; [by subst prev|lia].
    + case_decide; lia.
  - apply IH. set_solver.
Qed.

Lemma new_below_sglang turns rest mat : nonneg_turns turns →
  Forall2 Z.le (map tn_new_tokens rest) (sglang_costs turns rest mat).
Proof.
  intros Hnn. revert mat. induction rest as [|t rest IH]; intros mat; simpl; constructor; [|apply IH].
  pose proof (history_of_nonneg turns t Hnn). destruct (tn_parent_turn_id t); [case_decide|]; lia.
Qed.

Lemma Forall2_le_zsum l k : Forall2 Z.le l k → zsum l ≤ zsum k.
Proof. induction 1; unfold zsum in *; simpl; lia. Qed.

(** ** Flat conversations *)

(** Each turn continues the one before it. *)
Definition flat (turns : list ConversationTurn) : Prop :=
  NoDup (map tn_turn_id turns) ∧
  ∀ i t, turns !! i = Some t →
    tn_parent_turn_id t = match i with O => None | S j => tn_turn_id <$> turns !! j end.

Lemma by_id_flat turns i t : NoDup (map tn_turn_id turns) → turns !! i = Some t → by_id turns !! tn_turn_id t = Some t.
Proof.
  unfold by_id. revert i. induction turns as [|t0 turns IH] using rev_ind; intros i Hnd Hi; [done|].
  rewrite map_app in Hnd. apply NoDup_app in Hnd as (Hnd & Hdisj & _). rewrite foldl_app. cbn [foldl].
  apply lookup_app_Some in Hi as [Hi|[_ Hi]].
  - rewrite lookup_insert_ne; [by apply (IH i)|]. intros Heq. apply (Hdisj (tn_turn_id t)).
    + apply list_elem_of_In, in_map, list_elem_of_In. by eapply list_elem_of_lookup_2.
    + rewrite <- Heq. by left.
  - destruct (i - length turns)%nat; [|done]. injection Hi as ->. by rewrite lookup_insert_eq.
Qed.

Definition prefix_tokens (turns : list ConversationTurn) (i : nat) : Z := zsum (map tn_new_tokens (take i turns)).

Lemma prefix_tokens_S turns i t : turns !! i = Some t →
  prefix_tokens turns (S i) = prefix_tokens turns i + tn_new_tokens t.
Proof.
  intros Hi. unfold prefix_tokens. rewrite (take_S_r _ _ t) by done. rewrite map_app, zsum_app. unfold zsum. simpl. lia.
Qed.

Lemma ancestry_flat turns fuel i t total seen : flat turns → turns !! i = Some t → (i < fuel)%nat →
  (∀ j u, (j <= i)%nat → turns !! j = Some u → tn_turn_id u ∉ seen) →
  ancestry (by_id turns) fuel (Some (tn_turn_id t)) total seen = Some (total + prefix_tokens turns (S i)).
Proof.
  intros [Hnd Hpar]. revert fuel t total seen. induction i as [|i IH]; intros [|fuel] t total seen Hi Hf Hseen; try lia.
  all: cbn [ancestry]; rewrite (by_id_flat turns _ t Hnd Hi); rewrite decide_False by (by eapply Hseen).
  all: rewrite (Hpar _ _ Hi), (prefix_tokens_S _ _ _ Hi).
  - destruct fuel; simpl; f_equal; unfold prefix_tokens; rewrite take_0; unfold zsum; simpl; lia.
  - destruct (lookup_lt_is_Some_2 turns i) as [p Hp]; [apply lookup_lt_Some in Hi; lia|]. rewrite Hp. simpl.
    rewrite (IH fuel p); [f_equal; lia|done|lia|]. intros j u Hj Hu.
    rewrite not_elem_of_union, not_elem_of_singleton. split; [|eapply Hseen; [|exact Hu]; lia]. intros Heq.
    assert (j = S i); [|lia]. apply (NoDup_lookup _ j (S i) (tn_turn_id u) Hnd).
    + change (map ?f ?l) with (f <$> l). by rewrite list_lookup_fmap, Hu.
    + change (map ?f ?l) with (f <$> l). rewrite list_lookup_fmap, Hi. simpl. congruence.
Qed.

Lemma by_id_size turns : NoDup (map tn_turn_id turns) → size (by_id turns) = length turns.
Proof.
  unfold by_id. induction turns as [|t turns IH] using rev_ind; intros Hnd; [done|].
  rewrite map_app in Hnd. apply NoDup_app in Hnd as (Hnd & Hdisj & _). rewrite foldl_app, length_app. cbn [foldl length].
  rewrite map_size_insert_None.
  2: { destruct (foldl _ ∅ turns !! tn_turn_id t) as [u|] eqn:Hu; [exfalso|done].
       apply by_id_in in Hu as [Hin Hid]. apply (Hdisj (tn_turn_id t)); [|by left]. rewrite <- Hid.
       by apply list_elem_of_In, in_map, list_elem_of_In. }
  rewrite IH by done.
  lia.
Qed.

Lemma history_flat turns i t : flat turns → turns !! i = Some t → history_of turns t = prefix_tokens turns i.
Proof.
  intros Hflat Hi. assert (Hs : Some (history_of turns t) = Some (prefix_tokens turns i)); [|congruence].
  rewrite <- history_of_total, (by_id_size turns (proj1 Hflat)). pose proof (lookup_lt_Some _ _ _ Hi).
  rewrite (proj2 Hflat _ _ Hi). destruct i as [|i].
  - by destruct (length turns).
  - destruct (lookup_lt_is_Some_2 turns i ltac:(lia)) as [p Hp]. rewrite Hp. simpl.
    rewrite (ancestry_flat turns _ i p 0 ∅ Hflat Hp); [f_equal; lia|lia|]. intros j u _ _. set_solver.
Qed.

Lemma incremental_flat turns front rest : flat turns → turns = front ++ rest →
  incremental_costs turns rest (tn_turn_id <$> last front) = map tn_new_tokens rest.
Proof.
  intros Hflat. revert front. induction rest as [|t rest IH]; intros front Heq; [done|]. cbn [incremental_costs map].
  assert (Ht : turns !! length front = Some t) by (rewrite Heq; by apply list_lookup_middle).
  rewrite decide_True.
  - f_equal. specialize (IH (front ++ [t])). rewrite last_snoc in IH. apply IH. by rewrite Heq, <- app_assoc.
  - rewrite (proj2 Hflat _ _ Ht), last_lookup, Heq. destruct (length front) as [|j] eqn:Hlen.
    + destruct front; [done|simpl in Hlen; lia].
    + simpl. by rewrite lookup_app_l by lia.
Qed.

Lemma sglang_flat turns front rest mat : flat turns → turns = front ++ rest →
  (∀ u, u ∈ front → tn_turn_id u ∈ mat) → sglang_costs turns rest mat = map tn_new_tokens rest.
Proof.
  intros Hflat. revert front mat. induction rest as [|t rest IH]; intros front mat Heq Hmat; [done|].
  cbn [sglang_costs map].
  assert (Ht : turns !! length front = Some t) by (rewrite Heq; by apply list_lookup_middle). f_equal.
  - rewrite (proj2 Hflat _ _ Ht). destruct (length front) as [|j] eqn:Hlen; [done|].
    destruct (lookup_lt_is_Some_2 front j ltac:(lia)) as [p Hp].
    assert (turns !! j = Some p) as -> by (rewrite Heq; by rewrite lookup_app_l by lia).
    simpl. rewrite decide_True; [done|]. apply Hmat. by eapply list_elem_of_lookup_2.
  - apply (IH (front ++ [t])); [by rewrite Heq, <- app_assoc|]. intros u [Hu|Hu]%elem_of_app; [set_solver|].
    apply list_elem_of_singleton in Hu as ->. set_solver.
Qed.

(** ** The properties *)

Definition per_turn (r : res SessionRun) : list Z :=
  match r with Ret run => sr_per_turn_recompute run | Raise _ => [] end.

(** The strategies never cost more than what they improve on: on every session, branching or not, whose turns
    have no negative length, SGLang recomputes turn by turn at least the new tokens and at most what the
    incremental cache recomputes, which recomputes at most what the naive strategy does; so do their totals; and
    keeping the cache resident peaks where recomputing peaks. *)
Theorem session_costs_ordered (turns : list ConversationTurn) :
  nonneg_turns turns →
  ∃ sglang incremental naive,
    SGLang_run_session mkSGLang turns = Ret sglang ∧ Incremental_run_session mkIncremental turns = Ret incremental ∧
    Naive_run_session mkNaive turns = Ret naive ∧
    Forall2 Z.le (map tn_new_tokens turns) (sr_per_turn_recompute sglang) ∧
    Forall2 Z.le (sr_per_turn_recompute sglang) (sr_per_turn_recompute incremental) ∧
    Forall2 Z.le (sr_per_turn_recompute incremental) (sr_per_turn_recompute naive) ∧
    sr_tokens_recomputed sglang ≤ sr_tokens_recomputed incremental ≤ sr_tokens_recomputed naive ∧
    sr_peak_tokens_held sglang = sr_peak_tokens_held incremental ∧
    sr_peak_tokens_held incremental = sr_peak_tokens_held naive.
Proof.
  intros Hnn. eexists _, _, _. split; [reflexivity|]. split; [reflexivity|]. split; [reflexivity|]. cbn.
  pose proof (new_below_sglang turns turns ∅ Hnn) as H1.
  pose proof (sglang_below_incremental turns turns None ∅ Hnn I) as H2.
  pose proof (incremental_below_naive turns turns None Hnn) as H3.
  do 3 (split; [assumption|]). split; [split; by apply Forall2_le_zsum|]. split; [done|].
  unfold peak_of. destruct turns as [|t turns]; [done|]. cbn [map foldl]. f_equal.
  apply Forall_cons in Hnn as Hnn'. destruct Hnn' as [Ht _]. pose proof (history_of_nonneg (t :: turns) t Hnn). unfold resident_of. lia.
Qed.

Lemma session_costs_ordered_witness :
  ∃ sglang incremental naive,
    SGLang_run_session mkSGLang branching = Ret sglang ∧ Incremental_run_session mkIncremental branching = Ret incremental ∧
    Naive_run_session mkNaive branching = Ret naive ∧
    Forall2 Z.le (map tn_new_tokens branching) (sr_per_turn_recompute sglang) ∧
    Forall2 Z.le (sr_per_turn_recompute sglang) (sr_per_turn_recompute incremental) ∧
    Forall2 Z.le (sr_per_turn_recompute incremental) (sr_per_turn_recompute naive) ∧
    sr_tokens_recomputed sglang ≤ sr_tokens_recomputed incremental ≤ sr_tokens_recomputed naive ∧
    sr_peak_tokens_held sglang = sr_peak_tokens_held incremental ∧
    sr_peak_tokens_held incremental = sr_peak_tokens_held naive.
Proof. apply session_costs_ordered. unfold nonneg_turns, branching. repeat constructor; simpl; lia. Defined.

(** On a flat conversation the incremental cache and SGLang recompute exactly the new tokens of each turn, while
    the naive strategy recomputes every turn together with all the turns before it. *)
Theorem flat_session_costs (turns : list ConversationTurn) :
  flat turns →
  per_turn (Incremental_run_session mkIncremental turns) = map tn_new_tokens turns ∧
  per_turn (SGLang_run_session mkSGLang turns) = map tn_new_tokens turns ∧
  (∀ i, (i < length turns)%nat → per_turn (Naive_run_session mkNaive turns) !! i = Some (prefix_tokens turns (S i))).
Proof.
  intros Hflat. split; [apply (incremental_flat turns [] turns Hflat eq_refl)|]. split.
  - apply (sglang_flat turns [] turns ∅ Hflat eq_refl). intros u Hu. by apply not_elem_of_nil in Hu.
  - intros i Hi. destruct (lookup_lt_is_Some_2 turns i Hi) as [t Ht]. cbn [per_turn Naive_run_session sr_per_turn_recompute].
    change (map ?f ?l) with (f <$> l). rewrite list_lookup_fmap, Ht. simpl. f_equal.
    unfold resident_of. rewrite (history_flat turns i t Hflat Ht). by rewrite (prefix_tokens_S _ _ _ Ht).
Qed.

Definition chat : list ConversationTurn := [mkTurn "a" 100 None; mkTurn "b" 10 (Some "a"); mkTurn "c" 20 (Some "b")].

Lemma chat_flat : flat chat.
Proof.
  split; [by apply (bool_decide_unpack _)|]. intros [|[|[|i]]] t Ht; simpl in Ht; by simplify_eq.
Qed.

Lemma flat_session_costs_witness :
  per_turn (Incremental_run_session mkIncremental chat) = map tn_new_tokens chat ∧
  per_turn (SGLang_run_session mkSGLang chat) = map tn_new_tokens chat ∧
  (∀ i, (i < length chat)%nat → per_turn (Naive_run_session mkNaive chat) !! i = Some (prefix_tokens chat (S i))).
Proof. apply flat_session_costs, chat_flat. Defined.
