(* ===== verification/EmbeddingCache.v ===== *)
(** * The embedding cache

    rag/infrastructure/caching_embedding_model.py: an LRU cache in front of an
    embedding model, called from several worker threads.  [embed] is two
    critical sections with the wrapped model's call between them; the
    interleavings of any number of callers are a step relation over those
    sections. *)

From Stdlib Require Import ZArith Lia String.
From S2P Require Import Prelude PyFloat PySeq Digest RagPorts.

Definition DEFAULT_MAX_ENTRIES : Z := 1024.

(** [hashlib.sha256(text.encode()).digest()]. *)
Definition _digest (text : string) : list Z := Sha256.digest (bytes_of text).
#[global] Opaque _digest.

Record CachingEmbeddingModel : Type := mkCaching {
  ce_max_entries : Z;
  ce_entries : list (list Z * list f64);
  ce_hits : Z;
  ce_misses : Z
}.

Definition Caching_init (max_entries : Z) : res CachingEmbeddingModel :=
  if max_entries <? 1 then Raise (ValueError "max_entries must be at least 1")
  else Ret (mkCaching max_entries [] 0 0).

(** [d[key] = value; d.move_to_end(key)]. *)
Definition touch {V} (key : list Z) (value : V) (d : list (list Z * V)) : list (list Z * V) :=
  od_del key d ++ [(key, value)].

(** The first critical section: a hit moves its entry to the end. *)
Definition look_up (text : string) (c : CachingEmbeddingModel) : option (list f64) * CachingEmbeddingModel :=
  let key := _digest text in
  match od_get key (ce_entries c) with
  | Some cached => (Some cached, mkCaching (ce_max_entries c) (touch key cached (ce_entries c)) (ce_hits c + 1) (ce_misses c))
  | None => (None, c)
  end.

(** The loop [while len(entries) > max_entries: entries.popitem(last=False)]. *)
Fixpoint pop_oldest {A} (max_entries : Z) (d : list A) : list A :=
  match d with
  | [] => []
  | _ :: d' => if max_entries <? Z.of_nat (length d) then pop_oldest max_entries d' else d
  end.

(** The second critical section. *)
Definition store (text : string) (embedding : list f64) (c : CachingEmbeddingModel) : CachingEmbeddingModel :=
  mkCaching (ce_max_entries c) (pop_oldest (ce_max_entries c) (touch (_digest text) embedding (ce_entries c)))
    (ce_hits c) (ce_misses c + 1).

Definition Caching_embed {E} `{EmbeddingModel E} (text : string) : stm (CachingEmbeddingModel * E) (list f64) := λ s,
  match look_up text s.1 with
  | (Some cached, c) => (Ret cached, (c, s.2))
  | (None, c) =>
      match embed text s.2 with
      | (Ret embedding, inner) => (Ret embedding, (store text embedding c, inner))
      | (Raise e, inner) => (Raise e, (c, inner))
      end
  end.

#[export] Instance caching_embedding_model {E} `{EmbeddingModel E} : EmbeddingModel (CachingEmbeddingModel * E) :=
  Caching_embed.

(** ** Concurrent callers *)

(** A call is waiting for its look-up, computing after a miss, or has returned. *)
Inductive call : Type :=
  | Waiting (text : string)
  | Computing (text : string)
  | Returned (text : string) (embedding : list f64).

Definition text_of (c : call) : string :=
  match c with Waiting t | Computing t | Returned t _ => t end.
Definition has_returned (c : call) : bool := match c with Returned _ _ => true | _ => false end.

(** One critical section of one of the calls, the wrapped model a function of its text. *)
Inductive section_step (model : string → list f64) : CachingEmbeddingModel * list call → CachingEmbeddingModel * list call → Prop :=
  | step_hit c calls i text cached c' :
      calls !! i = Some (Waiting text) → look_up text c = (Some cached, c') →
      section_step model (c, calls) (c', <[i := Returned text cached]> calls)
  | step_miss c calls i text c' :
      calls !! i = Some (Waiting text) → look_up text c = (None, c') →
      section_step model (c, calls) (c', <[i := Computing text]> calls)
  | step_store c calls i text :
      calls !! i = Some (Computing text) →
      section_step model (c, calls) (store text (model text) c, <[i := Returned text (model text)]> calls).

(** ** Dropping the oldest *)

Lemma pop_oldest_eq {A} max (d : list A) : 0 ≤ max → pop_oldest max d = last_slice max d ∨ max = 0 ∧ pop_oldest max d = [].
Proof.
  intros Hmax. induction d as [|x d IH]; [left; unfold last_slice; by destruct (0 <? max); rewrite ?drop_nil|].
  cbn [pop_oldest]. destruct (Z.ltb_spec max (Z.of_nat (length (x :: d)))) as [Hlt|Hge].
  - destruct IH as [IH|[H0 IH]]; [|by right]. destruct (Z.eq_dec max 0) as [->|Hn].
    + right. split; [done|]. clear. induction d as [|y d IHd]; [done|]. cbn [pop_oldest]. rewrite (proj2 (Z.ltb_lt _ _)); [done|simpl; lia].
    + left. rewrite IH. unfold last_slice. rewrite (proj2 (Z.ltb_lt 0 max)) by lia.
      replace (length (x :: d) - Z.to_nat max)%nat with (S (length d - Z.to_nat max)) by (simpl in *; lia). done.
  - left. unfold last_slice. destruct (Z.ltb_spec 0 max); [|simpl in *; lia].
    replace (length (x :: d) - Z.to_nat max)%nat with O by (simpl in *; lia). done.
Qed.

Lemma pop_oldest_last {A} max (d : list A) : 1 ≤ max → pop_oldest max d = drop (length d - Z.to_nat max) d.
Proof.
  intros Hmax. destruct (pop_oldest_eq max d) as [->|[? _]]; [lia| |lia]. unfold last_slice.
  by rewrite (proj2 (Z.ltb_lt 0 max)) by lia.
Qed.

Lemma od_get_app {K V} `{EqDecision K} (k : K) (d1 d2 : list (K * V)) :
  od_get k (d1 ++ d2) = match od_get k d1 with Some v => Some v | None => od_get k d2 end.
Proof. induction d1 as [|[j v] d1 IH]; [done|]. cbn [app]. rewrite !od_get_cons. by case_decide. Qed.

Lemma od_keys_app {K V} `{EqDecision K} (d1 d2 : list (K * V)) : od_keys (d1 ++ d2) = od_keys d1 ++ od_keys d2.
Proof. apply map_app. Qed.

Lemma od_keys_del {K V} `{EqDecision K} (k : K) (d : list (K * V)) : od_keys (od_del k d) = filter (λ j, j ≠ k) (od_keys d).
Proof.
  unfold od_keys, od_del. induction d as [|[j v] d IH]; [done|]. cbn [map fst]. rewrite !filter_cons. cbn [fst].
  case_decide; cbn [map fst]; by rewrite IH.
Qed.

Lemma od_get_touch {V} k k' (v : V) d : od_get k (touch k' v d) = if decide (k' = k) then Some v else od_get k d.
Proof.
  unfold touch. rewrite od_get_app, od_get_del, od_get_cons. destruct (decide (k' = k)); [done|]. by destruct (od_get k d).
Qed.

Lemma od_get_drop {K V} `{EqDecision K} (n : nat) (k : K) (v : V) d : NoDup (od_keys d) →
  od_get k (drop n d) = Some v → od_get k d = Some v.
Proof.
  intros Hnd Hget. rewrite <- (take_drop n d) in Hnd |- *. rewrite od_get_app. rewrite od_keys_app in Hnd.
  apply NoDup_app in Hnd as (_ & Hdisj & _). destruct (od_get k (take n d)) as [w|] eqn:Hw; [|done]. exfalso.
  apply (Hdisj k).
  - destruct (decide (k ∈ od_keys (take n d))) as [|Hn]; [done|]. apply od_get_None in Hn. congruence.
  - destruct (decide (k ∈ od_keys (drop n d))) as [|Hn]; [done|]. apply od_get_None in Hn. congruence.
Qed.

Lemma touch_NoDup {V} k (v : V) d : NoDup (od_keys d) → NoDup (od_keys (touch k v d)).
Proof.
  intros Hnd. unfold touch. rewrite od_keys_app. apply NoDup_app. split; [by apply od_del_nodup|].
  split; [|apply NoDup_singleton]. intros x Hx ->%list_elem_of_singleton.
  rewrite od_keys_del in Hx. by apply list_elem_of_filter in Hx as [].
Qed.

(** ** The invariant of the cache *)

Section model.
Context (model : string → list f64).

(** Every entry is the model's value of a text with that digest; no key twice; no more than the bound. *)
Record cache_ok (c : CachingEmbeddingModel) : Prop := {
  co_nodup : NoDup (od_keys (ce_entries c));
  co_bound : Z.of_nat (length (ce_entries c)) ≤ ce_max_entries c;
  co_positive : 1 ≤ ce_max_entries c;
  co_values : ∀ k v, od_get k (ce_entries c) = Some v → ∃ text, k = _digest text ∧ v = model text
}.

Lemma touch_length_present {V} k (v w : V) d :
  NoDup (od_keys d) → od_get k d = Some w → length (touch k v d) = length d.
Proof.
  intros Hnd Hk. unfold touch. rewrite length_app. simpl.
  assert (Hlen : length (od_keys (od_del k d)) = length (od_del k d)) by apply length_map.
  assert (Hlen' : length (od_keys d) = length d) by apply length_map. rewrite <- Hlen, <- Hlen', od_keys_del.
  assert (Hin : k ∈ od_keys d) by (destruct (decide (k ∈ od_keys d)) as [|Hn]; [done|apply od_get_None in Hn; congruence]).
  clear Hlen Hlen' Hk. induction Hnd as [|j l Hj _ IH]; [by apply not_elem_of_nil in Hin|].
  rewrite filter_cons. case_decide as Hd; simpl.
  - apply elem_of_cons in Hin as [->|Hin]; [done|]. rewrite IH by done. lia.
  - assert (j = k) as -> by done. rewrite list_filter_all; [lia|]. apply list.Forall_forall. intros x Hx ->. done.
Qed.

Lemma cache_ok_init max c : Caching_init max = Ret c → cache_ok c.
Proof.
  unfold Caching_init. destruct (Z.ltb_spec max 1); [done|]. intros [= <-].
  split; cbn; [constructor|lia|lia|done].
Qed.

Lemma cache_ok_look_up c text r c' : cache_ok c → look_up text c = (r, c') →
  cache_ok c' ∧ match r with Some v => ∃ text', _digest text = _digest text' ∧ v = model text' | None => True end.
Proof.
  intros [Hnd Hb Hp Hv]. unfold look_up. destruct (od_get (_digest text) (ce_entries c)) as [v|] eqn:Hg; intros [= <- <-].
  - split; [|by apply Hv]. split; cbn; [by apply touch_NoDup|by erewrite touch_length_present|done|].
    intros k w. rewrite od_get_touch. case_decide as Hk; [|apply Hv]. intros [= <-]. subst k. by apply Hv.
  - done.
Qed.

Lemma cache_ok_store c text : cache_ok c → cache_ok (store text (model text) c).
Proof.
  intros [Hnd Hb Hp Hv]. pose proof (touch_NoDup (_digest text) (model text) _ Hnd) as Hnd'. split; cbn.
  - rewrite pop_oldest_last by done. set (d := touch _ _ _) in *. set (n := (length d - _)%nat).
    rewrite <- (take_drop n d), od_keys_app in Hnd'. by apply NoDup_app in Hnd' as (_ & _ & ?).
  - rewrite pop_oldest_last, length_drop by done. lia.
  - done.
  - intros k v. rewrite pop_oldest_last by done. intros Hget%od_get_drop; [|done]. rewrite od_get_touch in Hget.
    case_decide as Hk; [|by apply Hv]. injection Hget as <-. by exists text.
Qed.

(** Calls in flight, against the cache's counters. *)
Record calls_ok (s : CachingEmbeddingModel * list call) : Prop := {
  ca_cache : cache_ok s.1;
  ca_values : ∀ i text v, s.2 !! i = Some (Returned text v) → ∃ text', _digest text = _digest text' ∧ v = model text';
  ca_counts : ce_hits s.1 + ce_misses s.1 = Z.of_nat (length (filter (λ c, has_returned c = true) s.2))
}.

Lemma count_insert (P : call → bool) (l : list call) i x y : l !! i = Some x → P x = false → P y = true →
  length (filter (λ c, P c = true) (<[i := y]> l)) = S (length (filter (λ c, P c = true) l)).
Proof.
  intros Hi Hx Hy. rewrite insert_take_drop by (by eapply lookup_lt_Some). rewrite <- (take_drop_middle l i x Hi) at 3.
  rewrite !filter_app, !filter_cons, Hx, Hy. simpl. rewrite !length_app. simpl. lia.
Qed.

Lemma count_insert_same (P : call → bool) (l : list call) i x y : l !! i = Some x → P x = false → P y = false →
  length (filter (λ c, P c = true) (<[i := y]> l)) = length (filter (λ c, P c = true) l).
Proof.
  intros Hi Hx Hy. rewrite insert_take_drop by (by eapply lookup_lt_Some). rewrite <- (take_drop_middle l i x Hi) at 3.
  rewrite !filter_app, !filter_cons, Hx, Hy. simpl. rewrite !length_app. simpl. lia.
Qed.

Lemma section_step_ok s s' : section_step model s s' → calls_ok s → calls_ok s'.
Proof.
  intros Hstep [Hc Hv Hn]. destruct Hstep as [c calls i text cached c' Hi Hl|c calls i text c' Hi Hl|c calls i text Hi];
    cbn [fst snd] in *.
  - destruct (cache_ok_look_up c text _ c' Hc Hl) as [Hc' Hval]. split; cbn [fst snd]; [done|..].
    + intros j t v. rewrite list_lookup_insert. case_decide as Hd; [|by apply Hv].
      intros [= <- <-]. exact Hval.
    + erewrite (count_insert has_returned); [|exact Hi|done|done]. unfold look_up in Hl.
      destruct (od_get _ _); [|done]. injection Hl as _ <-. cbn. lia.
  - destruct (cache_ok_look_up c text _ c' Hc Hl) as [Hc' _]. split; cbn [fst snd]; [done|..].
    + intros j t v. rewrite list_lookup_insert. case_decide; [done|by apply Hv].
    + erewrite (count_insert_same has_returned); [|exact Hi|done|done]. unfold look_up in Hl.
      destruct (od_get _ _); [done|]. by injection Hl as <-.
  - split; cbn [fst snd]; [by apply cache_ok_store|..].
    + intros j t v. rewrite list_lookup_insert. case_decide; [|by apply Hv]. intros [= <- <-]. by exists text.
    + erewrite (count_insert has_returned); [|exact Hi|done|done]. cbn. lia.
Qed.
End model.

(** ** Least recently used *)

(** Digests by last use, oldest first. *)
Definition used (recency : list (list Z)) (key : list Z) : list (list Z) := filter (λ j, j ≠ key) recency ++ [key].
Definition recency_of (texts : list string) : list (list Z) := foldl used [] (map _digest texts).

(** The last [n] of a list, and using one key more. *)
Definition last_n {A} (n : nat) (l : list A) : list A := drop (length l - n) l.

Lemma last_n_app {A} n (l k : list A) : last_n n (l ++ k) = last_n (n - length k) l ++ last_n n k.
Proof.
  unfold last_n. rewrite drop_app, length_app. f_equal; [|f_equal; lia].
  destruct (Nat.le_gt_cases (length k) n); [f_equal; lia|]. by rewrite !drop_ge by lia.
Qed.

Lemma used_NoDup r k : NoDup r → NoDup (used r k).
Proof.
  intros Hnd. apply NoDup_app. split; [by apply NoDup_filter|]. split; [|apply NoDup_singleton].
  intros x [Hx _]%list_elem_of_filter ->%list_elem_of_singleton. done.
Qed.

Lemma last_n_filter_in n (r : list (list Z)) k : NoDup r → k ∈ last_n (S n) r →
  filter (λ j, j ≠ k) (last_n (S n) r) = last_n n (filter (λ j, j ≠ k) r).
Proof.
  intros Hnd Hin. unfold last_n in *. set (m := (length r - S n)%nat) in *.
  assert (Hsplit : filter (λ j, j ≠ k) r = take m r ++ filter (λ j, j ≠ k) (drop m r)).
  { rewrite <- (take_drop m r) at 1. rewrite filter_app. f_equal. apply list_filter_all, list.Forall_forall.
    intros x Hx ->. rewrite <- (take_drop m r) in Hnd. apply NoDup_app in Hnd as (_ & Hd & _). by apply (Hd k). }
  rewrite Hsplit, drop_app. assert (Hlen : length (filter (λ j, j ≠ k) (drop m r)) = pred (length (drop m r))).
  { assert (Hnd' : NoDup (drop m r)) by (eapply sublist_NoDup; [exact Hnd|apply sublist_drop]).
    clear Hsplit Hnd. induction (drop m r) as [|j l IH]; [by apply not_elem_of_nil in Hin|].
    apply NoDup_cons in Hnd' as [Hj Hnd']. rewrite filter_cons. case_decide as Hd; simpl.
    - apply elem_of_cons in Hin as [->|Hin]; [done|]. rewrite IH by done. destruct l; [by apply not_elem_of_nil in Hin|done].
    - assert (j = k) as -> by done. rewrite list_filter_all; [done|]. apply list.Forall_forall. by intros x Hx ->. }
  rewrite length_app, Hlen, length_take, !length_drop.
  assert (0 < length (drop m r))%nat by (destruct (drop m r); [by apply not_elem_of_nil in Hin|simpl; lia]).
  rewrite length_drop in *. rewrite (drop_ge (take m r)) by (rewrite length_take; unfold m in *; lia).
  replace (_ - _)%nat with O by (unfold m in *; lia). done.
Qed.

Lemma last_n_filter_out n (r : list (list Z)) k : k ∉ last_n n r →
  last_n n (filter (λ j, j ≠ k) r) = last_n n r.
Proof.
  intros Hnin. unfold last_n in *. set (m := (length r - n)%nat) in *.
  rewrite <- (take_drop m r) at 1 2. rewrite filter_app, (list_filter_all _ (drop m r)).
  2: { apply list.Forall_forall. by intros x Hx ->. }
  rewrite drop_app, length_app, length_drop.
  assert (length (filter (λ j, j ≠ k) (take m r)) <= m)%nat.
  { etransitivity; [apply length_filter|]. rewrite length_take. lia. }
  destruct (Nat.le_gt_cases (length r) n).
  - assert (m = O) as Hm by (unfold m; lia). rewrite Hm, take_0, drop_0. simpl. by replace (_ - _)%nat with O by lia.
  - rewrite drop_ge by lia. simpl. replace (_ - _)%nat with O by lia. done.
Qed.

(** A hit, and a store, keep the keys the last ones used. *)
Lemma touch_keys {V} k (v : V) d : od_keys (touch k v d) = used (od_keys d) k.
Proof. unfold touch, used. by rewrite od_keys_app, od_keys_del. Qed.

Lemma last_n_map {A B} (f : A → B) n l : map f (last_n n l) = last_n n (map f l).
Proof. unfold last_n. by rewrite skipn_map, length_map. Qed.

Lemma used_hit n r k : (1 <= n)%nat → NoDup r → k ∈ last_n n r → used (last_n n r) k = last_n n (used r k).
Proof.
  intros Hn Hnd Hin. destruct n as [|n]; [lia|]. unfold used at 2. rewrite last_n_app. cbn [length].
  replace (S n - 1)%nat with n by lia. unfold used. rewrite last_n_filter_in by done. done.
Qed.

Lemma used_store n r k : (1 <= n)%nat → NoDup r → last_n n (used (last_n n r) k) = last_n n (used r k).
Proof.
  intros Hn Hnd. destruct n as [|n]; [lia|]. unfold used. rewrite !last_n_app. cbn [length]. f_equal.
  replace (S n - 1)%nat with n by lia. destruct (decide (k ∈ last_n (S n) r)) as [Hin|Hout].
  - rewrite last_n_filter_in by done. unfold last_n. rewrite length_drop, drop_drop. f_equal. lia.
  - assert (Hout' : k ∉ last_n n r).
    { intros Hk. apply Hout. unfold last_n in *. destruct (Nat.le_gt_cases (length r) n).
      - replace (length r - S n)%nat with O by lia. by replace (length r - n)%nat with O in Hk by lia.
      - replace (length r - n)%nat with (length r - S n + 1)%nat in Hk by lia. rewrite <- drop_drop in Hk.
        eapply sublist_subseteq; [apply sublist_drop|exact Hk]. }
    rewrite (last_n_filter_out n r k Hout'). rewrite list_filter_all by (apply list.Forall_forall; by intros x Hx ->).
    unfold last_n. rewrite length_drop, drop_drop. f_equal. lia.
Qed.

Section lru.
Context {E : Type} `{EmbeddingModel E} (model : string → list f64).
Context (Hpure : ∀ text (e : E), embed text e = (Ret (model text), e)).

Lemma recency_NoDup texts : NoDup (recency_of texts).
Proof.
  unfold recency_of. induction texts as [|t ts IH] using rev_ind; [constructor|].
  rewrite map_app, foldl_app. by apply used_NoDup.
Qed.

(** The cache after the texts so far: the last keys used, under the model's values. *)
Definition lru_state (texts : list string) (c : CachingEmbeddingModel) : Prop :=
  cache_ok model c ∧ od_keys (ce_entries c) = last_n (Z.to_nat (ce_max_entries c)) (recency_of texts).

Lemma embed_lru texts text c (e : E) : lru_state texts c →
  ∃ v c', Caching_embed text (c, e) = (Ret v, (c', e)) ∧ lru_state (texts ++ [text]) c' ∧
    ce_max_entries c' = ce_max_entries c ∧ ∃ text', _digest text = _digest text' ∧ v = model text'.
Proof.
  intros [Hok Hkeys]. pose proof (recency_NoDup texts) as Hnd. pose proof (co_positive _ _ Hok) as Hpos.
  assert (Hrec : recency_of (texts ++ [text]) = used (recency_of texts) (_digest text))
    by (unfold recency_of; by rewrite map_app, foldl_app).
  unfold Caching_embed. cbn [fst snd]. destruct (look_up text c) as [r c1] eqn:Hl.
  destruct (cache_ok_look_up model c text r c1 Hok Hl) as [Hok1 Hval]. unfold look_up in Hl.
  destruct (od_get (_digest text) (ce_entries c)) as [v|] eqn:Hget; injection Hl as <- <-.
  - exists v. eexists. split; [done|]. split; [|done]. split; [done|]. cbn [ce_entries ce_max_entries].
    rewrite touch_keys, Hkeys, Hrec. apply used_hit; [lia|done|]. rewrite <- Hkeys.
    destruct (decide (_digest text ∈ od_keys (ce_entries c))) as [|Hn]; [done|]. apply od_get_None in Hn. congruence.
  - rewrite Hpure. eexists _, _. split; [done|]. split; [|split; [done|by exists text]].
    split; [by apply cache_ok_store|]. cbn [store ce_entries ce_max_entries]. rewrite pop_oldest_last by done.
    change (drop (length ?l - ?n) ?l) with (last_n n l). unfold od_keys. rewrite last_n_map.
    fold (od_keys (touch (_digest text) (model text) (ce_entries c))). rewrite touch_keys, Hkeys, Hrec.
    apply used_store; [lia|done].
Qed.

Lemma embed_all_lru texts max c0 (e : E) : Caching_init max = Ret c0 →
  ∃ vs c, for_each texts Caching_embed (c0, e) = (Ret vs, (c, e)) ∧ lru_state texts c ∧ ce_max_entries c = max ∧
    Forall2 (λ text v, ∃ text', _digest text = _digest text' ∧ v = model text') texts vs.
Proof.
  intros Hinit. assert (Hst : lru_state [] c0 ∧ ce_max_entries c0 = max).
  { split; [split; [by eapply cache_ok_init|]|]; unfold Caching_init in Hinit; destruct (max <? 1); try done;
      by injection Hinit as <-. }
  clear Hinit. change texts with ([] ++ texts) at 2. revert c0 Hst. generalize (@nil string) as front.
  induction texts as [|t ts IH]; intros front c0 [Hst Hmax].
  - exists [], c0. rewrite app_nil_r. repeat split; try done; apply Hst.
  - destruct (embed_lru front t c0 e Hst) as (v & c1 & Hrun & Hst1 & Hm1 & Hv).
    destruct (IH (front ++ [t]) c1) as (vs & c2 & Hrest & Hst2 & Hm2 & Hvs); [by rewrite Hm1|].
    rewrite <- app_assoc in Hst2. exists (v :: vs), c2. split; [|split; [done|split; [done|by constructor]]].
    cbn [for_each]. unfold mbind, stm_bind. rewrite Hrun, Hrest. done.
Qed.
End lru.

(** ** The properties *)

(** C30: Thread safety: start any number of calls on a new cache in front of a model that is a function of its text,
    and interleave their critical sections in any order.  At every point the cache is within its bound and holds no
    digest twice; every call that has returned got the model's value of a text with its own text's digest; the hits
    and misses add up to the calls that have returned; and while one has not, some section can run. *)
Theorem concurrent_embeds_agree (model : string → list f64) (max : Z) (c0 c : CachingEmbeddingModel)
    (texts : list string) (calls : list call) :
  Caching_init max = Ret c0 → rtc (section_step model) (c0, map Waiting texts) (c, calls) →
  Z.of_nat (length (ce_entries c)) ≤ ce_max_entries c ∧ NoDup (od_keys (ce_entries c)) ∧
  (∀ i text v, calls !! i = Some (Returned text v) → ∃ text', _digest text = _digest text' ∧ v = model text') ∧
  ce_hits c + ce_misses c = Z.of_nat (length (filter (λ c, has_returned c = true) calls)) ∧
  ((∃ cl, cl ∈ calls ∧ has_returned cl = false) → ∃ s', section_step model (c, calls) s').
Proof.
  intros Hinit Hsteps. assert (Hok0 : calls_ok model (c0, map Waiting texts)).
  { split; cbn [fst snd]; [by eapply cache_ok_init|..].
    - intros i text v. change (map ?f ?l) with (f <$> l). rewrite list_lookup_fmap. by destruct (texts !! i).
    - rewrite list_filter_none by (apply Forall_map, Forall_true; done).
      unfold Caching_init in Hinit. destruct (max <? 1); [done|]. by injection Hinit as <-. }
  assert (Hok : calls_ok model (c, calls)).
  { remember (c, calls) as s' eqn:Hs. clear Hs Hinit. revert Hok0. induction Hsteps as [|s1 s2 s3 Hstep _ IH]; [done|].
    intros Hok1. by apply IH, section_step_ok with (1 := Hstep). }
  destruct Hok as [[Hnd Hb Hp Hcv] Hv Hn]. cbn [fst snd] in *. split_and!; try done.
  intros (cl & Hcl & Hret). apply list_elem_of_lookup_1 in Hcl as [i Hi]. destruct cl as [t|t|]; [| |done].
  - destruct (look_up t c) as [[v|] c'] eqn:Hl; eexists; [by eapply step_hit|by eapply step_miss].
  - eexists. by eapply step_store.
Qed.

Lemma concurrent_embeds_agree_witness :
  let model := λ t, [of_Z_raw (Z.of_nat (String.length t))] in
  let c1 := store "a" (model "a"%string) (store "a" (model "a"%string) (mkCaching 2 [] 0 0)) in
  Z.of_nat (length (ce_entries c1)) ≤ ce_max_entries c1 ∧ NoDup (od_keys (ce_entries c1)) ∧
  (∀ i text v, [Returned "a" (model "a"%string); Returned "a" (model "a"%string)] !! i = Some (Returned text v) →
     ∃ text', _digest text = _digest text' ∧ v = model text') ∧
  ce_hits c1 + ce_misses c1 = 2 ∧
  ((∃ cl, cl ∈ [Returned "a" (model "a"%string); Returned "a" (model "a"%string)] ∧ has_returned cl = false) →
   ∃ s', section_step model (c1, [Returned "a" (model "a"%string); Returned "a" (model "a"%string)]) s').
Proof.
  intros model c1. apply (concurrent_embeds_agree model 2 (mkCaching 2 [] 0 0) c1 ["a"; "a"]%string); [reflexivity|].
  eapply rtc_l; [by eapply (step_miss _ _ _ 0)|]. eapply rtc_l; [by eapply (step_miss _ _ _ 1)|].
  eapply rtc_l; [by eapply (step_store _ _ _ 0)|]. eapply rtc_l; [by eapply (step_store _ _ _ 1)|]. apply rtc_refl.
Defined.

(** Embedding texts one after the other through a new cache returns, for each, the model's value of a text with
    its digest, and leaves exactly the most recently used digests in the cache, oldest use first, as many as fit. *)
Theorem cache_is_lru {E : Type} `{EmbeddingModel E} (model : string → list f64) (max : Z)
    (c0 : CachingEmbeddingModel) (e : E) (texts : list string) :
  (∀ text (e : E), embed text e = (Ret (model text), e)) → Caching_init max = Ret c0 →
  ∃ vs c, for_each texts Caching_embed (c0, e) = (Ret vs, (c, e)) ∧
    Forall2 (λ text v, ∃ text', _digest text = _digest text' ∧ v = model text') texts vs ∧
    od_keys (ce_entries c) = drop (length (recency_of texts) - Z.to_nat max) (recency_of texts).
Proof.
  intros Hpure Hinit. destruct (embed_all_lru model Hpure texts max c0 e Hinit) as (vs & c & Hrun & [_ Hkeys] & Hmax & Hvs).
  exists vs, c. split; [done|]. split; [done|]. by rewrite Hkeys, Hmax.
Qed.

(** A model that embeds a text as its length. *)
Definition length_model : string → list f64 := λ t, [of_Z_raw (Z.of_nat (String.length t))].
#[local] Instance length_embedding : EmbeddingModel unit := λ text e, (Ret (length_model text), e).

Lemma cache_is_lru_witness :
  ∃ vs c, for_each ["a"; "b"; "a"; "c"]%string Caching_embed (mkCaching 2 [] 0 0, ()) = (Ret vs, (c, ())) ∧
    Forall2 (λ text v, ∃ text', _digest text = _digest text' ∧ v = length_model text') ["a"; "b"; "a"; "c"]%string vs ∧
    od_keys (ce_entries c) = drop (length (recency_of ["a"; "b"; "a"; "c"]%string) - Z.to_nat 2) (recency_of ["a"; "b"; "a"; "c"]%string).
Proof. apply (cache_is_lru length_model 2); reflexivity. Defined.
