(* ===== verification/RagRetrieval.v ===== *)
(** * RAG retrieval

    The retrievers and rerankers of rag/infrastructure over the ports of
    rag/domain/ports.py: _result_fusion.py, hybrid_search_documents.py,
    multi_query_retriever.py, hyde_retriever.py, corrective_retriever.py,
    parent_document_retriever.py, reranking_retriever.py,
    cross_encoder_reranker.py, bi_encoder_rerank_reranker.py,
    bm25_keyword_search.py, and the use cases of rag/application
    (search_documents.py, answer_question.py, self_rag_answer_question.py).
    Scoring models are parameters.  Calls that asyncio.gather starts together
    run here one after the other, in the order the results are put in. *)

From Stdlib Require Import ZArith Lia Ascii String.
From stdpp Require Import pretty.
From S2P Require Import Prelude PyFloat IntDivision PySeq Digest PyStr Json Prompts RagPorts.

(** ** Reciprocal rank fusion *)

Definition DEFAULT_RRF_K : Z := 60.

Record Fusion : Type := mkFusion {
  rrf_scores : list (uuid * f64);
  rrf_by_id : list (uuid * SearchResult)
}.

(** The inner loop, [rank] being the position of the first of the results left. *)
Fixpoint fuse_list (k_rrf rank : Z) (results : list SearchResult) (f : Fusion) : res Fusion :=
  match results with
  | [] => Ret f
  | result :: rest =>
      d ← int_to_float (k_rrf + rank + 1);
      inc ← fdiv fone d;
      let cid := sr_chunk_id result in
      fuse_list k_rrf (rank + 1) rest
        (mkFusion (od_set cid (fadd (default fzero (od_get cid (rrf_scores f))) inc) (rrf_scores f))
           (od_set cid result (rrf_by_id f)))
  end.

Fixpoint fuse_lists (k_rrf : Z) (result_lists : list (list SearchResult)) (f : Fusion) : res Fusion :=
  match result_lists with
  | [] => Ret f
  | result_list :: rest => f' ← fuse_list k_rrf 0 result_list f; fuse_lists k_rrf rest f'
  end.

(** [scores[cid]] of a key that is there. *)
Definition rrf_score (f : Fusion) (cid : uuid) : f64 := default fzero (od_get cid (rrf_scores f)).

Definition merged_result (f : Fusion) (cid : uuid) : res SearchResult :=
  match od_get cid (rrf_by_id f) with
  | Some r => Ret (mkSearchResult (sr_document_id r) cid (sr_content r) (rrf_score f cid))
  | None => Raise KeyError
  end.

Definition reciprocal_rank_fusion (result_lists : list (list SearchResult)) (top_k k_rrf : Z) : res (list SearchResult) :=
  f ← fuse_lists k_rrf result_lists (mkFusion [] []);
  let merged_ids := sorted_desc (rrf_score f) (od_keys (rrf_scores f)) in
  res_mapM (merged_result f) (py_slice 0 top_k merged_ids).

(** ** Retrievers over retrievers *)

Record HybridSearchDocuments (V K : Type) : Type := mkHybrid { hy_vector : V; hy_keyword : K; hy_candidate_k : Z }.
#[global] Arguments mkHybrid {_ _}.
#[global] Arguments hy_vector {_ _}.
#[global] Arguments hy_keyword {_ _}.
#[global] Arguments hy_candidate_k {_ _}.

Definition Hybrid_execute {V K} `{Retriever V} `{Retriever K} (tenant_id : uuid) (query : string) (top_k : Z) :
  stm (HybridSearchDocuments V K) (list SearchResult) := λ h,
  let '(rv, v) := retrieve tenant_id query (hy_candidate_k h) (hy_vector h) in
  let '(rk, k) := retrieve tenant_id query (hy_candidate_k h) (hy_keyword h) in
  ((vector_results ← rv; keyword_results ← rk;
    reciprocal_rank_fusion [vector_results; keyword_results] top_k DEFAULT_RRF_K),
   mkHybrid v k (hy_candidate_k h)).

#[export] Instance hybrid_retriever {V K} `{Retriever V} `{Retriever K} : Retriever (HybridSearchDocuments V K) :=
  Hybrid_execute.

Section over.
Context {R M : Type} `{Retriever R} `{ChatModel M}.

(** MultiQueryRetriever, from its number of queries. *)
Definition MultiQuery_execute (num_queries : Z) (tenant_id : uuid) (query : string) (top_k : Z) :
  stm (R * M) (list SearchResult) :=
  response ← on_snd (cm_complete (MULTI_QUERY_PROMPT (pretty num_queries) query));
  let lines := filter (λ l, l ≠ EmptyString) (map strip (splitlines response)) in
  let variants := match lines with [] => [query] | _ => lines end in
  result_lists ← for_each variants (λ v, on_fst (retrieve tenant_id v top_k));
  lift_res (reciprocal_rank_fusion result_lists top_k DEFAULT_RRF_K).

Definition HyDE_execute (tenant_id : uuid) (query : string) (top_k : Z) : stm (R * M) (list SearchResult) :=
  hypothetical_answer ← on_snd (cm_complete (HYDE_PROMPT query));
  on_fst (retrieve tenant_id hypothetical_answer top_k).
End over.

(** ** Yes or no *)

(** The characters beyond ASCII that [\w] matches: Unicode data. *)
Class UnicodeWords : Type := word_beyond_ascii : Z → bool.

Section yes_no.
Context `{UnicodeWords}.

Definition is_word (c : Z) : bool :=
  if c <? 128 then
    ((48 <=? c) && (c <=? 57)) || ((65 <=? c) && (c <=? 90)) || ((97 <=? c) && (c <=? 122)) || (c =? 95)
  else word_beyond_ascii c.

(** A letter in either case; [re.IGNORECASE] also takes the long s for an s. *)
Definition letter (lower c : Z) : bool := (c =? lower) || (c =? lower - 32) || ((lower =? 115) && (c =? 383)).

Definition ends_word (l : list Z) : bool := match l with [] => true | c :: _ => negb (is_word c) end.

(** [(yes|no)\b] here: whether [group(1).lower()] is "yes". *)
Definition yes_no_at (l : list Z) : option bool :=
  match l with
  | y :: e :: s :: rest =>
      if letter 121 y && letter 101 e && letter 115 s && ends_word rest then Some (negb (s =? 383))
      else if letter 110 y && letter 111 e && ends_word (s :: rest) then Some false
      else None
  | [n; o] => if letter 110 n && letter 111 o then Some false else None
  | _ => None
  end.

Fixpoint yes_no_search (previous_word : bool) (l : list Z) : option bool :=
  match l with
  | [] => None
  | c :: rest =>
      match (if previous_word then None else yes_no_at l) with
      | Some answer => Some answer
      | None => yes_no_search (is_word c) rest
      end
  end.

(** [re.search(r"\b(yes|no)\b", response, re.IGNORECASE)]. *)
Definition yes_no (response : string) : option bool := yes_no_search false (code_points response).
End yes_no.

#[local] Instance no_more_words : UnicodeWords := λ _, false.
Example gate_answers :
  map yes_no ["YES"; "Based on my knowledge, NO"; "Unknown"; "no."; "not needed"; "nobody says yes!"]%string =
    [Some true; Some false; None; Some false; None; Some true].
Proof. vm_compute. reflexivity. Qed.

(** ** Correction and parents *)

Section corrective.
Context {R M : Type} `{Retriever R} `{ChatModel M} `{UnicodeWords}.

Definition _is_relevant (query : string) (result : SearchResult) : stm M bool :=
  response ← cm_complete (RELEVANCE_PROMPT query (sr_content result));
  mret (match yes_no response with Some answer => answer | None => false end).

Definition Corrective_execute (tenant_id : uuid) (query : string) (top_k : Z) : stm (R * M) (list SearchResult) :=
  results ← on_fst (retrieve tenant_id query top_k);
  match results with
  | [] => mret results
  | _ =>
      relevance_flags ← on_snd (for_each results (_is_relevant query));
      let relevant := map fst (filter (λ p, p.2 = true) (zip results relevance_flags)) in
      match relevant with
      | _ :: _ => mret relevant
      | [] =>
          refined ← on_snd (cm_complete (REFINE_QUERY_PROMPT query));
          let refined_query := if String.eqb (strip refined) EmptyString then query else strip refined in
          on_fst (retrieve tenant_id refined_query top_k)
      end
  end.
End corrective.

Section parents.
Context {R D : Type} `{Retriever R} `{DocumentRepository D}.

(** The loop over the child results. *)
Fixpoint expand_parents (children : list SearchResult) (seen : gset uuid) (expanded : list SearchResult) :
  stm D (list SearchResult) :=
  match children with
  | [] => mret expanded
  | child :: rest =>
      child_chunk ← dr_get_chunk_by_id (sr_chunk_id child);
      match child_chunk ≫= chunk_parent_id with
      | None => expand_parents rest seen expanded
      | Some pid =>
          if decide (pid ∈ seen) then expand_parents rest seen expanded
          else
            parent_chunk ← dr_get_chunk_by_id pid;
            match parent_chunk with
            | None => expand_parents rest seen expanded
            | Some parent =>
                expand_parents rest ({[pid]} ∪ seen)
                  (expanded ++ [mkSearchResult (sr_document_id child) pid (chunk_content parent) (sr_score child)])
            end
      end
  end.

Definition ParentDocument_execute (tenant_id : uuid) (query : string) (top_k : Z) :
  stm (R * D) (list SearchResult) :=
  child_results ← on_fst (retrieve tenant_id query top_k);
  on_snd (expand_parents child_results ∅ []).
End parents.

Definition Reranking_execute {R K} `{Retriever R} `{Reranker K} (candidate_k : Z) (tenant_id : uuid)
    (query : string) (top_k : Z) : stm (R * K) (list SearchResult) :=
  candidates ← on_fst (retrieve tenant_id query candidate_k);
  on_snd (rerank query candidates top_k).

(** ** Rerankers *)

(** [sorted(scored, key=score, reverse=True)] and its first [top_k]. *)
Definition best_of {A} (scored : list (A * f64)) (top_k : Z) : list A :=
  map fst (py_slice 0 top_k (sorted_desc snd scored)).

Class PairScoringModel (P : Type) : Type := predict : list (string * string) → stm P (list f64).

Definition CrossEncoder_rerank {P} `{PairScoringModel P} (query : string) (results : list SearchResult) (top_k : Z) :
  stm P (list SearchResult) :=
  match results with
  | [] => mret []
  | _ =>
      scores ← predict (map (λ r, (query, sr_content r)) results);
      scored ← lift_res (zip_strict results scores);
      mret (best_of scored top_k)
  end.

#[export] Instance cross_encoder_reranker {P} `{PairScoringModel P} : Reranker P := CrossEncoder_rerank.

(** [re.findall(r"[a-zA-Z0-9]+", text)]. *)
Definition is_token_char (c : ascii) : bool :=
  let n := N_of_ascii c in
  ((48 <=? n) && (n <=? 57) || (65 <=? n) && (n <=? 90) || (97 <=? n) && (n <=? 122))%N.

Fixpoint tokens_of (text current : string) : list string :=
  match text with
  | EmptyString => if String.eqb current EmptyString then [] else [current]
  | String c rest =>
      if is_token_char c then tokens_of rest (current +:+ String c EmptyString)%string
      else if String.eqb current EmptyString then tokens_of rest EmptyString
      else current :: tokens_of rest EmptyString
  end.

Definition _tokenize (text : string) : list string := tokens_of (lower text) EmptyString.

Definition _jaccard (a b : string) : res f64 :=
  let tokens_a : gset string := list_to_set (_tokenize a) in
  let tokens_b : gset string := list_to_set (_tokenize b) in
  if decide (tokens_a = ∅ ∨ tokens_b = ∅) then Ret fzero
  else int_true_div (Z.of_nat (size (tokens_a ∩ tokens_b))) (Z.of_nat (size (tokens_a ∪ tokens_b))).

(** The score of one result. *)
Definition blended {E} `{EmbeddingModel E} (query : string) (query_embedding : list f64) (r : SearchResult) :
  stm E (SearchResult * f64) :=
  embedding ← embed (sr_content r);
  semantic ← lift_res (cosine_similarity query_embedding embedding);
  lexical ← lift_res (_jaccard query (sr_content r));
  mret (r, fadd (fmul (flit 7 10) semantic) (fmul (flit 3 10) lexical)).

Definition BiEncoder_rerank {E} `{EmbeddingModel E} (query : string) (results : list SearchResult) (top_k : Z) :
  stm E (list SearchResult) :=
  match results with
  | [] => mret []
  | _ =>
      query_embedding ← embed query;
      scored ← for_each results (blended query query_embedding);
      mret (best_of scored top_k)
  end.

(** The library's index: [BM25Plus(corpus).get_scores(query)]. *)
Class BM25Plus : Type := bm25_get_scores : list (list string) → list string → list f64.

Definition BM25_execute {D} `{DocumentRepository D} `{BM25Plus} (tenant_id : uuid) (query : string) (top_k : Z) :
  stm D (list SearchResult) :=
  chunks ← dr_get_chunks_for_tenant tenant_id;
  match chunks with
  | [] => mret []
  | _ =>
      let scores := bm25_get_scores (map (λ c, _tokenize (chunk_content c)) chunks) (_tokenize query) in
      scored ← lift_res (zip_strict chunks scores);
      mret (map (λ p : Chunk * f64, mkSearchResult (chunk_document_id p.1) (chunk_id p.1) (chunk_content p.1) p.2)
              (py_slice 0 top_k (sorted_desc snd scored)))
  end.

(** ** The use cases *)

Record SearchDocuments (E V : Type) : Type := mkSearch { sd_embedder : E; sd_vector_store : V }.
#[global] Arguments mkSearch {_ _}.
#[global] Arguments sd_embedder {_ _}.
#[global] Arguments sd_vector_store {_ _}.

Definition SearchDocuments_execute {E V} `{EmbeddingModel E} `{VectorStore V} (tenant_id : uuid) (query : string)
    (top_k : Z) : stm (SearchDocuments E V) (list SearchResult) := λ s,
  match embed query (sd_embedder s) with
  | (Raise e, emb) => (Raise e, mkSearch emb (sd_vector_store s))
  | (Ret query_embedding, emb) =>
      let '(r, v) := vs_search query_embedding tenant_id top_k (sd_vector_store s) in (r, mkSearch emb v)
  end.

#[export] Instance search_documents {E V} `{EmbeddingModel E} `{VectorStore V} : Retriever (SearchDocuments E V) :=
  SearchDocuments_execute.

Section answers.
Context {R M : Type} `{Retriever R} `{ChatModel M} `{UnicodeWords}.

(** [AnswerQuestion.execute], from its [top_k]. *)
Definition AnswerQuestion_execute (top_k : Z) (tenant_id : uuid) (question : string) : stm (R * M) ChatAnswer :=
  sources ← on_fst (retrieve tenant_id question top_k);
  let context := join (nl +:+ nl)%string (map sr_content sources) in
  answer ← on_snd (cm_generate question context);
  mret (mkChatAnswer answer sources).

Definition SelfRAG_execute (top_k : Z) (tenant_id : uuid) (question : string) : stm (R * M) ChatAnswer :=
  gate_response ← on_snd (cm_complete (GATE_PROMPT question));
  let needs_retrieval := match yes_no gate_response with None => true | Some answer => answer end in
  if negb needs_retrieval then
    answer ← on_snd (cm_complete question);
    mret (mkChatAnswer answer [])
  else
    sources ← on_fst (retrieve tenant_id question top_k);
    let context := join (nl +:+ nl)%string (map sr_content sources) in
    answer ← on_snd (cm_generate question context);
    mret (mkChatAnswer answer sources).
End answers.

(** ** Positive floats stay numbers *)

Definition pos_num (x : f64) : bool := nonneg x && negb (is_nan x).

Lemma shr_1_nonneg mrs : 0 ≤ SpecFloat.shr_m mrs → 0 ≤ SpecFloat.shr_m (SpecFloat.shr_1 mrs).
Proof. destruct mrs as [[|[p|p|]|p] r s]; simpl; lia. Qed.

Lemma iter_nonneg p mrs : 0 ≤ SpecFloat.shr_m mrs → 0 ≤ SpecFloat.shr_m (SpecFloat.iter_pos SpecFloat.shr_1 p mrs).
Proof. revert mrs. induction p as [p IH|p IH|]; intros mrs Hm; simpl; eauto using shr_1_nonneg. Qed.

Lemma shr_fexp_nonneg m e l : 0 ≤ m → 0 ≤ SpecFloat.shr_m (SpecFloat.shr_fexp f64_prec f64_emax m e l).1.
Proof.
  intros Hm. unfold SpecFloat.shr_fexp, SpecFloat.shr.
  destruct (SpecFloat.fexp _ _ _ - e); simpl; try (by destruct l as [|[]]).
  apply iter_nonneg. by destruct l as [|[]].
Qed.

Lemma round_nearest_even_nonneg m l : 0 ≤ m → 0 ≤ SpecFloat.round_nearest_even m l.
Proof. destruct l as [|[]]; simpl; try case_match; lia. Qed.

Lemma binary_round_aux_num m e l : 0 ≤ m →
  is_nan (SpecFloat.binary_round_aux f64_prec f64_emax false m e l) = false.
Proof.
  intros Hm. unfold SpecFloat.binary_round_aux.
  pose proof (shr_fexp_nonneg m e l Hm) as H1. destruct (SpecFloat.shr_fexp _ _ m e l) as [mrs e1]. cbn [fst] in H1.
  pose proof (shr_fexp_nonneg (SpecFloat.round_nearest_even (SpecFloat.shr_m mrs) (SpecFloat.loc_of_shr_record mrs)) e1
    SpecFloat.loc_Exact (round_nearest_even_nonneg _ _ H1)) as H2.
  destruct (SpecFloat.shr_fexp _ _ _ e1 SpecFloat.loc_Exact) as [mrs2 e2]. cbn [fst] in H2.
  destruct (SpecFloat.shr_m mrs2) as [|p|p]; [done| |lia]. by destruct (e2 <=? _).
Qed.

Lemma fadd_pos_num x y : pos_num x = true → pos_num y = true → pos_num (fadd x y) = true.
Proof.
  unfold pos_num. destruct x as [[]|[]| |[] m e], y as [[]|[]| |[] m' e']; simpl; try done. intros _ _.
  unfold fadd, SpecFloat.SFadd. cbn [SpecFloat.cond_Zopp].
  set (ez := Z.min e e'). destruct (SpecFloat.shl_align m e ez) as [m1 e1], (SpecFloat.shl_align m' e' ez) as [m2 e2].
  cbn [fst]. unfold SpecFloat.binary_normalize, SpecFloat.binary_round. cbn [Z.add].
  destruct (SpecFloat.shl_align _ _ _) as [mz ez']. rewrite binary_round_aux_nonneg, binary_round_aux_num by lia. done.
Qed.

Lemma of_Z_num z : 0 ≤ z → is_nan (of_Z_raw z) = false.
Proof.
  destruct z as [|p|p]; [done| |lia]. intros _. unfold of_Z_raw, SpecFloat.binary_normalize, SpecFloat.binary_round.
  destruct (SpecFloat.shl_align _ _ _). by apply binary_round_aux_num.
Qed.

Lemma fdiv_one_num z x y : 0 < z → int_to_float z = Ret x → fdiv fone x = Ret y → pos_num y = true.
Proof.
  intros Hz Hx Hy. pose proof (int_to_float_nonneg z x ltac:(lia) Hx) as Hn.
  assert (Hfin : is_nan x = false ∧ match x with SpecFloat.S754_infinity _ => False | _ => True end).
  { pose proof (of_Z_num z ltac:(lia)) as Hnum. unfold int_to_float in Hx. destruct (of_Z_raw z); by simplify_eq. }
  destruct Hfin as [Hnan Hinf]. destruct x as [sx|sx| |sx m e]; [done|done|done|].
  destruct sx; [done|]. change (fdiv fone (SpecFloat.S754_finite false m e))
    with (Ret (fdiv_raw fone (SpecFloat.S754_finite false m e))) in Hy. injection Hy as <-.
  unfold SpecFloat.SFdiv_core_binary.
  set (e' := Z.min _ _). set (s := _ - _ - e') . set (m' := match s with Zpos _ => _ | _ => _ end).
  assert (Hm' : 0 ≤ m') by (unfold m'; destruct s; try lia; by apply Z.shiftl_nonneg).
  pose proof (Z_div_mod m' (Z.pos m) ltac:(lia)) as Hdiv. destruct (Z.div_eucl m' (Z.pos m)) as [q r].
  unfold pos_num. rewrite binary_round_aux_nonneg, binary_round_aux_num by nia. done.
Qed.

(** ** What fusion computes *)

(** [1.0 / d]. *)
Definition reciprocal (d : Z) : f64 := match (x ← int_to_float d; fdiv fone x) with Ret y => y | Raise _ => fzero end.

Lemma reciprocal_small d : 0 < d < 2 ^ 53 →
  ∃ x, int_to_float d = Ret x ∧ fdiv fone x = Ret (reciprocal d) ∧ pos_num (reciprocal d) = true.
Proof.
  intros Hd. destruct (int_to_float_small d Hd) as (m & e & Heq). eexists. split; [exact Heq|].
  assert (Hrec : fdiv fone (SpecFloat.S754_finite false m e) = Ret (reciprocal d)).
  { unfold reciprocal. rewrite Heq. done. }
  split; [done|]. by eapply (fdiv_one_num d); [lia|exact Heq|].
Qed.

(** The ranks, plus one and the constant, at which the lists hold a chunk, in order. *)
Definition ranked (k_rrf : Z) (cid : uuid) (results : list SearchResult) : list Z :=
  omap (λ p : nat * SearchResult, if decide (sr_chunk_id p.2 = cid) then Some (k_rrf + Z.of_nat p.1 + 1) else None)
    (imap pair results).

(** The last of the results with a chunk's id. *)
Definition last_with (cid : uuid) (results : list SearchResult) : option SearchResult :=
  last (filter (λ r, sr_chunk_id r = cid) results).

(** The dicts after the results [past], whose ranks were [terms]. *)
Record fused (past : list SearchResult) (terms : uuid → list Z) (f : Fusion) : Prop := {
  fu_nodup : NoDup (od_keys (rrf_scores f));
  fu_keys : ∀ cid, cid ∈ od_keys (rrf_scores f) ↔ ∃ r, r ∈ past ∧ sr_chunk_id r = cid;
  fu_last : ∀ cid, od_get cid (rrf_by_id f) = last_with cid past;
  fu_score : ∀ cid, rrf_score f cid = fsum (map reciprocal (terms cid));
  fu_num : ∀ cid, pos_num (rrf_score f cid) = true
}.

Lemma fused_step past terms f k rank r : 0 < k + rank + 1 < 2 ^ 53 → fused past terms f →
  fused (past ++ [r]) (λ cid, terms cid ++ (if decide (sr_chunk_id r = cid) then [k + rank + 1] else []))
    (mkFusion (od_set (sr_chunk_id r) (fadd (rrf_score f (sr_chunk_id r)) (reciprocal (k + rank + 1))) (rrf_scores f))
       (od_set (sr_chunk_id r) r (rrf_by_id f))).
Proof.
  intros Hd [Hnd Hkeys Hlast Hsc Hnum]. destruct (reciprocal_small _ Hd) as (_ & _ & _ & Hrec).
  assert (Hscore : ∀ cid, rrf_score (mkFusion (od_set (sr_chunk_id r) (fadd (rrf_score f (sr_chunk_id r)) (reciprocal (k + rank + 1))) (rrf_scores f))
       (od_set (sr_chunk_id r) r (rrf_by_id f))) cid =
    if decide (sr_chunk_id r = cid) then fadd (rrf_score f cid) (reciprocal (k + rank + 1)) else rrf_score f cid).
  { intros cid. unfold rrf_score at 1. cbn [rrf_scores]. rewrite od_get_set. case_decide as Hc; [by subst cid|done]. }
  split; cbn [rrf_scores rrf_by_id].
  - by apply od_set_nodup.
  - intros cid. rewrite od_keys_set. setoid_rewrite elem_of_app. setoid_rewrite list_elem_of_singleton.
    assert (Hin : (∃ r0, (r0 ∈ past ∨ r0 = r) ∧ sr_chunk_id r0 = cid) ↔ cid ∈ od_keys (rrf_scores f) ∨ cid = sr_chunk_id r).
    { rewrite Hkeys. naive_solver. }
    rewrite Hin. case_decide; [|by rewrite elem_of_app, list_elem_of_singleton]. split; [by left|]. intros [| ->]; done.
  - intros cid. rewrite od_get_set, Hlast. unfold last_with. rewrite filter_app, filter_cons, filter_nil.
    destruct (decide (sr_chunk_id r = cid)); [by rewrite last_snoc|by rewrite app_nil_r].
  - intros cid. rewrite Hscore, map_app. unfold fsum. rewrite fold_left_app. case_decide; [|by rewrite Hsc].
    simpl. by rewrite Hsc.
  - intros cid. rewrite Hscore. case_decide; [by apply fadd_pos_num|done].
Qed.

Lemma fused_ext past terms terms' f : (∀ cid, terms cid = terms' cid) → fused past terms f → fused past terms' f.
Proof. intros Heq [? ? ? Hsc ?]. split; try done. intros cid. by rewrite <- Heq. Qed.

Lemma ranked_from k cid rank results : omap (λ p : nat * SearchResult,
    if decide (sr_chunk_id p.2 = cid) then Some (k + Z.of_nat p.1 + 1) else None) (imap (λ i r, (rank + i, r)%nat) results) =
  match results with
  | [] => []
  | r :: rest => (if decide (sr_chunk_id r = cid) then [k + Z.of_nat rank + 1] else []) ++
      omap (λ p : nat * SearchResult, if decide (sr_chunk_id p.2 = cid) then Some (k + Z.of_nat p.1 + 1) else None)
        (imap (λ i r, (S rank + i, r)%nat) rest)
  end.
Proof.
  destruct results as [|r rest]; [done|]. cbn [imap omap list_omap fst snd]. rewrite Nat.add_0_r.
  assert (imap ((λ i r0, (rank + i, r0)%nat) ∘ S) rest = imap (λ i r0, (S rank + i, r0)%nat) rest) as ->
    by (apply imap_ext; intros i x _; simpl; f_equal; lia).
  by case_decide.
Qed.

Lemma fuse_list_spec k results past terms f rank : 0 ≤ k →
  k + Z.of_nat rank + Z.of_nat (length results) < 2 ^ 53 - 1 → fused past terms f →
  ∃ f', fuse_list k (Z.of_nat rank) results f = Ret f' ∧
    fused (past ++ results) (λ cid, terms cid ++ omap (λ p : nat * SearchResult,
      if decide (sr_chunk_id p.2 = cid) then Some (k + Z.of_nat p.1 + 1) else None) (imap (λ i r, (rank + i, r)%nat) results)) f'.
Proof.
  intros Hk. revert past terms f rank. induction results as [|r rest IH]; intros past terms f rank Hsz Hf.
  - exists f. split; [done|]. rewrite app_nil_r. apply (fused_ext past terms); [|done]. intros cid. simpl. by rewrite app_nil_r.
  - cbn [length] in Hsz. cbn [fuse_list]. destruct (reciprocal_small (k + Z.of_nat rank + 1)) as (x & -> & Hx & _); [lia|].
    cbn [mbind res_bind]. rewrite Hx. cbn [mbind res_bind].
    replace (Z.of_nat rank + 1) with (Z.of_nat (S rank)) by lia.
    destruct (IH (past ++ [r]) _ _ (S rank) ltac:(lia) (fused_step past terms f k (Z.of_nat rank) r ltac:(lia) Hf)) as (f' & Hrun & Hf').
    exists f'. split; [exact Hrun|]. rewrite <- app_assoc in Hf'. eapply fused_ext; [|exact Hf'].
    intros cid. cbv beta. by rewrite (ranked_from k cid rank (r :: rest)), <- app_assoc.
Qed.

Lemma fuse_lists_spec k lists past terms f : 0 ≤ k →
  Forall (λ l, k + Z.of_nat (length l) < 2 ^ 53 - 1) lists → fused past terms f →
  ∃ f', fuse_lists k lists f = Ret f' ∧
    fused (past ++ concat lists) (λ cid, terms cid ++ concat (map (ranked k cid) lists)) f'.
Proof.
  intros Hk Hsz. revert past terms f. induction Hsz as [|l lists Hl _ IH]; intros past terms f Hf.
  - exists f. split; [done|]. rewrite app_nil_r. apply (fused_ext past terms); [|done]. intros cid. simpl. by rewrite app_nil_r.
  - destruct (fuse_list_spec k l past terms f 0 Hk ltac:(lia) Hf) as (f1 & Hrun1 & Hf1).
    destruct (IH _ _ _ Hf1) as (f2 & Hrun2 & Hf2). exists f2. cbn [fuse_lists concat].
    change (Z.of_nat 0) with 0 in Hrun1. rewrite Hrun1. split; [exact Hrun2|]. rewrite app_assoc.
    eapply fused_ext; [|exact Hf2]. intros cid. cbv beta. cbn [map concat]. rewrite app_assoc. done.
Qed.

Lemma fused_empty : fused [] (λ _, []) (mkFusion [] []).
Proof. split; cbn; try done; [constructor|]. intros cid. split; [intros Hc; by apply not_elem_of_nil in Hc|intros (r & Hr & _); by apply not_elem_of_nil in Hr]. Qed.

(** The fused score of a chunk. *)
Definition fused_score (k_rrf : Z) (lists : list (list SearchResult)) (cid : uuid) : f64 :=
  fsum (map reciprocal (concat (map (ranked k_rrf cid) lists))).

Lemma res_mapM_Ret {A B} (f : A → res B) (g : A → B) l : (∀ x, x ∈ l → f x = Ret (g x)) → res_mapM f l = Ret (map g l).
Proof.
  induction l as [|x l IH]; intros Hf; [done|]. cbn [res_mapM map]. rewrite Hf by (by left). cbn [mbind res_bind].
  rewrite IH by (intros y Hy; apply Hf; by right). done.
Qed.

Lemma py_slice_prefix_of {A} k (l : list A) : 0 ≤ k → py_slice 0 k l = take (Z.to_nat k) l.
Proof.
  intros Hk. unfold py_slice, clamp. rewrite (proj2 (Z.ltb_ge k 0) Hk). cbn [Z.ltb Z.compare].
  replace (Z.min 0 (Z.of_nat (length l))) with 0 by lia. rewrite drop_0.
  destruct (Z.le_ge_cases k (Z.of_nat (length l))); [f_equal; lia|]. by rewrite !take_ge by lia.
Qed.

(** The merged result of a chunk that occurs. *)
Definition fused_result (k_rrf : Z) (lists : list (list SearchResult)) (cid : uuid) : SearchResult :=
  match last_with cid (concat lists) with
  | Some src => mkSearchResult (sr_document_id src) cid (sr_content src) (fused_score k_rrf lists cid)
  | None => mkSearchResult 0 cid EmptyString fzero
  end.

Lemma last_with_occurs cid l : (∃ r, r ∈ l ∧ sr_chunk_id r = cid) →
  ∃ src, last_with cid l = Some src ∧ src ∈ l ∧ sr_chunk_id src = cid.
Proof.
  intros (r & Hr & Hc). unfold last_with. destruct (last (filter (λ r, sr_chunk_id r = cid) l)) as [src|] eqn:Hl.
  - exists src. split; [done|]. assert (Hin : src ∈ filter (λ r, sr_chunk_id r = cid) l)
      by (rewrite last_lookup in Hl; by eapply list_elem_of_lookup_2). apply list_elem_of_filter in Hin as [? ?]. done.
  - exfalso. apply last_None in Hl. assert (Hin : r ∈ filter (λ r, sr_chunk_id r = cid) l) by (by apply list_elem_of_filter).
    rewrite Hl in Hin. by apply not_elem_of_nil in Hin.
Qed.

Lemma sorted_desc_ext {A} (key key' : A → f64) l : (∀ x, key x = key' x) → sorted_desc key l = sorted_desc key' l.
Proof.
  intros Hkey. unfold sorted_desc, sort_by. induction l as [|x l IH]; [done|]. cbn [foldr]. rewrite IH.
  generalize (foldr (insert_by (key_ge key')) [] l). intros l'. induction l' as [|y l' IHl']; [done|].
  cbn [insert_by]. unfold key_ge in *. by rewrite !Hkey, IHl'.
Qed.

(** The whole run, in terms of the chunks that occur. *)
Lemma rrf_spec lists top_k k : 0 ≤ k → Forall (λ l, k + Z.of_nat (length l) < 2 ^ 53 - 1) lists →
  ∃ ids, reciprocal_rank_fusion lists top_k k =
      Ret (map (fused_result k lists) (py_slice 0 top_k (sorted_desc (fused_score k lists) ids))) ∧
    NoDup ids ∧ (∀ cid, cid ∈ ids ↔ ∃ r, r ∈ concat lists ∧ sr_chunk_id r = cid) ∧
    keys_ok (fused_score k lists) ids.
Proof.
  intros Hk Hsz. destruct (fuse_lists_spec k lists [] _ _ Hk Hsz fused_empty) as (f & Hrun & [Hnd Hkeys Hlast Hsc Hnum]).
  rewrite app_nil_l in *. exists (od_keys (rrf_scores f)). split; [|split; [done|split; [done|]]].
  - unfold reciprocal_rank_fusion. rewrite Hrun. cbn [mbind res_bind].
    assert (Hsorted : sorted_desc (rrf_score f) (od_keys (rrf_scores f)) = sorted_desc (fused_score k lists) (od_keys (rrf_scores f))).
    { apply sorted_desc_ext. intros cid. by rewrite Hsc. }
    rewrite Hsorted. apply res_mapM_Ret. intros cid Hin. assert (Hocc : ∃ r, r ∈ concat lists ∧ sr_chunk_id r = cid).
    { apply Hkeys. rewrite <- (sorted_desc_perm (fused_score k lists)). unfold py_slice in Hin.
      apply elem_of_take in Hin as (i & Hi%list_elem_of_lookup_2 & _). by eapply sublist_subseteq; [apply sublist_drop|]. }
    destruct (last_with_occurs cid _ Hocc) as (src & Hsrc & _). unfold merged_result, fused_result. by rewrite Hlast, Hsrc, Hsc.
  - apply list.Forall_forall. intros cid _. unfold fused_score. rewrite <- (app_nil_l (concat _)), <- Hsc.
    specialize (Hnum cid). unfold pos_num in Hnum. by destruct (is_nan _); [rewrite andb_false_r in Hnum|].
Qed.

(** C35: Reciprocal rank fusion: with a constant and lists of ordinary size it never fails; each chunk comes out at
    most once, carrying the sum over the lists of 1 / (k + rank) as the code's floats add up and the document and
    content of its last occurrence; the results are in descending order of that score; and for a non-negative
    [top_k] they are as many of the distinct chunks as fit, none left out scoring higher than one that is in. *)
Theorem reciprocal_rank_fusion_ranks (lists : list (list SearchResult)) (top_k k : Z) :
  0 ≤ k → Forall (λ l, k + Z.of_nat (length l) < 2 ^ 53 - 1) lists →
  ∃ out, reciprocal_rank_fusion lists top_k k = Ret out ∧
    NoDup (map sr_chunk_id out) ∧
    StronglySorted (λ a b, fle (sr_score b) (sr_score a) = true) out ∧
    (∀ r, r ∈ out → ∃ src, last_with (sr_chunk_id r) (concat lists) = Some src ∧
       r = mkSearchResult (sr_document_id src) (sr_chunk_id src) (sr_content src) (fused_score k lists (sr_chunk_id src))) ∧
    (0 ≤ top_k →
       (∃ distinct, NoDup distinct ∧ (∀ cid, cid ∈ distinct ↔ ∃ r, r ∈ concat lists ∧ sr_chunk_id r = cid) ∧
          length out = Nat.min (Z.to_nat top_k) (length distinct)) ∧
       ∀ r src, r ∈ out → src ∈ concat lists → sr_chunk_id src ∉ map sr_chunk_id out →
         fle (fused_score k lists (sr_chunk_id src)) (sr_score r) = true).
Proof.
  intros Hk Hsz. destruct (rrf_spec lists top_k k Hk Hsz) as (ids & Hrun & Hnd & Hids & Hok).
  set (best := py_slice 0 top_k (sorted_desc (fused_score k lists) ids)) in *. exists (map (fused_result k lists) best).
  split; [exact Hrun|].
  assert (Hsub : best `sublist_of` sorted_desc (fused_score k lists) ids).
  { unfold best, py_slice. etransitivity; [apply sublist_take|apply sublist_drop]. }
  assert (Hin : ∀ cid, cid ∈ best → ∃ src, last_with cid (concat lists) = Some src ∧ sr_chunk_id src = cid ∧
    fused_result k lists cid = mkSearchResult (sr_document_id src) cid (sr_content src) (fused_score k lists cid)).
  { intros cid Hc%(sublist_subseteq _ _ Hsub). rewrite (sorted_desc_perm (fused_score k lists)) in Hc. apply Hids in Hc.
    destruct (last_with_occurs cid _ Hc) as (src & Hsrc & _ & Hid). exists src. split; [done|]. split; [done|].
    unfold fused_result. by rewrite Hsrc. }
  assert (Hmapid : map sr_chunk_id (map (fused_result k lists) best) = best).
  { rewrite map_map. rewrite <- (map_id best) at 2. apply map_ext_in. intros cid Hc%list_elem_of_In.
    by destruct (Hin cid Hc) as (src & _ & _ & ->). }
  assert (Hscore : ∀ cid, cid ∈ best → sr_score (fused_result k lists cid) = fused_score k lists cid).
  { intros cid Hc. by destruct (Hin cid Hc) as (src & _ & _ & ->). }
  split; [|split; [|split]].
  - rewrite Hmapid. eapply sublist_NoDup; [|exact Hsub]. by rewrite (sorted_desc_perm (fused_score k lists)).
  - assert (Hs : StronglySorted (λ a b, key_ge (fused_score k lists) a b = true) best).
    { eapply StronglySorted_sublist; [exact Hsub|by apply sorted_desc_sorted]. }
    clear -Hs Hscore. induction Hs as [|x l _ IH Hall]; [constructor|]. cbn [map]. constructor.
    + apply IH. intros cid Hc. apply Hscore. by right.
    + apply Forall_map, list.Forall_forall. intros y Hy. rewrite list.Forall_forall in Hall.
      rewrite !Hscore by (by left || by right). by apply Hall.
  - intros r Hr. apply list_elem_of_In, in_map_iff in Hr as (cid & <- & Hc). apply list_elem_of_In in Hc.
    destruct (Hin cid Hc) as (src & Hsrc & Hid & Heq). rewrite Heq. cbn. exists src. by rewrite Hid.
  - intros Htop. unfold best in *. rewrite py_slice_prefix_of in * by done. split.
    + exists ids. split; [done|]. split; [done|]. by rewrite length_map, length_take, (sorted_desc_perm (fused_score k lists)).
    + intros r src Hr Hsrc Hnin. rewrite Hmapid in Hnin. apply list_elem_of_In, in_map_iff in Hr as (cid & <- & Hc).
      apply list_elem_of_In in Hc. rewrite Hscore by done.
      assert (Hcross : sr_chunk_id src ∈ ids) by (apply Hids; eauto).
      pose proof (sorted_desc_sorted _ _ Hok) as Hs. set (n := Z.to_nat top_k) in *.
      rewrite <- (sorted_desc_perm (fused_score k lists)), <- (take_drop n) in Hcross.
      apply elem_of_app in Hcross as [|Hcross]; [done|]. rewrite <- (take_drop n) in Hs.
      apply StronglySorted_app_inv in Hs as (_ & _ & Hs). by apply Hs.
Qed.

Definition hit (doc cid : uuid) (content : string) : SearchResult := mkSearchResult doc cid content fone.

(** Two lists that agree on a chunk. *)
Definition sample_lists : list (list SearchResult) := [[hit 1 11 "a"; hit 1 12 "b"]; [hit 2 21 "c"; hit 1 11 "a"]].

Example rrf_prefers_agreement :
  match reciprocal_rank_fusion sample_lists 2 60 with Ret out => map sr_chunk_id out | Raise _ => [] end = [11; 21].
Proof. vm_compute. reflexivity. Qed.

Lemma reciprocal_rank_fusion_ranks_witness :
  ∃ out, reciprocal_rank_fusion sample_lists 2 60 = Ret out ∧
    NoDup (map sr_chunk_id out) ∧
    StronglySorted (λ a b, fle (sr_score b) (sr_score a) = true) out ∧
    (∀ r, r ∈ out → ∃ src, last_with (sr_chunk_id r) (concat sample_lists) = Some src ∧
       r = mkSearchResult (sr_document_id src) (sr_chunk_id src) (sr_content src) (fused_score 60 sample_lists (sr_chunk_id src))) ∧
    (0 ≤ 2 →
       (∃ distinct, NoDup distinct ∧ (∀ cid, cid ∈ distinct ↔ ∃ r, r ∈ concat sample_lists ∧ sr_chunk_id r = cid) ∧
          length out = Nat.min (Z.to_nat 2) (length distinct)) ∧
       ∀ r src, r ∈ out → src ∈ concat sample_lists → sr_chunk_id src ∉ map sr_chunk_id out →
         fle (fused_score 60 sample_lists (sr_chunk_id src)) (sr_score r) = true).
Proof. apply (reciprocal_rank_fusion_ranks sample_lists 2 60); [lia|]. repeat constructor; simpl; lia. Defined.

(** ** Staying inside a tenant's documents *)

Section tenants.
Context (owns : uuid → uuid → Prop).

(** Results from documents of the tenant. *)
Definition of_tenant (tenant_id : uuid) (results : list SearchResult) : Prop :=
  Forall (λ r, owns tenant_id (sr_document_id r)) results.

Definition scoped_call {S} (execute : uuid → string → Z → stm S (list SearchResult)) : Prop :=
  ∀ tenant_id query top_k, yields (of_tenant tenant_id) (execute tenant_id query top_k).

Lemma fuse_list_by_id k rank results f f' (P : SearchResult → Prop) :
  Forall P results → (∀ cid r, od_get cid (rrf_by_id f) = Some r → P r) →
  fuse_list k rank results f = Ret f' → ∀ cid r, od_get cid (rrf_by_id f') = Some r → P r.
Proof.
  intros Hall. revert rank f. induction Hall as [|x l Hx _ IH]; intros rank f Hf; cbn [fuse_list]; [by intros [= <-]|].
  destruct (int_to_float _); cbn [mbind res_bind]; [|done]. destruct (fdiv _ _); cbn [mbind res_bind]; [|done].
  apply IH. intros cid r. cbn. rewrite od_get_set. case_decide; [intros [= <-]; done|apply Hf].
Qed.

Lemma fuse_lists_by_id k lists f f' (P : SearchResult → Prop) :
  Forall (Forall P) lists → (∀ cid r, od_get cid (rrf_by_id f) = Some r → P r) →
  fuse_lists k lists f = Ret f' → ∀ cid r, od_get cid (rrf_by_id f') = Some r → P r.
Proof.
  intros Hall. revert f. induction Hall as [|l ls Hl _ IH]; intros f Hf; cbn [fuse_lists]; [by intros [= <-]|].
  destruct (fuse_list k 0 l f) as [f1|e] eqn:H1; cbn [mbind res_bind]; [|done]. apply IH.
  by eapply fuse_list_by_id.
Qed.

Lemma rrf_of_tenant tenant_id lists top_k k out :
  Forall (of_tenant tenant_id) lists → reciprocal_rank_fusion lists top_k k = Ret out → of_tenant tenant_id out.
Proof.
  intros Hall. unfold reciprocal_rank_fusion. destruct (fuse_lists k lists _) as [f|e] eqn:Hf; cbn [mbind res_bind]; [|done].
  apply res_mapM_Forall. intros cid r. unfold merged_result. destruct (od_get cid (rrf_by_id f)) as [src|] eqn:Hsrc; [|done].
  intros [= <-]. cbn. eapply (fuse_lists_by_id k lists _ f (λ r, owns tenant_id (sr_document_id r)) Hall _ Hf cid src Hsrc).
  Unshelve. by intros cid' r'.
Qed.

Lemma hybrid_scoped {V K} `{Retriever V, Retriever K} :
  scoped_call (retrieve (R := V)) → scoped_call (retrieve (R := K)) → scoped_call (Hybrid_execute (V := V) (K := K)).
Proof.
  intros Hv Hk t q k h. unfold Hybrid_execute. specialize (Hv t q (hy_candidate_k h) (hy_vector h)).
  specialize (Hk t q (hy_candidate_k h) (hy_keyword h)).
  destruct (retrieve t q (hy_candidate_k h) (hy_vector h)) as [[rv|] v], (retrieve t q (hy_candidate_k h) (hy_keyword h)) as [[rk|] kw];
    cbn [fst mbind res_bind]; try done.
  destruct (reciprocal_rank_fusion [rv; rk] k DEFAULT_RRF_K) eqn:Hrrf; [|done].
  eapply rrf_of_tenant; [|exact Hrrf]. by repeat constructor.
Qed.

Context {R M : Type} `{Retriever R} `{ChatModel M} `{UnicodeWords}.
Context (Hinner : scoped_call (retrieve (R := R))).

Lemma multi_query_scoped n : scoped_call (MultiQuery_execute (R := R) (M := M) n).
Proof.
  intros t q k. eapply yields_bind; [apply yields_any|]. intros response _.
  eapply yields_bind; [apply yields_for_each; intros v _; apply yields_on_fst, Hinner|]. intros lists Hlists.
  apply yields_lift. intros out. by apply rrf_of_tenant.
Qed.

Lemma hyde_scoped : scoped_call (HyDE_execute (R := R) (M := M)).
Proof. intros t q k. eapply yields_bind; [apply yields_any|]. intros h _. apply yields_on_fst, Hinner. Qed.

Lemma corrective_scoped : scoped_call (Corrective_execute (R := R) (M := M)).
Proof.
  intros t q k. eapply yields_bind; [apply yields_on_fst, Hinner|]. intros results Hres.
  destruct results as [|r0 results]; [by apply yields_ret|].
  eapply yields_bind; [apply yields_any|]. intros flags _.
  destruct (map fst _) as [|r1 rs] eqn:Hrel.
  - eapply yields_bind; [apply yields_any|]. intros refined _. apply yields_on_fst, Hinner.
  - apply yields_ret. unfold of_tenant. rewrite <- Hrel. apply Forall_map, list.Forall_forall.
    intros [r b] [_ Hin]%list_elem_of_filter. cbn. apply elem_of_zip_l in Hin. unfold of_tenant in Hres.
    rewrite list.Forall_forall in Hres. by apply Hres.
Qed.

Lemma parents_scoped {D} `{DocumentRepository D} : scoped_call (ParentDocument_execute (R := R) (D := D)).
Proof.
  intros t q k. eapply yields_bind; [apply yields_on_fst, Hinner|]. intros children Hch. apply yields_on_snd.
  assert (Hexp : of_tenant t []) by constructor. revert Hexp. generalize (@nil SearchResult) as expanded. generalize (∅ : gset uuid) as seen.
  induction Hch as [|c cs Hc _ IH]; intros seen expanded Hexp; cbn [expand_parents]; [by apply yields_ret|].
  eapply yields_bind; [apply yields_any|]. intros cc _. destruct (cc ≫= chunk_parent_id) as [pid|]; [|by apply IH].
  case_decide; [by apply IH|]. eapply yields_bind; [apply yields_any|]. intros [parent|] _; [|by apply IH].
  apply IH, Forall_app. split; [done|]. by repeat constructor.
Qed.

(** A reranker that only picks among the results it is given. *)
Definition picks {K} `{Reranker K} : Prop := ∀ query results top_k, yields (λ out, out ⊆ results) (rerank (R := K) query results top_k).

Lemma reranking_scoped {K} `{Reranker K} n : picks (K := K) → scoped_call (Reranking_execute (R := R) (K := K) n).
Proof.
  intros Hpicks t q k. eapply yields_bind; [apply yields_on_fst, Hinner|]. intros cands Hc. apply yields_on_snd.
  intros s. specialize (Hpicks q cands k s). destruct (rerank q cands k s).1 as [out|]; [|done]. unfold of_tenant in *.
  rewrite list.Forall_forall in *. intros r Hr. by apply Hc, Hpicks.
Qed.
End tenants.

Lemma best_of_subseteq {A} (scored : list (A * f64)) k : best_of scored k ⊆ map fst scored.
Proof.
  intros x Hx. unfold best_of, py_slice in Hx. apply list_elem_of_In, in_map_iff in Hx as (p & <- & Hp).
  apply list_elem_of_In in Hp. apply elem_of_take in Hp as (i & Hi%list_elem_of_lookup_2 & _).
  apply list_elem_of_In, in_map, list_elem_of_In. rewrite <- (sorted_desc_perm snd scored).
  by eapply sublist_subseteq; [apply sublist_drop|].
Qed.

Lemma cross_encoder_picks {P} `{PairScoringModel P} : picks (K := P).
Proof.
  intros q results k. unfold rerank, cross_encoder_reranker, CrossEncoder_rerank. destruct results as [|r rs]; [by apply yields_ret|].
  eapply yields_bind; [apply yields_any|]. intros scores _.
  apply (yields_bind (λ scored, map fst scored = r :: rs)); [by apply yields_lift; intros l; apply zip_strict_fst|].
  intros scored Hs. apply yields_ret. rewrite <- Hs. apply best_of_subseteq.
Qed.

Definition bi_encoder {E} `{EmbeddingModel E} : Reranker E := BiEncoder_rerank.

Lemma bi_encoder_picks {E} `{EmbeddingModel E} : @picks E bi_encoder.
Proof.
  intros q results k. unfold rerank, bi_encoder, BiEncoder_rerank. destruct results as [|r0 rs0]; [by apply yields_ret|].
  set (results := r0 :: rs0). eapply yields_bind; [apply yields_any|]. intros qe _.
  apply (yields_bind (Forall (λ p : SearchResult * f64, p.1 ∈ results))).
  - apply yields_for_each. intros r Hr. unfold blended. eapply yields_bind; [apply yields_any|]. intros emb _.
    eapply yields_bind; [apply yields_any|]. intros sem _. eapply yields_bind; [apply yields_any|]. intros lex _. by apply yields_ret.
  - intros scored Hs. apply yields_ret. intros x Hx%best_of_subseteq. apply list_elem_of_In, in_map_iff in Hx as (p & <- & Hp).
    rewrite list.Forall_forall in Hs. by apply Hs, list_elem_of_In.
Qed.

Lemma bm25_scoped (owns : uuid → uuid → Prop) {D} `{DocumentRepository D} `{BM25Plus} :
  (∀ t, yields (Forall (λ c, owns t (chunk_document_id c))) (dr_get_chunks_for_tenant t : stm D _)) →
  scoped_call owns (BM25_execute (D := D)).
Proof.
  intros Hrepo t q k. eapply yields_bind; [apply Hrepo|]. intros chunks Hc. destruct chunks as [|c0 cs]; [apply yields_ret; constructor|].
  apply (yields_bind (λ scored : list (Chunk * f64), map fst scored = c0 :: cs)); [by apply yields_lift; intros l; apply zip_strict_fst|].
  intros scored Hs. apply yields_ret. unfold of_tenant. apply Forall_map, list.Forall_forall. intros p Hp. cbn.
  rewrite list.Forall_forall in Hc. apply Hc. rewrite <- Hs. unfold py_slice in Hp.
  apply elem_of_take in Hp as (i & Hi%list_elem_of_lookup_2 & _). apply list_elem_of_In, in_map, list_elem_of_In.
  rewrite <- (sorted_desc_perm snd scored). by eapply sublist_subseteq; [apply sublist_drop|].
Qed.

Lemma search_scoped (owns : uuid → uuid → Prop) {E V} `{EmbeddingModel E} `{VectorStore V} :
  (∀ e t k, yields (of_tenant owns t) (vs_search e t k : stm V _)) → scoped_call owns (SearchDocuments_execute (E := E) (V := V)).
Proof.
  intros Hv t q k s. unfold SearchDocuments_execute. destruct (embed q (sd_embedder s)) as [[qe|e] emb]; [|done].
  specialize (Hv qe t k (sd_vector_store s)). by destruct (vs_search qe t k (sd_vector_store s)).
Qed.

(** ** The properties *)


(** ** A tenant's shelf *)

(** A backend holding documents and the tenant each belongs to; a search returns the tenant's first hits. *)
Record Shelf : Type := mkShelf { shelf : list (uuid * SearchResult) }.

Definition shelf_of (tenant_id : uuid) (s : Shelf) : list SearchResult :=
  map snd (filter (λ p, p.1 = tenant_id) (shelf s)).
Definition shelf_owns (s : Shelf) (tenant_id document_id : uuid) : Prop :=
  ∃ r, (tenant_id, r) ∈ shelf s ∧ sr_document_id r = document_id.

Definition library : Shelf := mkShelf [(1, hit 10 11 "a"); (2, hit 20 21 "b"); (1, hit 12 13 "c")].

#[local] Instance shelf_retriever : Retriever unit := λ t _ k s, (Ret (take (Z.to_nat k) (shelf_of t library)), s).
#[local] Instance shelf_vectors : VectorStore unit := {|
  vs_upsert _ _ := mret tt;
  vs_search _ t k s := (Ret (take (Z.to_nat k) (shelf_of t library)), s)
|}.
#[local] Instance shelf_documents : DocumentRepository unit := {|
  dr_save_document _ := mret tt;
  dr_update_document_status _ _ _ := mret tt;
  dr_save_chunks _ _ := mret tt;
  dr_get_chunks_for_tenant t :=
    mret (map (λ r, mkChunk (sr_chunk_id r) (sr_document_id r) (sr_content r) [] None ∅) (shelf_of t library));
  dr_get_chunk_by_id _ := mret None
|}.
#[local] Instance shelf_embedder : EmbeddingModel unit := λ _, mret [fone].
#[local] Instance shelf_scores : PairScoringModel unit := λ pairs, mret (map (λ _, fone) pairs).
#[local] Instance shelf_bm25 : BM25Plus := λ corpus _, map (λ _, fone) corpus.
#[local] Instance shelf_chat : ChatModel unit := {| cm_generate _ _ := mret "YES"%string; cm_complete _ := mret "YES"%string |}.

Lemma shelf_of_owned t : Forall (λ r, shelf_owns library t (sr_document_id r)) (shelf_of t library).
Proof.
  apply Forall_map, list.Forall_forall. intros [t' r] [<- Hin]%list_elem_of_filter. by exists r.
Qed.

Lemma shelf_scoped k t : of_tenant (shelf_owns library) t (take k (shelf_of t library)).
Proof. apply Forall_take, shelf_of_owned. Qed.

