(* ===== verification/LlmReranker.v ===== *)
(** * The LLM reranker

    rag/infrastructure/llm_reranker.py: each candidate is scored by the chat
    model, whose reply is searched for its first integer.  Unicode's decimal
    digits beyond ASCII, which [\d] and [int] agree on, are PyInt's parameter. *)

From Stdlib Require Import ZArith Lia Ascii String.
From S2P Require Import Prelude PyFloat PySeq PyStr Json PyInt JsonText RagPorts RagRetrieval.

Section reranker.
Context `{UnicodeDigits}.

Definition is_digit (c : Z) : bool := match unicode_digit c with Some _ => true | None => false end.

Fixpoint digit_run (l : list Z) : list Z := match l with c :: l' => if is_digit c then c :: digit_run l' else [] | [] => [] end.

(** [_SCORE_PATTERN.search(response)]: an optional minus and digits, the first
    there are. *)
Fixpoint score_match (l : list Z) : option (list Z) :=
  match l with
  | [] => None
  | c :: l' =>
      if is_digit c then Some (digit_run l)
      else
        match l' with
        | d :: _ => if (c =? 45) && is_digit d then Some (c :: digit_run l') else score_match l'
        | [] => None
        end
  end.

Definition reply_score (response : string) : res Z :=
  match score_match (code_points response) with
  | Some matched => py_int (encode matched)
  | None => Ret 0
  end.

Definition scoring_prompt (query content : string) : string :=
  let nl := String "010" EmptyString in
  ("Query: " +:+ query +:+ nl +:+ nl +:+ "Candidate passage:" +:+ nl +:+ content +:+ nl +:+ nl +:+
   "Score how relevant this passage is to answering the query, from 0 (irrelevant) to 10 (directly answers it). Respond with ONLY the integer score, nothing else.")%string.

Context {M : Type} `{ChatModel M}.

Definition score_result (query : string) (r : SearchResult) : stm M (SearchResult * Z) :=
  response ← cm_generate (scoring_prompt query (sr_content r)) EmptyString;
  score ← lift_res (reply_score response);
  mret (r, score).

Definition higher_score (a b : SearchResult * Z) : bool := b.2 <=? a.2.

Definition LLM_rerank (query : string) (results : list SearchResult) (top_k : Z) : stm M (list SearchResult) :=
  scored ← for_each results (score_result query);
  let ranked := sort_by higher_score scored in
  mret (map fst (py_slice 0 top_k ranked)).

Definition llm_reranker : Reranker M := LLM_rerank.
End reranker.

(** It only picks among what it is given, so retrieval through it stays in the tenant. *)
Lemma llm_picks `{UnicodeDigits} {M} `{ChatModel M} : @picks M llm_reranker.
Proof.
  intros q results k. unfold rerank, llm_reranker, LLM_rerank.
  apply (yields_bind (Forall (λ p : SearchResult * Z, p.1 ∈ results))).
  - apply yields_for_each. intros r Hr. eapply yields_bind; [apply yields_any|]. intros reply _. eapply yields_bind; [apply yields_any|]. intros score _. by apply yields_ret.
  - intros scored Hs. apply yields_ret. intros x Hx. apply list_elem_of_In, in_map_iff in Hx as (p & <- & Hp). apply list_elem_of_In, py_slice_subseteq in Hp.
    rewrite sort_by_perm in Hp. rewrite list.Forall_forall in Hs. auto.
Qed.

Lemma llm_reranking_scoped `{UnicodeDigits} (owns : uuid → uuid → Prop) {R M} `{Retriever R} `{ChatModel M} n :
  scoped_call owns (retrieve (R := R)) → scoped_call owns (@Reranking_execute R M _ llm_reranker n).
Proof. intros Hr. exact (@reranking_scoped owns R _ Hr M llm_reranker n llm_picks). Qed.

(** The ranking: scores never rise, and equals keep the order they came in. *)
Lemma llm_ranking (scored : list (SearchResult * Z)) :
  sort_by higher_score scored ≡ₚ scored ∧ StronglySorted (λ a b, b.2 ≤ a.2) (sort_by higher_score scored) ∧
  ∀ n, filter (λ p, p.2 = n) (sort_by higher_score scored) = filter (λ p, p.2 = n) scored.
Proof.
  assert (total_on higher_score scored ∧ trans_on higher_score scored) as [Htot Htr].
  { split; unfold total_on, trans_on, higher_score; intros; lia. }
  split; [apply sort_by_perm|]. split.
  - eapply StronglySorted_impl; [|by apply sort_by_sorted]. unfold higher_score. cbn. intros. lia.
  - intros n. set (c := (mkSearchResult 0 0 EmptyString fzero, n) : SearchResult * Z).
    pose proof (sort_by_stable higher_score c scored) as Hs.
    assert (∀ l : list (SearchResult * Z), filter (λ x, Is_true (eqv higher_score c x)) l = filter (λ p, p.2 = n) l) as He.
    { intros l. apply list_filter_iff. intros [r m]. unfold eqv, higher_score, c. cbn. rewrite Is_true_true, andb_true_iff, !Z.leb_le. lia. }
    rewrite !He in Hs. apply Hs; unfold total_on, trans_on, higher_score; intros; lia.
Qed.

#[local] Instance no_more_score_digits : UnicodeDigits := λ _, None.
Example scores : map reply_score ["8"; "Score: 7/10"; "--3"; "none"; "-"; "a-b 4"; "9.5"]%string = [Ret 8; Ret 7; Ret (-3); Ret 0; Ret 0; Ret 4; Ret 9].
Proof. vm_compute. reflexivity. Qed.
