(* ===== verification/Gating.v ===== *)
(** * Memory gating

    mag/application/gating: the adapters of _candidates.py, the score guard of
    _scoring.py, the six strategies (dynamic_reranking.py,
    task_specific_filtering.py, recency_weighted_sampling.py,
    token_budget_allocation.py, top_k_selection.py, hierarchical_assembly.py)
    and the pipeline of gate_memories.py over five of them.  The C library's
    exp and log are parameters; tokens are counted as in AssembleContext. *)

From Stdlib Require Import ZArith Lia String Floats.SpecFloat.
From S2P Require Import Prelude PyFloat IntDivision PySeq PyTime Json RagPorts MagDomain AssembleContext.

(** [math.exp] and [math.log]. *)
Class LibM : Type := { math_exp : f64 → f64; math_log : f64 → f64 }.

(** ** Candidates *)

Definition from_scored_episode (scored : ScoredEpisode) : GatingCandidate :=
  let episode := se_episode scored in
  mkCandidate (json_dumps true (JObj (ep_content episode))) (se_score scored) (ep_salience_score episode)
    (Some (ep_timestamp episode)) "episode" (OEpisode episode) (ep_embedding episode).

Definition from_scored_fact (scored : ScoredFact) : GatingCandidate :=
  let fact := sf_fact scored in
  mkCandidate (sm_fact_value fact) (sf_score scored) (sm_confidence fact) None "fact" (OFact fact) (sm_embedding fact).

(** [json.dumps(properties, sort_keys=True, default=str)]. *)
Definition property_json (v : prop_value) : json :=
  match v with PJson v => v | PDatetime t => JStr (str_datetime t) end.

Definition _extract_timestamp (properties : list (string * prop_value)) : option datetime :=
  match od_get "timestamp"%string properties with Some (PDatetime t) => Some t | _ => None end.

Definition from_activated_node (node : ActivatedNode) : GatingCandidate :=
  mkCandidate (json_dumps true (JObj (map (λ kv, (kv.1, property_json kv.2)) (an_properties node))))
    (an_activation node) fzero (_extract_timestamp (an_properties node)) "graph_node" (ONode node) [].

(** ** Scores *)

(** A NaN sorts last. *)
Definition safe_score (score : f64) : f64 := if is_nan score then fninf else score.

Definition cand_key (c : GatingCandidate) : f64 := safe_score (gc_score c).

(** [dataclasses.replace(candidate, score=score)]. *)
Definition with_score (score : f64) (c : GatingCandidate) : GatingCandidate :=
  mkCandidate (gc_content_text c) score (gc_salience c) (gc_timestamp c) (gc_source_type c) (gc_origin c) (gc_embedding c).

(** ** The strategies *)

(** _cosine_similarity of dynamic_reranking.py: a non-finite similarity counts as zero. *)
Definition finite_cosine (a b : list f64) : res f64 :=
  result ← cosine_similarity a b;
  Ret (if is_finite result then result else fzero).

Definition DynamicReranking_execute (candidates : list GatingCandidate) (query_embedding : list f64) :
  res (list GatingCandidate) :=
  reranked ← res_mapM (λ c,
    match gc_embedding c with
    | [] => Ret c
    | embedding => s ← finite_cosine query_embedding embedding; Ret (with_score s c)
    end) candidates;
  Ret (sorted_desc cand_key reranked).

Definition TaskSpecificFiltering_execute (candidates : list GatingCandidate) (allowed_source_types : gset string) :
  list GatingCandidate :=
  filter (λ c, gc_source_type c ∈ allowed_source_types) candidates.

Section recency.
Context `{LibM}.

Definition flit_3600 : f64 := of_Z_raw 3600.

(** The factor a candidate's age puts on its score. *)
Definition age_decay (half_life_hours : f64) (now timestamp : datetime) : res f64 :=
  total_seconds ← int_true_div (now - timestamp) us_second;
  age ← fdiv total_seconds flit_3600;
  let age_hours := fmax age fzero in
  exponent ← fdiv (fmul (fopp (math_log (of_Z_raw 2))) age_hours) half_life_hours;
  Ret (math_exp exponent).

Definition reweighted (half_life_hours : f64) (now : datetime) (c : GatingCandidate) : res GatingCandidate :=
  match gc_timestamp c with
  | None => Ret c
  | Some timestamp =>
      decay ← age_decay half_life_hours now timestamp;
      let multiplier := if fle fzero (gc_score c) then decay else fsub (of_Z_raw 2) decay in
      Ret (with_score (fmul (gc_score c) multiplier) c)
  end.

(** [clock] is [datetime.now(UTC)]. *)
Definition RecencyWeightedSampling_execute (candidates : list GatingCandidate) (half_life_hours : f64)
    (now : option datetime) (clock : datetime) : res (list GatingCandidate) :=
  if fle half_life_hours fzero then Raise (ValueError "half_life_hours must be positive")
  else
    weighted ← res_mapM (reweighted half_life_hours (default clock now)) candidates;
    Ret (sorted_desc cand_key weighted).
End recency.

Section budget.
Context `{TokenCounter}.

(** The walk over the ranked candidates. *)
Fixpoint fill_budget (token_budget running_total : Z) (ranked : list GatingCandidate) : res (list GatingCandidate) :=
  match ranked with
  | [] => Ret []
  | candidate :: rest =>
      candidate_tokens ← count_tokens (gc_content_text candidate);
      if token_budget <? running_total + candidate_tokens then fill_budget token_budget running_total rest
      else
        selected ← fill_budget token_budget (running_total + candidate_tokens) rest;
        Ret (candidate :: selected)
  end.

Definition TokenBudgetAllocation_execute (candidates : list GatingCandidate) (token_budget : Z) :
  res (list GatingCandidate) :=
  if token_budget <? 0 then Ret [] else fill_budget token_budget 0 (sorted_desc cand_key candidates).
End budget.

Definition TopKSelection_execute (candidates : list GatingCandidate) (k : Z) : list GatingCandidate :=
  if k <=? 0 then [] else py_slice 0 k (sorted_desc cand_key candidates).

(** [_SOURCE_TYPE_PRIORITY.get(source_type, 3)]. *)
Definition source_priority (source_type : string) : Z :=
  if String.eqb source_type "fact" then 0
  else if String.eqb source_type "episode" then 1
  else if String.eqb source_type "graph_node" then 2
  else 3.

(** The sort key [(priority, -safe_score)], compared as a tuple. *)
Definition assembly_le (a b : GatingCandidate) : bool :=
  let pa := source_priority (gc_source_type a) in let pb := source_priority (gc_source_type b) in
  (pa <? pb) || (pa =? pb) && fle (fopp (cand_key a)) (fopp (cand_key b)).

Definition HierarchicalAssembly_execute (candidates : list GatingCandidate) : list GatingCandidate :=
  sort_by assembly_le candidates.

(** ** The pipeline *)

Definition GateMemories_execute `{LibM} `{TokenCounter} (episodes : list ScoredEpisode) (facts : list ScoredFact)
    (graph_nodes : list ActivatedNode) (token_budget : Z) (query_embedding : option (list f64))
    (allowed_source_types : option (gset string)) (recency_half_life_hours : f64) (now : option datetime)
    (clock : datetime) : res (list GatingCandidate) :=
  let candidates :=
    map from_scored_episode episodes ++ map from_scored_fact facts ++ map from_activated_node graph_nodes in
  reranked ← match query_embedding with
             | Some q => DynamicReranking_execute candidates q
             | None => Ret candidates
             end;
  let filtered :=
    match allowed_source_types with
    | Some allowed => TaskSpecificFiltering_execute reranked allowed
    | None => reranked
    end in
  weighted ← RecencyWeightedSampling_execute filtered recency_half_life_hours now clock;
  selected ← TokenBudgetAllocation_execute weighted token_budget;
  Ret (HierarchicalAssembly_execute selected).

(** ** What a stage may change *)

(** A candidate but for its score. *)
Definition memory_of (c : GatingCandidate) : GatingCandidate := with_score fzero c.

(** Some of the candidates, each at most as often as it occurs, their scores perhaps changed. *)
Definition drawn_from (out candidates : list GatingCandidate) : Prop :=
  map memory_of out ⊆+ map memory_of candidates.

Lemma drawn_from_refl l : drawn_from l l.
Proof. unfold drawn_from. reflexivity. Qed.

Lemma drawn_from_trans l1 l2 l3 : drawn_from l1 l2 → drawn_from l2 l3 → drawn_from l1 l3.
Proof. unfold drawn_from. intros H1 H2. by etransitivity. Qed.

Lemma drawn_from_perm l1 l2 : l1 ≡ₚ l2 → drawn_from l1 l2.
Proof. intros Hp. unfold drawn_from. by rewrite Hp. Qed.

Lemma drawn_from_sublist l1 l2 : l1 `sublist_of` l2 → drawn_from l1 l2.
Proof. intros Hs. apply sublist_submseteq. by apply (fmap_sublist memory_of). Qed.

Lemma memory_of_with_score s c : memory_of (with_score s c) = memory_of c.
Proof. done. Qed.

Lemma rescored_same (f : GatingCandidate → res GatingCandidate) l out :
  (∀ c c', f c = Ret c' → memory_of c' = memory_of c) → res_mapM f l = Ret out → map memory_of out = map memory_of l.
Proof.
  intros Hf. revert out. induction l as [|c l IH]; intros out; cbn [res_mapM]; [by intros [= <-]|].
  destruct (f c) as [c'|e] eqn:Hc; cbn [mbind res_bind]; [|done].
  destruct (res_mapM f l) as [ys|e] eqn:Hys; cbn [mbind res_bind]; [|done]. intros [= <-]. cbn [map]. f_equal; eauto.
Qed.

Lemma dynamic_reranking_drawn l q out : DynamicReranking_execute l q = Ret out → drawn_from out l.
Proof.
  unfold DynamicReranking_execute. destruct (res_mapM _ l) as [ys|e] eqn:Hys; cbn [mbind res_bind]; [|done].
  intros [= <-]. apply rescored_same in Hys.
  - unfold drawn_from. rewrite <- Hys. apply drawn_from_perm, (sorted_desc_perm cand_key).
  - intros c c'. destruct (gc_embedding c) eqn:He; [by intros [= <-]|].
    destruct (finite_cosine _ _); cbn [mbind res_bind]; [|done]. by intros [= <-].
Qed.

Lemma task_filtering_drawn l allowed : drawn_from (TaskSpecificFiltering_execute l allowed) l.
Proof. apply drawn_from_sublist, filter_is_sublist. Qed.

Lemma recency_permutes `{LibM} l h now clock out : RecencyWeightedSampling_execute l h now clock = Ret out →
  map memory_of out ≡ₚ map memory_of l.
Proof.
  unfold RecencyWeightedSampling_execute. destruct (fle h fzero); [done|].
  destruct (res_mapM _ l) as [ys|e] eqn:Hys; cbn [mbind res_bind]; [|done].
  intros [= <-]. apply rescored_same in Hys; [by rewrite (sorted_desc_perm cand_key), Hys|].
  intros c c'. unfold reweighted. destruct (gc_timestamp c); [|by intros [= <-]].
  destruct (age_decay _ _ _); cbn [mbind res_bind]; [|done]. by intros [= <-].
Qed.

Lemma assembly_perm l : HierarchicalAssembly_execute l ≡ₚ l.
Proof. apply sort_by_perm. Qed.

(** ** Ordering without NaN trouble *)

Lemma cand_key_num c : is_nan (cand_key c) = false.
Proof. unfold cand_key, safe_score. by destruct (is_nan (gc_score c)) eqn:Hn. Qed.

Lemma cand_keys_ok l : keys_ok cand_key l.
Proof. apply Forall_true, cand_key_num. Qed.

Lemma frank_fopp x : is_nan x = false → frank (fopp x) = let '(a, b, c) := frank x in (- a, - b, - c).
Proof. destruct x as [[]|[]| |[] m e]; intros Hx; try done; cbn; f_equal; f_equal; lia. Qed.

Lemma fopp_num x : is_nan x = false → is_nan (fopp x) = false.
Proof. by destruct x. Qed.

Lemma fopp_order x y : is_nan x = false → is_nan y = false → fle (fopp x) (fopp y) = fle y x.
Proof.
  intros Hx Hy. apply eq_true_iff_eq. rewrite !fle_rank, !frank_fopp by eauto using fopp_num.
  destruct (frank x) as [[a b] c], (frank y) as [[a' b'] c']. simpl. lia.
Qed.

(** Priority first, then the better score. *)
Lemma assembly_le_spec a b : assembly_le a b = true ↔
  source_priority (gc_source_type a) < source_priority (gc_source_type b) ∨
  source_priority (gc_source_type a) = source_priority (gc_source_type b) ∧ fle (cand_key b) (cand_key a) = true.
Proof.
  unfold assembly_le. rewrite orb_true_iff, andb_true_iff, Z.ltb_lt, Z.eqb_eq.
  by rewrite fopp_order by apply cand_key_num.
Qed.

Lemma assembly_sorted l : StronglySorted (λ a b, assembly_le a b = true) (HierarchicalAssembly_execute l).
Proof.
  apply sort_by_sorted.
  - intros a b _ _. rewrite !assembly_le_spec.
    destruct (fle_total (cand_key a) (cand_key b) (cand_key_num a) (cand_key_num b));
      destruct (Z.lt_trichotomy (source_priority (gc_source_type a)) (source_priority (gc_source_type b))) as [?|[?|?]]; auto.
  - intros a b c _ _ _. rewrite !assembly_le_spec. intros [H1|[H1 H1']] [H2|[H2 H2']]; [left; lia..|].
    right. split; [lia|]. by eapply fle_trans.
Qed.

(** ** The budget *)

Section spending.
Context `{TokenCounterLaws}.

(** The tokens of a candidate; those the budget let in can all be counted. *)
Definition tokens_of (c : GatingCandidate) : Z := match count_tokens (gc_content_text c) with Ret n => n | Raise _ => 0 end.

Lemma tokens_of_nonneg c : 0 ≤ tokens_of c.
Proof. unfold tokens_of. destruct (count_tokens _) eqn:Hc; [by apply count_tokens_nonneg in Hc|done]. Qed.

Lemma tokens_sum_nonneg l : 0 ≤ zsum (map tokens_of l).
Proof. induction l as [|x l IH]; [done|]. unfold zsum in *. simpl. pose proof (tokens_of_nonneg x). lia. Qed.

Lemma fill_budget_spec budget running l out : running ≤ budget → fill_budget budget running l = Ret out →
  out `sublist_of` l ∧ running + zsum (map tokens_of out) ≤ budget ∧
  (∀ c, c ∈ l → c ∉ out → budget < running + zsum (map tokens_of out) + tokens_of c).
Proof.
  revert running out. induction l as [|c l IH]; intros running out Hle; cbn [fill_budget].
  { intros [= <-]. split; [done|]. split; [unfold zsum; simpl; lia|]. intros c Hc. by apply not_elem_of_nil in Hc. }
  destruct (count_tokens (gc_content_text c)) as [n|e] eqn:Hn; cbn [mbind res_bind]; [|done].
  assert (Htok : tokens_of c = n) by (unfold tokens_of; by rewrite Hn).
  destruct (Z.ltb_spec budget (running + n)) as [Hover|Hfits].
  - intros Hrun. destruct (IH running out Hle Hrun) as (Hs & Hb & Hmax). split; [by constructor|]. split; [done|].
    intros c' Hc' Hn'. apply elem_of_cons in Hc' as [->|Hc']; [|by apply Hmax].
    pose proof (tokens_sum_nonneg out).
    lia.
  - destruct (fill_budget budget (running + n) l) as [sel|e] eqn:Hsel; cbn [mbind res_bind]; [|done]. intros [= <-].
    destruct (IH (running + n) sel Hfits Hsel) as (Hs & Hb & Hmax). unfold zsum in *. cbn [map foldr]. rewrite Htok.
    split; [by constructor|]. split; [lia|]. intros c' Hc' Hn'. apply not_elem_of_cons in Hn' as [Hne Hn'].
    apply elem_of_cons in Hc' as [->|Hc']; [done|]. specialize (Hmax c' Hc' Hn'). lia.
Qed.
End spending.

(** ** The properties *)

(** What reaches the prompt through the gate, whenever the pipeline returns: memories out of those it was given,
    none twice, only of the allowed kinds, unchanged but for their scores; within the token budget when that is not
    negative; facts before episodes before graph nodes, and within a kind by descending score with NaN last; and the
    budget is used up: every candidate the budget step left out was too long for what the selection leaves unspent. *)
Theorem gate_memories_sound `{LibM} `{TokenCounterLaws} episodes facts nodes budget query allowed half_life now clock out :
  GateMemories_execute episodes facts nodes budget query allowed half_life now clock = Ret out →
  let candidates := map from_scored_episode episodes ++ map from_scored_fact facts ++ map from_activated_node nodes in
  drawn_from out candidates ∧
  (∀ c kinds, allowed = Some kinds → c ∈ out → gc_source_type c ∈ kinds) ∧
  (0 ≤ budget → zsum (map tokens_of out) ≤ budget) ∧
  StronglySorted (λ a b, source_priority (gc_source_type a) < source_priority (gc_source_type b) ∨
    source_priority (gc_source_type a) = source_priority (gc_source_type b) ∧ fle (cand_key b) (cand_key a) = true) out ∧
  (0 ≤ budget → ∃ weighted, drawn_from weighted candidates ∧ out ⊆+ weighted ∧
    (query = None → allowed = None → map memory_of weighted ≡ₚ map memory_of candidates) ∧
    ∀ c, c ∈ weighted → c ∉ out → budget < zsum (map tokens_of out) + tokens_of c).
Proof.
  unfold GateMemories_execute. set (cands := map from_scored_episode episodes ++ _). intros Hrun.
  destruct (match query with Some q => _ | None => _ end) as [reranked|e] eqn:Hre; cbn [mbind res_bind] in Hrun; [|done].
  set (filtered := match allowed with Some a => _ | None => _ end) in Hrun.
  destruct (RecencyWeightedSampling_execute filtered half_life now clock) as [weighted|e] eqn:Hw; cbn [mbind res_bind] in Hrun; [|done].
  destruct (TokenBudgetAllocation_execute weighted budget) as [sel|e] eqn:Hsel; cbn [mbind res_bind] in Hrun; [|done].
  injection Hrun as <-. cbv zeta.
  assert (Hdre : drawn_from reranked cands) by (destruct query; [by eapply dynamic_reranking_drawn|injection Hre as ->; apply drawn_from_refl]).
  assert (Hdf : drawn_from filtered reranked) by (unfold filtered; destruct allowed; [apply task_filtering_drawn|apply drawn_from_refl]).
  assert (Hdw : drawn_from weighted filtered) by (unfold drawn_from; by rewrite (recency_permutes _ _ _ _ _ Hw)).
  assert (Hds : sel ⊆+ weighted ∧ (0 ≤ budget → zsum (map tokens_of sel) ≤ budget ∧
    ∀ c, c ∈ weighted → c ∉ sel → budget < zsum (map tokens_of sel) + tokens_of c)).
  { unfold TokenBudgetAllocation_execute in Hsel. destruct (Z.ltb_spec budget 0).
    - injection Hsel as <-. split; [apply submseteq_nil_l|lia].
    - destruct (fill_budget_spec budget 0 _ sel ltac:(lia) Hsel) as (Hs & Hb & Hmax). split.
      + etransitivity; [by apply sublist_submseteq|]. by rewrite (sorted_desc_perm cand_key).
      + intros _. split; [lia|]. intros c Hc Hn. specialize (Hmax c). rewrite (sorted_desc_perm cand_key) in Hmax.
        specialize (Hmax Hc Hn). lia. }
  destruct Hds as [Hds Hbud]. set (final := HierarchicalAssembly_execute sel).
  assert (Hperm : final ≡ₚ sel) by apply assembly_perm.
  assert (Hsum : zsum (map tokens_of final) = zsum (map tokens_of sel)) by (apply zsum_perm; by rewrite Hperm).
  assert (Hdwc : drawn_from weighted cands) by (eapply drawn_from_trans; [exact Hdw|]; by eapply drawn_from_trans).
  split; [|split; [|split; [|split]]].
  - eapply drawn_from_trans; [by apply drawn_from_perm|]. eapply drawn_from_trans; [|exact Hdwc]. unfold drawn_from.
    by apply (fmap_submseteq memory_of) in Hds.
  - intros c kinds -> Hc. rewrite Hperm in Hc. apply (elem_of_submseteq _ _ _ Hc) in Hds as Hcw.
    assert (Hm : memory_of c ∈ map memory_of filtered).
    { eapply elem_of_submseteq; [|exact Hdw]. by apply list_elem_of_In, in_map, list_elem_of_In. }
    apply list_elem_of_In, in_map_iff in Hm as (c' & Heq & Hc'). apply list_elem_of_In in Hc'.
    unfold filtered, TaskSpecificFiltering_execute in Hc'. apply list_elem_of_filter in Hc' as [Hk _].
    by assert (gc_source_type c = gc_source_type c') as -> by (by injection Heq).
  - rewrite Hsum. intros Hb. by apply Hbud.
  - pose proof (assembly_sorted sel) as Hs. fold final in Hs. eapply StronglySorted_impl; [|exact Hs].
    intros a b _ _. apply assembly_le_spec.
  - intros Hb. exists weighted. split; [done|]. split; [by rewrite Hperm|]. split.
    + intros -> ->. injection Hre as ->. by apply recency_permutes in Hw.
    + intros c Hc Hn. rewrite Hsum. rewrite Hperm in Hn. by apply Hbud.
Qed.

(** ** A gate to run *)

(** A step in place of the exponential, and a token per character. *)
#[local] Instance step_exp : LibM := {| math_exp x := if fle fzero x then fone else flit 1 2; math_log _ := fone |}.
#[local] Instance char_counter : TokenCounter := λ s, Ret (Z.of_nat (String.length s)).
#[local] Instance char_counter_laws : TokenCounterLaws.
Proof. intros s n [= <-]. lia. Qed.

Definition an_episode : EpisodicMemory := mkEpisode 1 9 [] [fone] 0 fone None.
Definition a_fact : SemanticMemory := mkFact 2 8 "city" "Oslo" [fone] fone "chat" None None.
Definition a_long_fact : SemanticMemory := mkFact 3 8 "bio" "a long biography" [fone] fone "chat" None None.

Definition gated : res (list GatingCandidate) :=
  GateMemories_execute [mkScoredEpisode an_episode fone]
    [mkScoredFact a_long_fact fone; mkScoredFact a_fact (flit 1 2); mkScoredFact a_fact S754_nan] [] 10 None None
    (of_Z_raw 24) (Some us_hour) 0.

Definition gated_out : list GatingCandidate := match gated with Ret l => l | Raise _ => [] end.

Example gate_order : map (λ c, (gc_source_type c, gc_content_text c)) gated_out =
  [("fact", "Oslo"); ("fact", "Oslo"); ("episode", "{}")]%string.
Proof. vm_compute. reflexivity. Qed.

Lemma gated_returns : gated = Ret gated_out.
Proof. vm_compute. reflexivity. Qed.

Lemma gate_memories_sound_witness :
  let candidates := map from_scored_episode [mkScoredEpisode an_episode fone] ++
    map from_scored_fact [mkScoredFact a_long_fact fone; mkScoredFact a_fact (flit 1 2); mkScoredFact a_fact S754_nan] ++
    map from_activated_node [] in
  drawn_from gated_out candidates ∧
  (∀ c kinds, None = Some kinds → c ∈ gated_out → gc_source_type c ∈ (kinds : gset string)) ∧
  (0 ≤ 10 → zsum (map tokens_of gated_out) ≤ 10) ∧
  StronglySorted (λ a b, source_priority (gc_source_type a) < source_priority (gc_source_type b) ∨
    source_priority (gc_source_type a) = source_priority (gc_source_type b) ∧ fle (cand_key b) (cand_key a) = true) gated_out ∧
  (0 ≤ 10 → ∃ weighted, drawn_from weighted candidates ∧ gated_out ⊆+ weighted ∧
    (@None (list f64) = None → @None (gset string) = None → map memory_of weighted ≡ₚ map memory_of candidates) ∧
    ∀ c, c ∈ weighted → c ∉ gated_out → 10 < zsum (map tokens_of gated_out) + tokens_of c).
Proof.
  pose proof (gate_memories_sound [mkScoredEpisode an_episode fone]
    [mkScoredFact a_long_fact fone; mkScoredFact a_fact (flit 1 2); mkScoredFact a_fact S754_nan] [] 10 None None
    (of_Z_raw 24) (Some us_hour) 0 gated_out gated_returns) as Hw. exact Hw.
Defined.
