(* ===== verification/Chunking.v ===== *)
(** * Chunking and compression

    rag/infrastructure: fixed_size_chunker.py, sliding_window_chunker.py,
    sentence_based_chunker.py, semantic_chunker.py, parent_document_chunker.py,
    _sentence_splitter.py and compressing_retriever.py.  The tokenizer
    (tiktoken's cl100k_base) and the statistics module's mean and deviation are
    parameters.  The while loop of the fixed-size chunker takes fuel, and
    answers None when it runs out: the theorems say when it does not, and when
    no fuel is enough. *)

From Stdlib Require Import ZArith Lia Ascii String Floats.SpecFloat.
From S2P Require Import Prelude PyFloat IntDivision PySeq PyStr RagPorts.

(** tiktoken's encoding; [encode] raises on the text of a special token. *)
Class Tokenizer : Type := { tk_encode : string → res (list Z); tk_decode : list Z → string }.

(** ** Fixed-size windows *)

Record FixedSizeChunker : Type := mkFixedSize { fc_chunk_size : Z; fc_overlap : Z }.

Definition FixedSize_init (chunk_size_tokens : Z) (overlap_ratio : f64) : res FixedSizeChunker :=
  if fle fone overlap_ratio then Raise (ValueError "overlap_ratio must be < 1.0")
  else
    size ← int_to_float chunk_size_tokens;
    overlap ← py_trunc (fmul size overlap_ratio);
    Ret (mkFixedSize chunk_size_tokens overlap).

(** SlidingWindowChunker differs in its default ratio alone. *)
Definition SlidingWindow_init : Z → f64 → res FixedSizeChunker := FixedSize_init.

Example default_chunkers :
  [FixedSize_init 512 (flit 1 10); SlidingWindow_init 512 (flit 1 2); FixedSize_init 1000 (flit 1 10); FixedSize_init 200 (flit 1 10)]
    = [Ret (mkFixedSize 512 51); Ret (mkFixedSize 512 256); Ret (mkFixedSize 1000 100); Ret (mkFixedSize 200 20)].
Proof. vm_compute. reflexivity. Qed.

(** The while loop over the token stream, from [start]. *)
Fixpoint windows (fuel : nat) (c : FixedSizeChunker) (tokens : list Z) (start : Z) : option (list (list Z)) :=
  let n := Z.of_nat (length tokens) in
  if start <? n then
    match fuel with
    | O => None
    | S fuel =>
        let finish := Z.min (start + fc_chunk_size c) n in
        let window := py_slice start finish tokens in
        if finish =? n then Some [window]
        else (λ rest, window :: rest) <$> windows fuel c tokens (start + (fc_chunk_size c - fc_overlap c))
    end
  else Some [].

Section chunkers.
Context `{Tokenizer}.

Definition FixedSize_chunk (fuel : nat) (c : FixedSizeChunker) (text : string) : res (option (list string)) :=
  if String.eqb text EmptyString then Ret (Some [])
  else
    tokens ← tk_encode text;
    if Z.of_nat (length tokens) <=? fc_chunk_size c then Ret (Some [text])
    else Ret (map tk_decode <$> windows fuel c tokens 0).

(** ** Parents and children *)

Record ParentDocumentChunker : Type := mkParentChunker { pd_parent : FixedSizeChunker; pd_child : FixedSizeChunker }.

(** The loop over the parents, [i] being the index of the first. *)
Fixpoint children_of (fuel : nat) (c : FixedSizeChunker) (parents : list string) (i : nat) : res (option (list (string * nat))) :=
  match parents with
  | [] => Ret (Some [])
  | parent :: rest =>
      mine ← FixedSize_chunk fuel c parent;
      others ← children_of fuel c rest (S i);
      Ret (m ← mine; o ← others; Some (map (λ child, (child, i)) m ++ o))
  end.

Definition chunk_with_parents (fuel : nat) (p : ParentDocumentChunker) (text : string) : res (option ParentChildChunks) :=
  cut ← FixedSize_chunk fuel (pd_parent p) text;
  match cut return res (option ParentChildChunks) with
  | None => Ret None
  | Some parents =>
      children ← children_of fuel (pd_child p) parents 0;
      Ret (fmap (M := option) (mkParentChild parents) children)
  end.
End chunkers.

(** ** Sentences *)

Definition ends_sentence (c : ascii) : bool := (Ascii.eqb c "." || Ascii.eqb c "!" || Ascii.eqb c "?")%char.
Definition starts_sentence (s : string) : bool :=
  match s with EmptyString => true | String c _ => let n := N_of_ascii c in (65 <=? n)%N && (n <=? 90)%N end.

(** [_SENTENCE_BOUNDARY.split]: the pieces between boundaries.  [after_end]
    says whether the character before was a full stop; [current] is the piece
    so far, reversed.  A run of white space is taken whole: what follows less
    of it is white space, which starts no sentence. *)
Fixpoint split_boundaries (fuel : nat) (after_end : bool) (current : list ascii) (s : string) : list string :=
  let piece := string_of_list_ascii (rev current) in
  match fuel, s with
  | S fuel, String c s' =>
      let rest := lstrip s in
      if after_end && negb (String.eqb rest s) && starts_sentence rest
      then piece :: split_boundaries fuel false [] rest
      else split_boundaries fuel (ends_sentence c) (c :: current) s'
  | _, _ => [piece]
  end.

Definition split_sentences (text : string) : list string :=
  let t := strip text in
  if String.eqb t EmptyString then []
  else filter (λ s, s ≠ EmptyString) (map strip (split_boundaries (S (String.length t)) false [] t)).

Example sentences_split :
  split_sentences " Pi is 3.14 or so. e.g. this stays.  New one! Really?  Yes. " =
    ["Pi is 3.14 or so. e.g. this stays."; "New one!"; "Really?"; "Yes."]%string.
Proof. vm_compute. reflexivity. Qed.

Section sentences.
Context `{Tokenizer}.

Definition token_count (sentence : string) : res Z := tokens ← tk_encode sentence; Ret (Z.of_nat (length tokens)).

(** The loop of SentenceBasedChunker, [current] being the sentences held back. *)
Fixpoint pack_sentences (chunk_size : Z) (sentences : list string) (current : list string) (current_tokens : Z) : res (list string) :=
  match sentences with
  | [] => Ret (match current with [] => [] | _ => [join " " current] end)
  | sentence :: rest =>
      sentence_tokens ← token_count sentence;
      if match current with [] => false | _ => true end && (chunk_size <? current_tokens + sentence_tokens) then
        chunks ← pack_sentences chunk_size rest [sentence] sentence_tokens;
        Ret (join " " current :: chunks)
      else pack_sentences chunk_size rest (current ++ [sentence]) (current_tokens + sentence_tokens)
  end.

Definition SentenceBased_chunk (chunk_size : Z) (text : string) : res (list string) :=
  pack_sentences chunk_size (split_sentences text) [] 0.
End sentences.

(** ** Breakpoints *)

(** [statistics.fmean] and [statistics.pstdev]. *)
Class Statistics : Type := { st_fmean : list f64 → res f64; st_pstdev : list f64 → res f64 }.

Section semantic.
Context `{Tokenizer} `{Statistics} {E : Type} `{EmbeddingModel E}.

Definition _BREAKPOINT_STDEV_MULTIPLIER : f64 := fone.

(** The similarity of each embedding to the next. *)
Fixpoint consecutive (embeddings : list (list f64)) : res (list f64) :=
  match embeddings with
  | a :: (b :: _) as rest => s ← cosine_similarity a b; ss ← consecutive rest; Ret (s :: ss)
  | _ => Ret []
  end.

(** The loop over the similarities, each with the sentence after it. *)
Fixpoint pack_similar (chunk_size : Z) (breakpoint_threshold : f64) (steps : list (f64 * string))
    (current : list string) (current_tokens : Z) : res (list string) :=
  match steps with
  | [] => Ret [join " " current]
  | (similarity, next_sentence) :: rest =>
      next_tokens ← token_count next_sentence;
      if flt similarity breakpoint_threshold || (chunk_size <? current_tokens + next_tokens) then
        chunks ← pack_similar chunk_size breakpoint_threshold rest [next_sentence] next_tokens;
        Ret (join " " current :: chunks)
      else pack_similar chunk_size breakpoint_threshold rest (current ++ [next_sentence]) (current_tokens + next_tokens)
  end.

Definition Semantic_chunk (chunk_size : Z) (text : string) : stm E (list string) :=
  match split_sentences text with
  | [] => mret []
  | [sentence] => mret [sentence]
  | (first :: others) as sentences =>
      embeddings ← for_each sentences embed;
      lift_res (
        similarities ← consecutive embeddings;
        mean ← st_fmean similarities;
        stdev ← st_pstdev similarities;
        first_tokens ← token_count first;
        pack_similar chunk_size (fsub mean (fmul _BREAKPOINT_STDEV_MULTIPLIER stdev)) (zip similarities others) [first] first_tokens)
  end.
End semantic.

(** ** Compression *)

Section compression.
Context `{Tokenizer} {R E : Type} `{Retriever R} `{EmbeddingModel E}.

(** A sentence with its score, its result and its place there. *)
Record ScoredSentence : Type := mkScoredSentence { ss_score : f64; ss_result : Z; ss_order : Z; ss_text : string }.

(** [enumerate]. *)
Definition enumerated {A} (l : list A) : list (Z * A) := zip (seqZ 0 (Z.of_nat (length l))) l.

Definition score_sentence (query_embedding : list f64) (result_idx : Z) (os : Z * string) : stm E ScoredSentence :=
  embedding ← embed os.2;
  score ← lift_res (cosine_similarity query_embedding embedding);
  mret (mkScoredSentence score result_idx os.1 os.2).

(** The budget loop: the sentences kept, best first. *)
Fixpoint keep_sentences (target_tokens kept_tokens : Z) (sentences : list ScoredSentence) : res (list ScoredSentence) :=
  match sentences with
  | [] => Ret []
  | s :: rest =>
      sentence_tokens ← token_count (ss_text s);
      if target_tokens <? kept_tokens + sentence_tokens then keep_sentences target_tokens kept_tokens rest
      else kept ← keep_sentences target_tokens (kept_tokens + sentence_tokens) rest; Ret (s :: kept)
  end.

(** One result from the sentences kept of it, in their original order. *)
Definition compressed_result (kept : list ScoredSentence) (ir : Z * SearchResult) : option SearchResult :=
  match filter (λ s, ss_result s = ir.1) kept with
  | [] => None
  | mine => Some (mkSearchResult (sr_document_id ir.2) (sr_chunk_id ir.2)
      (join " " (map ss_text (sort_by (λ a b, ss_order a <=? ss_order b) mine))) (sr_score ir.2))
  end.

Definition _compress (target_tokens : Z) (query : string) (results : list SearchResult) : stm E (list SearchResult) :=
  query_embedding ← embed query;
  scored ← for_each (enumerated results) (λ ir,
    for_each (enumerated (split_sentences (sr_content ir.2))) (score_sentence query_embedding ir.1));
  kept ← lift_res (keep_sentences target_tokens 0 (sorted_desc ss_score (concat scored)));
  mret (omap (compressed_result kept) (enumerated results)).

Definition Compressing_execute (target_tokens : Z) (tenant_id : uuid) (query : string) (top_k : Z) : stm (R * E) (list SearchResult) :=
  results ← on_fst (retrieve tenant_id query top_k);
  match results with
  | [] => mret []
  | _ => on_snd (_compress target_tokens query results)
  end.
End compression.

(** ** The windows cover the text *)

(** One window follows another: the first is full, and the second starts with
    its last [fc_overlap] tokens. *)
Definition follows (c : FixedSizeChunker) (a b : list Z) : Prop :=
  Z.of_nat (length a) = fc_chunk_size c ∧ take (Z.to_nat (fc_overlap c)) b = drop (Z.to_nat (fc_chunk_size c - fc_overlap c)) a.

(** The windows [w :: ws] of a stream: of at most the chunk size, each
    following the one before, and the stream when what overlaps is dropped. *)
Record windows_of (c : FixedSizeChunker) (tokens : list Z) (w : list Z) (ws : list (list Z)) : Prop := {
  wo_tokens : tokens = w ++ concat (map (drop (Z.to_nat (fc_overlap c))) ws);
  wo_size : Forall (λ x, fc_overlap c < Z.of_nat (length x) ≤ fc_chunk_size c) ws;
  wo_first : 1 ≤ Z.of_nat (length w) ≤ fc_chunk_size c;
  wo_follows : Sorted (follows c) (w :: ws)
}.

Lemma py_slice_inner {A} i j (l : list A) : 0 ≤ i ≤ j → j ≤ Z.of_nat (length l) →
  py_slice i j l = take (Z.to_nat (j - i)) (drop (Z.to_nat i) l).
Proof.
  intros Hij Hj. unfold py_slice, clamp. destruct (Z.ltb_spec i 0), (Z.ltb_spec j 0); try lia. do 2 f_equal; lia.
Qed.

Lemma windows_spec c tokens fuel start :
  0 ≤ fc_overlap c < fc_chunk_size c → 0 ≤ start < Z.of_nat (length tokens) → Z.of_nat (length tokens) - start ≤ Z.of_nat fuel →
  ∃ w ws, windows fuel c tokens start = Some (w :: ws) ∧ windows_of c (drop (Z.to_nat start) tokens) w ws ∧
    (fc_chunk_size c ≤ Z.of_nat (length tokens) - start → Z.of_nat (length w) = fc_chunk_size c) ∧
    (fc_overlap c < Z.of_nat (length tokens) - start → fc_overlap c < Z.of_nat (length w)).
Proof.
  intros Hc. revert start. induction fuel as [|fuel IH]; intros start Hs Hfuel; [lia|]. cbn [windows].
  destruct (Z.ltb_spec start (Z.of_nat (length tokens))); [|lia].
  set (n := Z.of_nat (length tokens)) in *. set (rest := drop (Z.to_nat start) tokens).
  assert (Z.of_nat (length rest) = n - start) as Hrest by (unfold rest; rewrite length_drop; lia).
  rewrite py_slice_inner by lia. fold rest.
  destruct (Z.eqb_spec (Z.min (start + fc_chunk_size c) n) n) as [Hend|Hend].
  - rewrite Hend, take_ge by lia. exists rest, []. split_and!; [done| |lia|lia].
    split; [by rewrite app_nil_r|constructor|lia|by repeat constructor].
  - assert (start + fc_chunk_size c < n) as Hlt by lia. rewrite Z.min_l by lia.
    replace (start + fc_chunk_size c - start) with (fc_chunk_size c) by lia.
    destruct (IH (start + (fc_chunk_size c - fc_overlap c))) as (w & ws & -> & [Htok Hsize Hfirst Hfol] & Hfull & Hlong); [lia..|].
    assert (drop (Z.to_nat (start + (fc_chunk_size c - fc_overlap c))) tokens
      = drop (Z.to_nat (fc_chunk_size c - fc_overlap c)) rest) as Hdrop.
    { unfold rest. rewrite drop_drop. f_equal. lia. }
    rewrite Hdrop in Htok. exists (take (Z.to_nat (fc_chunk_size c)) rest), (w :: ws). split; [done|].
    assert (fc_overlap c < Z.of_nat (length w)) as Hw by (apply Hlong; lia).
    split_and!; [split|rewrite length_take; lia..].
    + rewrite <- (take_drop (Z.to_nat (fc_chunk_size c)) rest) at 1. f_equal. cbn [map concat].
      rewrite <- drop_app_le by lia. rewrite <- Htok, drop_drop. f_equal. lia.
    + by constructor; [lia|].
    + rewrite length_take. lia.
    + constructor; [done|]. constructor. split; [rewrite length_take; lia|].
      rewrite <- (take_app_le w (concat (map (drop (Z.to_nat (fc_overlap c))) ws))) by lia. rewrite <- Htok.
      rewrite take_drop_commute. do 2 f_equal; lia.
Qed.

(** A fixed-size or sliding-window chunker whose overlap is smaller than
    its chunk size always returns, given as many rounds as the text has
    tokens or more, and loses nothing: a text of at most one chunk is kept as
    it is; of a longer one every window is at most the chunk size, every
    window but the last is exactly it and ends with the tokens the next one
    starts with, and the windows without those repeated tokens are the text's
    tokens, in order. *)
Theorem fixed_size_chunks_cover `{Tokenizer} (c : FixedSizeChunker) (fuel : nat) (text : string) (tokens : list Z) :
  0 ≤ fc_overlap c < fc_chunk_size c → text ≠ EmptyString → tk_encode text = Ret tokens → (length tokens ≤ fuel)%nat →
  if Z.of_nat (length tokens) <=? fc_chunk_size c then FixedSize_chunk fuel c text = Ret (Some [text])
  else ∃ w ws, FixedSize_chunk fuel c text = Ret (Some (map tk_decode (w :: ws))) ∧ windows_of c tokens w ws.
Proof.
  intros Hc Htext Henc Hfuel. unfold FixedSize_chunk. destruct (String.eqb_spec text EmptyString); [done|].
  rewrite Henc. cbn [mbind res_bind]. destruct (Z.leb_spec (Z.of_nat (length tokens)) (fc_chunk_size c)); [done|].
  destruct (windows_spec c tokens fuel 0 Hc) as (w & ws & -> & Hw & _); [lia..|]. exists w, ws. by split.
Qed.

(** The guard on the overlap ratio does not turn every hang into an error:
    a chunker of chunk size zero is accepted, whatever its finite ratio below
    one, and on a text with a token in it its loop never ends. *)
Theorem zero_chunk_size_never_returns `{Tokenizer} (ratio : f64) (text : string) (tokens : list Z) (fuel : nat) :
  is_finite ratio = true → fle fone ratio = false → text ≠ EmptyString → tk_encode text = Ret tokens → tokens ≠ [] →
  FixedSize_init 0 ratio = Ret (mkFixedSize 0 0) ∧ FixedSize_chunk fuel (mkFixedSize 0 0) text = Ret None.
Proof.
  intros Hfin Hle Htext Henc Hne. split.
  - unfold FixedSize_init. rewrite Hle. destruct ratio as [s|s| |s m e]; try done; by destruct s.
  - unfold FixedSize_chunk. destruct (String.eqb_spec text EmptyString); [done|]. rewrite Henc. cbn [mbind res_bind fc_chunk_size].
    destruct tokens as [|t tokens]; [done|]. cbn [length]. destruct (Z.leb_spec (Z.of_nat (S (length tokens))) 0); [lia|].
    assert (windows fuel (mkFixedSize 0 0) (t :: tokens) 0 = None) as ->; [|done].
    induction fuel as [|fuel IH]; cbn [windows fc_chunk_size fc_overlap length];
      (destruct (Z.ltb_spec 0 (Z.of_nat (S (length tokens)))); [|lia]); [done|].
    destruct (Z.eqb_spec (Z.min (0 + 0) (Z.of_nat (S (length tokens)))) (Z.of_nat (S (length tokens)))); [lia|].
    change (0 + (0 - 0)) with 0. by rewrite IH.
Qed.

(** ** Sentences are packed, never cut *)

Section packing.
Context `{Tokenizer}.

Definition tokens_in (sentence : string) : Z := match token_count sentence with Ret n => n | Raise _ => 0 end.
Definition tokens_of_group (group : list string) : Z := zsum (map tokens_in group).

(** A group holds one sentence, or fits the chunk. *)
Definition group_ok (chunk_size : Z) (group : list string) : Prop :=
  group ≠ [] ∧ (length group = 1%nat ∨ tokens_of_group group ≤ chunk_size).

(** The next group starts with a sentence this one had no room for. *)
Definition no_room (chunk_size : Z) (group next : list string) : Prop :=
  ∃ s rest, next = s :: rest ∧ chunk_size < tokens_of_group group + tokens_in s.

Lemma tokens_of_group_snoc g s : tokens_of_group (g ++ [s]) = tokens_of_group g + tokens_in s.
Proof. unfold tokens_of_group. rewrite map_app, zsum_app. simpl. lia. Qed.

Lemma pack_sentences_spec size sentences current out :
  (current ≠ [] → group_ok size current) → pack_sentences size sentences current (tokens_of_group current) = Ret out →
  ∃ groups, out = map (join " ") groups ∧ concat groups = current ++ sentences ∧ Forall (group_ok size) groups ∧
    Sorted (no_room size) groups ∧ (current ≠ [] → ∃ more groups', groups = (current ++ more) :: groups').
Proof.
  revert current out. induction sentences as [|s rest IH]; intros current out Hcur; cbn [pack_sentences].
  - intros [= <-]. destruct current as [|c0 cs]; [by exists []; split_and!; try constructor|].
    exists [c0 :: cs]. split_and!; [done| |by apply Forall_singleton, Hcur|by repeat constructor|].
    + cbn [concat]. by rewrite !app_nil_r.
    + intros _. exists [], []. by rewrite app_nil_r.
  - destruct (token_count s) as [n|e] eqn:Hn; [|done]. cbn [mbind res_bind].
    assert (tokens_in s = n) as Htok by (unfold tokens_in; by rewrite Hn).
    destruct (match current with [] => false | _ => true end && _) eqn:Hfull.
    + apply andb_true_iff in Hfull as [Hne Hlt%Z.ltb_lt].
      assert (tokens_of_group [s] = n) as Hs by (unfold tokens_of_group; simpl; lia). rewrite <- Hs.
      destruct (pack_sentences size rest [s] _) as [chunks|e] eqn:Hp; [|done]. intros [= <-].
      apply IH in Hp as (groups & -> & Hcat & Hok & Hsorted & Hhead); [|by split; [|left]].
      destruct (Hhead ltac:(done)) as (more & groups' & ->).
      exists (current :: (([s] ++ more) :: groups')). split_and!; [done| |constructor; [apply Hcur; by destruct current|done]| |].
      * cbn [concat] in *. by rewrite Hcat.
      * constructor; [done|]. constructor. exists s, more. split; [done|]. lia.
      * intros _. exists [], (([s] ++ more) :: groups'). by rewrite app_nil_r.
    + rewrite <- Htok, <- tokens_of_group_snoc. intros Hp. apply IH in Hp as (groups & -> & Hcat & Hok & Hsorted & Hhead).
      * exists groups. split_and!; try done; [by rewrite Hcat, <- app_assoc|]. intros _.
        destruct (Hhead ltac:(by destruct current)) as (more & groups' & ->). exists (s :: more), groups'. by rewrite <- app_assoc.
      * intros _. split; [by destruct current|]. rewrite tokens_of_group_snoc. destruct current as [|c0 cs]; [by left|].
        right. apply andb_false_iff in Hfull as [?|Hlt%Z.ltb_ge]; [done|]. lia.
Qed.

Lemma pack_sentences_raises size sentences current n e : pack_sentences size sentences current n = Raise e →
  ∃ s, s ∈ sentences ∧ ∃ e, tk_encode s = Raise e.
Proof.
  revert current n. induction sentences as [|s rest IH]; intros current n; [done|]. cbn [pack_sentences].
  unfold token_count. destruct (tk_encode s) as [ts|x] eqn:Hs; cbn [mbind res_bind].
  - intros Hp. assert (∃ current' n', pack_sentences size rest current' n' = Raise e) as (current' & n' & Hp').
    { destruct (_ && _); [|by eauto]. destruct (pack_sentences size rest [s] _) as [?|x] eqn:Hr; [done|]. injection Hp as ->. by eauto. }
    destruct (IH _ _ Hp') as (s' & Hin & Hx). exists s'. split; [by right|done].
  - intros _. exists s. split; [by left|]. by exists x.
Qed.

(** Sentence-based chunking packs whole sentences greedily: the chunks are
    the sentences of the text, in order, joined in groups; a group of more
    than one sentence fits the chunk size, and the first sentence of the next
    group would not have fitted in it. *)
Theorem sentences_are_packed (size : Z) (text : string) :
  match SentenceBased_chunk size text with
  | Ret chunks => ∃ groups, chunks = map (join " ") groups ∧ concat groups = split_sentences text ∧
      Forall (group_ok size) groups ∧ Sorted (no_room size) groups
  | Raise _ => ∃ s, s ∈ split_sentences text ∧ ∃ e, tk_encode s = Raise e
  end.
Proof.
  unfold SentenceBased_chunk. destruct (pack_sentences size (split_sentences text) [] 0) as [chunks|e] eqn:Hp.
  - apply (pack_sentences_spec size _ []) in Hp as (groups & -> & Hcat & Hok & Hs & _); [|done]. by exists groups.
  - by eapply pack_sentences_raises.
Qed.
End packing.

(** A tokenizer of one token per character. *)
#[local] Instance char_tokens : Tokenizer := {|
  tk_encode s := Ret (map (λ c, Z.of_nat (Ascii.nat_of_ascii c)) (list_ascii_of_string s));
  tk_decode ts := string_of_list_ascii (map (λ t, Ascii.ascii_of_nat (Z.to_nat t)) ts)
|}.

Example windows_overlap :
  FixedSize_chunk 7 (mkFixedSize 3 1) "ABCDEFG" = Ret (Some ["ABC"; "CDE"; "EFG"]%string).
Proof. vm_compute. reflexivity. Qed.

Lemma fixed_size_chunks_cover_witness :
  (0 ≤ 1 < 3 ∧ tk_encode "ABCDEFG" = Ret [65; 66; 67; 68; 69; 70; 71]) ∧
  ∃ w ws, FixedSize_chunk 7 (mkFixedSize 3 1) "ABCDEFG" = Ret (Some (map tk_decode (w :: ws))) ∧
    windows_of (mkFixedSize 3 1) [65; 66; 67; 68; 69; 70; 71] w ws.
Proof.
  split; [split; [lia|by vm_compute]|].
  apply (fixed_size_chunks_cover (mkFixedSize 3 1) 7 "ABCDEFG" [65; 66; 67; 68; 69; 70; 71]);
    [cbn; lia|discriminate|by vm_compute|cbn; lia].
Defined.

Lemma zero_chunk_size_never_returns_witness :
  FixedSize_init 0 (flit 1 10) = Ret (mkFixedSize 0 0) ∧ FixedSize_chunk 1000 (mkFixedSize 0 0) "A" = Ret None.
Proof.
  apply (zero_chunk_size_never_returns (flit 1 10) "A" [65] 1000); [by vm_compute|by vm_compute|discriminate|by vm_compute|discriminate].
Defined.
