(* ===== verification/StructureChunker.v ===== *)
(** * Structure-aware chunking

    rag/infrastructure/structure_aware_chunker.py: a document is cut at its
    Markdown headings, code fences kept whole, and a section too long for one
    chunk is cut into sentences under its heading.  Positions are byte offsets
    of the UTF-8 text, where the code has code points: both regular expressions
    start and end on character boundaries. *)

From Stdlib Require Import ZArith Lia Ascii String.
From S2P Require Import Prelude PyStr Json PyUuid JsonText Chunking.

(** ** The two regular expressions *)

Definition newline : ascii := "010".

Fixpoint hashes (s : string) : nat := match s with String c s' => if Ascii.eqb c "#" then S (hashes s') else O | EmptyString => O end.

(** The bytes before the next line break, which [.+] takes. *)
Fixpoint line_length (s : string) : nat := match s with String c s' => if Ascii.eqb c newline then O else S (line_length s') | EmptyString => O end.

(** The text without its trailing line breaks. *)
Fixpoint drop_newlines (s : string) : string :=
  match s with
  | EmptyString => EmptyString
  | String c s' => match drop_newlines s' with EmptyString => if Ascii.eqb c newline then EmptyString else String c EmptyString | t => String c t end
  end.

(** [_HEADING] at the start of a line: the length of what it matches.  White
    space is taken greedily, line breaks included; when nothing follows it, the
    last character of it that is no line break is given back to [.+]. *)
Definition heading_match (s : string) : option nat :=
  let h := hashes s in
  let after := str_drop h s in
  let rest := lstrip after in
  if (1 <=? h)%nat && (h <=? 6)%nat then
    match drop_one whitespace after with
    | None => None
    | Some after_first =>
        match rest with
        | EmptyString =>
            let kept := drop_newlines after in
            if (slen after - slen after_first <? slen kept)%nat then Some (h + slen kept)%nat else None
        | _ => Some (h + (slen after - slen rest) + line_length rest)%nat
        end
    end
  else None.

(** [m.start() for m in _HEADING.finditer(text)]: [s] is the text from [pos] on. *)
Fixpoint heading_positions (fuel : nat) (pos : nat) (line_start : bool) (s : string) : list nat :=
  match fuel, s with
  | S fuel, String c s' =>
      match (if line_start then heading_match s else None) with
      | Some n => pos :: heading_positions fuel (pos + n) false (str_drop n s)
      | None => heading_positions fuel (S pos) (Ascii.eqb c newline) s'
      end
  | _, _ => []
  end.

Definition ticks : string := "```".

(** [s.find(sub)]. *)
Fixpoint find_sub (sub s : string) : option nat :=
  if startswith sub s then Some O else match s with String _ s' => S <$> find_sub sub s' | EmptyString => None end.

(** The first match of [_CODE_FENCE], from [start] to [end]. *)
Definition find_fence (s : string) : option (nat * nat) :=
  i ← find_sub ticks s;
  j ← find_sub ticks (str_drop (i + 3) s);
  Some (i, (i + 3 + j + 3)%nat).

(** [m.span() for m in _CODE_FENCE.finditer(text)]. *)
Fixpoint fence_spans (fuel : nat) (pos : nat) (s : string) : list (nat * nat) :=
  match fuel with
  | O => []
  | S fuel =>
      match find_fence s with
      | Some (a, b) => (pos + a, pos + b)%nat :: fence_spans fuel (pos + b) (str_drop b s)
      | None => []
      end
  end.

Definition all_fence_spans (text : string) : list (nat * nat) := fence_spans (slen text) 0 text.

(** ** Sections *)

Definition _inside_a_fence (spans : list (nat * nat)) (pos : nat) : bool := existsb (λ ab, (ab.1 <=? pos)%nat && (pos <? ab.2)%nat) spans.

Definition heading_starts (text : string) : list nat :=
  filter (λ h, _inside_a_fence (all_fence_spans text) h = false) (heading_positions (slen text) 0 true text).

(** [text[i:j]]. *)
Definition substr (i j : nat) (text : string) : string := str_take (j - i) (str_drop i text).

Fixpoint cut_at (text : string) (starts : list nat) : list string :=
  match starts with
  | [] => []
  | [start] => [substr start (slen text) text]
  | start :: (next :: _) as rest => substr start next text :: cut_at text rest
  end.

Definition _split_into_sections (text : string) : list string :=
  match heading_starts text with
  | [] => [text]
  | (first :: _) as starts =>
      let sections := (if (0 <? first)%nat then [str_take first text] else []) ++ cut_at text starts in
      filter (λ s, is_blank s = false) sections
  end.

Definition _split_heading (section : string) : option string * string :=
  let stripped := strip section in
  let '(first_line, rest) := partition newline stripped in
  match heading_match first_line with
  | Some _ => (Some first_line, rest)
  | None => (None, stripped)
  end.

(** ** StructureAwareChunker *)

Section chunker.
Context `{Tokenizer}.

Definition chunk_section (chunk_size : Z) (section : string) : res (list string) :=
  tokens ← tk_encode section;
  let fits := Z.of_nat (length tokens) <=? chunk_size in
  if bool_decide (is_Some (find_fence section)) || fits then Ret [strip section]
  else
    let '(heading, body) := _split_heading section in
    sub_chunks ← SentenceBased_chunk chunk_size body;
    match heading with
    | None => Ret sub_chunks
    | Some h => Ret (map (λ sub, h +:+ String newline sub)%string sub_chunks)
    end.

Definition StructureAware_chunk (chunk_size : Z) (text : string) : res (list string) :=
  if is_blank text then Ret []
  else @concat string <$> res_mapM (chunk_section chunk_size) (_split_into_sections text).
End chunker.

(** A comment in a code block, an empty heading that swallows the next, a
    seventh hash, and a heading of white space alone. *)
Example sections_cut :
  let nl := String newline EmptyString in
  _split_into_sections ("intro" +:+ nl +:+ "# One" +:+ nl +:+ "```" +:+ nl +:+ "# not a heading" +:+ nl +:+ "```" +:+ nl +:+ "## Two" +:+ nl +:+ "x")%string =
    ["intro" +:+ nl; "# One" +:+ nl +:+ "```" +:+ nl +:+ "# not a heading" +:+ nl +:+ "```" +:+ nl; "## Two" +:+ nl +:+ "x"]%string ∧
  heading_starts ("#" +:+ nl +:+ "# One")%string = [0%nat] ∧ heading_starts "####### seven" = [] ∧
  heading_match "#  " = Some 3%nat ∧ heading_match ("# " +:+ nl)%string = None.
Proof. vm_compute. auto. Qed.

(** ** No fence is ever cut *)

(** [x in c]. *)
Definition contains (x c : string) : Prop := ∃ p q, c = (p +:+ (x +:+ q))%string.

Lemma take_drop_str n s : (str_take n s +:+ str_drop n s)%string = s.
Proof. revert s. induction n as [|n IH]; intros [|c s]; [done..|]. cbn [str_take str_drop]. by rewrite sapp_cons, IH. Qed.

Lemma drop_str_length n s : slen (str_drop n s) = (slen s - n)%nat.
Proof. revert s. induction n as [|n IH]; intros [|c s]; [done..|]. cbn [str_drop]. rewrite IH. done. Qed.

Lemma take_str_length n s : slen (str_take n s) = (n `min` slen s)%nat.
Proof. revert s. induction n as [|n IH]; intros [|c s]; [done..|]. cbn. by rewrite IH. Qed.

Lemma drop_drop_str a b s : str_drop a (str_drop b s) = str_drop (b + a) s.
Proof. revert s. induction b as [|b IH]; intros [|c s]; [done|done|by destruct a|]. cbn. apply IH. Qed.

Lemma drop_app_str p q n : str_drop (slen p + n) (p +:+ q) = str_drop n q.
Proof. induction p as [|c p IH]; [done|]. rewrite sapp_cons. cbn. exact IH. Qed.

Lemma drop_le_str p q n : (n ≤ slen p)%nat → str_drop n (p +:+ q) = (str_drop n p +:+ q)%string.
Proof. revert p. induction n as [|n IH]; intros [|c p] Hn; cbn in Hn; [done..|lia|]. rewrite sapp_cons. cbn. apply IH. lia. Qed.

Lemma take_app_str p q n : str_take (slen p + n) (p +:+ q) = (p +:+ str_take n q)%string.
Proof. induction p as [|c p IH]; [done|]. rewrite !sapp_cons. cbn. by rewrite IH. Qed.

Lemma startswith_app p q : startswith p (p +:+ q) = true.
Proof. unfold startswith. assert (strip_prefix p (p +:+ q) = Some q) as ->; [|done]. induction p as [|c p IH]; [done|]. rewrite sapp_cons. cbn. by rewrite Ascii.eqb_refl. Qed.

Lemma startswith_inv p s : startswith p s = true → ∃ q, s = (p +:+ q)%string.
Proof.
  unfold startswith. destruct (strip_prefix p s) as [q|] eqn:Hs; [|done]. intros _. exists q. revert s Hs.
  induction p as [|c p IH]; intros s Hs; [by injection Hs|]. destruct s as [|d s]; [done|]. cbn in Hs. destruct (Ascii.eqb_spec c d) as [<-|]; [|done].
  by rewrite sapp_cons, <- (IH s Hs).
Qed.

Lemma find_sub_some x s i : find_sub x s = Some i → ∃ p q, s = (p +:+ (x +:+ q))%string ∧ slen p = i.
Proof.
  revert i. induction s as [|c s IH]; intros i; cbn [find_sub].
  - destruct (startswith x EmptyString) eqn:Hx; [|done]. intros [= <-]. apply startswith_inv in Hx as [q Hq]. by exists EmptyString, q.
  - destruct (startswith x (String c s)) eqn:Hx; [intros [= <-]; apply startswith_inv in Hx as [q Hq]; by exists EmptyString, q|].
    intros (j & Hj & ->)%fmap_Some. destruct (IH j Hj) as (p & q & -> & Hp). exists (String c p), q. rewrite sapp_cons. cbn. by rewrite Hp.
Qed.

Lemma find_sub_first x p q : ∃ i, find_sub x (p +:+ (x +:+ q)) = Some i ∧ (i ≤ slen p)%nat.
Proof.
  induction p as [|c p (i & Hi & Hle)].
  - exists 0%nat. rewrite sapp_nil. split; [|done]. destruct (x +:+ q)%string as [|d s] eqn:He; cbn [find_sub]; rewrite <- He; by rewrite startswith_app.
  - rewrite sapp_cons. cbn [find_sub]. destruct (startswith x _); [exists 0%nat; split; [done|lia]|]. exists (S i). rewrite Hi. split; [done|cbn; lia].
Qed.

Lemma contains_app x p c q : contains x c → contains x (p +:+ (c +:+ q)).
Proof. intros (p' & q' & ->). exists (p +:+ p')%string, (q' +:+ q)%string. by rewrite !sapp_assoc. Qed.

(** A fence is three backticks, anything, three backticks. *)
Definition fenced (x : string) : Prop := ∃ m, x = (ticks +:+ (m +:+ ticks))%string.

Lemma find_fence_contains x s : fenced x → contains x s → is_Some (find_fence s).
Proof.
  intros [m ->] (p & q & ->). rewrite !sapp_assoc. destruct (find_sub_first ticks p (m +:+ (ticks +:+ q))) as (i & Hi & Hle). unfold find_fence. rewrite Hi. cbn [mbind option_bind].
  assert (∃ p' q', str_drop (i + 3) (p +:+ (ticks +:+ (m +:+ (ticks +:+ q)))) = (p' +:+ (ticks +:+ q'))%string) as (p' & q' & ->).
  { exists (str_drop (i + 3) (p +:+ ticks) +:+ m)%string, q. rewrite (sapp_assoc (str_drop _ _) m), <- (sapp_assoc p ticks).
    apply drop_le_str. rewrite sapp_length. cbn. lia. }
  destruct (find_sub_first ticks p' q') as (j & -> & _). cbn. by eexists.
Qed.

Lemma find_fence_some s a b : find_fence s = Some (a, b) → (a < b)%nat ∧ (b ≤ slen s)%nat ∧ fenced (substr a b s).
Proof.
  unfold find_fence. destruct (find_sub ticks s) as [i|] eqn:Hi; [|done]. cbn [mbind option_bind].
  apply find_sub_some in Hi as (p & r & -> & <-). rewrite (drop_app_str p (ticks +:+ r) 3). change (str_drop 3 (ticks +:+ r)) with r.
  destruct (find_sub ticks r) as [j|] eqn:Hj; [|done]. apply find_sub_some in Hj as (m & q & -> & <-). cbn [mbind option_bind]. intros [= <- <-].
  rewrite !sapp_length. split; [lia|]. split; [cbn; lia|]. exists m. unfold substr.
  pose proof (drop_app_str p (ticks +:+ (m +:+ (ticks +:+ q))) 0) as Hd. rewrite Nat.add_0_r in Hd. rewrite Hd. cbn [str_drop].
  replace (slen p + 3 + slen m + 3 - slen p)%nat with (slen ticks + (slen m + (slen ticks + 0)))%nat by (cbn; lia).
  by rewrite !take_app_str, sapp_nil_r.
Qed.

Lemma fence_spans_spec (fuel : nat) pos text s a b : s = str_drop pos text → (a, b) ∈ fence_spans fuel pos s →
  (a < b)%nat ∧ (b ≤ slen text)%nat ∧ fenced (substr a b text).
Proof.
  revert pos s. induction fuel as [|fuel IH]; intros pos s Hs Hin; cbn [fence_spans] in Hin; [by apply elem_of_nil in Hin|].
  destruct (find_fence s) as [[i j]|] eqn:Hf; [|by apply elem_of_nil in Hin]. apply elem_of_cons in Hin as [[= -> ->]|Hin].
  - apply find_fence_some in Hf as (Hlt & Hle & Hx). subst s. rewrite drop_str_length in Hle. split; [lia|]. split; [lia|].
    unfold substr in *. rewrite drop_drop_str in Hx. by replace (pos + j - (pos + i))%nat with (j - i)%nat by lia.
  - apply (IH _ _) in Hin; [done|]. by rewrite Hs, drop_drop_str.
Qed.

Lemma substr_contains l a b r text : (l ≤ a)%nat → (a ≤ b)%nat → (b ≤ r)%nat → contains (substr a b text) (substr l r text).
Proof.
  intros Hl Hab Hb. unfold substr. exists (str_take (a - l) (str_drop l text)), (str_take (r - b) (str_drop b text)).
  assert (∀ n m s, str_take (n + m) s = (str_take n s +:+ str_take m (str_drop n s))%string) as Hsplit.
  { clear. intros n m s. revert s. induction n as [|n IH]; intros [|c s]; [done|done|by destruct m|]. cbn. by rewrite sapp_cons, IH. }
  replace (r - l)%nat with ((a - l) + ((b - a) + (r - b)))%nat by lia. rewrite !Hsplit, !drop_drop_str. do 3 f_equal; f_equal; lia.
Qed.

(** A stretch no cut falls into is within one piece. *)
Lemma cut_at_covers text starts a b : (a < b)%nat → (b ≤ slen text)%nat → (∃ h, head starts = Some h ∧ h ≤ a)%nat →
  Forall (λ h, h ≤ a ∨ b ≤ h)%nat starts → ∃ s, s ∈ cut_at text starts ∧ contains (substr a b text) s.
Proof.
  intros Hab Hb Hfirst Hstarts. induction Hstarts as [|h starts Hh Hstarts IH]; [by destruct Hfirst as (? & ? & _)|].
  destruct Hfirst as (h' & [= <-] & Hle). destruct starts as [|next starts]; cbn [cut_at].
  - eexists. split; [by apply list_elem_of_singleton|]. apply substr_contains; lia.
  - destruct (decide (next ≤ a)%nat).
    + destruct IH as (s & Hs & Hc); [by exists next|]. exists s. split; [by apply elem_of_cons; right|done].
    + apply Forall_cons in Hstarts as [[?|Hnext] _]; [lia|]. eexists. split; [by apply elem_of_cons; left|]. apply substr_contains; lia.
Qed.

Definition backtick : ascii := "`".

Definition no_backtick (ws : list string) : Prop := Forall (λ w, mem_char backtick w = false) ws.

Lemma drop_one_keeps ws p q r : no_backtick ws → drop_one ws (p +:+ String backtick q) = Some r → ∃ p', r = (p' +:+ String backtick q)%string.
Proof.
  intros Hws. induction Hws as [|w ws Hw _ IH]; [done|]. cbn [drop_one]. destruct (strip_prefix w _) as [t|] eqn:Hs; [|exact IH]. intros [= <-].
  clear IH. revert p Hs. induction w as [|c w IHw]; intros p Hs; [injection Hs as <-; by exists p|]. cbn in Hw. apply orb_false_iff in Hw as [Hc Hw].
  destruct p as [|d p].
  - rewrite sapp_nil in Hs. cbn in Hs. by rewrite Hc in Hs.
  - rewrite sapp_cons in Hs. cbn in Hs. destruct (Ascii.eqb c d); [|done]. by apply (IHw Hw p).
Qed.

Lemma lstrip_keeps (fuel : nat) ws p q : no_backtick ws → ∃ p', lstrip_go fuel ws (p +:+ String backtick q) = (p' +:+ String backtick q)%string.
Proof.
  intros Hws. revert p. induction fuel as [|fuel IH]; intros p; cbn [lstrip_go]; [by exists p|].
  destruct (drop_one ws _) as [r|] eqn:Hd; [|by exists p]. apply drop_one_keeps in Hd as [p' ->]; [|done]. apply IH.
Qed.

Lemma rev_string_app a b : rev_string (a +:+ b) = (rev_string b +:+ rev_string a)%string.
Proof.
  unfold rev_string. assert (∀ a b, list_ascii_of_string (a +:+ b) = list_ascii_of_string a ++ list_ascii_of_string b) as ->.
  { clear. intros a b. induction a as [|c a IH]; [done|]. rewrite sapp_cons. cbn. by rewrite IH. }
  rewrite rev_app_distr. induction (rev (list_ascii_of_string b)) as [|c l IH]; [done|]. cbn. by rewrite IH.
Qed.

Lemma contains_rev x s : contains x s → contains (rev_string x) (rev_string s).
Proof. intros (p & q & ->). exists (rev_string q), (rev_string p). by rewrite !rev_string_app, sapp_assoc. Qed.

Lemma lstrip_contains (fuel : nat) ws x y s : no_backtick ws → x = String backtick y → contains x s → contains x (lstrip_go fuel ws s).
Proof.
  intros Hws -> (p & q & ->). rewrite sapp_cons. destruct (lstrip_keeps fuel ws p (y +:+ q) Hws) as [p' ->]. by exists p', q.
Qed.

Lemma whitespace_no_backtick : no_backtick whitespace ∧ no_backtick (map rev_string whitespace).
Proof. split; apply (bool_decide_eq_true_1 (Forall _ _)); vm_compute; reflexivity. Qed.

Lemma strip_keeps x s : fenced x → contains x s → contains x (strip s).
Proof.
  intros [m ->] Hc. destruct whitespace_no_backtick as [Hw Hwr]. unfold strip, rstrip, lstrip.
  set (x := (ticks +:+ (m +:+ ticks))%string) in *. pose proof (lstrip_contains (slen s) whitespace x _ s Hw eq_refl Hc) as Hl. apply contains_rev in Hl.
  rewrite <- (rev_string_involutive x). apply contains_rev. refine (lstrip_contains _ _ _ _ _ Hwr _ Hl).
  unfold x. rewrite rev_string_app, (rev_string_app m ticks). reflexivity.
Qed.

Lemma fenced_not_blank x s : fenced x → contains x s → is_blank s = false.
Proof.
  intros Hx Hc. destruct (strip_keeps x s Hx Hc) as (p & q & Hs). unfold is_blank. rewrite Hs. destruct Hx as [m ->]. by destruct p.
Qed.

Lemma inside_false spans h a b : _inside_a_fence spans h = false → (a, b) ∈ spans → (h < a ∨ b ≤ h)%nat.
Proof.
  intros Hi Hab. unfold _inside_a_fence in Hi. destruct (decide (h < a ∨ b ≤ h)%nat) as [|Hn]; [done|]. exfalso.
  assert (existsb (λ ab, (ab.1 <=? h)%nat && (h <? ab.2)%nat) spans = true) as Ht; [|congruence].
  apply existsb_exists. exists (a, b). split; [by apply list_elem_of_In|]. cbn [fst snd]. apply andb_true_iff. split; [apply Nat.leb_le|apply Nat.ltb_lt]; lia.
Qed.

Lemma substr_all text : substr 0 (slen text) text = text.
Proof.
  unfold substr. rewrite Nat.sub_0_r. cbn [str_drop]. pose proof (take_app_str text EmptyString 0) as Hall.
  rewrite Nat.add_0_r, sapp_nil_r in Hall. by rewrite Hall, sapp_nil_r.
Qed.

Lemma sections_cover text a b : (a, b) ∈ all_fence_spans text →
  ∃ section, section ∈ _split_into_sections text ∧ contains (substr a b text) section.
Proof.
  intros Hab. destruct (fence_spans_spec (slen text) 0 text text a b eq_refl Hab) as (Hlt & Hle & Hx).
  assert (Forall (λ h, h ≤ a ∨ b ≤ h)%nat (heading_starts text)) as Hstarts.
  { apply Forall_forall. intros h Hh. unfold heading_starts in Hh. apply list_elem_of_filter in Hh as [Hi _].
    destruct (inside_false _ _ _ _ Hi Hab); lia. }
  unfold _split_into_sections. destruct (heading_starts text) as [|first starts] eqn:Hs.
  { exists text. split; [by apply list_elem_of_singleton|]. rewrite <- (substr_all text) at 2. apply substr_contains; lia. }
  assert (∃ section, section ∈ (if (0 <? first)%nat then [str_take first text] else []) ++ cut_at text (first :: starts) ∧ contains (substr a b text) section)
    as (section & Hin & Hc); [|exists section; split; [|done]; apply list_elem_of_filter; split; [by eapply fenced_not_blank|done]].
  destruct (decide (first ≤ a)%nat).
  - destruct (cut_at_covers text (first :: starts) a b Hlt Hle) as (s & Hin & Hc); [by exists first|done|]. exists s. split; [|done]. apply elem_of_app. by right.
  - apply Forall_cons in Hstarts as [[?|Hfirst] _]; [lia|]. exists (substr 0 first text). split; [|apply substr_contains; lia].
    apply elem_of_app. left. destruct (Nat.ltb_spec 0 first); [|lia]. unfold substr. rewrite Nat.sub_0_r. by apply list_elem_of_singleton.
Qed.


(** ** A worked example *)

(** A token a byte. *)
#[local] Instance byte_tokens : Tokenizer := {|
  tk_encode s := Ret (map (λ c, Z.of_N (N_of_ascii c)) (list_ascii_of_string s));
  tk_decode l := string_of_list_ascii (map (λ n, ascii_of_N (Z.to_N n)) l)
|}.

Definition readme : string :=
  let nl := String newline EmptyString in
  ("# Run" +:+ nl +:+ "```" +:+ nl +:+ "# first. Then this" +:+ nl +:+ "```" +:+ nl +:+ "# Why" +:+ nl +:+ "One reason. Another.")%string.

