(* ===== verification/DocumentStore.v ===== *)
(** * Documents in Postgres and Qdrant

    rag/infrastructure/postgres_document_repository.py over the documents and
    chunks tables of alembic/versions/0002 (primary and foreign keys, row-level
    security), rag/infrastructure/qdrant_vector_store.py over its collection,
    and orchestration/infrastructure/chunked_rag_index.py, which keeps one data
    source's text in both.  Qdrant's nearest-neighbour search and what column
    types accept are parameters; every call to Qdrant may answer, fail, or be
    carried out and fail to say so. *)

From Stdlib Require Import ZArith Lia Ascii String Floats.SpecFloat.
From S2P Require Import Prelude PyFloat PyTime PyStr RagPorts SemanticStore Doubles.

(** ** The tables *)

Record PostgresDocuments : Type := mkPgDocuments {
  pg_documents : gmap uuid Document;
  pg_chunks : gmap uuid (uuid * Chunk);
  pg_tenant : uuid
}.

Definition set_documents (docs : gmap uuid Document) (p : PostgresDocuments) : PostgresDocuments :=
  mkPgDocuments docs (pg_chunks p) (pg_tenant p).
Definition set_chunks (chunks : gmap uuid (uuid * Chunk)) (p : PostgresDocuments) : PostgresDocuments :=
  mkPgDocuments (pg_documents p) chunks (pg_tenant p).

Definition duplicate_key : exn := BackendError "duplicate key value violates unique constraint".
Definition foreign_key : exn := BackendError "violates foreign key constraint".
Definition not_accepted : exn := BackendError "the row is not accepted".

(** A chunk as it is read back: neither its vector nor its metadata is selected. *)
Definition chunk_row (c : Chunk) : Chunk :=
  mkChunk (RagPorts.chunk_id c) (chunk_document_id c) (chunk_content c) [] (chunk_parent_id c) ∅.

Section postgres.
Context (accepts : Chunk → bool).

Definition pg_save_document (document : Document) : stm PostgresDocuments unit :=
  p ← get_st;
  if decide (doc_tenant_id document = pg_tenant p) then
    match pg_documents p !! doc_id document with
    | Some _ => raise duplicate_key
    | None => modify (set_documents (<[doc_id document := document]> (pg_documents p)))
    end
  else raise rls_violation.

Definition with_status (status : DocumentStatus) (chunk_count : Z) (d : Document) : Document :=
  mkDocument (doc_id d) (doc_tenant_id d) (doc_filename d) (doc_mime_type d) (doc_storage_path d) chunk_count status (doc_created_at d).

(** UPDATE ... WHERE id = :id, of the rows the tenant can see. *)
Definition pg_update_document_status (document_id : uuid) (status : DocumentStatus) (chunk_count : Z) :
  stm PostgresDocuments unit :=
  modify (λ p, match pg_documents p !! document_id with
    | Some d => if decide (doc_tenant_id d = pg_tenant p)
                then set_documents (<[document_id := with_status status chunk_count d]> (pg_documents p)) p else p
    | None => p
    end).

(** One INSERT INTO chunks. *)
Definition pg_insert_chunk (tenant_id : uuid) (chunk : Chunk) : stm PostgresDocuments unit :=
  p ← get_st;
  if negb (accepts chunk) then raise not_accepted
  else if negb (bool_decide (tenant_id = pg_tenant p)) then raise rls_violation
  else if bool_decide (is_Some (pg_chunks p !! RagPorts.chunk_id chunk)) then raise duplicate_key
  else if negb (bool_decide (is_Some (pg_documents p !! chunk_document_id chunk))) then raise foreign_key
  else if match chunk_parent_id chunk with
          | Some parent => negb (bool_decide (is_Some (pg_chunks p !! parent)))
          | None => false
          end then raise foreign_key
  else modify (set_chunks (<[RagPorts.chunk_id chunk := (tenant_id, chunk)]> (pg_chunks p))).

Definition pg_save_chunks (chunks : list Chunk) (tenant_id : uuid) : stm PostgresDocuments unit :=
  for_each chunks (pg_insert_chunk tenant_id);; mret tt.

(** DELETE of the chunks, then of the document, each of this tenant. *)
Definition pg_delete_document (document_id tenant_id : uuid) : stm PostgresDocuments unit :=
  modify (λ p, set_chunks (filter (λ kc, ¬ (chunk_document_id kc.2.2 = document_id ∧ kc.2.1 = tenant_id ∧ kc.2.1 = pg_tenant p))
    (pg_chunks p)) p);;
  p ← get_st;
  match pg_documents p !! document_id with
  | Some d =>
      if decide (doc_tenant_id d = tenant_id ∧ doc_tenant_id d = pg_tenant p) then
        if decide (map_Forall (λ _ c, chunk_document_id c.2 ≠ document_id) (pg_chunks p))
        then modify (set_documents (delete document_id (pg_documents p)))
        else raise foreign_key
      else mret tt
  | None => mret tt
  end.

Definition pg_get_chunks_for_tenant (tenant_id : uuid) : stm PostgresDocuments (list Chunk) :=
  p ← get_st;
  mret (map (λ kc : uuid * (uuid * Chunk), chunk_row kc.2.2)
    (filter (λ kc, kc.2.1 = tenant_id ∧ kc.2.1 = pg_tenant p) (map_to_list (pg_chunks p)))).

Definition pg_get_chunk_by_id (chunk_id : uuid) : stm PostgresDocuments (option Chunk) :=
  p ← get_st;
  mret (match pg_chunks p !! chunk_id with
        | Some (tenant_id, c) => if decide (tenant_id = pg_tenant p) then Some (chunk_row c) else None
        | None => None
        end).

#[export] Instance postgres_documents : DocumentRepository PostgresDocuments := {|
  dr_save_document := pg_save_document;
  dr_update_document_status := pg_update_document_status;
  dr_save_chunks := pg_save_chunks;
  dr_get_chunks_for_tenant := pg_get_chunks_for_tenant;
  dr_get_chunk_by_id := pg_get_chunk_by_id
|}.
End postgres.

(** [async with sessionmaker() as session, session.begin()], the tenant set
    first: what the body did is kept when it returns and undone when it raises. *)
Definition in_transaction {A} (tenant_id : uuid) (body : stm PostgresDocuments A) : stm PostgresDocuments A := λ p,
  match body (mkPgDocuments (pg_documents p) (pg_chunks p) tenant_id) with
  | (Ret a, p') => (Ret a, mkPgDocuments (pg_documents p') (pg_chunks p') (pg_tenant p))
  | (Raise e, _) => (Raise e, p)
  end.

(** ** The collection *)

Record Point : Type := mkPoint {
  pt_vector : list f64;
  pt_tenant_id : uuid;
  pt_document_id : uuid;
  pt_content : string
}.

(** What becomes of a call. *)
Inductive Delivery : Type := Answered | Refused | ReplyLost.

(** The points, and the fate of the calls to come (answered, past the end). *)
Record Qdrant : Type := mkQdrant { qd_points : gmap uuid Point; qd_fates : list Delivery }.

Definition unreachable : exn := BackendError "ResponseHandlingException".

Definition qd_call (write : gmap uuid Point → gmap uuid Point) : stm Qdrant unit := λ q,
  match qd_fates q with
  | Refused :: rest => (Raise unreachable, mkQdrant (qd_points q) rest)
  | ReplyLost :: rest => (Raise unreachable, mkQdrant (write (qd_points q)) rest)
  | Answered :: rest => (Ret tt, mkQdrant (write (qd_points q)) rest)
  | [] => (Ret tt, mkQdrant (write (qd_points q)) [])
  end.

Definition point_of (chunk : Chunk) (tenant_id : uuid) : Point :=
  mkPoint (chunk_embedding chunk) tenant_id (chunk_document_id chunk) (chunk_content chunk).

Definition qd_upsert (chunk : Chunk) (tenant_id : uuid) : stm Qdrant unit :=
  qd_call (insert (RagPorts.chunk_id chunk) (point_of chunk tenant_id)).

Definition of_document (tenant_id document_id : uuid) (p : Point) : Prop :=
  pt_tenant_id p = tenant_id ∧ pt_document_id p = document_id.
#[export] Instance of_document_dec t d p : Decision (of_document t d p).
Proof. unfold of_document. apply _. Defined.

Definition qd_delete_document (document_id tenant_id : uuid) (keep_chunk_ids : list uuid) : stm Qdrant unit :=
  qd_call (filter (λ kp, ¬ (of_document tenant_id document_id kp.2 ∧ kp.1 ∉ keep_chunk_ids))).

Section search.
(** The nearest points to a vector, with their scores. *)
Context (nearest : list f64 → Z → gmap uuid Point → list (uuid * f64)).

Definition result_of (points : gmap uuid Point) (hit : uuid * f64) : option SearchResult :=
  p ← points !! hit.1; Some (mkSearchResult (pt_document_id p) hit.1 (pt_content p) hit.2).

Definition qd_search (query_embedding : list f64) (tenant_id : uuid) (top_k : Z) : stm Qdrant (list SearchResult) := λ q,
  let mine := filter (λ kp, pt_tenant_id kp.2 = tenant_id) (qd_points q) in
  match qd_fates q with
  | (Refused | ReplyLost) :: rest => (Raise unreachable, mkQdrant (qd_points q) rest)
  | Answered :: rest => (Ret (omap (result_of mine) (nearest query_embedding top_k mine)), mkQdrant (qd_points q) rest)
  | [] => (Ret (omap (result_of mine) (nearest query_embedding top_k mine)), q)
  end.

#[export] Instance qdrant_documents : VectorStore Qdrant := {| vs_upsert := qd_upsert; vs_search := qd_search |}.
End search.

(** ** ChunkedRagIndex *)

Record ChunkedRagIndex (K E : Type) : Type := mkChunkedIndex {
  ci_db : PostgresDocuments;
  ci_store : Qdrant;
  ci_chunker : K;
  ci_embedder : E;
  ci_uuids : nat → uuid;
  ci_issued : nat
}.
Arguments mkChunkedIndex {K E}.
Arguments ci_db {K E}.
Arguments ci_store {K E}.
Arguments ci_chunker {K E}.
Arguments ci_embedder {K E}.
Arguments ci_uuids {K E}.
Arguments ci_issued {K E}.

Section index.
Context {K E : Type} `{Chunker K} `{EmbeddingModel E} (accepts : Chunk → bool).
Abbreviation Idx := (ChunkedRagIndex K E) (only parsing).

Definition on_db {A} (m : stm PostgresDocuments A) : stm Idx A := λ s,
  let '(r, x) := m (ci_db s) in (r, mkChunkedIndex x (ci_store s) (ci_chunker s) (ci_embedder s) (ci_uuids s) (ci_issued s)).
Definition on_store {A} (m : stm Qdrant A) : stm Idx A := λ s,
  let '(r, x) := m (ci_store s) in (r, mkChunkedIndex (ci_db s) x (ci_chunker s) (ci_embedder s) (ci_uuids s) (ci_issued s)).
Definition on_chunker {A} (m : stm K A) : stm Idx A := λ s,
  let '(r, x) := m (ci_chunker s) in (r, mkChunkedIndex (ci_db s) (ci_store s) x (ci_embedder s) (ci_uuids s) (ci_issued s)).
Definition on_model {A} (m : stm E A) : stm Idx A := λ s,
  let '(r, x) := m (ci_embedder s) in (r, mkChunkedIndex (ci_db s) (ci_store s) (ci_chunker s) x (ci_uuids s) (ci_issued s)).
Definition fresh_uuid : stm Idx uuid := λ s,
  (Ret (ci_uuids s (ci_issued s)),
   mkChunkedIndex (ci_db s) (ci_store s) (ci_chunker s) (ci_embedder s) (ci_uuids s) (S (ci_issued s))).

(** One round of the loop over the pieces. *)
Definition embedded_chunk (document_id : uuid) (piece : string) : stm Idx Chunk :=
  embedding ← on_model (embed piece);
  id ← fresh_uuid;
  mret (mkChunk id document_id piece embedding None ∅).

Definition source_document (tenant_id document_id : uuid) (title : string) (chunk_count : Z) : Document :=
  mkDocument document_id tenant_id title "text/plain" ("data-source:" +:+ title)%string chunk_count Completed None.

Definition Chunked_replace (tenant_id document_id : uuid) (title text : string) : stm Idx unit :=
  pieces ← on_chunker (chunk text);
  chunks ← for_each pieces (embedded_chunk document_id);
  on_db (in_transaction tenant_id (
    pg_delete_document document_id tenant_id;;
    pg_save_document (source_document tenant_id document_id title (Z.of_nat (length chunks)));;
    pg_save_chunks accepts chunks tenant_id));;
  for_each chunks (λ c, on_store (qd_upsert c tenant_id));;
  on_store (qd_delete_document document_id tenant_id (map RagPorts.chunk_id chunks)).
End index.

(** ** Replacing a document *)

(** Upserting chunks one after the other. *)
Definition upserted (tenant_id : uuid) (cs : list Chunk) (points : gmap uuid Point) : gmap uuid Point :=
  foldl (λ m c, <[RagPorts.chunk_id c := point_of c tenant_id]> m) points cs.

Lemma upserted_union t cs m : upserted t cs m = upserted t cs ∅ ∪ m.
Proof.
  induction cs as [|c cs IH] using rev_ind; [symmetry; apply (left_id_L ∅ (∪))|].
  unfold upserted in *. rewrite !foldl_app. cbn [foldl]. by rewrite IH, insert_union_l.
Qed.

Lemma upserted_elem t cs k p : upserted t cs ∅ !! k = Some p →
  ∃ c, c ∈ cs ∧ RagPorts.chunk_id c = k ∧ p = point_of c t.
Proof.
  induction cs as [|c cs IH] using rev_ind; [done|]. unfold upserted in *. rewrite foldl_app. cbn [foldl].
  destruct (decide (RagPorts.chunk_id c = k)) as [<-|Hne].
  - rewrite lookup_insert_eq. intros [= <-]. exists c. split; [|done]. apply elem_of_app. right. by left.
  - rewrite lookup_insert_ne by done. intros (c' & Hin & ?)%IH. exists c'. split; [|done]. apply elem_of_app. by left.
Qed.

(** The vector points of one document. *)
Definition doc_points (tenant_id document_id : uuid) (q : Qdrant) : gmap uuid Point :=
  filter (λ kp, of_document tenant_id document_id kp.2) (qd_points q).

(** The points of anything else. *)
Definition other_points (tenant_id document_id : uuid) (q : Qdrant) : gmap uuid Point :=
  filter (λ kp, ¬ of_document tenant_id document_id kp.2) (qd_points q).

Lemma qd_call_cases write q :
  (∃ fs, qd_call write q = (Ret tt, mkQdrant (write (qd_points q)) fs)) ∨
  (∃ fs, qd_call write q = (Raise unreachable, mkQdrant (write (qd_points q)) fs)) ∨
  (∃ fs, qd_call write q = (Raise unreachable, mkQdrant (qd_points q) fs)).
Proof. unfold qd_call. destruct (qd_fates q) as [|[] fs]; eauto. Qed.

(** However many upserts were carried out, it was a prefix of them. *)
Lemma upserts_spec t cs q r q' : for_each cs (λ c, qd_upsert c t) q = (r, q') →
  ∃ k, qd_points q' = upserted t (take k cs) (qd_points q) ∧ (∀ a, r = Ret a → take k cs = cs).
Proof.
  revert q r q'. induction cs as [|c cs IH]; intros q r q'; cbn [for_each].
  - intros [= <- <-]. exists O. by split.
  - unfold mbind, stm_bind. unfold qd_upsert at 1.
    destruct (qd_call_cases (insert (RagPorts.chunk_id c) (point_of c t)) q) as [[fs ->]|[[fs ->]|[fs ->]]].
    + destruct (for_each cs _ _) as [[us|e] q1] eqn:Hrest; apply IH in Hrest as (k & Hk & Hall);
        intros [= <- <-]; exists (S k); (split; [done|]); [|done].
      intros a _. cbn [take]. by rewrite (Hall us).
    + intros [= <- <-]. by exists 1%nat.
    + intros [= <- <-]. by exists O.
Qed.

Section replace.
Context {K E : Type} `{Chunker K} `{EmbeddingModel E} (accepts : Chunk → bool).
Abbreviation Idx := (ChunkedRagIndex K E) (only parsing).

(** The pieces become chunks of the document under the next ids. *)
Definition chunks_of (document_id : uuid) (pieces : list string) (ids : list uuid) (cs : list Chunk) : Prop :=
  map RagPorts.chunk_id cs = ids ∧ map chunk_content cs = pieces ∧
  Forall (λ c, chunk_document_id c = document_id ∧ chunk_parent_id c = None) cs.

Definition next_ids (n : nat) (s : Idx) : list uuid := map (ci_uuids s) (seq (ci_issued s) n).

Lemma embedded_chunk_spec d piece (s s' : Idx) r : embedded_chunk d piece s = (r, s') →
  ci_db s' = ci_db s ∧ ci_store s' = ci_store s ∧
  ∀ c, r = Ret c → ci_uuids s' = ci_uuids s ∧ ci_issued s' = S (ci_issued s) ∧
    RagPorts.chunk_id c = ci_uuids s (ci_issued s) ∧ chunk_content c = piece ∧
    chunk_document_id c = d ∧ chunk_parent_id c = None.
Proof.
  unfold embedded_chunk, on_model, fresh_uuid, mbind, stm_bind.
  destruct (embed piece (ci_embedder s)) as [[v|e] m]; intros [= <- <-]; split_and!; try done. by intros c [= <-].
Qed.

Lemma embedded_chunks_spec d pieces (s s' : Idx) r : for_each pieces (embedded_chunk d) s = (r, s') →
  ci_db s' = ci_db s ∧ ci_store s' = ci_store s ∧
  ∀ cs, r = Ret cs → chunks_of d pieces (next_ids (length pieces) s) cs.
Proof.
  revert s r s'. induction pieces as [|piece pieces IH]; intros s r s' Hrun; cbn [for_each] in Hrun.
  { injection Hrun as <- <-. split_and!; [done..|]. intros cs [= <-]. unfold chunks_of. split_and!; [done..|constructor]. }
  unfold mbind, stm_bind in Hrun. destruct (embedded_chunk d piece s) as [[c|e] s1] eqn:Hone;
    apply embedded_chunk_spec in Hone as (Hdb1 & Hst1 & Hc); [|injection Hrun as <- <-; by split_and!].
  destruct (Hc c eq_refl) as (Hu & Hn & Hid & Hcontent & Hdoc & Hpar).
  destruct (for_each pieces (embedded_chunk d) s1) as [[cs|e] s2] eqn:Hrest; apply IH in Hrest as (Hdb & Hst & Hcs);
    injection Hrun as <- <-; (split_and!; [congruence..|]); [|done].
  intros cs' [= <-]. destruct (Hcs cs eq_refl) as (Hids & Hcontents & Hall). unfold chunks_of, next_ids in *.
  cbn [map length seq]. rewrite Hids, Hcontents, Hid, Hcontent, Hu, Hn. split_and!; [done..|by constructor].
Qed.
End replace.

(** *** The Qdrant half *)

Section qdrant_half.
Context (t d : uuid) (cs : list Chunk) (m : gmap uuid Point).
Context (Hdoc : Forall (λ c, chunk_document_id c = d ∧ chunk_parent_id c = None) cs).
Context (Hfresh : ∀ k, k ∈ map RagPorts.chunk_id cs → m !! k = None).

Lemma new_point_of k p : upserted t cs ∅ !! k = Some p → of_document t d p ∧ k ∈ map RagPorts.chunk_id cs.
Proof using Hdoc.
  intros (c & Hin & <- & ->)%upserted_elem. split; [|by apply list_elem_of_fmap_2].
  rewrite Forall_forall in Hdoc. by destruct (Hdoc c Hin).
Qed.

Lemma new_points_lookup k p : upserted t cs m !! k = Some p ↔ upserted t cs ∅ !! k = Some p ∨ m !! k = Some p.
Proof using All.
  rewrite upserted_union, lookup_union_Some; [done|]. apply map_disjoint_spec. intros i x y Hx Hy.
  apply new_point_of in Hx as [_ Hi]. apply Hfresh in Hi. congruence.
Qed.

(** Other documents keep their points; the document's own stay beside the new ones. *)
Lemma upserted_others : filter (λ kp, ¬ of_document t d kp.2) (upserted t cs m) = filter (λ kp, ¬ of_document t d kp.2) m.
Proof using All.
  apply map_filter_strong_ext. intros k p. rewrite new_points_lookup. cbn. pose proof (new_point_of k p). tauto.
Qed.

Lemma upserted_keeps : filter (λ kp, of_document t d kp.2) m ⊆ filter (λ kp, of_document t d kp.2) (upserted t cs m).
Proof using All.
  apply map_filter_subseteq_mono. rewrite map_subseteq_spec. intros k p Hp. apply new_points_lookup. by right.
Qed.

Lemma kept_others : filter (λ kp, ¬ of_document t d kp.2)
    (filter (λ kp, ¬ (of_document t d kp.2 ∧ kp.1 ∉ map RagPorts.chunk_id cs)) (upserted t cs m)) =
  filter (λ kp, ¬ of_document t d kp.2) m.
Proof using All.
  rewrite <- upserted_others. apply map_filter_strong_ext. intros k p. rewrite map_lookup_filter_Some. cbn. tauto.
Qed.

Lemma kept_own : filter (λ kp, of_document t d kp.2)
    (filter (λ kp, ¬ (of_document t d kp.2 ∧ kp.1 ∉ map RagPorts.chunk_id cs)) (upserted t cs m)) = upserted t cs ∅.
Proof using All.
  apply map_eq. intros k. apply option_eq. intros p. rewrite !map_lookup_filter_Some, new_points_lookup. cbn.
  pose proof (new_point_of k p). split; [|intros Hp; split_and!; [by left|tauto..]]. intros [[[?|Hm] Hkeep] Hof]; [done|].
  destruct (decide (k ∈ map RagPorts.chunk_id cs)) as [Hin|Hno]; [apply Hfresh in Hin; congruence|by destruct Hkeep].
Qed.
End qdrant_half.

(** *** The Postgres half *)

Definition inserted (tenant_id : uuid) (cs : list Chunk) (rows : gmap uuid (uuid * Chunk)) : gmap uuid (uuid * Chunk) :=
  foldl (λ m c, <[RagPorts.chunk_id c := (tenant_id, c)]> m) rows cs.

(** The database with the document's row and chunks replaced. *)
Definition replaced_rows (t d : uuid) (title : string) (cs : list Chunk) (p : PostgresDocuments) : PostgresDocuments :=
  mkPgDocuments (<[d := source_document t d title (Z.of_nat (length cs))]> (pg_documents p))
    (inserted t cs (filter (λ kc, ¬ (chunk_document_id kc.2.2 = d ∧ kc.2.1 = t)) (pg_chunks p))) (pg_tenant p).

Section postgres_half.
Context (accepts : Chunk → bool).

Lemma insert_chunks_spec t cs p us p' : for_each cs (pg_insert_chunk accepts t) p = (Ret us, p') →
  p' = set_chunks (inserted t cs (pg_chunks p)) p.
Proof.
  revert p us p'. induction cs as [|c cs IH]; intros p us p'; cbn [for_each].
  { intros [= <- <-]. by destruct p. }
  intros [(e & [=] & _)|(u & p1 & Hone & Hrest)]%stm_bind_case.
  apply stm_bind_case in Hrest as [(e & [=] & _)|(us' & p2 & Hrest & [= <- <-])]. apply IH in Hrest as ->.
  unfold pg_insert_chunk, get_st, mbind, stm_bind in Hone. revert Hone. case_match; [done|]. case_match; [done|].
  case_match; [done|]. case_match; [done|]. case_match; [done|]. by intros [= _ <-].
Qed.

Lemma delete_document_spec t d p u p' : pg_tenant p = t → pg_delete_document d t p = (Ret u, p') →
  p' = mkPgDocuments (if decide (doc_tenant_id <$> pg_documents p !! d = Some t) then delete d (pg_documents p) else pg_documents p)
    (filter (λ kc, ¬ (chunk_document_id kc.2.2 = d ∧ kc.2.1 = t)) (pg_chunks p)) t.
Proof.
  intros <- Hrun. unfold pg_delete_document, modify, get_st, mbind, stm_bind in Hrun. cbn in Hrun.
  rewrite (proj1 (map_filter_ext _ (λ kc, ¬ (chunk_document_id kc.2.2 = d ∧ kc.2.1 = pg_tenant p)) _)) in Hrun
    by (intros i x _; cbn; tauto).
  destruct (pg_documents p !! d) as [doc|]; cbn [fmap option_fmap option_map]; [|by injection Hrun as _ <-].
  destruct (decide (doc_tenant_id doc = pg_tenant p ∧ _)) as [[Ht _]|Hne] in Hrun.
  - destruct (decide (map_Forall _ _)) in Hrun; [|done]. injection Hrun as _ <-. by rewrite decide_True by congruence.
  - injection Hrun as _ <-. rewrite decide_False; [done|]. intros [= ?]. by apply Hne.
Qed.

(** The transaction replaces the document, or leaves the database as it was. *)
Lemma replace_transaction_spec t d title cs p r p' :
  in_transaction t (pg_delete_document d t;; pg_save_document (source_document t d title (Z.of_nat (length cs)));;
    pg_save_chunks accepts cs t) p = (r, p') →
  (∃ e, r = Raise e ∧ p' = p) ∨ (r = Ret tt ∧ p' = replaced_rows t d title cs p).
Proof.
  unfold in_transaction. destruct ((pg_delete_document d t;; _) _) as [[[]|e] p1] eqn:Hrun; intros [= <- <-]; [right|by eauto].
  split; [done|].
  apply stm_bind_case in Hrun as [(e & [=] & _)|(u & p2 & Hdel & Hrun)]. apply delete_document_spec in Hdel as ->; [|done].
  apply stm_bind_case in Hrun as [(e & [=] & _)|([] & p3 & Hsave & Hrun)].
  apply stm_bind_case in Hrun as [(e & [=] & _)|(us & p4 & Hcs & [= <-])]. apply insert_chunks_spec in Hcs as ->.
  unfold pg_save_document, get_st, modify, mbind, stm_bind in Hsave. cbn in Hsave. rewrite decide_True in Hsave by done.
  destruct (decide (doc_tenant_id <$> pg_documents p !! d = Some t)) in Hsave.
  - rewrite lookup_delete_eq in Hsave. injection Hsave as <-. unfold replaced_rows, set_chunks. cbn. by rewrite insert_delete_eq.
  - destruct (pg_documents p !! d) eqn:Hd; [done|]. by injection Hsave as <-.
Qed.
End postgres_half.

(** *** Both *)

Section replace_both.
Context {K E : Type} `{Chunker K} `{EmbeddingModel E} (accepts : Chunk → bool).
Abbreviation Idx := (ChunkedRagIndex K E) (only parsing).

Definition set_store (q : Qdrant) (s : Idx) : Idx :=
  mkChunkedIndex (ci_db s) q (ci_chunker s) (ci_embedder s) (ci_uuids s) (ci_issued s).

Lemma for_each_on_store {A} (f : Chunk → stm Qdrant A) cs (s : Idx) :
  for_each cs (λ c, on_store (f c)) s = let '(r, q) := for_each cs f (ci_store s) in (r, set_store q s).
Proof.
  revert s. induction cs as [|c cs IH]; intros s; cbn [for_each]; [by destruct s|].
  unfold mbind, stm_bind. unfold on_store at 1. destruct (f c (ci_store s)) as [[a|e] q]; [|done]. rewrite IH. cbn.
  destruct (for_each cs f q) as [[b|e] q']; done.
Qed.

(** Where a new version of the document stands in the store. *)
Definition holds_version (t d : uuid) (cs : list Chunk) (q : Qdrant) : Prop := doc_points t d q = upserted t cs ∅.

Lemma in_fresh_ids cs n (s : Idx) (m : gmap uuid Point) : map RagPorts.chunk_id cs = next_ids n s →
  (∀ i, (ci_issued s ≤ i)%nat → m !! ci_uuids s i = None) → ∀ k, k ∈ map RagPorts.chunk_id cs → m !! k = None.
Proof.
  intros -> Hfresh k. unfold next_ids. intros (i & -> & Hi)%list_elem_of_fmap. apply Hfresh.
  rewrite elem_of_seq in Hi. lia.
Qed.

(** The Qdrant calls of a replacement, in order, whatever becomes of each. *)
Lemma store_calls_spec t d cs (s s' : Idx) r :
  Forall (λ c, chunk_document_id c = d ∧ chunk_parent_id c = None) cs →
  (∀ k, k ∈ map RagPorts.chunk_id cs → qd_points (ci_store s) !! k = None) →
  (for_each cs (λ c, on_store (qd_upsert c t));; on_store (qd_delete_document d t (map RagPorts.chunk_id cs))) s = (r, s') →
  ci_db s' = ci_db s ∧ other_points t d (ci_store s') = other_points t d (ci_store s) ∧
  (holds_version t d cs (ci_store s') ∨ ∃ e, r = Raise e ∧ doc_points t d (ci_store s) ⊆ doc_points t d (ci_store s')).
Proof.
  intros Hdoc Hfresh Hrun. unfold mbind, stm_bind in Hrun. rewrite for_each_on_store in Hrun.
  destruct (for_each cs (λ c, qd_upsert c t) (ci_store s)) as [ru q] eqn:Hup. apply upserts_spec in Hup as (k & Hq & Hall).
  unfold holds_version, other_points, doc_points.
  assert (Forall (λ c, chunk_document_id c = d ∧ chunk_parent_id c = None) (take k cs)) as Hdock by by apply Forall_take.
  assert (∀ i, i ∈ map RagPorts.chunk_id (take k cs) → qd_points (ci_store s) !! i = None) as Hfreshk.
  { intros i Hi. apply Hfresh. rewrite <- firstn_map in Hi. by eapply subseteq_take. }
  destruct ru as [us|e].
  - rewrite (Hall us eq_refl) in Hq. unfold on_store, set_store, qd_delete_document in Hrun. cbn in Hrun.
    destruct (qd_call_cases (filter (λ kp, ¬ (of_document t d kp.2 ∧ kp.1 ∉ map RagPorts.chunk_id cs))) q)
      as [[fs Hcall]|[[fs Hcall]|[fs Hcall]]]; rewrite Hcall in Hrun; injection Hrun as <- <-; cbn; rewrite Hq.
    + split; [done|]. split; [by apply kept_others|left; by apply kept_own].
    + split; [done|]. split; [by apply kept_others|left; by apply kept_own].
    + split; [done|]. split; [by apply upserted_others|right]. eexists. split; [done|]. by apply upserted_keeps.
  - injection Hrun as <- <-. cbn. rewrite Hq. split; [done|]. split; [by apply upserted_others|right].
    eexists. split; [done|]. by apply upserted_keeps.
Qed.

(** C9: Replacing a data source's text clears the previous version from both
    stores and never leaves the document missing from vector search.  When the
    ids drawn are not yet in the collection: other documents' points are
    untouched whatever happens; if the call returns, Postgres holds exactly the
    document's row and one chunk per piece the chunker cut, and Qdrant exactly
    those chunks' points; if it raises (a refused row, an unreachable Qdrant, a
    write carried out whose reply was lost), Postgres holds the old version or
    the new one, in full, and Qdrant holds every old point of the document
    still, or exactly the new ones. *)
Theorem replace_never_loses_the_document t d title text (s s' : Idx) r :
  (∀ i, (ci_issued s ≤ i)%nat → qd_points (ci_store s) !! ci_uuids s i = None) →
  Chunked_replace accepts t d title text s = (r, s') →
  other_points t d (ci_store s') = other_points t d (ci_store s) ∧
  ((∃ e, r = Raise e ∧ ci_db s' = ci_db s ∧ ci_store s' = ci_store s) ∨
   ∃ pieces cs, (chunk text (ci_chunker s)).1 = Ret pieces ∧ chunks_of d pieces (next_ids (length pieces) s) cs ∧
     ci_db s' = replaced_rows t d title cs (ci_db s) ∧
     (holds_version t d cs (ci_store s') ∨ ∃ e, r = Raise e ∧ doc_points t d (ci_store s) ⊆ doc_points t d (ci_store s'))).
Proof.
  intros Hfresh Hrun. unfold Chunked_replace in Hrun.
  apply stm_bind_case in Hrun as [(e & -> & Hk)|(pieces & s1 & Hk & Hrun)];
    unfold on_chunker in Hk; destruct (chunk text (ci_chunker s)) as [rk k']; injection Hk as -> <-; [eauto 7|].
  apply stm_bind_case in Hrun as [(e & -> & Hcs)|(cs & s2 & Hcs & Hrun)]; apply embedded_chunks_spec in Hcs as (Hdb & Hst & Hcs);
    cbn in Hdb, Hst; [rewrite Hst; eauto 7|]. specialize (Hcs cs eq_refl). pose proof Hcs as (Hids & _ & Hdoc).
  assert (∀ k, k ∈ map RagPorts.chunk_id cs → qd_points (ci_store s) !! k = None) as Hnew by by eapply in_fresh_ids.
  apply stm_bind_case in Hrun as [(e & -> & Htx)|([] & s3 & Htx & Hrun)]; unfold on_db in Htx;
    destruct (in_transaction t _ (ci_db s2)) as [rt p] eqn:Hp; apply replace_transaction_spec in Hp; injection Htx as -> <-.
  - destruct Hp as [(e' & _ & ->)|[[=] _]]. cbn. rewrite Hst. eauto 7.
  - destruct Hp as [(e' & [=] & _)|[_ ->]]. apply store_calls_spec in Hrun as (Hdb' & Hoth & Hend); cbn in *; rewrite ?Hst in *; [|done..].
    split; [done|right]. exists pieces, cs. rewrite Hdb', Hdb. by split_and!.
Qed.
End replace_both.

(** A chunker that makes one piece of the text, and a stub embedder. *)
#[local] Instance whole_text : Chunker unit := λ text, mret [text].
#[local] Instance unit_vector : EmbeddingModel unit := λ _, mret [fone].

(** Document 5 of tenant 1 holds one chunk, 50; the second version's upsert is
    carried out, and its reply lost. *)
Definition first_version : Chunk := mkChunk 50 5 "old" [fone] None ∅.
Definition before_replacing : ChunkedRagIndex unit unit :=
  mkChunkedIndex (mkPgDocuments {[5 := source_document 1 5 "page" 1]} {[50 := (1, first_version)]} 1)
    (mkQdrant {[50 := point_of first_version 1]} [ReplyLost]) tt tt (λ i, 100 + Z.of_nat i) 0.
Definition lost_reply := Chunked_replace (K := unit) (E := unit) (λ _, true) 1 5 "page" "new" before_replacing.

Example lost_reply_keeps_both : lost_reply.1 = Raise unreachable ∧
  map (fst (B := Point)) (map_to_list (qd_points (ci_store lost_reply.2))) = [50; 100] ∧
  map (fst (B := uuid * Chunk)) (map_to_list (pg_chunks (ci_db lost_reply.2))) = [100].
Proof. vm_compute. repeat split; reflexivity. Qed.

Lemma replace_never_loses_the_document_witness :
  (∀ i, (0 ≤ i)%nat → qd_points (ci_store before_replacing) !! ci_uuids before_replacing i = None) ∧
  other_points 1 5 (ci_store lost_reply.2) = other_points 1 5 (ci_store before_replacing).
Proof.
  assert (∀ i, (0 ≤ i)%nat → qd_points (ci_store before_replacing) !! ci_uuids before_replacing i = None) as Hfresh.
  { intros i _. cbn. apply lookup_singleton_ne. lia. }
  split; [exact Hfresh|].
  apply (replace_never_loses_the_document (K := unit) (E := unit) (λ _, true) 1 5 "page" "new" before_replacing lost_reply.2 lost_reply.1 Hfresh).
  apply surjective_pairing.
Defined.
