(* ===== verification/EpisodicStore.v ===== *)
(** * Episodes in Postgres

    The contract an EpisodicMemoryRepository keeps and
    mag/infrastructure/postgres_episodic_memory_repository.py, with the SQL of
    each method read as an operation on the episodic_memory table of
    alembic/versions/0003 and 0004: its primary key, its row-level security and
    the consolidated_at column.  ORDER BY leaves the order of equal keys open;
    here they come in table order, and the contract does not promise it.
    Parameters: pgvector's distance, the text Postgres gives a jsonb value, its
    case folding, and whether the columns and foreign keys take a row. *)

From Stdlib Require Import ZArith Lia Ascii String Floats.SpecFloat.
From S2P Require Import Prelude PyFloat PyTime PyStr Json MagDomain SemanticStore.

Definition ep_no_embedding (e : EpisodicMemory) : EpisodicMemory :=
  mkEpisode (ep_id e) (ep_session_id e) (ep_content e) [] (ep_timestamp e) (ep_salience_score e) (ep_consolidated_at e).

Definition with_consolidated_at (t : option datetime) (e : EpisodicMemory) : EpisodicMemory :=
  mkEpisode (ep_id e) (ep_session_id e) (ep_content e) (ep_embedding e) (ep_timestamp e) (ep_salience_score e) t.

(** ** The order of SQL *)

(** A float column: NaN is the greatest. *)
Definition sql_le (x y : f64) : bool := if is_nan y then true else if is_nan x then false else fle x y.

Definition oldest_first (a b : EpisodicMemory) : bool := ep_timestamp a <=? ep_timestamp b.
Definition newest_first (a b : EpisodicMemory) : bool := ep_timestamp b <=? ep_timestamp a.
(** [ORDER BY timestamp DESC, id DESC]. *)
Definition newest_id_first (a b : EpisodicMemory) : bool :=
  (ep_timestamp b <? ep_timestamp a) || ((ep_timestamp b =? ep_timestamp a) && (ep_id b <=? ep_id a)).
Definition most_salient_first (a b : EpisodicMemory) : bool := sql_le (ep_salience_score b) (ep_salience_score a).

(** ** LIKE *)

(** A pattern against a text, both as code points: [%] (37) is any run, [_]
    (95) any character, and a backslash (92) makes the next one literal. *)
Fixpoint like_match (p : list Z) : list Z → bool :=
  match p with
  | [] => λ t, match t with [] => true | _ => false end
  | c :: p' =>
      if c =? 37 then
        (fix any (t : list Z) : bool := like_match p' t || match t with [] => false | _ :: t' => any t' end)
      else if c =? 92 then
        match p' with
        | [] => λ _, false
        | e :: p'' => λ t, match t with [] => false | x :: t' => (x =? e) && like_match p'' t' end
        end
      else λ t, match t with [] => false | x :: t' => ((c =? 95) || (x =? c)) && like_match p' t' end
  end.

(** [value.replace(c, backslash + c)]. *)
Definition escape_char (c : Z) (l : list Z) : list Z := flat_map (λ x, if x =? c then [92; c] else [x]) l.
Definition _escape_like (value : list Z) : list Z := escape_char 95 (escape_char 37 (escape_char 92 value)).

(** ** The contract *)

(** [out] is the first [limit] of the wanted episodes in some order that [le] allows. *)
Definition picks (le : EpisodicMemory → EpisodicMemory → bool) (limit : Z) (wanted out : list EpisodicMemory) : Prop :=
  ∃ all, all ≡ₚ wanted ∧ StronglySorted (λ a b, le a b = true) all ∧ out = take (Z.to_nat limit) all.

(** A read that leaves the store alone, or raises. *)
Definition reads {R A} (same : R → R → Prop) (m : stm R A) (good : R → A → Prop) : Prop :=
  ∀ r, match m r with (Ret a, r') => good r a ∧ same r r' | (Raise _, r') => same r r' end.

Definition in_session (sid : uuid) (e : EpisodicMemory) : Prop := ep_session_id e = sid.
#[export] Instance in_session_dec sid e : Decision (in_session sid e).
Proof. unfold in_session. apply _. Defined.

Definition unconsolidated (e : EpisodicMemory) : Prop := ep_consolidated_at e = None.
#[export] Instance unconsolidated_dec e : Decision (unconsolidated e).
Proof. unfold unconsolidated. destruct (ep_consolidated_at e); [right|left]; done. Defined.

(** What marking does to the episodes of a tenant. *)
Definition marked (ids : list uuid) (now : datetime) (e : EpisodicMemory) : EpisodicMemory :=
  if decide (ep_id e ∈ ids) then with_consolidated_at (Some now) e else e.

(** One tenant's episodes are a list, in the order they were saved. *)
Class EpisodicMemoryLaws (R : Type) `{EpisodicMemoryRepository R} (episodes : R → uuid → list EpisodicMemory) : Prop := {
  er_save_spec e t r :
    match er_save e t r with
    | (Ret _, r') => episodes r' t = episodes r t ++ [with_consolidated_at None e]
    | (Raise _, r') => episodes r' t = episodes r t
    end;
  er_session_spec sid t : reads (λ r r', episodes r' t = episodes r t) (er_get_by_session sid t)
    (λ r out, ∃ all, all ≡ₚ filter (in_session sid) (episodes r t)
      ∧ StronglySorted (λ a b, oldest_first a b = true) all ∧ out = map ep_no_embedding all);
  er_unconsolidated_spec sid t limit : reads (λ r r', episodes r' t = episodes r t)
    (er_get_unconsolidated_by_session sid t limit)
    (λ r out, 0 ≤ limit ∧ ∃ got, out = map ep_no_embedding got
      ∧ picks oldest_first limit (filter unconsolidated (filter (in_session sid) (episodes r t))) got);
  er_mark_spec ids t r :
    match er_mark_consolidated ids t r with
    | (Ret _, r') => ∃ now, episodes r' t = map (marked ids now) (episodes r t)
    | (Raise _, r') => episodes r' t = episodes r t
    end;
  er_window_spec sid t from to top_k : reads (λ r r', episodes r' t = episodes r t)
    (er_get_by_session_in_window sid t from to top_k)
    (λ r out, 0 ≤ top_k ∧ ∃ got, out = map ep_no_embedding got
      ∧ picks newest_first top_k
          (filter (λ e, from ≤ ep_timestamp e ≤ to) (filter (in_session sid) (episodes r t))) got);
  er_recent_spec sid t limit : reads (λ r r', episodes r' t = episodes r t) (er_get_recent_by_session sid t limit)
    (λ r out, 0 ≤ limit ∧ ∃ got, out = map ep_no_embedding got
      ∧ picks newest_id_first limit (filter (in_session sid) (episodes r t)) got);
  er_salience_spec sid t top_k : reads (λ r r', episodes r' t = episodes r t)
    (er_get_by_session_ranked_by_salience sid t top_k)
    (λ r out, 0 ≤ top_k ∧ ∃ got, out = map ep_no_embedding got
      ∧ picks most_salient_first top_k (filter (in_session sid) (episodes r t)) got);
  er_entity_spec sid t entity top_k : reads (λ r r', episodes r' t = episodes r t)
    (er_get_by_session_matching_entity sid t entity top_k)
    (λ r out, 0 ≤ top_k ∧ ∃ got, out = map ep_no_embedding got ∧ got ⊆ filter (in_session sid) (episodes r t))
}.

(** ** The table *)

Record EpisodeRow : Type := mkEpisodeRow { er_tenant_id : uuid; er_episode : EpisodicMemory }.

(** The rows in table order, the transaction's tenant and its [now()]. *)
Record PostgresEpisodes : Type := mkPgEpisodes {
  pe_rows : list EpisodeRow;
  pe_tenant : uuid;
  pe_now : datetime
}.

(** Row-level security, and [tenant_id = :tenant_id]. *)
Definition visible_episodes (p : PostgresEpisodes) (tenant_id : uuid) : list EpisodicMemory :=
  map er_episode (filter (λ r, er_tenant_id r = tenant_id ∧ er_tenant_id r = pe_tenant p) (pe_rows p)).

Definition negative_limit : exn := BackendError "LIMIT must not be negative".

(** [SELECT ... WHERE session_id = ... AND wanted ORDER BY ... LIMIT ...]. *)
Definition select_episodes (wanted : EpisodicMemory → bool) (le : EpisodicMemory → EpisodicMemory → bool)
    (sid tenant_id : uuid) (limit : Z) : stm PostgresEpisodes (list EpisodicMemory) :=
  p ← get_st;
  if limit <? 0 then raise negative_limit
  else mret (map ep_no_embedding (take (Z.to_nat limit)
    (sort_by le (filter (λ e, wanted e = true) (filter (in_session sid) (visible_episodes p tenant_id)))))).

Section postgres.
Context (cosine_distance : list f64 → list f64 → f64) (jsonb_text : list (string * json) → string)
  (fold_case : Z → Z) (accepts : EpisodicMemory → bool).

(** INSERT: consolidated_at is left to its default, NULL. *)
Definition pe_save (episode : EpisodicMemory) (tenant_id : uuid) : stm PostgresEpisodes unit :=
  p ← get_st;
  if negb (accepts episode) then raise (BackendError "the row is not accepted")
  else if decide (tenant_id = pe_tenant p) then
    if decide (ep_id episode ∈ map (λ r, ep_id (er_episode r)) (pe_rows p))
    then raise (BackendError "duplicate key value violates unique constraint")
    else modify (λ p, mkPgEpisodes (pe_rows p ++ [mkEpisodeRow tenant_id (with_consolidated_at None episode)])
                        (pe_tenant p) (pe_now p))
  else raise rls_violation.

Definition pe_get_by_session (session_id tenant_id : uuid) : stm PostgresEpisodes (list EpisodicMemory) :=
  p ← get_st;
  mret (map ep_no_embedding (sort_by oldest_first (filter (in_session session_id) (visible_episodes p tenant_id)))).

Definition is_unconsolidated (e : EpisodicMemory) : bool :=
  match ep_consolidated_at e with None => true | Some _ => false end.

Definition pe_get_unconsolidated_by_session (session_id tenant_id : uuid) (limit : Z) :
  stm PostgresEpisodes (list EpisodicMemory) :=
  select_episodes is_unconsolidated oldest_first session_id tenant_id limit.

(** UPDATE ... SET consolidated_at = now() WHERE id = ANY(ids), nothing for no ids. *)
Definition pe_mark_consolidated (episode_ids : list uuid) (tenant_id : uuid) : stm PostgresEpisodes unit :=
  match episode_ids with
  | [] => mret tt
  | _ => modify (λ p, mkPgEpisodes
           (map (λ r, if decide (er_tenant_id r = tenant_id ∧ er_tenant_id r = pe_tenant p)
                      then mkEpisodeRow (er_tenant_id r) (marked episode_ids (pe_now p) (er_episode r)) else r) (pe_rows p))
           (pe_tenant p) (pe_now p))
  end.

Definition pe_search_by_similarity (query_embedding : list f64) (tenant_id : uuid) (top_k : Z) :
  stm PostgresEpisodes (list ScoredEpisode) :=
  p ← get_st;
  let distance e := cosine_distance (ep_embedding e) query_embedding in
  if top_k <? 0 then raise negative_limit
  else mret (map (λ e, mkScoredEpisode (ep_no_embedding e) (fsub fone (distance e)))
    (take (Z.to_nat top_k) (sort_by (λ a b, sql_le (distance a) (distance b)) (visible_episodes p tenant_id)))).

Definition pe_get_by_session_in_window (session_id tenant_id : uuid) (start finish : datetime) (top_k : Z) :
  stm PostgresEpisodes (list EpisodicMemory) :=
  select_episodes (λ e, (start <=? ep_timestamp e) && (ep_timestamp e <=? finish)) newest_first session_id tenant_id top_k.

Definition pe_get_recent_by_session (session_id tenant_id : uuid) (limit : Z) :
  stm PostgresEpisodes (list EpisodicMemory) :=
  select_episodes (λ _, true) newest_id_first session_id tenant_id limit.

Definition pe_get_by_session_ranked_by_salience (session_id tenant_id : uuid) (top_k : Z) :
  stm PostgresEpisodes (list EpisodicMemory) :=
  select_episodes (λ _, true) most_salient_first session_id tenant_id top_k.

(** [content->'entities' @> to_jsonb(ARRAY\[:entity\]::text\[\])]. *)
Definition entities_contain (entity : string) (content : list (string * json)) : bool :=
  match od_get "entities"%string content with
  | Some (JList l) => existsb (λ v, match v with JStr s => String.eqb s entity | _ => false end) l
  | _ => false
  end.

(** [content::text ILIKE pattern ESCAPE '\'], the pattern being [%escaped entity%]. *)
Definition text_mentions (entity : list Z) (text : list Z) : bool :=
  like_match (map fold_case ([37] ++ _escape_like entity ++ [37])) (map fold_case text).

Definition pe_get_by_session_matching_entity (session_id tenant_id : uuid) (entity : string) (top_k : Z) :
  stm PostgresEpisodes (list EpisodicMemory) :=
  select_episodes (λ e, entities_contain entity (ep_content e) ||
      text_mentions (code_points entity) (code_points (jsonb_text (ep_content e))))
    newest_first session_id tenant_id top_k.

Definition postgres_episodic_memory : EpisodicMemoryRepository PostgresEpisodes := {|
  er_save := pe_save;
  er_get_by_session := pe_get_by_session;
  er_get_unconsolidated_by_session := pe_get_unconsolidated_by_session;
  er_mark_consolidated := pe_mark_consolidated;
  er_search_by_similarity := pe_search_by_similarity;
  er_get_by_session_in_window := pe_get_by_session_in_window;
  er_get_recent_by_session := pe_get_recent_by_session;
  er_get_by_session_ranked_by_salience := pe_get_by_session_ranked_by_salience;
  er_get_by_session_matching_entity := pe_get_by_session_matching_entity
|}.
End postgres.

(** ** It keeps the contract *)

Lemma visible_snoc p e t : t = pe_tenant p →
  visible_episodes (mkPgEpisodes (pe_rows p ++ [mkEpisodeRow t e]) (pe_tenant p) (pe_now p)) t
    = visible_episodes p t ++ [e].
Proof.
  intros ->. unfold visible_episodes. simpl. rewrite filter_app, map_app. f_equal.
  rewrite filter_cons_True by done. by rewrite filter_nil.
Qed.

Lemma visible_marked p ids t :
  visible_episodes (pe_mark_consolidated ids t p).2 t = map (marked ids (pe_now p)) (visible_episodes p t).
Proof.
  destruct ids as [|i ids].
  { simpl. symmetry. erewrite map_ext; [apply map_id|]. intros e. unfold marked.
    by rewrite decide_False by apply not_elem_of_nil. }
  unfold visible_episodes. simpl. induction (pe_rows p) as [|r l IH]; [done|]. simpl.
  rewrite !filter_cons. destruct (decide (er_tenant_id r = t ∧ er_tenant_id r = pe_tenant p)) as [Ht|Ht].
  - rewrite decide_True by done. simpl. by rewrite IH.
  - rewrite decide_False by done. exact IH.
Qed.

Lemma select_reads wanted (P : EpisodicMemory → Prop) `{∀ e, Decision (P e)} le sid t limit :
  (∀ e, wanted e = true ↔ P e) → (∀ l, total_on le l) → (∀ l, trans_on le l) →
  reads (λ p p', visible_episodes p' t = visible_episodes p t) (select_episodes wanted le sid t limit)
    (λ p out, 0 ≤ limit ∧ ∃ got, out = map ep_no_embedding got ∧
      picks le limit (filter P (filter (in_session sid) (visible_episodes p t))) got).
Proof.
  intros Hw Htot Htr p. unfold select_episodes, mbind, stm_bind, get_st, raise, mret, stm_ret.
  destruct (Z.ltb_spec limit 0); [done|]. split; [|done]. split; [done|]. eexists. split; [done|].
  eexists. split; [|split; [by apply sort_by_sorted|done]]. rewrite sort_by_perm.
  erewrite list_filter_iff; [done|]. intros e. apply Hw.
Qed.

Lemma oldest_ok l : total_on oldest_first l ∧ trans_on oldest_first l.
Proof. unfold total_on, trans_on, oldest_first. split; intros *; rewrite ?Z.leb_le; lia. Qed.
Lemma newest_ok l : total_on newest_first l ∧ trans_on newest_first l.
Proof. unfold total_on, trans_on, newest_first. split; intros *; rewrite ?Z.leb_le; lia. Qed.
Lemma newest_id_ok l : total_on newest_id_first l ∧ trans_on newest_id_first l.
Proof.
  unfold total_on, trans_on, newest_id_first.
  split; intros *; rewrite ?orb_true_iff, ?andb_true_iff, ?Z.leb_le, ?Z.ltb_lt, ?Z.eqb_eq; lia.
Qed.
Lemma salient_ok l : total_on most_salient_first l ∧ trans_on most_salient_first l.
Proof.
  unfold total_on, trans_on, most_salient_first, sql_le. split.
  - intros x y _ _. destruct (is_nan (ep_salience_score x)) eqn:Hx, (is_nan (ep_salience_score y)) eqn:Hy; auto.
    by apply fle_total.
  - intros x y z _ _ _. destruct (is_nan (ep_salience_score x)), (is_nan (ep_salience_score y)) eqn:Hy; try done.
    destruct (is_nan (ep_salience_score z)) eqn:Hz; [done|]. intros Hyx Hzy. by eapply fle_trans.
Qed.

#[export] Instance postgres_episodic_laws cosine_distance jsonb_text fold_case accepts :
  @EpisodicMemoryLaws PostgresEpisodes (postgres_episodic_memory cosine_distance jsonb_text fold_case accepts)
    visible_episodes.
Proof.
  split; simpl.
  - intros e t p. unfold pe_save, mbind, stm_bind, get_st, modify, raise.
    destruct (accepts e); [|done]. simpl. case_decide as Ht; [|done]. case_decide; [done|]. by apply visible_snoc.
  - intros sid t p. split; [|done]. eexists. split; [|split; [|done]]; [by rewrite sort_by_perm|].
    apply sort_by_sorted; apply oldest_ok.
  - intros sid t limit. apply (select_reads is_unconsolidated unconsolidated); [|apply oldest_ok..].
    intros e. unfold is_unconsolidated, unconsolidated. by destruct (ep_consolidated_at e).
  - intros ids t p. pose proof (visible_marked p ids t) as Hv.
    destruct ids; simpl in *; eexists; exact Hv.
  - intros sid t from to top_k.
    apply (select_reads _ (λ e, from ≤ ep_timestamp e ≤ to)); [|apply newest_ok..].
    intros e. by rewrite andb_true_iff, !Z.leb_le.
  - intros sid t limit p. pose proof (select_reads (λ _, true) (λ _, True) newest_id_first sid t limit
      (λ _, ltac:(done)) (λ l, proj1 (newest_id_ok l)) (λ l, proj2 (newest_id_ok l)) p) as Hs.
    unfold pe_get_recent_by_session. destruct (select_episodes _ _ _ _ _ _) as [[out|e] p']; [|done].
    by rewrite (list_filter_all (λ _, True)) in Hs by (by apply list.Forall_true).
  - intros sid t limit p. pose proof (select_reads (λ _, true) (λ _, True) most_salient_first sid t limit
      (λ _, ltac:(done)) (λ l, proj1 (salient_ok l)) (λ l, proj2 (salient_ok l)) p) as Hs.
    unfold pe_get_by_session_ranked_by_salience. destruct (select_episodes _ _ _ _ _ _) as [[out|e] p']; [|done].
    by rewrite (list_filter_all (λ _, True)) in Hs by (by apply list.Forall_true).
  - intros sid t entity top_k p. unfold pe_get_by_session_matching_entity, select_episodes, mbind, stm_bind, get_st, raise, mret, stm_ret.
    destruct (Z.ltb_spec top_k 0); [done|]. split; [|done]. split; [done|]. eexists. split; [done|].
    intros e He. apply elem_of_take in He as (i & Hi & _). apply list_elem_of_lookup_2 in Hi.
    rewrite sort_by_perm, list_elem_of_filter in Hi. by destruct Hi.
Qed.

(** ** An entity is matched as it is written *)

Definition special (x : Z) : bool := (x =? 92) || (x =? 37) || (x =? 95).
Definition literal (x : Z) : list Z := if special x then [92; x] else [x].

Lemma escape_literal v : _escape_like v = flat_map literal v.
Proof.
  unfold _escape_like, escape_char. induction v as [|x v IH]; [done|]. simpl.
  rewrite !flat_map_app, IH. f_equal. unfold literal, special.
  destruct (Z.eqb_spec x 92) as [->|H92]; [done|]. simpl.
  destruct (Z.eqb_spec x 37) as [->|H37]; [done|]. simpl.
  by destruct (Z.eqb_spec x 95) as [->|H95].
Qed.

Lemma like_match_literal v q t :
  like_match (flat_map literal v ++ q) t = true ↔ ∃ t', t = v ++ t' ∧ like_match q t' = true.
Proof.
  revert t. induction v as [|x v IH]; intros t; simpl.
  { split; [by exists t|by intros (t' & -> & ?)]. }
  assert (like_match ((literal x ++ flat_map literal v) ++ q) t = true ↔
    match t with [] => False | y :: t1 => y = x ∧ like_match (flat_map literal v ++ q) t1 = true end) as ->.
  { rewrite <- app_assoc. unfold literal, special.
    destruct (Z.eqb_spec x 92) as [->|H92]; [destruct t; simpl; rewrite ?andb_true_iff, ?Z.eqb_eq; done|].
    destruct (Z.eqb_spec x 37) as [->|H37]; [destruct t; simpl; rewrite ?andb_true_iff, ?Z.eqb_eq; done|].
    destruct (Z.eqb_spec x 95) as [->|H95]; [destruct t; simpl; rewrite ?andb_true_iff, ?Z.eqb_eq; done|].
    simpl. destruct (Z.eqb_spec x 37); [done|]. destruct (Z.eqb_spec x 92); [done|].
    destruct t as [|y t]; [done|]. destruct (Z.eqb_spec x 95); [done|]. simpl. by rewrite andb_true_iff, Z.eqb_eq. }
  destruct t as [|y t1]; [split; [done|by intros (? & [=] & _)]|].
  rewrite IH. split.
  - intros (-> & t' & -> & Hq). by exists t'.
  - intros (t' & [= -> ->] & Hq). by eauto.
Qed.

Lemma like_match_any p t : like_match (37 :: p) t = true ↔ ∃ a b, t = a ++ b ∧ like_match p b = true.
Proof.
  change (like_match (37 :: p) t) with
    ((fix any (t : list Z) : bool := like_match p t || match t with [] => false | _ :: t' => any t' end) t).
  induction t as [|x t IH]; rewrite orb_true_iff.
  - split; [intros [H|]; [|done]; by exists [], []|].
    intros (a & b & Hab & H). symmetry in Hab. apply app_nil in Hab as [-> ->]. by left.
  - rewrite IH. split.
    + intros [H|(a & b & -> & H)]; [by exists [], (x :: t)|by exists (x :: a), b].
    + intros ([|y a] & b & Hab & H); simplify_eq/=; [by left|]. right. by eauto.
Qed.

(** Matching an entity against an episode's text, as the ILIKE pattern
    built from it does, finds exactly the texts that contain the entity
    letter for letter up to case: no character of the entity acts as a
    wildcard, and none is lost, whatever the entity holds (wildcards and the
    escape character included), for any case folding that keeps those
    characters to themselves. *)
Theorem entity_match_is_literal (fold_case : Z → Z) (entity text : list Z) :
  (∀ x, special x = true → fold_case x = x) → (∀ x, special (fold_case x) = true → fold_case x = x) →
  text_mentions fold_case entity text = true ↔
    ∃ a b, map fold_case text = a ++ map fold_case entity ++ b.
Proof.
  intros Hfix Hback. unfold text_mentions. rewrite !map_app, escape_literal.
  assert (map fold_case (flat_map literal entity) = flat_map literal (map fold_case entity)) as ->.
  { induction entity as [|x v IH]; [done|]. simpl. rewrite map_app, IH. f_equal. unfold literal.
    assert (special (fold_case x) = special x) as ->.
    { destruct (special x) eqn:Hx; [by rewrite Hfix|]. destruct (special (fold_case x)) eqn:Hy; [|done].
      pose proof (Hback x Hy) as Hf. rewrite Hf in Hy. congruence. }
    destruct (special x); [|done]. simpl. by rewrite (Hfix 92 eq_refl). }
  change (map fold_case [37]) with [fold_case 37]. rewrite (Hfix 37 eq_refl).
  cbn [app]. rewrite like_match_any. split.
  - intros (a & b & Hab & Hm). apply like_match_literal in Hm as (b' & -> & _). by exists a, b'.
  - intros (a & b & Hab). exists a, (map fold_case entity ++ b). split; [done|].
    apply like_match_literal. exists b. split; [done|]. apply like_match_any. exists b, []. by rewrite app_nil_r.
Qed.

Definition ascii_lower (c : Z) : Z := if (65 <=? c) && (c <=? 90) then c + 32 else c.

Lemma ascii_lower_special x : (special x = true → ascii_lower x = x) ∧ (special (ascii_lower x) = true → ascii_lower x = x).
Proof.
  unfold special, ascii_lower. destruct (Z.leb_spec 65 x), (Z.leb_spec x 90); simpl;
    rewrite ?orb_true_iff, ?Z.eqb_eq; lia.
Qed.

Lemma entity_match_is_literal_witness :
  text_mentions ascii_lower (code_points "v1_B") (code_points "built V1_b") = true ∧
  (text_mentions ascii_lower (code_points "v1_B") (code_points "built V1xb") = true ↔
    ∃ a b, map ascii_lower (code_points "built V1xb") = a ++ map ascii_lower (code_points "v1_B") ++ b).
Proof.
  split; [vm_compute; reflexivity|].
  exact (entity_match_is_literal ascii_lower (code_points "v1_B") (code_points "built V1xb")
    (λ x, proj1 (ascii_lower_special x)) (λ x, proj2 (ascii_lower_special x))).
Defined.
