(* ===== verification/MemoryWriting.v ===== *)
(** * Writing memories

    mag/application/commands: capture_episode.py, consolidate_episodes.py,
    consolidate_procedures.py, record_procedure.py; with the prompt builders of
    mag/infrastructure/_salience_prompt.py.  What the language model returns is
    any text at all: the theorems say what the validators let through, what a
    capture or a consolidation leaves in the stores when it returns and when it
    raises, and that repeated consolidation drains the backlog. *)

From Stdlib Require Import ZArith Lia Ascii String Floats.SpecFloat.
From S2P Require Import Prelude PyFloat PyTime Digest PyStr Prompts Json MagDomain RagPorts Doubles LlmJson SemanticStore MemoryEvolution EpisodicStore.

(** ** Validated replies *)

Definition _MAX_SALIENCE_ATTEMPTS : nat := 3.
Definition _MAX_REFLECTION_ATTEMPTS : nat := 3.

(** The body of the try block of [_score_salience]. *)
Definition parse_salience (response : string) : res f64 :=
  parsed ← json_loads (strip_markdown_fence response);
  raw_score ← json_item parsed "salience_score";
  unit_score raw_score.

Record FactRecord : Type := mkFactRecord { rc_fact_key : string; rc_fact_value : string; rc_confidence : f64 }.

(** One round of the loop of [_validate_and_dedupe_facts], up to the record. *)
Definition validate_fact (item : json) : res FactRecord :=
  match item with
  | JObj o =>
      fact_key ← json_item item "fact_key";
      fact_value ← json_item item "fact_value";
      match fact_key, fact_value with
      | JStr k, JStr v =>
          if is_blank k then Raise (TypeError "fact_key must be a non-empty string")
          else if is_blank v then Raise (TypeError "fact_value must be a non-empty string")
          else
            confidence ← py_float (dict_get "confidence" (JFloat fone) o);
            Ret (mkFactRecord (strip k) v confidence)
      | JStr k, _ =>
          if is_blank k then Raise (TypeError "fact_key must be a non-empty string")
          else Raise (TypeError "fact_value must be a non-empty string")
      | _, _ => Raise (TypeError "fact_key must be a non-empty string")
      end
  | _ => Raise (TypeError "each fact must be a JSON object")
  end.

Section dedupe.
Context {A : Type} (validate : json → res A) (key : A → string).

(** [validated] with its index [seen]: a repeated key replaces the record in
    its place, a new one is appended. *)
Fixpoint validate_and_dedupe (items : list json) (validated : list (string * A)) : res (list A) :=
  match items with
  | [] => Ret (map snd validated)
  | item :: rest =>
      record ← validate item;
      validate_and_dedupe rest (od_set (key record) record validated)
  end.

(** The body of the try block of [_reflect]: the list under [field]. *)
Definition parse_reflection (field : string) (response : string) : res (list A) :=
  parsed ← json_loads (strip_markdown_fence response);
  items ← json_item parsed field;
  match items with
  | JList l => validate_and_dedupe l []
  | _ => Raise (TypeError "must be a list")
  end.
End dedupe.

Definition _validate_and_dedupe_facts (facts : list json) : res (list FactRecord) :=
  validate_and_dedupe validate_fact rc_fact_key facts [].
Definition parse_facts : string → res (list FactRecord) := parse_reflection validate_fact rc_fact_key "facts".

Record ProcedureRecord : Type := mkProcedureRecord {
  rp_task_pattern : string;
  rp_workflow : jdict;
  rp_success_rate : f64
}.

Definition bad_task_pattern : exn := TypeError "task_pattern must be a non-empty string".
Definition bad_workflow : exn := TypeError "workflow must be a non-empty JSON object".

Definition validate_procedure (item : json) : res ProcedureRecord :=
  match item with
  | JObj o =>
      task_pattern ← json_item item "task_pattern";
      workflow ← json_item item "workflow";
      match task_pattern with
      | JStr p =>
          if is_blank p then Raise bad_task_pattern
          else match workflow with
          | JObj ((_ :: _) as w) =>
              if match od_get "steps"%string w with Some (JList []) => true | _ => false end
              then Raise (TypeError "workflow.steps must not be an empty list")
              else
                success_rate ← unit_score (dict_get "success_rate" (JFloat fone) o);
                Ret (mkProcedureRecord (strip p) w success_rate)
          | _ => Raise bad_workflow
          end
      | _ => Raise bad_task_pattern
      end
  | _ => Raise (TypeError "each procedure must be a JSON object")
  end.

Definition _validate_and_dedupe_procedures (procedures : list json) : res (list ProcedureRecord) :=
  validate_and_dedupe validate_procedure rp_task_pattern procedures [].
Definition parse_procedures : string → res (list ProcedureRecord) :=
  parse_reflection validate_procedure rp_task_pattern "procedures".

(** ** The stores of episodes, beside those of facts *)

Record EpisodeStores (RE XE : Type) : Type := mkEpisodeStores { es_repository : RE; es_index : XE }.
Arguments mkEpisodeStores {RE XE}.
Arguments es_repository {RE XE}.
Arguments es_index {RE XE}.

Definition build_salience_user_message (content : jdict) : string :=
  ("Episode:" +:+ nl +:+ nl +:+ json_dumps true (JObj content))%string.

(** The items a [for] statement takes from a JSON value. *)
Definition py_iter (v : json) : res (list json) :=
  match v with
  | JList l => Ret l
  | JStr s => Ret (map (λ c, JStr (utf8_encode c)) (code_points s))
  | JObj o => Ret (map (λ kv, JStr kv.1) o)
  | _ => Raise (TypeError "object is not iterable")
  end.

Section writing.
Context {R X G E M RE XE : Type} `{SemanticMemoryRepository R} `{SemanticMemoryIndex X}
  `{MemoryGraphRepository G} `{EmbeddingModel E} `{ChatModel M}
  `{EpisodicMemoryRepository RE} `{EpisodicMemoryIndex XE}.
Abbreviation Stores := (MagStores R X G E M * EpisodeStores RE XE)%type (only parsing).

Definition on_episodes {A} (m : stm RE A) : stm Stores A := on_snd (λ s,
  let '(r, x) := m (es_repository s) in (r, mkEpisodeStores x (es_index s))).
Definition on_episode_index {A} (m : stm XE A) : stm Stores A := on_snd (λ s,
  let '(r, x) := m (es_index s) in (r, mkEpisodeStores (es_repository s) x)).

(** ** CaptureEpisode *)

Definition _score_salience (content : jdict) : stm Stores f64 :=
  let prompt := (SALIENCE_SYSTEM_PROMPT +:+ nl +:+ nl +:+ build_salience_user_message content)%string in
  retry_parse (on_fst (on_chat (cm_complete prompt))) parse_salience caught_value _MAX_SALIENCE_ATTEMPTS fzero.

(** The nodes and edges a captured episode adds to the graph, best effort. *)
Definition mirror_episode (tenant_id user_id session_id : uuid) (content : jdict)
    (previous : list EpisodicMemory) (episode : EpisodicMemory) : stm Stores unit :=
  best_effort (on_fst (on_graph (gr_upsert_episode_node episode tenant_id)));;
  best_effort (on_fst (on_graph (gr_link_participated_in user_id session_id tenant_id)));;
  match previous with
  | p :: _ => best_effort (on_fst (on_graph (gr_link_temporally_follows (ep_id p) (ep_id episode) tenant_id)))
  | [] => mret tt
  end;;
  entities ← lift_res (py_iter (dict_get "entities" (JList []) content));
  for_each entities (λ entity_name, best_effort (on_fst (on_graph (gr_link_mentions (ep_id episode) entity_name tenant_id))));;
  mret tt.

Definition CaptureEpisode_execute (tenant_id user_id session_id : uuid) (content : jdict) : stm Stores EpisodicMemory :=
  previous ← on_episodes (er_get_recent_by_session session_id tenant_id 1);
  embedding ← on_fst (on_embedder (embed (json_dumps true (JObj content))));
  id ← on_fst uuid4;
  timestamp ← on_fst utc_now;
  salience_score ← _score_salience content;
  let episode := mkEpisode id session_id content embedding timestamp salience_score None in
  on_episodes (er_save episode tenant_id);;
  on_episode_index (ei_upsert episode tenant_id);;
  mirror_episode tenant_id user_id session_id content previous episode;;
  mret episode.

(** ** ConsolidateEpisodes *)

Definition _reflect (episodes : list EpisodicMemory) : stm Stores (list FactRecord) :=
  let prompt := (CONSOLIDATION_SYSTEM_PROMPT +:+ nl +:+ nl +:+ format_episodes_for_reflection episodes)%string in
  retry_parse (on_fst (on_chat (cm_complete prompt))) parse_facts caught_value _MAX_REFLECTION_ATTEMPTS [].

(** One round of the loop over the facts. *)
Definition record_consolidated (tenant_id user_id : uuid) (episodes : list EpisodicMemory) (fact : FactRecord) :
  stm Stores SemanticMemory :=
  existing ← on_fst (on_repository (fr_find_by_key user_id (rc_fact_key fact) tenant_id));
  recorded ← on_fst (RecordSemanticFact_execute tenant_id user_id (rc_fact_key fact) (rc_fact_value fact)
    (rc_confidence fact) "consolidation" (existing ≫= sm_valid_until) (existing ≫= sm_archived_at));
  for_each episodes (λ e, best_effort (on_fst (on_graph (gr_link_abstracts_to (ep_id e) (sm_id recorded) tenant_id))));;
  mret recorded.

Definition ConsolidateEpisodes_execute (tenant_id user_id session_id : uuid) (batch_size : Z) :
  stm Stores (list SemanticMemory) :=
  episodes ← on_episodes (er_get_unconsolidated_by_session session_id tenant_id batch_size);
  match episodes with
  | [] => mret []
  | _ =>
      facts_raw ← _reflect episodes;
      written ← for_each facts_raw (record_consolidated tenant_id user_id episodes);
      on_episodes (er_mark_consolidated (map ep_id episodes) tenant_id);;
      mret written
  end.
End writing.

(** ** Procedures *)

Section procedures.
Context {P M : Type} `{ProceduralMemoryRepository P} `{ChatModel M}.

Definition procedure_id (user_id : uuid) (task_pattern : string) : uuid :=
  uuid5 NAMESPACE_OID ("procedural_memory:" +:+ uuid_str user_id +:+ ":" +:+ task_pattern)%string.

Definition RecordProcedure_execute (tenant_id user_id : uuid) (task_pattern : string) (workflow : jdict)
    (success_rate : f64) (last_used : option datetime) : stm P ProceduralMemory :=
  let procedure := mkProcedure (procedure_id user_id task_pattern) user_id task_pattern workflow success_rate last_used in
  pr_save procedure tenant_id;;
  mret procedure.

Definition reflect_procedures (episodes : list EpisodicMemory) : stm (P * M) (list ProcedureRecord) :=
  let prompt := (PROCEDURE_CONSOLIDATION_SYSTEM_PROMPT +:+ nl +:+ nl +:+ format_episodes_for_reflection episodes)%string in
  retry_parse (on_snd (cm_complete prompt)) parse_procedures caught_value _MAX_REFLECTION_ATTEMPTS [].

Definition ConsolidateProcedures_execute (tenant_id user_id : uuid) (episodes : list EpisodicMemory) :
  stm (P * M) (list ProceduralMemory) :=
  match episodes with
  | [] => mret []
  | _ =>
      procedures_raw ← reflect_procedures episodes;
      for_each procedures_raw (λ procedure,
        on_fst (RecordProcedure_execute tenant_id user_id (rp_task_pattern procedure) (rp_workflow procedure)
          (rp_success_rate procedure) None))
  end.
End procedures.

Definition quoted (s : string) : string := (dq +:+ s +:+ dq)%string.

Example facts_last_wins :
  parse_facts ("{" +:+ quoted "facts" +:+ ": [{" +:+ quoted "fact_key" +:+ ": " +:+ quoted "lang " +:+ ", " +:+
      quoted "fact_value" +:+ ": " +:+ quoted "C" +:+ "}, {" +:+ quoted "fact_key" +:+ ": " +:+ quoted "lang" +:+ ", " +:+
      quoted "fact_value" +:+ ": " +:+ quoted "Python" +:+ ", " +:+ quoted "confidence" +:+ ": true}]}")%string
    = Ret [mkFactRecord "lang" "Python" fone].
Proof. vm_compute. reflexivity. Qed.

Example stepless_procedure :
  validate_procedure (JObj [("task_pattern", JStr "deploy"); ("workflow", JObj [("steps", JList [])])])%string
    = Raise (TypeError "workflow.steps must not be an empty list").
Proof. reflexivity. Qed.

Example salience_true : parse_salience ("{" +:+ quoted "salience_score" +:+ ": true}")%string = Raise (TypeError "must be a number").
Proof. vm_compute. reflexivity. Qed.

(** ** What a reply can turn into *)

Section dedupe_facts.
Context {A : Type} (validate : json → res A) (key : A → string).

(** The records under their keys, in the order of their first appearance. *)
Definition last_wins (records : list A) : list (string * A) := foldl (λ d r, od_set (key r) r d) [] records.

Lemma validate_and_dedupe_eq items d out :
  validate_and_dedupe validate key items d = Ret out →
  ∃ records, res_mapM validate items = Ret records ∧ out = map snd (foldl (λ d r, od_set (key r) r d) d records).
Proof.
  revert d. induction items as [|item items IH]; intros d; simpl.
  - intros [= <-]. by exists [].
  - destruct (validate item) as [r|e]; [|done]. simpl. intros Hd. apply IH in Hd as (rs & -> & ->). by exists (r :: rs).
Qed.

(** The records a dict holds, each under its own key. *)
Definition keyed (d : list (string * A)) : Prop := NoDup (od_keys d) ∧ Forall (λ kr, key kr.2 = kr.1) d.

Lemma keyed_set r d : keyed d → keyed (od_set (key r) r d).
Proof.
  intros [Hnd Hall]. split; [by apply od_set_nodup|].
  clear Hnd. induction Hall as [|[k v] d Hk Hall IH]; simpl; [by repeat constructor|].
  case_decide; constructor; simpl; try done.
Qed.

Lemma last_wins_keyed records : keyed (last_wins records).
Proof.
  unfold last_wins. assert (keyed []) as H0 by (split; constructor).
  revert H0. generalize (@nil (string * A)). induction records as [|r l IH]; intros d Hd; simpl; [done|].
  by apply IH, keyed_set.
Qed.

Lemma keyed_keys d : Forall (λ kr, key kr.2 = kr.1) d → map key (map snd d) = od_keys d.
Proof. induction 1 as [|[k v] d Hk Hall IH]; [done|]. simpl in *. by rewrite Hk, IH. Qed.

Lemma od_set_values r (d : list (string * A)) (Q : A → Prop) :
  Q r → Forall Q (map snd d) → Forall Q (map snd (od_set (key r) r d)).
Proof.
  intros Hr. induction d as [|[k v] d IH]; simpl; [by repeat constructor|].
  intros Hd. inversion Hd; subst. case_decide; simpl; constructor; auto.
Qed.

Lemma parse_reflection_records (Q : A → Prop) field reply out :
  (∀ item r, validate item = Ret r → Q r) → parse_reflection validate key field reply = Ret out →
  NoDup (map key out) ∧ Forall Q out.
Proof.
  intros HQ. unfold parse_reflection.
  destruct (json_loads _) as [parsed|e]; [|done]. simpl.
  destruct (json_item parsed field) as [[]|e]; try done. simpl. intros Hout.
  apply validate_and_dedupe_eq in Hout as (rs & Hrs & ->). split.
  - destruct (last_wins_keyed rs) as [Hnd Hall]. unfold last_wins in *. by rewrite keyed_keys.
  - assert (Forall Q rs) as Hall by (by eapply res_mapM_Forall).
    assert (Forall Q (map snd (@nil (string * A)))) as H0 by constructor.
    clear Hrs. revert H0. generalize (@nil (string * A)). induction Hall as [|r rs Hr Hall IH]; intros d Hd; simpl; [done|].
    by apply IH, od_set_values.
Qed.
End dedupe_facts.

Definition fact_record_ok (r : FactRecord) : Prop :=
  (∃ raw, rc_fact_key r = strip raw) ∧ rc_fact_key r ≠ EmptyString ∧ is_blank (rc_fact_value r) = false.

Definition procedure_record_ok (r : ProcedureRecord) : Prop :=
  (∃ raw, rp_task_pattern r = strip raw) ∧ rp_task_pattern r ≠ EmptyString ∧ rp_workflow r ≠ [] ∧
  od_get "steps"%string (rp_workflow r) ≠ Some (JList []) ∧ in_unit (rp_success_rate r).

Lemma not_blank s : is_blank s = false → strip s ≠ EmptyString.
Proof. unfold is_blank. by destruct (String.eqb_spec (strip s) EmptyString). Qed.

Lemma validate_fact_ok item r : validate_fact item = Ret r → fact_record_ok r.
Proof.
  unfold validate_fact. destruct item as [| | | | | |o]; try done.
  destruct (json_item _ "fact_key") as [k|e]; [|done]. cbn [mbind res_bind].
  destruct (json_item _ "fact_value") as [v|e]; [|done]. simpl.
  destruct k as [| | | |k| |]; try done. destruct v as [| | | |v| |]; try (by destruct (is_blank k)).
  destruct (is_blank k) eqn:Hk; [done|]. destruct (is_blank v) eqn:Hv; [done|].
  destruct (py_float _) as [c|e]; [|done]. intros [= <-]. split_and!; [by exists k|by apply not_blank|done].
Qed.

Lemma validate_procedure_ok item r : validate_procedure item = Ret r → procedure_record_ok r.
Proof.
  unfold validate_procedure. destruct item as [| | | | | |o]; try done.
  destruct (json_item _ "task_pattern") as [p|e]; [|done]. cbn [mbind res_bind].
  destruct (json_item _ "workflow") as [w|e]; [|done]. simpl.
  destruct p as [| | | |p| |]; try done. destruct (is_blank p) eqn:Hp; [done|].
  destruct w as [| | | | | |[|kv w]]; try done.
  match goal with |- context [if ?c then Raise (TypeError _) else _] => destruct c eqn:Hsteps; [done|] end.
  destruct (unit_score _) as [x|e] eqn:Hx; [|done]. intros [= <-].
  split_and!; [by exists p|by apply not_blank|done| |by apply unit_score_range in Hx].
  intros Hs. unfold rp_workflow in Hs. by rewrite Hs in Hsteps.
Qed.

Lemma parse_salience_range reply x : parse_salience reply = Ret x → in_unit x.
Proof.
  unfold parse_salience. destruct (json_loads _) as [v|e]; [|done]. cbn [mbind res_bind].
  destruct (json_item v _) as [raw|e]; [|done]. apply unit_score_range.
Qed.

(** Whatever text the language model replies with, what comes out of the
    validators is well typed: a salience is a number in [0, 1]; the facts have
    pairwise distinct non-empty stripped keys and non-blank values; the
    procedures have pairwise distinct non-empty stripped patterns, a workflow
    with something in it whose steps, if it lists any, are not empty, and a
    success rate in [0, 1]. *)
Theorem replies_are_well_typed (reply : string) :
  (∀ x, parse_salience reply = Ret x → in_unit x) ∧
  (∀ l, parse_facts reply = Ret l → NoDup (map rc_fact_key l) ∧ Forall fact_record_ok l) ∧
  (∀ l, parse_procedures reply = Ret l → NoDup (map rp_task_pattern l) ∧ Forall procedure_record_ok l).
Proof.
  split_and!.
  - apply parse_salience_range.
  - intros l. apply parse_reflection_records, validate_fact_ok.
  - intros l. apply parse_reflection_records, validate_procedure_ok.
Qed.

(** ** Capturing *)

Section effects.
Context {R X G E M RE XE : Type} `{SemanticMemoryRepository R} `{SemanticMemoryIndex X}
  `{MemoryGraphRepository G} `{EmbeddingModel E} `{ChatModel M}
  `{EpisodicMemoryRepository RE} `{EpisodicMemoryIndex XE}.
Context (facts : R → uuid → gmap (uuid * string) SemanticMemory)
  (history : R → uuid → list SemanticMemoryHistoryEntry) `{!SemanticMemoryLaws R facts history}.
Context (episodes : RE → uuid → list EpisodicMemory) `{!EpisodicMemoryLaws RE episodes}.
Abbreviation Stores := (MagStores R X G E M * EpisodeStores RE XE)%type (only parsing).

Definition episodes_in (s : Stores) (t : uuid) : list EpisodicMemory := episodes (es_repository s.2) t.

(** Work on the other stores leaves the episodes alone. *)
Lemma on_fst_episodes {A} (m : stm (MagStores R X G E M) A) s : (on_fst m s : res A * Stores).2.2 = s.2.
Proof. unfold on_fst. by destruct (m s.1). Qed.

Definition keeps_episodes {A} (m : stm Stores A) : Prop := ∀ s, (m s).2.2 = s.2.

Lemma keeps_best_effort (m : stm Stores unit) : keeps_episodes m → keeps_episodes (best_effort m).
Proof. intros Hm s. destruct (best_effort_cases m s) as [->|[-> _]]; apply Hm. Qed.

Lemma keeps_bind {A B} (m : stm Stores A) (f : A → stm Stores B) :
  keeps_episodes m → (∀ a, keeps_episodes (f a)) → keeps_episodes (m ≫= f).
Proof.
  intros Hm Hf s. unfold mbind, stm_bind. specialize (Hm s). destruct (m s) as [[a|e] s1]; simpl in *; [|done].
  by rewrite Hf.
Qed.

Lemma keeps_for_each {A B} (l : list A) (body : A → stm Stores B) :
  (∀ a, keeps_episodes (body a)) → keeps_episodes (for_each l body).
Proof.
  intros Hb. induction l as [|x l IH]; cbn [for_each]; [done|].
  apply keeps_bind; [done|]. intros y. by apply keeps_bind.
Qed.

Lemma keeps_retry {A} (ask : stm Stores string) (parse : string → res A) caught n fallback :
  keeps_episodes ask → keeps_episodes (retry_parse ask parse caught n fallback).
Proof.
  intros Hask s. assert (PreOrder (λ s s' : Stores, s'.2 = s.2)) as Hpre.
  { split; [done|]. intros a b c ? ?. congruence. }
  by apply (retry_parse_steps ask parse caught (λ s s', s'.2 = s.2)).
Qed.

Lemma keeps_mirror t u sid content previous e : keeps_episodes (mirror_episode t u sid content previous e).
Proof.
  unfold mirror_episode. pose proof @on_fst_episodes as Hfst.
  repeat (apply keeps_bind; [|intros ?]);
    try (apply keeps_best_effort; intros s; apply Hfst); try done.
  - destruct previous; [done|]. apply keeps_best_effort. intros s. apply Hfst.
  - apply keeps_for_each. intros v. apply keeps_best_effort. intros s. apply Hfst.
Qed.

(** What a computation can raise. *)
Definition raises_only {S A} (P : exn → Prop) (m : stm S A) : Prop := ∀ s x s', m s = (Raise x, s') → P x.

Lemma raises_bind {S A B} P (m : stm S A) (f : A → stm S B) :
  raises_only P m → (∀ a, raises_only P (f a)) → raises_only P (m ≫= f).
Proof.
  intros Hm Hf s x s'. unfold mbind, stm_bind. destruct (m s) as [[a|e] s1] eqn:Hs; [by apply Hf|].
  intros [= -> ->]. by eapply Hm.
Qed.

Lemma raises_for_each {S A B} P (l : list A) (body : A → stm S B) :
  (∀ a, raises_only P (body a)) → raises_only P (for_each l body).
Proof.
  intros Hb. induction l as [|a l IH]; cbn [for_each]; [by intros s x s'|].
  apply raises_bind; [done|]. intros y. apply raises_bind; [done|]. by intros ys s x s'.
Qed.

Lemma raises_best_effort {S} (P : exn → Prop) (m : stm S unit) : P CancelledError → raises_only P (best_effort m).
Proof. intros HP s x s'. destruct (best_effort_cases m s) as [->|[-> _]]; [done|]. by intros [= <- _]. Qed.

Lemma mirror_raises t u sid content previous e :
  raises_only (λ x, x = CancelledError ∨ py_iter (dict_get "entities" (JList []) content) = Raise x)
    (mirror_episode t u sid content previous e : stm Stores unit).
Proof.
  unfold mirror_episode.
  repeat (apply raises_bind; [|intros ?]);
    try (by apply raises_best_effort; left); try (by intros s x s').
  - destruct previous; [by intros s x s'|]. by apply raises_best_effort; left.
  - intros s x s'. unfold lift_res. intros [= Hx _]. by right.
  - apply raises_for_each. intros v. by apply raises_best_effort; left.
Qed.

Lemma fallback_in_unit : in_unit fzero.
Proof. split; reflexivity. Qed.

Lemma score_salience_in_unit content (s s' : Stores) x : _score_salience content s = (Ret x, s') → in_unit x.
Proof.
  intros Hx. apply retry_parse_result in Hx as [->|[reply Hr]]; [apply fallback_in_unit|].
  by eapply parse_salience_range.
Qed.

Lemma on_episodes_read {A} t (m : stm RE A) good (s s' : Stores) r :
  reads (λ x x', episodes x' t = episodes x t) m good → on_episodes m s = (r, s') →
  episodes_in s' t = episodes_in s t ∧ s'.1 = s.1 ∧ ∀ a, r = Ret a → good (es_repository s.2) a.
Proof.
  intros Hm. specialize (Hm (es_repository s.2)). unfold on_episodes, on_snd.
  destruct (m (es_repository s.2)) as [[a|e] x'] eqn:Hx; intros [= <- <-]; unfold episodes_in; simpl.
  - destruct Hm as [Hg Hs]. split_and!; [done..|]. by intros ? [= <-].
  - by split_and!.
Qed.

Lemma on_episode_index_keeps {A} (m : stm XE A) t (s s' : Stores) r :
  on_episode_index m s = (r, s') → episodes_in s' t = episodes_in s t ∧ r = (m (es_index s.2)).1.
Proof. unfold on_episode_index, on_snd. by destruct (m _) as [a x] eqn:Hm; intros [= <- <-]. Qed.

Lemma on_episodes_save e t (s s' : Stores) r :
  on_episodes (er_save e t) s = (r, s') →
  (episodes_in s' t = episodes_in s t ∧ ∃ x, r = Raise x) ∨
  (episodes_in s' t = episodes_in s t ++ [with_consolidated_at None e] ∧ r = Ret tt).
Proof.
  pose proof (er_save_spec (episodes := episodes) e t (es_repository s.2)) as Hs. unfold on_episodes, on_snd.
  destruct (er_save e t _) as [[[]|x] p'] eqn:Hm; intros [= <- <-]; [by right|left; eauto].
Qed.

Lemma capture_spec (t u sid : uuid) (content : jdict) (s : Stores) :
  let '(r, s') := CaptureEpisode_execute t u sid content s in
  (episodes_in s' t = episodes_in s t ∧ ∃ x, r = Raise x) ∨
  ∃ e, episodes_in s' t = episodes_in s t ++ [e] ∧
    ep_session_id e = sid ∧ ep_content e = content ∧ ep_consolidated_at e = None ∧ in_unit (ep_salience_score e) ∧
    (r = Ret e ∨ ∃ x, r = Raise x ∧
      (x = CancelledError ∨ py_iter (dict_get "entities" (JList []) content) = Raise x ∨
       ∃ i, (ei_upsert e t i).1 = Raise x)).
Proof.
  destruct (CaptureEpisode_execute t u sid content s) as [r s'] eqn:Hrun. unfold CaptureEpisode_execute in Hrun.
  assert (Hfst : ∀ A (m : stm (MagStores R X G E M) A), keeps_episodes (on_fst m)) by (intros ? ? ?; apply on_fst_episodes).
  assert (Hkeep : ∀ {A} (m : stm Stores A) x rx x', keeps_episodes m → m x = (rx, x') → episodes_in x' t = episodes_in x t).
  { intros A m x rx x' Hk Hm. specialize (Hk x). rewrite Hm in Hk. unfold episodes_in. simpl in Hk. by rewrite Hk. }
  apply stm_bind_case in Hrun as [(x & -> & K1)|(previous & s1 & K1 & Hrun)];
    apply (on_episodes_read t _ _ _ _ _ (er_recent_spec (episodes := episodes) sid t 1)) in K1 as (K1 & _ & _); [by left; eauto|].
  apply stm_bind_case in Hrun as [(x & -> & K2)|(embedding & s2 & K2 & Hrun)];
    apply Hkeep in K2; [|by auto| |by auto]; [left; split; [congruence|eauto]|].
  apply stm_bind_case in Hrun as [(x & -> & K3)|(id & s3 & K3 & Hrun)];
    apply Hkeep in K3; [|by auto| |by auto]; [left; split; [congruence|eauto]|].
  apply stm_bind_case in Hrun as [(x & -> & K4')|(now & s4 & K4' & Hrun)];
    apply Hkeep in K4'; [|by auto| |by auto]; [left; split; [congruence|eauto]|].
  apply stm_bind_case in Hrun as [(x & -> & Hsal)|(salience & s5 & Hsal & Hrun)].
  { apply Hkeep in Hsal; [|by apply keeps_retry]. left; split; [congruence|eauto]. }
  pose proof (score_salience_in_unit _ _ _ _ Hsal) as Hunit. apply Hkeep in Hsal; [|by apply keeps_retry].
  cbv zeta in Hrun. set (e := mkEpisode id sid content embedding now salience None) in Hrun.
  apply stm_bind_case in Hrun as [(x & -> & Hsave)|([] & s6 & Hsave & Hrun)];
    apply on_episodes_save in Hsave as [[Hsave Hr]|[Hsave Hr]]; try done.
  { left; split; [congruence|eauto]. }
  { by destruct Hr. }
  right. exists e. assert (episodes_in s6 t = episodes_in s t ++ [e]) as Hs6.
  { rewrite Hsave. unfold with_consolidated_at. simpl. by rewrite Hsal, K4', K3, K2, K1. }
  apply stm_bind_case in Hrun as [(x & -> & Hidx)|([] & s7 & Hidx & Hrun)];
    apply (on_episode_index_keeps _ t) in Hidx as [Hidx Hix].
  { split_and!; try done; [congruence|]. right. exists x. split; [done|]. right; right. by exists (es_index s6.2). }
  apply stm_bind_case in Hrun as [(x & -> & Hg)|([] & s8 & Hg & Hrun)].
  - pose proof (mirror_raises _ _ _ _ _ _ _ _ _ Hg) as Hx. apply Hkeep in Hg; [|apply keeps_mirror].
    split_and!; try done; [congruence|]. right. exists x. split; [done|]. destruct Hx; auto.
  - apply Hkeep in Hg; [|apply keeps_mirror]. injection Hrun as <- <-.
    split_and!; try done; [congruence|]. by left.
Qed.

(** A capture either raises and leaves the tenant's episodes as they were,
    or appends to them exactly one unconsolidated episode with the session and
    the content it was given and a salience in [0, 1], whatever the model
    replied.  Once the episode is saved the graph cannot undo or mask it: the
    capture returns that episode unless it is cancelled, the vector index
    refuses it, or the content's entities are not something to iterate over. *)
Theorem capture_saves_the_episode (t u sid : uuid) (content : jdict) (s : Stores) :
  let '(r, s') := CaptureEpisode_execute t u sid content s in
  (episodes_in s' t = episodes_in s t ∧ ∃ x, r = Raise x) ∨
  ∃ e, episodes_in s' t = episodes_in s t ++ [e] ∧
    ep_session_id e = sid ∧ ep_content e = content ∧ ep_consolidated_at e = None ∧ in_unit (ep_salience_score e) ∧
    (r = Ret e ∨ ∃ x, r = Raise x ∧
      (x = CancelledError ∨ py_iter (dict_get "entities" (JList []) content) = Raise x ∨
       ∃ i, (ei_upsert e t i).1 = Raise x)).
Proof. apply capture_spec. Qed.

(** ** Consolidating *)

(** Neither the tenant's facts and history nor the episodes move. *)
Definition leaves_memories (t : uuid) {A} (m : stm Stores A) : Prop :=
  ∀ s, (m s).2.2 = s.2 ∧ same_facts facts history t s.1 (m s).2.1.

Lemma leaves_bind t {A B} (m : stm Stores A) (f : A → stm Stores B) :
  leaves_memories t m → (∀ a, leaves_memories t (f a)) → leaves_memories t (m ≫= f).
Proof.
  intros Hm Hf s. unfold mbind, stm_bind. specialize (Hm s) as [He Hs]. destruct (m s) as [[a|e] s1]; simpl in *; [|done].
  destruct (Hf a s1) as [He' Hs']. split; [congruence|]. by etransitivity.
Qed.

Lemma leaves_for_each t {A B} (l : list A) (body : A → stm Stores B) :
  (∀ a, leaves_memories t (body a)) → leaves_memories t (for_each l body).
Proof.
  intros Hb. induction l as [|x l IH]; cbn [for_each]; [done|].
  apply leaves_bind; [done|]. intros y. by apply leaves_bind.
Qed.

Lemma leaves_best_effort t (m : stm Stores unit) : leaves_memories t m → leaves_memories t (best_effort m).
Proof. intros Hm s. destruct (best_effort_cases m s) as [->|[-> _]]; apply Hm. Qed.

Lemma leaves_on_fst t {A} (m : stm (MagStores R X G E M) A) :
  (∀ s, same_facts facts history t s (m s).2) → leaves_memories t (on_fst m).
Proof. intros Hm s. unfold on_fst. specialize (Hm s.1). by destruct (m s.1). Qed.

Lemma leaves_retry t {A} (ask : stm Stores string) (parse : string → res A) caught n fallback :
  leaves_memories t ask → leaves_memories t (retry_parse ask parse caught n fallback).
Proof.
  intros Hask s.
  assert (PreOrder (λ s s' : Stores, s'.2 = s.2 ∧ same_facts facts history t s.1 s'.1)) as Hpre.
  { split; [done|]. intros a b c [? ?] [? ?]. split; [congruence|]. by etransitivity. }
  by apply (retry_parse_steps ask parse caught (λ s s', s'.2 = s.2 ∧ same_facts facts history t s.1 s'.1)).
Qed.

(** What a consolidated fact is: the record, with the status of what it replaces. *)
Record consolidated_from (u : uuid) (old : option SemanticMemory) (fact : FactRecord) (f : SemanticMemory) : Prop := {
  cf_user : sm_user_id f = u;
  cf_key : sm_fact_key f = rc_fact_key fact;
  cf_value : sm_fact_value f = rc_fact_value fact;
  cf_confidence : sm_confidence f = rc_confidence fact;
  cf_source : sm_source f = "consolidation"%string;
  cf_valid_until : sm_valid_until f = old ≫= sm_valid_until;
  cf_archived_at : sm_archived_at f = old ≫= sm_archived_at
}.

Abbreviation facts_at s t := (facts_in facts s.1 t).

Lemma record_consolidated_spec t u batch fact (s s' : Stores) r :
  record_consolidated t u batch fact s = (r, s') →
  s'.2 = s.2 ∧ ∀ f, r = Ret f →
    consolidated_from u (facts_at s t !! (u, rc_fact_key fact)) fact f ∧
    facts_at s' t = <[(u, rc_fact_key fact) := f]> (facts_at s t) ∧
    history_in history s'.1 t = history_in history s.1 t.
Proof.
  unfold record_consolidated. intros Hrun.
  destruct (find_fact_spec facts history u (rc_fact_key fact) t s.1) as (s1 & Hfind & Hf1 & Hh1).
  apply stm_bind_case in Hrun as [(x & -> & Hrun)|(existing & s2 & Hex & Hrun)].
  { unfold on_fst in Hrun. by rewrite Hfind in Hrun. }
  unfold on_fst in Hex. rewrite Hfind in Hex. injection Hex as <- <-.
  set (old := facts_in facts s.1 t !! (u, rc_fact_key fact)) in *.
  pose proof (record_spec facts history t u (rc_fact_key fact) (rc_fact_value fact) (rc_confidence fact)
    "consolidation" ((no_embedding <$> old) ≫= sm_valid_until) ((no_embedding <$> old) ≫= sm_archived_at) s1) as Hrec.
  apply stm_bind_case in Hrun as [(x & -> & Hrun)|(f & s3 & Hw & Hrun)].
  { unfold on_fst in Hrun. destruct (RecordSemanticFact_execute _ _ _ _ _ _ _ _ _). by injection Hrun as _ <-. }
  unfold on_fst in Hw. cbn [fst snd] in Hw.
  destruct (RecordSemanticFact_execute _ _ _ _ _ _ _ _ _) as [rw sw]. injection Hw as -> <-.
  assert (leaves_memories t (for_each batch (λ e, best_effort
    (on_fst (on_graph (gr_link_abstracts_to (ep_id e) (sm_id f) t)) : stm Stores unit));; mret f)) as Hlinks.
  { apply leaves_bind; [|by intros ? ?]. apply leaves_for_each. intros e.
    apply leaves_best_effort, leaves_on_fst. intros ?. apply on_graph_same. }
  specialize (Hlinks (sw, s.2)). rewrite Hrun in Hlinks. destruct Hlinks as [He [Hf3 Hh3]]. cbn [fst snd] in *.
  split; [done|]. intros f' ->.
  destruct Hrec as [[_ [e Hr]]|(emb & Hfw & Hhw & Hr)]; [done|].
  destruct Hr as [[e Hr]|[= ->]]; [done|].
  assert (f' = mkFact (fact_id u (rc_fact_key fact)) u (rc_fact_key fact) (rc_fact_value fact) emb (rc_confidence fact)
    "consolidation" ((no_embedding <$> old) ≫= sm_valid_until) ((no_embedding <$> old) ≫= sm_archived_at)) as ->.
  { apply stm_bind_case in Hrun as [(? & ? & _)|(? & ? & _ & Hret)]; [done|]. by injection Hret. }
  split; [|by rewrite Hf3, Hfw, Hf1, Hh3, Hhw, Hh1].
  split; try done; by destruct old.
Qed.

(** The facts written, one after the other. *)
Definition written_over (old : gmap (uuid * string) SemanticMemory) (l : list SemanticMemory) :
  gmap (uuid * string) SemanticMemory := foldl (λ m f, <[(sm_user_id f, sm_fact_key f) := f]> m) old l.

Lemma record_all_spec t u batch l (s s' : Stores) r :
  NoDup (map rc_fact_key l) → for_each l (record_consolidated t u batch) s = (r, s') →
  s'.2 = s.2 ∧ ∀ written, r = Ret written →
    Forall2 (λ fact f, consolidated_from u (facts_at s t !! (u, rc_fact_key fact)) fact f) l written ∧
    facts_at s' t = written_over (facts_at s t) written ∧
    history_in history s'.1 t = history_in history s.1 t.
Proof.
  revert s r s'. induction l as [|fact l IH]; intros s r s' Hnd Hrun; cbn [for_each] in Hrun.
  { injection Hrun as <- <-. split; [done|]. intros w [= <-]. by split_and!; constructor. }
  cbn [map] in Hnd. apply NoDup_cons in Hnd as [Hfresh Hnd].
  apply stm_bind_case in Hrun as [(x & -> & Hr1)|(f & s1 & Hr1 & Hrun)].
  { by apply record_consolidated_spec in Hr1 as [? _]. }
  apply record_consolidated_spec in Hr1 as [He1 Hf]. destruct (Hf f eq_refl) as (Hfrom & Hfacts & Hh).
  apply stm_bind_case in Hrun as [(x & -> & Hr2)|(fs & s2 & Hr2 & Hret)].
  { apply IH in Hr2 as [? _]; [|done]. split; [congruence|done]. }
  apply IH in Hr2 as [He2 Hfs]; [|done]. destruct (Hfs fs eq_refl) as (Hall & Hfacts2 & Hh2).
  injection Hret as <- <-. split; [congruence|]. intros w [= <-]. split_and!; [|..].
  - constructor; [done|]. eapply Forall2_impl_in; [exact Hall|]. intros fact' f' Hin _ Hc. rewrite Hfacts in Hc.
    rewrite lookup_insert_ne in Hc; [done|]. intros [= Hkey]. apply Hfresh. rewrite Hkey.
    by apply list_elem_of_fmap_2.
  - destruct Hfrom as [Hu Hk _ _ _ _ _]. rewrite Hfacts2, Hfacts. simpl. by rewrite Hu, Hk.
  - congruence.
Qed.

Lemma reflect_outcome t batch (s s' : Stores) r :
  _reflect batch s = (r, s') → s'.2 = s.2 ∧ same_facts facts history t s.1 s'.1 ∧
    ∀ l, r = Ret l → NoDup (map rc_fact_key l) ∧ Forall fact_record_ok l.
Proof.
  intros Hrun. unfold _reflect in Hrun. assert (leaves_memories t (_reflect batch)) as Hl.
  { apply leaves_retry, leaves_on_fst. intros ?. apply on_chat_same. }
  specialize (Hl s). unfold _reflect in Hl. rewrite Hrun in Hl. destruct Hl as [He Hs]. split_and!; [done..|].
  intros l ->. apply retry_parse_result in Hrun as [->|[reply Hr]]; [by split; constructor|].
  revert Hr. apply parse_reflection_records, validate_fact_ok.
Qed.

(** The unconsolidated episodes of a session. *)
Definition backlog (sid t : uuid) (s : Stores) : list EpisodicMemory :=
  filter unconsolidated (filter (in_session sid) (episodes_in s t)).

Lemma on_episodes_mark ids t (s s' : Stores) r :
  on_episodes (er_mark_consolidated ids t) s = (r, s') → s'.1 = s.1 ∧
  ((∃ x, r = Raise x) ∧ episodes_in s' t = episodes_in s t ∨
   r = Ret tt ∧ ∃ now, episodes_in s' t = map (marked ids now) (episodes_in s t)).
Proof.
  pose proof (er_mark_spec (episodes := episodes) ids t (es_repository s.2)) as Hs. unfold on_episodes, on_snd.
  destruct (er_mark_consolidated ids t _) as [[[]|x] p'] eqn:Hm; intros [= <- <-]; (split; [done|]); [by right|left; eauto].
Qed.

Lemma marked_nothing now l : map (marked [] now) l = l.
Proof. erewrite map_ext; [apply map_id|]. intros e. unfold marked. by rewrite decide_False by apply not_elem_of_nil. Qed.

Lemma consolidate_spec (t u sid : uuid) (b : Z) (s s' : Stores) r :
  ConsolidateEpisodes_execute t u sid b s = (r, s') →
  match r with
  | Raise _ => episodes_in s' t = episodes_in s t
  | Ret written => ∃ batch now facts_raw,
      0 ≤ b ∧ picks oldest_first b (backlog sid t s) batch ∧ episodes_in s' t = map (marked (map ep_id batch) now) (episodes_in s t) ∧
      (batch = [] → facts_raw = []) ∧ NoDup (map rc_fact_key facts_raw) ∧ Forall fact_record_ok facts_raw ∧
      Forall2 (λ fact f, consolidated_from u (facts_at s t !! (u, rc_fact_key fact)) fact f) facts_raw written ∧
      facts_at s' t = written_over (facts_at s t) written ∧
      history_in history s'.1 t = history_in history s.1 t
  end.
Proof.
  intros Hrun. unfold ConsolidateEpisodes_execute in Hrun.
  apply stm_bind_case in Hrun as [(x & -> & Hr1)|(got & s1 & Hr1 & Hrun)];
    apply (on_episodes_read t _ _ _ _ _ (er_unconsolidated_spec (episodes := episodes) sid t b)) in Hr1 as (He1 & Hm1 & Hgot);
    [done|].
  destruct (Hgot got eq_refl) as (Hb & batch & -> & Hpick). clear Hgot.
  assert (map ep_id (map ep_no_embedding batch) = map ep_id batch) as Hids by (by rewrite map_map).
  destruct (decide (batch = [])) as [->|Hne].
  { injection Hrun as <- <-. exists [], 0, []. rewrite marked_nothing, Hm1. split_and!; try done; constructor. }
  assert (∀ (a c : stm Stores (list SemanticMemory)), match map ep_no_embedding batch with [] => a | _ => c end = c) as Hmatch.
  { by destruct batch. }
  rewrite Hmatch in Hrun. clear Hmatch.
  apply stm_bind_case in Hrun as [(x & -> & Hr2)|(facts_raw & s2 & Hr2 & Hrun)];
    apply (reflect_outcome t) in Hr2 as (He2 & [Hf2 Hh2] & Hraw).
  { unfold episodes_in in *. by rewrite He2. }
  destruct (Hraw facts_raw eq_refl) as [Hnd Hok]. clear Hraw.
  apply stm_bind_case in Hrun as [(x & -> & Hr3)|(written & s3 & Hr3 & Hrun)];
    apply record_all_spec in Hr3 as [He3 Hw]; try done.
  { unfold episodes_in in *. by rewrite He3, He2. }
  destruct (Hw written eq_refl) as (Hall & Hf3 & Hh3). clear Hw.
  assert (episodes_in s3 t = episodes_in s t) as Hs3 by (unfold episodes_in in *; by rewrite He3, He2).
  apply stm_bind_case in Hrun as [(x & -> & Hr4)|([] & s4 & Hr4 & Hret)];
    apply on_episodes_mark in Hr4 as [Hm4 [[[y Hy] Hs4]|[Hy [now Hs4]]]]; try done; [congruence|].
  injection Hret as <- <-. exists batch, now, facts_raw. rewrite Hids, Hs3 in Hs4.
  rewrite Hm4, Hf3, Hh3, Hf2, Hh2, Hm1. rewrite Hf2, Hm1 in Hall.
  by split_and!.
Qed.

(** A consolidation that returns has reflected on a batch of the oldest
    unconsolidated episodes of the session, at most as many as asked for: those
    episodes, and no others, are consolidated now; the tenant's facts are the
    old ones overwritten with the facts it reports, whose keys are distinct
    and whose confidence, value and user are those of the validated reply; a
    fact that was invalidated or archived still is; the history is untouched.
    A consolidation that raises leaves every episode as it was. *)
Theorem consolidation_takes_a_batch (t u sid : uuid) (b : Z) (s : Stores) :
  let '(r, s') := ConsolidateEpisodes_execute t u sid b s in
  match r with
  | Raise _ => episodes_in s' t = episodes_in s t
  | Ret written => ∃ batch now facts_raw,
      picks oldest_first b (backlog sid t s) batch ∧
      episodes_in s' t = map (marked (map ep_id batch) now) (episodes_in s t) ∧
      (batch = [] → facts_raw = []) ∧ NoDup (map rc_fact_key facts_raw) ∧ Forall fact_record_ok facts_raw ∧
      Forall2 (λ fact f, consolidated_from u (facts_at s t !! (u, rc_fact_key fact)) fact f) facts_raw written ∧
      facts_at s' t = written_over (facts_at s t) written ∧
      history_in history s'.1 t = history_in history s.1 t
  end.
Proof.
  destruct (ConsolidateEpisodes_execute t u sid b s) as [r s'] eqn:Hrun. apply consolidate_spec in Hrun.
  destruct r as [written|e]; [|done]. destruct Hrun as (batch & now & raw & _ & Hrun). by exists batch, now, raw.
Qed.

(** *** The backlog drains *)

Lemma backlog_marked sid ids now l :
  length (filter unconsolidated (filter (in_session sid) (map (marked ids now) l)))
    = length (filter (λ e, ep_id e ∉ ids) (filter unconsolidated (filter (in_session sid) l))).
Proof.
  induction l as [|e l IH]; [done|]. cbn [map]. rewrite !filter_cons.
  assert (in_session sid (marked ids now e) ↔ in_session sid e) as Hs by (unfold marked; by case_decide).
  destruct (decide (in_session sid e)) as [He|He]; cycle 1.
  { rewrite decide_False by (by rewrite Hs). done. }
  rewrite decide_True by (by rewrite Hs). rewrite !filter_cons.
  assert (unconsolidated (marked ids now e) ↔ unconsolidated e ∧ ep_id e ∉ ids) as Hu.
  { unfold marked. case_decide; [split; [done|tauto]|tauto]. }
  destruct (decide (unconsolidated e)) as [Hun|Hun]; [|by rewrite decide_False by tauto].
  rewrite filter_cons. destruct (decide (ep_id e ∉ ids)) as [Hid|Hid].
  - rewrite decide_True by tauto. cbn [length]. by rewrite IH.
  - by rewrite decide_False by tauto.
Qed.

Lemma consolidated_backlog sid t b batch now (s s' : Stores) :
  0 ≤ b → picks oldest_first b (backlog sid t s) batch →
  episodes_in s' t = map (marked (map ep_id batch) now) (episodes_in s t) →
  (length (backlog sid t s') ≤ length (backlog sid t s) - Z.to_nat b)%nat.
Proof.
  intros Hb (all & Hperm & _ & ->) Hs'. unfold backlog at 1. rewrite Hs', backlog_marked.
  fold (backlog sid t s). rewrite <- Hperm.
  rewrite <- length_drop. set (ids := map ep_id (take (Z.to_nat b) all)).
  assert (filter (λ e, ep_id e ∉ ids) all = filter (λ e, ep_id e ∉ ids) (drop (Z.to_nat b) all)) as ->; [|apply length_filter].
  rewrite <- (take_drop (Z.to_nat b) all) at 1. rewrite filter_app, list_filter_none; [done|].
  apply list.Forall_forall. intros e He Hout. apply Hout. by apply list_elem_of_fmap_2.
Qed.

(** A call that returns, in any state of a good kind, a state of that kind. *)
Definition serves {S A} (I : S → Prop) (m : stm S A) : Prop := ∀ s, I s → ∃ a s', m s = (Ret a, s') ∧ I s'.

Lemma serves_ret {S A} (I : S → Prop) (a : A) : serves I (mret a : stm S A).
Proof. intros s Hs. by exists a, s. Qed.

Lemma serves_bind {S A B} (I : S → Prop) (m : stm S A) (f : A → stm S B) :
  serves I m → (∀ a, serves I (f a)) → serves I (m ≫= f).
Proof.
  intros Hm Hf s Hs. destruct (Hm s Hs) as (a & s1 & Ha & Hs1). destruct (Hf a s1 Hs1) as (b & s2 & Hb & Hs2).
  exists b, s2. split; [|done]. by rewrite (stm_bind_eq _ _ _ _ _ Ha).
Qed.

Lemma serves_for_each {S A B} (I : S → Prop) (l : list A) (body : A → stm S B) :
  (∀ a, a ∈ l → serves I (body a)) → serves I (for_each l body).
Proof.
  induction l as [|x l IH]; intros Hb; cbn [for_each]; [apply serves_ret|].
  apply serves_bind; [apply Hb; in_list|]. intros y. apply serves_bind; [apply IH; intros a Ha; apply Hb; in_list|].
  intros ys. apply serves_ret.
Qed.

Context (up : MagStores R X G E M → Prop) (eup : EpisodeStores RE XE → Prop).
Definition all_up (s : Stores) : Prop := up s.1 ∧ eup s.2.

(** Services that answer: no store raises, no graph write is cancelled, and the
    model's replies parse or fail in a way the retry loop catches. *)
Record services_up (t u sid : uuid) (b : Z) : Prop := {
  up_read : serves all_up (on_episodes (er_get_unconsolidated_by_session sid t b));
  up_mark ids : serves all_up (on_episodes (er_mark_consolidated ids t));
  up_find k : serves up (on_repository (fr_find_by_key u k t));
  up_save f : sm_user_id f = u → serves up (on_repository (fr_save f t));
  up_embed text : serves up (on_embedder (embed text));
  up_index f : serves up (on_index (si_upsert f t));
  up_node f : serves up (best_effort (on_graph (gr_upsert_fact_node f t)));
  up_link e f : serves up (best_effort (on_graph (gr_link_abstracts_to e f t)));
  up_chat prompt m : up m → ∃ reply m', on_chat (cm_complete prompt) m = (Ret reply, m') ∧ up m' ∧
    ∀ e, parse_facts reply = Raise e → caught_value e = true
}.

Lemma serves_on_fst {A} (m : stm (MagStores R X G E M) A) : serves up m → serves all_up (on_fst m).
Proof.
  intros Hm [s1 s2] [H1' H2']. destruct (Hm s1 H1') as (a & s' & Ha & Hs'). exists a, (s', s2). split; [|done].
  unfold on_fst. cbn [fst snd]. by rewrite Ha.
Qed.

Lemma best_effort_on_fst (m : stm (MagStores R X G E M) unit) (s : Stores) :
  best_effort (on_fst m) s = on_fst (best_effort m) s.
Proof. unfold best_effort, on_fst. by destruct (m s.1) as [[|[]] ?]. Qed.

Lemma reflect_serves t u sid b batch : services_up t u sid b → serves all_up (_reflect batch).
Proof.
  intros Hup. unfold _reflect. generalize _MAX_REFLECTION_ATTEMPTS as n.
  induction n as [|n IH]; cbn [retry_parse]; intros s Hs; [by exists [], s|].
  set (prompt := (_ +:+ _)%string). destruct s as [s1 s2]. destruct Hs as [Hs1 Hs2].
  destruct (up_chat _ _ _ _ Hup prompt s1 Hs1) as (reply & s1' & Hreply & Hs1' & Hcaught).
  assert (on_fst (on_chat (cm_complete prompt)) (s1, s2) = (Ret reply, (s1', s2))) as Hask.
  { unfold on_fst. cbn [fst snd]. by rewrite Hreply. }
  rewrite (stm_bind_eq _ _ _ _ _ Hask). destruct (parse_facts reply) as [l|e] eqn:Hp.
  - exists l, (s1', s2). done.
  - rewrite (Hcaught e eq_refl). by apply IH.
Qed.

Lemma consolidate_serves t u sid b : services_up t u sid b → serves all_up (ConsolidateEpisodes_execute t u sid b).
Proof.
  intros Hup. unfold ConsolidateEpisodes_execute. apply serves_bind; [by eapply up_read|]. intros got.
  destruct got as [|e0 rest]; [apply serves_ret|]. generalize (e0 :: rest). intros batch.
  apply serves_bind; [by eapply reflect_serves|]. intros raw.
  apply serves_bind; [|intros written; apply serves_bind; [by eapply up_mark|intros []; apply serves_ret]].
  apply serves_for_each. intros fact _. unfold record_consolidated.
  apply serves_bind; [apply serves_on_fst; by eapply up_find|]. intros existing.
  apply serves_bind; [apply serves_on_fst|intros recorded; apply serves_bind; [|intros _; apply serves_ret]].
  - unfold RecordSemanticFact_execute. apply serves_bind; [by eapply up_embed|]. intros emb.
    apply serves_bind; [by eapply up_save|]. intros _. apply serves_bind; [by eapply up_index|]. intros _.
    apply serves_bind; [by eapply up_node|]. intros _. apply serves_ret.
  - apply serves_for_each. intros e _ s Hs. rewrite best_effort_on_fst. apply serves_on_fst; [by eapply up_link|done].
Qed.


(** *** A number too large for a float blocks it for ever *)

Lemma overflow_raises t u sid b (s : Stores) :
  (∀ prompt x, ∃ reply x', cm_complete prompt x = (Ret reply, x') ∧ parse_facts reply = Raise OverflowError) →
  1 ≤ b → backlog sid t s ≠ [] → ∃ e, (ConsolidateEpisodes_execute t u sid b s).1 = Raise e.
Proof.
  intros Hchat Hb Hne. unfold ConsolidateEpisodes_execute.
  destruct (on_episodes (er_get_unconsolidated_by_session sid t b) s) as [rr s1] eqn:Hr.
  pose proof (on_episodes_read t _ _ _ _ _ (er_unconsolidated_spec (episodes := episodes) sid t b) Hr) as (_ & _ & Hgot).
  unfold mbind at 1, stm_bind at 1. rewrite Hr. destruct rr as [got|e]; [|by exists e].
  destruct (Hgot got eq_refl) as (_ & batch & -> & all & Hperm & _ & ->).
  assert (take (Z.to_nat b) all ≠ []) as Hbatch.
  { intros Hnil. apply Hne. apply Permutation_nil. rewrite <- Hperm. destruct all; [done|].
    destruct (Z.to_nat b) eqn:Hn; [lia|done]. }
  destruct (take (Z.to_nat b) all) as [|e0 rest]; [done|]. cbn [map].
  unfold _reflect at 1, _MAX_REFLECTION_ATTEMPTS. cbn [retry_parse].
  set (prompt := (_ +:+ _)%string). destruct (Hchat prompt (ms_chat s1.1)) as (reply & x' & Hx & Hparse).
  unfold mbind at 1, stm_bind at 1, mbind at 1, stm_bind at 1, on_fst at 1, on_chat at 1. rewrite Hx, Hparse. by exists OverflowError.
Qed.

(** A model that reports a confidence the JSON spells as an integer too
    large for a float is not retried and not skipped: float() raises an
    OverflowError that the retry loop does not catch.  As long as it does, a
    session with a backlog raises on every consolidation and not one of its
    episodes is ever consolidated. *)
Theorem huge_confidence_blocks_consolidation (t u sid : uuid) (b : Z) (n : nat) (s : Stores) :
  (∀ prompt x, ∃ reply x', cm_complete prompt x = (Ret reply, x') ∧ parse_facts reply = Raise OverflowError) →
  1 ≤ b → backlog sid t s ≠ [] →
  let s' := Nat.iter n (λ s, (ConsolidateEpisodes_execute t u sid b s).2) s in
  episodes_in s' t = episodes_in s t ∧ ∃ e, (ConsolidateEpisodes_execute t u sid b s').1 = Raise e.
Proof.
  intros Hchat Hb Hne. cbv zeta. induction n as [|n [IH [e He]]]; [split; [done|by apply overflow_raises]|]. simpl.
  set (s1 := Nat.iter n _ s) in *. destruct (ConsolidateEpisodes_execute t u sid b s1) as [r s2] eqn:Hrun. simpl in *. subst r.
  apply consolidate_spec in Hrun. rewrite Hrun, IH. split; [done|]. apply overflow_raises; [done..|].
  unfold backlog in *. by rewrite Hrun, IH.
Qed.
End effects.

(** ** The stores of the witnesses *)

(** A model that always says the same. *)
Record Parrot : Type := mkParrot { says : string }.
#[local] Instance parrot_chat : ChatModel Parrot := {|
  cm_generate _ _ := λ p, (Ret (says p), p);
  cm_complete _ := λ p, (Ret (says p), p)
|}.

Definition sample_distance (a b : list f64) : f64 :=
  match cosine_similarity a b with Ret x => fsub fone x | Raise _ => fone end.
#[local] Instance sample_facts : SemanticMemoryRepository PostgresFacts := postgres_semantic_memory sample_distance.
#[local] Instance sample_fact_laws : SemanticMemoryLaws PostgresFacts facts_of history_of := postgres_semantic_laws sample_distance.
#[local] Instance sample_episodes : EpisodicMemoryRepository PostgresEpisodes :=
  postgres_episodic_memory sample_distance (λ c, json_dumps true (JObj c)) ascii_lower (λ _, true).
#[local] Instance sample_episode_laws : EpisodicMemoryLaws PostgresEpisodes visible_episodes :=
  postgres_episodic_laws sample_distance (λ c, json_dumps true (JObj c)) ascii_lower (λ _, true).

Definition old_episode (id : uuid) (at_ : datetime) : EpisodicMemory :=
  mkEpisode id 5 [("input"%string, JStr "hello")] [fone] at_ fzero None.

Abbreviation Sample := (MagStores PostgresFacts Sink Sink LengthEmbedder Parrot * EpisodeStores PostgresEpisodes Sink)%type (only parsing).

(** Tenant 1, session 5 with two episodes, the graph down. *)
Definition sample (reply : string) : Sample :=
  (mkStores (mkPgFacts ∅ [] 1 1000) (mkSink true 0) (mkSink false 0) (mkLengthEmbedder 0) (mkParrot reply) 1000
     (λ n, 100 + Z.of_nat n) 0,
   mkEpisodeStores (mkPgEpisodes [mkEpisodeRow 1 (old_episode 21 20); mkEpisodeRow 1 (old_episode 22 10)] 1 1000)
     (mkSink true 0)).

Definition facts_reply (confidence : string) : string :=
  ("{" +:+ quoted "facts" +:+ ": [{" +:+ quoted "fact_key" +:+ ": " +:+ quoted "lang" +:+ ", " +:+
      quoted "fact_value" +:+ ": " +:+ quoted "C" +:+ ", " +:+ quoted "confidence" +:+ ": " +:+ confidence +:+ "}]}")%string.

Lemma capture_saves_the_episode_witness :
  let s := sample "not json" in
  let '(r, s') := CaptureEpisode_execute 1 3 5 [("entities"%string, JList [JStr "C"])] s in
  (∃ e, r = Ret e) ∧ ∃ e, episodes_in visible_episodes s' 1 = episodes_in visible_episodes s 1 ++ [e] ∧ in_unit (ep_salience_score e).
Proof.
  intros s. pose proof (capture_saves_the_episode visible_episodes 1 3 5 [("entities"%string, JList [JStr "C"])] s) as Hc.
  destruct (CaptureEpisode_execute 1 3 5 _ s) as [r s'] eqn:Hrun. vm_compute in Hrun.
  destruct Hc as [[_ [x Hx]]|(e & He & _ & _ & _ & Hu & _)]; [subst r; discriminate Hrun|].
  split; [|by exists e]. injection Hrun as <- _. by eexists.
Defined.

Lemma consolidation_takes_a_batch_witness :
  match ConsolidateEpisodes_execute 1 3 5 1 (sample (facts_reply "0.5")) with
  | (Ret written, s') => map sm_fact_value written = ["C"%string] ∧
      ∃ batch now, picks oldest_first 1 (backlog visible_episodes 5 1 (sample (facts_reply "0.5"))) batch ∧
        episodes_in visible_episodes s' 1 =
          map (marked (map ep_id batch) now) (episodes_in visible_episodes (sample (facts_reply "0.5")) 1)
  | (Raise _, _) => False
  end.
Proof.
  pose proof (consolidation_takes_a_batch facts_of history_of visible_episodes 1 3 5 1 (sample (facts_reply "0.5"))) as Hc.
  destruct (ConsolidateEpisodes_execute 1 3 5 1 (sample (facts_reply "0.5"))) as [[written|e] s'] eqn:Hrun;
    vm_compute in Hrun; [|discriminate Hrun].
  destruct Hc as (batch & now & raw & Hp & Hm & _). split; [|by exists batch, now]. injection Hrun as <- _. reflexivity.
Defined.

(** The invariant of the sample services: tenant 1, its index up. *)
Definition sample_up (reply : string) (m : MagStores PostgresFacts Sink Sink LengthEmbedder Parrot) : Prop :=
  pf_tenant (ms_repository m) = 1 ∧ map_Forall (λ _ r, row_tenant_id r = 1) (pf_rows (ms_repository m)) ∧
  sink_up (ms_index m) = true ∧ says (ms_chat m) = reply.
Definition sample_eup (e : EpisodeStores PostgresEpisodes Sink) : Prop := pe_tenant (es_repository e) = 1.

Lemma sink_write_up s : sink_up s = true → ∃ s', sink_write s = (Ret (), s') ∧ sink_up s' = true.
Proof. unfold sink_write. intros ->. by eexists. Qed.

Lemma graph_serves reply (op : stm Sink unit) : op = sink_write →
  serves (sample_up reply) (best_effort (on_graph op)).
Proof.
  intros -> m (Ht & Hr & Hi & Hc). unfold best_effort, on_graph, sink_write.
  destruct (sink_up (ms_graph m)); do 2 eexists; by split.
Qed.

Lemma sample_services_up reply u b :
  0 ≤ b → (∀ e, parse_facts reply = Raise e → caught_value e = true) →
  services_up (sample_up reply) sample_eup 1 u 5 b.
Proof.
  intros Hb Hreply. split.
  - intros [m e] [Hm He]. unfold on_episodes, on_snd. cbn [fst snd].
    cbn [er_get_unconsolidated_by_session sample_episodes postgres_episodic_memory].
    unfold pe_get_unconsolidated_by_session, select_episodes, mbind, stm_bind, get_st, mret, stm_ret.
    destruct (Z.ltb_spec b 0); [lia|]. by do 2 eexists.
  - intros ids [m e] [Hm He]. unfold on_episodes, on_snd. cbn [fst snd].
    cbn [er_mark_consolidated sample_episodes postgres_episodic_memory]. unfold pe_mark_consolidated.
    destruct ids; do 2 eexists; by split.
  - intros k m Hm. unfold on_repository. cbn. unfold pf_find_by_key, mbind, stm_bind, get_st, mret, stm_ret. by do 2 eexists.
  - intros f Hf m (Ht & Hr & Hi & Hc). unfold on_repository. cbn.
    unfold pf_save, mbind, stm_bind, get_st, modify. rewrite decide_True by done.
    destruct (pf_rows (ms_repository m) !! _) as [row|] eqn:Hrow.
    + rewrite Ht, decide_True by (by apply (Hr _ _ Hrow)). do 2 eexists. split; [done|].
      split_and!; try done. by apply map_Forall_insert_2; [apply (Hr _ _ Hrow)|].
    + do 2 eexists. split; [done|]. split_and!; try done. by apply map_Forall_insert_2.
  - intros text m Hm. by do 2 eexists.
  - intros f m (Ht & Hr & Hi & Hc). unfold on_index. cbn. destruct (sink_write_up _ Hi) as (s' & -> & Hs').
    do 2 eexists. by split.
  - intros f. by apply graph_serves.
  - intros e f. by apply graph_serves.
  - intros prompt m (Ht & Hr & Hi & Hc). unfold on_chat. cbn. rewrite Hc. by do 2 eexists.
Qed.

Lemma caught_or_parsed reply l : parse_facts reply = Ret l → ∀ e, parse_facts reply = Raise e → caught_value e = true.
Proof. congruence. Qed.


(** [1] and 309 zeros: one digit too many. *)
Definition huge : string := facts_reply ("1" +:+ zeros 309).

Lemma huge_overflows : parse_facts huge = Raise OverflowError.
Proof. reflexivity. Qed.

(** A parrot with a fixed phrase. *)
Inductive HugeParrot : Type := mkHugeParrot.
#[local] Instance huge_parrot : ChatModel HugeParrot := {|
  cm_generate _ _ := λ p, (Ret huge, p);
  cm_complete _ := λ p, (Ret huge, p)
|}.

Lemma huge_confidence_blocks_consolidation_witness :
  let s : MagStores PostgresFacts Sink Sink LengthEmbedder HugeParrot * EpisodeStores PostgresEpisodes Sink :=
    (mkStores (mkPgFacts ∅ [] 1 1000) (mkSink true 0) (mkSink true 0) (mkLengthEmbedder 0) mkHugeParrot 1000
       (λ n, 100 + Z.of_nat n) 0, (sample "").2) in
  let s' := Nat.iter 3 (λ s, (ConsolidateEpisodes_execute 1 3 5 10 s).2) s in
  episodes_in visible_episodes s' 1 = episodes_in visible_episodes s 1 ∧
  ∃ e, (ConsolidateEpisodes_execute 1 3 5 10 s').1 = Raise e.
Proof.
  intros s. apply (huge_confidence_blocks_consolidation facts_of history_of visible_episodes 1 3 5 10 3 s).
  - intros prompt x. exists huge, x. split; [reflexivity|exact huge_overflows].
  - lia.
  - vm_compute. discriminate.
Defined.
