(* ===== verification/MemoryRetrieval.v ===== *)
(** * Retrieving memories

    mag/application/queries: the five retrieval strategies
    (retrieve_by_temporal_window.py, retrieve_by_salience.py,
    retrieve_by_entity.py, retrieve_by_semantic_similarity.py,
    retrieve_by_causal_relevance.py), their fusion
    (retrieve_with_recency_decay_fusion.py) and spreading activation
    (retrieve_by_spreading_activation.py), over the repository, the vector
    index, the graph and the chat model.  The strategies asyncio.gather starts
    together run here one after the other, in the order of their names. *)

From Stdlib Require Import ZArith Lia Ascii String Floats.SpecFloat.
From S2P Require Import Prelude PyFloat IntDivision PySeq PyTime PyStr Prompts Json MagDomain RagPorts Doubles LlmJson SemanticStore EpisodicStore Gating.

Section strategies.
Context {RE : Type} `{EpisodicMemoryRepository RE}.

Definition TemporalRetrieval_execute (tenant_id session_id : uuid) (top_k : Z) (within : option (datetime * datetime)) :
  stm RE (list ScoredEpisode) :=
  match within with
  | Some (start, finish) =>
      episodes ← er_get_by_session_in_window session_id tenant_id start finish top_k;
      mret (map (λ e, mkScoredEpisode e fone) episodes)
  | None =>
      episodes ← er_get_recent_by_session session_id tenant_id top_k;
      let total := Z.of_nat (length episodes) in
      lift_res (res_mapM (λ ie : Z * EpisodicMemory, score ← int_true_div (total - ie.1) total; Ret (mkScoredEpisode ie.2 score))
        (zip (seqZ 0 total) episodes))
  end.

Definition SalienceRetrieval_execute (tenant_id session_id : uuid) (top_k : Z) : stm RE (list ScoredEpisode) :=
  episodes ← er_get_by_session_ranked_by_salience session_id tenant_id top_k;
  mret (map (λ e, mkScoredEpisode e (ep_salience_score e)) episodes).

Definition EntityRetrieval_execute (tenant_id session_id : uuid) (entity : string) (top_k : Z) : stm RE (list ScoredEpisode) :=
  episodes ← er_get_by_session_matching_entity session_id tenant_id entity top_k;
  mret (map (λ e, mkScoredEpisode e fone) episodes).
End strategies.

Definition SemanticSimilarityRetrieval_execute {XE} `{EpisodicMemoryIndex XE} (tenant_id session_id : uuid)
    (query_embedding : list f64) (top_k : Z) : stm XE (list ScoredEpisode) :=
  ei_search query_embedding tenant_id session_id top_k.

(** ** Causal relevance *)

Definition _MAX_CAUSAL_ATTEMPTS : nat := 3.

Definition build_causal_user_message (query : string) (episodes : list EpisodicMemory) : string :=
  let numbered := zip_with (λ i e,
    ("Episode " +:+ show_Z (Z.of_nat i) +:+ " (" +:+ isoformat (ep_timestamp e) +:+ "):" +:+ nl +:+
      json_dumps true (JObj (ep_content e)))%string) (seq 1 (length episodes)) episodes in
  ("Query: " +:+ query +:+ nl +:+ nl +:+ "Episodes:" +:+ nl +:+ nl +:+ join (nl +:+ nl) numbered)%string.

(** The loop of [_validate_scores]. *)
Fixpoint _validate_scores (scores : list json) (episode_count : Z) (validated : list (Z * f64)) : res (list (Z * f64)) :=
  match scores with
  | [] => Ret validated
  | item :: rest =>
      match item with
      | JObj _ =>
          episode_index ← json_item item "episode_index";
          score ← json_item item "score";
          match episode_index with
          | JInt i =>
              if (1 <=? i) && (i <=? episode_count) then
                x ← unit_score score;
                _validate_scores rest episode_count (od_set i x validated)
              else Raise (ValueError "episode_index out of range")
          | _ => Raise (TypeError "episode_index must be an int")
          end
      | _ => Raise (TypeError "each score entry must be a JSON object")
      end
  end.

Definition _to_scored_episodes (episodes : list EpisodicMemory) (score_map : list (Z * f64)) (top_k : Z) : list ScoredEpisode :=
  let scored := map (λ ie : Z * EpisodicMemory, mkScoredEpisode ie.2 (default fzero (od_get ie.1 score_map)))
                  (zip (seqZ 1 (Z.of_nat (length episodes))) episodes) in
  py_slice 0 top_k (sorted_desc se_score scored).

(** The body of the try block. *)
Definition parse_causal (episodes : list EpisodicMemory) (top_k : Z) (response : string) : res (list ScoredEpisode) :=
  parsed ← json_loads (strip_markdown_fence response);
  scores ← json_item parsed "scores";
  match scores with
  | JList l =>
      score_map ← _validate_scores l (Z.of_nat (length episodes)) [];
      Ret (_to_scored_episodes episodes score_map top_k)
  | _ => Raise (TypeError "'scores' must be a list")
  end.

Definition CausalRetrieval_execute {RE M} `{EpisodicMemoryRepository RE} `{ChatModel M}
    (tenant_id session_id : uuid) (query : string) (top_k : Z) : stm (RE * M) (list ScoredEpisode) :=
  episodes ← on_fst (er_get_by_session session_id tenant_id);
  match episodes with
  | [] => mret []
  | _ =>
      let prompt := (CAUSAL_SYSTEM_PROMPT +:+ nl +:+ nl +:+ build_causal_user_message query episodes)%string in
      retry_parse (on_snd (cm_complete prompt)) (parse_causal episodes top_k) caught_value _MAX_CAUSAL_ATTEMPTS
        (map (λ e, mkScoredEpisode e fzero) (py_slice 0 top_k episodes))
  end.

(** ** Spreading activation *)

Definition _DEFAULT_MAX_HOPS : Z := 3.
Definition _DEFAULT_DECAY_FACTOR : f64 := flit 1 2.
Definition _DEFAULT_ACTIVATION_THRESHOLD : f64 := flit 5 100.

Definition SpreadingActivationRetrieval_execute {G} `{MemoryGraphRepository G} (tenant_id : uuid)
    (start_entity_names : list string) (max_hops : Z) (decay_factor activation_threshold : f64) : stm G (list ActivatedNode) :=
  gr_spread_activation tenant_id start_entity_names max_hops decay_factor activation_threshold.

(** ** Fusion *)

Definition _FETCH_MULTIPLIER : Z := 3.
Definition _MIN_FETCH_K : Z := 10.

Definition _min_max_normalize (scored : list ScoredEpisode) : res (list f64) :=
  match map se_score scored with
  | [] => Ret []
  | x :: rest =>
      let lo := py_min x rest in
      let hi := py_max x rest in
      if feq hi lo then Ret (map (λ _, fone) (x :: rest))
      else res_mapM (λ s, fdiv (fsub s lo) (fsub hi lo)) (x :: rest)
  end.

Record MemoryFusion : Type := mkMemoryFusion {
  fused_scores : list (uuid * f64);
  episodes_by_id : list (uuid * EpisodicMemory)
}.

Section fusion.
Context `{LibM}.

(** The inner loop of fusion, over one strategy's results and their normalized scores. *)
Fixpoint fuse_strategy (weight half_life_hours : f64) (now : datetime) (pairs : list (ScoredEpisode * f64))
    (f : MemoryFusion) : res MemoryFusion :=
  match pairs with
  | [] => Ret f
  | (scored, normalized) :: rest =>
      let episode := se_episode scored in
      decay ← age_decay half_life_hours now (ep_timestamp episode);
      let decayed := fmul normalized decay in
      let id := ep_id episode in
      fuse_strategy weight half_life_hours now rest
        (mkMemoryFusion (od_set id (fadd (default fzero (od_get id (fused_scores f))) (fmul weight decayed)) (fused_scores f))
           (od_set id episode (episodes_by_id f)))
  end.

(** The outer loop, over the strategies by name. *)
Fixpoint fuse_strategies (strategy_weight : list (string * f64)) (half_life_hours : f64) (now : datetime)
    (per_strategy : list (string * list ScoredEpisode)) (f : MemoryFusion) : res MemoryFusion :=
  match per_strategy with
  | [] => Ret f
  | (name, scored_list) :: rest =>
      let weight := default fzero (od_get name strategy_weight) in
      normalized ← _min_max_normalize scored_list;
      pairs ← zip_strict scored_list normalized;
      f' ← fuse_strategy weight half_life_hours now pairs f;
      fuse_strategies strategy_weight half_life_hours now rest f'
  end.

Definition ranked_episodes (f : MemoryFusion) (top_k : Z) : res (list ScoredEpisode) :=
  res_mapM (λ item : uuid * f64, match od_get item.1 (episodes_by_id f) with
                                 | Some episode => Ret (mkScoredEpisode episode item.2)
                                 | None => Raise KeyError
                                 end)
    (py_slice 0 top_k (sorted_desc snd (fused_scores f))).

(** [weights if weights is not None else {n: 1.0 / len(names)}]. *)
Definition weights_for (weights : option (list (string * f64))) (names : list string) : res (list (string * f64)) :=
  match weights with
  | Some w => Ret w
  | None => share ← fdiv fone (of_Z_raw (Z.of_nat (length names))); Ret (map (λ n, (n, share)) names)
  end.

Context {RE XE M : Type} `{EpisodicMemoryRepository RE} `{EpisodicMemoryIndex XE} `{ChatModel M}.
Abbreviation Stores := (RE * M * XE)%type (only parsing).

(** A strategy that has been asked for, under its name. *)
Definition named (name : string) (m : stm Stores (list ScoredEpisode)) : stm Stores (list (string * list ScoredEpisode)) :=
  results ← m; mret [(name, results)].

(** The strategies there is enough to run, in order. *)
Definition run_strategies (tenant_id session_id : uuid) (fetch_k : Z) (query_embedding : option (list f64))
    (causal_query entity : option string) (within : option (datetime * datetime)) :
  stm Stores (list (string * list ScoredEpisode)) :=
  temporal ← named "temporal" (on_fst (on_fst (TemporalRetrieval_execute tenant_id session_id fetch_k within)));
  salience ← named "salience" (on_fst (on_fst (SalienceRetrieval_execute tenant_id session_id fetch_k)));
  semantic ← match query_embedding with
             | Some q => named "semantic" (on_snd (SemanticSimilarityRetrieval_execute tenant_id session_id q fetch_k))
             | None => mret []
             end;
  causal ← match causal_query with
           | Some q => named "causal" (on_fst (CausalRetrieval_execute tenant_id session_id q fetch_k))
           | None => mret []
           end;
  by_entity ← match entity with
              | Some e => named "entity" (on_fst (on_fst (EntityRetrieval_execute tenant_id session_id e fetch_k)))
              | None => mret []
              end;
  mret (temporal ++ salience ++ semantic ++ causal ++ by_entity).

(** [clock] is [datetime.now(UTC)]. *)
Definition RecencyDecayFusionRetrieval_execute (tenant_id session_id : uuid) (top_k : Z) (query_embedding : option (list f64))
    (causal_query entity : option string) (within : option (datetime * datetime)) (weights : option (list (string * f64)))
    (decay_half_life_hours : f64) (now : option datetime) (clock : datetime) : stm Stores (list ScoredEpisode) :=
  if fle decay_half_life_hours fzero then raise (ValueError "decay_half_life_hours must be positive")
  else
    let now := default clock now in
    let fetch_k := Z.max (top_k * _FETCH_MULTIPLIER) _MIN_FETCH_K in
    per_strategy ← run_strategies tenant_id session_id fetch_k query_embedding causal_query entity within;
    strategy_weight ← lift_res (weights_for weights (map fst per_strategy));
    f ← lift_res (fuse_strategies strategy_weight decay_half_life_hours now per_strategy (mkMemoryFusion [] []));
    lift_res (ranked_episodes f top_k).
End fusion.

(** ** What the strategies return *)

Definition of_session (sid : uuid) (out : list ScoredEpisode) : Prop := Forall (λ se, in_session sid (se_episode se)) out.

Lemma of_session_map sid (f : EpisodicMemory → f64) (l : list EpisodicMemory) :
  Forall (in_session sid) l → of_session sid (map (λ e, mkScoredEpisode e (f e)) l).
Proof. intros Hl. unfold of_session. by apply Forall_map. Qed.

Section laws.
Context {RE : Type} `{EpisodicMemoryRepository RE} (episodes : RE → uuid → list EpisodicMemory)
  `{!EpisodicMemoryLaws RE episodes}.

Lemma reads_yields {A} (same : RE → RE → Prop) (m : stm RE A) good (Q : A → Prop) :
  reads same m good → (∀ r a, good r a → Q a) → yields Q m.
Proof. intros Hm HQ r. specialize (Hm r). destruct (m r) as [[a|e] r']; [|done]. by apply (HQ r), Hm. Qed.

Lemma no_embedding_session sid l wanted : l ⊆ wanted → Forall (in_session sid) wanted → Forall (in_session sid) (map ep_no_embedding l).
Proof.
  intros Hsub Hw. apply Forall_map. apply list.Forall_forall. intros e He.
  rewrite list.Forall_forall in Hw. apply (Hw e), Hsub, He.
Qed.

Lemma session_filter sid (l : list EpisodicMemory) : Forall (in_session sid) (filter (in_session sid) l).
Proof. apply list.Forall_forall. intros e He. by apply list_elem_of_filter in He as []. Qed.

Lemma picks_session sid le limit wanted got :
  Forall (in_session sid) wanted → picks le limit wanted got → Forall (in_session sid) (map ep_no_embedding got).
Proof.
  intros Hw (all & Hperm & _ & ->). eapply no_embedding_session; [|exact Hw].
  intros e He. rewrite <- Hperm. by apply elem_of_take in He as (i & Hi & _); apply list_elem_of_lookup_2 in Hi.
Qed.

Lemma temporal_of_session t sid k within : yields (of_session sid) (TemporalRetrieval_execute t sid k within).
Proof.
  unfold TemporalRetrieval_execute. destruct within as [[from to]|].
  - eapply yields_bind; [eapply reads_yields; [apply (er_window_spec (episodes := episodes))|]|].
    + intros r out (_ & got & -> & Hp). eapply picks_session; [|exact Hp]. by apply Forall_filter_keeps, session_filter.
    + intros out Hout. by apply yields_ret, of_session_map.
  - eapply yields_bind; [eapply reads_yields; [apply (er_recent_spec (episodes := episodes))|]|].
    + intros r out (_ & got & -> & Hp). eapply picks_session; [|exact Hp]. apply session_filter.
    + intros out Hout. apply yields_lift. intros l Hl. apply list.Forall_forall. intros se Hse.
      apply (res_mapM_elem _ _ _ _ Hl) in Hse as ([i e] & Hin & Hse). cbn [fst snd] in Hse.
      destruct (int_true_div _ _) as [x|]; [|done]. injection Hse as <-.
      rewrite list.Forall_forall in Hout. by apply Hout, (elem_of_zip_r i e _ _ Hin).
Qed.

Lemma salience_of_session t sid k : yields (of_session sid) (SalienceRetrieval_execute t sid k).
Proof.
  eapply yields_bind; [eapply reads_yields; [apply (er_salience_spec (episodes := episodes))|]|].
  - intros r out (_ & got & -> & Hp). eapply picks_session; [|exact Hp]. apply session_filter.
  - intros out Hout. by apply yields_ret, of_session_map.
Qed.

Lemma entity_of_session t sid entity k : yields (of_session sid) (EntityRetrieval_execute t sid entity k).
Proof.
  eapply yields_bind; [eapply reads_yields; [apply (er_entity_spec (episodes := episodes))|]|].
  - intros r out (_ & got & -> & Hp). eapply no_embedding_session; [exact Hp|]. apply session_filter.
  - intros out Hout. by apply yields_ret, of_session_map.
Qed.

(** *** Causal relevance scores every episode once *)

Lemma validate_scores_unit scores count d out :
  Forall (λ kv, in_unit kv.2) d → _validate_scores scores count d = Ret out → Forall (λ kv, in_unit kv.2) out.
Proof.
  revert d. induction scores as [|item rest IH]; intros d Hd; simpl; [by intros [= <-]|].
  destruct item as [| | | | | |o]; try done.
  destruct (json_item _ "episode_index") as [i|e]; [|done]. cbn [mbind res_bind].
  destruct (json_item _ "score") as [x|e]; [|done]. cbn [mbind res_bind].
  destruct i as [| |i| | | |]; try done. destruct (_ && _); [|done].
  destruct (unit_score x) as [y|e] eqn:Hy; [|done]. cbn [mbind res_bind]. apply IH.
  apply unit_score_range in Hy. clear -Hd Hy. induction Hd as [|[k v] d Hv Hd IHd]; simpl; [by apply Forall_cons|].
  case_decide; by apply Forall_cons.
Qed.

Lemma od_get_Forall {K V} `{EqDecision K} (Q : V → Prop) k d v : Forall (λ kv : K * V, Q kv.2) d → od_get k d = Some v → Q v.
Proof.
  induction 1 as [|[k' v'] d Hv Hd IH]; [done|]. rewrite od_get_cons. case_decide; [by intros [= <-]|exact IH].
Qed.

(** Every episode of the list once, scored in [0, 1], best first. *)
Definition scores_all (all : list EpisodicMemory) (scored : list ScoredEpisode) : Prop :=
  map se_episode scored ≡ₚ map ep_no_embedding all ∧ Forall (λ se, in_unit (se_score se)) scored ∧
  StronglySorted (λ a b, fle (se_score b) (se_score a) = true) scored.

Lemma unit_not_nan x : in_unit x → is_nan x = false.
Proof. intros [Hx _]. by apply fle_not_nan in Hx as []. Qed.

Lemma sorted_units (scored : list ScoredEpisode) : Forall (λ se, in_unit (se_score se)) scored →
  StronglySorted (λ a b, fle (se_score b) (se_score a) = true) (sorted_desc se_score scored).
Proof.
  intros Hu. apply (sorted_desc_sorted se_score). eapply Forall_impl; [exact Hu|]. intros se. apply unit_not_nan.
Qed.

Lemma numbered_episodes (l : list EpisodicMemory) (f : Z * EpisodicMemory → f64) start :
  map se_episode (map (λ ie, mkScoredEpisode ie.2 (f ie)) (zip (seqZ start (Z.of_nat (length l))) l)) = l.
Proof.
  rewrite map_map. cbn. change (map snd (zip (seqZ start (Z.of_nat (length l))) l) = l).
  apply (snd_zip _ l). rewrite length_seqZ. lia.
Qed.

Lemma to_scored_all all score_map :
  Forall (λ kv, in_unit kv.2) score_map →
  ∃ scored, scores_all all scored ∧ ∀ k, _to_scored_episodes (map ep_no_embedding all) score_map k = py_slice 0 k scored.
Proof.
  intros Hmap. eexists. split; [|done]. split_and!.
  - rewrite (sorted_desc_perm se_score). by rewrite numbered_episodes.
  - rewrite (sorted_desc_perm se_score). apply Forall_map, list.Forall_forall. intros [i e] _. cbn.
    destruct (od_get i score_map) as [x|] eqn:Hx; [|by split].
    by apply (od_get_Forall in_unit i score_map x).
  - apply sorted_units. apply Forall_map, list.Forall_forall. intros [i e] _. cbn.
    destruct (od_get i score_map) as [x|] eqn:Hx; [|by split].
    by apply (od_get_Forall in_unit i score_map x).
Qed.

Lemma parse_causal_all all k reply out : parse_causal (map ep_no_embedding all) k reply = Ret out →
  ∃ scored, scores_all all scored ∧ out = py_slice 0 k scored.
Proof.
  unfold parse_causal. destruct (json_loads _) as [v|e]; [|done]. cbn [mbind res_bind].
  destruct (json_item v _) as [[]|e]; try done. cbn [mbind res_bind].
  destruct (_validate_scores _ _ _) as [score_map|e] eqn:Hv; [|done]. intros [= <-].
  apply validate_scores_unit in Hv; [|constructor]. destruct (to_scored_all all score_map Hv) as (scored & Hs & Heq). by exists scored.
Qed.

Lemma flat_scores_all all : scores_all all (map (λ e, mkScoredEpisode e fzero) (map ep_no_embedding all)).
Proof.
  split_and!.
  - rewrite !map_map. cbn. done.
  - apply Forall_map, list.Forall_forall. intros e _. by split.
  - generalize (map ep_no_embedding all). intros l. induction l as [|e l IH]; cbn [map]; constructor; [done|].
    apply Forall_map, list.Forall_forall. intros e' _. reflexivity.
Qed.

Lemma causal_outcome {M} `{ChatModel M} t sid query k (s s' : RE * M) out :
  CausalRetrieval_execute t sid query k s = (Ret out, s') →
  ∃ all scored, all ≡ₚ filter (in_session sid) (episodes s.1 t) ∧ scores_all all scored ∧ out = py_slice 0 k scored ∧
    episodes s'.1 t = episodes s.1 t.
Proof.
  intros Hrun. unfold CausalRetrieval_execute in Hrun.
  apply stm_bind_inv in Hrun as (got & s1 & Hread & Hrun).
  pose proof (er_session_spec (episodes := episodes) sid t s.1) as Hspec. unfold on_fst in Hread.
  destruct (er_get_by_session sid t s.1) as [[l|e] r1]; [|done]. injection Hread as <- <-.
  destruct Hspec as [(all & Hperm & _ & ->) Hsame].
  destruct (decide (all = [])) as [->|Hne].
  { injection Hrun as <- <-. exists [], []. split_and!; try done; [by split_and!; constructor|].
    unfold py_slice. by rewrite drop_nil, take_nil. }
  assert (∀ (a c : stm (RE * M) (list ScoredEpisode)), match map ep_no_embedding all with [] => a | _ => c end = c) as Hm.
  { by destruct all. }
  rewrite Hm in Hrun. clear Hm.
  assert (s'.1 = r1) as Hs'.
  { assert (PreOrder (λ a b : RE * M, b.1 = a.1)) as Hpre.
    { split; [done|]. intros a b c ? ?. congruence. }
    pose proof (f_equal snd Hrun) as Hk. cbn [snd] in Hk. rewrite <- Hk.
    apply (retry_parse_steps _ _ _ (λ a b : RE * M, b.1 = a.1)). intros x. apply on_snd_fst. }
  exists all. apply retry_parse_result in Hrun as [->|[reply Hr]].
  - exists (map (λ e, mkScoredEpisode e fzero) (map ep_no_embedding all)).
    split; [done|]. split; [apply flat_scores_all|]. split; [symmetry; apply py_slice_map|]. by rewrite Hs'.
  - apply parse_causal_all in Hr as (scored & Hs & ->). exists scored. rewrite Hs'. by split.
Qed.

(** Causal retrieval that returns has given every episode of the session,
    once, a score in [0, 1], whatever the model replied, and returns the best
    of them in order of score, changing nothing: an episode the model does not
    mention scores zero, and so do all of them when no reply can be used. *)
Theorem causal_scores_every_episode {M} `{ChatModel M} (t sid : uuid) (query : string) (k : Z) (s s' : RE * M) out :
  CausalRetrieval_execute t sid query k s = (Ret out, s') →
  ∃ all scored, all ≡ₚ filter (in_session sid) (episodes s.1 t) ∧ scores_all all scored ∧ out = py_slice 0 k scored ∧
    episodes s'.1 t = episodes s.1 t.
Proof. apply causal_outcome. Qed.

Lemma causal_of_session {M} `{ChatModel M} t sid query k :
  yields (of_session sid) (CausalRetrieval_execute t sid query k : stm (RE * M) _).
Proof.
  intros s. destruct (CausalRetrieval_execute t sid query k s) as [[out|e] s'] eqn:Hrun; [|done]. cbn [fst].
  apply causal_outcome in Hrun as (all & scored & Hperm & (Heps & _) & -> & _).
  apply list.Forall_forall. intros se Hse%py_slice_subseteq.
  assert (se_episode se ∈ map ep_no_embedding all) as Hin by (rewrite <- Heps; by apply list_elem_of_fmap_2).
  apply list_elem_of_In, in_map_iff in Hin as (e & <- & He%list_elem_of_In).
  rewrite Hperm in He. by apply list_elem_of_filter in He as [].
Qed.
End laws.

(** ** Fusion sums what the strategies contribute *)

(** One strategy's vote for one episode. *)
Abbreviation vote := (EpisodicMemory * f64)%type (only parsing).

Section votes.
Context `{LibM}.

Definition vote_of (weight half_life_hours : f64) (now : datetime) (p : ScoredEpisode * f64) : res vote :=
  decay ← age_decay half_life_hours now (ep_timestamp (se_episode p.1));
  Ret (se_episode p.1, fmul weight (fmul p.2 decay)).

(** The votes of all the strategies, in order. *)
Fixpoint votes (strategy_weight : list (string * f64)) (half_life_hours : f64) (now : datetime)
    (per_strategy : list (string * list ScoredEpisode)) : res (list vote) :=
  match per_strategy with
  | [] => Ret []
  | (name, scored_list) :: rest =>
      normalized ← _min_max_normalize scored_list;
      pairs ← zip_strict scored_list normalized;
      mine ← res_mapM (vote_of (default fzero (od_get name strategy_weight)) half_life_hours now) pairs;
      others ← votes strategy_weight half_life_hours now rest;
      Ret (mine ++ others)
  end.

Definition add_vote (f : MemoryFusion) (v : vote) : MemoryFusion :=
  let id := ep_id v.1 in
  mkMemoryFusion (od_set id (fadd (default fzero (od_get id (fused_scores f))) v.2) (fused_scores f))
    (od_set id v.1 (episodes_by_id f)).

Lemma fuse_strategy_votes w h now pairs f f' :
  fuse_strategy w h now pairs f = Ret f' → ∃ vs, res_mapM (vote_of w h now) pairs = Ret vs ∧ f' = foldl add_vote f vs.
Proof.
  revert f. induction pairs as [|[scored x] pairs IH]; intros f; cbn [fuse_strategy res_mapM]; [intros [= <-]; by exists []|].
  destruct (age_decay h now (ep_timestamp (se_episode scored))) as [d|e] eqn:Hd; [|done]. cbn [mbind res_bind].
  intros Hrest. apply IH in Hrest as (vs & Hvs & ->). exists ((se_episode scored, fmul w (fmul x d)) :: vs). split; [|done].
  assert (vote_of w h now (scored, x) = Ret (se_episode scored, fmul w (fmul x d))) as -> by (unfold vote_of; cbn [fst]; by rewrite Hd).
  cbn [mbind res_bind]. by rewrite Hvs.
Qed.

Lemma fuse_strategies_votes sw h now per f f' :
  fuse_strategies sw h now per f = Ret f' → ∃ vs, votes sw h now per = Ret vs ∧ f' = foldl add_vote f vs.
Proof.
  revert f. induction per as [|[name scored] per IH]; intros f; simpl; [intros [= <-]; by exists []|].
  destruct (_min_max_normalize scored) as [ns|e]; [|done]. cbn [mbind res_bind].
  destruct (zip_strict scored ns) as [pairs|e]; [|done]. cbn [mbind res_bind].
  destruct (fuse_strategy _ h now pairs f) as [f1|e] eqn:Hf; [|done]. cbn [mbind res_bind].
  apply fuse_strategy_votes in Hf as (vs & -> & ->). intros Hrest. apply IH in Hrest as (rest & -> & ->).
  exists (vs ++ rest). by rewrite foldl_app.
Qed.

Lemma votes_Forall (Q : EpisodicMemory → Prop) sw h now per vs :
  votes sw h now per = Ret vs → Forall (λ ns : string * list ScoredEpisode, Forall (λ se, Q (se_episode se)) ns.2) per →
  Forall (λ v : vote, Q v.1) vs.
Proof.
  intros Hvs Hper. revert vs Hvs. induction Hper as [|[name scored] per Hs _ IH]; intros vs; simpl; [intros [= <-]; constructor|].
  destruct (_min_max_normalize scored) as [ns|e]; [|done]. cbn [mbind res_bind].
  destruct (zip_strict scored ns) as [pairs|e] eqn:Hz; [|done]. cbn [mbind res_bind].
  destruct (res_mapM _ pairs) as [mine|e] eqn:Hmine; [|done]. cbn [mbind res_bind].
  destruct (votes sw h now per) as [others|e]; [|done]. intros [= <-]. apply Forall_app. split; [|by apply IH].
  apply list.Forall_forall. intros v Hv. apply (res_mapM_elem _ _ _ _ Hmine) in Hv as ([se x] & Hin & Hv).
  unfold vote_of in Hv. cbn [fst snd] in Hv. destruct (age_decay h now _) as [d|e]; [|done]. injection Hv as <-. cbn.
  rewrite list.Forall_forall in Hs. apply Hs. rewrite <- (zip_strict_fst _ _ _ Hz).
  change (map fst pairs) with (fst <$> pairs). apply list_elem_of_fmap. by exists (se, x).
Qed.
End votes.

(** The votes an episode got, and their sum. *)
Definition votes_for (id : uuid) (vs : list vote) : list vote := filter (λ v, ep_id v.1 = id) vs.
Definition tally (vs : list vote) (id : uuid) : f64 := fsum (map snd (votes_for id vs)).

Definition fusion_ok (vs : list vote) (f : MemoryFusion) : Prop :=
  NoDup (od_keys (fused_scores f)) ∧ od_keys (episodes_by_id f) = od_keys (fused_scores f) ∧
  (∀ id, id ∈ od_keys (fused_scores f) ↔ votes_for id vs ≠ []) ∧
  (∀ id x, od_get id (fused_scores f) = Some x → x = tally vs id) ∧
  ∀ id e, od_get id (episodes_by_id f) = Some e → last (map fst (votes_for id vs)) = Some e.

Lemma votes_for_snoc id vs v : votes_for id (vs ++ [v]) = votes_for id vs ++ if decide (ep_id v.1 = id) then [v] else [].
Proof. unfold votes_for. rewrite filter_app, filter_cons, filter_nil. by case_decide. Qed.

Lemma add_vote_ok vs f v : fusion_ok vs f → fusion_ok (vs ++ [v]) (add_vote f v).
Proof.
  intros (Hnd & Hkeys & Hin & Hsum & Hlast). unfold add_vote, fusion_ok. cbn [fused_scores episodes_by_id]. split_and!.
  - by apply od_set_nodup.
  - by rewrite !od_keys_set, Hkeys.
  - intros id. rewrite od_keys_set, votes_for_snoc. destruct (decide (ep_id v.1 = id)) as [<-|Hne].
    + split; [intros _ Hnil; by apply app_eq_nil in Hnil as [_ ?]|]. intros _. case_decide; [done|]. apply elem_of_app. right. by left.
    + rewrite app_nil_r, <- Hin. case_decide; [done|]. rewrite elem_of_app, list_elem_of_singleton. naive_solver.
  - intros id x. rewrite od_get_set. unfold tally. rewrite votes_for_snoc, map_app. cbn [map].
    destruct (decide (ep_id v.1 = id)) as [<-|Hne]; cycle 1.
    { cbn [map]. rewrite app_nil_r. apply Hsum. }
    intros [= <-]. cbn [map]. rewrite fsum_snoc. f_equal.
    destruct (od_get (ep_id v.1) (fused_scores f)) as [y|] eqn:Hy; [by apply Hsum in Hy|].
    apply od_get_None in Hy. rewrite Hin in Hy. destruct (votes_for (ep_id v.1) vs); [done|]. by destruct Hy.
  - intros id e. rewrite od_get_set, votes_for_snoc, map_app.
    destruct (decide (ep_id v.1 = id)) as [<-|Hne]; [intros [= <-]; apply last_snoc|]. cbn [map]. rewrite app_nil_r. apply Hlast.
Qed.

Lemma fused_ok vs : fusion_ok vs (foldl add_vote (mkMemoryFusion [] []) vs).
Proof.
  induction vs as [|v vs IH] using rev_ind; [|rewrite foldl_app; by apply add_vote_ok].
  split_and!; try done; [constructor|]. intros id. split; [by intros ?%not_elem_of_nil|done].
Qed.

Lemma ranked_items f top_k vs out :
  fusion_ok vs f → ranked_episodes f top_k = Ret out →
  let items := py_slice 0 top_k (sorted_desc snd (fused_scores f)) in
  map (λ se, ep_id (se_episode se)) out = map fst items ∧ map se_score out = map snd items ∧
  Forall (λ se, last (map fst (votes_for (ep_id (se_episode se)) vs)) = Some (se_episode se) ∧
    se_score se = tally vs (ep_id (se_episode se))) out.
Proof.
  intros (Hnd & _ & _ & Hsum & Hlast). unfold ranked_episodes. cbv zeta.
  assert (∀ item, item ∈ py_slice 0 top_k (sorted_desc snd (fused_scores f)) → item.2 = tally vs item.1) as Htally.
  { intros [id x] Hin%py_slice_subseteq. rewrite (sorted_desc_perm snd) in Hin. by apply Hsum, od_get_in. }
  revert Htally out. generalize (py_slice 0 top_k (sorted_desc snd (fused_scores f))) as items.
  intros items. induction items as [|[id x] items IH]; intros Htally out; cbn [res_mapM]; [intros [= <-]; by split_and!|].
  cbn [fst snd]. destruct (od_get id (episodes_by_id f)) as [e|] eqn:He; [|done]. cbn [mbind res_bind].
  destruct (res_mapM _ items) as [rest|] eqn:Hrest; [|done]. intros [= <-].
  destruct (IH (λ i Hi, Htally i (list_elem_of_further _ _ _ Hi)) rest eq_refl) as (Hids & Hscores & Hall).
  apply Hlast in He. assert (ep_id e = id) as Hid.
  { apply last_Some_elem_of, list_elem_of_fmap in He as (v & -> & Hv). by apply list_elem_of_filter in Hv as []. }
  cbn [map se_episode se_score fst snd]. rewrite Hids, Hscores, Hid. split_and!; try done.
  constructor; [|done]. cbn [se_episode se_score]. rewrite Hid. split; [done|]. apply (Htally (id, x)). by left.
Qed.

(** The episodes the strategies voted for, best tally first, each once. *)
Record ranks (vs : list vote) (top_k : Z) (out : list ScoredEpisode) : Prop := {
  ranks_once : NoDup (map (λ se, ep_id (se_episode se)) out);
  ranks_tally : Forall (λ se, last (map fst (votes_for (ep_id (se_episode se)) vs)) = Some (se_episode se) ∧
    se_score se = tally vs (ep_id (se_episode se))) out;
  ranks_count : 0 ≤ top_k →
    length out = Nat.min (Z.to_nat top_k) (length (remove_dups (map (λ v, ep_id v.1) vs)));
  ranks_best : (∀ id, is_nan (tally vs id) = false) →
    StronglySorted (λ a b, fle (se_score b) (se_score a) = true) out ∧
    (0 ≤ top_k → ∀ v, v ∈ vs → ep_id v.1 ∉ map (λ se, ep_id (se_episode se)) out →
      Forall (λ se, fle (tally vs (ep_id v.1)) (se_score se) = true) out)
}.

Lemma voted_for vs id : votes_for id vs ≠ [] ↔ id ∈ map (λ v : vote, ep_id v.1) vs.
Proof.
  change (map (λ v : vote, ep_id v.1)) with (fmap (M := list) (λ v : vote, ep_id v.1)). rewrite list_elem_of_fmap. split.
  - intros Hne. destruct (votes_for id vs) as [|v l] eqn:Hv; [done|]. exists v.
    assert (v ∈ votes_for id vs) as Hin by (rewrite Hv; by left). by apply list_elem_of_filter in Hin as [<- ?].
  - intros (v & -> & Hv) Hnil. assert (v ∈ votes_for (ep_id v.1) vs) as Hin by (by apply list_elem_of_filter).
    rewrite Hnil in Hin. by apply not_elem_of_nil in Hin.
Qed.

Lemma fused_ranks vs f top_k out : fusion_ok vs f → ranked_episodes f top_k = Ret out → ranks vs top_k out.
Proof.
  intros Hok Hout. pose proof (ranked_items f top_k vs out Hok Hout) as (Hids & Hscores & Hall).
  destruct Hok as (Hnd & _ & Hin & Hsum & _). set (sorted := sorted_desc snd (fused_scores f)) in *.
  assert (sorted ≡ₚ fused_scores f) as Hperm by apply sorted_desc_perm.
  destruct (py_slice_start top_k sorted) as (n & Hslice & Htake). rewrite Hslice in Hids, Hscores. split; [|exact Hall| |].
  - rewrite Hids. apply (sublist_NoDup _ (map fst sorted)); [by rewrite Hperm|]. rewrite <- firstn_map. apply sublist_take.
  - intros Hk. rewrite <- (length_map (λ se, ep_id (se_episode se))), Hids, Htake, length_map, length_take by done.
    f_equal. rewrite Hperm, <- (length_map fst). apply Permutation_length, NoDup_Permutation; [done|apply NoDup_remove_dups|].
    intros id. rewrite elem_of_remove_dups, Hin. apply voted_for.
  - intros Hnan. assert (keys_ok snd (fused_scores f)) as Hkeys.
    { apply list.Forall_forall. intros [id x] Hx%(od_get_in _ _ _ Hnd)%Hsum. cbn. by rewrite Hx. }
    split.
    + apply (StronglySorted_map_inv (λ a b, fle b a = true) se_score). rewrite Hscores.
      apply StronglySorted_map. eapply StronglySorted_sublist; [apply sublist_take|]. by apply (sorted_desc_sorted snd).
    + intros Hk v Hv Hno. rewrite Hids, (Htake Hk) in Hno. rewrite (Htake Hk) in Hscores.
      assert (votes_for (ep_id v.1) vs ≠ []) as Hvoted by (apply voted_for, list_elem_of_fmap; by exists v).
      apply Hin, list_elem_of_fmap in Hvoted as ([id x] & Hid & Hx). cbn in Hid. subst id.
      assert (x = tally vs (ep_id v.1)) as <- by (by apply Hsum, od_get_in).
      apply (proj1 (List.Forall_map se_score (λ y, fle x y = true) out)). rewrite Hscores. apply Forall_map, list.Forall_forall.
      intros [id' y] Hy. apply (best_dominate snd (Z.to_nat top_k) (fused_scores f) _ (ep_id v.1, x)); try done.
      intros Hbest. apply Hno. change (map fst) with (fmap (M := list) (fst : uuid * f64 → uuid)). apply list_elem_of_fmap.
      by exists (ep_id v.1, x).
Qed.

Section retrieval.
Context `{LibM} {RE XE M : Type} `{EpisodicMemoryRepository RE} `{EpisodicMemoryIndex XE} `{ChatModel M}
  (episodes : RE → uuid → list EpisodicMemory) `{!EpisodicMemoryLaws RE episodes}.

(** The names of the strategies there is enough to run. *)
Definition strategies_for (query_embedding : option (list f64)) (causal_query entity : option string) : list string :=
  ["temporal"%string; "salience"%string] ++ (if query_embedding is Some _ then ["semantic"%string] else []) ++
  (if causal_query is Some _ then ["causal"%string] else []) ++ (if entity is Some _ then ["entity"%string] else []).

Definition per_strategy_ok (sid : uuid) (names : list string) (per : list (string * list ScoredEpisode)) : Prop :=
  map fst per = names ∧ Forall (λ ns : string * list ScoredEpisode, of_session sid ns.2) per.

Lemma named_ok sid name (m : stm (RE * M * XE) (list ScoredEpisode)) :
  yields (of_session sid) m → yields (per_strategy_ok sid [name]) (named name m).
Proof.
  intros Hm. eapply yields_bind; [exact Hm|]. intros out Hout. apply yields_ret. split; [done|]. by apply Forall_singleton.
Qed.

Lemma run_strategies_ok t sid k qe cq ent within :
  (∀ q n, yields (of_session sid) (ei_search q t sid n : stm XE _)) →
  yields (per_strategy_ok sid (strategies_for qe cq ent))
    (run_strategies t sid k qe cq ent within : stm (RE * M * XE) _).
Proof.
  intros Hidx. unfold run_strategies.
  eapply yields_bind; [apply named_ok, yields_on_fst, yields_on_fst, (temporal_of_session episodes)|]. intros p1 [E1 F1].
  eapply yields_bind; [apply named_ok, yields_on_fst, yields_on_fst, (salience_of_session episodes)|]. intros p2 [E2 F2].
  apply (yields_bind (per_strategy_ok sid (if qe is Some _ then ["semantic"%string] else []))).
  { destruct qe; [apply named_ok, yields_on_snd, Hidx|apply yields_ret; by split]. }
  intros p3 [E3 F3]. apply (yields_bind (per_strategy_ok sid (if cq is Some _ then ["causal"%string] else []))).
  { destruct cq; [apply named_ok, yields_on_fst, (causal_of_session episodes)|apply yields_ret; by split]. }
  intros p4 [E4 F4]. apply (yields_bind (per_strategy_ok sid (if ent is Some _ then ["entity"%string] else []))).
  { destruct ent; [apply named_ok, yields_on_fst, yields_on_fst, (entity_of_session episodes)|apply yields_ret; by split]. }
  intros p5 [E5 F5]. apply yields_ret. split.
  - by rewrite !map_app, E1, E2, E3, E4, E5.
  - by rewrite !Forall_app.
Qed.

(** Fused retrieval runs the strategies there is enough to run, weighs each
    one's normalized scores, decayed by age, and adds up what every episode
    got: it returns the episodes with the best sums, each once and with its
    sum, best first, none with a smaller sum than one left out; and it never
    returns an episode of another session, as long as the index does not. *)
Theorem fusion_ranks_by_votes (t sid : uuid) (top_k : Z) (qe : option (list f64)) (cq ent : option string)
    (within : option (datetime * datetime)) (weights : option (list (string * f64))) (half_life : f64)
    (now : option datetime) (clock : datetime) :
  (∀ q n, yields (of_session sid) (ei_search q t sid n : stm XE _)) →
  yields (λ out, ∃ per sw vs,
      map fst per = strategies_for qe cq ent ∧ weights_for weights (strategies_for qe cq ent) = Ret sw ∧
      votes sw half_life (default clock now) per = Ret vs ∧ ranks vs top_k out ∧ of_session sid out)
    (RecencyDecayFusionRetrieval_execute t sid top_k qe cq ent within weights half_life now clock : stm (RE * M * XE) _).
Proof.
  intros Hidx. unfold RecencyDecayFusionRetrieval_execute. destruct (fle half_life fzero); [by intros s|].
  eapply yields_bind; [by apply run_strategies_ok|]. intros per [Hnames Hper].
  apply (yields_bind (λ sw, weights_for weights (map fst per) = Ret sw)); [by apply yields_lift|]. intros sw Hsw.
  eapply (yields_bind (λ f, ∃ vs, votes sw half_life (default clock now) per = Ret vs ∧ f = foldl add_vote (mkMemoryFusion [] []) vs)).
  { apply yields_lift. intros f. apply fuse_strategies_votes. }
  intros f (vs & Hvs & ->). apply yields_lift. intros out Hout. apply (fused_ranks vs) in Hout; [|apply fused_ok].
  exists per, sw, vs. rewrite <- Hnames. split_and!; try done.
  pose proof (votes_Forall (in_session sid) _ _ _ _ _ Hvs Hper) as Hin.
  apply list.Forall_forall. intros se Hse. pose proof (ranks_tally _ _ _ Hout) as Htally.
  rewrite list.Forall_forall in Htally. destruct (Htally se Hse) as [Hlast _].
  apply last_Some_elem_of, list_elem_of_fmap in Hlast as (v & -> & Hv). apply list_elem_of_filter in Hv as [_ Hv].
  rewrite list.Forall_forall in Hin. by apply Hin.
Qed.
End retrieval.

(** ** Witnesses *)

#[local] Instance sample_episodes : EpisodicMemoryRepository PostgresEpisodes :=
  postgres_episodic_memory (λ _ _, fone) (λ c, json_dumps true (JObj c)) ascii_lower (λ _, true).
#[local] Instance sample_episode_laws : EpisodicMemoryLaws PostgresEpisodes visible_episodes :=
  postgres_episodic_laws (λ _ _, fone) (λ c, json_dumps true (JObj c)) ascii_lower (λ _, true).

Definition episode_row (id sid : uuid) (at_ : datetime) (text : string) (salience : f64) : EpisodeRow :=
  mkEpisodeRow 1 (mkEpisode id sid [("input"%string, JStr text)] [fone] at_ salience None).

Definition sample_table : PostgresEpisodes :=
  mkPgEpisodes [episode_row 21 5 10 "deploy failed" (flit 1 4); episode_row 22 5 20 "hello" (flit 1 2);
    episode_row 23 6 30 "deploy failed" fone] 1 1000.

Definition causal_reply : string :=
  ("{" +:+ dq +:+ "scores" +:+ dq +:+ ": [{" +:+ dq +:+ "episode_index" +:+ dq +:+ ": 1, " +:+ dq +:+ "score" +:+ dq +:+ ": 0.5}]}")%string.

Definition causal_sample : PostgresEpisodes * ScriptedChat := (sample_table, mkScripted ["I am not sure"; causal_reply]%string).

Lemma causal_scores_every_episode_witness :
  match CausalRetrieval_execute 1 5 "why did it fail" 1 causal_sample with
  | (Ret out, s') => map (λ se, ep_id (se_episode se)) out = [21] ∧
      ∃ all scored, all ≡ₚ filter (in_session 5) (visible_episodes sample_table 1) ∧ scores_all all scored ∧ out = py_slice 0 1 scored
  | (Raise _, _) => False
  end.
Proof.
  destruct (CausalRetrieval_execute 1 5 "why did it fail" 1 causal_sample) as [[out|e] s'] eqn:Hrun.
  - destruct (causal_scores_every_episode visible_episodes 1 5 "why did it fail" 1 causal_sample s' out Hrun) as (all & scored & H1 & H2 & H3 & _).
    split; [|exists all, scored; split; [exact H1|split; [exact H2|exact H3]]]. vm_compute in Hrun. injection Hrun as <- _. reflexivity.
  - vm_compute in Hrun. discriminate Hrun.
Defined.

Definition fusion_run : res (list ScoredEpisode) :=
  (RecencyDecayFusionRetrieval_execute (H := step_exp) 1 5 1 None None (Some "FAILED"%string) None None (of_Z_raw 24) (Some 1000) 0
    (causal_sample, mkSink true 0)).1.

Definition fused_out : list ScoredEpisode := match fusion_run with Ret out => out | Raise _ => [] end.

Lemma fusion_run_returns : fusion_run = Ret fused_out.
Proof. vm_compute. reflexivity. Qed.

Lemma sink_index_of_session sid q t n : yields (of_session sid) (ei_search q t sid n : stm Sink _).
Proof. intros s. cbn. unfold sink_read. destruct (sink_up s); [constructor|done]. Qed.

Lemma fusion_ranks_by_votes_witness :
  map (λ se, ep_id (se_episode se)) fused_out = [22] ∧ of_session 5 fused_out ∧ ∃ vs, ranks vs 1 fused_out.
Proof.
  split; [vm_compute; reflexivity|].
  pose proof (fusion_ranks_by_votes (H := step_exp) (RE := PostgresEpisodes) (XE := Sink) (M := ScriptedChat) visible_episodes 1 5 1 None None
    (Some "FAILED"%string) None None (of_Z_raw 24) (Some 1000) 0 (λ q, sink_index_of_session 5 q 1) (causal_sample, mkSink true 0)) as Hf.
  cbv beta in Hf. fold fusion_run in Hf. rewrite fusion_run_returns in Hf.
  destruct Hf as (per & sw & vs & _ & _ & _ & Hranks & Hs). split; [exact Hs|]. by exists vs.
Defined.
