(* ===== verification/StateAware.v ===== *)
(** * State-aware retrieval

    orchestration/application/state_aware_retrieve.py: what MAG knows of the
    user rewrites the query, the fallback retriever answers the rewritten one,
    results that mention the user's facts are boosted, and what came back is
    captured as an episode.  The embedding model and the chat model are the
    ones the memories are written with.  [str_lower], [str.lower] with its
    Unicode tables, is a parameter. *)

From Stdlib Require Import ZArith Lia Ascii String Floats.SpecFloat.
From S2P Require Import Prelude PyFloat IntDivision PySeq PyTime PyStr Prompts Json MagDomain RagPorts Doubles LlmJson SemanticStore EpisodicStore MemoryEvolution MemoryWriting RagRetrieval.

(** ** Read-only queries over MAG *)

Definition FindSemanticFacts_by_key {R} `{SemanticMemoryRepository R} (user_id : uuid) (fact_key : string) (tenant_id : uuid) :
  stm R (option SemanticMemory) := fr_find_by_key user_id fact_key tenant_id.

Definition FindSemanticFacts_by_similarity {R} `{SemanticMemoryRepository R} (query_embedding : list f64)
    (user_id tenant_id : uuid) (top_k : Z) : stm R (list ScoredFact) :=
  fr_search_by_similarity query_embedding user_id tenant_id top_k.

Definition RetrieveWorkingMemory_execute {W} `{WorkingMemoryStore W} (session_id : uuid) (limit : Z) :
  stm W (list WorkingMemoryTurn) := wm_get_recent_turns session_id limit.

Definition RetrieveEpisodes_by_session {R} `{EpisodicMemoryRepository R} (tenant_id session_id : uuid) :
  stm R (list EpisodicMemory) := er_get_by_session session_id tenant_id.

Definition RetrieveEpisodes_by_similarity {R} `{EpisodicMemoryRepository R} (query_embedding : list f64)
    (tenant_id : uuid) (top_k : Z) : stm R (list ScoredEpisode) :=
  er_search_by_similarity query_embedding tenant_id top_k.

Definition FindProcedure_by_task_pattern {P} `{ProceduralMemoryRepository P} (user_id : uuid) (task_pattern : string)
    (tenant_id : uuid) : stm P (option ProceduralMemory) := pr_find_by_task_pattern user_id task_pattern tenant_id.

(** ** Words in common *)

Definition _RANKING_BOOST_WEIGHT : f64 := flit 2 10.

Definition _facts_text (facts : list ScoredFact) : string :=
  match facts with
  | [] => "(none)"
  | _ => join nl (map (λ f, "- " +:+ sm_fact_key (sf_fact f) +:+ ": " +:+ sm_fact_value (sf_fact f))%string facts)
  end.

Definition _turns_text (turns : list WorkingMemoryTurn) : string :=
  match turns with
  | [] => "(none)"
  | _ => join nl (map (λ t, wt_role t +:+ ": " +:+ wt_content t)%string turns)
  end.

Section words.
Context `{CaseTable}.

Definition punctuation : string := (".,;:!?()" +:+ dq +:+ "'")%string.

Definition _words (text : string) : gset string :=
  list_to_set (map (strip_chars punctuation) (split (str_lower text))) ∖ {[EmptyString]}.

Definition fact_words (facts : list ScoredFact) : gset string :=
  ⋃ map (λ f, _words (sm_fact_value (sf_fact f))) facts.

Definition _keyword_overlap_ratio (content : string) (facts : list ScoredFact) : res f64 :=
  if decide (fact_words facts = ∅) then Ret fzero
  else int_true_div (Z.of_nat (size (_words content ∩ fact_words facts))) (Z.of_nat (size (fact_words facts))).

(** One [replace(r, score=...)]. *)
Definition boost (facts : list ScoredFact) (r : SearchResult) : res SearchResult :=
  ratio ← _keyword_overlap_ratio (sr_content r) facts;
  Ret (mkSearchResult (sr_document_id r) (sr_chunk_id r) (sr_content r)
         (fadd (sr_score r) (fmul _RANKING_BOOST_WEIGHT ratio))).

Definition _apply_ranking_boost (results : list SearchResult) (facts : list ScoredFact) : res (list SearchResult) :=
  boosted ← res_mapM (boost facts) results;
  Ret (sorted_desc sr_score boosted).
End words.

(** ** The use case *)

Record StateAwareRetrieve (S W F : Type) : Type := mkStateAware {
  sa_memory : S;
  sa_working : W;
  sa_fallback : F;
  sa_facts_top_k : Z;
  sa_recent_turns_limit : Z;
  sa_candidate_k : Z
}.
Arguments mkStateAware {S W F}.
Arguments sa_memory {S W F}.
Arguments sa_working {S W F}.
Arguments sa_fallback {S W F}.
Arguments sa_facts_top_k {S W F}.
Arguments sa_recent_turns_limit {S W F}.
Arguments sa_candidate_k {S W F}.

Section state_aware.
Context {R X G E M RE XE W F : Type} `{SemanticMemoryRepository R} `{SemanticMemoryIndex X} `{MemoryGraphRepository G}
  `{EmbeddingModel E} `{ChatModel M} `{EpisodicMemoryRepository RE} `{EpisodicMemoryIndex XE}
  `{WorkingMemoryStore W} `{Retriever F} `{CaseTable}.
Abbreviation Stores := (MagStores R X G E M * EpisodeStores RE XE)%type (only parsing).
Abbreviation SA := (StateAwareRetrieve Stores W F) (only parsing).

Definition on_memory {A} (m : stm Stores A) : stm SA A := λ s,
  let '(r, x) := m (sa_memory s) in
  (r, mkStateAware x (sa_working s) (sa_fallback s) (sa_facts_top_k s) (sa_recent_turns_limit s) (sa_candidate_k s)).
Definition on_working {A} (m : stm W A) : stm SA A := λ s,
  let '(r, x) := m (sa_working s) in
  (r, mkStateAware (sa_memory s) x (sa_fallback s) (sa_facts_top_k s) (sa_recent_turns_limit s) (sa_candidate_k s)).
Definition on_fallback {A} (m : stm F A) : stm SA A := λ s,
  let '(r, x) := m (sa_fallback s) in
  (r, mkStateAware (sa_memory s) (sa_working s) x (sa_facts_top_k s) (sa_recent_turns_limit s) (sa_candidate_k s)).

(** [first_line or query]. *)
Definition rewritten_query (query reply : string) : res string :=
  let rewritten := strip reply in
  first_line ← (if String.eqb rewritten EmptyString then Ret EmptyString
                else line ← py_index 0 (splitlines rewritten); Ret (strip line));
  Ret (if String.eqb first_line EmptyString then query else first_line).

Definition _rewrite_query (query : string) (facts : list ScoredFact) (recent_turns : list WorkingMemoryTurn) : stm Stores string :=
  reply ← on_fst (on_chat (cm_complete (REWRITE_PROMPT (_facts_text facts) (_turns_text recent_turns) query)));
  lift_res (rewritten_query query reply).

(** The content of the episode captured. *)
Definition retrieval_episode (query enriched_query : string) (results : list SearchResult) : jdict :=
  [("type"%string, JStr "state_aware_retrieval"); ("query"%string, JStr query);
   ("enriched_query"%string, JStr enriched_query);
   ("top_result_content"%string, match results with r :: _ => JStr (sr_content r) | [] => JNull end)].

Definition StateAware_execute (tenant_id user_id session_id : uuid) (query : string) (top_k : Z) : stm SA (list SearchResult) :=
  s ← get_st;
  query_embedding ← on_memory (on_fst (on_embedder (embed query)));
  facts ← on_memory (on_fst (on_repository
    (FindSemanticFacts_by_similarity query_embedding user_id tenant_id (sa_facts_top_k s))));
  recent_turns ← on_working (RetrieveWorkingMemory_execute session_id (sa_recent_turns_limit s));
  enriched_query ← on_memory (_rewrite_query query facts recent_turns);
  raw_results ← on_fallback (retrieve tenant_id enriched_query (Z.max top_k (sa_candidate_k s)));
  boosted ← lift_res (_apply_ranking_boost raw_results facts);
  let boosted_results := py_slice 0 top_k boosted in
  on_memory (CaptureEpisode_execute tenant_id user_id session_id (retrieval_episode query enriched_query boosted_results));;
  mret boosted_results.
End state_aware.

(** ** What it returns and what it remembers *)

(** A result as the boost leaves it: the same passage, its score raised by the
    weighted share of the facts' words it contains. *)
Definition rescored `{CaseTable} (facts : list ScoredFact) (r r' : SearchResult) : Prop :=
  sr_document_id r' = sr_document_id r ∧ sr_chunk_id r' = sr_chunk_id r ∧ sr_content r' = sr_content r ∧
  ∃ ratio, sr_score r' = fadd (sr_score r) (fmul _RANKING_BOOST_WEIGHT ratio) ∧
    (if decide (fact_words facts = ∅) then ratio = fzero
     else ∃ common, 0 ≤ common ≤ Z.of_nat (size (fact_words facts)) ∧
            int_true_div common (Z.of_nat (size (fact_words facts))) = Ret ratio).

Lemma boost_rescored `{CaseTable} facts r r' : boost facts r = Ret r' → rescored facts r r'.
Proof.
  unfold boost, _keyword_overlap_ratio, rescored. destruct (decide (fact_words facts = ∅)).
  - intros [= <-]. split_and!; [done..|]. by exists fzero.
  - destruct (int_true_div _ _) as [ratio|e] eqn:Hd; [|done]. intros [= <-]. split_and!; [done..|].
    exists ratio. split; [done|]. eexists. split; [|exact Hd]. split; [lia|]. apply Nat2Z.inj_le, subseteq_size. set_solver.
Qed.

(** The candidates rescored and ranked, best first when every score is a number. *)
Definition ranking `{CaseTable} (facts : list ScoredFact) (raw ranked : list SearchResult) : Prop :=
  ∃ boosted, Forall2 (rescored facts) raw boosted ∧ ranked ≡ₚ boosted ∧
    (keys_ok sr_score boosted → StronglySorted (λ a b, key_ge sr_score a b = true) ranked).

Lemma boost_ranks `{CaseTable} facts raw ranked : _apply_ranking_boost raw facts = Ret ranked → ranking facts raw ranked.
Proof.
  unfold _apply_ranking_boost. destruct (res_mapM (boost facts) raw) as [boosted|e] eqn:Hb; [|done]. intros [= <-].
  exists boosted. split_and!; [|apply sorted_desc_perm|apply sorted_desc_sorted].
  revert boosted Hb. induction raw as [|r raw IH]; intros boosted; cbn [res_mapM mbind res_bind]; [by intros [= <-]|].
  destruct (boost facts r) as [r'|e] eqn:Hr; [|done]. cbn [res_bind].
  destruct (res_mapM (boost facts) raw) as [rest|e]; [|done]. intros [= <-].
  constructor; [by apply boost_rescored|by apply IH].
Qed.

Lemma rewritten_not_empty query reply q : rewritten_query query reply = Ret q → q = EmptyString → query = EmptyString.
Proof.
  unfold rewritten_query. destruct (if String.eqb _ _ then _ else _) as [line|e]; [|done]. cbn [mbind res_bind].
  destruct (String.eqb_spec line EmptyString); intros [= <-] ?; congruence.
Qed.

Section personal.
Context {R X G E M RE XE W F : Type} `{SemanticMemoryRepository R} `{SemanticMemoryIndex X} `{MemoryGraphRepository G}
  `{EmbeddingModel E} `{ChatModel M} `{EpisodicMemoryRepository RE} `{EpisodicMemoryIndex XE}
  `{WorkingMemoryStore W} `{Retriever F} `{CaseTable}.
Context (episodes : RE → uuid → list EpisodicMemory) `{!EpisodicMemoryLaws RE episodes}.
Abbreviation Stores := (MagStores R X G E M * EpisodeStores RE XE)%type (only parsing).
Abbreviation SA := (StateAwareRetrieve Stores W F) (only parsing).

(** Work that writes no episode and leaves the fallback and the settings. *)
Definition reads_memory {A} (m : stm SA A) : Prop := ∀ s r s', m s = (r, s') →
  (sa_memory s').2 = (sa_memory s).2 ∧ sa_fallback s' = sa_fallback s ∧
  sa_candidate_k s' = sa_candidate_k s.

Lemma on_memory_reads {A} (m : stm (MagStores R X G E M) A) : reads_memory (on_memory (on_fst m)).
Proof. intros s r s'. unfold on_memory, on_fst. destruct (m (sa_memory s).1). by intros [= _ <-]. Qed.

Lemma on_working_reads {A} (m : stm W A) : reads_memory (on_working m).
Proof. intros s r s'. unfold on_working. destruct (m (sa_working s)). by intros [= _ <-]. Qed.

Lemma rewrite_reads q facts turns : reads_memory (on_memory (_rewrite_query q facts turns : stm Stores string)).
Proof.
  intros s r s'. unfold on_memory, _rewrite_query, on_fst, mbind, stm_bind.
  destruct (on_chat _ (sa_memory s).1) as [[reply|e] m']; by intros [= _ <-].
Qed.

Lemma rewrite_result q facts turns (s s' : SA) enriched :
  on_memory (_rewrite_query q facts turns : stm Stores string) s = (Ret enriched, s') → enriched = EmptyString → q = EmptyString.
Proof.
  unfold on_memory, _rewrite_query, on_fst, mbind, stm_bind.
  destruct (on_chat _ (sa_memory s).1) as [[reply|e] m']; [|done]. unfold lift_res. intros [= Hq _].
  by apply rewritten_not_empty with reply.
Qed.

End personal.

(** ** A user who prefers Rust *)

#[local] Existing Instances parrot_chat sample_facts sample_episodes sample_episode_laws.
#[local] Instance ascii_case : CaseTable := lower.
#[local] Instance no_turns : WorkingMemoryStore unit := {| wm_push_turn _ _ := mret tt; wm_get_recent_turns _ _ := mret [] |}.
#[local] Instance two_passages : Retriever unit := λ _ _ k,
  mret (take (Z.to_nat k) [mkSearchResult 1 11 "A tutorial." (flit 1 2); mkSearchResult 2 12 "A Rust tutorial." (flit 2 5)]).

Definition rust_fact : SemanticMemory := mkFact 7 3 "language" "Rust!" [fone] fone "user" None None.

Definition personal_sample : StateAwareRetrieve (MagStores PostgresFacts Sink Sink LengthEmbedder Parrot * EpisodeStores PostgresEpisodes Sink) unit unit :=
  mkStateAware
    (mkStores (mkPgFacts {[(3, "language"%string) := mkRow 1 rust_fact]} [] 1 1000) (mkSink true 0) (mkSink true 0)
       (mkLengthEmbedder 0) (mkParrot "a rust tutorial") 1000 (λ n, 100 + Z.of_nat n) 0,
     mkEpisodeStores (mkPgEpisodes [] 1 1000) (mkSink true 0)) tt tt 5 5 20.

Definition personal_run := StateAware_execute 1 3 5 "tutorial" 1 personal_sample.

Definition personal_out : list SearchResult := match personal_run.1 with Ret out => out | Raise _ => [] end.

(** The fallback ranks the other passage first; the boost promotes this one. *)
Example boost_promotes : map sr_chunk_id personal_out = [12].
Proof. vm_compute. reflexivity. Qed.

Lemma personal_run_returns : personal_run.1 = Ret personal_out.
Proof. vm_compute. reflexivity. Qed.

Lemma Ret_injective {A} (a b : A) : Ret a = Ret b → a = b.
Proof. by intros [=]. Qed.

