(* ===== verification/ProceduralStore.v ===== *)
(** * Procedures in Postgres

    The contract a ProceduralMemoryRepository keeps and
    mag/infrastructure/postgres_procedural_memory_repository.py, with its SQL read
    as operations on the procedural_memory table of alembic/versions/0004: the
    primary key, the unique (user_id, task_pattern) and the row-level security.
    Parameters: the text Postgres gives back for a jsonb value, and whether the
    columns and the foreign key take a row. *)

From Stdlib Require Import ZArith Lia Ascii String Floats.SpecFloat.
From S2P Require Import Prelude PyFloat PyTime PyStr Digest Json PyUuid MagDomain JsonText SemanticStore MemoryWriting StateAware.

(** ** The contract *)

(** One tenant's procedures are a finite map from (user, pattern); a save that
    raises leaves it, and a find reads the slot, its workflow as [kept] has it. *)
Class ProceduralMemoryLaws (R : Type) `{ProceduralMemoryRepository R} (ok : R → Prop) (kept : jdict → option jdict)
    (procedures : R → uuid → gmap (uuid * string) ProceduralMemory) : Prop := {
  pr_save_ok p t r : ok r → ok (pr_save p t r).2;
  pr_save_spec p t r : ok r →
    match pr_save p t r with
    | (Ret _, r') => procedures r' t = <[(pm_user_id p, pm_task_pattern p) := p]> (procedures r t)
        ∧ ∀ t', t' ≠ t → procedures r' t' = procedures r t'
    | (Raise _, r') => r' = r
    end;
  pr_find_spec u k t r w : ok r → ∀ p, procedures r t !! (u, k) = Some p → kept (pm_workflow p) = Some w →
    pr_find_by_task_pattern u k t r =
      (Ret (Some (mkProcedure (pm_id p) u k w (pm_success_rate p) (pm_last_used p))), r);
  pr_absent_spec u k t r : ok r → procedures r t !! (u, k) = None → pr_find_by_task_pattern u k t r = (Ret None, r)
}.

(** ** The table *)

(** What another program's row may hold where the entity has a dict. *)
Class UntypedWorkflow : Type := untyped_workflow : json → res jdict.

Record ProcedureRow : Type := mkProcedureRow {
  po_tenant_id : uuid;
  po_procedure : ProceduralMemory;
  po_workflow : string
}.

Record PostgresProcedures : Type := mkPgProcedures {
  pq_rows : gmap (uuid * string) ProcedureRow;
  pq_tenant : uuid
}.

Definition pq_set_rows (rows : gmap (uuid * string) ProcedureRow) (p : PostgresProcedures) : PostgresProcedures :=
  mkPgProcedures rows (pq_tenant p).

Section postgres.
Context `{UntypedWorkflow} (jsonb_text : string → option string) (accepts : ProceduralMemory → bool).

(** The primary key is taken by another slot's row. *)
Definition id_taken (id : uuid) (k : uuid * string) (rows : gmap (uuid * string) ProcedureRow) : bool :=
  existsb (λ kr, negb (bool_decide (kr.1 = k)) && (pm_id (po_procedure kr.2) =? id)) (map_to_list rows).

(** INSERT ... ON CONFLICT (user_id, task_pattern) DO UPDATE; the row keeps its tenant. *)
Definition pq_save (procedure : ProceduralMemory) (tenant_id : uuid) : stm PostgresProcedures unit :=
  p ← get_st;
  let k := (pm_user_id procedure, pm_task_pattern procedure) in
  match jsonb_text (json_dumps false (JObj (pm_workflow procedure))) with
  | None => raise (BackendError "invalid input syntax for type json")
  | Some workflow =>
      if negb (accepts procedure) then raise (BackendError "the row is not accepted")
      else if id_taken (pm_id procedure) k (pq_rows p) then raise (BackendError "duplicate key value violates unique constraint")
      else if decide (tenant_id = pq_tenant p) then
        match pq_rows p !! k with
        | Some row =>
            if decide (po_tenant_id row = pq_tenant p)
            then modify (pq_set_rows (<[k := mkProcedureRow (po_tenant_id row) procedure workflow]> (pq_rows p)))
            else raise rls_violation
        | None => modify (pq_set_rows (<[k := mkProcedureRow tenant_id procedure workflow]> (pq_rows p)))
        end
      else raise rls_violation
  end.

Definition _row_to_procedure (row : ProcedureRow) : res ProceduralMemory :=
  let stored := po_procedure row in
  parsed ← json_loads (po_workflow row);
  workflow ← match parsed with JObj o => Ret o | _ => untyped_workflow parsed end;
  Ret (mkProcedure (pm_id stored) (pm_user_id stored) (pm_task_pattern stored) workflow (pm_success_rate stored) (pm_last_used stored)).

Definition pq_find_by_task_pattern (user_id : uuid) (task_pattern : string) (tenant_id : uuid) : stm PostgresProcedures (option ProceduralMemory) :=
  p ← get_st;
  match pq_rows p !! (user_id, task_pattern) with
  | Some row =>
      if decide (po_tenant_id row = pq_tenant p ∧ po_tenant_id row = tenant_id)
      then r ← lift_res (_row_to_procedure row); mret (Some r)
      else mret None
  | None => mret None
  end.

#[export] Instance postgres_procedural_memory : ProceduralMemoryRepository PostgresProcedures := {|
  pr_save := pq_save;
  pr_find_by_task_pattern := pq_find_by_task_pattern
|}.

(** ** It keeps the contract *)

(** The procedures of one tenant that row-level security lets through. *)
Definition procedures_of (p : PostgresProcedures) (tenant_id : uuid) : gmap (uuid * string) ProceduralMemory :=
  po_procedure <$> filter (λ kr, po_tenant_id kr.2 = tenant_id ∧ po_tenant_id kr.2 = pq_tenant p) (pq_rows p).

(** A workflow as jsonb keeps it, when what comes back is an object. *)
Definition jsonb_kept (w : jdict) : option jdict :=
  s ← jsonb_text (json_dumps false (JObj w));
  match json_loads s with Ret (JObj o) => Some o | _ => None end.

(** Every row is in its own slot and holds its workflow's text. *)
Definition rows_ok (rows : gmap (uuid * string) ProcedureRow) : Prop :=
  map_Forall (λ k row, (pm_user_id (po_procedure row), pm_task_pattern (po_procedure row)) = k ∧
    jsonb_text (json_dumps false (JObj (pm_workflow (po_procedure row)))) = Some (po_workflow row)) rows.

Lemma pq_save_cases procedure t p :
  (∃ e, pq_save procedure t p = (Raise e, p)) ∨
  ∃ s, jsonb_text (json_dumps false (JObj (pm_workflow procedure))) = Some s ∧ t = pq_tenant p ∧
    (∀ row, pq_rows p !! (pm_user_id procedure, pm_task_pattern procedure) = Some row → po_tenant_id row = pq_tenant p) ∧
    pq_save procedure t p =
      (Ret tt, pq_set_rows (<[(pm_user_id procedure, pm_task_pattern procedure) := mkProcedureRow (pq_tenant p) procedure s]> (pq_rows p)) p).
Proof.
  unfold pq_save, mbind, stm_bind, get_st, raise, modify. destruct (jsonb_text _) as [s|]; [|by left; eexists].
  destruct (negb _); [by left; eexists|]. destruct (id_taken _ _ _); [by left; eexists|].
  destruct (decide (t = pq_tenant p)) as [->|]; [|by left; eexists].
  destruct (pq_rows p !! _) as [row|]; [|right; by exists s].
  destruct (decide (po_tenant_id row = pq_tenant p)) as [Ht|]; [|by left; eexists]. right. exists s. rewrite Ht. split_and!; try done. by intros ? [= <-].
Qed.

Lemma pq_save_rows_ok procedure t p : rows_ok (pq_rows p) → rows_ok (pq_rows (pq_save procedure t p).2).
Proof.
  intros Hok. destruct (pq_save_cases procedure t p) as [[e ->]|(s & Hs & _ & _ & ->)]; [done|]. by apply map_Forall_insert_2.
Qed.

Lemma procedures_of_lookup p t k : procedures_of p t !! k =
  row ← pq_rows p !! k; guard (po_tenant_id row = t ∧ po_tenant_id row = pq_tenant p);; Some (po_procedure row).
Proof.
  unfold procedures_of. rewrite lookup_fmap, map_lookup_filter. destruct (pq_rows p !! k) as [row|]; [|done]. simpl. by repeat case_guard.
Qed.

Lemma procedures_of_save procedure t p p' : pq_save procedure t p = (Ret tt, p') →
  procedures_of p' t = <[(pm_user_id procedure, pm_task_pattern procedure) := procedure]> (procedures_of p t) ∧
  ∀ t', t' ≠ t → procedures_of p' t' = procedures_of p t'.
Proof.
  destruct (pq_save_cases procedure t p) as [[e ->]|(s & Hs & -> & Hrow & ->)]; [done|]. intros [= <-].
  split; [|intros t' Hne]; apply map_eq; intros k; destruct (decide ((pm_user_id procedure, pm_task_pattern procedure) = k)) as [<-|Hk];
    rewrite ?lookup_insert_eq, ?(lookup_insert_ne _ _ k) by done; rewrite !procedures_of_lookup; cbn [pq_rows pq_set_rows pq_tenant];
    rewrite ?lookup_insert_eq, ?(lookup_insert_ne _ _ k) by done; try done; simpl.
  - by case_guard; naive_solver.
  - destruct (pq_rows p !! _) as [row|]; simpl; repeat case_guard; naive_solver.
Qed.

Lemma pq_find_kept u k t p o w : rows_ok (pq_rows p) → procedures_of p t !! (u, k) = Some o → jsonb_kept (pm_workflow o) = Some w →
  pq_find_by_task_pattern u k t p = (Ret (Some (mkProcedure (pm_id o) u k w (pm_success_rate o) (pm_last_used o))), p).
Proof.
  intros Hok Hp Hw. rewrite procedures_of_lookup in Hp. unfold pq_find_by_task_pattern, mbind, stm_bind, get_st, lift_res, mret, stm_ret.
  destruct (pq_rows p !! (u, k)) as [row|] eqn:Hr; [|done]. cbn [mbind option_bind] in Hp. case_guard as Ht; [|done]. injection Hp as <-.
  destruct (Hok _ _ Hr) as [[= <- <-] Hs]. rewrite decide_True by naive_solver. unfold jsonb_kept in Hw. rewrite Hs in Hw. cbn [mbind option_bind] in Hw.
  unfold _row_to_procedure. destruct (json_loads (po_workflow row)) as [[]|]; try done. injection Hw as ->. done.
Qed.

Lemma pq_find_absent u k t p : procedures_of p t !! (u, k) = None → pq_find_by_task_pattern u k t p = (Ret None, p).
Proof.
  rewrite procedures_of_lookup. unfold pq_find_by_task_pattern, mbind, stm_bind, get_st, mret, stm_ret. destruct (pq_rows p !! (u, k)) as [row|]; [|done].
  cbn [mbind option_bind]. case_guard as Ht; [done|]. intros _. rewrite decide_False by naive_solver. done.
Qed.

#[export] Instance postgres_procedural_laws : ProceduralMemoryLaws PostgresProcedures (λ p, rows_ok (pq_rows p)) jsonb_kept procedures_of.
Proof.
  split.
  - intros. by apply pq_save_rows_ok.
  - intros p t r _. cbn. destruct (pq_save p t r) as [[[]|e] r'] eqn:Hs; [by apply procedures_of_save|].
    destruct (pq_save_cases p t r) as [[e' He]|(s & _ & _ & _ & He)]; rewrite He in Hs; [by injection Hs|done].
  - intros u k t r w Hok p Hp Hw. by apply pq_find_kept.
  - intros u k t r _. by apply pq_find_absent.
Qed.
End postgres.

(** ** Recorded, then looked up *)

(** A recorded procedure is found again. Over any procedure store that keeps
    the contract: when recording a procedure returns, looking its pattern up as the
    same user in the same tenant gives it back under its own id, with the rate and
    the time recorded and the workflow as the store keeps it, and changes nothing;
    every other pattern, user and tenant has what it had. When recording raises,
    the store is what it was. The id is that of the user and the pattern, so a
    second recording overwrites the first. *)
Theorem recorded_procedure_is_found {R : Type} `{Hrepo : ProceduralMemoryRepository R} (ok : R → Prop) (kept : jdict → option jdict)
    (procedures : R → uuid → gmap (uuid * string) ProceduralMemory) `{!ProceduralMemoryLaws R ok kept procedures}
    tenant_id user_id pattern workflow rate last_used (r : R) : ok r →
  match RecordProcedure_execute tenant_id user_id pattern workflow rate last_used r with
  | (Ret p, r') => ok r' ∧ p = mkProcedure (procedure_id user_id pattern) user_id pattern workflow rate last_used ∧
      (∀ w, kept workflow = Some w → FindProcedure_by_task_pattern user_id pattern tenant_id r' =
        (Ret (Some (mkProcedure (procedure_id user_id pattern) user_id pattern w rate last_used)), r')) ∧
      (∀ k, k ≠ (user_id, pattern) → procedures r' tenant_id !! k = procedures r tenant_id !! k) ∧
      (∀ t, t ≠ tenant_id → procedures r' t = procedures r t)
  | (Raise _, r') => r' = r
  end.
Proof.
  intros Hok. unfold RecordProcedure_execute, mbind, stm_bind, mret, stm_ret. set (p := mkProcedure _ _ _ _ _ _).
  pose proof (pr_save_ok p tenant_id r Hok) as Hok'. pose proof (pr_save_spec p tenant_id r Hok) as Hs.
  destruct (pr_save p tenant_id r) as [[[]|e] r']; [|done]. destruct Hs as [Hs Hother]. cbn [snd] in Hok'. split_and!; try done.
  - intros w Hw. apply (pr_find_spec user_id pattern tenant_id r' w Hok' p); [|done]. rewrite Hs. apply lookup_insert_eq.
  - intros k Hk. rewrite Hs. by apply lookup_insert_ne.
Qed.

(** A store whose jsonb column gives a document's text back. *)
#[local] Instance no_untyped_workflow : UntypedWorkflow := λ _, Raise (TypeError "not a dict").

Definition deploying : jdict := [("steps", JList [JStr "build"; JStr "push"])]%string.

Lemma recorded_procedure_is_found_witness : ∃ r',
  @RecordProcedure_execute _ (postgres_procedural_memory Some (λ _, true)) 9 1 "deploy" deploying fone None (mkPgProcedures ∅ 9) =
    (Ret (mkProcedure (procedure_id 1 "deploy") 1 "deploy" deploying fone None), r') ∧
  @FindProcedure_by_task_pattern _ (postgres_procedural_memory Some (λ _, true)) 1 "deploy" 9 r' =
    (Ret (Some (mkProcedure (procedure_id 1 "deploy") 1 "deploy" deploying fone None)), r').
Proof.
  pose proof (recorded_procedure_is_found (Hrepo := postgres_procedural_memory Some (λ _, true))
    (λ p, rows_ok Some (pq_rows p)) (jsonb_kept Some) procedures_of 9 1 "deploy" deploying fone None (mkPgProcedures ∅ 9)
    (map_Forall_empty _)) as H.
  destruct (@RecordProcedure_execute _ (postgres_procedural_memory Some (λ _, true)) 9 1 "deploy" deploying fone None (mkPgProcedures ∅ 9)) as [[p|e] r'] eqn:Hr.
  - destruct H as (_ & -> & Hfind & _). exists r'. split; [done|]. apply Hfind. vm_compute. reflexivity.
  - exfalso. cbn in Hr. discriminate Hr.
Defined.
