(* ===== verification/WarmTier.v ===== *)
(** * MAG's side of the orchestration layer

    orchestration/infrastructure/semantic_memory_warm_store.py, the warm tier
    kept as semantic facts; session_scoped_semantic_fact_search.py, a search in
    a session of its own; record_semantic_fact_writer.py, a data source written
    as a fact in a transaction of its own.  All three over the Postgres
    repository of SemanticStore and any vector index. *)

From Stdlib Require Import ZArith Lia Ascii String Floats.SpecFloat.
From S2P Require Import Prelude PyFloat PyTime Digest PyStr Json MagDomain RagPorts Doubles Entities Ports SyncMixer SemanticStore MemoryEvolution CascadeTiers Ingestion.

(** ** SemanticMemoryWarmStore *)

Definition _fact_key_for (document_id : uuid) : string := ("rag_promoted:" +:+ uuid_str document_id)%string.

Record SemanticMemoryWarmStore (R X E : Type) : Type := mkWarmStore {
  sw_repository : R;
  sw_index : X;
  sw_embedder : E;
  sw_now : datetime
}.
Arguments mkWarmStore {R X E}.
Arguments sw_repository {R X E}.
Arguments sw_index {R X E}.
Arguments sw_embedder {R X E}.
Arguments sw_now {R X E}.

Section warm_store.
Context {R X E : Type} `{SemanticMemoryRepository R} `{SemanticMemoryIndex X} `{EmbeddingModel E}.
Abbreviation WS := (SemanticMemoryWarmStore R X E) (only parsing).

Definition on_facts {A} (m : stm R A) : stm WS A := λ s,
  let '(r, x) := m (sw_repository s) in (r, mkWarmStore x (sw_index s) (sw_embedder s) (sw_now s)).
Definition on_vectors {A} (m : stm X A) : stm WS A := λ s,
  let '(r, x) := m (sw_index s) in (r, mkWarmStore (sw_repository s) x (sw_embedder s) (sw_now s)).
Definition on_model {A} (m : stm E A) : stm WS A := λ s,
  let '(r, x) := m (sw_embedder s) in (r, mkWarmStore (sw_repository s) (sw_index s) x (sw_now s)).

Definition warm_promote (tenant_id user_id document_id : uuid) (content : string) : stm WS unit :=
  let fact_key := _fact_key_for document_id in
  embedding ← on_model (embed content);
  let fact := mkFact (fact_id user_id fact_key) user_id fact_key content embedding fone "" None None in
  on_facts (fr_save fact tenant_id);;
  on_vectors (si_upsert fact tenant_id).

(** What is warm of a fact, at [now]. *)
Definition warm_entry (now : datetime) (fact : SemanticMemory) : option WarmEntry :=
  match sm_archived_at fact with
  | Some _ => None
  | None =>
      if match sm_valid_until fact with Some v => v <=? now | None => false end then None
      else Some (mkWarmEntry (content_hash (sm_fact_value fact)) (sm_fact_value fact))
  end.

Definition warm_lookup (tenant_id user_id document_id : uuid) : stm WS (option WarmEntry) :=
  fact ← on_facts (fr_find_by_key user_id (_fact_key_for document_id) tenant_id);
  s ← get_st;
  mret (fact ≫= warm_entry (sw_now s)).

Definition warm_demote (tenant_id user_id document_id : uuid) : stm WS unit :=
  entry ← warm_lookup tenant_id user_id document_id;
  match entry with
  | None => mret tt
  | Some _ => on_facts (fr_invalidate user_id (_fact_key_for document_id) tenant_id None);; mret tt
  end.

Definition warm_contains (tenant_id user_id document_id : uuid) : stm WS bool :=
  entry ← warm_lookup tenant_id user_id document_id;
  mret (bool_decide (is_Some entry)).

#[export] Instance semantic_memory_warm_store : WarmStore WS := {|
  ws_promote := warm_promote;
  ws_lookup := warm_lookup;
  ws_demote := warm_demote;
  ws_contains := warm_contains
|}.
End warm_store.

(** ** It keeps the warm tier's contract *)

Section warm_laws.
Context (cosine_distance : list f64 → list f64 → f64) {X E : Type} `{SemanticMemoryIndex X} `{EmbeddingModel E}.
#[local] Instance facts_repository : SemanticMemoryRepository PostgresFacts := postgres_semantic_memory cosine_distance.
#[local] Instance facts_laws : SemanticMemoryLaws PostgresFacts facts_of history_of := postgres_semantic_laws cosine_distance.
Abbreviation WS := (SemanticMemoryWarmStore PostgresFacts X E) (only parsing).

Definition warm_slot (tenant_id user_id document_id : uuid) : uuid * (uuid * string) :=
  (tenant_id, (user_id, _fact_key_for document_id)).

Definition warm_view (w : WS) (k : uuid * (uuid * string)) : option WarmEntry :=
  facts_of (sw_repository w) k.1 !! k.2 ≫= warm_entry (sw_now w).

(** The database's transaction began no later than the application's clock reads. *)
Definition clock_ok (w : WS) : Prop := pf_now (sw_repository w) ≤ sw_now w.

(** Documents have slots of their own. *)
Lemma warm_slot_inj t u d d' : uuid_ok d → uuid_ok d' → warm_slot t u d = warm_slot t u d' → d = d'.
Proof. intros Hd Hd' Heq. apply uuid_str_inj; [done..|]. apply (f_equal (λ k, k.2.2)) in Heq. by apply (inj (String.append _)) in Heq.
Qed.

(** Nothing is written outside one slot of the transaction's own tenant. *)
Definition writes_slot (k : uuid * (uuid * string)) (p p' : PostgresFacts) : Prop :=
  pf_tenant p' = pf_tenant p ∧ pf_now p' = pf_now p ∧ ∀ j, j ≠ k → facts_of p' j.1 !! j.2 = facts_of p j.1 !! j.2.

Lemma writes_slot_one (t : uuid) (k : uuid * string) (p p' : PostgresFacts) (f : gmap (uuid * string) SemanticMemory → gmap (uuid * string) SemanticMemory) :
  pf_tenant p' = pf_tenant p → pf_now p' = pf_now p → facts_of p' t = f (facts_of p t) →
  (∀ m j, j ≠ k → f m !! j = m !! j) → (t ≠ pf_tenant p → p' = p) → writes_slot (t, k) p p'.
Proof.
  intros Ht Hn Hf Hkeep Hother. split; [done|]. split; [done|]. intros [t' j] Hne. cbn.
  destruct (decide (t' = t)) as [->|Htt]; [rewrite Hf; apply Hkeep; congruence|].
  destruct (decide (t = pf_tenant p)) as [->|Hnt]; [by rewrite !facts_of_other by congruence|by rewrite Hother].
Qed.

Lemma save_writes_slot f t p r p' : pf_save f t p = (r, p') → writes_slot (t, (sm_user_id f, sm_fact_key f)) p p'.
Proof.
  intros Hrun. pose proof (fr_save_spec (facts := facts_of) (history := history_of) f t p) as Hs. cbn in Hs. rewrite Hrun in Hs.
  assert (pf_tenant p' = pf_tenant p ∧ pf_now p' = pf_now p ∧ (t ≠ pf_tenant p → p' = p)) as (Ht & Hn & Hsame).
  { revert Hrun. unfold pf_save, mbind, stm_bind, get_st, modify, raise. repeat case_match; intros [= _ <-]; by split_and!. }
  destruct r as [a|e]; destruct Hs as [Hf _].
  - apply (writes_slot_one t _ p p' (<[(sm_user_id f, sm_fact_key f) := f]>)); [done..| |done].
    intros m j Hj. by rewrite lookup_insert_ne.
  - by apply (writes_slot_one t _ p p' (λ m, m)).
Qed.

Lemma invalidate_writes_slot u k t p r p' : pf_invalidate u k t None p = (r, p') → writes_slot (t, (u, k)) p p'.
Proof.
  intros Hrun. unfold pf_invalidate in Hrun. pose proof (pf_update_status_spec with_valid_until u k t None p) as Hs.
  rewrite Hrun in Hs. destruct r as [a|e]; [|by subst].
  destruct Hs as (f & Hf & _ & Hfacts & _ & Hn & Ht).
  apply (writes_slot_one t _ p p' (<[(u, k) := with_valid_until f (Some a)]>)); [done..| |].
  - intros m j Hj. by rewrite lookup_insert_ne.
  - intros Hne. by rewrite facts_of_other in Hf.
Qed.

Lemma warm_lookup_run t u d (w : WS) : warm_lookup t u d w = (Ret (warm_view w (warm_slot t u d)), w).
Proof.
  destruct w as [p x m now]. unfold warm_lookup, warm_view, warm_slot, on_facts, mbind, stm_bind. cbn [sw_repository].
  destruct (fr_find_spec (facts := facts_of) (history := history_of) u (_fact_key_for d) t p) as (p' & Hf & _).
  assert (p' = p) as -> by (cbn in Hf; unfold pf_find_by_key, mbind, stm_bind, get_st in Hf; by injection Hf).
  rewrite Hf. cbn. by destruct (facts_of p t !! _).
Qed.

(** An expiry that is not after the clock is past. *)
Lemma invalidated_is_cold now v f : v ≤ now → warm_entry now (with_valid_until f (Some v)) = None.
Proof. intros Hv. unfold warm_entry. cbn. destruct (sm_archived_at f); [done|]. destruct (Z.leb_spec v now); [done|lia]. Qed.

#[export] Instance warm_store_laws : WarmStoreLaws WS clock_ok warm_slot warm_view.
Proof.
  split.
  - intros t u d w Hok. exists w. split; [apply warm_lookup_run|done].
  - intros t u d w Hok. exists w. cbn. unfold warm_contains, mbind, stm_bind. by rewrite warm_lookup_run.
  - intros t u d w Hok. cbn. unfold warm_demote, mbind, stm_bind. rewrite warm_lookup_run.
    destruct (warm_view w (warm_slot t u d)) as [entry|] eqn:Hv; [|by exists w].
    unfold warm_view, warm_slot in Hv. cbn in Hv. destruct (facts_of (sw_repository w) t !! _) as [f|] eqn:Hf; [|done].
    unfold on_facts. cbn. destruct (pf_invalidate u (_fact_key_for d) t None (sw_repository w)) as [r p'] eqn:Hrun.
    pose proof (invalidate_writes_slot _ _ _ _ _ _ Hrun) as (Ht & Hn & Hkeep).
    unfold pf_invalidate in Hrun. pose proof (pf_update_status_spec with_valid_until u (_fact_key_for d) t None (sw_repository w)) as Hs.
    rewrite Hrun in Hs. destruct r as [v|e].
    + destruct Hs as (g & _ & -> & Hfacts & _). eexists. split; [done|]. unfold clock_ok in *. cbn. rewrite Hn. split; [done|].
      unfold warm_view. cbn. split; [|intros k Hk; by rewrite Hkeep].
      rewrite Hfacts, lookup_insert_eq. cbn. by apply invalidated_is_cold.
    + exfalso. rewrite facts_of_lookup in Hf. destruct (pf_rows (sw_repository w) !! _) as [row|] eqn:Hrow; [|done]. cbn in Hf.
      case_guard as Hg; [|done]. destruct Hg as [Hg1 Hg2]. unfold pf_update_status, mbind, stm_bind, get_st, visible_row in Hrun.
      rewrite Hrow in Hrun. cbn in Hrun. case_guard; [|done]. cbn in Hrun. by rewrite decide_True in Hrun.
  - intros t u d s w Hok. cbn -[fone]. unfold warm_promote, on_model, on_facts, on_vectors, mbind, stm_bind.
    destruct (embed s (sw_embedder w)) as [[v|e] m]; [|split_and!; [done..|discriminate]]. cbn -[fone].
    destruct (pf_save _ t (sw_repository w)) as [r p'] eqn:Hsave. pose proof (save_writes_slot _ _ _ _ _ Hsave) as (Ht & Hn & Hkeep).
    pose proof (fr_save_spec (facts := facts_of) (history := history_of) (mkFact (fact_id u (_fact_key_for d)) u (_fact_key_for d) s v fone "" None None) t (sw_repository w)) as Hs.
    cbn -[fone] in Hs. rewrite Hsave in Hs. unfold clock_ok, warm_view in *. cbn [sm_user_id sm_fact_key] in Hkeep. destruct r as [[]|e].
    + cbn -[fone]. case (si_upsert (mkFact (fact_id u (_fact_key_for d)) u (_fact_key_for d) s v fone "" None None) t (sw_index w)); intros [[]|e] x'; cbn; rewrite Hn; (split; [done|]); (split; [intros k Hk; by rewrite Hkeep|]); [|done].
      intros _ _. destruct Hs as [-> _]. rewrite lookup_insert_eq. done.
    + cbn. rewrite Hn. split; [done|]. split; [intros k Hk; by rewrite Hkeep|done].
Qed.

End warm_laws.

(** ** SessionScopedSemanticFactSearch *)

(** The sessions opened so far, how many were closed and how many the search
    gave up on; what closing and invalidating the n-th raises, if anything. *)
Record SearchSessions (R : Type) : Type := mkSessions {
  se_repository : R;
  se_opened : nat;
  se_closed : nat;
  se_invalidated : nat;
  se_on_close : nat → option exn;
  se_on_invalidate : nat → option exn
}.
Arguments mkSessions {R}.
Arguments se_repository {R}.
Arguments se_opened {R}.
Arguments se_closed {R}.
Arguments se_invalidated {R}.
Arguments se_on_close {R}.
Arguments se_on_invalidate {R}.

Section fact_search.
Context {R : Type} `{SemanticMemoryRepository R} (set_tenant_context : uuid → stm R unit).
Abbreviation SS := (SearchSessions R) (only parsing).

Definition in_session_of {A} (m : stm R A) : stm SS A := λ s,
  let '(r, x) := m (se_repository s) in
  (r, mkSessions x (se_opened s) (se_closed s) (se_invalidated s) (se_on_close s) (se_on_invalidate s)).

Definition open_session : stm SS nat := λ s,
  (Ret (se_opened s), mkSessions (se_repository s) (S (se_opened s)) (se_closed s) (se_invalidated s) (se_on_close s) (se_on_invalidate s)).

Definition close_session (n : nat) : stm SS unit := λ s,
  match se_on_close s n with
  | Some e => (Raise e, s)
  | None => (Ret tt, mkSessions (se_repository s) (se_opened s) (S (se_closed s)) (se_invalidated s) (se_on_close s) (se_on_invalidate s))
  end.

(** [await asyncio.shield(_discard(session))]: the invalidation is attempted
    whatever happens; an [Exception] it raises is logged, a cancellation is not. *)
Definition _discard (n : nat) : stm SS unit := λ s,
  let s' := mkSessions (se_repository s) (se_opened s) (se_closed s) (S (se_invalidated s)) (se_on_close s) (se_on_invalidate s) in
  match se_on_invalidate s n with
  | Some CancelledError => (Raise CancelledError, s')
  | _ => (Ret tt, s')
  end.

(** [except BaseException: await shield(...); raise]. *)
Definition discarding {A} (n : nat) (m : stm SS A) : stm SS A := λ s,
  match m s with
  | (Raise e, s') => (_discard n;; raise e) s'
  | ok => ok
  end.

(** The [close] after a search that found [facts]. *)
Definition close_with (n : nat) (facts : list ScoredFact) : stm SS (list ScoredFact) := λ s,
  match close_session n s with
  | (Ret _, s') => (Ret facts, s')
  | (Raise CancelledError, s') => (_discard n;; raise CancelledError) s'
  | (Raise _, s') => (_discard n;; mret facts) s'
  end.

Definition search_facts (tenant_id user_id : uuid) (query_embedding : list f64) (top_k : Z) : stm SS (list ScoredFact) :=
  n ← open_session;
  facts ← discarding n (in_session_of (
    set_tenant_context tenant_id;; fr_search_by_similarity query_embedding user_id tenant_id top_k));
  close_with n facts.

#[export] Instance session_scoped_search : SemanticFactSearch SS := search_facts.

(** Sessions opened and accounted for. *)
Definition none_left (s : SS) : Prop := se_opened s = (se_closed s + se_invalidated s)%nat.

(** A MAG search leaves no session behind: the one it opens is closed or
    its connection invalidated before the search answers, whether it found its
    facts, failed or was cancelled, at whatever point, and a failure of the
    cleanup itself leaves it no less accounted for.  The answer is the
    repository's: facts in hand are lost only to a cancellation, never to a
    session that would not close, and a search that failed raises what it
    failed with, or a cancellation. *)
Theorem search_leaves_no_session (t u : uuid) (q : list f64) (k : Z) (s : SS) :
  none_left s →
  let found := (set_tenant_context t;; fr_search_by_similarity q u t k) (se_repository s) in
  let '(r, s') := search_facts t u q k s in
  none_left s' ∧ se_opened s' = S (se_opened s) ∧ se_repository s' = found.2 ∧
  (r = found.1 ∨ r = Raise CancelledError).
Proof.
  unfold none_left. intros Hs. cbv zeta. unfold search_facts, close_with, discarding, in_session_of, open_session, mbind, stm_bind. cbn [se_repository].
  destruct (set_tenant_context t (se_repository s)) as [[[]|e] r1].
  - destruct (fr_search_by_similarity q u t k r1) as [[facts|e] r2]; cbn.
    + unfold close_session. cbn. destruct (se_on_close s (se_opened s)) as [[]|]; cbn; unfold _discard, raise, mret, stm_ret; cbn;
        try destruct (se_on_invalidate s (se_opened s)) as [[]|]; cbn; split_and!; try lia; auto.
    + unfold _discard, raise. cbn. destruct (se_on_invalidate s (se_opened s)) as [[]|]; cbn; split_and!; try lia; auto.
  - cbn. unfold _discard, raise. cbn. destruct (se_on_invalidate s (se_opened s)) as [[]|]; cbn; split_and!; try lia; auto.
Qed.
End fact_search.

(** ** RecordSemanticFactWriter *)

Section writer.
Context (cosine_distance : list f64 → list f64 → f64) {X G E M : Type} `{SemanticMemoryIndex X} `{MemoryGraphRepository G}
  `{EmbeddingModel E} `{ChatModel M}.
#[local] Instance written_facts : SemanticMemoryRepository PostgresFacts := postgres_semantic_memory cosine_distance.
#[local] Instance written_laws : SemanticMemoryLaws PostgresFacts facts_of history_of := postgres_semantic_laws cosine_distance.
Abbreviation FW := (MagStores PostgresFacts X G E M) (only parsing).

Definition with_repository (p : PostgresFacts) (s : FW) : FW :=
  mkStores p (ms_index s) (ms_graph s) (ms_embedder s) (ms_chat s) (ms_now s) (ms_uuids s) (ms_issued s).
Definition as_tenant (tenant_id : uuid) (p : PostgresFacts) : PostgresFacts :=
  mkPgFacts (pf_rows p) (pf_history p) tenant_id (pf_now p).

(** [async with sessionmaker() as session, session.begin()]: what the body
    wrote to Postgres is undone when it raises; the other stores have no part in it. *)
Definition in_fact_transaction {A} (tenant_id : uuid) (body : stm FW A) : stm FW A := λ s,
  match body (with_repository (as_tenant tenant_id (ms_repository s)) s) with
  | (Ret a, s') => (Ret a, with_repository (as_tenant (pf_tenant (ms_repository s)) (ms_repository s')) s')
  | (Raise e, s') => (Raise e, with_repository (ms_repository s) s')
  end.

Definition source_fact_key (fact_key : string) : string := ("source:" +:+ fact_key)%string.

Definition FactWriter_record (tenant_id user_id : uuid) (fact_key fact_value : string) : stm FW unit :=
  in_fact_transaction tenant_id
    (RecordSemanticFact_execute tenant_id user_id (source_fact_key fact_key) fact_value fone "freshness-router" None None);;
  mret tt.

#[export] Instance record_semantic_fact_writer : SessionFactWriter FW := FactWriter_record.

(** The facts a tenant's own transaction would see. *)
Definition tenant_facts (t : uuid) (s : FW) : gmap (uuid * string) SemanticMemory := facts_of (as_tenant t (ms_repository s)) t.

(** A data source is written into MAG whole or not at all, under a key
    no learned fact of the same name has.  If recording raises, be it in
    Postgres, in the vector index after the row was written, or by a
    cancellation, Postgres is as it was; if it returns, of all the tenant's
    facts exactly the source's own has changed, to the new text, live and with
    full confidence. *)
Theorem source_facts_are_atomic (t u : uuid) (k v : string) (s : FW) :
  let '(r, s') := FactWriter_record t u k v s in
  (∃ e, r = Raise e ∧ ms_repository s' = ms_repository s) ∨
  (r = Ret tt ∧ ∃ embedding,
    tenant_facts t s' = <[(u, ("source:" +:+ k)%string) :=
      mkFact (fact_id u ("source:" +:+ k)) u ("source:" +:+ k) v embedding fone "freshness-router" None None]> (tenant_facts t s) ∧
    ∀ j, j ≠ ("source:" +:+ k)%string → tenant_facts t s' !! (u, j) = tenant_facts t s !! (u, j)).
Proof.
  unfold FactWriter_record, in_fact_transaction, mbind, stm_bind.
  set (s1 := with_repository _ s).
  pose proof (record_spec facts_of history_of t u (source_fact_key k) v fone "freshness-router" None None s1) as Hrec.
  destruct (RecordSemanticFact_execute _ _ _ _ _ _ _ _ s1) as [[f|e] s2]; [|left; by exists e].
  destruct Hrec as [[_ [e Hr]]|(emb & Hf & _ & [[e Hr]|Hr])]; [done|done|]. right. split; [done|].
  exists emb. unfold facts_in in Hf. unfold tenant_facts, source_fact_key in *.
  assert (pf_tenant (ms_repository s2) = t) as Ht.
  { destruct (decide (t = pf_tenant (ms_repository s2))) as [|Hne]; [done|].
    rewrite (facts_of_other _ _ Hne) in Hf. symmetry in Hf. by apply insert_non_empty in Hf. }
  cbn. unfold as_tenant in *. cbn. destruct (ms_repository s2) as [rows hist tn now]. cbn in *. subst tn.
  rewrite Hf. split; [done|]. intros j Hj. rewrite lookup_insert_ne; [done|congruence].
Qed.
End writer.

(** ** Witnesses *)

(** Tenant 1, user 3: document 10 is warm with an old text, 11 with the current one. *)
Definition warm_fact (d : uuid) (text : string) : SemanticMemory :=
  mkFact (fact_id 3 (_fact_key_for d)) 3 (_fact_key_for d) text [fone] fone "" None None.
Definition warm_sample : SemanticMemoryWarmStore PostgresFacts Sink LengthEmbedder :=
  mkWarmStore (mkPgFacts
      {[ (3, _fact_key_for 10) := mkRow 1 (warm_fact 10 "old"); (3, _fact_key_for 11) := mkRow 1 (warm_fact 11 "now") ]} [] 1 1000)
    (mkSink true 0) (mkLengthEmbedder 0) 1000.


(** The third session will not close, and cannot be invalidated. *)
Definition sessions_sample : SearchSessions PostgresFacts :=
  mkSessions (mkPgFacts ∅ [] 1 1000) 2 1 1 (λ n, if (n =? 2)%nat then Some (BackendError "InterfaceError") else None)
    (λ _, Some (BackendError "InterfaceError")).

Lemma search_leaves_no_session_witness :
  none_left sessions_sample ∧
  none_left (search_facts (H := postgres_semantic_memory (λ _ _, fone)) (λ _, mret tt) 1 3 [fone] 5 sessions_sample).2 ∧
  (search_facts (H := postgres_semantic_memory (λ _ _, fone)) (λ _, mret tt) 1 3 [fone] 5 sessions_sample).1 = Ret [].
Proof.
  assert (none_left sessions_sample) as Hs by reflexivity. split; [exact Hs|].
  pose proof (search_leaves_no_session (H := postgres_semantic_memory (λ _ _, fone)) (λ _, mret tt) 1 3 [fone] 5 sessions_sample Hs) as H.
  cbv zeta in H. destruct (search_facts _ _ _ _ _ sessions_sample) as [r s'] eqn:Hrun.
  destruct H as (Hn & _). split; [exact Hn|]. vm_compute in Hrun. injection Hrun as <- _. reflexivity.
Defined.
