(* ===== verification/Classifiers.v ===== *)
(** * The query classifiers

    orchestration/infrastructure: llm_query_classifier.py,
    prototype_query_classifier.py with the exemplars of routing_exemplars.py,
    and lexical_query_classifier.py, three implementations of QueryClassifier.
    Unicode's word characters and case pairs beyond ASCII are parameters, and
    so is the C library's [pow]. *)

From Stdlib Require Import ZArith Lia Ascii String Floats.SpecFloat.
From S2P Require Import Prelude PyFloat PySeq PyStr Prompts Json Entities ParadigmRouter RagPorts Doubles AssembleContext LlmJson RagRetrieval Sessions UnifiedAnswer.

(** ** LlmQueryClassifier *)

(** [raw\[raw.find("{") : raw.rfind("}") + 1\]], if the first comes before the last. *)
Fixpoint from_brace (s : string) : option string :=
  match s with
  | EmptyString => None
  | String c s' => if Ascii.eqb c "{" then Some s else from_brace s'
  end.
Fixpoint up_to_brace (s : string) : option string :=
  match s with
  | EmptyString => None
  | String c s' =>
      match up_to_brace s' with
      | Some t => Some (String c t)
      | None => if Ascii.eqb c "}" then Some (String c EmptyString) else None
      end
  end.
Definition braced (raw : string) : option string :=
  rest ← from_brace raw; up_to_brace rest.

(** One round of the loop: [None] for a value that is not a score. *)
Definition score_value (value : option json) : res (option f64) :=
  match value with
  | Some (JInt z) =>
      x ← int_to_float z;
      Ret (if (0 <=? z) && (z <=? 1) then Some x else None)
  | Some (JFloat x) => Ret (if is_finite x && (fle fzero x && fle x fone) then Some x else None)
  | _ => Ret None
  end.

Fixpoint scores_of (data : list (string * json)) (paradigms : list Paradigm) (scores : gmap Paradigm f64) :
  res (option (gmap Paradigm f64)) :=
  match paradigms with
  | [] => Ret (Some scores)
  | p :: rest =>
      value ← score_value (od_get (paradigm_value p) data);
      match value with
      | Some x => scores_of data rest (<[p := x]> scores)
      | None => Ret None
      end
  end.

Definition _parse_scores (raw : string) : res (option (gmap Paradigm f64)) :=
  match braced raw with
  | None => Ret None
  | Some text =>
      match json_loads text with
      | Raise JSONDecodeError => Ret None
      | Raise e => Raise e
      | Ret (JObj data) => scores_of data PARADIGM_ORDER ∅
      | Ret _ => Ret None
      end
  end.

Record LlmQueryClassifier (M : Type) : Type := mkLlmClassifier { lc_chat_model : M; lc_parse_failures : Z }.
Arguments mkLlmClassifier {M}.
Arguments lc_chat_model {M}.
Arguments lc_parse_failures {M}.

Definition Llm_score {M} `{ChatModel M} (query : string) (query_embedding : list f64) :
  stm (LlmQueryClassifier M) (gmap Paradigm f64) := λ s,
  match cm_complete (CLASSIFIER_PROMPT query) (lc_chat_model s) with
  | (Raise e, m) => (Raise e, mkLlmClassifier m (lc_parse_failures s))
  | (Ret raw, m) =>
      match _parse_scores raw with
      | Raise e => (Raise e, mkLlmClassifier m (lc_parse_failures s))
      | Ret None => (Raise ClassificationFailed, mkLlmClassifier m (lc_parse_failures s + 1))
      | Ret (Some scores) => (Ret scores, mkLlmClassifier m (lc_parse_failures s))
      end
  end.
#[export] Instance llm_query_classifier {M} `{ChatModel M} : QueryClassifier (LlmQueryClassifier M) := Llm_score.

Definition score_reply (cag mag rag : string) : string :=
  ("{" +:+ dq +:+ "cag" +:+ dq +:+ ": " +:+ cag +:+ ", " +:+ dq +:+ "mag" +:+ dq +:+ ": " +:+ mag +:+ ", " +:+
    dq +:+ "rag" +:+ dq +:+ ": " +:+ rag +:+ "}")%string.

Example parsed_scores :
  map (λ raw, match _parse_scores raw with Ret o => map_to_list <$> o | Raise _ => None end)
    [("Sure: " +:+ score_reply "0.5" "0" "1" +:+ " }{")%string; score_reply "0.5" "true" "1"; score_reply "0.5" "0.2" "1.5"; "no"%string;
     ("}" +:+ score_reply "1" "1" "1")%string] =
    [None; None; None; None; Some [(RAG, fone); (MAG, fone); (CAG, fone)]].
Proof. vm_compute. reflexivity. Qed.

(** ** PrototypeQueryClassifier *)

Record RoutingExemplar : Type := mkExemplar { rx_query : string; rx_paradigms : gset Paradigm }.

Definition _CAG : gset Paradigm := {[CAG]}.
Definition _MAG : gset Paradigm := {[MAG]}.
Definition _RAG : gset Paradigm := {[RAG]}.
Definition _RAG_MAG : gset Paradigm := {[RAG; MAG]}.
Definition _CAG_RAG : gset Paradigm := {[CAG; RAG]}.

Definition DEFAULT_ROUTING_EXEMPLARS : list RoutingExemplar :=
  [mkExemplar "What does the employee handbook say about vacation days?" _CAG;
   mkExemplar "How do I reset my password according to the help guide?" _CAG;
   mkExemplar "What are the warranty terms in the product manual?" _CAG;
   mkExemplar "Walk me through the onboarding procedure for new contractors." _CAG;
   mkExemplar "What is the standard shipping policy for international orders?" _CAG;
   mkExemplar "Summarize the architecture section of our internal documentation." _CAG;
   mkExemplar "What does this function in the billing module do?" _CAG;
   mkExemplar "What are the size guide measurements for a medium shirt?" _CAG;
   mkExemplar "What is the company's stock price right now?" _RAG;
   mkExemplar "Is there any news about our competitor from this morning?" _RAG;
   mkExemplar "What is the current inventory level for the blue running shoes?" _RAG;
   mkExemplar "Which orders were delayed by the storm in the last hour?" _RAG;
   mkExemplar "What did the latest pricing update change for enterprise plans?" _RAG;
   mkExemplar "Is the payment service having an outage at the moment?" _RAG;
   mkExemplar "What are today's exchange rates from euros to dollars?" _RAG;
   mkExemplar "Which commits were merged into the release branch in the past hour?" _RAG;
   mkExemplar "What name did I tell you to call me?" _MAG;
   mkExemplar "Pick up the budget discussion from our last session." _MAG;
   mkExemplar "Which of the options I shortlisted did I like best?" _MAG;
   mkExemplar "Remind me what dietary restrictions I mentioned." _MAG;
   mkExemplar "What was the last thing we were working on together?" _MAG;
   mkExemplar "Write it in the tone I asked you to use before." _MAG;
   mkExemplar "Did I already give you my project's deadline?" _MAG;
   mkExemplar "Go back to the draft email you helped me with." _MAG;
   mkExemplar "Given the portfolio I described to you, how did those stocks move today?" _RAG_MAG;
   mkExemplar "Are there flights leaving today for the destination I told you about?" _RAG_MAG;
   mkExemplar "Based on my usual order, is anything I buy out of stock right now?" _RAG_MAG;
   mkExemplar "How does this week's weather forecast affect the hiking trip we planned?" _RAG_MAG;
   mkExemplar "Check my saved shopping list against current grocery prices." _RAG_MAG;
   mkExemplar "Has the bug I reported to you been fixed in the latest release notes?" _RAG_MAG;
   mkExemplar "What does the catalog say about this laptop, and is it in stock today?" _CAG_RAG;
   mkExemplar "What is the listed price of the premium plan, and has it changed recently?" _CAG_RAG;
   mkExemplar "How does the documented orders API differ from what was deployed this week?" _CAG_RAG;
   mkExemplar "What does the size guide recommend, and are those sizes available right now?" _CAG_RAG]%string.

(** The exemplars with their embeddings, and [k]. *)
Record PrototypeQueryClassifier : Type := mkPrototype { px_k : Z; px_exemplars : list (RoutingExemplar * list f64) }.

Definition Prototype_init {E} `{EmbeddingModel E} (exemplars : list RoutingExemplar) (k : Z) : stm E PrototypeQueryClassifier :=
  match exemplars with
  | [] => raise (ValueError "at least one exemplar is required")
  | _ =>
      if k <? 1 then raise (ValueError "k must be at least 1")
      else
        embedded ← for_each exemplars (λ exemplar, embedding ← embed (rx_query exemplar); mret (exemplar, embedding));
        mret (mkPrototype k embedded)
  end.

(** The similarity of each exemplar, the nearest [k] kept, negatives cut at zero. *)
Definition weighted_exemplars (c : PrototypeQueryClassifier) (query_embedding : list f64) : res (list (f64 * RoutingExemplar)) :=
  similarities ← res_mapM (λ xe : RoutingExemplar * list f64,
    similarity ← cosine_similarity query_embedding xe.2; Ret (similarity, xe.1)) (px_exemplars c);
  Ret (map (λ p, (fmax fzero p.1, p.2)) (py_slice 0 (px_k c) (sorted_desc fst similarities))).

Definition share_of (weighted : list (f64 * RoutingExemplar)) (p : Paradigm) : f64 :=
  fsum (map fst (filter (λ wx, p ∈ rx_paradigms wx.2) weighted)).

Definition shares (weighted : list (f64 * RoutingExemplar)) (total : f64) : res (gmap Paradigm f64) :=
  entries ← res_mapM (λ p, share ← fdiv (share_of weighted p) total; Ret (p, share)) PARADIGM_ORDER;
  Ret (list_to_map entries).

Definition Prototype_score (query : string) (query_embedding : list f64) : stm PrototypeQueryClassifier (gmap Paradigm f64) :=
  c ← get_st;
  weighted ← lift_res (weighted_exemplars c query_embedding);
  let total := fsum (map fst weighted) in
  if feq total fzero then mret (list_to_map (map (λ p, (p, fzero)) PARADIGM_ORDER))
  else lift_res (shares weighted total).
#[export] Instance prototype_query_classifier : QueryClassifier PrototypeQueryClassifier := Prototype_score.

(** ** LexicalQueryClassifier *)

(** The pairs of characters beyond ASCII, pattern's and text's, that differ in case only. *)
Class UnicodeCases : Type := case_beyond_ascii : Z → Z → bool.
(** [pow(x, float(n))] of the C library. *)
Class LibPow : Type := c_pow : f64 → Z → f64.

Definition DEFAULT_CUES (p : Paradigm) : list string :=
  match p with
  | CAG =>
      ["policy"; "policies"; "manual"; "guide"; "handbook"; "documentation"; "procedure"; "how do i";
       "how to"; "explain"; "reference"; "code file"; "faq"]
  | MAG =>
      ["remember"; "remind me"; "we discussed"; "we talked"; "left off"; "continue"; "earlier";
       "last time"; "previously"; "i told you"; "i asked"; "i mentioned"; "my preference"; "you said";
       "our conversation"]
  | RAG =>
      ["today"; "latest"; "current"; "currently"; "right now"; "this week"; "this month"; "changed";
       "recent"; "recently"; "new"; "news"; "update"; "updated"; "live"; "price"; "prices"; "stock";
       "compare"]
  end%string.

Definition _CUE_WEIGHT : f64 := flit 7 10.

Section lexical.
Context `{UnicodeWords} `{UnicodeCases} `{LibPow}.

Definition is_lower (c : Z) : bool := (97 <=? c) && (c <=? 122).
Definition to_lower (c : Z) : Z := if (65 <=? c) && (c <=? 90) then c + 32 else c.

(** One character of a pattern under [re.IGNORECASE]: an ASCII letter takes
    both its cases, and the i, k and s those beyond ASCII too. *)
Definition ignores_case (pattern c : Z) : bool :=
  let p := to_lower pattern in
  if is_lower p then
    (to_lower c =? p) || ((p =? 105) && ((c =? 304) || (c =? 305))) || ((p =? 107) && (c =? 8490)) || ((p =? 115) && (c =? 383))
  else (pattern =? c) || case_beyond_ascii pattern c.

(** [\b] between [previous] and the rest. *)
Definition at_boundary (previous_word : bool) (rest : list Z) : bool :=
  xorb previous_word (match rest with [] => false | c :: _ => is_word c end).

Fixpoint cue_at (cue text : list Z) (previous_word : bool) : bool :=
  match cue, text with
  | [], _ => at_boundary previous_word text
  | p :: cue', c :: text' => ignores_case p c && cue_at cue' text' (is_word c)
  | _ :: _, [] => false
  end.

Fixpoint cue_search (cue text : list Z) (previous_word : bool) : bool :=
  (at_boundary previous_word text && cue_at cue text previous_word) ||
  match text with
  | [] => false
  | c :: rest => cue_search cue rest (is_word c)
  end.

(** [re.search(rf"\b{re.escape(cue)}\b", query, re.IGNORECASE)]. *)
Definition mentions (query cue : string) : bool := cue_search (code_points cue) (code_points query) false.

Definition cue_score (matches : Z) : f64 := fsub fone (c_pow (fsub fone _CUE_WEIGHT) matches).

Definition Lexical_score (cues : Paradigm → list string) (query : string) : gmap Paradigm f64 :=
  list_to_map (map (λ p, (p, cue_score (Z.of_nat (length (filter (λ cue, mentions query cue = true) (cues p)))))) PARADIGM_ORDER).

Record LexicalQueryClassifier : Type := mkLexical { lx_cues : Paradigm → list string }.
#[export] Instance lexical_query_classifier : QueryClassifier LexicalQueryClassifier := λ query _,
  c ← get_st; mret (Lexical_score (lx_cues c) query).
End lexical.

#[local] Instance ascii_words : UnicodeWords := λ _, false.
#[local] Instance ascii_cases : UnicodeCases := λ _ _, false.
Example cues_found :
  map (λ p, filter (λ cue, mentions "How do I see TODAY's prices? Explain the new-hire manuals, please." cue = true) (DEFAULT_CUES p))
    PARADIGM_ORDER = [["how do i"; "explain"]; []; ["today"; "new"; "prices"]]%string.
Proof. vm_compute. reflexivity. Qed.

(** ** What the model's reply becomes *)

Lemma score_value_ok v x : score_value v = Ret (Some x) → score_ok x = true.
Proof.
  destruct v as [[| |z|y| | |]|]; try done; unfold score_value.
  - destruct (int_to_float z) as [f|e] eqn:Hf; [|done]. cbn [mbind res_bind].
    destruct (Z.leb_spec 0 z), (Z.leb_spec z 1); try done. intros [= <-].
    assert (z = 0 ∨ z = 1) as [-> | ->] by lia; vm_compute in Hf; injection Hf as <-; reflexivity.
  - unfold score_ok. destruct (is_finite y && _) eqn:Hy; [|done]. intros [= <-]. by rewrite <- andb_assoc.
Qed.

Lemma scores_of_spec data ps scores out : scores_of data ps scores = Ret (Some out) →
  (∀ p s, scores !! p = Some s → score_ok s = true) →
  dom out = dom scores ∪ list_to_set ps ∧ ∀ p s, out !! p = Some s → score_ok s = true.
Proof.
  revert scores. induction ps as [|p ps IH]; intros scores; cbn [scores_of].
  { intros [= <-] Hok. split; [set_solver|done]. }
  destruct (score_value _) as [[x|]|e] eqn:Hx; cbn [mbind res_bind]; [|done..]. intros Hrun Hok.
  apply IH in Hrun as [Hdom Hall].
  - split; [|done]. rewrite Hdom, dom_insert_L. set_solver.
  - intros q s. destruct (decide (q = p)) as [->|Hne]; [|rewrite lookup_insert_ne by done; apply Hok].
    rewrite lookup_insert_eq. intros [= <-]. by apply score_value_ok in Hx.
Qed.

Lemma parsed_scores_valid raw scores : _parse_scores raw = Ret (Some scores) → scores_valid scores.
Proof.
  unfold _parse_scores. destruct (braced raw) as [text|]; [|done].
  destruct (json_loads text) as [[| | | | | |data]|[]]; try done. intros Hrun.
  apply scores_of_spec in Hrun as [Hdom Hok]; [|by intros p s]. split.
  - rewrite Hdom, dom_empty_L. apply (left_id_L ∅ (∪)).
  - intros p. unfold score_of. assert (p ∈ dom scores) as Hp.
    { rewrite Hdom. apply elem_of_union_r, elem_of_list_to_set, elem_of_PARADIGM_ORDER. }
    apply elem_of_dom in Hp as [s Hs]. rewrite Hs. by apply Hok with p.
Qed.

Lemma valid_scores_route scores t m : scores_valid scores → flt m fzero = false → ∃ d, decide_route scores t m = Ret d.
Proof.
  intros [Hd Hs] Hm. unfold decide_route. rewrite bool_decide_eq_true_2, Hm by done. cbn [negb].
  assert (forallb (λ p, score_ok (score_of scores p)) PARADIGM_ORDER = true) as -> by (apply forallb_forall; auto). cbn [negb].
  repeat case_decide; by eexists.
Qed.

(** The only failures of the parse that are not a [None]: an int too large for
    a double, or with too many digits to be read. *)
Lemma parse_scores_raises raw e : _parse_scores raw = Raise e → e ≠ JSONDecodeError.
Proof.
  unfold _parse_scores. destruct (braced raw) as [text|]; [|done].
  destruct (json_loads text) as [[| | | | | |data]|[]]; try done; try (intros [= <-]; done).
  generalize (∅ : gmap Paradigm f64). induction PARADIGM_ORDER as [|p ps IH]; intros scores; cbn [scores_of]; [done|].
  destruct (score_value _) as [[x|]|e'] eqn:Hx; cbn [mbind res_bind]; [apply IH|done|]. intros [= <-].
  destruct (od_get _ data) as [[| |z| | | |]|]; try done. unfold score_value, int_to_float in Hx.
  destruct (of_Z_raw z) as [| | |]; cbn in Hx; congruence.
Qed.


(** A confidence of 400 digits escapes the classifier uncounted. *)
Definition huge_reply : string := score_reply ("1" +:+ zeros 400) "0" "0".
Example huge_confidence_is_not_counted :
  Llm_score "q" [] (mkLlmClassifier (mkScripted [huge_reply]) 0) = (Raise OverflowError, mkLlmClassifier (mkScripted []) 0).
Proof. vm_compute. reflexivity. Qed.


(** ** Whole words only *)

Section lexical_spec.
Context `{UnicodeWords} `{UnicodeCases} `{LibPow}.

Definition word_before (l : list Z) : bool := match last l with Some c => is_word c | None => false end.

Lemma word_before_snoc l c : word_before (l ++ [c]) = is_word c.
Proof. unfold word_before. by rewrite last_snoc. Qed.

(** The cue stands between [pre] and [post], in some case, with a word
    boundary on either side. *)
Definition occurs (cue text : list Z) : Prop := ∃ pre mid post, text = pre ++ mid ++ post ∧
  Forall2 (λ p c, ignores_case p c = true) cue mid ∧
  at_boundary (word_before pre) (mid ++ post) = true ∧ at_boundary (word_before (pre ++ mid)) post = true.

Lemma cue_at_spec cue pre text : cue_at cue text (word_before pre) = true ↔
  ∃ mid post, text = mid ++ post ∧ Forall2 (λ p c, ignores_case p c = true) cue mid ∧ at_boundary (word_before (pre ++ mid)) post = true.
Proof.
  revert pre text. induction cue as [|p cue IH]; intros pre text; cbn [cue_at].
  - split.
    + intros Hb. exists [], text. rewrite app_nil_r. by split_and!.
    + intros (mid & post & -> & ->%Forall2_nil_inv_l & Hb). by rewrite app_nil_r in Hb.
  - destruct text as [|c text].
    + split; [done|]. intros (mid & post & Hnil & Hf & _). symmetry in Hnil. apply app_eq_nil in Hnil as [-> _]. by inversion Hf.
    + rewrite <- (word_before_snoc pre c), andb_true_iff, IH. split.
      * intros (Hc & mid & post & -> & Hf & Hb). exists (c :: mid), post. rewrite <- app_assoc in Hb. split_and!; [done|by constructor|done].
      * intros (mid & post & Heq & Hf & Hb). inversion Hf as [|p' c' cue' mid' Hpc Hf']; subst. injection Heq as <- ->.
        split; [done|]. exists mid', post. rewrite <- app_assoc. by split_and!.
Qed.

Lemma cue_search_spec cue pre text : cue_search cue text (word_before pre) = true ↔
  ∃ skip mid post, text = skip ++ mid ++ post ∧ Forall2 (λ p c, ignores_case p c = true) cue mid ∧
    at_boundary (word_before (pre ++ skip)) (mid ++ post) = true ∧ at_boundary (word_before (pre ++ skip ++ mid)) post = true.
Proof.
  revert pre. induction text as [|c text IH]; intros pre; cbn [cue_search]; rewrite orb_true_iff, andb_true_iff, cue_at_spec.
  - split.
    + intros [(Hb & mid & post & Heq & Hf & Hb')|]; [|done]. exists [], mid, post. rewrite app_nil_r, <- Heq. by split_and!.
    + intros (skip & mid & post & Heq & Hf & Hb & Hb'). left. symmetry in Heq. apply app_eq_nil in Heq as [-> Heq].
      rewrite app_nil_r, Heq in Hb. split; [done|]. by exists mid, post.
  - rewrite <- (word_before_snoc pre c), IH. split.
    + intros [(Hb & mid & post & Heq & Hf & Hb')|(skip & mid & post & -> & Hf & Hb & Hb')].
      * exists [], mid, post. rewrite app_nil_r, <- Heq. by split_and!.
      * exists (c :: skip), mid, post. rewrite <- app_assoc in Hb, Hb'. by split_and!.
    + intros ([|c' skip] & mid & post & Heq & Hf & Hb & Hb'); cbn in Heq.
      * left. rewrite app_nil_r, <- Heq in Hb. split; [done|]. by exists mid, post.
      * right. injection Heq as <- ->. exists skip, mid, post. rewrite <- !app_assoc. by split_and!.
Qed.

(** The lexical classifier hears exactly the cues the query contains as
    whole words, in any case: a paradigm's score depends on the query only
    through how many of its cues occur in it between two word boundaries. *)
Theorem lexical_hears_whole_words (cues : Paradigm → list string) (query : string) (p : Paradigm) :
  ∃ heard, heard `sublist_of` cues p ∧
    (∀ cue, cue ∈ cues p → cue ∈ heard ↔ occurs (code_points cue) (code_points query)) ∧
    Lexical_score cues query !! p = Some (cue_score (Z.of_nat (length heard))).
Proof.
  exists (filter (λ cue, mentions query cue = true) (cues p)). split; [apply filter_is_sublist|]. split.
  - intros cue Hin. rewrite list_elem_of_filter. unfold mentions, occurs.
    change false with (word_before []). rewrite cue_search_spec. cbn [app]. tauto.
  - unfold Lexical_score. destruct p; reflexivity.
Qed.
End lexical_spec.
