(* ===== verification/Redis.v ===== *)
(** * Redis, as the program uses it

    The commands of redis-py the repository calls, on keys that hold one kind of
    value.  A key may carry the millisecond after which it no longer exists;
    the server's clock is part of the state, and the commands of one
    transaction run at one reading of it. *)

From Stdlib Require Import ZArith Lia Ascii String.
From S2P Require Import Prelude.

Record Redis (V : Type) : Type := mkRedis {
  rd_keys : gmap string (V * option Z);
  rd_now : Z
}.
Arguments mkRedis {V}.
Arguments rd_keys {V}.
Arguments rd_now {V}.

Section redis.
Context {V : Type}.
Implicit Type (r : Redis V).

Definition rd_set_keys (keys : gmap string (V * option Z)) r : Redis V := mkRedis keys (rd_now r).

Definition alive (now : Z) (e : option Z) : bool := match e with Some t => now <=? t | None => true end.

(** A key past its time is not there. *)
Definition rd_lookup (k : string) r : option (V * option Z) :=
  match rd_keys r !! k with
  | Some (v, e) => if alive (rd_now r) e then Some (v, e) else None
  | None => None
  end.

(** GET. *)
Definition rd_get (k : string) r : option V := fst <$> rd_lookup k r.

(** SET with EX, in seconds. *)
Definition rd_set (k : string) (v : V) (seconds : Z) r : Redis V :=
  rd_set_keys (<[k := (v, Some (rd_now r + 1000 * seconds))]> (rd_keys r)) r.

Definition rd_delete (k : string) r : Redis V := rd_set_keys (delete k (rd_keys r)) r.

(** A command that updates the value in place: the expiry is kept, a key that
    is not there starts with none. *)
Definition rd_update (f : option V → V) (k : string) r : Redis V :=
  rd_set_keys (<[k := (f (rd_get k r), rd_lookup k r ≫= snd)]> (rd_keys r)) r.

(** EXPIRE: a time that is not positive deletes the key. *)
Definition rd_expire (k : string) (seconds : Z) r : Redis V :=
  match rd_lookup k r with
  | None => r
  | Some (v, _) => if seconds <=? 0 then rd_delete k r else rd_set k v seconds r
  end.

(** EXPIRE NX: only a key without expiry. *)
Definition rd_expire_nx (k : string) (seconds : Z) r : Redis V :=
  match rd_lookup k r with
  | Some (_, None) => rd_expire k seconds r
  | _ => r
  end.

(** TTL, rounded to the second: -1 without expiry, -2 without key. *)
Definition rd_ttl (k : string) r : Z :=
  match rd_lookup k r with
  | Some (_, Some t) => (t - rd_now r + 500) / 1000
  | Some (_, None) => -1
  | None => -2
  end.

(** Time passes. *)
Definition rd_wait (milliseconds : Z) r : Redis V := mkRedis (rd_keys r) (rd_now r + milliseconds).

Lemma rd_lookup_insert k v e r : rd_lookup k (rd_set_keys (<[k := (v, e)]> (rd_keys r)) r) = if alive (rd_now r) e then Some (v, e) else None.
Proof. unfold rd_lookup. cbn. by rewrite lookup_insert_eq. Qed.

Lemma rd_lookup_insert_ne k k' ve r : k' ≠ k → rd_lookup k' (rd_set_keys (<[k := ve]> (rd_keys r)) r) = rd_lookup k' r.
Proof. intros Hne. unfold rd_lookup. cbn. by rewrite lookup_insert_ne. Qed.

Lemma rd_lookup_alive k r v e : rd_lookup k r = Some (v, e) → alive (rd_now r) e = true.
Proof. unfold rd_lookup. destruct (rd_keys r !! k) as [[v' e']|]; [|done]. destruct (alive _ e') eqn:Ha; [|done]. by intros [= <- <-]. Qed.

Lemma rd_lookup_update f k r : rd_lookup k (rd_update f k r) = Some (f (rd_get k r), rd_lookup k r ≫= snd).
Proof.
  unfold rd_update. rewrite rd_lookup_insert. destruct (rd_lookup k r) as [[v e]|] eqn:Hl; cbn; [|done].
  by rewrite (rd_lookup_alive _ _ _ _ Hl).
Qed.

Lemma rd_lookup_delete k r : rd_lookup k (rd_delete k r) = None.
Proof. unfold rd_lookup, rd_delete. cbn. by rewrite lookup_delete_eq. Qed.

(** Once its time has passed a key is gone, whatever else happens. *)
Lemma rd_lookup_wait k r d : 0 ≤ d → rd_lookup k (rd_wait d r) =
  match rd_lookup k r with Some (v, e) => if alive (rd_now r + d) e then Some (v, e) else None | None => None end.
Proof.
  intros Hd. unfold rd_lookup, rd_wait. cbn. destruct (rd_keys r !! k) as [[v e]|]; [|done].
  destruct e as [t|]; cbn; [|done]. destruct (Z.leb_spec (rd_now r) t); cbn; [done|].
  destruct (Z.leb_spec (rd_now r + d) t); [lia|done].
Qed.
End redis.
