(* ===== verification/WorkingMemory.v ===== *)
(** * Working memory

    mag/infrastructure/redis_working_memory_store.py, the turns of a session in
    a Redis list that expires a day after its last push, and
    mag/application/commands/record_working_turn.py.  A turn is stored as JSON;
    what it reads back as is the round trip of JsonText.v and PyIso.v. *)

From Stdlib Require Import ZArith Lia Ascii String Floats.SpecFloat.
From S2P Require Import Prelude PyFloat PyTime PyStr Digest Json MagDomain JsonText PyIso LlmJson Redis.

Definition _TTL_SECONDS : Z := 86400.

Definition _key (session_id : uuid) : string := ("session:" +:+ uuid_str session_id +:+ ":working_memory")%string.

(** RPUSH and LRANGE. *)
Definition rd_rpush {V} (k : string) (v : V) : Redis (list V) → Redis (list V) := rd_update (λ l, default [] l ++ [v]) k.

Definition rd_lrange {V} (k : string) (start stop : Z) (r : Redis (list V)) : list V :=
  let l := default [] (rd_get k r) in
  let n := Z.of_nat (length l) in
  let from := Z.max 0 (if start <? 0 then n + start else start) in
  let to := if stop <? 0 then n + stop else stop in
  take (Z.to_nat (to + 1 - from)) (drop (Z.to_nat from) l).

(** The entity does not check its fields' types: what an entry that another
    program wrote makes of them is a parameter. *)
Class UntypedTurns : Type := untyped_turn : json → res WorkingMemoryTurn.

Section store.
Context `{OtherIso, UntypedTurns}.

Definition turn_json (turn : WorkingMemoryTurn) : json :=
  JObj [("role", JStr (wt_role turn)); ("content", JStr (wt_content turn));
        ("recorded_at", JStr (isoformat (wt_recorded_at turn))); ("metadata", JObj (wt_metadata turn))]%string.

Definition push_turn (session_id : uuid) (turn : WorkingMemoryTurn) : stm (Redis (list string)) unit :=
  let key := _key session_id in
  let payload := json_dumps false (turn_json turn) in
  modify (rd_rpush key payload);; modify (rd_expire key _TTL_SECONDS).

Definition _deserialize (entry : string) : res WorkingMemoryTurn :=
  data ← json_loads entry;
  role ← json_item data "role";
  content ← json_item data "content";
  at_ ← json_item data "recorded_at";
  recorded_at ← match at_ with JStr s => fromisoformat s | _ => Raise (TypeError "fromisoformat: argument must be str") end;
  metadata ← json_item data "metadata";
  match role, content, metadata with
  | JStr role, JStr content, JObj metadata => Ret (mkTurn role content recorded_at metadata)
  | _, _, _ => untyped_turn data
  end.

Definition get_recent_turns (session_id : uuid) (limit : Z) : stm (Redis (list string)) (list WorkingMemoryTurn) :=
  if limit <=? 0 then mret []
  else
    r ← get_st;
    let raw_entries := rd_lrange (_key session_id) (- limit) (-1) r in
    lift_res (res_mapM _deserialize raw_entries).

#[global] Instance redis_working_memory_store : WorkingMemoryStore (Redis (list string)) := {|
  wm_push_turn := push_turn;
  wm_get_recent_turns := get_recent_turns
|}.
End store.

(** [RecordWorkingTurn.execute] at the time [now]; no metadata is an empty dict. *)
Definition RecordWorkingTurn_execute {W} `{WorkingMemoryStore W} (now : datetime) (session_id : uuid) (role content : string)
    (metadata : option (list (string * json))) : stm W WorkingMemoryTurn :=
  let turn := mkTurn role content now (default [] metadata) in
  wm_push_turn session_id turn;; mret turn.

(** ** What a store remembers *)

(** A session's turns and when they expire, as a history of pushes leaves them. *)
Abbreviation shelf := (uuid → list WorkingMemoryTurn * Z) (only parsing).

Definition remembered (s : shelf) (session_id : uuid) (now : Z) : list WorkingMemoryTurn :=
  if now <=? (s session_id).2 then (s session_id).1 else [].

Definition shelve (session_id : uuid) (turn : WorkingMemoryTurn) (now : Z) (s : shelf) : shelf := λ sid,
  if decide (sid = session_id) then (remembered s sid now ++ [turn], now + 1000 * _TTL_SECONDS) else s sid.

(** The last [limit] turns. *)
Definition newest (limit : Z) (turns : list WorkingMemoryTurn) : list WorkingMemoryTurn := drop (length turns - Z.to_nat limit) turns.

(** A turn recorded [rc_after] milliseconds after the one before. *)
Record Recording : Type := mkRecording {
  rc_after : Z;
  rc_at : datetime;
  rc_session : uuid;
  rc_role : string;
  rc_content : string;
  rc_metadata : option (list (string * json))
}.

Definition recorded (c : Recording) : WorkingMemoryTurn := mkTurn (rc_role c) (rc_content c) (rc_at c) (default [] (rc_metadata c)).

Definition run_recordings {W} `{WorkingMemoryStore W} (wait : Z → W → W) (cs : list Recording) (w : W) : W :=
  fold_left (λ w c, (RecordWorkingTurn_execute (rc_at c) (rc_session c) (rc_role c) (rc_content c) (rc_metadata c) (wait (rc_after c) w)).2) cs w.

Definition shelve_recordings (cs : list Recording) (now : Z) (s : shelf) : shelf * Z :=
  fold_left (λ sn c, let now := sn.2 + rc_after c in (shelve (rc_session c) (recorded c) now sn.1, now)) cs (s, now).

(** What the round trip needs of a turn: text, metadata JSON carries, a time a
    datetime can hold. *)
Definition storable (turn : WorkingMemoryTurn) : bool :=
  text (wt_role turn) && text (wt_content turn) && printable (JObj (wt_metadata turn)) &&
  (0 <=? wt_recorded_at turn) && (wt_recorded_at turn <? datetime_end).

Definition recordable (c : Recording) : Prop := 0 ≤ rc_after c ∧ uuid_ok (rc_session c) ∧ storable (recorded c) = true.

(** *** The text of what is stored *)

Fixpoint ascii_text (s : string) : bool := match s with EmptyString => true | String c s' => (N_of_ascii c <? 128)%N && ascii_text s' end.

Lemma ascii_text_app a b : ascii_text (a +:+ b) = ascii_text a && ascii_text b.
Proof. induction a as [|c a IH]; [done|]. rewrite sapp_cons. cbn [ascii_text]. by rewrite IH, andb_assoc. Qed.

Lemma ascii_text_text s : ascii_text s = true → text s = true.
Proof.
  unfold text, code_points. intros Hs. assert (∀ n : nat, (slen s ≤ n)%nat → forallb scalar (utf8_decode n s) = true ∧ encode (utf8_decode n s) = s) as H.
  { induction s as [|c s IH]; intros n Hn; [by destruct n|]. cbn in Hn. destruct n as [|n]; [lia|]. cbn [ascii_text] in Hs. apply andb_true_iff in Hs as [Hc Hs].
    destruct (IH Hs n ltac:(lia)) as [Hall He]. cbn [utf8_decode]. set (b := Z.of_N (N_of_ascii c)). apply N.ltb_lt in Hc. assert (0 ≤ b < 128) as Hb by (unfold b; lia).
    destruct (Z.ltb_spec b 192); [|lia]. split.
    - cbn [forallb]. rewrite Hall, andb_true_r. unfold scalar. lia.
    - cbn [encode foldr]. fold (encode (utf8_decode n s)). rewrite He. unfold utf8_encode. destruct (Z.ltb_spec b 128); [|lia].
      unfold b. rewrite N2Z.id. cbn [of_codes map string_of_list_ascii]. by rewrite ascii_N_embedding. }
  destruct (H (slen s) ltac:(lia)) as [-> ->]. by rewrite String.eqb_refl.
Qed.

Lemma digits_ascii (f : nat) n acc : 0 ≤ n → ascii_text acc = true → ascii_text (digits_go f n acc) = true.
Proof.
  revert n acc. induction f as [|f IH]; intros n acc Hn Ha; [done|]. cbn [digits_go]. pose proof (Z.mod_pos_bound n 10 ltac:(lia)).
  assert (ascii_text (String (ascii_of_N (Z.to_N (48 + n mod 10))) acc) = true) as Hd.
  { cbn [ascii_text]. rewrite Ha, andb_true_r, N_ascii_embedding by lia. apply N.ltb_lt. lia. }
  destruct (n <? 10); [done|]. apply IH; [apply Z.div_pos; lia|done].
Qed.

Lemma pad_ascii w n : 0 ≤ n → ascii_text (pad w n) = true.
Proof.
  intros Hn. unfold pad, show_nat. rewrite ascii_text_app, digits_ascii by done. rewrite andb_true_r. induction (w - _)%nat; [done|]. done.
Qed.

Lemma isoformat_text t : 0 ≤ t < datetime_end → text (isoformat t) = true.
Proof.
  intros Ht. apply ascii_text_text. unfold isoformat, iso_with.
  assert (0 ≤ t / us_day < 3652059) as Hn.
  { split; [apply Z.div_pos; unfold us_day, us_second in *; lia|]. apply Z.div_lt_upper_bound; unfold datetime_end, us_day, us_second in *; lia. }
  pose proof (civil_round_trip _ Hn) as Hc. destruct (civil_of_days (t / us_day)) as [[y m] d]. destruct Hc as (Hy & Hm & Hd & _).
  pose proof (Z.mod_pos_bound t us_day ltac:(done)) as Hr. pose proof (Z.mod_pos_bound (t mod us_day) us_second ltac:(done)).
  assert (0 ≤ t mod us_day / us_second) by (apply Z.div_pos; [lia|done]). set (s := t mod us_day / us_second) in *.
  pose proof (Z.mod_pos_bound s 60 ltac:(lia)). pose proof (Z.mod_pos_bound (s / 60) 60 ltac:(lia)). assert (0 ≤ s / 3600) by (apply Z.div_pos; lia).
  rewrite !ascii_text_app, !pad_ascii by lia. destruct (_ =? 0); [done|]. rewrite ascii_text_app, pad_ascii by lia. done.
Qed.

Section laws.
Context `{OtherIso, UntypedTurns}.

Definition payload (turn : WorkingMemoryTurn) : string := json_dumps false (turn_json turn).

Lemma turn_items turn :
  json_item (turn_json turn) "role" = Ret (JStr (wt_role turn)) ∧ json_item (turn_json turn) "content" = Ret (JStr (wt_content turn)) ∧
  json_item (turn_json turn) "recorded_at" = Ret (JStr (isoformat (wt_recorded_at turn))) ∧ json_item (turn_json turn) "metadata" = Ret (JObj (wt_metadata turn)).
Proof. done. Qed.

Lemma deserialize_payload turn : storable turn = true → _deserialize (payload turn) = Ret turn.
Proof.
  unfold storable. rewrite !andb_true_iff, Z.leb_le, Z.ltb_lt. intros ((((Hr & Hc) & Hm) & Hlo) & Hhi).
  unfold _deserialize, payload. rewrite loads_dumps.
  - destruct (turn_items turn) as (Hrole & Hcontent & Hat & Hmeta). cbn [mbind res_bind].
    rewrite Hrole, Hcontent, Hat, Hmeta. cbn [mbind res_bind]. rewrite fromisoformat_isoformat by done. by destruct turn.
  - unfold turn_json. cbn [printable forallb fst snd]. rewrite Hr, Hc, isoformat_text by done. cbn [printable] in Hm. rewrite Hm. vm_compute. reflexivity.
Qed.

Lemma sapp_inj_r a b c : (a +:+ c = b +:+ c)%string → a = b.
Proof.
  intros He. assert (slen a = slen b) as Hl by (apply (f_equal slen) in He; rewrite !sapp_length in He; lia).
  revert b He Hl. induction a as [|x a IH]; intros [|y b] He Hl; try done. rewrite !sapp_cons in He. injection He as -> He. cbn in Hl. f_equal. apply IH; [done|lia].
Qed.

Lemma _key_inj a b : uuid_ok a → uuid_ok b → _key a = _key b → a = b.
Proof. intros Ha Hb Hk. apply (inj (String.append "session:")), sapp_inj_r in Hk. by apply uuid_str_inj. Qed.

(** The store holds exactly what its history leaves. *)
Definition holds (s : shelf) (r : Redis (list string)) : Prop := ∀ sid, uuid_ok sid →
  Forall (λ t, storable t = true) (remembered s sid (rd_now r)) ∧
  rd_lookup (_key sid) r = match remembered s sid (rd_now r) with [] => None | ts => Some (map payload ts, Some (s sid).2) end.

Lemma holds_wait s r d : 0 ≤ d → holds s r → holds s (rd_wait d r).
Proof.
  intros Hd Hr sid Hsid. destruct (Hr sid Hsid) as [Hall Hl]. rewrite rd_lookup_wait, Hl by done. cbn [rd_now rd_wait]. unfold remembered in *.
  destruct (s sid) as [ts deadline]. cbn [fst snd] in *. destruct (Z.leb_spec (rd_now r) deadline), (Z.leb_spec (rd_now r + d) deadline); try lia.
  - split; [done|]. destruct ts; [done|]. cbn. by destruct (Z.leb_spec (rd_now r + d) deadline); [|lia].
  - split; [done|]. destruct ts; [done|]. cbn. by destruct (Z.leb_spec (rd_now r + d) deadline); [lia|].
  - done.
Qed.

Lemma push_turn_now sid turn r : rd_now (push_turn sid turn r).2 = rd_now r.
Proof.
  change (rd_now (rd_expire (_key sid) _TTL_SECONDS (rd_rpush (_key sid) (payload turn) r)) = rd_now r). unfold rd_expire.
  by destruct (rd_lookup (_key sid) (rd_rpush (_key sid) (payload turn) r)) as [[v e]|].
Qed.

Lemma push_turn_lookup sid turn r :
  rd_lookup (_key sid) (push_turn sid turn r).2 = Some (default [] (rd_get (_key sid) r) ++ [payload turn], Some (rd_now r + 1000 * _TTL_SECONDS)).
Proof.
  change (push_turn sid turn r).2 with (rd_expire (_key sid) _TTL_SECONDS (rd_rpush (_key sid) (payload turn) r)). unfold rd_expire, rd_rpush. rewrite rd_lookup_update. change (_TTL_SECONDS <=? 0) with false. cbv iota.
  unfold rd_set. rewrite rd_lookup_insert. cbn [rd_now rd_update rd_set_keys alive]. unfold _TTL_SECONDS. destruct (Z.leb_spec (rd_now r) (rd_now r + 1000 * 86400)); [done|lia].
Qed.

Lemma push_turn_other sid k turn r : k ≠ _key sid → rd_lookup k (push_turn sid turn r).2 = rd_lookup k r.
Proof.
  intros Hne. change (push_turn sid turn r).2 with (rd_expire (_key sid) _TTL_SECONDS (rd_rpush (_key sid) (payload turn) r)). unfold rd_expire, rd_rpush. rewrite rd_lookup_update. change (_TTL_SECONDS <=? 0) with false. cbv iota.
  unfold rd_set. rewrite rd_lookup_insert_ne by done. unfold rd_update. by rewrite rd_lookup_insert_ne.
Qed.

Lemma holds_push s r sid turn : holds s r → uuid_ok sid → storable turn = true → holds (shelve sid turn (rd_now r) s) (push_turn sid turn r).2.
Proof.
  intros Hr Hsid Hturn sid' Hsid'. rewrite push_turn_now. unfold remembered at 1 2, shelve. destruct (decide (sid' = sid)) as [->|Hne].
  - destruct (Hr sid Hsid) as [Hall Hl]. cbn [fst snd]. unfold _TTL_SECONDS. destruct (Z.leb_spec (rd_now r) (rd_now r + 1000 * 86400)); [|lia].
    split; [by apply Forall_app_2; [|constructor]|]. rewrite push_turn_lookup. unfold rd_get. rewrite Hl.
    destruct (remembered s sid (rd_now r)) as [|t ts]; [done|]. cbn. by rewrite map_app.
  - rewrite push_turn_other by (intros Hk; by apply _key_inj in Hk). apply (Hr sid' Hsid').
Qed.

Lemma holds_entries s r sid : holds s r → uuid_ok sid → default [] (rd_get (_key sid) r) = map payload (remembered s sid (rd_now r)).
Proof. intros Hr Hsid. destruct (Hr sid Hsid) as [_ Hl]. unfold rd_get. rewrite Hl. by destruct (remembered s sid (rd_now r)). Qed.

Lemma get_recent_holds s r sid limit : holds s r → uuid_ok sid →
  get_recent_turns sid limit r = (Ret (newest limit (remembered s sid (rd_now r))), r).
Proof.
  intros Hr Hsid. destruct (Hr sid Hsid) as [Hall Hl]. unfold get_recent_turns, newest. destruct (Z.leb_spec limit 0).
  { rewrite drop_ge by lia. done. }
  unfold mbind, stm_bind, get_st, lift_res. unfold rd_lrange. rewrite (holds_entries s r sid) by done. set (ts := remembered s sid (rd_now r)) in *.
  rewrite length_map. destruct (Z.ltb_spec (- limit) 0); [|lia]. cbn [Z.ltb Z.compare].
  rewrite take_ge by (rewrite length_drop, length_map; lia).
  replace (Z.to_nat (Z.max 0 (Z.of_nat (length ts) + - limit))) with (length ts - Z.to_nat limit)%nat by lia.
  change (map payload ts) with (payload <$> ts). rewrite <- fmap_drop. f_equal. apply (Forall_drop _ (length ts - Z.to_nat limit)) in Hall.
  induction Hall as [|t l Ht _ IH]; [done|]. cbn -[_deserialize payload]. rewrite deserialize_payload by done. cbn -[_deserialize payload]. by rewrite IH.
Qed.

Lemma record_turn now sid role content metadata r :
  RecordWorkingTurn_execute now sid role content metadata r =
    (Ret (mkTurn role content now (default [] metadata)), (push_turn sid (mkTurn role content now (default [] metadata)) r).2).
Proof. done. Qed.

Lemma holds_recordings cs s r : Forall recordable cs → holds s r →
  let '(s', now) := shelve_recordings cs (rd_now r) s in
  holds s' (run_recordings rd_wait cs r) ∧ rd_now (run_recordings rd_wait cs r) = now.
Proof.
  intros Hcs. revert s r. induction Hcs as [|c cs (Hafter & Hsid & Hc) _ IH]; intros s r Hr; [done|].
  unfold shelve_recordings, run_recordings. cbn [fold_left fst snd].
  rewrite record_turn. cbn [snd]. fold (recorded c).
  pose proof (holds_push s (rd_wait (rc_after c) r) (rc_session c) (recorded c) (holds_wait s r _ Hafter Hr) Hsid Hc) as Hnext.
  specialize (IH _ _ Hnext). rewrite push_turn_now in IH. exact IH.
Qed.

(** C27: Working memory keeps what is recorded. After any turns recorded in any
    sessions, with any pauses between them, reading a session's recent turns gives
    exactly the last [limit] of those its history leaves, oldest first, each as it
    was recorded: role, content, time to the microsecond and metadata. A history
    leaves a session all its turns while less than a day passes between pushes and
    before the read, and nothing older than a longer pause; other sessions make no
    difference, and reading changes nothing. Turns are text, without finite floats
    in their metadata. *)
Theorem working_memory_round_trips cs session_id limit later start :
  Forall recordable cs → uuid_ok session_id → 0 ≤ later →
  let r := rd_wait later (run_recordings rd_wait cs (mkRedis ∅ start)) in
  let '(s, now) := shelve_recordings cs start (λ _, ([], start)) in
  wm_get_recent_turns session_id limit r = (Ret (newest limit (remembered s session_id (now + later))), r).
Proof.
  intros Hcs Hsid Hlater r. assert (holds (λ _, ([], start)) (mkRedis ∅ start)) as H0'.
  { intros sid _. unfold remembered. cbn. by destruct (start <=? start). }
  pose proof (holds_recordings cs _ _ Hcs H0') as Hr. cbn [rd_now] in Hr. destruct (shelve_recordings cs start _) as [s now]. destruct Hr as [Hr <-].
  pose proof (holds_wait _ _ _ Hlater Hr) as Hr'. exact (get_recent_holds s r session_id limit Hr' Hsid).
Qed.
End laws.

(** ** A worked example *)

#[local] Instance no_other_iso : OtherIso := λ _, Raise (ValueError "Invalid isoformat string").
#[local] Instance no_untyped_turns : UntypedTurns := λ _, Raise (TypeError "not a turn").

(** Two turns of session 7, one of session 8 between them. *)
Definition spoken : list Recording :=
  [mkRecording 0 (days 738000 + 1500000) 7 "user" "What is caf\u00e9 latte?" None;
   mkRecording 1000 (days 738000 + 2500000) 8 "user" "Hello" None;
   mkRecording 1000 (days 738000 + 3500000) 7 "assistant" "Coffee with milk" (Some [("tokens", JInt 4)])]%string.

Lemma working_memory_round_trips_witness :
  (∃ r, wm_get_recent_turns 7 1 r =
    (Ret [mkTurn "assistant" "Coffee with milk" (days 738000 + 3500000) [("tokens", JInt 4)]]%string, r)) ∧
  (∃ r, wm_get_recent_turns 7 5 r = (Ret [], r)).
Proof.
  assert (Forall recordable spoken) as Hs.
  { repeat constructor; first [by vm_compute|discriminate]. }
  split.
  - exists (rd_wait 500 (run_recordings rd_wait spoken (mkRedis ∅ 0))).
    refine (working_memory_round_trips spoken 7 1 500 0 Hs _ _); [split; by vm_compute|done].
  - exists (rd_wait 90000000 (run_recordings rd_wait spoken (mkRedis ∅ 0))).
    refine (working_memory_round_trips spoken 7 5 90000000 0 Hs _ _); [split; by vm_compute|done].
Defined.
