(* ===== verification/RateLimit.v ===== *)
(** * What stands before the routes

    identity/infrastructure/redis_rate_limiter.py over Redis; api/rate_limit.py,
    its limits and [enforce_rate_limit]; api/client_address.py, the client's
    address behind trusted proxies; api/middleware/max_body_size.py, the body
    buffered under a ceiling. *)

From Stdlib Require Import ZArith Lia Ascii String.
From S2P Require Import Prelude PySeq PyTime PyStr Json PyInt Redis.

(** ** RedisRateLimiter *)

Definition rate_key (key : string) : string := ("identity:ratelimit:" +:+ key)%string.

Record RedisRateLimiter : Type := mkLimiter { rl_redis : Redis Z; rl_clock : datetime }.

(** INCR, EXPIRE NX and TTL in one transaction. *)
Definition count_request (key : string) (window_seconds : Z) (r : Redis Z) : Z * Z * Redis Z :=
  let r1 := rd_update (λ v, default 0 v + 1) key r in
  let r2 := rd_expire_nx key window_seconds r1 in
  (default 0 (rd_get key r1), rd_ttl key r2, r2).

Definition rl_check (key : string) (limit window_seconds : Z) : stm RedisRateLimiter (bool * Z * datetime) := λ s,
  let '(count, ttl, r) := count_request (rate_key key) window_seconds (rl_redis s) in
  (reset_at ← dt_add (rl_clock s) (seconds (Z.max ttl 0));
   if limit <? count then Ret (false, 0, reset_at) else Ret (true, limit - count, reset_at),
   mkLimiter r (rl_clock s)).

(** ** The limits *)

Definition WINDOW_SECONDS : Z := 60.
Definition AUTH_LIMIT : Z := 5.
Definition SESSION_CREATE_LIMIT : Z := 20.
Definition INGESTION_RATE_LIMIT : Z := 10.
Definition _DEFAULT_CHAT_LIMIT : Z := 100.
Definition GLOBAL_CHAT_KEY : string := "global:chat".
Definition GLOBAL_CHAT_WINDOW_SECONDS : Z := 3600.
Definition _DEFAULT_GLOBAL_CHAT_LIMIT : Z := 10000.

Section environment.
Context `{UnicodeDigits} (environ : string → option string).

Definition limit_from (variable : string) (default_limit : Z) : res Z :=
  limit ← match environ variable with Some v => py_int v | None => Ret default_limit end;
  if limit <? 1 then Raise (ValueError (variable +:+ " must be at least 1")) else Ret limit.

Definition chat_rate_limit : res Z := limit_from "CHAT_RATE_LIMIT_PER_MINUTE" _DEFAULT_CHAT_LIMIT.
Definition global_chat_limit : res Z := limit_from "CHAT_RATE_LIMIT_GLOBAL_PER_HOUR" _DEFAULT_GLOBAL_CHAT_LIMIT.

(** ** real_client_ip *)

Definition trusted_proxy_count : Z :=
  match environ "TRUSTED_PROXY_COUNT"%string with
  | None => 0
  | Some v => match py_int v with Ret n => n | Raise _ => 0 end
  end.

Definition hops_of (raw_lines : list string) : list string :=
  filter (λ h, h ≠ EmptyString) (map strip (split_on "," (join ", " raw_lines))).

(** [raw_lines]: the X-Forwarded-For headers in order; [client]: the peer of
    the connection, if it is known. *)
Definition real_client_ip (raw_lines : list string) (client : option string) : res string :=
  let peer := default "unknown"%string client in
  let count := trusted_proxy_count in
  if (0 <? count) && negb (bool_decide (raw_lines = [])) && (count <=? Z.of_nat (length (hops_of raw_lines)))
  then py_index (- count) (hops_of raw_lines)
  else Ret peer.
End environment.

(** ** enforce_rate_limit *)

(** The limiter, [request.state.rate_limit_headers] and the headers written on
    the response, with the values they were formatted from. *)
Record Headers : Type := mkHeaders { hd_limit : Z; hd_remaining : Z; hd_reset : datetime }.
Record Enforcement : Type := mkEnforcement {
  en_limiter : RedisRateLimiter;
  en_state : option Headers;
  en_response : option Headers
}.

Definition enforce_rate_limit (key : string) (limit window_seconds : Z) : stm Enforcement unit := λ s,
  match rl_check key limit window_seconds (en_limiter s) with
  | (Raise e, l) => (Raise e, mkEnforcement l (en_state s) (en_response s))
  | (Ret (allowed, remaining, reset_at), l) =>
      if allowed then
        match en_state s with
        | None => let headers := mkHeaders limit remaining reset_at in (Ret tt, mkEnforcement l (Some headers) (Some headers))
        | Some _ => (Ret tt, mkEnforcement l (en_state s) (en_response s))
        end
      else (Raise (RateLimitExceeded limit 0 reset_at key), mkEnforcement l None (en_response s))
  end.

(** ** MaxBodySizeMiddleware *)

(** An ASGI message: a piece of the body and whether more follows, or anything else. *)
Inductive Message : Type :=
  | HttpRequest (body : list Z) (more_body : bool)
  | OtherMessage (type : string).

Record MaxBodySizeMiddleware : Type := mkMaxBody { mb_default_max_bytes : Z; mb_path_overrides : gmap string Z }.

Definition _limit_for (m : MaxBodySizeMiddleware) (path : string) : Z := default (mb_default_max_bytes m) (mb_path_overrides m !! path).

(** The first content-length header, read as an int. *)
Fixpoint declared_length (headers : list (string * list Z)) : option Z :=
  match headers with
  | [] => None
  | (name, value) :: rest =>
      if String.eqb name "content-length"
      then match int_of_bytes value with Ret n => Some n | Raise _ => None end
      else declared_length rest
  end.

(** What the middleware does with a request: hand it to the app as it is,
    reject it, wait for a message that has not come, or call the app with a body
    to replay and the messages left. *)
Inductive Handling : Type :=
  | Untouched
  | Rejected (read : nat)
  | Waiting
  | Passed (body : list Z) (rest : list Message).

(** The loop that drains the body; [read] counts the messages received. *)
Fixpoint drain (limit : Z) (chunks : list Z) (total : Z) (read : nat) (messages : list Message) : Handling :=
  match messages with
  | [] => Waiting
  | OtherMessage _ :: rest => Passed chunks rest
  | HttpRequest body more_body :: rest =>
      let total := total + Z.of_nat (length body) in
      if limit <? total then Rejected (S read)
      else if more_body then drain limit (chunks ++ body) total (S read) rest
      else Passed (chunks ++ body) rest
  end.

Definition handle_http (m : MaxBodySizeMiddleware) (path : string) (headers : list (string * list Z)) (messages : list Message) : Handling :=
  let limit := _limit_for m path in
  match declared_length headers with
  | Some declared => if limit <? declared then Rejected 0 else drain limit [] 0 0 messages
  | None => drain limit [] 0 0 messages
  end.

(** [__call__]. *)
Definition handle (m : MaxBodySizeMiddleware) (scope_type path : string) (headers : list (string * list Z)) (messages : list Message) : Handling :=
  if String.eqb scope_type "http" then handle_http m path headers messages else Untouched.

(** ** A limiter over time *)

(** A check on some key, [ck_after] milliseconds after the one before. *)
Record Check : Type := mkCheck { ck_after : Z; ck_key : string; ck_limit : Z; ck_window : Z }.

Definition limiter_wait (milliseconds : Z) (s : RedisRateLimiter) : RedisRateLimiter :=
  mkLimiter (rd_wait milliseconds (rl_redis s)) (rl_clock s + 1000 * milliseconds).

Definition run_check (c : Check) (s : RedisRateLimiter) : res (bool * Z * datetime) * RedisRateLimiter :=
  rl_check (ck_key c) (ck_limit c) (ck_window c) (limiter_wait (ck_after c) s).

Fixpoint run_checks (cs : list Check) (s : RedisRateLimiter) : list (string * res (bool * Z * datetime)) * RedisRateLimiter :=
  match cs with
  | [] => ([], s)
  | c :: cs' =>
      let '(verdict, s1) := run_check c s in
      let '(verdicts, s2) := run_checks cs' s1 in
      ((ck_key c, verdict) :: verdicts, s2)
  end.

(** The verdicts on one key, without their reset times. *)
Definition verdicts_on (key : string) (verdicts : list (string * res (bool * Z * datetime))) : list (res (bool * Z)) :=
  map (λ v, fst <$> snd v) (filter (λ v, v.1 = key) verdicts).

Definition checks_on (key : string) (cs : list Check) : list Check := filter (λ c, ck_key c = key) cs.
Definition elapsed (cs : list Check) : Z := zsum (map ck_after cs).

(** The i-th check of a window. *)
Definition verdict_at (limit i : Z) : res (bool * Z) := Ret (i <=? limit, Z.max 0 (limit - i)).

Lemma rate_key_inj k k' : rate_key k = rate_key k' → k = k'.
Proof. intros H. by apply (inj (String.append "identity:ratelimit:")) in H. Qed.

Lemma expire_nx_ne k k' w (r : Redis Z) : k' ≠ k → rd_lookup k' (rd_expire_nx k w r) = rd_lookup k' r.
Proof.
  intros Hne. unfold rd_expire_nx, rd_expire. destruct (rd_lookup k r) as [[v [e|]]|]; try done.
  destruct (w <=? 0); [|by apply rd_lookup_insert_ne]. unfold rd_lookup, rd_delete. cbn. by rewrite lookup_delete_ne.
Qed.

(** A check on one key leaves every other key alone. *)
Lemma rl_check_other key key' limit w s : key' ≠ key →
  rd_lookup (rate_key key') (rl_redis (rl_check key limit w s).2) = rd_lookup (rate_key key') (rl_redis s) ∧
  rd_now (rl_redis (rl_check key limit w s).2) = rd_now (rl_redis s) ∧ rl_clock (rl_check key limit w s).2 = rl_clock s.
Proof.
  intros Hne. assert (rate_key key' ≠ rate_key key) as Hk by (intros ?%rate_key_inj; done).
  unfold rl_check, count_request. cbn [snd rl_redis rl_clock]. rewrite expire_nx_ne by done. unfold rd_update. rewrite rd_lookup_insert_ne by done.
  split; [done|split; [|done]]. unfold rd_expire_nx, rd_expire. destruct (rd_lookup _ _) as [[v [e|]]|]; [done| |done].
  by destruct (w <=? 0).
Qed.

Lemma rd_get_update f k (r : Redis Z) : rd_get k (rd_update f k r) = Some (f (rd_get k r)).
Proof. unfold rd_get at 1. by rewrite rd_lookup_update. Qed.

(** The first count of a window sets its end, the others keep it. *)
Lemma count_request_first k w (r : Redis Z) : 0 < w → rd_lookup k r = None →
  ∃ r', count_request k w r = (1, w, r') ∧ rd_lookup k r' = Some (1, Some (rd_now r + 1000 * w)) ∧ rd_now r' = rd_now r.
Proof.
  intros Hw Hnone. unfold count_request. rewrite rd_get_update. unfold rd_get. rewrite Hnone. set (r1 := rd_update _ k r).
  assert (rd_lookup k r1 = Some (1, None)) as H1 by (unfold r1; rewrite rd_lookup_update; unfold rd_get; by rewrite Hnone).
  unfold rd_expire_nx, rd_expire. rewrite !H1. destruct (Z.leb_spec w 0); [lia|].
  assert (rd_lookup k (rd_set k 1 w r1) = Some (1, Some (rd_now r + 1000 * w))) as H2.
  { unfold rd_set. rewrite rd_lookup_insert. cbn. destruct (Z.leb_spec (rd_now r) (rd_now r + 1000 * w)); [done|lia]. }
  eexists. split; [|by split; [exact H2|]]. unfold rd_ttl. rewrite H2. cbn. do 2 f_equal.
  replace (rd_now r + 1000 * w - rd_now r + 500) with (500 + w * 1000) by lia. rewrite Z.div_add by lia. done.
Qed.

Lemma count_request_next k w n d (r : Redis Z) : rd_lookup k r = Some (n, Some d) →
  ∃ r', count_request k w r = (n + 1, (d - rd_now r + 500) / 1000, r') ∧ rd_lookup k r' = Some (n + 1, Some d) ∧ rd_now r' = rd_now r.
Proof.
  intros Hlive. unfold count_request. rewrite rd_get_update. unfold rd_get. rewrite Hlive. set (r1 := rd_update _ k r).
  assert (rd_lookup k r1 = Some (n + 1, Some d)) as H1 by (unfold r1; rewrite rd_lookup_update; unfold rd_get; by rewrite Hlive).
  unfold rd_expire_nx. rewrite H1. exists r1. split; [|done]. unfold rd_ttl. by rewrite H1.
Qed.

(** The verdict on the n-th count. *)
Lemma rl_check_verdict key limit w s n ttl r' : count_request (rate_key key) w (rl_redis s) = (n, ttl, r') →
  0 ≤ ttl → 0 ≤ rl_clock s → rl_clock s + seconds ttl < datetime_end →
  ∃ r, rl_check key limit w s = (r, mkLimiter r' (rl_clock s)) ∧ fst <$> r = verdict_at limit n.
Proof.
  intros Hcount Httl Hlo Hhi. unfold rl_check. rewrite Hcount. rewrite Z.max_l by lia. unfold dt_add.
  rewrite dt_check_ok by (unfold seconds, us_second in *; lia). cbn [mbind res_bind].
  unfold verdict_at. destruct (Z.ltb_spec limit n), (Z.leb_spec n limit); try lia; (eexists; split; [done|]); cbn; do 2 f_equal; lia.
Qed.

(** *** Within the window *)

(** What a run of checks needs of the counts it finds. *)
Definition live (key : string) (n deadline : Z) (s : RedisRateLimiter) : Prop :=
  rd_lookup (rate_key key) (rl_redis s) = Some (n, Some deadline) ∧ rd_now (rl_redis s) ≤ deadline ∧
  0 ≤ rl_clock s ∧ rl_clock s + 1000 * (deadline - rd_now (rl_redis s)) + us_second < datetime_end.

Definition well_timed (key : string) (limit : Z) (c : Check) : Prop := 0 ≤ ck_after c ∧ (ck_key c = key → ck_limit c = limit).

Lemma live_wait key n deadline s d : live key n deadline s → 0 ≤ d → rd_now (rl_redis s) + d ≤ deadline → live key n deadline (limiter_wait d s).
Proof.
  intros (Hl & Hle & Hlo & Hhi) Hd Hend. split; [|cbn; lia]. cbn [limiter_wait rl_redis]. rewrite rd_lookup_wait by done. rewrite Hl.
  cbn. destruct (Z.leb_spec (rd_now (rl_redis s) + d) deadline); [done|lia].
Qed.

Lemma live_check key limit w n deadline s : live key n deadline s →
  ∃ r s', rl_check key limit w s = (r, s') ∧ fst <$> r = verdict_at limit (n + 1) ∧ live key (n + 1) deadline s' ∧
    rd_now (rl_redis s') = rd_now (rl_redis s).
Proof.
  intros (Hl & Hle & Hlo & Hhi). destruct (count_request_next _ w _ _ _ Hl) as (r' & Hc & Hl' & Hn').
  pose proof (Z.div_mod (deadline - rd_now (rl_redis s) + 500) 1000 ltac:(lia)).
  pose proof (Z.mod_pos_bound (deadline - rd_now (rl_redis s) + 500) 1000 ltac:(lia)).
  destruct (rl_check_verdict key limit w s _ _ _ Hc) as (r & Hr & Hv);
    [apply Z.div_pos; lia|done|unfold seconds, us_second in *; lia|].
  exists r, (mkLimiter r' (rl_clock s)). split; [done|]. split; [done|]. unfold live. cbn [rl_redis rl_clock]. rewrite Hn'. auto.
Qed.

Lemma live_other key key' limit w n deadline s : key ≠ key' → live key n deadline s → live key n deadline (rl_check key' limit w s).2.
Proof.
  intros Hne (Hl & Hrest). destruct (rl_check_other key' key limit w s Hne) as (Hk & Hn & Hc).
  unfold live. by rewrite Hk, Hn, Hc.
Qed.

Lemma run_checks_live key limit cs n deadline s : live key n deadline s → Forall (well_timed key limit) cs →
  rd_now (rl_redis s) + elapsed cs ≤ deadline →
  verdicts_on key (run_checks cs s).1 = map (verdict_at limit) (seqZ (n + 1) (Z.of_nat (length (checks_on key cs)))) ∧
  live key (n + Z.of_nat (length (checks_on key cs))) deadline (run_checks cs s).2 ∧
  rd_now (rl_redis (run_checks cs s).2) = rd_now (rl_redis s) + elapsed cs.
Proof.
  intros Hlive Hcs. revert n s Hlive. induction Hcs as [|c cs [Hafter Hlim] Hcs IH]; intros n s Hlive Hend.
  { cbn. rewrite Z.add_0_r. unfold elapsed. cbn. split; [done|]. split; [done|lia]. }
  assert (0 ≤ elapsed cs) as Hrest.
  { clear -Hcs. unfold elapsed. induction Hcs as [|c cs [Hc _] _ IH]; cbn; [lia|]. unfold zsum in *. cbn. lia. }
  change (elapsed (c :: cs)) with (ck_after c + elapsed cs) in *. cbn [run_checks]. unfold run_check.
  pose proof (live_wait _ _ _ _ (ck_after c) Hlive Hafter ltac:(lia)) as Hl1. set (s1 := limiter_wait (ck_after c) s) in *.
  assert (rd_now (rl_redis s1) = rd_now (rl_redis s) + ck_after c) as Hn1 by done. clearbody s1.
  unfold checks_on. rewrite filter_cons. fold (checks_on key cs). destruct (decide (ck_key c = key)) as [Hk|Hk].
  - rewrite Hk, (Hlim Hk). destruct (live_check key limit (ck_window c) _ _ _ Hl1) as (r & s2 & -> & Hr & Hl2 & Hn2).
    destruct (IH _ _ Hl2 ltac:(lia)) as (Hv & Hl3 & Hn3). destruct (run_checks cs s2) as [verdicts s3]. cbn [fst snd] in *.
    unfold verdicts_on. rewrite filter_cons_True by done. cbn [map]. fold (verdicts_on key verdicts). rewrite Hv. cbn [length].
    rewrite (seqZ_cons (n + 1)) by lia. cbn [map]. rewrite <- Hr. split_and!.
    + f_equal. f_equal. f_equal; lia.
    + replace (n + Z.of_nat (S (length (checks_on key cs)))) with (n + 1 + Z.of_nat (length (checks_on key cs))) by lia. done.
    + lia.
  - pose proof (live_other key (ck_key c) (ck_limit c) (ck_window c) _ _ _ (not_eq_sym Hk) Hl1) as Hl2.
    pose proof (proj1 (proj2 (rl_check_other (ck_key c) key (ck_limit c) (ck_window c) s1 (not_eq_sym Hk)))) as Hn2.
    destruct (rl_check _ _ _ s1) as [r s2]. cbn [snd] in *. destruct (IH _ _ Hl2 ltac:(lia)) as (Hv & Hl3 & Hn3).
    destruct (run_checks cs s2) as [verdicts s3]. cbn [fst snd] in *.
    unfold verdicts_on. rewrite filter_cons_False by done. fold (verdicts_on key verdicts). split_and!; [done|done|lia].
Qed.

(** C22: From the first check on a key a window opens: of the checks on that key
    within it, whatever checks on other keys come between them, exactly the first
    [limit] are allowed and each says how many are left, the rest are denied; the
    window never moves, and once it has passed the count is gone, so the owner of
    the key is never locked out. *)
Theorem rate_limit_window key limit window wait0 cs s :
  0 < window → 0 ≤ wait0 → rd_lookup (rate_key key) (rl_redis s) = None →
  Forall (well_timed key limit) cs → elapsed cs ≤ 1000 * window →
  0 ≤ rl_clock s → rl_clock s + 1000 * wait0 + seconds window + us_second < datetime_end →
  let c0 := mkCheck wait0 key limit window in
  let '(verdicts, s') := run_checks (c0 :: cs) s in
  verdicts_on key verdicts = map (verdict_at limit) (seqZ 1 (Z.of_nat (length (checks_on key (c0 :: cs))))) ∧
  ∀ d, 1000 * window < elapsed cs + d → rd_lookup (rate_key key) (rl_redis (limiter_wait d s')) = None.
Proof.
  intros Hw H0 Hnone Hcs Helapsed Hlo Hhi. cbn [run_checks run_check]. unfold run_check. cbn [ck_key ck_limit ck_window ck_after].
  set (s1 := limiter_wait wait0 s).
  assert (rd_lookup (rate_key key) (rl_redis s1) = None) as Hnone1.
  { unfold s1. cbn [limiter_wait rl_redis]. by rewrite rd_lookup_wait, Hnone. }
  destruct (count_request_first _ window _ Hw Hnone1) as (r' & Hc & Hl' & Hn').
  destruct (rl_check_verdict key limit window s1 _ _ _ Hc) as (r & -> & Hr); [lia|cbn; lia|cbn; unfold seconds, us_second in *; lia|].
  assert (live key 1 (rd_now (rl_redis s1) + 1000 * window) (mkLimiter r' (rl_clock s1))) as Hlive.
  { split; [done|]. cbn [rl_redis rl_clock]. rewrite Hn'. cbn [s1 limiter_wait rl_clock]. unfold seconds, us_second in *. lia. }
  destruct (run_checks_live key limit cs _ _ _ Hlive Hcs) as (Hv & (Hgone & _) & Hn); [cbn [rl_redis]; lia|].
  destruct (run_checks cs _) as [verdicts s']. clear Hlive. clearbody s1. cbn [fst snd] in *. split.
  - unfold verdicts_on, checks_on. rewrite !filter_cons_True by done. cbn [map length]. fold (verdicts_on key verdicts) (checks_on key cs).
    rewrite (seqZ_cons 1) by lia. cbn [map snd]. rewrite Hr, Hv. do 3 f_equal; lia.
  - intros d Hd. cbn [limiter_wait rl_redis]. cbn [rl_redis] in Hn. rewrite Hn' in Hn. unfold rd_lookup in Hgone |- *. cbn [rd_wait rd_keys rd_now] in *.
    destruct (rd_keys (rl_redis s') !! rate_key key) as [[v e]|]; [|done]. destruct (alive (rd_now (rl_redis s')) e); [|done].
    injection Hgone as -> ->. cbn [alive]. destruct (Z.leb_spec (rd_now (rl_redis s') + d) (rd_now (rl_redis s1) + 1000 * window)); [lia|done].
Qed.

Definition quiet_limiter : RedisRateLimiter := mkLimiter (mkRedis ∅ 0) (days 738000).
Definition login_checks : list Check :=
  [mkCheck 1000 "auth:login:10.0.0.1" 2 60; mkCheck 1000 "auth:login:10.0.0.2" 2 60; mkCheck 50000 "auth:login:10.0.0.1" 2 60].

(** Two logins a minute: the third of one address is denied. *)
Lemma rate_limit_window_witness :
  verdicts_on "auth:login:10.0.0.1" (run_checks (mkCheck 5 "auth:login:10.0.0.1" 2 60 :: login_checks) quiet_limiter).1 =
    [Ret (true, 1); Ret (true, 0); Ret (false, 0)].
Proof.
  pose proof (rate_limit_window "auth:login:10.0.0.1" 2 60 5 login_checks quiet_limiter) as H.
  destruct (run_checks (mkCheck 5 _ 2 60 :: login_checks) quiet_limiter) as [verdicts s'] eqn:Hrun. cbn [fst].
  cbv zeta in H. rewrite Hrun in H. refine (proj1 (H _ _ _ _ _ _ _)); [lia|lia|reflexivity| |unfold elapsed; cbn; lia|cbn; unfold days, us_day, us_second; lia|].
  - unfold login_checks. rewrite !Forall_cons, Forall_nil. split_and!; try (split; [cbn; lia|done]). done.
  - cbn. unfold days, seconds, datetime_end, us_day, us_second. lia.
Defined.

(** ** The client's address *)

Lemma strip_space s : strip (String " " s) = strip s.
Proof. reflexivity. Qed.

Lemma string_append_assoc s1 s2 s3 : (s1 +:+ s2 +:+ s3 = (s1 +:+ s2) +:+ s3)%string.
Proof. induction s1 as [|c s1 IH]; [done|]. change (String c (s1 +:+ s2 +:+ s3) = String c ((s1 +:+ s2) +:+ s3))%string. by rewrite IH. Qed.

Lemma join_snoc sep parts p : parts ≠ [] → join sep (parts ++ [p]) = (join sep parts +:+ (sep +:+ p))%string.
Proof.
  intros Hne. induction parts as [|q parts IH]; [done|]. destruct parts as [|q' parts]; [done|].
  change (join sep ((q :: q' :: parts) ++ [p])) with (q +:+ sep +:+ join sep ((q' :: parts) ++ [p]))%string.
  rewrite IH by done. change (join sep (q :: q' :: parts)) with (q +:+ sep +:+ join sep (q' :: parts))%string.
  by rewrite !string_append_assoc.
Qed.

(** An address as a proxy writes it. *)
Definition address (a : string) : Prop := strip a = a ∧ a ≠ EmptyString ∧ mem_char "," a = false.

Lemma hops_of_snoc lines a : address a → hops_of (lines ++ [a]) = hops_of lines ++ [a].
Proof.
  intros (Hstrip & Hne & Hcomma). unfold hops_of. destruct (decide (lines = [])) as [->|Hl].
  - cbn [app join]. rewrite (split_on_none "," a Hcomma). cbn [map]. rewrite Hstrip, filter_cons_True by done. done.
  - rewrite join_snoc by done. change ((", " +:+ a)%string) with (String "," (String " " a)). rewrite split_on_app.
    rewrite (split_on_none "," (String " " a)) by done. rewrite map_app, filter_app. cbn [map]. rewrite strip_space, Hstrip.
    by rewrite filter_cons_True.
Qed.

Lemma hops_of_app lines addresses : Forall address addresses → hops_of (lines ++ addresses) = hops_of lines ++ addresses.
Proof.
  induction addresses as [|a addresses IH] using rev_ind; intros Ha; [by rewrite !app_nil_r|].
  apply Forall_app in Ha as [Hl Ha]. rewrite Forall_singleton in Ha. by rewrite app_assoc, hops_of_snoc, IH, app_assoc.
Qed.

(** C23: With [n] trusted proxies in front of the program, each appending the
    address it was called from, the address the program takes is the one the
    first of them saw, whatever X-Forwarded-For lines the client sent and however
    the lines arrive joined; without trusted proxies the lines are never read. *)
Theorem client_address_is_not_forged `{UnicodeDigits} environ peer :
  (trusted_proxy_count environ ≤ 0 → ∀ lines, real_client_ip environ lines (Some peer) = Ret peer) ∧
  ∀ forged client proxies lines, trusted_proxy_count environ = Z.of_nat (length (client :: proxies)) →
    Forall address (client :: proxies) → join ", " lines = join ", " (forged ++ client :: proxies) →
    real_client_ip environ lines (Some peer) = Ret client.
Proof.
  unfold real_client_ip. split.
  - intros Hn lines. destruct (Z.ltb_spec 0 (trusted_proxy_count environ)); [lia|done].
  - intros forged client proxies lines Hn Ha Hlines.
    assert (hops_of lines = hops_of forged ++ client :: proxies) as Hhops.
    { rewrite <- hops_of_app by done. unfold hops_of. by rewrite Hlines. }
    rewrite bool_decide_eq_false_2; cycle 1.
    { intros ->. symmetry in Hhops. change (hops_of []) with (@nil string) in Hhops. by apply app_eq_nil in Hhops as [_ [=]]. }
    cbn [length] in Hn. rewrite Hn, Hhops, length_app. cbn [length negb]. rewrite (proj2 (Z.ltb_lt 0 _)) by lia.
    rewrite (proj2 (Z.leb_le _ _)) by lia. cbn [andb]. unfold py_index. rewrite length_app. cbn [length].
    destruct (Z.ltb_spec (- Z.of_nat (S (length proxies))) 0); [|lia].
    destruct (Z.ltb_spec (- Z.of_nat (S (length proxies)) + Z.of_nat (length (hops_of forged) + S (length proxies))) 0); [lia|].
    replace (Z.to_nat _) with (length (hops_of forged)) by lia. by rewrite list_lookup_middle.
Qed.

(** A client that names itself 1.1.1.1 behind two proxies. *)
Lemma client_address_is_not_forged_witness :
  real_client_ip (H := no_more_digits) (λ v, if String.eqb v "TRUSTED_PROXY_COUNT" then Some " 2" else None)%string
    ["1.1.1.1"; " , 2.2.2.2, 7.7.7.7"; "10.0.0.8"]%string (Some "10.0.0.9")%string = Ret "7.7.7.7"%string.
Proof.
  refine (proj2 (client_address_is_not_forged (H := no_more_digits) _ _) ["1.1.1.1"; " , 2.2.2.2"]%string "7.7.7.7"%string ["10.0.0.8"]%string _ _ _ _).
  - vm_compute. reflexivity.
  - rewrite !Forall_cons, Forall_nil. split_and!; try (split; [vm_compute; reflexivity|split; [done|reflexivity]]). done.
  - reflexivity.
Defined.

(** ** The body ceiling *)

Definition body_of (message : Message) : list Z := match message with HttpRequest body _ => body | OtherMessage _ => [] end.
Definition bodies (messages : list Message) : list Z := concat (map body_of messages).
Definition bytes (l : list Z) : Z := Z.of_nat (length l).

(** A message after which the app waits for another piece. *)
Definition continues (message : Message) : Prop := ∃ body, message = HttpRequest body true.

Lemma drain_spec limit chunks read messages : bytes chunks ≤ limit →
  match drain limit chunks (bytes chunks) read messages with
  | Untouched => False
  | Waiting => Forall continues messages ∧ bytes (chunks ++ bodies messages) ≤ limit
  | Rejected n => ∃ front last rest, messages = front ++ last :: rest ∧ n = (read + S (length front))%nat ∧ Forall continues front ∧
      bytes (chunks ++ bodies front) ≤ limit ∧ limit < bytes (chunks ++ bodies (front ++ [last]))
  | Passed body rest => ∃ front last, messages = front ++ last :: rest ∧ Forall continues front ∧ ¬ continues last ∧
      body = chunks ++ bodies (front ++ [last]) ∧ bytes body ≤ limit
  end.
Proof.
  revert chunks read. induction messages as [|message messages IH]; intros chunks read Hle; cbn [drain].
  { split; [done|]. unfold bodies. cbn. by rewrite app_nil_r. }
  destruct message as [body more|type].
  - assert (bytes chunks + Z.of_nat (length body) = bytes (chunks ++ body)) as -> by (unfold bytes; rewrite length_app; lia).
    destruct (Z.ltb_spec limit (bytes (chunks ++ body))) as [Hover|Hin].
    { exists [], (HttpRequest body more), messages. split_and!; [done|cbn; lia|constructor| |]; unfold bodies; cbn; by rewrite ?app_nil_r. }
    destruct more.
    + specialize (IH (chunks ++ body) (S read) Hin). assert (∀ l, bodies (HttpRequest body true :: l) = body ++ bodies l) as Hb by done.
      destruct (drain limit (chunks ++ body) _ (S read) messages) as [|n| |out rest]; [done| | |].
      * destruct IH as (front & last & rest & -> & -> & Hf & Hlo & Hhi). exists (HttpRequest body true :: front), last, rest.
        change ((HttpRequest body true :: front) ++ [last]) with (HttpRequest body true :: (front ++ [last])). rewrite !Hb, !app_assoc.
        split_and!; [done|cbn; lia|constructor; [by eexists|done]|done|done].
      * destruct IH as [Hf Hlo]. rewrite Hb, app_assoc. split; [constructor; [by eexists|done]|done].
      * destruct IH as (front & last & -> & Hf & Hl & -> & Hlo). exists (HttpRequest body true :: front), last.
        change ((HttpRequest body true :: front) ++ [last]) with (HttpRequest body true :: (front ++ [last])). rewrite !Hb, !app_assoc in *.
        split_and!; [done|constructor; [by eexists|done]|done|done|done].
    + exists [], (HttpRequest body false). split_and!; [done|constructor|by intros (? & [=])| |done]. unfold bodies. cbn. by rewrite app_nil_r.
  - exists [], (OtherMessage type). split_and!; [done|constructor|by intros (? & [=])| |done]. unfold bodies. cbn. by rewrite app_nil_r.
Qed.

(** The app never gets a body over the ceiling of its exact path: what it
    gets is exactly the pieces that came, up to the last of the body or a
    disconnect, followed by the messages not yet read. A request is rejected only
    when its declared length or the pieces read are over the ceiling, and no piece
    is read after the one that crosses it; a body within the ceiling whose declared
    length is too is never rejected. *)
Theorem oversized_bodies_are_rejected m path headers messages :
  0 ≤ _limit_for m path →
  let limit := _limit_for m path in
  match handle m "http" path headers messages with
  | Untouched => False
  | Waiting => Forall continues messages ∧ bytes (bodies messages) ≤ limit
  | Rejected O => ∃ declared, declared_length headers = Some declared ∧ limit < declared
  | Rejected (S n) => limit < bytes (bodies (take (S n) messages)) ∧ bytes (bodies (take n messages)) ≤ limit ∧ Forall continues (take n messages)
  | Passed body rest => bytes body ≤ limit ∧ ∃ front last, messages = front ++ last :: rest ∧ Forall continues front ∧ ¬ continues last ∧ body = bodies (front ++ [last])
  end.
Proof.
  intros Hlimit limit. unfold handle, handle_http. change (String.eqb "http" "http") with true. cbv iota. fold limit.
  assert (match drain limit [] 0 0 messages with
    | Rejected O => False
    | r => match r with
      | Untouched => False
      | Waiting => Forall continues messages ∧ bytes (bodies messages) ≤ limit
      | Rejected n => limit < bytes (bodies (take n messages)) ∧ bytes (bodies (take (pred n) messages)) ≤ limit ∧ Forall continues (take (pred n) messages)
      | Passed body rest => bytes body ≤ limit ∧ ∃ front last, messages = front ++ last :: rest ∧ Forall continues front ∧ ¬ continues last ∧ body = bodies (front ++ [last])
      end
    end) as Hd.
  { pose proof (drain_spec limit [] 0 messages Hlimit) as H. change (bytes []) with 0 in H.
    destruct (drain limit [] 0 0 messages) as [|n| |body rest]; [done| |done|].
    - destruct H as (front & last & rest & -> & -> & Hf & Hlo & Hhi). cbn [Nat.add pred]. cbn [app] in *.
      rewrite take_app_length, (cons_middle last front rest), app_assoc, take_app_length'; [done|]. rewrite length_app. cbn. lia.
    - destruct H as (front & last & -> & Hf & Hl & -> & Hlo). split; [done|]. by exists front, last. }
  destruct (declared_length headers) as [declared|] eqn:Hdecl.
  - destruct (Z.ltb_spec limit declared); [by exists declared|]. destruct (drain limit [] 0 0 messages) as [|[|n]| |body rest]; done.
  - destruct (drain limit [] 0 0 messages) as [|[|n]| |body rest]; done.
Qed.

Definition upload_ceiling : MaxBodySizeMiddleware := mkMaxBody 2 {["/documents"%string := 4]}.

(** Two pieces of two bytes pass as an upload; elsewhere the second is one too many. *)
Lemma oversized_bodies_are_rejected_witness :
  (∃ body, handle upload_ceiling "http" "/documents" [] [HttpRequest [1; 2] true; HttpRequest [3; 4] false] = Passed body [] ∧ bytes body ≤ 4) ∧
  2 < bytes (bodies (take 2 [HttpRequest [1; 2] true; HttpRequest [3; 4] false; OtherMessage "http.disconnect"])).
Proof.
  split.
  - eexists. split; [vm_compute; reflexivity|].
    refine (proj1 (oversized_bodies_are_rejected upload_ceiling "/documents" [] [HttpRequest [1; 2] true; HttpRequest [3; 4] false] _)). vm_compute. discriminate.
  - refine (proj1 (oversized_bodies_are_rejected upload_ceiling "/documents/search" [] [HttpRequest [1; 2] true; HttpRequest [3; 4] false; OtherMessage "http.disconnect"] _)). vm_compute. discriminate.
Defined.
