(* ===== verification/Identity.v ===== *)
(** * Identity

    identity/domain (entities, ports), identity/application (registration,
    login, refresh, logout, chat sessions), identity/infrastructure (Argon2 and
    JWT adapters, the users table, refresh tokens in Redis), api/caller.py and
    api/routers/auth.py.  The Argon2 and JWT libraries are parameters.  Every
    component is a port over one state, the [World] at the end of the adapters. *)

From Stdlib Require Import ZArith Lia Ascii String Floats.SpecFloat.
From S2P Require Import Prelude PyFloat IntDivision PyTime PyStr Digest Json PyInt PyUuid MagDomain Sessions Redis RateLimit.

(** ** Entities *)

Record PasswordHash : Type := mkPasswordHash { ph_value : string }.

Definition PasswordHash_init (value : string) : res PasswordHash :=
  if startswith "$argon2id$" value then Ret (mkPasswordHash value)
  else Raise (ValueError "PasswordHash must be an Argon2id hash ($argon2id$ prefix)").

Record User : Type := mkUser {
  us_id : uuid;
  us_email : string;
  us_hashed_password : PasswordHash;
  us_tenant_id : uuid;
  us_created_at : datetime;
  us_updated_at : datetime
}.

Record AccessToken : Type := mkAccess { at_value : string; at_expires_at : datetime }.
Record RefreshToken : Type := mkRefresh { rt_token_id : uuid; rt_value : string; rt_expires_at : datetime }.
Record TokenPair : Type := mkPair { tp_access_token : AccessToken; tp_refresh_token : RefreshToken }.

(** ** Ports *)

Class PasswordHasher (S : Type) : Type := {
  hasher_hash : string → stm S PasswordHash;
  hasher_verify : string → PasswordHash → res bool
}.
Class TokenIssuer (S : Type) : Type := {
  issue_pair : uuid → uuid → stm S TokenPair;
  verify_access_token : string → stm S (list (string * json))
}.
Class UserRepository (S : Type) : Type := {
  ur_save : User → stm S unit;
  ur_find_by_email : string → stm S (option User);
  ur_find_by_id : uuid → stm S (option User)
}.
Class RefreshTokenStore (S : Type) : Type := {
  rs_save : RefreshToken → uuid → stm S unit;
  rs_get_user_id : uuid → stm S (option uuid);
  rs_delete : uuid → stm S unit
}.
(** [datetime.now(UTC)] and [uuid.uuid4()]. *)
Class Host (S : Type) : Type := { host_now : stm S datetime; host_uuid4 : stm S uuid }.

(** ** Use cases *)

Section use_cases.
Context {S : Type} `{PasswordHasher S, TokenIssuer S, UserRepository S, RefreshTokenStore S, Host S}.

Definition RegisterUser_execute (email plain_password : string) : stm S User :=
  now ← host_now;
  id ← host_uuid4;
  hashed_password ← hasher_hash plain_password;
  tenant_id ← host_uuid4;
  let user := mkUser id email hashed_password tenant_id now now in
  ur_save user;;
  mret user.

Definition _DUMMY_HASH : PasswordHash := mkPasswordHash "$argon2id$v=19$m=65536,t=3,p=4$c29tZXNhbHQ$aGFzaHZhbHVl".

Definition AuthenticateUser_execute (email plain_password : string) : stm S (User * TokenPair) :=
  user ← ur_find_by_email email;
  match user with
  | None => lift_res (hasher_verify plain_password _DUMMY_HASH);; raise InvalidCredentials
  | Some user =>
      verified ← lift_res (hasher_verify plain_password (us_hashed_password user));
      if negb verified then raise InvalidCredentials
      else pair ← issue_pair (us_id user) (us_tenant_id user); mret (user, pair)
  end.

Definition RefreshAccessToken_execute (refresh_token_id tenant_id : uuid) : stm S TokenPair :=
  user_id ← rs_get_user_id refresh_token_id;
  match user_id with
  | None => raise TokenAlreadyUsed
  | Some user_id =>
      rs_delete refresh_token_id;;
      new_pair ← issue_pair user_id tenant_id;
      rs_save (tp_refresh_token new_pair) user_id;;
      mret new_pair
  end.

Definition RevokeRefreshToken_execute (refresh_token_id : uuid) : stm S unit := rs_delete refresh_token_id.
End use_cases.

Section chat_sessions.
Context {R : Type} `{ChatSessionRepository R}.

Definition StartChatSession_execute (tenant_id user_id : uuid) (title : option string) : stm R ChatSession :=
  let stripped := strip (default EmptyString title) in
  if MAX_SESSION_TITLE_CHARS <? py_len stripped then raise (ValueError "a session title is at most 200 characters")
  else cr_create tenant_id user_id (if String.eqb stripped EmptyString then None else Some stripped).

Definition MAX_SESSIONS_PER_PAGE : Z := 100.

Definition ListChatSessions_execute (tenant_id user_id : uuid) (limit : Z) : stm R (list ChatSession) :=
  if (1 <=? limit) && (limit <=? MAX_SESSIONS_PER_PAGE) then cr_list_owned tenant_id user_id limit
  else raise (ValueError "limit must be between 1 and 100").
End chat_sessions.

(** ** The caller of a request *)

Record Caller : Type := mkCaller { cl_tenant_id : uuid; cl_user_id : uuid }.

Section claims.
Context `{UnicodeDigits}.

(** [uuid.UUID(claims[key])]: None is no hex string, anything else that is no string has no [replace]. *)
Definition claim_uuid (key : string) (claims : list (string * json)) : res uuid :=
  match od_get key claims with
  | None => Raise KeyError
  | Some (JStr s) => py_uuid s
  | Some JNull => Raise (TypeError "one of the hex, bytes, bytes_le, fields, or int arguments must be given")
  | Some _ => Raise AttributeError
  end.

Definition caller_from_claims (claims : list (string * json)) : res Caller :=
  match (tenant_id ← claim_uuid "tenant_id" claims; user_id ← claim_uuid "sub" claims; Ret (mkCaller tenant_id user_id)) with
  | Raise (KeyError | TypeError _ | ValueError _) => Raise TokenExpired
  | r => r
  end.

Definition get_current_user_claims {S} `{TokenIssuer S} (authorization : option string) : stm S (list (string * json)) :=
  match authorization with
  | None => raise TokenExpired
  | Some header =>
      match strip_prefix "Bearer " header with
      | None => raise TokenExpired
      | Some token => verify_access_token token
      end
  end.

Definition get_caller {S} `{TokenIssuer S} (authorization : option string) : stm S Caller :=
  claims ← get_current_user_claims authorization;
  lift_res (caller_from_claims claims).
End claims.

(** ** The world the adapters share *)

(** A row of the users table, under its id. *)
Record UserRow : Type := mkUserRow {
  ur_email : string;
  ur_hashed_password : string;
  ur_tenant_id : uuid;
  ur_created_at : datetime;
  ur_updated_at : datetime
}.

(** The committed table, the rows the request's session sees, the refresh
    tokens in Redis, the clock, and the random 128-bit values drawn so far. *)
Record World : Type := mkWorld {
  w_committed : gmap uuid UserRow;
  w_rows : gmap uuid UserRow;
  w_tokens : Redis string;
  w_clock : datetime;
  w_random : nat → Z;
  w_drawn : nat
}.

Definition with_committed (c r : gmap uuid UserRow) (w : World) : World :=
  mkWorld c r (w_tokens w) (w_clock w) (w_random w) (w_drawn w).
Definition with_tokens (t : Redis string) (w : World) : World :=
  mkWorld (w_committed w) (w_rows w) t (w_clock w) (w_random w) (w_drawn w).

Definition draw : stm World Z := λ w,
  (Ret (w_random w (w_drawn w)), mkWorld (w_committed w) (w_rows w) (w_tokens w) (w_clock w) (w_random w) (S (w_drawn w))).

#[export] Instance world_host : Host World := {| host_now := λ w, (Ret (w_clock w), w); host_uuid4 := draw |}.

(** ** Argon2PasswordHasher *)

(** What the library's [verify] does: it matches, raises VerifyMismatchError, or raises another error. *)
Inductive Verification : Type := Verified | Mismatch | Refused (e : exn).

(** [argon2.PasswordHasher]: hashing draws a salt. *)
Class Argon2 : Type := {
  argon2_hash : Z → string → string;
  argon2_verify : string → string → Verification
}.

Definition argon2_hasher_hash `{Argon2} (plain_password : string) : stm World PasswordHash :=
  salt ← draw; lift_res (PasswordHash_init (argon2_hash salt plain_password)).

Definition argon2_hasher_verify `{Argon2} (plain_password : string) (hashed : PasswordHash) : res bool :=
  match argon2_verify (ph_value hashed) plain_password with
  | Verified => Ret true
  | Mismatch => Ret false
  | Refused e => Raise e
  end.

#[export] Instance argon2_password_hasher `{Argon2} : PasswordHasher World := {|
  hasher_hash := argon2_hasher_hash; hasher_verify := argon2_hasher_verify |}.

(** ** JWTTokenIssuer *)

(** PyJWT with HS256 and [verify_exp] off: [None] is an InvalidTokenError. *)
Class JWT : Type := {
  jwt_encode : list (string * json) → string → string;
  jwt_decode : string → string → option (list (string * json))
}.

Definition _ACCESS_TOKEN_LIFETIME : timedelta := 15 * 60 * us_second.
Definition _REFRESH_TOKEN_LIFETIME : timedelta := 7 * us_day.

(** 1970-01-01. *)
Definition EPOCH : datetime := 719162 * us_day.
Definition total_seconds (d : timedelta) : res f64 := int_true_div d 1000000.
Definition timestamp (t : datetime) : res f64 := total_seconds (t - EPOCH).
Definition int_timestamp (t : datetime) : res Z := x ← timestamp t; py_trunc x.

(** [x > exp_time] for a claim of any JSON type. *)
Definition float_gt_json (x : f64) (v : json) : res bool :=
  match v with
  | JInt z => Ret (float_gt_int x z)
  | JBool b => Ret (float_gt_int x (if b then 1 else 0))
  | JFloat y => Ret (flt y x)
  | _ => Raise (TypeError "'>' not supported between instances")
  end.

Section jwt_issuer.
Context `{JWT} (secret_key : string).

Definition access_claims (user_id tenant_id : uuid) (exp iat : Z) : list (string * json) :=
  [("sub", JStr (uuid_str user_id)); ("tenant_id", JStr (uuid_str tenant_id)); ("exp", JInt exp); ("iat", JInt iat);
   ("type", JStr "access")]%string.
Definition refresh_claims (user_id token_id : uuid) (exp iat : Z) : list (string * json) :=
  [("sub", JStr (uuid_str user_id)); ("jti", JStr (uuid_str token_id)); ("exp", JInt exp); ("iat", JInt iat);
   ("type", JStr "refresh")]%string.

Definition jwt_issue_pair (user_id tenant_id : uuid) : stm World TokenPair :=
  now ← host_now;
  access_expires_at ← lift_res (dt_add now _ACCESS_TOKEN_LIFETIME);
  access_exp ← lift_res (int_timestamp access_expires_at);
  iat ← lift_res (int_timestamp now);
  refresh_expires_at ← lift_res (dt_add now _REFRESH_TOKEN_LIFETIME);
  token_id ← host_uuid4;
  refresh_exp ← lift_res (int_timestamp refresh_expires_at);
  mret (mkPair (mkAccess (jwt_encode (access_claims user_id tenant_id access_exp iat) secret_key) access_expires_at)
               (mkRefresh token_id (jwt_encode (refresh_claims user_id token_id refresh_exp iat) secret_key) refresh_expires_at)).

Definition check_expiry (now : f64) (claims : list (string * json)) : res unit :=
  match od_get "exp" claims with
  | None => Ret tt
  | Some exp_time =>
      match float_gt_json now exp_time with
      | Ret true => Raise TokenExpired
      | Ret false => Ret tt
      | Raise e => Raise e
      end
  end.

Definition jwt_verify_access_token (token : string) : stm World (list (string * json)) := λ w,
  (now ← timestamp (w_clock w);
   match jwt_decode token secret_key with
   | None => Raise TokenExpired
   | Some claims =>
       check_expiry now claims;;
       match od_get "type" claims with
       | Some (JStr kind) => if String.eqb kind "access" then Ret claims else Raise TokenExpired
       | _ => Raise TokenExpired
       end
   end, w).

#[export] Instance jwt_token_issuer : TokenIssuer World := {| issue_pair := jwt_issue_pair; verify_access_token := jwt_verify_access_token |}.
End jwt_issuer.

(** ** PostgresUserRepository *)

(** The e-mail is unique, the id the primary key; a violation rolls the session back. *)
Definition conflicts (user : User) (rows : gmap uuid UserRow) : Prop :=
  is_Some (rows !! us_id user) ∨ Exists (λ kr, ur_email kr.2 = us_email user) (map_to_list rows).
#[export] Instance conflicts_dec user rows : Decision (conflicts user rows).
Proof. unfold conflicts. apply _. Defined.

Definition user_row (user : User) : UserRow :=
  mkUserRow (us_email user) (ph_value (us_hashed_password user)) (us_tenant_id user) (us_created_at user) (us_updated_at user).

Definition pu_save (user : User) : stm World unit := λ w,
  if decide (conflicts user (w_rows w)) then (Raise (EmailAlreadyRegistered (us_email user)), with_committed (w_committed w) (w_committed w) w)
  else (Ret tt, with_committed (w_committed w) (<[us_id user := user_row user]> (w_rows w)) w).

Definition _row_to_user (id : uuid) (row : UserRow) : res User :=
  hashed_password ← PasswordHash_init (ur_hashed_password row);
  Ret (mkUser id (ur_email row) hashed_password (ur_tenant_id row) (ur_created_at row) (ur_updated_at row)).

Definition found_user (row : option (uuid * UserRow)) : res (option User) :=
  match row with
  | None => Ret None
  | Some (id, row) => Some <$> _row_to_user id row
  end.

Definition pu_find_by_email (email : string) : stm World (option User) := λ w,
  (found_user (head (filter (λ kr, ur_email kr.2 = email) (map_to_list (w_rows w)))), w).

Definition pu_find_by_id (user_id : uuid) : stm World (option User) := λ w,
  (found_user (pair user_id <$> w_rows w !! user_id), w).

#[export] Instance postgres_user_repository : UserRepository World := {|
  ur_save := pu_save; ur_find_by_email := pu_find_by_email; ur_find_by_id := pu_find_by_id |}.

(** A request's session: it starts at what is committed, and what it has not
    committed when the request ends is gone. *)
Definition in_db_session {A} (m : stm World A) : stm World A := λ w,
  let '(r, w') := m (with_committed (w_committed w) (w_committed w) w) in (r, with_committed (w_committed w') (w_committed w') w').
Definition commit : stm World unit := modify (λ w, with_committed (w_rows w) (w_rows w) w).

(** ** RedisRefreshTokenStore *)

Definition refresh_key (token_id : uuid) : string := ("identity:refresh:" +:+ uuid_str token_id)%string.

Section refresh_tokens.
Context `{UnicodeDigits}.

Definition rr_save (refresh_token : RefreshToken) (user_id : uuid) : stm World unit :=
  now ← host_now;
  left ← lift_res (total_seconds (rt_expires_at refresh_token - now));
  ttl_seconds ← lift_res (py_trunc left);
  modify (λ w, with_tokens (rd_set (refresh_key (rt_token_id refresh_token)) (uuid_str user_id) (Z.max ttl_seconds 1) (w_tokens w)) w).

Definition rr_get_user_id (token_id : uuid) : stm World (option uuid) := λ w,
  (match rd_get (refresh_key token_id) (w_tokens w) with
   | None => Ret None
   | Some value => if String.eqb value EmptyString then Ret None else Some <$> py_uuid value
   end, w).

Definition rr_delete (token_id : uuid) : stm World unit := modify (λ w, with_tokens (rd_delete (refresh_key token_id) (w_tokens w)) w).

#[export] Instance redis_refresh_token_store : RefreshTokenStore World := {|
  rs_save := rr_save; rs_get_user_id := rr_get_user_id; rs_delete := rr_delete |}.
End refresh_tokens.

(** ** The auth routes *)

(** The refresh cookie a response sets, with its Secure flag, or deletes. *)
Inductive CookieAction : Type :=
  | SetCookie (value : string) (secure : bool)
  | DeleteCookie.

Record AuthRequest : Type := mkAuthRequest {
  rq_forwarded : list string;
  rq_client : option string;
  rq_refresh_cookie : option string
}.

Section auth_routes.
Context `{UnicodeDigits, Argon2, JWT} (environ : string → option string) (secret_key : string).
#[local] Existing Instances jwt_token_issuer.
#[local] Instance issuer : TokenIssuer World := jwt_token_issuer secret_key.

Definition _cookie_secure : bool := negb (String.eqb (lower (default "true" (environ "COOKIE_SECURE"))) "false")%string.
Definition _set_refresh_cookie (token_id : uuid) : CookieAction := SetCookie (uuid_str token_id) _cookie_secure.

Definition _parse_refresh_cookie (token_id_str : string) : res uuid :=
  match py_uuid token_id_str with
  | Raise (ValueError _) => Raise TokenAlreadyUsed
  | r => r
  end.

Definition _enforce_rate_limit (request : AuthRequest) (route_name : string) : stm (Enforcement * World) unit :=
  address ← lift_res (real_client_ip environ (rq_forwarded request) (rq_client request));
  on_fst (enforce_rate_limit (route_name +:+ ":" +:+ address) AUTH_LIMIT WINDOW_SECONDS).

Definition committing_register (email password : string) : stm World (uuid * string) :=
  user ← RegisterUser_execute email password;
  commit;;
  mret (us_id user, us_email user).

Definition register (request : AuthRequest) (email password : string) : stm (Enforcement * World) (uuid * string) :=
  _enforce_rate_limit request "register";;
  on_snd (in_db_session (committing_register email password)).

Definition logging_in (email password : string) : stm World (string * CookieAction) :=
  '(user, tokens) ← AuthenticateUser_execute email password;
  rs_save (tp_refresh_token tokens) (us_id user);;
  mret (at_value (tp_access_token tokens), _set_refresh_cookie (rt_token_id (tp_refresh_token tokens))).

Definition login (request : AuthRequest) (email password : string) : stm (Enforcement * World) (string * CookieAction) :=
  _enforce_rate_limit request "login";;
  on_snd (in_db_session (logging_in email password)).

Definition refreshing (token_id : uuid) : stm World (string * CookieAction) :=
  user_id ← rs_get_user_id token_id;
  match user_id with
  | None => raise TokenAlreadyUsed
  | Some user_id =>
      user ← ur_find_by_id user_id;
      match user with
      | None => raise TokenAlreadyUsed
      | Some user =>
          new_pair ← RefreshAccessToken_execute token_id (us_tenant_id user);
          mret (at_value (tp_access_token new_pair), _set_refresh_cookie (rt_token_id (tp_refresh_token new_pair)))
      end
  end.

Definition refresh (request : AuthRequest) : stm World (string * CookieAction) :=
  match rq_refresh_cookie request with
  | None | Some EmptyString => raise TokenAlreadyUsed
  | Some token_id_str => token_id ← lift_res (_parse_refresh_cookie token_id_str); in_db_session (refreshing token_id)
  end.

(** A cookie that is no id skips the revocation; the cookie goes either way. *)
Definition logout (request : AuthRequest) : stm World CookieAction :=
  match rq_refresh_cookie request with
  | None | Some EmptyString => mret DeleteCookie
  | Some token_id_str =>
      match py_uuid token_id_str with
      | Raise (ValueError _) => mret DeleteCookie
      | Raise e => raise e
      | Ret token_id => RevokeRefreshToken_execute token_id;; mret DeleteCookie
      end
  end.
End auth_routes.

(** Step through a bind whose first call, reached through an instance, is known. *)
Ltac stm_by H := erewrite stm_bind_eq by exact H; cbv beta iota.

(** ** Tokens over time *)

(** A clock after 1970 whose refresh tokens expire before the calendar does. *)
Definition clock_ok (w : World) : Prop := EPOCH < w_clock w ∧ w_clock w + _REFRESH_TOKEN_LIFETIME < datetime_end.

Ltac times := unfold clock_ok, _ACCESS_TOKEN_LIFETIME, _REFRESH_TOKEN_LIFETIME, EPOCH, datetime_end, us_day, us_second in *.

(** [z] is the second [t] falls in, or the next. *)
Definition second_of (t z : Z) : Prop := (t - EPOCH) / 1000000 ≤ z ≤ (t - EPOCH + 999999) / 1000000.

Lemma second_of_range t z : EPOCH < t < datetime_end → second_of t z → 0 ≤ z < 2 ^ 62 ∧ t - EPOCH - 999999 ≤ z * 1000000 ≤ t - EPOCH + 999999.
Proof.
  intros Ht [Hlo Hhi]. pose proof (Z.div_mod (t - EPOCH) 1000000 ltac:(lia)). pose proof (Z.mod_pos_bound (t - EPOCH) 1000000 ltac:(lia)).
  pose proof (Z.div_mod (t - EPOCH + 999999) 1000000 ltac:(lia)). pose proof (Z.mod_pos_bound (t - EPOCH + 999999) 1000000 ltac:(lia)).
  times. lia.
Qed.

Lemma int_timestamp_between t : EPOCH < t < datetime_end → ∃ z, int_timestamp t = Ret z ∧ second_of t z.
Proof.
  intros Ht. destruct (int_true_div_trunc (t - EPOCH) 1000000) as (x & z & Hx & Hz & Hb); [times; lia|lia|].
  exists z. split; [|unfold second_of; by replace (t - EPOCH + 999999) with (t - EPOCH + 1000000 - 1) by lia].
  unfold int_timestamp, timestamp, total_seconds. by rewrite Hx.
Qed.

Definition drawn_once (w : World) : World :=
  mkWorld (w_committed w) (w_rows w) (w_tokens w) (w_clock w) (w_random w) (S (w_drawn w)).

Lemma now_bind {A} (f : datetime → stm World A) w : (host_now ≫= f) w = f (w_clock w) w.
Proof. done. Qed.
Lemma uuid4_bind {A} (f : uuid → stm World A) w : (host_uuid4 ≫= f) w = f (w_random w (w_drawn w)) (drawn_once w).
Proof. done. Qed.

Section token_laws.
Context `{UnicodeDigits, JWT} (key : string).

Lemma issue_pair_spec u t w : clock_ok w →
  ∃ exp iat rexp, jwt_issue_pair key u t w =
    (Ret (mkPair (mkAccess (jwt_encode (access_claims u t exp iat) key) (w_clock w + _ACCESS_TOKEN_LIFETIME))
                 (mkRefresh (w_random w (w_drawn w)) (jwt_encode (refresh_claims u (w_random w (w_drawn w)) rexp iat) key) (w_clock w + _REFRESH_TOKEN_LIFETIME))),
     drawn_once w) ∧
    second_of (w_clock w + _ACCESS_TOKEN_LIFETIME) exp ∧ second_of (w_clock w) iat ∧ second_of (w_clock w + _REFRESH_TOKEN_LIFETIME) rexp.
Proof.
  intros [Hlo Hhi]. destruct (int_timestamp_between (w_clock w)) as (iat & Hiat & Hiatb); [times; lia|].
  destruct (int_timestamp_between (w_clock w + _ACCESS_TOKEN_LIFETIME)) as (exp & Hexp & Hb); [times; lia|].
  destruct (int_timestamp_between (w_clock w + _REFRESH_TOKEN_LIFETIME)) as (rexp & Hrexp & Hrexpb); [times; lia|].
  exists exp, iat, rexp. split; [|exact (conj Hb (conj Hiatb Hrexpb))]. unfold jwt_issue_pair. rewrite now_bind.
  assert (dt_add (w_clock w) _ACCESS_TOKEN_LIFETIME = Ret (w_clock w + _ACCESS_TOKEN_LIFETIME)) as -> by (apply dt_check_ok; times; lia).
  assert (dt_add (w_clock w) _REFRESH_TOKEN_LIFETIME = Ret (w_clock w + _REFRESH_TOKEN_LIFETIME)) as -> by (apply dt_check_ok; times; lia).
  rewrite stm_lift_bind, Hexp, stm_lift_bind, Hiat, !stm_lift_bind.
  by rewrite uuid4_bind, Hrexp, stm_lift_bind.
Qed.

Lemma total_seconds_week : total_seconds _REFRESH_TOKEN_LIFETIME ≫= py_trunc = Ret 604800.
Proof. vm_compute. reflexivity. Qed.

Definition saved_token (token_id u : uuid) (w : World) : World :=
  with_tokens (rd_set (refresh_key token_id) (uuid_str u) 604800 (w_tokens w)) w.

(** A token just issued is kept for its seven days. *)
Lemma rr_save_spec r u w : rt_expires_at r = w_clock w + _REFRESH_TOKEN_LIFETIME → rr_save r u w = (Ret tt, saved_token (rt_token_id r) u w).
Proof.
  intros Hr. unfold rr_save. rewrite now_bind, Hr.
  replace (w_clock w + _REFRESH_TOKEN_LIFETIME - w_clock w) with _REFRESH_TOKEN_LIFETIME by lia.
  pose proof total_seconds_week as Hw. destruct (total_seconds _REFRESH_TOKEN_LIFETIME) as [x|e]; [|done].
  cbn [mbind res_bind] in Hw. by rewrite stm_lift_bind, Hw, stm_lift_bind.
Qed.

Lemma rr_get_live token_id u w : rd_get (refresh_key token_id) (w_tokens w) = Some (uuid_str u) → uuid_ok u →
  rr_get_user_id token_id w = (Ret (Some u), w).
Proof.
  intros Hg Hu. unfold rr_get_user_id. rewrite Hg. replace (String.eqb (uuid_str u) EmptyString) with false; [by rewrite py_uuid_str|].
  symmetry. apply String.eqb_neq. intros He. pose proof (uuid_parse_str u Hu) as Hp. by rewrite He in Hp.
Qed.

Lemma rr_get_gone token_id w : rd_get (refresh_key token_id) (w_tokens w) = None → rr_get_user_id token_id w = (Ret None, w).
Proof. intros Hg. unfold rr_get_user_id. by rewrite Hg. Qed.

Lemma refresh_key_inj a b : uuid_ok a → uuid_ok b → refresh_key a = refresh_key b → a = b.
Proof. intros Ha Hb Hk. apply (inj (String.append "identity:refresh:")) in Hk. by apply uuid_str_inj. Qed.
End token_laws.

(** ** Refreshing *)

(** The token is live, for user [u]. *)
Definition live_token (token_id u : uuid) (w : World) : Prop := rd_get (refresh_key token_id) (w_tokens w) = Some (uuid_str u).
Definition next_id (w : World) : uuid := w_random w (w_drawn w).
Definition deleted_token (token_id : uuid) (w : World) : World := with_tokens (rd_delete (refresh_key token_id) (w_tokens w)) w.

(** The world after [token_id] was exchanged for the next id. *)
Definition rotated (token_id u : uuid) (w : World) : World := saved_token (next_id w) u (drawn_once (deleted_token token_id w)).

Lemma saved_token_lookup a u w : rd_lookup (refresh_key a) (w_tokens (saved_token a u w)) = Some (uuid_str u, Some (rd_now (w_tokens w) + 1000 * 604800)).
Proof.
  unfold saved_token, rd_set. cbn [with_tokens w_tokens]. rewrite rd_lookup_insert. cbn [alive].
  by rewrite (proj2 (Z.leb_le _ _)) by lia.
Qed.

Lemma saved_token_other a b u w : uuid_ok a → uuid_ok b → b ≠ a →
  rd_lookup (refresh_key b) (w_tokens (saved_token a u w)) = rd_lookup (refresh_key b) (w_tokens w).
Proof. intros Ha Hb Hne. apply rd_lookup_insert_ne. intros Hk. by apply refresh_key_inj in Hk. Qed.

Lemma deleted_token_other a b w : uuid_ok a → uuid_ok b → b ≠ a →
  rd_lookup (refresh_key b) (w_tokens (deleted_token a w)) = rd_lookup (refresh_key b) (w_tokens w).
Proof.
  intros Ha Hb Hne. unfold deleted_token, rd_delete, rd_lookup. cbn. rewrite lookup_delete_ne; [done|].
  intros Hk. by apply refresh_key_inj in Hk.
Qed.

Section refreshing.
Context `{UnicodeDigits, JWT} (environ : string → option string) (secret_key : string).
#[local] Instance refresh_issuer : TokenIssuer World := jwt_token_issuer secret_key.

Lemma RefreshAccessToken_spec u tid tenant w : clock_ok w → uuid_ok u → live_token tid u w →
  ∃ tokens, jwt_issue_pair secret_key u tenant (deleted_token tid w) = (Ret tokens, drawn_once (deleted_token tid w)) ∧
    RefreshAccessToken_execute tid tenant w = (Ret tokens, rotated tid u w) ∧ rt_token_id (tp_refresh_token tokens) = next_id w.
Proof.
  intros Hclock Hu Hlive. destruct (issue_pair_spec secret_key u tenant (deleted_token tid w) Hclock) as (exp & iat & rexp & Hissue & _).
  eexists. split; [exact Hissue|]. split; [|done]. unfold RefreshAccessToken_execute.
  stm_by (rr_get_live tid u w Hlive Hu).
  stm_by (eq_refl (Ret tt, deleted_token tid w)).
  stm_by Hissue.
  match goal with |- context [rs_save (tp_refresh_token ?p) _] =>
    pose proof (rr_save_spec (tp_refresh_token p) u (drawn_once (deleted_token tid w)) eq_refl) as Hsave end.
  by stm_by Hsave.
Qed.

Lemma in_db_session_pure {A} (m : stm World A) r w : (∀ w', w_rows w' = w_committed w' → m w' = (r, w')) → in_db_session m w = (r, with_committed (w_committed w) (w_committed w) w).
Proof. intros Hm. unfold in_db_session. by rewrite Hm. Qed.

(** C15: Refreshing rotates: a live token of a known user is exchanged for a pair
    issued to that user in the user's own tenant; the cookie carries the new
    token, which lives seven days, the old one is gone, no other token changes,
    and replaying the old one is refused without changing anything.  A cookie
    that names no live token, or is no id at all, is refused with the same error. *)
Theorem refresh_rotates request cookie tid w :
  rq_refresh_cookie request = Some cookie → cookie ≠ EmptyString → uuid_ok tid → clock_ok w → w_rows w = w_committed w →
  ((∃ msg, py_uuid cookie = Raise (ValueError msg)) → refresh environ secret_key request w = (Raise TokenAlreadyUsed, w)) ∧
  (py_uuid cookie = Ret tid → rd_get (refresh_key tid) (w_tokens w) = None → refresh environ secret_key request w = (Raise TokenAlreadyUsed, w)) ∧
  (∀ u row hash, py_uuid cookie = Ret tid → uuid_ok u → uuid_ok (next_id w) → next_id w ≠ tid → live_token tid u w →
    w_committed w !! u = Some row → PasswordHash_init (ur_hashed_password row) = Ret hash →
    ∃ tokens w', jwt_issue_pair secret_key u (ur_tenant_id row) (deleted_token tid w) = (Ret tokens, drawn_once (deleted_token tid w)) ∧
      refresh environ secret_key request w = (Ret (at_value (tp_access_token tokens), SetCookie (uuid_str (next_id w)) (_cookie_secure environ)), w') ∧
      rd_lookup (refresh_key (next_id w)) (w_tokens w') = Some (uuid_str u, Some (rd_now (w_tokens w) + 1000 * 604800)) ∧
      rd_lookup (refresh_key tid) (w_tokens w') = None ∧
      (∀ other, uuid_ok other → other ≠ tid → other ≠ next_id w → rd_lookup (refresh_key other) (w_tokens w') = rd_lookup (refresh_key other) (w_tokens w)) ∧
      refresh environ secret_key request w' = (Raise TokenAlreadyUsed, w')).
Proof.
  intros Hcookie Hne Htid Hclock Hrows.
  assert (∀ v, w_rows v = w_committed v → with_committed (w_committed v) (w_committed v) v = v) as Hself by (intros [] ?; cbn in *; by subst).
  assert (∀ v, py_uuid cookie = Ret tid → rd_get (refresh_key tid) (w_tokens v) = None → w_rows v = w_committed v →
    refresh environ secret_key request v = (Raise TokenAlreadyUsed, v)) as Hgone.
  { intros v Hp Hv Hr. unfold refresh, _parse_refresh_cookie. rewrite Hcookie, Hp. destruct cookie as [|c cookie]; [done|]. rewrite stm_lift_bind.
    unfold in_db_session. rewrite (Hself v Hr). unfold refreshing. stm_by (rr_get_gone tid v Hv).
    unfold raise. by rewrite (Hself v Hr). }
  split_and!; [|by intros Hp Hl; apply Hgone|].
  - intros [msg Hp]. unfold refresh, _parse_refresh_cookie. rewrite Hcookie, Hp. by destruct cookie.
  - intros u row hash Hp Hu Hnew Hne' Hlive Hrow Hhash.
    destruct (RefreshAccessToken_spec u tid (ur_tenant_id row) w Hclock Hu Hlive) as (tokens & Hissue & Hrun & Hid).
    assert (rd_lookup (refresh_key tid) (w_tokens (rotated tid u w)) = None) as Hdead.
    { unfold rotated. rewrite saved_token_other by done. apply rd_lookup_delete. }
    exists tokens, (rotated tid u w). split; [done|]. split_and!.
    + unfold refresh, _parse_refresh_cookie. rewrite Hcookie, Hp. destruct cookie as [|c cookie]; [done|]. rewrite stm_lift_bind.
      unfold in_db_session. rewrite (Hself w Hrows). unfold refreshing.
      stm_by (rr_get_live tid u w Hlive Hu).
      assert (pu_find_by_id u w = (Ret (Some (mkUser u (ur_email row) hash (ur_tenant_id row) (ur_created_at row) (ur_updated_at row))), w)) as Hfind.
      { unfold pu_find_by_id. rewrite Hrows, Hrow. cbn. unfold _row_to_user. by rewrite Hhash. }
      stm_by Hfind.
      cbn [us_tenant_id]. stm_by Hrun. unfold mret, stm_ret. rewrite Hid, Hself; [done|]. exact Hrows.
    + exact (saved_token_lookup (next_id w) u (drawn_once (deleted_token tid w))).
    + done.
    + intros other Ho Hot Hon. unfold rotated. rewrite saved_token_other by done. by apply (deleted_token_other tid).
    + apply Hgone; [done|unfold rd_get; by rewrite Hdead|exact Hrows].
Qed.
End refreshing.

(** ** The life of an access token *)

Section access_tokens.
Context `{UnicodeDigits, JWT} (secret_key : string).
#[local] Instance access_issuer : TokenIssuer World := jwt_token_issuer secret_key.

(** What PyJWT promises of the claims issued here: a token decodes to what it encodes. *)
Definition jwt_faithful : Prop := ∀ u v exp iat, 0 ≤ exp < 2 ^ 62 → 0 ≤ iat < 2 ^ 62 →
  jwt_decode (jwt_encode (access_claims u v exp iat) secret_key) secret_key = Some (access_claims u v exp iat) ∧
  jwt_decode (jwt_encode (refresh_claims u v exp iat) secret_key) secret_key = Some (refresh_claims u v exp iat).

Lemma timestamp_gt t z : EPOCH < t < datetime_end →
  ∃ x, timestamp t = Ret x ∧ (t - EPOCH ≤ z * 1000000 → float_gt_int x z = false) ∧ ((z + 1) * 1000000 ≤ t - EPOCH → float_gt_int x z = true).
Proof. intros Ht. apply int_true_div_gt; [times; lia|lia]. Qed.

Lemma verify_access u v exp iat w : jwt_faithful → 0 ≤ exp < 2 ^ 62 → 0 ≤ iat < 2 ^ 62 → EPOCH < w_clock w < datetime_end →
  let token := jwt_encode (access_claims u v exp iat) secret_key in
  (w_clock w - EPOCH ≤ exp * 1000000 → jwt_verify_access_token secret_key token w = (Ret (access_claims u v exp iat), w)) ∧
  ((exp + 1) * 1000000 ≤ w_clock w - EPOCH → jwt_verify_access_token secret_key token w = (Raise TokenExpired, w)).
Proof.
  intros Hlaw Hexp Hiat Hclock token. unfold token. clear token. destruct (timestamp_gt (w_clock w) exp Hclock) as (x & Hx & Hin & Hout).
  unfold jwt_verify_access_token. rewrite Hx. cbn [mbind res_bind]. rewrite (proj1 (Hlaw u v exp iat Hexp Hiat)).
  unfold check_expiry. change (od_get "exp" (access_claims u v exp iat)) with (Some (JInt exp)). cbn [float_gt_json].
  split; intros Ht; [rewrite (Hin Ht)|rewrite (Hout Ht)]; done.
Qed.

Lemma verify_refresh_token u v exp iat w : jwt_faithful → 0 ≤ exp < 2 ^ 62 → 0 ≤ iat < 2 ^ 62 → EPOCH < w_clock w < datetime_end →
  jwt_verify_access_token secret_key (jwt_encode (refresh_claims u v exp iat) secret_key) w = (Raise TokenExpired, w).
Proof.
  intros Hlaw Hexp Hiat Hclock. destruct (timestamp_gt (w_clock w) exp Hclock) as (x & Hx & _).
  unfold jwt_verify_access_token. rewrite Hx. cbn [mbind res_bind]. rewrite (proj2 (Hlaw u v exp iat Hexp Hiat)).
  unfold check_expiry. change (od_get "exp" (refresh_claims u v exp iat)) with (Some (JInt exp)). cbn [float_gt_json]. by destruct (float_gt_int x exp).
Qed.

Lemma caller_of_claims u t exp iat : uuid_ok u → uuid_ok t → caller_from_claims (access_claims u t exp iat) = Ret (mkCaller t u).
Proof.
  intros Hu Ht. assert (claim_uuid "tenant_id" (access_claims u t exp iat) = Ret t) as H1 by exact (py_uuid_str t Ht).
  assert (claim_uuid "sub" (access_claims u t exp iat) = Ret u) as H2 by exact (py_uuid_str u Hu).
  unfold caller_from_claims. by rewrite H1, H2.
Qed.

Definition bearer (token : string) : option string := Some ("Bearer " +:+ token)%string.

Lemma get_caller_bearer token w : get_caller (bearer token) w = (jwt_verify_access_token secret_key token ≫= λ claims, lift_res (caller_from_claims claims)) w.
Proof.
  unfold get_caller, get_current_user_claims, bearer. assert (strip_prefix "Bearer " ("Bearer " +:+ token)%string = Some token) as -> by reflexivity. done.
Qed.

(** An access token names its user and tenant, and nobody else, for its
    fifteen minutes: to the second, a request that carries it is its user's until
    the expiry the pair states and is refused from two seconds after; the refresh
    token of the pair is never accepted in its place. *)
Theorem access_tokens_live_15_minutes u t w tokens w1 later :
  jwt_faithful → clock_ok w → uuid_ok u → uuid_ok t →
  issue_pair u t w = (Ret tokens, w1) → EPOCH < w_clock later < datetime_end →
  let expiry := w_clock w + 15 * 60 * us_second in
  at_expires_at (tp_access_token tokens) = expiry ∧
  (w_clock later ≤ expiry - us_second → get_caller (bearer (at_value (tp_access_token tokens))) later = (Ret (mkCaller t u), later)) ∧
  (expiry + 2 * us_second ≤ w_clock later → get_caller (bearer (at_value (tp_access_token tokens))) later = (Raise TokenExpired, later)) ∧
  get_caller (bearer (rt_value (tp_refresh_token tokens))) later = (Raise TokenExpired, later).
Proof.
  intros Hlaw Hclock Hu Ht Hissue Hlater expiry.
  destruct (issue_pair_spec secret_key u t w Hclock) as (exp & iat & rexp & Hspec & Hexp & Hiat & Hrexp).
  cbn [issue_pair access_issuer jwt_token_issuer] in Hissue. rewrite Hspec in Hissue. injection Hissue as <- <-. cbn [tp_access_token tp_refresh_token at_value at_expires_at rt_value].
  destruct Hclock as [Hlo Hhi]. apply second_of_range in Hexp as [Hexp Heb], Hiat as [Hiat _], Hrexp as [Hrexp _]; [|times; lia..].
  destruct (verify_access u t exp iat later Hlaw Hexp Hiat Hlater) as [Hin Hout]. cbv zeta in Hin, Hout.
  rewrite !get_caller_bearer. split_and!.
  - done.
  - intros Hle. stm_by (Hin ltac:(unfold expiry in *; times; lia)). unfold lift_res. by rewrite caller_of_claims.
  - intros Hle. apply stm_bind_raise, Hout. unfold expiry in *. times. lia.
  - apply stm_bind_raise. by apply verify_refresh_token.
Qed.
End access_tokens.

(** ** Two refreshes at once *)

(** Where a running [RefreshAccessToken.execute] stands: before its next store
    call, which is where another request may run. *)
Inductive RefreshAt : Type :=
  | BeforeGet
  | BeforeDelete (user_id : uuid)
  | BeforeSave (user_id : uuid) (new_pair : TokenPair)
  | Finished (r : res TokenPair).

Section refresh_race.
Context `{UnicodeDigits, JWT} (secret_key : string).
#[local] Instance race_issuer : TokenIssuer World := jwt_token_issuer secret_key.

Definition refresh_step (tid tenant : uuid) (at_ : RefreshAt) (w : World) : RefreshAt * World :=
  match at_ with
  | BeforeGet =>
      match rs_get_user_id tid w with
      | (Raise e, w') => (Finished (Raise e), w')
      | (Ret None, w') => (Finished (Raise TokenAlreadyUsed), w')
      | (Ret (Some user_id), w') => (BeforeDelete user_id, w')
      end
  | BeforeDelete user_id =>
      match (rs_delete tid;; issue_pair user_id tenant) w with
      | (Raise e, w') => (Finished (Raise e), w')
      | (Ret new_pair, w') => (BeforeSave user_id new_pair, w')
      end
  | BeforeSave user_id new_pair =>
      match rs_save (tp_refresh_token new_pair) user_id w with
      | (Raise e, w') => (Finished (Raise e), w')
      | (Ret _, w') => (Finished (Ret new_pair), w')
      end
  | Finished r => (Finished r, w)
  end.

(** Undisturbed, the steps are the use case. *)
Lemma refresh_steps tid tenant w : RefreshAccessToken_execute tid tenant w =
  match refresh_step tid tenant BeforeGet w with
  | (a1, w1) => match refresh_step tid tenant a1 w1 with
    | (a2, w2) => match refresh_step tid tenant a2 w2 with
      | (Finished r, w3) => (r, w3)
      | (_, w3) => (Raise TokenAlreadyUsed, w3)
      end
    end
  end.
Proof.
  unfold RefreshAccessToken_execute, refresh_step, mbind, stm_bind. destruct (rs_get_user_id tid w) as [[[u|]|e] w1]; [|done|done].
  destruct (rs_delete tid w1) as [[[]|e] w2]; [|done]. destruct (issue_pair u tenant w2) as [[p|e] w3]; [|done].
  by destruct (rs_save (tp_refresh_token p) u w3) as [[[]|e] w4].
Qed.

(** Two requests with the same token: either may take the next step. *)
Inductive refreshes (tid tenant : uuid) : RefreshAt * RefreshAt * World → RefreshAt * RefreshAt * World → Prop :=
  | first_steps a b w a' w' : refresh_step tid tenant a w = (a', w') → refreshes tid tenant (a, b, w) (a', b, w')
  | second_steps a b w b' w' : refresh_step tid tenant b w = (b', w') → refreshes tid tenant (a, b, w) (a, b', w').

(** A refresh token is not spent atomically: two requests that present the
    same live token can both read it before either deletes it, and both are
    answered with a pair of their own, two different refresh tokens for the same
    user, both live. *)
Theorem refresh_token_can_be_spent_twice tid tenant u w :
  clock_ok w → uuid_ok u → live_token tid u w →
  uuid_ok (next_id w) → uuid_ok (next_id (drawn_once w)) → next_id w ≠ next_id (drawn_once w) →
  ∃ p1 p2 w', rtc (refreshes tid tenant) (BeforeGet, BeforeGet, w) (Finished (Ret p1), Finished (Ret p2), w') ∧
    rt_token_id (tp_refresh_token p1) ≠ rt_token_id (tp_refresh_token p2) ∧
    live_token (rt_token_id (tp_refresh_token p1)) u w' ∧ live_token (rt_token_id (tp_refresh_token p2)) u w'.
Proof.
  intros Hclock Hu Hlive H1 H2 Hne.
  assert (∀ w, clock_ok w → ∃ p, refresh_step tid tenant (BeforeDelete u) w = (BeforeSave u p, drawn_once (deleted_token tid w)) ∧
    rt_token_id (tp_refresh_token p) = next_id w ∧ rt_expires_at (tp_refresh_token p) = w_clock w + _REFRESH_TOKEN_LIFETIME) as Hdelete.
  { intros v Hv. destruct (issue_pair_spec secret_key u tenant (deleted_token tid v) Hv) as (exp & iat & rexp & Hissue & _).
    match type of Hissue with _ = (Ret ?p, _) => exists p end. split; [|split; reflexivity]. cbn [refresh_step]. erewrite stm_bind_eq by exact (eq_refl (Ret tt, deleted_token tid v)).
    cbn [issue_pair race_issuer jwt_token_issuer]. by rewrite Hissue. }
  assert (∀ v p, rt_expires_at (tp_refresh_token p) = w_clock v + _REFRESH_TOKEN_LIFETIME →
    refresh_step tid tenant (BeforeSave u p) v = (Finished (Ret p), saved_token (rt_token_id (tp_refresh_token p)) u v)) as Hsave.
  { intros v p Hp. cbn [refresh_step rs_save redis_refresh_token_store]. by rewrite rr_save_spec. }
  assert (refresh_step tid tenant BeforeGet w = (BeforeDelete u, w)) as Hget.
  { cbn [refresh_step rs_get_user_id redis_refresh_token_store]. by rewrite (rr_get_live tid u w). }
  destruct (Hdelete w Hclock) as (p1 & Hd1 & Hid1 & Hex1). set (w1 := drawn_once (deleted_token tid w)) in *.
  destruct (Hdelete w1 Hclock) as (p2 & Hd2 & Hid2 & Hex2). set (w2 := drawn_once (deleted_token tid w1)) in *.
  change (next_id w1) with (next_id (drawn_once w)) in Hid2.
  exists p1, p2, (saved_token (next_id (drawn_once w)) u (saved_token (next_id w) u w2)). split_and!.
  - eapply rtc_l; [by apply first_steps, Hget|]. eapply rtc_l; [by apply second_steps, Hget|].
    eapply rtc_l; [by apply first_steps, Hd1|]. eapply rtc_l; [by apply second_steps, Hd2|].
    eapply rtc_l; [apply first_steps, (Hsave w2 p1 Hex1)|]. eapply rtc_l; [apply second_steps, (Hsave (saved_token (rt_token_id (tp_refresh_token p1)) u w2) p2 Hex2)|].
    rewrite Hid1, Hid2. apply rtc_refl.
  - by rewrite Hid1, Hid2.
  - unfold live_token, rd_get. rewrite Hid1, saved_token_other by done. by rewrite saved_token_lookup.
  - unfold live_token, rd_get. by rewrite Hid2, saved_token_lookup.
Qed.
End refresh_race.

(** ** Registering and logging in *)

Section registration.
Context `{UnicodeDigits, Argon2, JWT} (secret_key : string).
#[local] Instance registration_issuer : TokenIssuer World := jwt_token_issuer secret_key.

(** What argon2-cffi promises: it makes Argon2id hashes, and a hash verifies the
    password it was made from and mismatches every other. *)
Definition argon2_faithful : Prop := ∀ salt password other,
  startswith "$argon2id$" (argon2_hash salt password) = true ∧
  argon2_verify (argon2_hash salt password) other = if decide (password = other) then Verified else Mismatch.

(** The request is over, its session closed. *)
Definition closed (w : World) : World := with_committed (w_committed w) (w_committed w) w.

Definition no_user (email : string) (rows : gmap uuid UserRow) : Prop := ¬ Exists (λ kr, ur_email kr.2 = email) (map_to_list rows).

Lemma no_user_filter email rows : no_user email rows → filter (λ kr, ur_email kr.2 = email) (map_to_list rows) = [].
Proof.
  intros Hn. apply list_filter_none. apply list.Forall_forall. intros kr Hkr He. apply Hn, Exists_exists. by exists kr.
Qed.

Lemma find_none email w : no_user email (w_rows w) → pu_find_by_email email w = (Ret None, w).
Proof. intros Hn. unfold pu_find_by_email. by rewrite no_user_filter. Qed.

Lemma find_inserted user rows : rows !! us_id user = None → no_user (us_email user) rows →
  filter (λ kr, ur_email kr.2 = us_email user) (map_to_list (<[us_id user := user_row user]> rows)) = [(us_id user, user_row user)].
Proof.
  intros Hid Hn. apply Permutation_singleton_r. rewrite map_to_list_insert by done. rewrite filter_cons_True by done.
  by rewrite no_user_filter.
Qed.

Lemma row_to_user user : PasswordHash_init (ph_value (us_hashed_password user)) = Ret (us_hashed_password user) → _row_to_user (us_id user) (user_row user) = Ret user.
Proof. intros Hh. unfold _row_to_user. cbn. rewrite Hh. by destruct user. Qed.

Lemma PasswordHash_init_value value h : PasswordHash_init value = Ret h → ph_value h = value ∧ PasswordHash_init (ph_value h) = Ret h.
Proof. unfold PasswordHash_init. destruct (startswith "$argon2id$" value) eqn:Hs; [|done]. intros [= <-]. cbn. by rewrite Hs. Qed.

(** What a registration that returned did. *)
Lemma register_inv email password w id em w1 : in_db_session (committing_register email password) w = (Ret (id, em), w1) →
  ∃ user salt, us_id user = id ∧ us_email user = email ∧ em = email ∧ ph_value (us_hashed_password user) = argon2_hash salt password ∧
    PasswordHash_init (ph_value (us_hashed_password user)) = Ret (us_hashed_password user) ∧
    w_committed w !! id = None ∧ no_user email (w_committed w) ∧ w_committed w1 = <[id := user_row user]> (w_committed w) ∧ w_rows w1 = w_committed w1.
Proof.
  unfold in_db_session. fold (closed w). destruct (committing_register email password (closed w)) as [r w'] eqn:Hrun. intros [= -> <-].
  unfold committing_register in Hrun. apply stm_bind_inv in Hrun as (user & w2 & Hreg & Hrest).
  unfold RegisterUser_execute in Hreg. rewrite now_bind, uuid4_bind in Hreg.
  apply stm_bind_inv in Hreg as (hashed & w3 & Hhash & Hreg). cbn [hasher_hash argon2_password_hasher] in Hhash.
  unfold argon2_hasher_hash, mbind, stm_bind, draw, lift_res in Hhash. cbn in Hhash. injection Hhash as Hhash <-.
  rewrite uuid4_bind in Hreg. apply stm_bind_inv in Hreg as ([] & w4 & Hsave & Hret). injection Hret as <- <-.
  cbn [ur_save postgres_user_repository] in Hsave. unfold pu_save in Hsave. destruct (decide _) as [|Hfree]; [done|]. injection Hsave as <-.
  cbn in Hrest. injection Hrest as <- <- <-. apply PasswordHash_init_value in Hhash as [Hv Hok].
  eexists (mkUser _ email hashed _ _ _), _. cbn. split_and!; [done|done|done|exact Hv|exact Hok| | |done|done].
  - apply eq_None_not_Some. intros Hs. apply Hfree. by left.
  - intros He. apply Hfree. by right.
Qed.

End registration.

(** ** Worked examples *)

#[local] Instance plain_argon2 : Argon2 := {|
  argon2_hash := λ _ password, ("$argon2id$" +:+ password)%string;
  argon2_verify := λ hash password, if String.eqb hash ("$argon2id$" +:+ password)%string then Verified else Mismatch
|}.

(** Tokens of fixed-width fields. *)
Definition plain_encode (claims : list (string * json)) (key : string) : string :=
  match claims with
  | [(_, JStr sub); (second, JStr id); (_, JInt exp); (_, JInt iat); _] =>
      ((if String.eqb second "jti" then "R" else "A") +:+ sub +:+ id +:+ hex_of 16 exp +:+ hex_of 16 iat +:+ key)%string
  | _ => EmptyString
  end.
Definition plain_decode (token key : string) : option (list (string * json)) :=
  match token with
  | String kind rest =>
      let sub := str_take 36 rest in
      let id := str_take 36 (str_drop 36 rest) in
      exp ← parse_hex 0 (str_take 16 (str_drop 72 rest));
      iat ← parse_hex 0 (str_take 16 (str_drop 88 rest));
      if negb (String.eqb (str_drop 104 rest) key) then None
      else if Ascii.eqb kind "R" then Some [("sub", JStr sub); ("jti", JStr id); ("exp", JInt exp); ("iat", JInt iat); ("type", JStr "refresh")]%string
      else Some [("sub", JStr sub); ("tenant_id", JStr id); ("exp", JInt exp); ("iat", JInt iat); ("type", JStr "access")]%string
  | EmptyString => None
  end.
#[local] Instance plain_jwt : JWT := {| jwt_encode := plain_encode; jwt_decode := plain_decode |}.

Lemma str_take_app n s1 s2 : String.length s1 = n → str_take n (s1 +:+ s2)%string = s1.
Proof.
  intros <-. induction s1 as [|c s1 IH]; [by destruct s2|]. change (String c (str_take (String.length s1) (s1 +:+ s2)) = String c s1)%string. by rewrite IH.
Qed.
Lemma str_drop_app n s1 s2 : String.length s1 = n → str_drop n (s1 +:+ s2)%string = s2.
Proof. intros <-. induction s1 as [|c s1 IH]; [by destruct s2|]. exact IH. Qed.
Lemma str_drop_add n m s : str_drop (n + m) s = str_drop m (str_drop n s).
Proof. revert s. induction n as [|n IH]; intros s; [by destruct s|]. destruct s as [|c s]; [by destruct m|]. exact (IH s). Qed.

#[local] Transparent uuid_str.
Lemma uuid_str_length u : String.length (uuid_str u) = 36%nat.
Proof. unfold uuid_str. rewrite !string_length_app, !hex_of_length. done. Qed.
#[local] Opaque uuid_str.

Lemma plain_jwt_faithful key : jwt_faithful key.
Proof.
  intros u v exp iat Hexp Hiat. pose proof (uuid_str_length u) as Hu. pose proof (uuid_str_length v) as Hv.
  assert (∀ kind, let t := String kind (uuid_str u +:+ uuid_str v +:+ hex_of 16 exp +:+ hex_of 16 iat +:+ key)%string in
    plain_decode t key = if Ascii.eqb kind "R" then Some (refresh_claims u v exp iat) else Some (access_claims u v exp iat)) as Hd.
  { intros kind t. unfold t, plain_decode. set (rest := (uuid_str u +:+ _)%string).
    assert (str_drop 36 rest = (uuid_str v +:+ hex_of 16 exp +:+ hex_of 16 iat +:+ key)%string) as H36 by by apply str_drop_app.
    assert (str_drop 72 rest = (hex_of 16 exp +:+ hex_of 16 iat +:+ key)%string) as H72.
    { change 72%nat with (36 + 36)%nat. rewrite str_drop_add, H36. by apply str_drop_app. }
    assert (str_drop 88 rest = (hex_of 16 iat +:+ key)%string) as H88.
    { change 88%nat with (72 + 16)%nat. rewrite str_drop_add, H72. apply str_drop_app, hex_of_length. }
    assert (str_drop 104 rest = key) as H104.
    { change 104%nat with (88 + 16)%nat. rewrite str_drop_add, H88. apply str_drop_app, hex_of_length. }
    rewrite H36, H72, H88, H104. unfold rest. rewrite !str_take_app by (done || apply hex_of_length).
    rewrite !parse_hex_of, !Z.mod_small by (split; [lia|change (16 ^ Z.of_nat 16) with (2 ^ 64); lia]).
    cbn [mbind option_bind negb]. by rewrite String.eqb_refl. }
  split; [exact (Hd "A"%char)|exact (Hd "R"%char)].
Qed.

Lemma plain_argon2_faithful : argon2_faithful.
Proof.
  intros salt password other. split; [reflexivity|]. cbn [argon2_verify argon2_hash plain_argon2].
  destruct (decide (password = other)) as [->|Hne]; [by rewrite String.eqb_refl|].
  destruct (String.eqb_spec ("$argon2id$" +:+ password)%string ("$argon2id$" +:+ other)%string) as [He|]; [|done].
  by apply (inj (String.append "$argon2id$")) in He.
Qed.

#[local] Existing Instance no_more_digits.

(** Nobody registered yet, in 2024; random values 1000, 1001, ... *)
Definition first_day : World := mkWorld ∅ ∅ (mkRedis ∅ 0) (days 738900) (λ n, 1000 + Z.of_nat n) 0.
Definition registered : World := (in_db_session (committing_register "a@b.c" "secret") first_day).2.
Definition logged_in : World := (logging_in (λ _, None) "key" "a@b.c" "secret" registered).2.


Definition with_cookie (cookie : string) : AuthRequest := mkAuthRequest [] None (Some cookie).

Lemma refresh_rotates_witness :
  refresh (λ _, None) "key" (with_cookie "not an id") logged_in = (Raise TokenAlreadyUsed, logged_in) ∧
  ∃ access w, refresh (λ _, None) "key" (with_cookie (uuid_str 1003)) logged_in = (Ret (access, SetCookie (uuid_str 1004) true), w) ∧
    refresh (λ _, None) "key" (with_cookie (uuid_str 1003)) w = (Raise TokenAlreadyUsed, w).
Proof.
  assert (clock_ok logged_in) as Hclock by (split; vm_compute; reflexivity).
  assert (∀ n, 0 ≤ n < 2000 → uuid_ok n) as Hok by (intros n Hn; unfold uuid_ok, uuid_end; lia).
  split.
  - refine (proj1 (refresh_rotates (λ _, None) "key" (with_cookie "not an id") "not an id" 1003 logged_in eq_refl _ (Hok 1003 _) Hclock eq_refl) _); [discriminate|lia|].
    eexists. vm_compute. reflexivity.
  - destruct (proj2 (proj2 (refresh_rotates (λ _, None) "key" (with_cookie (uuid_str 1003)) (uuid_str 1003) 1003 logged_in eq_refl ltac:(vm_compute; discriminate) (Hok 1003 ltac:(lia)) Hclock eq_refl))
      1000 (mkUserRow "a@b.c" "$argon2id$secret" 1002 (days 738900) (days 738900)) (mkPasswordHash "$argon2id$secret")) as (tokens & w & _ & Hrun & _ & _ & _ & Hreplay).
    + apply py_uuid_str, Hok. lia.
    + apply Hok. lia.
    + apply Hok. vm_compute. split; [discriminate|reflexivity].
    + vm_compute. discriminate.
    + vm_compute. reflexivity.
    + vm_compute. reflexivity.
    + reflexivity.
    + exists (at_value (tp_access_token tokens)), w. split; [exact Hrun|exact Hreplay].
Defined.

Lemma refresh_token_can_be_spent_twice_witness :
  ∃ p1 p2 w, rtc (refreshes "key" 1003 1002) (BeforeGet, BeforeGet, logged_in) (Finished (Ret p1), Finished (Ret p2), w) ∧
    rt_token_id (tp_refresh_token p1) ≠ rt_token_id (tp_refresh_token p2).
Proof.
  assert (∀ n, 0 ≤ n < 2000 → uuid_ok n) as Hok by (intros n Hn; unfold uuid_ok, uuid_end; lia).
  assert (clock_ok logged_in) as Hclock by (split; vm_compute; reflexivity).
  assert (live_token 1003 1000 logged_in) as Hlive by (vm_compute; reflexivity).
  assert (uuid_ok (next_id logged_in)) as Hn1 by (apply Hok; vm_compute; split; [discriminate|reflexivity]).
  assert (uuid_ok (next_id (drawn_once logged_in))) as Hn2 by (apply Hok; vm_compute; split; [discriminate|reflexivity]).
  assert (next_id logged_in ≠ next_id (drawn_once logged_in)) as Hne by (vm_compute; discriminate).
  destruct (refresh_token_can_be_spent_twice "key" 1003 1002 1000 logged_in Hclock (Hok 1000 ltac:(lia)) Hlive Hn1 Hn2 Hne) as (p1 & p2 & w & Hrun & Hdiff & _).
  exists p1, p2, w. split; [exact Hrun|exact Hdiff].
Defined.

(** Fourteen minutes in the token is the user's; the refresh token never is. *)
Definition minutes_later (n : Z) : World := mkWorld ∅ ∅ (mkRedis ∅ 0) (days 738900 + n * 60 * us_second) (λ n, Z.of_nat n) 0.

Lemma access_tokens_live_15_minutes_witness :
  ∃ tokens, (jwt_issue_pair "key" 7 8 first_day).1 = Ret tokens ∧
    get_caller (H0 := jwt_token_issuer "key") (bearer (at_value (tp_access_token tokens))) (minutes_later 14) = (Ret (mkCaller 8 7), minutes_later 14) ∧
    get_caller (H0 := jwt_token_issuer "key") (bearer (rt_value (tp_refresh_token tokens))) (minutes_later 14) = (Raise TokenExpired, minutes_later 14).
Proof.
  assert (clock_ok first_day) as Hclock by (split; vm_compute; reflexivity).
  destruct (issue_pair_spec "key" 7 8 first_day Hclock) as (exp & iat & rexp & Hissue & _).
  destruct (access_tokens_live_15_minutes "key" 7 8 first_day _ _ (minutes_later 14) (plain_jwt_faithful "key") Hclock
    ltac:(unfold uuid_ok, uuid_end; lia) ltac:(unfold uuid_ok, uuid_end; lia) Hissue ltac:(split; vm_compute; reflexivity)) as (_ & Hin & _ & Hrefresh).
  eexists. split; [by rewrite Hissue|]. split; [|exact Hrefresh]. apply Hin. vm_compute. discriminate.
Defined.
