(* ===== verification/MemoryIndexes.v ===== *)
(** * The memory indexes

    mag/infrastructure/qdrant_semantic_memory_index.py and
    qdrant_episodic_memory_index.py over their Qdrant collections.  A point is a
    vector and a JSON payload; a call may be answered, refused, or carried out
    and its reply lost, as in DocumentStore.v.  Which points are nearest and
    what a cosine collection keeps of a vector are Qdrant's, so parameters. *)

From Stdlib Require Import ZArith Lia Ascii String Floats.SpecFloat.
From S2P Require Import Prelude PyFloat PyTime PyStr Digest Json PyInt PyUuid MagDomain JsonText PyIso LlmJson Identity DocumentStore.

(** ** A collection *)

Abbreviation payload := (list (string * json)) (only parsing).

Record Collection : Type := mkCollection {
  co_points : gmap uuid (list f64 * payload);
  co_fates : list Delivery;
  co_now : datetime
}.

(** A call that writes; [None] is a write the server itself refuses. *)
Definition co_call (write : gmap uuid (list f64 * payload) → option (gmap uuid (list f64 * payload))) : stm Collection unit := λ c,
  match co_fates c with
  | Refused :: rest => (Raise unreachable, mkCollection (co_points c) rest (co_now c))
  | fates =>
      match write (co_points c) with
      | None => (Raise (BackendError "UnexpectedResponse 404"), mkCollection (co_points c) (tail fates) (co_now c))
      | Some points =>
          (match fates with ReplyLost :: _ => Raise unreachable | _ => Ret tt end, mkCollection points (tail fates) (co_now c))
      end
  end.

(** [set_payload]: only the keys given, of a point that must be there. *)
Definition merge_payload (id : uuid) (fields : payload) (points : gmap uuid (list f64 * payload)) : option (gmap uuid (list f64 * payload)) :=
  p ← points !! id;
  Some (<[id := (p.1, foldl (λ o kv, od_set kv.1 kv.2 o) p.2 fields)]> points).

(** *** Filter conditions *)

Definition match_value (key value : string) (o : payload) : bool :=
  match od_get key o with
  | Some (JStr s) => String.eqb s value
  | Some (JList l) => existsb (λ v, match v with JStr s => String.eqb s value | _ => false end) l
  | _ => false
  end.

(** IsEmptyCondition: missing, null, or an empty array. *)
Definition is_empty (key : string) (o : payload) : bool :=
  match od_get key o with None | Some JNull | Some (JList []) => true | _ => false end.

Definition number_above (x : f64) (v : json) : bool :=
  match v with
  | JFloat y => flt x y
  | JInt z => match int_to_float z with Ret y => flt x y | Raise _ => 0 <? z end
  | _ => false
  end.

(** Range(gt=x). *)
Definition range_gt (key : string) (x : f64) (o : payload) : bool :=
  match od_get key o with
  | Some (JList l) => existsb (number_above x) l
  | Some v => number_above x v
  | None => false
  end.

(** [str(v)] of anything but a str, and what an entry of another program's
    making leaves where the entity has a dict. *)
Class PyRepr : Type := py_repr : json → string.
Class UntypedContent : Type := untyped_content : json → res (list (string * json)).
Definition py_str `{PyRepr} (v : json) : string := match v with JStr s => s | _ => py_repr v end.

(** The truth of a JSON value. *)
Definition truthy (v : json) : bool :=
  match v with
  | JNull => false
  | JBool b => b
  | JInt z => negb (z =? 0)
  | JFloat x => negb (feq x fzero)
  | JStr s => negb (String.eqb s EmptyString)
  | JList l => match l with [] => false | _ => true end
  | JObj o => match o with [] => false | _ => true end
  end.

Section indexes.
Context `{UnicodeDigits, OtherIso, PyRepr, UntypedContent}
  (nearest : list f64 → Z → gmap uuid (list f64 * payload) → list (uuid * f64)) (kept_vector : list f64 → list f64).

(** A search among the points a filter lets through, each read by [read]. *)
Definition read_hits {A} (read : uuid → list f64 → payload → f64 → res A) (points : gmap uuid (list f64 * payload)) (hits : list (uuid * f64)) : res (list A) :=
  res_mapM (λ h : uuid * f64 * (list f64 * payload), read h.1.1 h.2.1 h.2.2 h.1.2)
    (omap (λ hit, p ← points !! hit.1; Some (hit, p)) hits).

Definition query_points {A} (query_embedding : list f64) (top_k : Z) (wanted : payload → bool)
    (read : uuid → list f64 → payload → f64 → res A) : stm Collection (list A) := λ c,
  let mine := filter (λ kp, wanted kp.2.2 = true) (co_points c) in
  let c' := mkCollection (co_points c) (tail (co_fates c)) (co_now c) in
  match co_fates c with
  | (Refused | ReplyLost) :: _ => (Raise unreachable, c')
  | _ => (read_hits read mine (nearest query_embedding top_k mine), c')
  end.

(** ** QdrantSemanticMemoryIndex *)

Definition _epoch (value : option datetime) : res json :=
  match value with Some t => JFloat <$> timestamp t | None => Ret JNull end.

Definition iso_or_null (value : option datetime) : json := match value with Some t => JStr (isoformat t) | None => JNull end.

Definition fact_payload (fact : SemanticMemory) (tenant_id : uuid) : res payload :=
  valid_until_epoch ← _epoch (sm_valid_until fact);
  archived_at_epoch ← _epoch (sm_archived_at fact);
  Ret [("tenant_id", JStr (uuid_str tenant_id)); ("user_id", JStr (uuid_str (sm_user_id fact)));
       ("fact_key", JStr (sm_fact_key fact)); ("fact_value", JStr (sm_fact_value fact));
       ("confidence", JFloat (sm_confidence fact)); ("source", JStr (sm_source fact));
       ("valid_until", iso_or_null (sm_valid_until fact)); ("valid_until_epoch", valid_until_epoch);
       ("archived_at", iso_or_null (sm_archived_at fact)); ("archived_at_epoch", archived_at_epoch)]%string.

Definition sx_upsert (fact : SemanticMemory) (tenant_id : uuid) : stm Collection unit :=
  o ← lift_res (fact_payload fact tenant_id);
  co_call (λ points, Some (<[sm_id fact := (kept_vector (sm_embedding fact), o)]> points)).

Definition sx_set_valid_until (fact_id tenant_id : uuid) (valid_until : option datetime) : stm Collection unit :=
  epoch ← lift_res (_epoch valid_until);
  co_call (merge_payload fact_id [("valid_until", iso_or_null valid_until); ("valid_until_epoch", epoch)]%string).

Definition sx_set_archived_at (fact_id tenant_id : uuid) (archived_at : option datetime) : stm Collection unit :=
  epoch ← lift_res (_epoch archived_at);
  co_call (merge_payload fact_id [("archived_at", iso_or_null archived_at); ("archived_at_epoch", epoch)]%string).

Definition current_fact (user_id tenant_id : uuid) (now_epoch : f64) (o : payload) : bool :=
  match_value "user_id" (uuid_str user_id) o && match_value "tenant_id" (uuid_str tenant_id) o &&
  is_empty "archived_at_epoch" o && (is_empty "valid_until_epoch" o || range_gt "valid_until_epoch" now_epoch o).

(** [datetime.fromisoformat(raw) if raw else None]. *)
Definition optional_time (raw : json) : res (option datetime) :=
  if truthy raw then
    match raw with
    | JStr s => t ← fromisoformat s; Ret (Some t)
    | _ => Raise (TypeError "fromisoformat: argument must be str")
    end
  else Ret None.

Definition read_fact (id : uuid) (vector : list f64) (o : payload) (score : f64) : res ScoredFact :=
  user_id ← json_item (JObj o) "user_id" ≫= λ v, py_uuid (py_str v);
  fact_key ← json_item (JObj o) "fact_key";
  fact_value ← json_item (JObj o) "fact_value";
  confidence ← py_float (dict_get "confidence" (JFloat fone) o);
  valid_until ← optional_time (dict_get "valid_until" JNull o);
  archived_at ← optional_time (dict_get "archived_at" JNull o);
  Ret (mkScoredFact
    (mkFact id user_id (py_str fact_key) (py_str fact_value) vector confidence (py_str (dict_get "source" (JStr EmptyString) o)) valid_until archived_at)
    score).

Definition sx_search (query_embedding : list f64) (user_id tenant_id : uuid) (top_k : Z) : stm Collection (list ScoredFact) :=
  c ← get_st;
  now_epoch ← lift_res (timestamp (co_now c));
  query_points query_embedding top_k (current_fact user_id tenant_id now_epoch) read_fact.

Definition qdrant_semantic_index : SemanticMemoryIndex Collection := {|
  si_upsert := sx_upsert;
  si_search := sx_search;
  si_set_valid_until := sx_set_valid_until;
  si_set_archived_at := sx_set_archived_at
|}.

(** ** QdrantEpisodicMemoryIndex *)

Definition episode_payload (episode : EpisodicMemory) (tenant_id : uuid) : payload :=
  [("tenant_id", JStr (uuid_str tenant_id)); ("session_id", JStr (uuid_str (ep_session_id episode)));
   ("content", JObj (ep_content episode)); ("timestamp", JStr (isoformat (ep_timestamp episode)));
   ("salience_score", JFloat (ep_salience_score episode))]%string.

Definition ex_upsert (episode : EpisodicMemory) (tenant_id : uuid) : stm Collection unit :=
  co_call (λ points, Some (<[ep_id episode := (kept_vector (ep_embedding episode), episode_payload episode tenant_id)]> points)).

Definition session_filter (tenant_id session_id : uuid) (o : payload) : bool :=
  match_value "tenant_id" (uuid_str tenant_id) o && match_value "session_id" (uuid_str session_id) o.

Definition read_episode (id : uuid) (vector : list f64) (o : payload) (score : f64) : res ScoredEpisode :=
  session_id ← json_item (JObj o) "session_id" ≫= λ v, py_uuid (py_str v);
  raw ← json_item (JObj o) "content";
  at_ ← json_item (JObj o) "timestamp" ≫= λ v, fromisoformat (py_str v);
  salience ← json_item (JObj o) "salience_score" ≫= py_float;
  content ← match raw with JObj d => Ret d | _ => untyped_content raw end;
  Ret (mkScoredEpisode (mkEpisode id session_id content vector at_ salience None) score).

Definition ex_search (query_embedding : list f64) (tenant_id session_id : uuid) (top_k : Z) : stm Collection (list ScoredEpisode) :=
  query_points query_embedding top_k (session_filter tenant_id session_id) read_episode.

Definition qdrant_episodic_index : EpisodicMemoryIndex Collection := {| ei_upsert := ex_upsert; ei_search := ex_search |}.
End indexes.

(** ** What an index remembers *)

Definition set_valid_until (v : option datetime) (f : SemanticMemory) : SemanticMemory :=
  mkFact (sm_id f) (sm_user_id f) (sm_fact_key f) (sm_fact_value f) (sm_embedding f) (sm_confidence f) (sm_source f) v (sm_archived_at f).
Definition set_archived_at (v : option datetime) (f : SemanticMemory) : SemanticMemory :=
  mkFact (sm_id f) (sm_user_id f) (sm_fact_key f) (sm_fact_value f) (sm_embedding f) (sm_confidence f) (sm_source f) (sm_valid_until f) v.

(** A datetime, whose timestamp is a float. *)
Definition time_ok (v : option datetime) : bool :=
  match v with
  | Some t => (0 <=? t) && (t <? datetime_end) && match timestamp t with Ret _ => true | Raise _ => false end
  | None => true
  end.

Definition storable_fact (ft : SemanticMemory * uuid) : Prop :=
  uuid_ok (sm_user_id ft.1) ∧ uuid_ok ft.2 ∧ time_ok (sm_valid_until ft.1) = true ∧ time_ok (sm_archived_at ft.1) = true.

(** The facts an index has, by id, each with its tenant. *)
Abbreviation facts_map := (gmap uuid (SemanticMemory * uuid)) (only parsing).

(** The facts a search of this user in this tenant may find at this time. *)
Definition findable (user_id tenant_id : uuid) (now_epoch : f64) (ft : SemanticMemory * uuid) : bool :=
  bool_decide (sm_user_id ft.1 = user_id) && bool_decide (ft.2 = tenant_id) && bool_decide (sm_archived_at ft.1 = None) &&
  match sm_valid_until ft.1 with
  | None => true
  | Some t => match timestamp t with Ret e => flt now_epoch e | Raise _ => false end
  end.

Lemma epoch_time v : time_ok v = true → ∃ e, _epoch v = Ret e ∧ (v = None ↔ e = JNull) ∧ ∀ t, v = Some t → ∃ x, e = JFloat x ∧ timestamp t = Ret x.
Proof.
  destruct v as [t|]; [|by exists JNull]. cbn. intros [_ Ht]%andb_true_iff. destruct (timestamp t) as [x|] eqn:Hx; [|done].
  exists (JFloat x). split; [done|]. split; [split; discriminate|]. intros ? [= <-]. by exists x.
Qed.

Lemma isoformat_nonempty t : 0 ≤ t < datetime_end → String.eqb (isoformat t) EmptyString = false.
Proof.
  intros Ht. pose proof (iso_candidate_isoformat t Ht) as Hc. destruct (String.eqb_spec (isoformat t) EmptyString) as [He|]; [|done].
  rewrite He in Hc. cbn in Hc. discriminate Hc.
Qed.

Section laws.
Context `{UnicodeDigits, OtherIso, PyRepr, UntypedContent}
  (nearest : list f64 → Z → gmap uuid (list f64 * payload) → list (uuid * f64)) (kept_vector : list f64 → list f64).

Lemma optional_time_iso v : time_ok v = true → optional_time (iso_or_null v) = Ret v.
Proof.
  destruct v as [t|]; [|done]. cbn [time_ok]. rewrite !andb_true_iff, Z.leb_le, Z.ltb_lt. intros [Ht _]. unfold optional_time, iso_or_null. cbn [truthy].
  rewrite isoformat_nonempty by done. cbn [negb]. by rewrite fromisoformat_isoformat.
Qed.

Definition fact_point (ft : SemanticMemory * uuid) : option (list f64 * payload) :=
  match fact_payload ft.1 ft.2 with Ret o => Some (kept_vector (sm_embedding ft.1), o) | Raise _ => None end.

Definition indexed (facts : facts_map) (c : Collection) : Prop :=
  (∀ id, co_points c !! id = facts !! id ≫= fact_point) ∧ map_Forall (λ id ft, sm_id ft.1 = id ∧ storable_fact ft) facts.

(** The payload of a storable fact, and what each reader makes of it. *)
Lemma fact_payload_spec ft : storable_fact ft → ∃ o, fact_payload ft.1 ft.2 = Ret o ∧
  (∀ id vec score, read_fact id vec o score = Ret (mkScoredFact (mkFact id (sm_user_id ft.1) (sm_fact_key ft.1) (sm_fact_value ft.1) vec
    (sm_confidence ft.1) (sm_source ft.1) (sm_valid_until ft.1) (sm_archived_at ft.1)) score)) ∧
  (∀ u t now, uuid_ok u → uuid_ok t → current_fact u t now o = findable u t now ft) ∧
  (∀ v e, _epoch v = Ret e → fact_payload (set_valid_until v ft.1) ft.2 =
    Ret (foldl (λ o kv, od_set kv.1 kv.2 o) o [("valid_until", iso_or_null v); ("valid_until_epoch", e)]%string)) ∧
  (∀ v e, _epoch v = Ret e → fact_payload (set_archived_at v ft.1) ft.2 =
    Ret (foldl (λ o kv, od_set kv.1 kv.2 o) o [("archived_at", iso_or_null v); ("archived_at_epoch", e)]%string)).
Proof.
  destruct ft as [f tenant]. intros (Hu & Ht & Hv & Ha). cbn [fst snd] in *.
  destruct (epoch_time _ Hv) as (ve & Hve & Hvn & Hvs), (epoch_time _ Ha) as (ae & Hae & Han & Has).
  assert (fact_payload f tenant = Ret [("tenant_id", JStr (uuid_str tenant)); ("user_id", JStr (uuid_str (sm_user_id f)));
       ("fact_key", JStr (sm_fact_key f)); ("fact_value", JStr (sm_fact_value f)); ("confidence", JFloat (sm_confidence f)); ("source", JStr (sm_source f));
       ("valid_until", iso_or_null (sm_valid_until f)); ("valid_until_epoch", ve);
       ("archived_at", iso_or_null (sm_archived_at f)); ("archived_at_epoch", ae)]%string) as Hpay.
  { unfold fact_payload. by rewrite Hve, Hae. }
  eexists. split; [exact Hpay|]. split_and!.
  - intros id vec score. unfold read_fact.
    change (json_item _ "user_id") with (Ret (JStr (uuid_str (sm_user_id f)))). cbn [mbind res_bind py_str]. rewrite py_uuid_str by done. cbn [mbind res_bind].
    change (json_item _ "fact_key") with (Ret (JStr (sm_fact_key f))). change (json_item _ "fact_value") with (Ret (JStr (sm_fact_value f))).
    change (dict_get "valid_until" _ _) with (iso_or_null (sm_valid_until f)). change (dict_get "archived_at" _ _) with (iso_or_null (sm_archived_at f)).
    change (dict_get "confidence" _ _) with (JFloat (sm_confidence f)). change (dict_get "source" _ _) with (JStr (sm_source f)).
    cbn [mbind res_bind py_float]. by rewrite !optional_time_iso by done.
  - intros u t now Hou Hot. unfold current_fact.
    change (match_value "user_id" _ _) with (String.eqb (uuid_str (sm_user_id f)) (uuid_str u)). change (match_value "tenant_id" _ _) with (String.eqb (uuid_str tenant) (uuid_str t)).
    change (is_empty "archived_at_epoch" _) with (match ae with JNull | JList [] => true | _ => false end).
    change (is_empty "valid_until_epoch" _) with (match ve with JNull | JList [] => true | _ => false end).
    change (range_gt "valid_until_epoch" now _) with (match ve with JList l => existsb (number_above now) l | v => number_above now v end).
    unfold findable. cbn [fst snd]. f_equal; [f_equal; [f_equal|]|].
    + apply eq_iff_eq_true. rewrite String.eqb_eq, bool_decide_eq_true. split; [by apply uuid_str_inj|by intros ->].
    + apply eq_iff_eq_true. rewrite String.eqb_eq, bool_decide_eq_true. split; [by apply uuid_str_inj|by intros ->].
    + destruct (sm_archived_at f) as [a|]; [by destruct (Has a eq_refl) as (x & -> & _)|by rewrite (proj1 Han eq_refl)].
    + destruct (sm_valid_until f) as [v|]; [destruct (Hvs v eq_refl) as (x & -> & ->); done|by rewrite (proj1 Hvn eq_refl)].
  - intros v e He. unfold fact_payload in Hpay |- *. cbn [set_valid_until sm_valid_until sm_archived_at]. by rewrite He, Hae.
  - intros v e He. unfold fact_payload in Hpay |- *. cbn [set_archived_at sm_valid_until sm_archived_at]. by rewrite He, Hve.
Qed.

Lemma co_call_cases w c : co_now (co_call w c).2 = co_now c ∧
  (co_points (co_call w c).2 = co_points c ∧ (co_call w c).1 ≠ Ret tt ∨ w (co_points c) = Some (co_points (co_call w c).2)).
Proof.
  unfold co_call. destruct (co_fates c) as [|[] fates]; [..|by auto|]; destruct (w (co_points c)) as [points|]; cbn; auto.
Qed.

Lemma fact_point_payload ft o : fact_payload ft.1 ft.2 = Ret o → fact_point ft = Some (kept_vector (sm_embedding ft.1), o).
Proof. intros Ho. unfold fact_point. by rewrite Ho. Qed.

Lemma indexed_insert facts c c' id ft p : indexed facts c → sm_id ft.1 = id → storable_fact ft → fact_point ft = Some p →
  co_points c' = <[id := p]> (co_points c) → indexed (<[id := ft]> facts) c'.
Proof.
  intros [Hpts Hwf] Hid Hft Hp Hc. split; [|by apply map_Forall_insert_2]. intros id'. rewrite Hc. destruct (decide (id = id')) as [<-|Hne].
  - by rewrite !lookup_insert_eq.
  - by rewrite !lookup_insert_ne.
Qed.

Lemma indexed_same facts c c' : indexed facts c → co_points c' = co_points c → indexed facts c'.
Proof. intros [Hpts Hwf] Hc. split; [|done]. intros id. by rewrite Hc. Qed.

(** A write that leaves the index as it was or as it should be. *)
Lemma indexed_write facts facts' c w : indexed facts c →
  (∀ points, w (co_points c) = Some points → ∀ c', co_points c' = points → indexed facts' c') →
  (indexed facts (co_call w c).2 ∨ indexed facts' (co_call w c).2) ∧ ((co_call w c).1 = Ret tt → indexed facts' (co_call w c).2).
Proof.
  intros Hc Hw. destruct (co_call_cases w c) as [_ [[Hp Hr]|Hp]].
  - split; [left; by apply (indexed_same _ c)|by intros].
  - pose proof (Hw _ Hp _ eq_refl). auto.
Qed.

Lemma upsert_indexed facts c ft : indexed facts c → storable_fact ft →
  let r := sx_upsert kept_vector ft.1 ft.2 c in
  (indexed facts r.2 ∨ indexed (<[sm_id ft.1 := ft]> facts) r.2) ∧ (r.1 = Ret tt → indexed (<[sm_id ft.1 := ft]> facts) r.2).
Proof.
  intros Hc Hft. destruct (fact_payload_spec ft Hft) as (o & Ho & _). cbv zeta. unfold sx_upsert. rewrite Ho, stm_lift_bind.
  apply indexed_write; [done|]. intros points [= <-] c' Hc'. eapply indexed_insert; [exact Hc|done|done|by apply fact_point_payload|done].
Qed.

(** The two status writes. *)
Lemma status_indexed facts c id fields (change : SemanticMemory → SemanticMemory) : indexed facts c →
  (∀ f, sm_id (change f) = sm_id f ∧ sm_embedding (change f) = sm_embedding f) →
  (∀ ft o, storable_fact ft → fact_payload ft.1 ft.2 = Ret o → storable_fact (change ft.1, ft.2) ∧
    fact_payload (change ft.1) ft.2 = Ret (foldl (λ o kv, od_set kv.1 kv.2 o) o fields)) →
  let r := co_call (merge_payload id fields) c in
  match facts !! id with
  | None => r.1 ≠ Ret tt ∧ indexed facts r.2
  | Some ft => (indexed facts r.2 ∨ indexed (<[id := (change ft.1, ft.2)]> facts) r.2) ∧ (r.1 = Ret tt → indexed (<[id := (change ft.1, ft.2)]> facts) r.2)
  end.
Proof.
  intros Hc Hchange Hfields. pose proof Hc as [Hpts Hwf]. cbv zeta. specialize (Hpts id). destruct (facts !! id) as [ft|] eqn:Hid; cbn [mbind option_bind] in Hpts.
  - destruct (Hwf _ _ Hid) as [Hsid Hft]. destruct (fact_payload_spec ft Hft) as (o & Ho & _). rewrite (fact_point_payload _ _ Ho) in Hpts.
    destruct (Hfields ft o Hft Ho) as [Hft' Ho']. destruct (Hchange ft.1) as [Hi He]. apply indexed_write; [done|].
    unfold merge_payload. rewrite Hpts. cbn [mbind option_bind fst snd]. intros points [= <-] c' Hc'.
    eapply indexed_insert; [exact Hc|cbn; congruence|done| |exact Hc'].
    rewrite (fact_point_payload (change ft.1, ft.2) _ Ho'). cbn. by rewrite He.
  - destruct (co_call_cases (merge_payload id fields) c) as [_ [[Hp Hr]|Hp]]; [split; [done|by apply (indexed_same _ c)]|].
    unfold merge_payload in Hp. by rewrite Hpts in Hp.
Qed.

Lemma set_valid_until_indexed facts c id tenant v : indexed facts c → time_ok v = true →
  let r := sx_set_valid_until id tenant v c in
  match facts !! id with
  | None => r.1 ≠ Ret tt ∧ indexed facts r.2
  | Some ft => (indexed facts r.2 ∨ indexed (<[id := (set_valid_until v ft.1, ft.2)]> facts) r.2) ∧
      (r.1 = Ret tt → indexed (<[id := (set_valid_until v ft.1, ft.2)]> facts) r.2)
  end.
Proof.
  intros Hc Hv. destruct (epoch_time v Hv) as (e & He & _). cbv zeta. unfold sx_set_valid_until. rewrite He, stm_lift_bind.
  apply status_indexed; [done|done|]. intros ft o Hft Ho. split; [by destruct Hft as (? & ? & ? & ?)|].
  destruct (fact_payload_spec ft Hft) as (o' & Ho' & _ & _ & Hset & _). rewrite Ho in Ho'. injection Ho' as ->. by apply Hset.
Qed.

Lemma set_archived_at_indexed facts c id tenant v : indexed facts c → time_ok v = true →
  let r := sx_set_archived_at id tenant v c in
  match facts !! id with
  | None => r.1 ≠ Ret tt ∧ indexed facts r.2
  | Some ft => (indexed facts r.2 ∨ indexed (<[id := (set_archived_at v ft.1, ft.2)]> facts) r.2) ∧
      (r.1 = Ret tt → indexed (<[id := (set_archived_at v ft.1, ft.2)]> facts) r.2)
  end.
Proof.
  intros Hc Hv. destruct (epoch_time v Hv) as (e & He & _). cbv zeta. unfold sx_set_archived_at. rewrite He, stm_lift_bind.
  apply status_indexed; [done|done|]. intros ft o Hft Ho. split; [by destruct Hft as (? & ? & ? & ?)|].
  destruct (fact_payload_spec ft Hft) as (o' & Ho' & _ & _ & _ & Hset). rewrite Ho in Ho'. injection Ho' as ->. by apply Hset.
Qed.

(** What a search makes of a fact it hits. *)
Definition found_fact (ft : SemanticMemory * uuid) (score : f64) : ScoredFact :=
  mkScoredFact (mkFact (sm_id ft.1) (sm_user_id ft.1) (sm_fact_key ft.1) (sm_fact_value ft.1) (kept_vector (sm_embedding ft.1))
    (sm_confidence ft.1) (sm_source ft.1) (sm_valid_until ft.1) (sm_archived_at ft.1)) score.

Lemma wanted_points facts c u t now : indexed facts c → uuid_ok u → uuid_ok t → ∀ id,
  filter (λ kp, current_fact u t now kp.2.2 = true) (co_points c) !! id = filter (λ kf, findable u t now kf.2 = true) facts !! id ≫= fact_point.
Proof.
  intros [Hpts Hwf] Hu Ht id. rewrite !map_lookup_filter, Hpts. destruct (facts !! id) as [ft|] eqn:Hid; [|done]. cbn [mbind option_bind].
  destruct (Hwf _ _ Hid) as [_ Hft]. destruct (fact_payload_spec ft Hft) as (o & Ho & _ & Hcur & _). rewrite (fact_point_payload _ _ Ho). cbn [mbind option_bind].
  unfold guard. cbn [snd]. rewrite Hcur by done. destruct (decide (findable u t now ft = true)); cbn; [|done]. by rewrite (fact_point_payload _ _ Ho).
Qed.

Lemma read_facts (facts : facts_map) (points : gmap uuid (list f64 * payload)) (hits : list (uuid * f64)) : map_Forall (λ id ft, sm_id ft.1 = id ∧ storable_fact ft) facts → (∀ id, points !! id = facts !! id ≫= fact_point) →
  read_hits read_fact points hits = Ret (omap (λ hit : uuid * f64, ft ← facts !! hit.1; Some (found_fact ft hit.2)) hits).
Proof.
  intros Hwf Hpts. unfold read_hits. induction hits as [|[id score] hits IH]; [done|]. cbn [omap list_omap fst snd]. rewrite Hpts.
  destruct (facts !! id) as [ft|] eqn:Hid; cbn [mbind option_bind]; [|exact IH]. destruct (Hwf _ _ Hid) as [Hsid Hft].
  destruct (fact_payload_spec ft Hft) as (o & Ho & Hread & _). rewrite (fact_point_payload _ _ Ho). cbn [mbind option_bind res_mapM fst snd].
  rewrite Hread. cbn [mbind res_bind]. rewrite IH. cbn. unfold found_fact. by rewrite Hsid.
Qed.

(** C26: The semantic index serves the facts as they stand. Take an index that
    holds a set of facts. An upsert adds or replaces a whole fact; marking one
    invalid or archived changes that one mark and nothing else, whoever else has
    written since, and is refused when the index has no such fact. Each write, if
    its call fails, has either happened in full or not at all, and has happened if
    it returns. A search that returns gives, of the points nearest to the query
    among those it may look at, exactly the facts of that user and tenant that are
    not archived and not past their time, every field as recorded and the vector as
    the collection keeps it; it changes no point. *)
Theorem semantic_index_serves_current_facts (facts : facts_map) c : indexed facts c →
  (∀ f t, storable_fact (f, t) → let r := sx_upsert kept_vector f t c in
    (indexed facts r.2 ∨ indexed (<[sm_id f := (f, t)]> facts) r.2) ∧ (r.1 = Ret tt → indexed (<[sm_id f := (f, t)]> facts) r.2)) ∧
  (∀ write mark id t v, time_ok v = true →
    (write = sx_set_valid_until ∧ mark = set_valid_until ∨ write = sx_set_archived_at ∧ mark = set_archived_at) →
    let r := write id t v c in
    match facts !! id with
    | None => r.1 ≠ Ret tt ∧ indexed facts r.2
    | Some ft => (indexed facts r.2 ∨ indexed (<[id := (mark v ft.1, ft.2)]> facts) r.2) ∧ (r.1 = Ret tt → indexed (<[id := (mark v ft.1, ft.2)]> facts) r.2)
    end) ∧
  (∀ q u t k out, uuid_ok u → uuid_ok t → (sx_search nearest q u t k c).1 = Ret out →
    co_points (sx_search nearest q u t k c).2 = co_points c ∧
    ∃ now_epoch, timestamp (co_now c) = Ret now_epoch ∧
    let mine := filter (λ kf, findable u t now_epoch kf.2 = true) facts in
    ∃ points, points ⊆ co_points c ∧ (∀ id, is_Some (points !! id) ↔ is_Some (mine !! id)) ∧
      out = omap (λ hit : uuid * f64, ft ← mine !! hit.1; Some (found_fact ft hit.2)) (nearest q k points)).
Proof.
  intros Hc. split; [|split].
  - intros f t Hft. exact (upsert_indexed facts c (f, t) Hc Hft).
  - intros write mark id t v Hv [[-> ->]|[-> ->]]; [by apply set_valid_until_indexed|by apply set_archived_at_indexed].
  - intros q u t k out Hu Ht Hout. unfold sx_search in *. unfold mbind, stm_bind, get_st, lift_res in *. destruct (timestamp (co_now c)) as [now|e]; [|done].
    pose proof (wanted_points facts c u t now Hc Hu Ht) as Hw. set (pts := filter (λ kp, current_fact u t now kp.2.2 = true) (co_points c)) in *.
    set (mine := filter (λ kf, findable u t now kf.2 = true) facts) in *.
    assert (map_Forall (λ id ft, sm_id ft.1 = id ∧ storable_fact ft) mine) as Hmine by (intros i ft [Hi _]%map_lookup_filter_Some; by apply Hc).
    assert (out = omap (λ hit : uuid * f64, ft ← mine !! hit.1; Some (found_fact ft hit.2)) (nearest q k pts)) as Hhits.
    { pose proof (read_facts mine pts (nearest q k pts) Hmine Hw) as Hread. unfold query_points in Hout. fold pts in Hout. rewrite Hread in Hout.
      destruct (co_fates c) as [|[] ?]; cbn in Hout; congruence. }
    split; [unfold query_points; by destruct (co_fates c) as [|[] ?]|]. exists now. split; [done|]. cbv zeta. exists pts. split; [apply map_filter_subseteq|]. split; [|done].
    intros id. rewrite Hw. change (filter _ facts) with mine. destruct (mine !! id) as [ft|] eqn:Hid; [|cbn; done]. destruct (Hmine _ _ Hid) as [_ Hft].
    destruct (fact_payload_spec ft Hft) as (o & Ho & _). cbn [mbind option_bind]. rewrite (fact_point_payload _ _ Ho). by split.
Qed.

(** ** Episodes *)

Definition episodes_of (episodes : gmap uuid (EpisodicMemory * uuid)) (c : Collection) : Prop :=
  (∀ id, co_points c !! id = (λ et, (kept_vector (ep_embedding et.1), episode_payload et.1 et.2)) <$> episodes !! id) ∧
  map_Forall (λ id et, ep_id et.1 = id ∧ uuid_ok (ep_session_id et.1) ∧ uuid_ok et.2 ∧ 0 ≤ ep_timestamp et.1 < datetime_end) episodes.

Lemma read_episode_payload e t id vec score : uuid_ok (ep_session_id e) → 0 ≤ ep_timestamp e < datetime_end →
  read_episode id vec (episode_payload e t) score =
    Ret (mkScoredEpisode (mkEpisode id (ep_session_id e) (ep_content e) vec (ep_timestamp e) (ep_salience_score e) None) score).
Proof.
  intros Hs Ht. unfold read_episode. change (json_item _ "session_id") with (Ret (JStr (uuid_str (ep_session_id e)))). cbn [mbind res_bind py_str].
  rewrite py_uuid_str by done. cbn [mbind res_bind]. change (json_item _ "content") with (Ret (JObj (ep_content e))).
  change (json_item _ "timestamp") with (Ret (JStr (isoformat (ep_timestamp e)))). cbn [mbind res_bind py_str]. rewrite fromisoformat_isoformat by done.
  done.
Qed.

(** A search that returns gives the session's own episodes, whole but for the
    mark that they were consolidated, which the index does not keep. *)
Lemma episodic_search_in_session episodes c q t s k out : episodes_of episodes c → uuid_ok t → uuid_ok s → (ex_search nearest q t s k c).1 = Ret out →
  ∀ se, se ∈ out → ∃ e, episodes !! ep_id e = Some (e, t) ∧ ep_session_id e = s ∧
    se_episode se = mkEpisode (ep_id e) s (ep_content e) (kept_vector (ep_embedding e)) (ep_timestamp e) (ep_salience_score e) None.
Proof.
  intros [Hpts Hwf] Ht Hs Hout se Hse. unfold ex_search, query_points in Hout.
  set (mine := filter (λ kp, session_filter t s kp.2.2 = true) (co_points c)) in *.
  assert (read_hits read_episode mine (nearest q k mine) = Ret out) as Hread by (destruct (co_fates c) as [|[] ?]; cbn in Hout; congruence).
  unfold read_hits in Hread. apply (res_mapM_elem _ _ _ se Hread) in Hse as ([[id score] [vec o]] & Hin & Hone). cbn [fst snd] in Hone.
  apply list_elem_of_omap in Hin as ([id' score'] & _ & Hp). cbn [fst snd] in Hp. destruct (mine !! id') as [p|] eqn:Hid; [|done]. injection Hp as -> -> ->.
  unfold mine in Hid. apply map_lookup_filter_Some in Hid as [Hid Hsess]. rewrite Hpts in Hid. apply fmap_Some in Hid as ([e t'] & He & [= -> ->]).
  destruct (Hwf _ _ He) as (Hei & Hes & Het & Htime). cbn [fst snd] in *. rewrite read_episode_payload in Hone by done. injection Hone as <-.
  unfold session_filter in Hsess. change (match_value "tenant_id" _ _) with (String.eqb (uuid_str t') (uuid_str t)) in Hsess.
  change (match_value "session_id" _ _) with (String.eqb (uuid_str (ep_session_id e)) (uuid_str s)) in Hsess.
  apply andb_true_iff in Hsess as [Hst%String.eqb_eq Hss%String.eqb_eq]. apply uuid_str_inj in Hst, Hss; [|done..]. subst. by exists e.
Qed.
End laws.

(** ** A worked example *)

#[local] Instance no_more_index_digits : UnicodeDigits := λ _, None.
#[local] Instance no_more_index_iso : OtherIso := λ _, Raise (ValueError "Invalid isoformat string").
#[local] Instance no_other_repr : PyRepr := λ _, EmptyString.
#[local] Instance no_untyped_content : UntypedContent := λ _, Raise (TypeError "not a dict").

(** A fact of user 1 in tenant 9, valid for an hour. *)
Definition owns_a_dog : SemanticMemory :=
  mkFact 7 1 "pet" "a dog" [fone] fone "chat" (Some (days 738000 + 3600000000)) None.

Definition any_points (q : list f64) (k : Z) (points : gmap uuid (list f64 * payload)) : list (uuid * f64) :=
  take (Z.to_nat k) ((λ kp, (kp.1, fone)) <$> map_to_list points).

Definition new_index : Collection := mkCollection ∅ [] (days 738000).
Definition dog_index : Collection := (sx_upsert (λ v, v) owns_a_dog 9 new_index).2.

Example dog_found : (sx_search any_points [fone] 1 9 5 dog_index).1 = Ret [mkScoredFact owns_a_dog fone] ∧
  (sx_search any_points [fone] 1 8 5 dog_index).1 = Ret [] ∧
  (sx_search any_points [fone] 1 9 5 (sx_set_valid_until 7 9 (Some (days 738000)) dog_index).2).1 = Ret [].
Proof. split_and!; vm_compute; reflexivity. Qed.

(** Indexed, then archived while the reply is lost. *)
Lemma semantic_index_serves_current_facts_witness :
  let facts := <[7 := (owns_a_dog, 9)]> ∅ in
  indexed (λ v, v) facts dog_index ∧
  (∀ r, r = sx_set_archived_at 7 9 (Some (days 738000)) (mkCollection (co_points dog_index) [ReplyLost] (days 738000)) →
    indexed (λ v, v) facts r.2 ∨ indexed (λ v, v) (<[7 := (set_archived_at (Some (days 738000)) owns_a_dog, 9)]> facts) r.2).
Proof.
  assert (indexed (λ v, v) ∅ new_index) as Hnew by (split; [intros id; by rewrite lookup_empty|apply map_Forall_empty]).
  assert (storable_fact (owns_a_dog, 9)) as Hdog by (repeat split; vm_compute; (reflexivity || discriminate)).
  assert (indexed (λ v, v) (<[7 := (owns_a_dog, 9)]> ∅) dog_index) as Hdogs.
  { apply (proj1 (semantic_index_serves_current_facts any_points (λ v, v) ∅ new_index Hnew) owns_a_dog 9 Hdog). vm_compute. reflexivity. }
  split; [exact Hdogs|]. intros r ->.
  assert (indexed (λ v, v) (<[7 := (owns_a_dog, 9)]> ∅) (mkCollection (co_points dog_index) [ReplyLost] (days 738000))) as Hlost.
  { eapply indexed_same; [exact Hdogs|reflexivity]. }
  destruct (semantic_index_serves_current_facts any_points (λ v, v) _ _ Hlost) as (_ & Hmark & _).
  specialize (Hmark _ _ 7 9 (Some (days 738000)) ltac:(vm_compute; reflexivity) (or_intror (conj eq_refl eq_refl))). cbv zeta in Hmark.
  rewrite lookup_insert_eq in Hmark. exact (proj1 Hmark).
Defined.
