(* ===== verification/MemoryGraph.v ===== *)
(** * The memory graph

    mag/infrastructure/neo4j_memory_graph_repository.py, with its Cypher read as
    operations on a property graph: MERGE, MATCH and SET on nodes and
    relationships, and the variable-length pattern of spreading activation as the
    trails it matches, which repeat no relationship.  A statement may be answered,
    refused, or carried out and its reply lost.  Parameters: what Neo4j stores as a
    property and when two values are equal to it, the element id it gives a new
    node, the order of the rows it returns, and the C [pow]. *)

From Stdlib Require Import ZArith Lia Ascii String Floats.SpecFloat.
From S2P Require Import Prelude PyFloat PyTime PyStr Digest Json PyUuid MagDomain JsonText PyIso DocumentStore Classifiers MemoryIndexes.

(** ** A property graph *)

Record GraphNode : Type := mkGraphNode { gn_labels : list string; gn_props : list (string * json) }.

Record Relationship : Type := mkRelationship { rl_from : string; rl_type : string; rl_to : string }.
#[global] Instance relationship_eq_dec : EqDecision Relationship.
Proof. solve_decision. Defined.

(** Nodes by element id, relationships in the order they were made. *)
Record Graph : Type := mkGraph { gr_nodes : gmap string GraphNode; gr_rels : list Relationship }.

(** The database and the fate of the calls to come. *)
Record Neo4j : Type := mkNeo4j { db_graph : Graph; db_fates : list Delivery }.

Definition unavailable : exn := BackendError "ServiceUnavailable".

(** [session.run] of a statement that writes, and of one that reads. *)
Definition run_write (statement : Graph → res Graph) : stm Neo4j unit := λ d,
  match db_fates d with
  | Refused :: rest => (Raise unavailable, mkNeo4j (db_graph d) rest)
  | fates =>
      match statement (db_graph d) with
      | Raise e => (Raise e, mkNeo4j (db_graph d) (tail fates))
      | Ret g => (match fates with ReplyLost :: _ => Raise unavailable | _ => Ret tt end, mkNeo4j g (tail fates))
      end
  end.

Definition run_read {A} (query : Graph → A) : stm Neo4j A := λ d,
  (match db_fates d with (Refused | ReplyLost) :: _ => Raise unavailable | _ => Ret (query (db_graph d)) end,
   mkNeo4j (db_graph d) (tail (db_fates d))).

Class CypherValues : Type := {
  cy_stored : json → bool;
  cy_equal : json → json → bool
}.

Section cypher.
Context `{CypherValues} (new_id : gmap string GraphNode → string).

(** A node pattern: its label and the properties it names. *)
Definition fits (label : string) (props : list (string * json)) (n : GraphNode) : bool :=
  existsb (String.eqb label) (gn_labels n) &&
  forallb (λ kv, match od_get kv.1 (gn_props n) with Some v => cy_equal v kv.2 | None => false end) props.

Definition match_node (label : string) (props : list (string * json)) (g : Graph) : list string :=
  map fst (List.filter (λ kn, fits label props kn.2) (map_to_list (gr_nodes g))).

(** MERGE of a node: the ones that match, or a new one. *)
Definition merge_node (label : string) (props : list (string * json)) (g : Graph) : res (list string * Graph) :=
  match match_node label props g with
  | [] =>
      if forallb (λ kv, cy_stored kv.2) props
      then let id := new_id (gr_nodes g) in Ret ([id], mkGraph (<[id := mkGraphNode [label] props]> (gr_nodes g)) (gr_rels g))
      else Raise (BackendError "ClientError")
  | ids => Ret (ids, g)
  end.

(** SET of one property, which null removes, and of several on the nodes matched. *)
Definition set_prop (props : list (string * json)) (kv : string * json) : list (string * json) :=
  match kv.2 with JNull => od_del kv.1 props | v => od_set kv.1 v props end.

Definition set_node (fields : list (string * json)) (n : GraphNode) : GraphNode := mkGraphNode (gn_labels n) (foldl set_prop (gn_props n) fields).

Definition set_props (fields : list (string * json)) (ids : list string) (g : Graph) : Graph :=
  mkGraph (foldr (alter (set_node fields)) (gr_nodes g) ids) (gr_rels g).

(** MERGE of a relationship between each pair of rows. *)
Definition merge_rel (rels : list Relationship) (r : Relationship) : list Relationship :=
  if decide (r ∈ rels) then rels else rels ++ [r].

Definition merge_rels (from : list string) (type : string) (to : list string) (g : Graph) : Graph :=
  mkGraph (gr_nodes g) (foldl merge_rel (gr_rels g) (flat_map (λ a, map (λ b, mkRelationship a type b) to) from)).

(** ** The writes *)

Definition node_key (id tenant_id : uuid) : list (string * json) :=
  [("id", JStr (uuid_str id)); ("tenant_id", JStr (uuid_str tenant_id))]%string.

Definition episode_fields (episode : EpisodicMemory) : list (string * json) :=
  [("content", JStr (json_dumps false (JObj (ep_content episode)))); ("timestamp", JStr (isoformat (ep_timestamp episode)))]%string.

Definition upsert_episode_node (episode : EpisodicMemory) (tenant_id : uuid) : stm Neo4j unit :=
  run_write (λ g,
    '(e, g) ← merge_node "Episode" (node_key (ep_id episode) tenant_id) g;
    Ret (set_props (episode_fields episode) e g)).

Definition fact_fields (fact : SemanticMemory) : list (string * json) :=
  [("fact_key", JStr (sm_fact_key fact)); ("fact_value", JStr (sm_fact_value fact)); ("confidence", JFloat (sm_confidence fact));
   ("valid_until", iso_or_null (sm_valid_until fact)); ("archived_at", iso_or_null (sm_archived_at fact))]%string.

Definition upsert_fact_node (fact : SemanticMemory) (tenant_id : uuid) : stm Neo4j unit :=
  run_write (λ g,
    '(f, g) ← merge_node "Fact" (node_key (sm_id fact) tenant_id) g;
    Ret (set_props (fact_fields fact) f g)).

Definition set_fact_valid_until (fact_id tenant_id : uuid) (valid_until : option datetime) : stm Neo4j unit :=
  run_write (λ g, Ret (set_props [("valid_until"%string, iso_or_null valid_until)] (match_node "Fact" (node_key fact_id tenant_id) g) g)).

Definition set_fact_archived_at (fact_id tenant_id : uuid) (archived_at : option datetime) : stm Neo4j unit :=
  run_write (λ g, Ret (set_props [("archived_at"%string, iso_or_null archived_at)] (match_node "Fact" (node_key fact_id tenant_id) g) g)).

Definition link_participated_in (user_id session_id tenant_id : uuid) : stm Neo4j unit :=
  run_write (λ g,
    '(u, g) ← merge_node "User" (node_key user_id tenant_id) g;
    '(s, g) ← merge_node "Session" (node_key session_id tenant_id) g;
    Ret (merge_rels u "PARTICIPATED_IN" s g)).

Definition link_temporally_follows (earlier_episode_id later_episode_id tenant_id : uuid) : stm Neo4j unit :=
  run_write (λ g,
    let earlier := match_node "Episode" (node_key earlier_episode_id tenant_id) g in
    let later := match_node "Episode" (node_key later_episode_id tenant_id) g in
    Ret (merge_rels later "TEMPORALLY_FOLLOWS" earlier g)).

(** The entity is merged once an episode matched: no episode, no entity. *)
Definition link_mentions (episode_id : uuid) (entity_name : json) (tenant_id : uuid) : stm Neo4j unit :=
  run_write (λ g,
    match match_node "Episode" (node_key episode_id tenant_id) g with
    | [] => Ret g
    | ep =>
        '(ent, g) ← merge_node "Entity" [("name", entity_name); ("tenant_id", JStr (uuid_str tenant_id))]%string g;
        Ret (merge_rels ep "MENTIONS" ent g)
    end).

Definition link_abstracts_to (episode_id fact_id tenant_id : uuid) : stm Neo4j unit :=
  run_write (λ g,
    let ep := match_node "Episode" (node_key episode_id tenant_id) g in
    let f := match_node "Fact" (node_key fact_id tenant_id) g in
    Ret (merge_rels ep "ABSTRACTS_TO" f g)).

(** ** Spreading activation *)

Definition _MAX_HOPS : Z := 10.
Definition _NODE_LABELS : list string := ["User"; "Session"; "Entity"; "Concept"; "Episode"; "Fact"]%string.

(** The end a relationship leads to from a node, whichever way it points. *)
Definition other_end (at_ : string) (r : Relationship) : option string :=
  if String.eqb (rl_from r) at_ then Some (rl_to r)
  else if String.eqb (rl_to r) at_ then Some (rl_from r)
  else None.

Definition tenant_node (g : Graph) (tenant_id : uuid) (id : string) : bool :=
  match gr_nodes g !! id with
  | Some n => match od_get "tenant_id"%string (gn_props n) with Some v => cy_equal v (JStr (uuid_str tenant_id)) | None => false end
  | None => false
  end.

(** The ends and lengths of the paths of at most [n] relationships from a node,
    none repeated and no node of another tenant on the way. *)
Fixpoint trails (g : Graph) (tenant_id : uuid) (n : nat) (used : list nat) (len : nat) (at_ : string) : list (string * nat) :=
  match n with
  | O => []
  | S n =>
      flat_map (λ ir : nat * Relationship,
        if decide (ir.1 ∈ used) then []
        else
          match other_end at_ ir.2 with
          | Some b => if tenant_node g tenant_id b then (b, S len) :: trails g tenant_id n (ir.1 :: used) (S len) b else []
          | None => []
          end) (imap (λ i r, (i, r)) (gr_rels g))
  end.

Definition start_nodes (tenant_id : uuid) (start_entity_names : list string) (g : Graph) : list string :=
  List.filter (λ id, match gr_nodes g !! id ≫= λ n, od_get "name"%string (gn_props n) with
                     | Some v => existsb (λ name, cy_equal v (JStr name)) start_entity_names
                     | None => false
                     end)
    (match_node "Entity" [("tenant_id"%string, JStr (uuid_str tenant_id))] g).

(** [WITH reached, min(length(path)) AS hops]. *)
Definition group_min (rows : list (string * nat)) : list (string * nat) :=
  foldl (λ o row, od_set row.1 (match od_get row.1 o with Some m => Nat.min m row.2 | None => row.2 end) o) [] rows.

Definition reached (g : Graph) (tenant_id : uuid) (hops : nat) (starts : list string) : list (string * nat) :=
  group_min (List.filter (λ row : string * nat, negb (existsb (String.eqb row.1) starts)) (flat_map (trails g tenant_id hops [] 0) starts)).

(** The query's rows: each start at no hops, each node reached at its fewest. *)
Definition activation_rows (tenant_id : uuid) (start_entity_names : list string) (hops : nat) (g : Graph) : list (string * nat) :=
  let starts := start_nodes tenant_id start_entity_names g in
  map (λ s, (s, O)) starts ++ reached g tenant_id hops starts.
End cypher.

(** *** The loop over the rows *)

Section activation.
Context `{PyRepr, OtherIso, LibPow}.

Definition _node_identifier (element_id : string) (n : GraphNode) : string :=
  match od_get "id"%string (gn_props n), od_get "name"%string (gn_props n) with
  | Some v, _ | None, Some v => py_str v
  | None, None => element_id
  end.

Definition _node_type (n : GraphNode) : string :=
  match List.find (λ label, existsb (String.eqb label) _NODE_LABELS) (gn_labels n) with
  | Some label => label
  | None => match gn_labels n with label :: _ => label | [] => "Unknown" end
  end.

Definition _node_properties (n : GraphNode) : res (list (string * prop_value)) :=
  let props := map (λ kv, (kv.1, PJson kv.2)) (gn_props n) in
  props ← match od_get "content"%string (gn_props n) with
          | Some (JStr s) => v ← json_loads s; Ret (od_set "content"%string (PJson v) props)
          | _ => Ret props
          end;
  match od_get "timestamp"%string (gn_props n) with
  | Some (JStr s) => t ← fromisoformat s; Ret (od_set "timestamp"%string (PDatetime t) props)
  | _ => Ret props
  end.

(** One record: the node's element id, its snapshot and its hops. *)
Definition activate (decay_factor activation_threshold : f64) (activated : list (string * ActivatedNode)) (row : string * GraphNode * nat) :
  res (list (string * ActivatedNode)) :=
  let '(element_id, node, hops) := row in
  let activation := c_pow decay_factor (Z.of_nat hops) in
  if (0 <? hops)%nat && fle activation activation_threshold then Ret activated
  else
    let node_id := _node_identifier element_id node in
    if match od_get node_id activated with Some existing => fle activation (an_activation existing) | None => false end then Ret activated
    else
      properties ← _node_properties node;
      Ret (od_set node_id (mkNode node_id (_node_type node) properties activation (Z.of_nat hops)) activated).

Fixpoint activate_rows (decay_factor activation_threshold : f64) (activated : list (string * ActivatedNode)) (rows : list (string * GraphNode * nat)) :
  res (list (string * ActivatedNode)) :=
  match rows with
  | [] => Ret activated
  | row :: rest => activated ← activate decay_factor activation_threshold activated row; activate_rows decay_factor activation_threshold activated rest
  end.

Context `{CypherValues} (row_order : list (string * nat) → list (string * nat)).

(** The records, each with its node as the query saw it. *)
Definition records (tenant_id : uuid) (start_entity_names : list string) (hops : nat) (g : Graph) : list (string * GraphNode * nat) :=
  omap (λ row, n ← gr_nodes g !! row.1; Some (row.1, n, row.2)) (row_order (activation_rows tenant_id start_entity_names hops g)).

Definition spread_activation (tenant_id : uuid) (start_entity_names : list string) (max_hops : Z) (decay_factor activation_threshold : f64) :
  stm Neo4j (list ActivatedNode) :=
  if negb ((1 <=? max_hops) && (max_hops <=? _MAX_HOPS)) then raise (ValueError "max_hops must be between 1 and 10")
  else if negb (flt fzero decay_factor && flt decay_factor fone) then raise (ValueError "decay_factor must be in (0.0, 1.0)")
  else
    rows ← run_read (records tenant_id start_entity_names (Z.to_nat max_hops));
    activated ← lift_res (activate_rows decay_factor activation_threshold [] rows);
    mret (map snd activated).

Definition neo4j_memory_graph (new_id : gmap string GraphNode → string) : MemoryGraphRepository Neo4j := {|
  gr_upsert_episode_node := upsert_episode_node new_id;
  gr_upsert_fact_node := upsert_fact_node new_id;
  gr_set_fact_valid_until := set_fact_valid_until;
  gr_set_fact_archived_at := set_fact_archived_at;
  gr_link_participated_in := link_participated_in new_id;
  gr_link_temporally_follows := link_temporally_follows;
  gr_link_mentions := link_mentions new_id;
  gr_link_abstracts_to := link_abstracts_to;
  gr_spread_activation := spread_activation
|}.
End activation.

(** ** Distance *)

Section distance.
Context `{CypherValues} (g : Graph) (tenant_id : uuid).

(** A walk of [k] relationships, every node after the first of the tenant. *)
Inductive walk : nat → string → string → Prop :=
  | walk_nil a : walk 0 a a
  | walk_step k a i r b c : gr_rels g !! i = Some r → other_end a r = Some b → tenant_node g tenant_id b = true → walk k b c → walk (S k) a c.

(** The fewest relationships from any of the starts. *)
Definition nearest_hops (starts : list string) (k : nat) (b : string) : Prop :=
  (∃ s, s ∈ starts ∧ walk k s b) ∧ ∀ j s, s ∈ starts → walk j s b → (k ≤ j)%nat.

Lemma trails_walk n used len a b l : (b, l) ∈ trails g tenant_id n used len a → ∃ k, (1 ≤ k ≤ n)%nat ∧ l = (len + k)%nat ∧ walk k a b.
Proof.
  revert used len a. induction n as [|n IH]; intros used len a; cbn [trails]; [by intros ?%elem_of_nil|].
  intros ([i r] & Hir & Hin)%list_elem_of_In%in_flat_map. apply list_elem_of_In, elem_of_lookup_imap in Hir as (j & r' & [= -> ->] & Hj).
  cbn [fst snd] in Hin. destruct (decide (j ∈ used)); [done|]. destruct (other_end a r') as [c|] eqn:Hc; [|done]. destruct (tenant_node g tenant_id c) eqn:Ht; [|done].
  destruct Hin as [[= -> <-]|Hin%list_elem_of_In].
  - exists 1%nat. split; [lia|]. split; [lia|]. econstructor; [done..|constructor].
  - destruct (IH _ _ _ Hin) as (k & Hk & -> & Hw). exists (S k). split; [lia|]. split; [lia|]. by econstructor.
Qed.

(** A shortest walk repeats no relationship: what was walked before has an end
    further from the target than all that is left. *)
Lemma shortest_trail b m : ∀ n used len a, walk m a b → (∀ j, (j < m)%nat → ¬ walk j a b) → (1 ≤ m ≤ n)%nat →
  (∀ i, i ∈ used → ∃ r u, gr_rels g !! i = Some r ∧ (u = rl_from r ∨ u = rl_to r) ∧ ∀ j, (j ≤ m)%nat → ¬ walk j u b) →
  (b, len + m)%nat ∈ trails g tenant_id n used len a.
Proof.
  induction m as [|m IH]; intros n used len a Hw Hmin Hn Hused; [lia|]. inversion Hw as [|k a' i r c c' Hi Hc Ht Hrest]; subst. destruct n as [|n]; [lia|].
  assert (∀ u, u = rl_from r ∨ u = rl_to r → u = a ∨ u = c) as Hends.
  { intros u Hu. unfold other_end in Hc. destruct (String.eqb_spec (rl_from r) a) as [<-|]; [injection Hc as <-; tauto|].
    destruct (String.eqb_spec (rl_to r) a) as [<-|]; [injection Hc as <-; tauto|done]. }
  cbn [trails]. apply list_elem_of_In, in_flat_map. exists (i, r). split; [apply list_elem_of_In, elem_of_lookup_imap; by exists i, r|]. cbn [fst snd].
  destruct (decide (i ∈ used)) as [Hin|_].
  { exfalso. destruct (Hused i Hin) as (r' & u & Hi' & Hu & Hfar). assert (r' = r) as -> by congruence. destruct (Hends u Hu) as [->| ->].
    - by apply (Hfar (S m)).
    - by apply (Hfar m); [lia|]. }
  rewrite Hc, Ht. destruct m as [|m'].
  - inversion Hrest; subst. left. f_equal. lia.
  - right. apply list_elem_of_In. replace (len + S (S m'))%nat with (S len + S m')%nat by lia. apply IH; [done| |lia|].
    + intros j Hj Hwj. apply (Hmin (S j)); [lia|]. by econstructor.
    + intros i' [->|Hi']%elem_of_cons.
      * exists r, a. split; [done|]. split.
        { unfold other_end in Hc. destruct (String.eqb_spec (rl_from r) a); [by left|]. destruct (String.eqb_spec (rl_to r) a); [by right|done]. }
        intros j Hj. apply Hmin. lia.
      * destruct (Hused i' Hi') as (r' & u & Hr' & Hu & Hfar). exists r', u. split_and!; [done..|]. intros j Hj. apply Hfar. lia.
Qed.
End distance.

Lemma group_min_spec rows : NoDup (od_keys (group_min rows)) ∧
  ∀ b k, od_get b (group_min rows) = Some k ↔ (b, k) ∈ rows ∧ ∀ l, (b, l) ∈ rows → (k ≤ l)%nat.
Proof.
  induction rows as [|[c l] rows [Hnd IH]] using rev_ind.
  { split; [constructor|]. intros b k. split; [done|]. by intros [?%elem_of_nil _]. }
  unfold group_min in *. rewrite foldl_app. cbn [foldl fst snd]. set (o := foldl _ [] rows) in *. split; [by apply od_set_nodup|]. intros b k.
  rewrite od_get_set. setoid_rewrite elem_of_app. setoid_rewrite list_elem_of_singleton. destruct (decide (c = b)) as [<-|Hne].
  - destruct (od_get c o) as [m|] eqn:Hm.
    + apply IH in Hm as [Hin Hmin]. split.
      * intros [= <-]. split; [destruct (Nat.min_spec m l) as [[_ ->]|[_ ->]]; auto|]. intros l' [Hl'|[= ->]]; [specialize (Hmin _ Hl')|]; lia.
      * intros [Hk Hall]. f_equal. pose proof (Hall m (or_introl Hin)). pose proof (Hall l (or_intror eq_refl)). destruct Hk as [Hk|[= ->]]; [specialize (Hmin _ Hk)|]; lia.
    + assert (∀ k', (c, k') ∉ rows) as Hnone.
      { intros k' Hk'. revert k' Hk'. assert (∀ n k', (c, k') ∈ rows → (k' < n)%nat → False) as Hlt.
        { induction n as [|n IHn]; intros k' Hk' Hlt; [lia|]. assert (od_get c o = Some k') as Hs by (apply IH; split; [done|]; intros l' Hl'; destruct (Nat.le_gt_cases k' l'); [done|]; exfalso; apply (IHn l' Hl'); lia).
          congruence. }
        intros k' Hk'. by apply (Hlt (S k') k'); [|lia]. }
      split; [intros [= <-]; split; [by right|]; intros l' [?%Hnone|[= ->]]; [done|lia]|]. intros [[?%Hnone|[= ->]] _]; done.
  - rewrite IH. split.
    + intros [Hin Hmin]. split; [by left|]. intros l' [?|[= -> ->]]; [auto|done].
    + intros [[Hin|[= -> ->]] Hmin]; [|done]. split; auto.
Qed.

Section reached.
Context `{CypherValues} (g : Graph) (tenant_id : uuid).

(** What the query groups is the distance within the tenant. *)
Lemma reached_nearest n starts b k : (b, k) ∈ reached g tenant_id n starts ↔ b ∉ starts ∧ (k ≤ n)%nat ∧ nearest_hops g tenant_id starts k b.
Proof.
  unfold reached. destruct (group_min_spec (List.filter (λ row : string * nat, negb (existsb (String.eqb row.1) starts)) (flat_map (trails g tenant_id n [] 0) starts))) as [Hnd Hget].
  assert (∀ b, existsb (String.eqb b) starts = false ↔ b ∉ starts) as Hout.
  { intros c. rewrite <- not_true_iff_false, existsb_exists. setoid_rewrite String.eqb_eq. setoid_rewrite <- list_elem_of_In.
    split; intros Hn; [intros Hc; apply Hn; by exists c|intros (x & Hx & ->); done]. }
  assert (∀ c l, (c, l) ∈ List.filter (λ row : string * nat, negb (existsb (String.eqb row.1) starts)) (flat_map (trails g tenant_id n [] 0) starts) ↔
    c ∉ starts ∧ ∃ s, s ∈ starts ∧ (c, l) ∈ trails g tenant_id n [] 0 s) as Hrow.
  { intros c l. rewrite list_elem_of_In, filter_In, in_flat_map, negb_true_iff, Hout. setoid_rewrite <- list_elem_of_In. tauto. }
  assert (∀ s j, s ∈ starts → b ∉ starts → walk g tenant_id j s b → (∀ i, (i < j)%nat → ¬ walk g tenant_id i s b) → (j ≤ n)%nat → (b, j) ∈ trails g tenant_id n [] 0 s) as Htrail.
  { intros s j Hs Hb Hw Hmin Hj. destruct j as [|j]; [inversion Hw; by subst|]. apply (shortest_trail g tenant_id b (S j) n [] 0 s); [done..|lia|]. by intros ? ?%elem_of_nil. }
  transitivity (od_get b (group_min (List.filter (λ row : string * nat, negb (existsb (String.eqb row.1) starts)) (flat_map (trails g tenant_id n [] 0) starts))) = Some k).
  { split; [by apply od_get_in|by apply od_get_elem]. }
  rewrite Hget. split.
  - intros [[Hb (s & Hs & Ht)]%Hrow Hmin]. destruct (trails_walk _ _ _ _ _ _ _ _ Ht) as (k' & Hk' & -> & Hw). cbn [Nat.add]. split; [done|]. split; [lia|]. split; [by exists s|].
    intros j. induction (lt_wf j) as [j _ IH]. intros s' Hs' Hw'. destruct (Nat.le_gt_cases k' j) as [|Hlt]; [done|]. apply Hmin, Hrow. split; [done|]. exists s'. split; [done|].
    apply Htrail; [done..| |lia]. intros i Hi Hwi. specialize (IH i Hi s' Hs' Hwi). lia.
  - intros (Hb & Hk & (s & Hs & Hw) & Hmin). split.
    + apply Hrow. split; [done|]. exists s. split; [done|]. apply Htrail; [done..| |done]. intros i Hi Hwi. specialize (Hmin i s Hs Hwi). lia.
    + intros l [_ (s' & Hs' & Ht)]%Hrow. destruct (trails_walk _ _ _ _ _ _ _ _ Ht) as (l' & _ & -> & Hw'). by apply (Hmin _ s').
Qed.

Lemma nearest_unique starts k k' b : nearest_hops g tenant_id starts k b → nearest_hops g tenant_id starts k' b → k = k'.
Proof. intros [(s & Hs & Hw) Hm] [(s' & Hs' & Hw') Hm']. pose proof (Hm _ _ Hs' Hw'). pose proof (Hm' _ _ Hs Hw). lia. Qed.

(** Every row is a node at its distance, once. *)
Lemma activation_rows_spec names n : let starts := start_nodes tenant_id names g in
  NoDup (map fst (activation_rows tenant_id names n g)) ∧
  ∀ b k, (b, k) ∈ activation_rows tenant_id names n g ↔ (k ≤ n)%nat ∧ nearest_hops g tenant_id starts k b.
Proof.
  cbv zeta. unfold activation_rows. set (starts := start_nodes tenant_id names g). split.
  - rewrite map_app, map_map. cbn [fst]. rewrite map_id. apply NoDup_app. split_and!.
    + unfold starts, start_nodes, match_node. apply NoDup_ListNoDup, List.NoDup_filter, NoDup_ListNoDup.
      apply nodup_map_filter, NoDup_fst_map_to_list.
    + intros b Hb (bk & -> & Hin)%list_elem_of_fmap. destruct bk as [b k]. by apply reached_nearest in Hin as [? _].
    + unfold reached. apply group_min_spec.
  - intros b k. rewrite elem_of_app, reached_nearest, list_elem_of_fmap. split.
    + intros [(s & [= -> ->] & Hs)|(_ & Hk & Hn)]; [|done]. split; [lia|]. split; [exists s; split; [done|constructor]|lia].
    + intros [Hk Hn]. destruct (decide (b ∈ starts)) as [Hb|Hb]; [|by right]. left. exists b. split; [|done]. f_equal.
      destruct Hn as [_ Hmin]. specialize (Hmin 0%nat b Hb (walk_nil _ _ b)). lia.
Qed.
End reached.

(** ** Spreading activation finds what is near *)

Section spreading.
Context `{PyRepr, OtherIso, LibPow, CypherValues} (row_order : list (string * nat) → list (string * nat)).

(** A node as it comes back, [k] hops away. *)
Definition activated_node (decay_factor : f64) (element_id : string) (n : GraphNode) (k : nat) : res ActivatedNode :=
  properties ← _node_properties n;
  Ret (mkNode (_node_identifier element_id n) (_node_type n) properties (c_pow decay_factor (Z.of_nat k)) (Z.of_nat k)).

Definition above (decay_factor activation_threshold : f64) (row : string * GraphNode * nat) : bool :=
  negb ((0 <? row.2)%nat && fle (c_pow decay_factor (Z.of_nat row.2)) activation_threshold).

Definition row_identifier (row : string * GraphNode * nat) : string := _node_identifier row.1.1 row.1.2.

(** When no two rows share an identifier, the loop keeps every row above the
    threshold, in order. *)
Lemma activate_rows_spec decay threshold rows acc :
  NoDup (od_keys acc ++ map row_identifier rows) → activate_rows decay threshold acc rows =
    (λ l, acc ++ map (λ a, (an_node_id a, a)) l) <$> res_mapM (λ row, activated_node decay row.1.1 row.1.2 row.2) (List.filter (above decay threshold) rows).
Proof.
  revert acc. induction rows as [|[[element n] k] rows IH]; intros acc Hnd; cbn [activate_rows List.filter res_mapM fmap res_fmap mbind res_bind map].
  { by rewrite app_nil_r. }
  cbn [map] in Hnd. unfold above at 1. cbn [snd]. unfold activate. destruct ((0 <? k)%nat && fle (c_pow decay (Z.of_nat k)) threshold); cbn [negb mbind res_bind].
  { apply IH. apply (sublist_NoDup _ _ Hnd). apply sublist_app; [done|]. by apply sublist_cons. }
  assert (od_get (_node_identifier element n) acc = None) as Hnone.
  { apply od_get_None. apply NoDup_app in Hnd as (_ & Hdis & _). intros Hin. apply (Hdis _ Hin). by left. }
  rewrite Hnone. cbn [res_mapM fst snd]. assert (activated_node decay element n k = properties ← _node_properties n;
    Ret (mkNode (_node_identifier element n) (_node_type n) properties (c_pow decay (Z.of_nat k)) (Z.of_nat k))) as -> by done.
  destruct (_node_properties n) as [props|e]; cbn [mbind res_bind]; [|done].
  rewrite od_set_fresh by (by apply od_get_None). rewrite IH.
  - destruct (res_mapM _ _) as [l|e]; cbn [mbind res_bind fmap res_fmap]; [|done]. by rewrite <- app_assoc.
  - unfold od_keys in *. rewrite map_app, <- app_assoc. exact Hnd.
Qed.

Lemma activated_node_id decay (row : string * GraphNode * nat) a : activated_node decay row.1.1 row.1.2 row.2 = Ret a → an_node_id a = row_identifier row.
Proof. unfold activated_node. by destruct (_node_properties row.1.2); [intros [= <-]|]. Qed.

(** Nodes of the tenant are told apart by their identifiers. *)
Definition told_apart (g : Graph) (tenant_id : uuid) : Prop :=
  NoDup (map (λ kn, _node_identifier kn.1 kn.2) (List.filter (λ kn, tenant_node g tenant_id kn.1) (map_to_list (gr_nodes g)))).

Lemma told_apart_inj g tenant_id a b m n : told_apart g tenant_id → gr_nodes g !! a = Some m → gr_nodes g !! b = Some n →
  tenant_node g tenant_id a = true → tenant_node g tenant_id b = true → _node_identifier a m = _node_identifier b n → a = b.
Proof.
  intros Hnd Ha Hb Hta Htb Heq. unfold told_apart in Hnd.
  assert (∀ c x, gr_nodes g !! c = Some x → tenant_node g tenant_id c = true → (c, x) ∈ List.filter (λ kn, tenant_node g tenant_id kn.1) (map_to_list (gr_nodes g))) as Hin.
  { intros c x Hc Ht. apply list_elem_of_In, filter_In. split; [by apply list_elem_of_In, elem_of_map_to_list|done]. }
  apply Hin in Ha as [i Hi]%list_elem_of_lookup; [|done]. apply Hin in Hb as [j Hj]%list_elem_of_lookup; [|done].
  assert (i = j) as ->; [|congruence].
  eapply (NoDup_lookup _ i j _ Hnd); rewrite list_lookup_fmap; [by rewrite Hi|]. rewrite Hj. cbn. by f_equal.
Qed.

Lemma start_of_tenant tenant_id names g s : s ∈ start_nodes tenant_id names g → tenant_node g tenant_id s = true.
Proof.
  unfold start_nodes, match_node. intros [Hs _]%list_elem_of_In%filter_In. apply list_elem_of_In, list_elem_of_fmap in Hs as ([id n] & -> & Hin).
  apply list_elem_of_In, filter_In in Hin as [Hin Hfits]. apply list_elem_of_In, elem_of_map_to_list in Hin. cbn [fst snd] in *.
  unfold fits in Hfits. apply andb_true_iff in Hfits as [_ Hfits]. cbn [forallb fst snd] in Hfits. rewrite andb_true_r in Hfits.
  unfold tenant_node. by rewrite Hin.
Qed.

Lemma walk_of_tenant g tenant_id k a b : walk g tenant_id k a b → tenant_node g tenant_id a = true → tenant_node g tenant_id b = true.
Proof. induction 1; auto. Qed.

Lemma nearest_of_tenant tenant_id names g k b : nearest_hops g tenant_id (start_nodes tenant_id names g) k b → tenant_node g tenant_id b = true.
Proof. intros [(s & Hs & Hw) _]. apply (walk_of_tenant _ _ _ _ _ Hw). by apply start_of_tenant in Hs. Qed.

Hypothesis some_order : ∀ l, row_order l ≡ₚ l.

Lemma records_spec tenant_id names n g : told_apart g tenant_id → NoDup (map row_identifier (records row_order tenant_id names n g)) ∧
  ∀ id m k, (id, m, k) ∈ records row_order tenant_id names n g ↔
    gr_nodes g !! id = Some m ∧ (k ≤ n)%nat ∧ nearest_hops g tenant_id (start_nodes tenant_id names g) k id.
Proof.
  intros Hapart. destruct (activation_rows_spec g tenant_id names n) as [Hnd Hin].
  assert (∀ id m k, (id, m, k) ∈ records row_order tenant_id names n g ↔
    gr_nodes g !! id = Some m ∧ (k ≤ n)%nat ∧ nearest_hops g tenant_id (start_nodes tenant_id names g) k id) as Hrec.
  { intros id m k. unfold records. rewrite list_elem_of_omap. split.
    - intros ([id' k'] & Hrow & Hsome). rewrite some_order in Hrow. apply Hin in Hrow. cbn [fst snd] in Hsome. destruct (gr_nodes g !! id') eqn:Hn; [|done].
      cbn in Hsome. injection Hsome as -> -> ->. done.
    - intros [Hm Hrow]. exists (id, k). rewrite some_order. split; [by apply Hin|]. cbn. by rewrite Hm. }
  split; [|exact Hrec]. clear Hin. assert (NoDup (map fst (row_order (activation_rows tenant_id names n g)))) as Hnd' by (by rewrite (fmap_Permutation fst _ _ (some_order _))).
  assert (∀ row, row ∈ records row_order tenant_id names n g → gr_nodes g !! row.1.1 = Some row.1.2 ∧ tenant_node g tenant_id row.1.1 = true) as Hof.
  { intros [[id m] k] (Hm & _ & Hn)%Hrec. split; [done|]. by apply nearest_of_tenant in Hn. }
  clear Hrec. unfold records in *. revert Hnd' Hof. generalize (row_order (activation_rows tenant_id names n g)) as rows.
  induction rows as [|[id k] rows IH]; [constructor|]. cbn [map fst]. intros [Hid Hnd']%NoDup_cons. cbn [omap list_omap fst snd].
  destruct (gr_nodes g !! id) as [m|] eqn:Hm; cbn [mbind option_bind]; [|by apply IH]. intros Hof. cbn [map]. apply NoDup_cons. split; [|apply IH; [done|]; intros row Hr; apply Hof; by right].
  intros ([[id' m'] k'] & Heq & Hin)%list_elem_of_fmap. destruct (Hof (id, m, k)) as [_ Ht]; [by left|]. destruct (Hof (id', m', k')) as [Hm' Ht']; [by right|]. cbn [fst snd] in *.
  apply Hid. rewrite (told_apart_inj _ _ id id' m m' Hapart Hm Hm' Ht Ht' Heq). apply list_elem_of_omap in Hin as ([id2 k2] & Hrow & Hsome). cbn [fst snd] in Hsome.
  destruct (gr_nodes g !! id2); [|done]. cbn in Hsome. injection Hsome as <- _ _. by apply (list_elem_of_fmap_2 fst rows (id2, k2)).
Qed.

(** C24: Spreading activation finds what is near. With hops or a decay factor out
    of range it raises before any call. Otherwise, when it returns, it gives each
    node of the tenant that some path of relationships, either way along each, of
    at most [max_hops] and through nodes of the tenant alone, joins to an entity
    named, exactly once: with the length of its shortest such path and the
    activation that length decays to, when that is above the threshold or the node
    is itself an entity named, and its properties read back. It gives nothing else,
    no node of another tenant, and changes no node or relationship; with a server
    that answers and properties that read back it does return. The tenant's nodes
    have identifiers of their own. *)
Theorem spread_activation_finds_what_is_near tenant_id names max_hops decay threshold (d : Neo4j) :
  let g := db_graph d in
  let r := spread_activation row_order tenant_id names max_hops decay threshold d in
  let in_range := (1 <=? max_hops) && (max_hops <=? _MAX_HOPS) && (flt fzero decay && flt decay fone) in
  let near id n k := gr_nodes g !! id = Some n ∧ tenant_node g tenant_id id = true ∧ Z.of_nat k ≤ max_hops ∧
    nearest_hops g tenant_id (start_nodes tenant_id names g) k id ∧ (k = 0%nat ∨ fle (c_pow decay (Z.of_nat k)) threshold = false) in
  told_apart g tenant_id →
  (in_range = false → ∃ why, r = (Raise (ValueError why), d)) ∧
  (in_range = true → db_graph r.2 = g ∧
    (∀ out, r.1 = Ret out → NoDup (map an_node_id out) ∧ ∀ a, a ∈ out ↔ ∃ id n k, near id n k ∧ activated_node decay id n k = Ret a) ∧
    (head (db_fates d) = None ∨ head (db_fates d) = Some Answered → (∀ id n k, near id n k → ∃ props, _node_properties n = Ret props) → ∃ out, r.1 = Ret out)).
Proof.
  cbv zeta. intros Hapart. unfold spread_activation. destruct ((1 <=? max_hops) && (max_hops <=? _MAX_HOPS)) eqn:Hh; cbn [negb andb]; [|by split; [intros _; eexists|]].
  destruct (flt fzero decay && flt decay fone); cbn [negb]; [|by split; [intros _; eexists|]]. split; [done|]. intros _.
  apply andb_true_iff in Hh as [Hh1%Z.leb_le _]. set (g := db_graph d) in *.
  destruct (records_spec tenant_id names (Z.to_nat max_hops) g Hapart) as [Hnd Hrec]. set (rows := records row_order tenant_id names (Z.to_nat max_hops) g) in *.
  assert (∀ id n k, (gr_nodes g !! id = Some n ∧ tenant_node g tenant_id id = true ∧ Z.of_nat k ≤ max_hops ∧
    nearest_hops g tenant_id (start_nodes tenant_id names g) k id ∧ (k = 0%nat ∨ fle (c_pow decay (Z.of_nat k)) threshold = false)) ↔
    (id, n, k) ∈ List.filter (above decay threshold) rows) as Hnear.
  { intros id n k. rewrite list_elem_of_In, filter_In, <- list_elem_of_In, Hrec. unfold above. cbn [snd].
    rewrite negb_true_iff, andb_false_iff, Nat.ltb_ge. split.
    - intros (Hn & _ & Hk & Hnh & Hab). split; [split_and!; [done|lia|done]|]. destruct Hab as [->|Hab]; [left; lia|by right].
    - intros [(Hn & Hk & Hnh) Hab]. split_and!; [done|by apply nearest_of_tenant in Hnh|lia|done|].
      destruct Hab as [Hab|Hab]; [left; lia|by right]. }
  unfold mbind, stm_bind, run_read, lift_res, mret, stm_ret. fold g. fold rows.
  assert (∀ out, (activated ← activate_rows decay threshold [] rows; Ret (map snd activated)) = Ret out →
    NoDup (map an_node_id out) ∧ ∀ a, a ∈ out ↔ ∃ id n k, (id, n, k) ∈ List.filter (above decay threshold) rows ∧ activated_node decay id n k = Ret a) as Hout.
  { intros out. rewrite activate_rows_spec by exact Hnd. destruct (res_mapM _ _) as [l|e] eqn:Hl; cbn [fmap res_fmap mbind res_bind]; [|done]. intros [= <-].
    assert (map snd (map (λ a, (an_node_id a, a)) l) = l) as Hl' by (rewrite map_map; apply map_id). cbn [app]. rewrite Hl'. split.
    - rewrite (res_mapM_image _ an_node_id row_identifier _ _ (λ row a, activated_node_id decay row a) Hl). by apply nodup_map_filter.
    - intros a. rewrite (res_mapM_elem _ _ _ a Hl). split; [intros ([[id n] k] & Hin & Ha); by exists id, n, k|intros (id & n & k & Hin & Ha); by exists (id, n, k)]. }
  split_and!.
  - destruct (db_fates d) as [|[] ?]; cbn [fst snd]; try destruct (activate_rows _ _ _ _); done.
  - intros out Hr. setoid_rewrite Hnear. apply Hout. destruct (db_fates d) as [|[] ?]; cbn [fst] in Hr; try done; destruct (activate_rows _ _ _ _); done.
  - intros Hfates Hread. destruct (res_mapM_total (λ row, activated_node decay row.1.1 row.1.2 row.2) (List.filter (above decay threshold) rows)) as [l Hl].
    { intros [[id n] k] Hin%Hnear. destruct (Hread _ _ _ Hin) as [props Hp]. eexists. unfold activated_node. cbn [fst snd]. by rewrite Hp. }
    pose proof (activate_rows_spec decay threshold rows [] Hnd) as Hrows. rewrite Hl in Hrows. cbn [fmap res_fmap] in Hrows.
    destruct (db_fates d) as [|[] ?]; cbn [fst snd]; [| |by destruct Hfates..]; rewrite Hrows; by eexists.
Qed.
End spreading.

(** ** The writes stay in their tenant *)

(** The methods that write. *)
Inductive GraphWrite : Type :=
  | WEpisode (episode : EpisodicMemory)
  | WFact (fact : SemanticMemory)
  | WValidUntil (fact_id : uuid) (v : option datetime)
  | WArchivedAt (fact_id : uuid) (v : option datetime)
  | WParticipated (user_id session_id : uuid)
  | WFollows (earlier later : uuid)
  | WMentions (episode_id : uuid) (entity_name : json)
  | WAbstracts (episode_id fact_id : uuid).

Definition run_graph_write {G} `{MemoryGraphRepository G} (tenant_id : uuid) (w : GraphWrite) : stm G unit :=
  match w with
  | WEpisode episode => gr_upsert_episode_node episode tenant_id
  | WFact fact => gr_upsert_fact_node fact tenant_id
  | WValidUntil id v => gr_set_fact_valid_until id tenant_id v
  | WArchivedAt id v => gr_set_fact_archived_at id tenant_id v
  | WParticipated u s => gr_link_participated_in u s tenant_id
  | WFollows e l => gr_link_temporally_follows e l tenant_id
  | WMentions e name => gr_link_mentions e name tenant_id
  | WAbstracts e f => gr_link_abstracts_to e f tenant_id
  end.

Section writes.
Context `{CypherValues} (new_id : gmap string GraphNode → string).
Hypothesis equal_text : ∀ v s, cy_equal v (JStr s) = true ↔ v = JStr s.
Hypothesis unused_id : ∀ nodes, nodes !! new_id nodes = None.

(** A node's key: its id or its name, in its tenant. *)
Definition key_pattern (key value : string) (tenant_id : uuid) : list (string * json) :=
  [(key, JStr value); ("tenant_id"%string, JStr (uuid_str tenant_id))].

(** A graph its writers keep in order: no relationship leaves a tenant or is
    there twice, and a label's key is one node's. *)
Definition in_order (g : Graph) : Prop :=
  Forall (λ r, ∃ t, tenant_node g t (rl_from r) = true ∧ tenant_node g t (rl_to r) = true) (gr_rels g) ∧ NoDup (gr_rels g) ∧
  ∀ label key value t a b, key = "id"%string ∨ key = "name"%string →
    a ∈ match_node label (key_pattern key value t) g → b ∈ match_node label (key_pattern key value t) g → a = b.

(** From one graph to the next, what one tenant may do: its own nodes and
    relationships, and no node changes hands. *)
Record within (t : uuid) (g g' : Graph) : Prop := {
  wi_others id : tenant_node g t id = false → is_Some (gr_nodes g !! id) → gr_nodes g' !! id = gr_nodes g !! id;
  wi_kept id : is_Some (gr_nodes g !! id) → is_Some (gr_nodes g' !! id);
  wi_new id : gr_nodes g !! id = None → is_Some (gr_nodes g' !! id) → tenant_node g' t id = true;
  wi_tenants u id : is_Some (gr_nodes g !! id) → tenant_node g' u id = tenant_node g u id;
  wi_rels : ∃ new, gr_rels g' = gr_rels g ++ new ∧ Forall (λ r, tenant_node g' t (rl_from r) = true ∧ tenant_node g' t (rl_to r) = true) new
}.

Lemma of_tenant_node g t id : tenant_node g t id = true → is_Some (gr_nodes g !! id).
Proof. unfold tenant_node. destruct (gr_nodes g !! id); [by eexists|done]. Qed.

Lemma within_of_tenant t g g' u id : within t g g' → tenant_node g u id = true → tenant_node g' u id = true.
Proof. intros Hw Hu. rewrite (wi_tenants t g g' Hw); [done|]. by apply of_tenant_node in Hu. Qed.

Lemma within_refl t g : within t g g.
Proof. split; [done..| |done|]; [intros id Hn [n Hs]; congruence|]. exists []. by rewrite app_nil_r. Qed.

Lemma within_trans t g1 g2 g3 : within t g1 g2 → within t g2 g3 → within t g1 g3.
Proof.
  intros H12 H23. split.
  - intros id Hf Hs. rewrite (wi_others _ _ _ H23); [by apply H12| |by apply (wi_kept _ _ _ H12)]. by rewrite (wi_tenants _ _ _ H12).
  - intros id Hs. by apply (wi_kept _ _ _ H23), (wi_kept _ _ _ H12).
  - intros id Hn Hs. destruct (gr_nodes g2 !! id) eqn:H2; [|by apply (wi_new _ _ _ H23)]. rewrite (wi_tenants _ _ _ H23) by done. apply (wi_new _ _ _ H12); [done|by eexists].
  - intros u id Hs. rewrite (wi_tenants _ _ _ H23); [by apply H12|by apply (wi_kept _ _ _ H12)].
  - destruct (wi_rels _ _ _ H12) as (n1 & Hr1 & Hf1), (wi_rels _ _ _ H23) as (n2 & Hr2 & Hf2). exists (n1 ++ n2). rewrite Hr2, Hr1, app_assoc. split; [done|].
    apply Forall_app. split; [|done]. eapply Forall_impl; [exact Hf1|]. intros r [Ha Hb]. split; by apply (within_of_tenant _ _ _ _ _ H23).
Qed.

Lemma in_match_node label props g id : id ∈ match_node label props g ↔ ∃ n, gr_nodes g !! id = Some n ∧ fits label props n = true.
Proof.
  unfold match_node. rewrite list_elem_of_fmap. split.
  - intros ([id' n] & -> & [Hin Hf]%list_elem_of_In%filter_In). exists n. split; [|done]. by apply list_elem_of_In, elem_of_map_to_list in Hin.
  - intros (n & Hn & Hf). exists (id, n). split; [done|]. apply list_elem_of_In, filter_In. split; [by apply list_elem_of_In, elem_of_map_to_list|done].
Qed.

Lemma match_of_tenant label key v t g id : id ∈ match_node label [(key, v); ("tenant_id"%string, JStr (uuid_str t))] g → tenant_node g t id = true.
Proof.
  intros (n & Hn & Hf)%in_match_node. unfold fits in Hf. cbn [forallb fst snd] in Hf. rewrite !andb_true_iff in Hf. destruct Hf as (_ & _ & Hf & _).
  unfold tenant_node. by rewrite Hn.
Qed.

Lemma fits_key label key value t n : fits label (key_pattern key value t) n = true ↔
  existsb (String.eqb label) (gn_labels n) = true ∧ od_get key (gn_props n) = Some (JStr value) ∧ od_get "tenant_id"%string (gn_props n) = Some (JStr (uuid_str t)).
Proof.
  unfold fits, key_pattern. cbn [forallb fst snd]. rewrite !andb_true_iff.
  assert (∀ k s, match od_get k (gn_props n) with Some v => cy_equal v (JStr s) | None => false end = true ↔ od_get k (gn_props n) = Some (JStr s)) as Heq.
  { intros k s. destruct (od_get k (gn_props n)) as [v|]; [|done]. rewrite equal_text. split; [by intros ->|by intros [= ->]]. }
  rewrite !Heq. tauto.
Qed.

(** *** MERGE of a node *)

Lemma merge_node_within label key v t g ids g' : key = "id"%string ∨ key = "name"%string → in_order g →
  merge_node new_id label [(key, v); ("tenant_id"%string, JStr (uuid_str t))] g = Ret (ids, g') →
  in_order g' ∧ within t g g' ∧ Forall (λ id, tenant_node g' t id = true) ids.
Proof.
  intros Hkey Hord. unfold merge_node. destruct (match_node label _ g) as [|a l] eqn:Hm.
  - destruct (forallb _ _); [|done]. intros [= <- <-]. set (id := new_id (gr_nodes g)). set (n := mkGraphNode [label] _).
    pose proof (unused_id (gr_nodes g)) as Hfresh. fold id in Hfresh.
    assert (Hof : tenant_node (mkGraph (<[id:=n]> (gr_nodes g)) (gr_rels g)) t id = true).
    { unfold tenant_node. cbn [gr_nodes]. rewrite lookup_insert_eq. cbn [gn_props n]. rewrite !od_get_cons. rewrite decide_False by (destruct Hkey as [->| ->]; done).
      rewrite decide_True by done. by apply equal_text. }
    assert (Hsame : ∀ u x, is_Some (gr_nodes g !! x) → tenant_node (mkGraph (<[id:=n]> (gr_nodes g)) (gr_rels g)) u x = tenant_node g u x).
    { intros u x [m Hx]. unfold tenant_node. cbn [gr_nodes]. rewrite lookup_insert_ne; [done|]. intros ->. congruence. }
    assert (Hwi : within t g (mkGraph (<[id:=n]> (gr_nodes g)) (gr_rels g))).
    { split; cbn [gr_nodes gr_rels]; [| | |exact Hsame|exists []; by rewrite app_nil_r].
      - intros x _ [m Hx]. rewrite lookup_insert_ne; [done|]. intros ->. congruence.
      - intros x Hx. destruct (decide (id = x)) as [<-|]; [rewrite lookup_insert_eq; by eexists|by rewrite lookup_insert_ne].
      - intros x Hx Hs. destruct (decide (id = x)) as [<-|]; [exact Hof|]. rewrite lookup_insert_ne in Hs by done. rewrite Hx in Hs. by destruct Hs. }
    split_and!; [|exact Hwi|by constructor]. destruct Hord as (Hrels & Hnd & Huniq). split_and!; cbn [gr_rels]; [|done|].
    { eapply Forall_impl; [exact Hrels|]. intros r (u & Ha & Hb). exists u. split; by apply (within_of_tenant _ _ _ _ _ Hwi). }
    assert (Hnew : ∀ lb k s u x, k = "id"%string ∨ k = "name"%string → fits lb (key_pattern k s u) n = true → x ∉ match_node lb (key_pattern k s u) g).
    { intros lb k s u x Hk (Hl & Hks & Ht)%fits_key. cbn [gn_labels gn_props n existsb] in *. rewrite orb_false_r in Hl. apply String.eqb_eq in Hl as ->.
      rewrite !od_get_cons in Hks, Ht. rewrite decide_False in Ht by (destruct Hkey as [->| ->]; done). rewrite decide_True in Ht by done. assert (uuid_str t = uuid_str u) as Htu by congruence.
      assert (k = key ∧ v = JStr s) as [-> ->].
      { destruct (decide (key = k)) as [->|]; [by injection Hks as ->|]. destruct (decide ("tenant_id"%string = k)) as [<-|]; [by destruct Hk|done]. }
      unfold key_pattern. rewrite <- Htu, Hm. apply not_elem_of_nil. }
    intros lb k s u a b Hk (m & Ha & Hfa)%in_match_node (m' & Hb & Hfb)%in_match_node. cbn [gr_nodes] in *.
    destruct (decide (id = a)) as [<-|Hna], (decide (id = b)) as [<-|Hnb]; [done| | |].
    + rewrite lookup_insert_eq in Ha. injection Ha as <-. rewrite lookup_insert_ne in Hb by done. destruct (Hnew lb k s u b Hk Hfa). apply in_match_node. by exists m'.
    + rewrite lookup_insert_eq in Hb. injection Hb as <-. rewrite lookup_insert_ne in Ha by done. destruct (Hnew lb k s u a Hk Hfb). apply in_match_node. by exists m.
    + rewrite lookup_insert_ne in Ha, Hb by done. apply (Huniq lb k s u); [done|apply in_match_node; by exists m|apply in_match_node; by exists m'].
  - intros [= <- <-]. split_and!; [done|apply within_refl|]. apply list.Forall_forall. intros id Hid. rewrite <- Hm in Hid. by apply match_of_tenant in Hid.
Qed.

(** *** SET *)

(** A node with the same labels and the same key. *)
Definition same_key (n n' : GraphNode) : Prop :=
  gn_labels n' = gn_labels n ∧ ∀ k, k ∈ ["id"; "name"; "tenant_id"]%string → od_get k (gn_props n') = od_get k (gn_props n).

Lemma set_node_same_key fields n : Forall (λ kv : string * json, kv.1 ∉ ["id"; "name"; "tenant_id"]%string) fields → same_key n (set_node fields n).
Proof.
  intros Hf. split; [done|]. intros k Hk. unfold set_node. cbn [gn_props]. revert Hf. generalize (gn_props n) as props.
  induction fields as [|[k' v] fields IH]; intros props Hf; [done|]. apply Forall_cons in Hf as [Hk' Hf]. cbn [foldl]. rewrite IH by done.
  assert (k' ≠ k) by (intros ->; done). unfold set_prop. cbn [fst snd]. destruct v; rewrite ?od_get_set, ?od_get_del; by rewrite decide_False.
Qed.

Lemma set_props_nodes fields ids g x : Forall (λ kv : string * json, kv.1 ∉ ["id"; "name"; "tenant_id"]%string) fields →
  option_Forall2 same_key (gr_nodes g !! x) (gr_nodes (set_props fields ids g) !! x) ∧ (x ∉ ids → gr_nodes (set_props fields ids g) !! x = gr_nodes g !! x).
Proof.
  intros Hf. unfold set_props. cbn [gr_nodes]. induction ids as [|i ids [IH IH']]; cbn [foldr].
  { split; [|done]. destruct (gr_nodes g !! x); constructor. by split. }
  destruct (decide (i = x)) as [<-|Hne].
  - rewrite lookup_alter_eq. split; [|intros Hi; destruct Hi; by left]. inversion IH as [n n' Hs|]; cbn; constructor. destruct Hs as [Hl Hk], (set_node_same_key fields n' Hf) as [Hl' Hk'].
    split; [by rewrite Hl'|]. intros k Hin. by rewrite Hk', Hk.
  - rewrite lookup_alter_ne by done. split; [done|]. intros Hx. apply IH'. intros ?. apply Hx. by right.
Qed.

Lemma set_props_within fields ids t g : Forall (λ kv : string * json, kv.1 ∉ ["id"; "name"; "tenant_id"]%string) fields →
  Forall (λ id, tenant_node g t id = true) ids → in_order g → in_order (set_props fields ids g) ∧ within t g (set_props fields ids g).
Proof.
  intros Hf Hids (Hrels & Hnd & Huniq). pose proof (λ x, set_props_nodes fields ids g x Hf) as Hx. set (g' := set_props fields ids g) in *.
  assert (Hsame : ∀ u x, tenant_node g' u x = tenant_node g u x).
  { intros u x. unfold tenant_node. destruct (Hx x) as [Hs _]. destruct (gr_nodes g !! x) as [n|], (gr_nodes g' !! x) as [n'|]; try by inversion Hs.
    assert (same_key n n') as [_ Hk] by (by inversion Hs). rewrite Hk by in_list. done. }
  assert (within t g g') as Hwi.
  { split.
    - intros x Ht _. apply Hx. intros Hin. rewrite list.Forall_forall in Hids. rewrite (Hids x Hin) in Ht. done.
    - intros x [n Hn]. destruct (Hx x) as [Hs _]. rewrite Hn in Hs. inversion Hs. by eexists.
    - intros x Hn [n' Hn']. destruct (Hx x) as [Hs _]. rewrite Hn, Hn' in Hs. inversion Hs.
    - intros u x _. apply Hsame.
    - exists []. by rewrite app_nil_r. }
  split; [|exact Hwi]. split_and!; [|done|].
  - eapply Forall_impl; [exact Hrels|]. intros r (u & Ha & Hb). exists u. by rewrite !Hsame.
  - assert (∀ label k s u x, k = "id"%string ∨ k = "name"%string → x ∈ match_node label (key_pattern k s u) g' → x ∈ match_node label (key_pattern k s u) g) as Hback.
    { intros label k s u x Hk (n' & Hn' & Hfit)%in_match_node. destruct (Hx x) as [Hs _]. rewrite Hn' in Hs.
      destruct (gr_nodes g !! x) as [n|] eqn:Hn; [|by inversion Hs]. assert (same_key n n') as [Hl Hkey] by (by inversion Hs).
      apply in_match_node. exists n. split; [done|]. apply fits_key. apply fits_key in Hfit. rewrite Hl, !Hkey in Hfit by (destruct Hk as [->| ->]; in_list). done. }
    intros label k s u a b Hk Ha Hb. apply (Huniq label k s u); auto.
Qed.

Lemma plain_fields fields : forallb (λ kv : string * json, bool_decide (kv.1 ∉ ["id"; "name"; "tenant_id"]%string)) fields = true →
  Forall (λ kv : string * json, kv.1 ∉ ["id"; "name"; "tenant_id"]%string) fields.
Proof.
  intros Hb. rewrite forallb_forall in Hb. apply list.Forall_forall. intros kv Hkv. apply list_elem_of_In, Hb in Hkv. by apply bool_decide_eq_true in Hkv.
Qed.

(** What SET leaves of the fields it was given. *)
Lemma set_node_fields fields n k v : NoDup (map fst fields) → (k, v) ∈ fields →
  od_get k (gn_props (set_node fields n)) = match v with JNull => None | _ => Some v end.
Proof.
  unfold set_node. cbn [gn_props]. generalize (gn_props n) as props. induction fields as [|[k' v'] fields IH]; intros props Hnd; [by intros ?%elem_of_nil|].
  cbn [map fst] in Hnd. apply NoDup_cons in Hnd as [Hk' Hnd]. intros [[= <- <-]|Hin]%elem_of_cons; [|by apply IH]. cbn [foldl].
  assert (∀ props, od_get k (foldl set_prop props fields) = od_get k props) as ->.
  { clear IH Hnd props. induction fields as [|[k2 v2] fields IH]; intros props; [done|]. cbn [map fst] in Hk'. apply not_elem_of_cons in Hk' as [Hne Hk']. cbn [foldl]. rewrite IH by done.
    unfold set_prop. cbn [fst snd]. destruct v2; rewrite ?od_get_set, ?od_get_del; by rewrite decide_False by congruence. }
  unfold set_prop. cbn [fst snd]. destruct v; rewrite ?od_get_set, ?od_get_del; by rewrite decide_True.
Qed.

Lemma set_props_applied fields ids g x : x ∈ ids → is_Some (gr_nodes g !! x) → ∃ n, gr_nodes (set_props fields ids g) !! x = Some (set_node fields n).
Proof.
  intros Hin Hs. unfold set_props. cbn [gr_nodes]. induction ids as [|i ids IH]; [by apply elem_of_nil in Hin|]. cbn [foldr].
  destruct (decide (i = x)) as [<-|Hne].
  - rewrite lookup_alter_eq. assert (is_Some (foldr (alter (set_node fields)) (gr_nodes g) ids !! i)) as [n ->]; [|by exists n].
    clear IH Hin. induction ids as [|j ids IH]; [done|]. cbn [foldr]. destruct (decide (j = i)) as [->|]; [rewrite lookup_alter_eq; by apply fmap_is_Some|by rewrite lookup_alter_ne].
  - rewrite lookup_alter_ne by done. apply elem_of_cons in Hin as [->|Hin]; [done|auto].
Qed.

(** An upsert leaves one node under its key, with the fields it was given. *)
Lemma upsert_once label id t fields g ids g1 : Forall (λ kv : string * json, kv.1 ∉ ["id"; "name"; "tenant_id"]%string) fields → NoDup (map fst fields) → in_order g →
  merge_node new_id label (node_key id t) g = Ret (ids, g1) →
  ∃ x n, (∀ y, y ∈ match_node label (node_key id t) (set_props fields ids g1) ↔ y = x) ∧ gr_nodes (set_props fields ids g1) !! x = Some n ∧
    ∀ k v, (k, v) ∈ fields → od_get k (gn_props n) = match v with JNull => None | _ => Some v end.
Proof.
  intros Hf Hnd Hord Hm. destruct (merge_node_within label "id" (JStr (uuid_str id)) t g ids g1 (or_introl eq_refl) Hord Hm) as (Hord1 & _ & Hids).
  assert (∃ x, x ∈ ids ∧ x ∈ match_node label (node_key id t) g1) as (x & Hx & Hxm).
  { unfold merge_node in Hm. destruct (match_node label (node_key id t) g) as [|a l] eqn:Hl.
    - destruct (forallb _ _); [|done]. injection Hm as <- <-. eexists. split; [by left|]. apply in_match_node. eexists. cbn [gr_nodes]. rewrite lookup_insert_eq. split; [done|].
      apply (fits_key label "id"). cbn [gn_labels gn_props existsb]. by rewrite String.eqb_refl.
    - injection Hm as <- <-. exists a. split; [by left|]. rewrite Hl. by left. }
  destruct (set_props_within fields ids t g1 Hf Hids Hord1) as [(_ & _ & Huniq) _].
  assert (x ∈ match_node label (node_key id t) (set_props fields ids g1)) as Hx'.
  { apply in_match_node in Hxm as (n & Hn & Hfit). destruct (set_props_nodes fields ids g1 x Hf) as [Hs _]. rewrite Hn in Hs.
    destruct (gr_nodes (set_props fields ids g1) !! x) as [n'|] eqn:Hn'; [|by inversion Hs]. assert (same_key n n') as [Hl Hkey] by (by inversion Hs).
    apply in_match_node. exists n'. split; [done|]. apply (fits_key label "id"). apply (fits_key label "id") in Hfit. rewrite Hl, !Hkey by in_list. done. }
  apply in_match_node in Hxm as (m & Hm1 & _). destruct (set_props_applied fields ids g1 x Hx) as [n Hn]; [by eexists|]. exists x, (set_node fields n). split_and!; [|done|].
  - intros y. split; [|by intros ->]. intros Hy. apply (Huniq label "id"%string (uuid_str id) t); [by left|done..].
  - intros k v Hk. by apply set_node_fields.
Qed.

(** *** MERGE of relationships *)

Lemma merge_rels_within t from type to g : Forall (λ id, tenant_node g t id = true) from → Forall (λ id, tenant_node g t id = true) to → in_order g →
  in_order (merge_rels from type to g) ∧ within t g (merge_rels from type to g).
Proof.
  intros Hfrom Hto (Hrels & Hnd & Huniq). set (pairs := flat_map (λ a, map (λ b, mkRelationship a type b) to) from).
  assert (Forall (λ r, tenant_node g t (rl_from r) = true ∧ tenant_node g t (rl_to r) = true) pairs) as Hpairs.
  { apply list.Forall_forall. intros r (a & Ha & (b & <- & Hb)%in_map_iff)%list_elem_of_In%in_flat_map. rewrite list.Forall_forall in Hfrom, Hto.
    split; [apply Hfrom|apply Hto]; by apply list_elem_of_In. }
  assert (∃ new, foldl merge_rel (gr_rels g) pairs = gr_rels g ++ new ∧ NoDup (gr_rels g ++ new) ∧
    Forall (λ r, tenant_node g t (rl_from r) = true ∧ tenant_node g t (rl_to r) = true) new) as (new & Heq & Hnd' & Hnew).
  { clear Hrels Huniq Hfrom Hto. revert Hpairs Hnd. generalize (gr_rels g) as rels. induction pairs as [|r pairs IH]; intros rels Hp Hnd.
    { exists []. by rewrite app_nil_r. }
    apply Forall_cons in Hp as [Hr Hp]. cbn [foldl]. unfold merge_rel at 2. destruct (decide (r ∈ rels)) as [|Hr'].
    - by apply IH.
    - destruct (IH (rels ++ [r]) Hp) as (new & -> & Hnd' & Hnew).
      { apply NoDup_app. split; [done|]. split; [|apply NoDup_singleton]. intros x Hx ->%list_elem_of_singleton. done. }
      exists (r :: new). rewrite <- app_assoc in Hnd' |- *. split_and!; [done..|]. by constructor. }
  split; [split_and!|split].
  - unfold merge_rels. cbn [gr_rels gr_nodes]. fold pairs. rewrite Heq. apply Forall_app. split; [done|]. eapply Forall_impl; [exact Hnew|]. intros r Hr. by exists t.
  - unfold merge_rels. cbn [gr_rels]. fold pairs. by rewrite Heq.
  - done.
  - done.
  - done.
  - intros id Hn [n Hs]. cbn in Hs. congruence.
  - done.
  - exists new. unfold merge_rels. cbn [gr_rels]. fold pairs. by rewrite Heq.
Qed.

(** *** Every write *)

Context `{PyRepr, OtherIso, LibPow} (row_order : list (string * nat) → list (string * nat)).
#[local] Instance the_graph : MemoryGraphRepository Neo4j := neo4j_memory_graph row_order new_id.

(** The node an upsert is of, and its fields. *)
Definition upserted (w : GraphWrite) : option (string * uuid * list (string * json)) :=
  match w with
  | WEpisode episode => Some ("Episode"%string, ep_id episode, episode_fields episode)
  | WFact fact => Some ("Fact"%string, sm_id fact, fact_fields fact)
  | _ => None
  end.

Lemma run_write_within t statement d : (∀ g g', in_order g → statement g = Ret g' → in_order g' ∧ within t g g') → in_order (db_graph d) →
  in_order (db_graph (run_write statement d).2) ∧ within t (db_graph d) (db_graph (run_write statement d).2).
Proof.
  intros Hst Hord. unfold run_write. destruct (db_fates d) as [|[] ?]; cbn [snd db_graph]; try (split; [done|apply within_refl]);
    (destruct (statement (db_graph d)) as [g|e] eqn:Hg; cbn [snd db_graph]; [by apply Hst|split; [done|apply within_refl]]).
Qed.

(** Statements one after the other, in the graph the one before left. *)
Ltac chain H := destruct H as [? ?]; split; [done|]; eapply within_trans; [eassumption|done].

Lemma graph_write_within t w d : in_order (db_graph d) →
  in_order (db_graph (run_graph_write t w d).2) ∧ within t (db_graph d) (db_graph (run_graph_write t w d).2).
Proof.
  assert (∀ label id g, Forall (λ x, tenant_node g t x = true) (match_node label (node_key id t) g)) as Hmatch.
  { intros label id g. apply list.Forall_forall. intros x. apply match_of_tenant. }
  assert (∀ g g' ids, within t g g' → Forall (λ x, tenant_node g t x = true) ids → Forall (λ x, tenant_node g' t x = true) ids) as Hlater.
  { intros g g' ids Hw Hids. eapply Forall_impl; [exact Hids|]. intros x Hx. by apply (within_of_tenant _ _ _ _ _ Hw). }
  destruct w; cbn [run_graph_write gr_upsert_episode_node gr_upsert_fact_node gr_set_fact_valid_until gr_set_fact_archived_at gr_link_participated_in
    gr_link_temporally_follows gr_link_mentions gr_link_abstracts_to the_graph neo4j_memory_graph];
    apply run_write_within; intros g g' Hord.
  - destruct (merge_node _ _ _ g) as [[ids g1]|e] eqn:Hm; cbn [mbind res_bind]; [|done]. intros [= <-].
    destruct (merge_node_within _ "id" _ t _ _ _ (or_introl eq_refl) Hord Hm) as (Hord1 & Hw1 & Hids).
    chain (set_props_within (episode_fields episode) ids t g1 (plain_fields (episode_fields episode) eq_refl) Hids Hord1).
  - destruct (merge_node _ _ _ g) as [[ids g1]|e] eqn:Hm; cbn [mbind res_bind]; [|done]. intros [= <-].
    destruct (merge_node_within _ "id" _ t _ _ _ (or_introl eq_refl) Hord Hm) as (Hord1 & Hw1 & Hids).
    chain (set_props_within (fact_fields fact) ids t g1 (plain_fields (fact_fields fact) eq_refl) Hids Hord1).
  - intros [= <-]. by apply set_props_within; [apply plain_fields| |].
  - intros [= <-]. by apply set_props_within; [apply plain_fields| |].
  - destruct (merge_node _ "User" _ g) as [[us g1]|e] eqn:Hu; cbn [mbind res_bind]; [|done]. destruct (merge_node _ "Session" _ g1) as [[ss g2]|e] eqn:Hs; cbn [mbind res_bind]; [|done].
    intros [= <-]. destruct (merge_node_within _ "id" _ t _ _ _ (or_introl eq_refl) Hord Hu) as (Hord1 & Hw1 & Hus).
    destruct (merge_node_within _ "id" _ t _ _ _ (or_introl eq_refl) Hord1 Hs) as (Hord2 & Hw2 & Hss).
    pose proof (within_trans _ _ _ _ Hw1 Hw2) as Hw. chain (merge_rels_within t us "PARTICIPATED_IN" ss g2 (Hlater _ _ _ Hw2 Hus) Hss Hord2).
  - intros [= <-]. by apply merge_rels_within.
  - destruct (match_node _ _ g) as [|ep eps] eqn:Hep; [intros [= <-]; split; [done|apply within_refl]|]. rewrite <- Hep. clear ep eps Hep.
    destruct (merge_node _ "Entity" _ g) as [[ents g1]|e] eqn:Hm; cbn [mbind res_bind]; [|done]. intros [= <-].
    destruct (merge_node_within _ "name" _ t _ _ _ (or_intror eq_refl) Hord Hm) as (Hord1 & Hw1 & Hents).
    chain (merge_rels_within t _ "MENTIONS" ents g1 (Hlater _ _ _ Hw1 (Hmatch "Episode"%string episode_id g)) Hents Hord1).
  - intros [= <-]. by apply merge_rels_within.
Qed.

(** C25: The graph's writes stay in their tenant. Start with a graph in order, which
    an empty one is: no relationship joins two tenants or is there twice, and no two
    nodes of a label share their key. Whichever methods run, for whatever tenants,
    and however each call ends, it stays in order, and each of them leaves every
    node of other tenants as it was, makes nodes and relationships of its own tenant
    only, removes none, and changes no node's tenant. An upsert that returns has
    left exactly one node under its key, with the fields it was given, a null being
    a field that is not there. *)
Theorem graph_writes_stay_in_their_tenant (ws : list (uuid * GraphWrite)) (d : Neo4j) t w : in_order (db_graph d) →
  let d1 := foldl (λ d tw, (run_graph_write tw.1 tw.2 d).2) d ws in
  let r := run_graph_write t w d1 in
  in_order (db_graph d1) ∧ in_order (db_graph r.2) ∧ within t (db_graph d1) (db_graph r.2) ∧
  match upserted w with
  | Some (label, id, fields) => r.1 = Ret tt → ∃ x n, (∀ y, y ∈ match_node label (node_key id t) (db_graph r.2) ↔ y = x) ∧
      gr_nodes (db_graph r.2) !! x = Some n ∧ ∀ k v, (k, v) ∈ fields → od_get k (gn_props n) = match v with JNull => None | _ => Some v end
  | None => True
  end.
Proof.
  intros Hord. cbv zeta. assert (in_order (db_graph (foldl (λ d tw, (run_graph_write tw.1 tw.2 d).2) d ws))) as Hord1.
  { revert d Hord. induction ws as [|[u v] ws IH]; intros d Hord; [done|]. cbn [foldl]. by apply IH, graph_write_within. }
  set (d1 := foldl _ d ws) in *. destruct (graph_write_within t w d1 Hord1) as [Hord2 Hw]. split_and!; [done..|].
  assert (∀ label id fields, NoDup (map fst fields) → Forall (λ kv : string * json, kv.1 ∉ ["id"; "name"; "tenant_id"]%string) fields →
    let r := run_write (λ g, '(ids, g) ← merge_node new_id label (node_key id t) g; Ret (set_props fields ids g)) d1 in
    r.1 = Ret tt → ∃ x n, (∀ y, y ∈ match_node label (node_key id t) (db_graph r.2) ↔ y = x) ∧
      gr_nodes (db_graph r.2) !! x = Some n ∧ ∀ k v, (k, v) ∈ fields → od_get k (gn_props n) = match v with JNull => None | _ => Some v end) as Hup.
  { intros label id fields Hnd Hf. cbv zeta. unfold run_write. destruct (db_fates d1) as [|[] ?]; try done;
      (destruct (merge_node new_id label (node_key id t) (db_graph d1)) as [[ids g]|e] eqn:Hm; cbn [mbind res_bind]; [|done]; intros Hr;
       first [discriminate Hr|cbn [snd db_graph]; by apply (upsert_once label id t fields (db_graph d1) ids g)]). }
  destruct w; try done.
  - refine (Hup "Episode"%string (ep_id episode) (episode_fields episode) _ _); [by apply (bool_decide_unpack _)|by apply plain_fields].
  - refine (Hup "Fact"%string (sm_id fact) (fact_fields fact) _ _); [by apply (bool_decide_unpack _)|by apply plain_fields].
Qed.
End writes.

(** ** A worked example *)

(** Text compares as text, and null and maps are not stored. *)
#[local] Instance text_values : CypherValues := {|
  cy_stored v := match v with JNull | JObj _ => false | _ => true end;
  cy_equal v w := match v, w with JStr a, JStr b => String.eqb a b | _, _ => false end
|}.
#[local] Instance no_repr : PyRepr := λ _, EmptyString.
#[local] Instance no_iso : OtherIso := λ _, Raise (ValueError "Invalid isoformat string").
#[local] Instance repeated_product : LibPow := λ x n, Nat.iter (Z.to_nat n) (fmul x) fone.

Lemma text_equal v s : cy_equal v (JStr s) = true ↔ v = JStr s.
Proof. destruct v; cbn; try (split; discriminate). rewrite String.eqb_eq. split; [by intros ->|by intros [= ->]]. Qed.

(** An element id longer than every other. *)
Definition next_id (nodes : gmap string GraphNode) : string := String "n" (foldr (λ kn s, kn.1 +:+ s)%string EmptyString (map_to_list nodes)).

Lemma next_id_unused nodes : nodes !! next_id nodes = None.
Proof.
  destruct (nodes !! next_id nodes) as [n|] eqn:Hn; [|done]. exfalso. apply elem_of_map_to_list in Hn. unfold next_id in Hn.
  assert (∀ l, (String "n" (foldr (λ kn s, kn.1 +:+ s)%string EmptyString (map_to_list nodes)), n) ∈ l →
    (slen (String "n" (foldr (λ kn s, kn.1 +:+ s)%string EmptyString (map_to_list nodes))) ≤ slen (foldr (λ (kn : string * GraphNode) s, kn.1 +:+ s)%string EmptyString l))%nat) as Hle.
  { induction l as [|[k m] l IH]; [by intros ?%elem_of_nil|]. intros [[= <- _]|Hl]%elem_of_cons; cbn [foldr fst]; rewrite sapp_length; [lia|specialize (IH Hl); lia]. }
  specialize (Hle _ Hn). cbn [String.length] in Hle. lia.
Qed.

Definition empty_graph : Neo4j := mkNeo4j (mkGraph ∅ []) [].

Lemma empty_in_order : in_order (db_graph empty_graph).
Proof. split_and!; [constructor|constructor|]. intros label key value t a b _ (n & Hn & _)%in_match_node. cbn in Hn. by rewrite lookup_empty in Hn. Qed.

Definition walk_in_park (id : uuid) : EpisodicMemory := mkEpisode id 50 [("text", JStr "a walk")]%string [] 0 fzero None.
Definition likes_walks : SemanticMemory := mkFact 5 60 "likes" "walks" [] fone "chat" None None.

(** Tenant 1 has two episodes that mention the dog, and a fact made from the
    second; tenant 2 has a dog of its own. *)
Definition dog_writes : list (uuid * GraphWrite) :=
  [(1, WEpisode (walk_in_park 7)); (1, WMentions 7 (JStr "dog")); (1, WEpisode (walk_in_park 8)); (1, WMentions 8 (JStr "dog"));
   (1, WFact likes_walks); (1, WAbstracts 8 5); (2, WEpisode (walk_in_park 9)); (2, WMentions 9 (JStr "dog"))].

#[local] Instance dog_store : MemoryGraphRepository Neo4j := neo4j_memory_graph id next_id.
Definition dog_graph : Neo4j := foldl (λ d tw, (run_graph_write tw.1 tw.2 d).2) empty_graph dog_writes.

Definition near_the_dog (max_hops : Z) (threshold : f64) : res (list (string * f64 * Z)) :=
  map (λ a, (an_node_type a, an_activation a, an_hops a)) <$> (spread_activation id 1 ["dog"%string] max_hops (flit 1 2) threshold dog_graph).1.

Example dog_reached : (near_the_dog 2 (flit 5 100), near_the_dog 1 (flit 5 100), near_the_dog 3 fone, near_the_dog 11 fzero) =
  (Ret [("Entity", fone, 0); ("Episode", flit 1 2, 1); ("Episode", flit 1 2, 1); ("Fact", flit 1 4, 2)],
   Ret [("Entity", fone, 0); ("Episode", flit 1 2, 1); ("Episode", flit 1 2, 1)],
   Ret [("Entity", fone, 0)], Raise (ValueError "max_hops must be between 1 and 10"))%string.
Proof. vm_compute. reflexivity. Qed.

Lemma dogs_told_apart : told_apart (db_graph dog_graph) 1.
Proof. apply (bool_decide_unpack _). vm_compute. exact I. Qed.

Lemma spread_activation_finds_what_is_near_witness :
  ∃ out, (spread_activation id 1 ["dog"%string] 2 (flit 1 2) (flit 5 100) dog_graph).1 = Ret out ∧ length out = 4%nat ∧ NoDup (map an_node_id out).
Proof.
  destruct (spread_activation_finds_what_is_near id (λ l, Permutation_refl l) 1 ["dog"%string] 2 (flit 1 2) (flit 5 100) dog_graph dogs_told_apart) as [_ Hnear].
  destruct (Hnear eq_refl) as (_ & Hout & _).
  destruct (spread_activation id 1 ["dog"%string] 2 (flit 1 2) (flit 5 100) dog_graph).1 as [out|e] eqn:Hr.
  - exists out. split; [done|]. split; [|by apply Hout].
    assert ((length <$> (spread_activation id 1 ["dog"%string] 2 (flit 1 2) (flit 5 100) dog_graph).1) = Ret 4%nat) as Hlen by (vm_compute; reflexivity).
    rewrite Hr in Hlen. by injection Hlen.
  - exfalso. assert (match (spread_activation id 1 ["dog"%string] 2 (flit 1 2) (flit 5 100) dog_graph).1 with Ret _ => True | Raise _ => False end) as Hret by (vm_compute; exact I).
    by rewrite Hr in Hret.
Defined.

(** A second upsert of an episode is no second node. *)
Lemma graph_writes_stay_in_their_tenant_witness :
  in_order (db_graph dog_graph) ∧ ∃ x, ∀ y,
    y ∈ match_node "Episode" (node_key 7 1) (db_graph (run_graph_write 1 (WEpisode (walk_in_park 7)) dog_graph).2) ↔ y = x.
Proof.
  destruct (graph_writes_stay_in_their_tenant next_id text_equal next_id_unused id dog_writes empty_graph 1 (WEpisode (walk_in_park 7)) empty_in_order) as (Hord & _ & _ & Hup).
  split; [exact Hord|]. cbn [upserted] in Hup. destruct Hup as (x & n & Hx & _); [vm_compute; reflexivity|]. by exists x.
Defined.
