(* ===== verification/Uploads.v ===== *)
(** * Uploading documents

    rag/application/upload_document.py and upload_document_with_parents.py over
    rag/infrastructure/text_extractor.py, local_file_storage.py, the chunkers,
    and the document stores; the routes of api/routers/documents.py and their
    schemas (api/schemas/documents.py).  pypdf, the
    file system's refusals and Unicode's case table are parameters. *)

From Stdlib Require Import ZArith Lia Ascii String Floats.SpecFloat.
From S2P Require Import Prelude PyFloat PyStr Digest Json RagPorts SemanticStore Chunking DocumentStore RagRetrieval.

(** ** [bytes.decode("utf-8", errors="replace")] *)

Definition byte_char (b : Z) : ascii := ascii_of_N (Z.to_N b).
Definition replacement : string := of_codes [239; 191; 189]%N.

(** How many continuation bytes a lead byte asks for, and the range of the first. *)
Definition lead (b : Z) : option (nat * (Z * Z)) :=
  if (194 <=? b) && (b <=? 223) then Some (1%nat, (128, 191))
  else if b =? 224 then Some (2%nat, (160, 191))
  else if b =? 237 then Some (2%nat, (128, 159))
  else if (225 <=? b) && (b <=? 239) then Some (2%nat, (128, 191))
  else if b =? 240 then Some (3%nat, (144, 191))
  else if (241 <=? b) && (b <=? 243) then Some (3%nat, (128, 191))
  else if b =? 244 then Some (3%nat, (128, 143))
  else None.

(** The continuation bytes that are there, at most [n]. *)
Fixpoint continuation (n : nat) (range : Z * Z) (l : list Z) : list Z :=
  match n, l with
  | S n', b :: l' => if (range.1 <=? b) && (b <=? range.2) then b :: continuation n' (128, 191) l' else []
  | _, _ => []
  end.

(** A sequence that breaks off is replaced as a whole; every step uses up a byte. *)
Fixpoint utf8_replace (fuel : nat) (l : list Z) : string :=
  match fuel, l with
  | S fuel, b :: l' =>
      if b <? 128 then String (byte_char b) (utf8_replace fuel l')
      else match lead b with
           | None => (replacement +:+ utf8_replace fuel l')%string
           | Some (n, range) =>
               let more := continuation n range l' in
               let rest := utf8_replace fuel (drop (length more) l') in
               if (length more =? n)%nat then (string_of_list_ascii (map byte_char (b :: more)) +:+ rest)%string
               else (replacement +:+ rest)%string
           end
  | _, _ => EmptyString
  end.
Definition decode_replace (content : list Z) : string := utf8_replace (length content) content.

Example decode_replace_example :
  decode_replace [97; 195; 169; 255; 226; 130; 98; 240; 159; 152] = (of_codes [97; 195; 169]%N +:+ replacement +:+ replacement +:+ "b" +:+ replacement)%string.
Proof. vm_compute. reflexivity. Qed.

(** ** TextExtractor *)

(** pypdf: the text of each page, if it has one. *)
Class PdfReader : Type := pdf_pages : list Z → res (list (option string)).

(** [s.rsplit(".", 1)[-1]]. *)
Definition after_last_dot (s : string) : string := List.last (split_on "." s) EmptyString.

Definition extension_of `{CaseTable} (filename : string) : string :=
  if mem_char "." filename then ("." +:+ str_lower (after_last_dot filename))%string else EmptyString.

Definition extract `{PdfReader, CaseTable} (filename : string) (content : list Z) : res string :=
  let extension := extension_of filename in
  if String.eqb extension ".txt" then Ret (decode_replace content)
  else if String.eqb extension ".pdf" then
    pages ← pdf_pages content;
    Ret (join (String (ascii_of_N 10) EmptyString) (map (default EmptyString) pages))
  else Raise (UnsupportedFileType (if String.eqb extension EmptyString then filename else extension)).

(** ** LocalFileStorage *)

(** The components of a POSIX path. *)
Definition path_parts (s : string) : list string := filter (λ p, p ≠ EmptyString ∧ p ≠ "."%string) (split_on "/" s).

(** [Path(filename).name]. *)
Definition path_name (filename : string) : string := List.last (path_parts filename) EmptyString.

(** Files by the components of their paths; [os_error] is what the system says
    of a write to a path. *)
Abbreviation Files := (gmap (list string) (list Z)) (only parsing).

Definition document_directory (tenant_id document_id : uuid) : list string := ["storage"%string; uuid_str tenant_id; uuid_str document_id].

(** An empty name leaves the directory itself. *)
Definition storage_path (tenant_id document_id : uuid) (filename : string) : list string :=
  document_directory tenant_id document_id ++ (if String.eqb (path_name filename) EmptyString then [] else [path_name filename]).

Definition is_a_directory : exn := BackendError "IsADirectoryError".

Definition storage_save (os_error : list string → option exn) (tenant_id document_id : uuid) (filename : string) (content : list Z) : stm Files string := λ files,
  let path := storage_path tenant_id document_id filename in
  match os_error path with
  | Some e => (Raise e, files)
  | None =>
      if decide (path = document_directory tenant_id document_id ∨ path_name filename = ".."%string) then (Raise is_a_directory, files)
      else (Ret (join "/" path), <[path := content]> files)
  end.

(** ** The use cases *)

Record Uploads (D V K E : Type) : Type := mkUploads {
  up_documents : D;
  up_vectors : V;
  up_chunker : K;
  up_embedder : E;
  up_files : Files;
  up_uuids : nat → uuid;
  up_issued : nat
}.
Arguments mkUploads {D V K E}.
Arguments up_documents {D V K E}.
Arguments up_vectors {D V K E}.
Arguments up_chunker {D V K E}.
Arguments up_embedder {D V K E}.
Arguments up_files {D V K E}.
Arguments up_uuids {D V K E}.
Arguments up_issued {D V K E}.

(** [chunk_with_parents], behind whatever state the chunker has. *)
Class ParentChunker (K : Type) : Type := with_parents : string → stm K ParentChildChunks.

Section upload.
Context {D V K E : Type} `{DocumentRepository D, VectorStore V, EmbeddingModel E, PdfReader, CaseTable} (os_error : list string → option exn).
Abbreviation Up := (Uploads D V K E) (only parsing).

Definition on_documents {A} (m : stm D A) : stm Up A := λ s,
  let '(r, x) := m (up_documents s) in (r, mkUploads x (up_vectors s) (up_chunker s) (up_embedder s) (up_files s) (up_uuids s) (up_issued s)).
Definition on_vectors {A} (m : stm V A) : stm Up A := λ s,
  let '(r, x) := m (up_vectors s) in (r, mkUploads (up_documents s) x (up_chunker s) (up_embedder s) (up_files s) (up_uuids s) (up_issued s)).
Definition on_chunker {A} (m : stm K A) : stm Up A := λ s,
  let '(r, x) := m (up_chunker s) in (r, mkUploads (up_documents s) (up_vectors s) x (up_embedder s) (up_files s) (up_uuids s) (up_issued s)).
Definition on_embedder {A} (m : stm E A) : stm Up A := λ s,
  let '(r, x) := m (up_embedder s) in (r, mkUploads (up_documents s) (up_vectors s) (up_chunker s) x (up_files s) (up_uuids s) (up_issued s)).
Definition on_files {A} (m : stm Files A) : stm Up A := λ s,
  let '(r, x) := m (up_files s) in (r, mkUploads (up_documents s) (up_vectors s) (up_chunker s) (up_embedder s) x (up_uuids s) (up_issued s)).
Definition up_uuid4 : stm Up uuid := λ s,
  (Ret (up_uuids s (up_issued s)), mkUploads (up_documents s) (up_vectors s) (up_chunker s) (up_embedder s) (up_files s) (up_uuids s) (S (up_issued s))).

(** [filename.lower().endswith(".pdf")]. *)
Definition endswith (suffix s : string) : bool := startswith (rev_string suffix) (rev_string s).
Definition mime_type_of (filename : string) : string := if endswith ".pdf" (str_lower filename) then "application/pdf" else "text/plain".

Definition uploaded (id tenant_id : uuid) (filename path : string) (chunk_count : Z) (status : DocumentStatus) : Document :=
  mkDocument id tenant_id filename (mime_type_of filename) path chunk_count status None.

(** Up to the saved row: the text, the id, the stored path. *)
Definition begin_upload (tenant_id : uuid) (filename : string) (content : list Z) : stm Up (string * uuid * string) :=
  text ← lift_res (extract filename content);
  document_id ← up_uuid4;
  path ← on_files (storage_save os_error tenant_id document_id filename content);
  on_documents (dr_save_document (uploaded document_id tenant_id filename path 0 Processing));;
  mret (text, document_id, path).

(** One round of the loop: embedded, given an id, upserted. *)
Definition index_chunk (tenant_id document_id : uuid) (text : string) (parent_id : option uuid) : stm Up Chunk :=
  embedding ← on_embedder (embed text);
  id ← up_uuid4;
  let c := mkChunk id document_id text embedding parent_id ∅ in
  on_vectors (vs_upsert c tenant_id);;
  mret c.

Definition finish_upload (tenant_id document_id : uuid) (filename path : string) (chunks : list Chunk) (chunk_count : Z) : stm Up Document :=
  on_documents (dr_save_chunks chunks tenant_id);;
  on_documents (dr_update_document_status document_id Completed chunk_count);;
  mret (uploaded document_id tenant_id filename path chunk_count Completed).

Definition UploadDocument_execute `{Chunker K} (tenant_id : uuid) (filename : string) (content : list Z) : stm Up Document :=
  '(text, document_id, path) ← begin_upload tenant_id filename content;
  chunk_texts ← on_chunker (chunk text);
  chunks ← for_each chunk_texts (λ t, index_chunk tenant_id document_id t None);
  finish_upload tenant_id document_id filename path chunks (Z.of_nat (length chunks)).

Definition _EMBEDDING_DIM : nat := 384.

Definition parent_chunk (document_id : uuid) (parent_text : string) : stm Up Chunk :=
  id ← up_uuid4;
  mret (mkChunk id document_id parent_text (replicate _EMBEDDING_DIM fzero) None ∅).

(** A child is indexed under its parent's id. *)
Definition index_child (tenant_id document_id : uuid) (parent_chunks : list Chunk) (child : string * nat) : stm Up Chunk :=
  embedding ← on_embedder (embed child.1);
  id ← up_uuid4;
  parent ← lift_res (match parent_chunks !! child.2 with Some p => Ret p | None => Raise IndexError end);
  let c := mkChunk id document_id child.1 embedding (Some (RagPorts.chunk_id parent)) ∅ in
  on_vectors (vs_upsert c tenant_id);;
  mret c.

Definition UploadDocumentWithParents_execute `{ParentChunker K} (tenant_id : uuid) (filename : string) (content : list Z) : stm Up Document :=
  '(text, document_id, path) ← begin_upload tenant_id filename content;
  result ← on_chunker (with_parents text);
  parent_chunks ← for_each (pc_parents result) (parent_chunk document_id);
  child_chunks ← for_each (pc_children result) (index_child tenant_id document_id parent_chunks);
  finish_upload tenant_id document_id filename path (parent_chunks ++ child_chunks) (Z.of_nat (length child_chunks)).
End upload.

(** ** The routes *)

Definition _MAX_UPLOAD_BYTES : Z := 10 * 1024 * 1024.

Section routes.
Context {V K E : Type} `{VectorStore V, EmbeddingModel E, Chunker K, PdfReader, CaseTable} (os_error : list string → option exn) (accepts : Chunk → bool).
Abbreviation Up := (Uploads PostgresDocuments V K E) (only parsing).
#[local] Instance upload_repository : DocumentRepository PostgresDocuments := postgres_documents accepts.

(** [get_db_session] opens a session in the caller's tenant; the route commits
    at its end, and what it did before an exception is rolled back.  Files and
    vectors are not part of the transaction. *)
Definition in_request {A} (tenant_id : uuid) (m : stm Up A) : stm Up A := λ s,
  let db := up_documents s in
  let set_db x (s : Up) := mkUploads x (up_vectors s) (up_chunker s) (up_embedder s) (up_files s) (up_uuids s) (up_issued s) in
  match m (set_db (mkPgDocuments (pg_documents db) (pg_chunks db) tenant_id) s) with
  | (Ret a, s') => (Ret a, set_db (mkPgDocuments (pg_documents (up_documents s')) (pg_chunks (up_documents s')) (pg_tenant db)) s')
  | (Raise e, s') => (Raise e, set_db db s')
  end.

Definition upload (tenant_id : uuid) (filename : option string) (content : list Z) : stm Up Document :=
  if _MAX_UPLOAD_BYTES <? Z.of_nat (length content) then raise (HTTPException 413 "File too large")
  else
    let filename := match filename with None | Some EmptyString => "upload"%string | Some f => f end in
    in_request tenant_id (UploadDocument_execute os_error tenant_id filename content).
End routes.

(** ** Searching *)

(** A search's body: [top_k] is five when the body leaves it out. *)
Record SearchRequest : Type := mkSearchRequest { rq_query : string; rq_top_k : Z }.
Definition search_request (query : string) (top_k : option Z) : option SearchRequest :=
  let top_k := default 5 top_k in
  if (1 <=? top_k) && (top_k <=? 50) then Some (mkSearchRequest query top_k) else None.

Record SearchResultSchema : Type := mkSearchResultSchema { sw_document_id : uuid; sw_chunk_id : uuid; sw_content : string; sw_score : f64 }.
Definition result_schema (r : SearchResult) : SearchResultSchema :=
  mkSearchResultSchema (sr_document_id r) (sr_chunk_id r) (sr_content r) (sr_score r).

Record UploadResponse : Type := mkUploadResponse { uw_id : uuid; uw_filename : string; uw_status : DocumentStatus; uw_chunk_count : Z }.
Definition upload_response (document : Document) : UploadResponse :=
  mkUploadResponse (doc_id document) (doc_filename document) (doc_status document) (doc_chunk_count document).

Definition search {E V} `{EmbeddingModel E, VectorStore V} (tenant_id : uuid) (payload : SearchRequest) : stm (SearchDocuments E V) (list SearchResultSchema) :=
  results ← SearchDocuments_execute tenant_id (rq_query payload) (rq_top_k payload);
  mret (map result_schema results).

(** A body the schema accepts asks for at least one neighbour and at most fifty:
    over a store that returns no more than it is asked for, so does the route. *)
Lemma search_is_bounded {E V} `{EmbeddingModel E, VectorStore V} tenant_id query top_k payload :
  (∀ v t k, yields (λ found, Z.of_nat (length found) ≤ Z.max 0 k) (vs_search v t k : stm V _)) →
  search_request query top_k = Some payload →
  yields (λ results, Z.of_nat (length results) ≤ 50) (search (E := E) (V := V) tenant_id payload).
Proof.
  intros Hstore Hreq. unfold search_request in Hreq. destruct ((_ <=? _) && _) eqn:Hk; [|done]. injection Hreq as <-. cbn in Hk.
  unfold search. cbn [rq_query rq_top_k].
  apply (yields_bind (λ found, Z.of_nat (length found) ≤ 50)); [|intros found Hlen; apply yields_ret; by rewrite length_map].
  intros s. unfold SearchDocuments_execute. destruct (embed query (sd_embedder s)) as [[e|e] emb]; [|exact I].
  pose proof (Hstore e tenant_id (default 5 top_k) (sd_vector_store s)) as Hlen.
  destruct (vs_search e tenant_id (default 5 top_k) (sd_vector_store s)) as [[found|x] v]; [|exact I].
  cbn in Hlen |- *. lia.
Qed.

(** ** Where a file lands *)

(** One component, that stays where it is put. *)
Definition plain_name (name : string) : Prop := name ≠ EmptyString ∧ name ≠ "."%string ∧ name ≠ ".."%string ∧ mem_char "/" name = false.

Lemma last_in (l : list string) : List.last l EmptyString ≠ EmptyString → List.last l EmptyString ∈ l.
Proof.
  induction l as [|x l IH]; [done|]. destruct l as [|y l]; [intros _; by left|]. intros Hl. right. by apply IH.
Qed.

Lemma path_name_plain filename : path_name filename ≠ EmptyString → path_name filename ≠ ".."%string → plain_name (path_name filename).
Proof.
  intros Hne Hdots. pose proof (last_in _ Hne) as Hin. fold (path_name filename) in Hin. unfold path_parts in Hin.
  apply list_elem_of_filter in Hin as [[_ Hdot] Hin]. apply split_on_free in Hin. by split_and!.
Qed.

Lemma storage_save_spec os_error t d filename content files path files' : storage_save os_error t d filename content files = (Ret path, files') →
  plain_name (path_name filename) ∧ path = join "/" (document_directory t d ++ [path_name filename]) ∧
  files' = <[document_directory t d ++ [path_name filename] := content]> files.
Proof.
  unfold storage_save. destruct (os_error _); [done|]. destruct (decide _) as [|Hok]; [done|]. intros [= <- <-].
  unfold storage_path in *. destruct (String.eqb_spec (path_name filename) EmptyString) as [He|Hne].
  - exfalso. apply Hok. left. by rewrite app_nil_r.
  - split; [|done]. apply path_name_plain; [done|]. intros Hd. apply Hok. by right.
Qed.

(** ** What an upload leaves behind *)

Section uploaded.
Context {K E : Type} `{EmbeddingModel E, Chunker K, PdfReader, CaseTable} (os_error : list string → option exn) (accepts : Chunk → bool).
Context (nearest : list f64 → Z → gmap uuid Point → list (uuid * f64)).
Abbreviation Up := (Uploads PostgresDocuments Qdrant K E) (only parsing).
#[local] Instance uploaded_repository : DocumentRepository PostgresDocuments := postgres_documents accepts.
#[local] Instance uploaded_store : VectorStore Qdrant := qdrant_documents nearest.

Definition up_next_ids (n : nat) (s : Up) : list uuid := map (up_uuids s) (seq (up_issued s) n).

(** Neither the rows nor the files. *)
Definition rows_and_files_kept (s s' : Up) : Prop := up_documents s' = up_documents s ∧ up_files s' = up_files s.

Lemma index_chunk_spec t d piece (s s' : Up) c : index_chunk t d piece None s = (Ret c, s') →
  rows_and_files_kept s s' ∧ up_uuids s' = up_uuids s ∧ up_issued s' = S (up_issued s) ∧ qd_points (up_vectors s') = <[RagPorts.chunk_id c := point_of c t]> (qd_points (up_vectors s)) ∧
  RagPorts.chunk_id c = up_uuids s (up_issued s) ∧ chunk_content c = piece ∧ chunk_document_id c = d ∧ chunk_parent_id c = None.
Proof.
  unfold index_chunk, on_embedder, up_uuid4, mbind, stm_bind. destruct (embed piece (up_embedder s)) as [[v|e] m]; [|done].
  cbn [vs_upsert uploaded_store qdrant_documents]. unfold on_vectors, qd_upsert. cbn.
  match goal with |- context [qd_call ?w ?q] => destruct (qd_call_cases w q) as [[fs ->]|[[fs ->]|[fs ->]]] end; [|done|done].
  intros [= <- <-]. by split_and!.
Qed.

Lemma index_chunks_spec t d pieces (s s' : Up) cs : for_each pieces (λ p, index_chunk t d p None) s = (Ret cs, s') →
  rows_and_files_kept s s' ∧ chunks_of d pieces (up_next_ids (length pieces) s) cs ∧ qd_points (up_vectors s') = upserted t cs (qd_points (up_vectors s)).
Proof.
  revert s s' cs. induction pieces as [|piece pieces IH]; intros s s' cs; cbn [for_each].
  { intros [= <- <-]. split; [done|]. split; [|done]. unfold chunks_of. split_and!; [done|done|constructor]. }
  intros (c & s1 & Hone & Hrest)%stm_bind_inv. apply stm_bind_inv in Hrest as (cs' & s2 & Hrest & [= <- <-]).
  apply index_chunk_spec in Hone as ([Hdb1 Hf1] & Hu & Hn & Hq & Hid & Hcontent & Hdoc & Hparent).
  apply IH in Hrest as ([Hdb2 Hf2] & (Hids & Hcontents & Hall) & Hq2). split; [split; congruence|]. split.
  - unfold chunks_of, up_next_ids in *. cbn [map length seq]. rewrite Hids, Hcontents, Hid, Hcontent, Hu, Hn. split_and!; [done|done|by constructor].
  - rewrite Hq2, Hq. done.
Qed.

Lemma begin_upload_spec t filename content (s s' : Up) text d path : pg_tenant (up_documents s) = t →
  begin_upload os_error t filename content s = (Ret (text, d, path), s') →
  extract filename content = Ret text ∧ d = up_uuids s (up_issued s) ∧ plain_name (path_name filename) ∧
  path = join "/" (document_directory t d ++ [path_name filename]) ∧
  pg_documents (up_documents s) !! d = None ∧
  s' = mkUploads (set_documents (<[d := uploaded d t filename path 0 Processing]> (pg_documents (up_documents s))) (up_documents s)) (up_vectors s) (up_chunker s) (up_embedder s)
         (<[document_directory t d ++ [path_name filename] := content]> (up_files s)) (up_uuids s) (S (up_issued s)).
Proof.
  intros Ht Hrun. unfold begin_upload in Hrun. destruct (extract filename content) as [txt|e] eqn:Hx; [|done]. rewrite stm_lift_bind in Hrun.
  unfold up_uuid4, mbind, stm_bind, on_files in Hrun. cbn [up_files] in Hrun.
  destruct (storage_save _ _ _ _ _ _) as [[p|e] files] eqn:Hsave in Hrun; [|done]. apply storage_save_spec in Hsave as (Hplain & -> & ->).
  cbn [dr_save_document uploaded_repository postgres_documents] in Hrun. unfold on_documents, pg_save_document, get_st, modify, mbind, stm_bind in Hrun. cbn in Hrun.
  rewrite decide_True in Hrun by done. destruct (pg_documents (up_documents s) !! _) eqn:Hnone; [done|]. injection Hrun as <- <- <- <-. by split_and!.
Qed.

Lemma finish_upload_spec t d filename path chunks n (s s' : Up) doc :
  finish_upload t d filename path chunks n s = (Ret doc, s') →
  doc = uploaded d t filename path n Completed ∧ up_vectors s' = up_vectors s ∧ up_files s' = up_files s ∧
  ∃ p, pg_chunks p = inserted t chunks (pg_chunks (up_documents s)) ∧ pg_documents p = pg_documents (up_documents s) ∧ pg_tenant p = pg_tenant (up_documents s) ∧
    up_documents s' = (pg_update_document_status d Completed n p).2.
Proof.
  intros Hrun. unfold finish_upload in Hrun. apply stm_bind_inv in Hrun as ([] & s1 & Hsave & Hrun).
  apply stm_bind_inv in Hrun as ([] & s2 & Hupd & [= <- <-]). split; [done|].
  cbn [dr_save_chunks dr_update_document_status uploaded_repository postgres_documents] in Hsave, Hupd.
  unfold on_documents in Hsave, Hupd. destruct (pg_save_chunks accepts chunks t (up_documents s)) as [r p] eqn:Hp. injection Hsave as -> <-.
  unfold pg_save_chunks in Hp. apply stm_bind_inv in Hp as (us & p' & Hp & [= <-]). apply insert_chunks_spec in Hp as ->.
  cbn [up_documents] in Hupd. destruct (pg_update_document_status _ _ _ _) as [r p2] eqn:Hp2 in Hupd. injection Hupd as -> <-.
  split; [done|split; [done|]]. exists (set_chunks (inserted t chunks (pg_chunks (up_documents s))) (up_documents s)). split_and!; [done|done|done|]. cbn [up_documents set_chunks pg_chunks pg_documents pg_tenant]. by rewrite Hp2.
Qed.

(** C18: An upload that answers is complete: the text is what the extractor made
    of the bytes, every piece the chunker cut of it is a chunk of the new
    document, under its own id, in the tenant's rows and in the vector store,
    which otherwise keep what they held, and the row says completed and how many.
    The bytes lie under the tenant's and the document's own directory, in a file
    whose name is one plain component, whatever path the client sent, and no
    other file changed. An upload that fails leaves the rows as they were, and a
    file type the extractor does not know leaves everything as it was. *)
Theorem uploads_are_complete t filename content (s : Up) :
  let db := up_documents s in
  match in_request t (UploadDocument_execute os_error t filename content) s with
  | (Ret doc, s') => ∃ text pieces k chunks,
      let d := up_uuids s (up_issued s) in
      let file := document_directory t d ++ [path_name filename] in
      extract filename content = Ret text ∧ chunk text (up_chunker s) = (Ret pieces, k) ∧
      chunks_of d pieces (map (up_uuids s) (seq (S (up_issued s)) (length pieces))) chunks ∧
      doc = uploaded d t filename (join "/" file) (Z.of_nat (length pieces)) Completed ∧
      plain_name (path_name filename) ∧ up_files s' = <[file := content]> (up_files s) ∧
      pg_documents db !! d = None ∧
      up_documents s' = mkPgDocuments (<[d := doc]> (pg_documents db)) (inserted t chunks (pg_chunks db)) (pg_tenant db) ∧
      qd_points (up_vectors s') = upserted t chunks (qd_points (up_vectors s))
  | (Raise e, s') => up_documents s' = db ∧ (extract filename content = Raise e → s' = s)
  end.
Proof.
  intros db. unfold in_request. set (s0 := mkUploads _ _ _ _ _ _ _).
  destruct (UploadDocument_execute os_error t filename content s0) as [[doc|e] s'] eqn:Hrun; cycle 1.
  { split; [done|]. intros Hx. unfold UploadDocument_execute, begin_upload in Hrun. rewrite Hx in Hrun. injection Hrun as <-. by destruct s. }
  unfold UploadDocument_execute in Hrun. apply stm_bind_inv in Hrun as ([[text d] path] & s1 & Hbegin & Hrun).
  apply begin_upload_spec in Hbegin as (Hx & Hd & Hplain & -> & Hnone & ->); [|done].
  apply stm_bind_inv in Hrun as (pieces & s2 & Hchunk & Hrun). unfold on_chunker in Hchunk. cbn [up_chunker s0] in Hchunk.
  destruct (chunk text (up_chunker s)) as [r k] eqn:Hk. injection Hchunk as -> <-.
  apply stm_bind_inv in Hrun as (chunks & s3 & Hindex & Hrun). apply index_chunks_spec in Hindex as ([Hrows Hfiles] & Hchunks & Hpoints).
  apply finish_upload_spec in Hrun as (-> & Hvectors & Hfiles' & p & Hpc & Hpd & Hpt & Hdocs).
  assert (length chunks = length pieces) as Hlen by (destruct Hchunks as (_ & <- & _); by rewrite length_map).
  rewrite Hrows in Hpc, Hpd, Hpt. cbn [up_documents set_documents pg_chunks pg_documents pg_tenant s0] in *. rewrite Hlen in *.
  exists text, pieces, k, chunks. subst d. cbn zeta. split_and!; try done.
  - by rewrite Hfiles', Hfiles.
  - rewrite Hdocs. unfold pg_update_document_status, modify. cbn [snd]. rewrite Hpd, lookup_insert_eq. cbn [doc_tenant_id uploaded]. rewrite Hpt.
    rewrite decide_True by done. cbn [set_documents pg_documents pg_chunks pg_tenant]. by rewrite insert_insert_eq, Hpc.
  - cbn [up_vectors]. rewrite Hvectors. exact Hpoints.
Qed.
End uploaded.

(** Whatever path a client sends, one component of it is left. *)
Example stored_names :
  map path_name ["../../src/api/main.txt"; "/etc/passwd.txt"; "a/b.pdf/"; "..txt"; ".."; "./."; ""]%string =
    ["main.txt"; "passwd.txt"; "b.pdf"; "..txt"; ".."; ""; ""]%string.
Proof. vm_compute. reflexivity. Qed.
