(* ===== verification/Jobs.v ===== *)
(** * Ingestion jobs

    api/routers/data_sources.py, workers/celery_ingestion_dispatcher.py and
    workers/ingestion_worker.py: the route submits a job, the dispatcher sends
    it to Celery and keeps who owns it in Redis, the worker runs IngestDataSource
    and what it returns, or the text of what it raises, is what the owner reads
    back.  Celery is a port; so are the services the worker provisions. *)

From Stdlib Require Import ZArith Lia Ascii String Floats.SpecFloat.
From S2P Require Import Prelude PyFloat IntDivision PyTime PyStr Digest Entities FreshnessRouter Ports RagPorts FrozenCaches CacheWarmedRetrieve Json MagDomain Doubles DataSourceRepo Ingestion Redis RateLimit Identity.

(** ** Values on the wire *)

Definition scope_value (s : SourceScope) : string := match s with TENANT_SCOPE => "tenant" | USER_SCOPE => "user" end.
Definition route_value (r : IngestionRoute) : string :=
  match r with RAG_ONLY => "rag_only" | CAG_WITH_RAG_BACKUP => "cag_with_rag_backup" | MAG_ROUTE => "mag" end.

(** [SourceScope(value)], [IngestionRoute(value)]. *)
Definition parse_scope (value : string) : res SourceScope :=
  if String.eqb value "tenant" then Ret TENANT_SCOPE else if String.eqb value "user" then Ret USER_SCOPE
  else Raise (ValueError (value +:+ " is not a valid SourceScope")).
Definition parse_route (value : string) : res IngestionRoute :=
  if String.eqb value "rag_only" then Ret RAG_ONLY else if String.eqb value "cag_with_rag_backup" then Ret CAG_WITH_RAG_BACKUP
  else if String.eqb value "mag" then Ret MAG_ROUTE else Raise (ValueError (value +:+ " is not a valid IngestionRoute")).

(** The keyword arguments of the task. *)
Record TaskArgs : Type := mkTaskArgs {
  ta_tenant_id : string;
  ta_source_key : string;
  ta_scope : string;
  ta_expected_change_interval_seconds : Z;
  ta_content : string;
  ta_user_id : option string
}.

(** Celery's client: a sent task has an id; its state and result can be read. *)
Class Celery (B : Type) : Type := {
  cl_send_task : TaskArgs → stm B string;
  cl_state : string → stm B string;
  cl_result : string → stm B (list (string * json));
  cl_result_str : string → stm B string
}.

(** ** CeleryIngestionJobDispatcher *)

Definition JOB_TTL_SECONDS : Z := 24 * 60 * 60.
Definition ownership_key (task_id : string) : string := ("ingestion_job:" +:+ task_id)%string.

Record Dispatcher (B : Type) : Type := mkDispatcher { di_celery : B; di_redis : Redis string }.
Arguments mkDispatcher {B}.
Arguments di_celery {B}.
Arguments di_redis {B}.

Section dispatcher.
Context {B : Type} `{Celery B}.

Definition on_celery {A} (m : stm B A) : stm (Dispatcher B) A := λ s,
  let '(r, b) := m (di_celery s) in (r, mkDispatcher b (di_redis s)).

Definition dispatch (tenant_id : uuid) (profile : DataSourceProfile) (content : string) (user_id : option uuid) : stm (Dispatcher B) string :=
  interval ← lift_res (total_seconds (dp_expected_change_interval profile) ≫= py_trunc);
  task_id ← on_celery (cl_send_task (mkTaskArgs (uuid_str tenant_id) (dp_source_key profile) (scope_value (dp_scope profile)) interval content (uuid_str <$> user_id)));
  modify (λ s, mkDispatcher (di_celery s) (rd_set (ownership_key task_id) (owner_key tenant_id user_id) JOB_TTL_SECONDS (di_redis s)));;
  mret task_id.

(** [raw["source_id"]], [raw["route"]], [raw["changed"]]; [changed] is passed on
    as it is, and the response model, which the route ends with, refuses what is
    no bool. *)
Definition result_of_dict (raw : list (string * json)) : res IngestionResult :=
  match od_get "source_id" raw with
  | None => Raise KeyError
  | Some (JStr source_id) =>
      source_id ← uuid_parse source_id;
      match od_get "route" raw with
      | None => Raise KeyError
      | Some (JStr route) =>
          route ← parse_route route;
          match od_get "changed" raw with
          | None => Raise KeyError
          | Some (JBool changed) => Ret (mkIngestionResult source_id route changed)
          | Some _ => Raise (TypeError "changed is not a bool")
          end
      | Some _ => Raise (ValueError "not a valid IngestionRoute")
      end
  | Some _ => Raise AttributeError
  end.

(** [_read]. *)
Definition read_job (task_id : string) : stm B JobStatus :=
  state ← cl_state task_id;
  if String.eqb state "PENDING" || String.eqb state "STARTED" || String.eqb state "RETRY" then mret (mkJobStatus PENDING None None)
  else if String.eqb state "SUCCESS" then
    raw ← cl_result task_id;
    result ← lift_res (result_of_dict raw);
    mret (mkJobStatus SUCCESS (Some result) None)
  else error ← cl_result_str task_id; mret (mkJobStatus FAILURE None (Some error)).

Definition status (task_id : string) (tenant_id user_id : uuid) : stm (Dispatcher B) (option JobStatus) :=
  s ← get_st;
  match rd_get (ownership_key task_id) (di_redis s) with
  | None => mret None
  | Some owner =>
      mine ← lift_res (owner_matches owner tenant_id user_id);
      if negb mine then mret None
      else job ← on_celery (read_job task_id); mret (Some job)
  end.

(** ** The routes *)

Record IngestRequest : Type := mkIngestRequest {
  iq_source_key : string;
  iq_scope : string;
  iq_expected_change_interval_seconds : Z;
  iq_content : string
}.

(** The limit, then the profile, then the dispatch. *)
Definition ingest (caller : Caller) (payload : IngestRequest) : stm (Enforcement * Dispatcher B) string :=
  on_fst (enforce_rate_limit ("data-sources:" +:+ uuid_str (cl_user_id caller)) INGESTION_RATE_LIMIT WINDOW_SECONDS);;
  scope ← lift_res (parse_scope (iq_scope payload));
  interval ← lift_res (td_check (seconds (iq_expected_change_interval_seconds payload)));
  profile ← lift_res (DataSourceProfile_init (iq_source_key payload) scope interval);
  on_snd (dispatch (cl_tenant_id caller) profile (iq_content payload) (if String.eqb (iq_scope payload) "user" then Some (cl_user_id caller) else None)).

Definition job_status (task_id : string) (caller : Caller) : stm (Dispatcher B) JobStatus :=
  found ← status task_id (cl_tenant_id caller) (cl_user_id caller);
  match found with
  | None => raise (IngestionJobNotFound task_id)
  | Some job => mret job
  end.
End dispatcher.

(** ** The worker *)

(** What the task builds for one run and closes after it: opening the engine and
    the graph driver, the three provisioning calls, and the two closes. *)
Class IngestionServices (P : Type) : Type := {
  is_open : stm P unit;
  is_ensure_collection : stm P unit;
  is_ensure_semantic_collection : stm P unit;
  is_ensure_schema : stm P unit;
  is_close_graph : stm P unit;
  is_dispose_engine : stm P unit
}.

(** A cancellation is no Exception, the decoder's error is a ValueError. *)
Definition is_exception (e : exn) : bool := match e with CancelledError => false | _ => true end.
Definition domain_rule (e : exn) : bool := match e with ScopeMismatch _ _ | ValueError _ | JSONDecodeError => true | _ => false end.
Definition ingestion_failed : exn := RuntimeError "ingestion failed".

Definition result_dict (r : IngestionResult) : list (string * json) :=
  [("source_id", JStr (uuid_str (ir_source_id r))); ("route", JStr (route_value (ir_route r))); ("changed", JBool (ir_changed r))]%string.

Section worker.
Context {P R I E C KV F W : Type} `{IngestionServices P, DataSourceRepository R, RagIndex I, EmbeddingModel E,
  FrozenCache C KV, !ExpiringCache C KV, Retriever F, SessionFactWriter W}.
Abbreviation Worker := (P * Router R I E C F W)%type (only parsing).

Definition close_services : stm P unit := is_close_graph;; is_dispose_engine.

(** The provisioning, after which a failure closes what was opened. *)
Definition provision : stm P unit := λ p,
  match (is_ensure_collection;; is_ensure_semantic_collection;; is_ensure_schema) p with
  | (Raise e, p') => if is_exception e then (close_services;; raise e) p' else (Raise e, p')
  | (Ret a, p') => (Ret a, p')
  end.

Definition _build_ingest_data_source : stm P unit := is_open;; provision.

(** [try: body finally: close]: what the close raises replaces the outcome. *)
Definition closing {A} (body : stm Worker A) : stm Worker A := λ s,
  let '(r, s') := body s in
  match on_fst close_services s' with
  | (Ret _, s'') => (r, s'')
  | (Raise e, s'') => (Raise e, s'')
  end.

Definition parsed_ingest (now : datetime) (args : TaskArgs) (profile : DataSourceProfile) : stm Worker IngestionResult :=
  tenant_id ← lift_res (uuid_parse (ta_tenant_id args));
  user_id ← lift_res (match ta_user_id args with Some u => Some <$> uuid_parse u | None => Ret None end);
  on_snd (IngestDataSource_execute default_policy route_for false tenant_id profile (ta_content args) now user_id).

(** What the caller may be told of an exception. *)
Definition told (e : exn) : exn := if domain_rule e then e else if is_exception e then ingestion_failed else e.

Definition guarded_ingest (now : datetime) (args : TaskArgs) (profile : DataSourceProfile) : stm Worker IngestionResult := λ s,
  match parsed_ingest now args profile s with
  | (Raise e, s') => (Raise (told e), s')
  | (Ret r, s') => (Ret r, s')
  end.

Definition ingest_once (now : datetime) (args : TaskArgs) : stm Worker IngestionResult :=
  scope ← lift_res (parse_scope (ta_scope args));
  interval ← lift_res (td_check (seconds (ta_expected_change_interval_seconds args)));
  profile ← lift_res (DataSourceProfile_init (ta_source_key args) scope interval);
  guarded_ingest now args profile.

Definition task_body (now : datetime) (args : TaskArgs) : stm Worker (list (string * json)) :=
  result ← ingest_once now args; mret (result_dict result).

Definition ingest_data_source_task (now : datetime) (args : TaskArgs) : stm Worker (list (string * json)) :=
  on_fst _build_ingest_data_source;;
  closing (task_body now args).
End worker.

(** ** Whose job *)

Section ownership.
Context {B : Type} `{Celery B}.

(** The record of who owns a job. *)
Definition job_of (task_id : string) (t : uuid) (u : option uuid) (s : Dispatcher B) : Prop :=
  rd_get (ownership_key task_id) (di_redis s) = Some (owner_key t u).

Lemma dispatch_inv t profile content u (s s' : Dispatcher B) task_id : dispatch t profile content u s = (Ret task_id, s') →
  ∃ interval b, (total_seconds (dp_expected_change_interval profile) ≫= py_trunc) = Ret interval ∧
    cl_send_task (mkTaskArgs (uuid_str t) (dp_source_key profile) (scope_value (dp_scope profile)) interval content (uuid_str <$> u)) (di_celery s) = (Ret task_id, b) ∧
    s' = mkDispatcher b (rd_set (ownership_key task_id) (owner_key t u) JOB_TTL_SECONDS (di_redis s)).
Proof.
  intros Hrun. unfold dispatch in Hrun. destruct (total_seconds _ ≫= py_trunc) as [interval|e]; [|done]. rewrite stm_lift_bind in Hrun.
  apply stm_bind_inv in Hrun as (id & s1 & Hsend & Hrun). unfold on_celery in Hsend. destruct (cl_send_task _ _) as [r b] eqn:Hb. injection Hsend as -> <-.
  apply stm_bind_inv in Hrun as ([] & s2 & [= <-] & [= <- <-]). by exists interval, b.
Qed.

Lemma dispatch_owns t profile content u (s s' : Dispatcher B) task_id : dispatch t profile content u s = (Ret task_id, s') →
  rd_lookup (ownership_key task_id) (di_redis s') = Some (owner_key t u, Some (rd_now (di_redis s) + 1000 * JOB_TTL_SECONDS)) ∧
  rd_now (di_redis s') = rd_now (di_redis s).
Proof.
  intros (interval & b & _ & _ & ->)%dispatch_inv. split; [|done]. cbn [di_redis]. unfold rd_set. rewrite rd_lookup_insert. cbn [alive].
  by rewrite (proj2 (Z.leb_le _ _)) by (unfold JOB_TTL_SECONDS; lia).
Qed.

Lemma job_status_mine task_id t u caller s : uuid_ok t → (∀ v, u = Some v → uuid_ok v) → job_of task_id t u s →
  job_status task_id caller s =
    if decide (cl_tenant_id caller = t ∧ (u = None ∨ u = Some (cl_user_id caller))) then on_celery (read_job task_id) s
    else (Raise (IngestionJobNotFound task_id), s).
Proof.
  intros Ht Hu Hjob. unfold job_status, status, get_st, mbind, stm_bind. rewrite Hjob. rewrite owner_matches_iff by done.
  unfold lift_res. destruct (decide _) as [Hmine|Hnot].
  - rewrite bool_decide_eq_true_2 by done. cbn [negb]. destruct (on_celery (read_job task_id) s) as [[job|e] s']; done.
  - rewrite bool_decide_eq_false_2 by done. done.
Qed.

(** C17: A job belongs to who submitted it: for the day its owner record lives,
    the job of a user answers that user alone and the job of a tenant answers the
    tenant's users; to everybody else it is not found, exactly as a job that
    never was or whose day is over, and Celery is not even asked. *)
Theorem jobs_answer_their_owners t profile content u s s' task_id :
  uuid_ok t → (∀ v, u = Some v → uuid_ok v) → dispatch t profile content u s = (Ret task_id, s') →
  ∀ later b, 0 ≤ later → let now := mkDispatcher b (rd_wait later (di_redis s')) in ∀ caller,
  job_status task_id caller now =
    if decide (later ≤ 1000 * JOB_TTL_SECONDS ∧ cl_tenant_id caller = t ∧ (u = None ∨ u = Some (cl_user_id caller)))
    then on_celery (read_job task_id) now
    else (Raise (IngestionJobNotFound task_id), now).
Proof.
  intros Ht Hu Hdispatch later b Hlater now caller. destruct (dispatch_owns _ _ _ _ _ _ _ Hdispatch) as [Howner Hnow].
  assert (rd_get (ownership_key task_id) (di_redis now) = if decide (later ≤ 1000 * JOB_TTL_SECONDS) then Some (owner_key t u) else None) as Hget.
  { unfold rd_get, now. cbn [di_redis]. rewrite rd_lookup_wait, Howner by done. cbn [alive]. rewrite Hnow.
    destruct (decide (later ≤ 1000 * JOB_TTL_SECONDS)); [rewrite (proj2 (Z.leb_le _ _)) by lia; done|].
    destruct (Z.leb_spec (rd_now (di_redis s) + later) (rd_now (di_redis s) + 1000 * JOB_TTL_SECONDS)); [lia|done]. }
  destruct (decide (later ≤ 1000 * JOB_TTL_SECONDS)) as [Hday|Hover].
  - rewrite (job_status_mine task_id t u) by done. destruct (decide (cl_tenant_id caller = t ∧ _)) as [Hmine|Hnot].
    + by rewrite decide_True.
    + rewrite decide_False; [done|]. intros [_ Hmine]. done.
  - rewrite decide_False by (intros [? _]; done). unfold job_status, status, get_st, mbind, stm_bind. by rewrite Hget.
Qed.
End ownership.

(** ** The job that is run *)

Lemma parse_scope_value s : parse_scope (scope_value s) = Ret s.
Proof. by destruct s. Qed.
Lemma parse_route_value r : parse_route (route_value r) = Ret r.
Proof. by destruct r. Qed.

Lemma result_of_dict_dict r : uuid_ok (ir_source_id r) → result_of_dict (result_dict r) = Ret r.
Proof.
  intros Hid. unfold result_of_dict. change (od_get "source_id" (result_dict r)) with (Some (JStr (uuid_str (ir_source_id r)))). cbv iota.
  rewrite uuid_parse_str by done. cbn [mbind res_bind]. change (od_get "route" (result_dict r)) with (Some (JStr (route_value (ir_route r)))). cbv iota.
  rewrite parse_route_value. cbn [mbind res_bind]. change (od_get "changed" (result_dict r)) with (Some (JBool (ir_changed r))). by destruct r.
Qed.

Lemma whole_seconds n : 0 < n < 2 ^ 40 → total_seconds (seconds n) ≫= py_trunc = Ret n.
Proof.
  intros Hn. destruct (int_true_div_trunc (seconds n) 1000000) as (x & z & Hx & Hz & Hb); [unfold seconds, us_second; lia|lia|].
  unfold total_seconds. rewrite Hx. cbn [mbind res_bind]. rewrite Hz. f_equal. unfold seconds, us_second in Hb.
  rewrite Z.div_mul in Hb by lia. replace (n * 1000000 + 1000000 - 1) with (999999 + n * 1000000) in Hb by lia.
  rewrite Z.div_add in Hb by lia. change (999999 / 1000000) with 0 in Hb. lia.
Qed.

Section run.
Context {B P R I E C KV F W : Type} `{Celery B, IngestionServices P, DataSourceRepository R, RagIndex I, EmbeddingModel E,
  FrozenCache C KV, !ExpiringCache C KV, Retriever F, SessionFactWriter W}.
Abbreviation Worker := (P * Router R I E C F W)%type (only parsing).

(** An outcome as the caller may be told of it. *)
Definition told_of {A S} (outcome : res A * S) : res A * S := match outcome with (Raise e, s) => (Raise (told e), s) | r => r end.


End run.

(** ** Worked examples *)

(** A Celery that numbers its tasks, all of them still pending. *)
#[local] Instance counting_celery : Celery nat := {|
  cl_send_task := λ _ n, (Ret ("job-" +:+ show_Z (Z.of_nat n))%string, S n);
  cl_state := λ _ n, (Ret "PENDING"%string, n);
  cl_result := λ _ n, (Ret [], n);
  cl_result_str := λ _ n, (Ret EmptyString, n)
|}.

Definition fresh_dispatcher : Dispatcher nat := mkDispatcher 0%nat (mkRedis ∅ 0).
Definition notes_profile : DataSourceProfile := mkProfile "notes" USER_SCOPE (seconds 3600).

(** A minute later the job of user 7 is pending to that user and not found to user 8. *)
Lemma jobs_answer_their_owners_witness :
  ∃ s, dispatch 1 notes_profile "text" (Some 7) fresh_dispatcher = (Ret "job-0"%string, s) ∧
    let now := mkDispatcher 1%nat (rd_wait 60000 (di_redis s)) in
    job_status "job-0" (mkCaller 1 8) now = (Raise (IngestionJobNotFound "job-0"), now) ∧
    (job_status "job-0" (mkCaller 1 7) now).1 = Ret (mkJobStatus PENDING None None).
Proof.
  assert (∀ n, 0 ≤ n < 100 → uuid_ok n) as Hok by (intros n Hn; unfold uuid_ok, uuid_end; lia).
  destruct (dispatch 1 notes_profile "text" (Some 7) fresh_dispatcher) as [r s] eqn:Hrun.
  assert (r = Ret "job-0"%string) as -> by (apply (f_equal fst) in Hrun; vm_compute in Hrun; by rewrite <- Hrun).
  exists s. split; [done|]. intros now.
  pose proof (jobs_answer_their_owners 1 notes_profile "text" (Some 7) fresh_dispatcher s "job-0" (Hok 1 ltac:(lia)) ltac:(intros v [= <-]; apply Hok; lia) Hrun 60000 1%nat ltac:(lia)) as Hjobs.
  cbv zeta in Hjobs. split; [rewrite Hjobs, decide_False; [done|]|unfold now; rewrite Hjobs, decide_True; [reflexivity|]].
  - intros (_ & _ & [[=]|[=]]).
  - split; [unfold JOB_TTL_SECONDS; lia|]. split; [done|by right].
Defined.

#[local] Existing Instance length_model.
#[local] Existing Instance no_results.

(** Services that are up, or whose Qdrant is not. *)
Definition services (qdrant_up : bool) : IngestionServices unit := {|
  is_open := mret tt;
  is_ensure_collection := if qdrant_up then mret tt else raise (BackendError "http://qdrant:6333 refused the connection");
  is_ensure_semantic_collection := mret tt; is_ensure_schema := mret tt; is_close_graph := mret tt; is_dispose_engine := mret tt |}.

Definition open_enforcement : Enforcement := mkEnforcement (mkLimiter (mkRedis ∅ 0) (days 738900)) None None.
Definition notes_request : IngestRequest := mkIngestRequest "notes" "tenant" 86400 "text".


