(* ===== verification/Serving.v ===== *)
(** * Serving the routes

    api/routers/sessions.py and chat.py with the budgets both charge first,
    api/exception_handlers.py, what RateLimitHeadersMiddleware (api/rate_limit.py)
    and SecurityHeadersMiddleware (api/middleware/security_headers.py) do to a
    response, and the schemas of api/schemas/sessions.py, chat.py and auth.py.  FastAPI and
    Starlette are the framework: what they do around a route is [serve], in the
    order main.py adds the middleware.  A request whose body or token is refused
    never reaches a route; RateLimit.v and Identity.v say when. *)

From Stdlib Require Import ZArith Lia Ascii String.
From S2P Require Import Prelude PyFloat PyTime PyStr Json PyInt Entities RagPorts Digest UnifiedAnswer Sessions RagRetrieval Redis RateLimit Identity.

(** ** exception_handlers.py *)

(** What a registered handler answers: a status, a detail, and the headers only
    the 429 carries.  HTTPException is the framework's own. *)
Record Handled : Type := mkHandled { hn_status : Z; hn_detail : string; hn_headers : option Headers }.

Definition handler (e : exn) : option Handled :=
  match e with
  | InvalidCredentials => Some (mkHandled 401 "Invalid credentials" None)
  | EmailAlreadyRegistered _ => Some (mkHandled 409 "Email already registered" None)
  | TokenExpired => Some (mkHandled 401 "Token expired" None)
  | TokenAlreadyUsed => Some (mkHandled 401 "Invalid credentials" None)
  | UnsupportedFileType extension => Some (mkHandled 422 ("Unsupported file type: " +:+ extension) None)
  | RateLimitExceeded limit remaining reset_at _ => Some (mkHandled 429 "Rate limit exceeded" (Some (mkHeaders limit remaining reset_at)))
  | SessionNotFound _ => Some (mkHandled 404 "Session not found" None)
  | QueryExceedsBudget query_tokens query_slice =>
      Some (mkHandled 422 ("the question is " +:+ show_Z query_tokens +:+ " tokens; the Query slice allows " +:+ show_Z query_slice) None)
  | IngestionJobNotFound _ => Some (mkHandled 404 "Ingestion job not found" None)
  | HTTPException status_code detail => Some (mkHandled status_code detail None)
  | _ => None
  end.

(** ** From a route's outcome to the response *)

Record Response (A : Type) : Type := mkResponse {
  rs_status : Z;
  rs_body : A + string;
  rs_rate_limit : option Headers;
  rs_security : bool
}.
Arguments mkResponse {A}.
Arguments rs_status {A}.
Arguments rs_body {A}.
Arguments rs_rate_limit {A}.
Arguments rs_security {A}.

(** The framework's answer to an exception no handler knows, made outside every middleware. *)
Definition server_error {A} : Response A := mkResponse 500 (inr "Internal Server Error"%string) None false.

(** RateLimitHeadersMiddleware puts the headers stashed on the request over
    what the response carries. *)
Definition reapplied (stashed carried : option Headers) : option Headers := match stashed with Some h => Some h | None => carried end.

Definition serve {A S} (status : Z) (route : stm (Enforcement * S) A) (limiter : RedisRateLimiter) (s : S) : Response A * (RedisRateLimiter * S) :=
  let '(outcome, (e, s')) := route (mkEnforcement limiter None None, s) in
  (match outcome with
   | Ret a => mkResponse status (inl a) (reapplied (en_state e) (en_response e)) true
   | Raise x =>
       match handler x with
       | Some h => mkResponse (hn_status h) (inr (hn_detail h)) (reapplied (en_state e) (hn_headers h)) true
       | None => server_error
       end
   end, (en_limiter e, s')).

(** ** schemas/sessions.py *)

Definition MAX_QUESTION_CHARS : Z := 4000.

(** AnswerRequest's question. *)
Definition question_ok (question : string) : bool :=
  (1 <=? py_len question) && (py_len question <=? MAX_QUESTION_CHARS) && negb (String.eqb (strip question) EmptyString).

Definition mode_value (m : RoutingMode) : string := match m with CASCADE => "cascade" | PARALLEL => "parallel" end.
Definition outcome_value (o : TierOutcome) : string :=
  match o with HIT => "hit" | PARTIAL => "partial" | MISS => "miss" | TIMEOUT => "timeout" | ERROR => "error" end.

(** CreateSessionRequest's title. *)
Definition title_ok (title : option string) : bool :=
  match title with Some t => py_len t <=? MAX_SESSION_TITLE_CHARS | None => true end.

Record SessionResponse : Type := mkSessionResponse {
  sn_id : uuid;
  sn_title : option string;
  sn_created_at : datetime;
  sn_context_budget : option json
}.

Definition session_response (s : ChatSession) : SessionResponse := mkSessionResponse (cs_id s) (cs_title s) (cs_created_at s) (cs_context_budget s).

Record SourceSchema : Type := mkSource { so_paradigm : string; so_content : string; so_source_id : option uuid }.
Record RoutingSchema : Type := mkRouting { ro_paradigms : list string; ro_mode : string; ro_fallback : option RoutingFallback }.
Record AttemptSchema : Type := mkAttemptSchema { as_paradigm : string; as_outcome : string; as_elapsed_ms : f64 }.
Record AnswerResponse : Type := mkAnswerResponse {
  ar_answer : string;
  ar_sources : list SourceSchema;
  ar_routing : option RoutingSchema;
  ar_attempts : list AttemptSchema;
  ar_degraded : bool;
  ar_dropped : gmap string Z
}.

Definition routing_schema (a : UnifiedAnswer) (decision : RoutingDecision) : RoutingSchema :=
  mkRouting (map paradigm_value (filter (λ p, p ∈ rd_paradigms decision) PARADIGM_ORDER)) (mode_value (rd_mode decision)) (an_routing_fallback a).

Definition answer_response (a : UnifiedAnswer) : AnswerResponse :=
  mkAnswerResponse (an_answer a) (map (λ item, mkSource (paradigm_value (ci_paradigm item)) (ci_content item) (ci_source_id item)) (an_sources a))
    (routing_schema a <$> an_decision a)
    (map (λ t, mkAttemptSchema (paradigm_value (ta_paradigm t)) (outcome_value (ta_outcome t)) (ta_elapsed_ms t)) (an_attempts a))
    (an_degraded a) (kmap paradigm_value (an_dropped a)).

(** ** schemas/chat.py *)

(** ChatRequest's question: bounded, but it may be blank. *)
Definition chat_question_ok (question : string) : bool := py_len question <=? 4000.

Record ChatSourceSchema : Type := mkChatSource { ch_document_id : uuid; ch_chunk_id : uuid; ch_content : string }.
Record ChatResponse : Type := mkChatResponse { ch_answer : string; ch_sources : list ChatSourceSchema }.

Definition chat_response (result : ChatAnswer) : ChatResponse :=
  mkChatResponse (ans_answer result) (map (λ s, mkChatSource (sr_document_id s) (sr_chunk_id s) (sr_content s)) (ans_sources result)).

(** ** schemas/auth.py *)

(** A new password has eight characters at least; one to log in with need only
    be there.  Neither has more than 200.  EmailStr is email-validator's. *)
Definition new_password_ok (password : string) : bool := (8 <=? py_len password) && (py_len password <=? 200).
Definition login_password_ok (password : string) : bool := (1 <=? py_len password) && (py_len password <=? 200).

(** Whoever registered is not refused at the login's schema. *)
Lemma registered_password_may_log_in password : new_password_ok password = true → login_password_ok password = true.
Proof. unfold new_password_ok, login_password_ok. lia. Qed.

(** The response to a login or a refresh. *)
Record TokenResponse : Type := mkTokenResponse { tr_access_token : string; tr_token_type : string }.
Definition token_response (access_token : string) : TokenResponse := mkTokenResponse access_token "bearer".

(** ** The routes *)

Section routes.
Context `{UnicodeDigits} (environ : string → option string).

Definition chat_key (caller : Caller) : string := ("chat:" +:+ uuid_str (cl_user_id caller))%string.

(** The caller's own budget, then everyone's. *)
Definition charge_chat (caller : Caller) : stm Enforcement unit :=
  limit ← lift_res (chat_rate_limit environ);
  enforce_rate_limit (chat_key caller) limit WINDOW_SECONDS;;
  global_limit ← lift_res (global_chat_limit environ);
  enforce_rate_limit GLOBAL_CHAT_KEY global_limit GLOBAL_CHAT_WINDOW_SECONDS.

(** A route that charges before it does its work. *)
Definition charged {A S} (caller : Caller) (work : stm S A) : stm (Enforcement * S) A := on_fst (charge_chat caller);; on_snd work.

Definition _TOP_K : Z := 5.

Definition chat {R M} `{Retriever R, ChatModel M} (caller : Caller) (question : string) : stm (Enforcement * (R * M)) ChatResponse :=
  charged caller (result ← AnswerQuestion_execute _TOP_K (cl_tenant_id caller) question; mret (chat_response result)).

Section sessions.
Context {R A : Type} `{ChatSessionRepository R} (answer_question : uuid → uuid → uuid → string → stm A UnifiedAnswer).

Definition answer (session_id : uuid) (caller : Caller) (question : string) : stm (Enforcement * (R * A)) AnswerResponse :=
  charged caller
    (result ← AnswerInSession_execute answer_question (cl_tenant_id caller) (cl_user_id caller) session_id question;
     mret (answer_response result)).

Definition create_session (caller : Caller) (title : option string) : stm (Enforcement * R) SessionResponse :=
  on_fst (enforce_rate_limit ("sessions:" +:+ uuid_str (cl_user_id caller)) SESSION_CREATE_LIMIT WINDOW_SECONDS);;
  session ← on_snd (StartChatSession_execute (cl_tenant_id caller) (cl_user_id caller) title);
  mret (session_response session).

(** The [limit] a query may ask for, 20 when it asks for none. *)
Definition limit_ok (limit : Z) : bool := (1 <=? limit) && (limit <=? MAX_SESSIONS_PER_PAGE).

Definition list_sessions (caller : Caller) (limit : Z) : stm (Enforcement * R) (list SessionResponse) :=
  found ← on_snd (ListChatSessions_execute (cl_tenant_id caller) (cl_user_id caller) limit);
  mret (map session_response found).
End sessions.
End routes.

(** ** What a refused turn costs *)

Lemma enforce_first key limit w l :
  enforce_rate_limit key limit w (mkEnforcement l None None) =
    let '(verdict, l') := rl_check key limit w l in
    match verdict with
    | Raise e => (Raise e, mkEnforcement l' None None)
    | Ret (true, remaining, reset_at) => (Ret tt, mkEnforcement l' (Some (mkHeaders limit remaining reset_at)) (Some (mkHeaders limit remaining reset_at)))
    | Ret (false, remaining, reset_at) => (Raise (RateLimitExceeded limit 0 reset_at key), mkEnforcement l' None None)
    end.
Proof. unfold enforce_rate_limit. cbn. by destruct (rl_check key limit w l) as [[[[[] ?] ?]|e] l']. Qed.

Lemma enforce_next key limit w l h r :
  enforce_rate_limit key limit w (mkEnforcement l (Some h) r) =
    let '(verdict, l') := rl_check key limit w l in
    match verdict with
    | Raise e => (Raise e, mkEnforcement l' (Some h) r)
    | Ret (true, _, _) => (Ret tt, mkEnforcement l' (Some h) r)
    | Ret (false, _, reset_at) => (Raise (RateLimitExceeded limit 0 reset_at key), mkEnforcement l' None r)
    end.
Proof. unfold enforce_rate_limit. cbn. by destruct (rl_check key limit w l) as [[[[[] ?] ?]|e] l']. Qed.

Lemma chat_key_not_global caller : GLOBAL_CHAT_KEY ≠ chat_key caller.
Proof. done. Qed.

Section turns.
Context `{UnicodeDigits} (environ : string → option string) (own everyones : Z).
Context (Hown : chat_rate_limit environ = Ret own) (Heveryones : global_chat_limit environ = Ret everyones).

(** The two checks of a chat turn. *)
Definition own_check (caller : Caller) (l : RedisRateLimiter) := rl_check (chat_key caller) own WINDOW_SECONDS l.
Definition global_check (l : RedisRateLimiter) := rl_check GLOBAL_CHAT_KEY everyones GLOBAL_CHAT_WINDOW_SECONDS l.

Lemma charge_chat_runs caller l :
  charge_chat environ caller (mkEnforcement l None None) =
    let '(verdict, l1) := own_check caller l in
    match verdict with
    | Raise e => (Raise e, mkEnforcement l1 None None)
    | Ret (false, _, reset_at) => (Raise (RateLimitExceeded own 0 reset_at (chat_key caller)), mkEnforcement l1 None None)
    | Ret (true, remaining, reset_at) =>
        let h := mkHeaders own remaining reset_at in
        let '(verdict', l2) := global_check l1 in
        match verdict' with
        | Raise e => (Raise e, mkEnforcement l2 (Some h) (Some h))
        | Ret (false, _, reset_at') => (Raise (RateLimitExceeded everyones 0 reset_at' GLOBAL_CHAT_KEY), mkEnforcement l2 None (Some h))
        | Ret (true, _, _) => (Ret tt, mkEnforcement l2 (Some h) (Some h))
        end
    end.
Proof.
  unfold charge_chat. rewrite Hown. rewrite stm_lift_bind. unfold mbind at 1, stm_bind at 1. rewrite enforce_first.
  unfold own_check. destruct (rl_check (chat_key caller) own WINDOW_SECONDS l) as [[[[[] remaining] reset_at]|e] l1]; try done.
  rewrite Heveryones, stm_lift_bind, enforce_next. done.
Qed.

(** A check fails only with an exception no handler knows. *)
Lemma rl_check_unhandled key limit w l e l' : rl_check key limit w l = (Raise e, l') → handler e = None.
Proof.
  unfold rl_check. destruct (count_request _ _ _) as [[count ttl] r]. unfold dt_add, dt_check.
  case_bool_decide; cbn; [by destruct (limit <? count)|by intros [= <- _]].
Qed.

Definition too_many {A} (limit : Z) (reset_at : datetime) : Response A :=
  mkResponse 429 (inr "Rate limit exceeded"%string) (Some (mkHeaders limit 0 reset_at)) true.

(** What a turn that was charged answers when it has run. *)
Definition charged_response {A} (status : Z) (h : Headers) (outcome : res A) : Response A :=
  match outcome with
  | Ret a => mkResponse status (inl a) (Some h) true
  | Raise e => match handler e with Some hd => mkResponse (hn_status hd) (inr (hn_detail hd)) (Some h) true | None => server_error end
  end.

Lemma serve_charged {A S} status caller (work : stm S A) l x :
  serve status (charged environ caller work) l x =
    let '(verdict, l1) := own_check caller l in
    match verdict with
    | Raise _ => (server_error, (l1, x))
    | Ret (false, _, reset_at) => (too_many own reset_at, (l1, x))
    | Ret (true, remaining, reset_at) =>
        let '(verdict', l2) := global_check l1 in
        match verdict' with
        | Raise _ => (server_error, (l2, x))
        | Ret (false, _, reset_at') => (too_many everyones reset_at', (l2, x))
        | Ret (true, _, _) => (charged_response status (mkHeaders own remaining reset_at) (work x).1, (l2, (work x).2))
        end
    end.
Proof.
  unfold serve, charged, mbind, stm_bind, on_fst. cbn [fst snd]. rewrite charge_chat_runs.
  destruct (own_check caller l) as [[[[[] remaining] reset_at]|e] l1] eqn:Ho; cbn [fst snd]; [|done|].
  2: { by rewrite (rl_check_unhandled (chat_key caller) own WINDOW_SECONDS l e l1 Ho). }
  destruct (global_check l1) as [[[[[] remaining'] reset_at']|e] l2] eqn:Hg; cbn [fst snd].
  - unfold on_snd. cbn [fst snd]. destruct (work x) as [[a|e] x']; cbn; [done|]. by destruct (handler e).
  - done.
  - by rewrite (rl_check_unhandled GLOBAL_CHAT_KEY everyones GLOBAL_CHAT_WINDOW_SECONDS l1 e l2 Hg).
Qed.

(** C20: A chat turn that is refused costs nothing but its count. When the
    caller's own budget is spent the answer is 429 with that budget's numbers, the
    work behind the route is not touched, and neither is the counter every account
    shares nor any other caller's; when the shared one is spent the answer is 429
    with the shared numbers and again nothing was done. When both allow it the work
    runs once, on the state it was given, and whatever response comes of it, an
    error's included, carries the numbers of the caller's own budget, unless it is
    the 500 of an exception no handler knows. A counter that cannot be read as a
    time is a 500 too, before any work. *)
Theorem refused_chats_cost_nothing {A S} status caller (work : stm S A) l x :
  let answered := serve status (charged environ caller work) l x in
  let '(verdict, l1) := own_check caller l in
  let '(verdict', l2) := global_check l1 in
  (∀ key, key ≠ chat_key caller → rd_lookup (rate_key key) (rl_redis l1) = rd_lookup (rate_key key) (rl_redis l)) ∧
  GLOBAL_CHAT_KEY ≠ chat_key caller ∧
  match verdict, verdict' with
  | Ret (false, _, reset_at), _ => answered = (too_many own reset_at, (l1, x))
  | Ret (true, _, _), Ret (false, _, reset_at) => answered = (too_many everyones reset_at, (l2, x))
  | Ret (true, remaining, reset_at), Ret (true, _, _) =>
      answered.2 = (l2, (work x).2) ∧
      (answered.1 = server_error ∨ rs_rate_limit answered.1 = Some (mkHeaders own remaining reset_at)) ∧
      match (work x).1 with
      | Ret a => rs_status answered.1 = status ∧ rs_body answered.1 = inl a
      | Raise e => ∀ hd, handler e = Some hd → rs_status answered.1 = hn_status hd ∧ rs_body answered.1 = inr (hn_detail hd)
      end
  | Raise _, _ => answered = (server_error, (l1, x))
  | _, Raise _ => answered = (server_error, (l2, x))
  end.
Proof.
  cbv zeta. rewrite serve_charged. pose proof (rl_check_other (chat_key caller)) as Hother.
  destruct (own_check caller l) as [verdict l1] eqn:Ho. destruct (global_check l1) as [verdict' l2].
  split. { intros key Hk. specialize (Hother key own WINDOW_SECONDS l Hk) as (Hl & _). unfold own_check in Ho. by rewrite Ho in Hl. }
  split; [apply chat_key_not_global|].
  destruct verdict as [[[[] remaining] reset_at]|e]; try done. destruct verdict' as [[[[] remaining'] reset_at']|e]; try done.
  cbn [fst snd]. split; [done|]. destruct (work x) as [[a|e] x']; cbn [fst snd charged_response]; [by auto|].
  destruct (handler e) as [hd|]; split; auto; intros ? [= <-]; done.
Qed.

(** C19: A session that is not the caller's cannot be told from one that does
    not exist: asking it a question gets one response, the same whatever rows the
    table holds as long as the caller owns none of that id, and changes nothing.
    When the turn is within both budgets that response is the 404. *)
Theorem foreign_sessions_look_missing {A} (answer_question : uuid → uuid → uuid → string → stm A UnifiedAnswer) session_id caller question l :
  ∃ response l', (∀ (p : PostgresSessions) (a : A), owned p (cl_tenant_id caller) (cl_user_id caller) !! session_id = None →
    serve 200 (answer environ answer_question session_id caller question) l (p, a) = (response, (l', (p, a)))) ∧
  ∀ remaining reset_at l1 remaining' reset_at' l2,
    own_check caller l = (Ret (true, remaining, reset_at), l1) → global_check l1 = (Ret (true, remaining', reset_at'), l2) →
    response = mkResponse 404 (inr "Session not found"%string) (Some (mkHeaders own remaining reset_at)) true.
Proof.
  set (work := result ← AnswerInSession_execute (R := PostgresSessions) answer_question (cl_tenant_id caller) (cl_user_id caller) session_id question;
    mret (answer_response result)).
  assert (∀ p a, owned p (cl_tenant_id caller) (cl_user_id caller) !! session_id = None → work (p, a) = (Raise (SessionNotFound session_id), (p, a))) as Hwork.
  { intros p a Hnone. apply stm_bind_raise, find_refuses. unfold cr_find_owned, postgres_chat_sessions, ps_find_owned, mbind, stm_bind, get_st. by rewrite Hnone. }
  unfold answer. fold work. destruct (own_check caller l) as [verdict l1] eqn:Ho, (global_check l1) as [verdict' l2] eqn:Hg.
  destruct verdict as [[[[] remaining] reset_at]|e]; [destruct verdict' as [[[[] remaining'] reset_at']|e]| |].
  all: eexists _, _; split; [intros p a Hnone; rewrite serve_charged, Ho; cbv iota zeta; rewrite ?Hg; cbv iota zeta; rewrite ?(Hwork p a Hnone); cbn; reflexivity|].
  all: intros ?????? [= ] Hg'; subst; rewrite Hg in Hg'; by try discriminate Hg'.
Qed.
End turns.

(** ** A worked example *)

#[local] Instance no_other_digits : UnicodeDigits := λ _, None.

(** One chat a minute; user 7 of tenant 1 has had it. *)
Definition one_a_minute (variable : string) : option string := if String.eqb variable "CHAT_RATE_LIMIT_PER_MINUTE" then Some "1"%string else None.
Definition user_7 : Caller := mkCaller 1 7.
Definition spent_limiter : RedisRateLimiter := (own_check 1 user_7 quiet_limiter).2.
Definition count_answers : stm nat unit := λ n, (Ret tt, S n).
Definition unanswered : stm nat UnifiedAnswer := λ n, (Raise (BackendError "the model is down"), S n).

Lemma first_chat_allowed : own_check 1 user_7 quiet_limiter = (Ret (true, 0, days 738000 + seconds 60), spent_limiter).
Proof. vm_compute. reflexivity. Qed.

Lemma second_chat_refused : own_check 1 user_7 spent_limiter = (Ret (false, 0, days 738000 + seconds 60), (own_check 1 user_7 spent_limiter).2).
Proof. vm_compute. reflexivity. Qed.

Lemma first_chat_within_global :
  global_check 10000 spent_limiter = (Ret (true, 9999, days 738000 + seconds 3600), (global_check 10000 spent_limiter).2).
Proof. vm_compute. reflexivity. Qed.

(** The second chat is refused and nothing runs; the first ran. *)
Lemma refused_chats_cost_nothing_witness :
  serve 200 (charged one_a_minute user_7 count_answers) spent_limiter 0%nat =
    (too_many 1 (days 738000 + seconds 60), ((own_check 1 user_7 spent_limiter).2, 0%nat)) ∧
  (serve 200 (charged one_a_minute user_7 count_answers) quiet_limiter 0%nat).2.2 = 1%nat.
Proof.
  split.
  - pose proof (refused_chats_cost_nothing one_a_minute 1 10000 eq_refl eq_refl 200 user_7 count_answers spent_limiter 0%nat) as H.
    cbv zeta in H. rewrite second_chat_refused in H. destruct (global_check 10000 _) as [v l3]. exact (proj2 (proj2 H)).
  - pose proof (refused_chats_cost_nothing one_a_minute 1 10000 eq_refl eq_refl 200 user_7 count_answers quiet_limiter 0%nat) as H.
    cbv zeta in H. rewrite first_chat_allowed, first_chat_within_global in H. destruct H as (_ & _ & H & _). by rewrite H.
Defined.

(** Session 200 is another user's, whatever its title. *)
Lemma foreign_sessions_look_missing_witness :
  ∃ response, rs_status response = 404 ∧ ∀ other,
    (serve 200 (answer one_a_minute (λ _ _ _ _, unanswered) 200 user_7 "q") quiet_limiter (sample_sessions other, 0%nat)).1 = response.
Proof.
  destruct (foreign_sessions_look_missing one_a_minute 1 10000 eq_refl eq_refl (λ _ _ _ _, unanswered) 200 user_7 "q" quiet_limiter)
    as (response & l' & Hsame & Hfound).
  exists response. split; [by rewrite (Hfound _ _ _ _ _ _ first_chat_allowed first_chat_within_global)|].
  intros other. rewrite Hsame; [done|]. vm_compute. reflexivity.
Defined.
