(* ===== verification/Resources.v ===== *)
(** * The process's shared resources

    The part of the API's composition root that keeps state: the cached clients of
    api/dependencies.py, what api/main.py releases at shutdown, and the pipeline
    api/unified_pipeline.py builds.  Each Redis client has a number, in the order
    they were built; closing one is a call that may raise, and other requests run
    while it is awaited. *)

From Stdlib Require Import ZArith Lia String Floats.SpecFloat.
From S2P Require Import Prelude PyFloat Entities ParadigmRouter BudgetAllocator Ports RagPorts CascadeTiers LatencyCascade UnifiedAnswer Classifiers EmbeddingCache.

(** [os.environ\[name\]] of a variable the process may lack. *)
Class Environ : Type := environ : string → option string.

(** ** Cached clients *)

Inductive SharedClient : Type := RateLimiterClient | RefreshTokenClient | IngestionClient.
#[global] Instance shared_client_eq_dec : EqDecision SharedClient.
Proof. solve_decision. Defined.

(** What functools.cache holds, the client the cached dispatcher was given, and
    every client built and every one whose close was called. *)
Record Process : Type := mkProcess {
  ps_clients : list (SharedClient * Z);
  ps_dispatcher : option Z;
  ps_built : list Z;
  ps_closed : list Z
}.

Section dependencies.
Context `{Environ}.

(** [get_rate_limiter], [get_refresh_token_store] and [get_ingestion_redis_client]. *)
Definition get_client (s : SharedClient) : stm Process Z := λ p,
  match od_get s (ps_clients p) with
  | Some c => (Ret c, p)
  | None =>
      match environ "REDIS_URL" with
      | None => (Raise KeyError, p)
      | Some _ =>
          let c := Z.of_nat (length (ps_built p)) in
          (Ret c, mkProcess (od_set s c (ps_clients p)) (ps_dispatcher p) (ps_built p ++ [c]) (ps_closed p))
      end
  end.

(** The client inside the dispatcher it returns. *)
Definition get_ingestion_job_dispatcher : stm Process Z :=
  p ← get_st;
  match ps_dispatcher p with
  | Some c => mret c
  | None =>
      c ← get_client IngestionClient;
      modify (λ p, mkProcess (ps_clients p) (Some c) (ps_built p) (ps_closed p));;
      mret c
  end.

Inductive ChatProvider : Type :=
  | OllamaProvider (host model : string)
  | AnthropicProvider (api_key model : string).

Definition get_chat_model : res ChatProvider :=
  if String.eqb (default "anthropic" (environ "CHAT_PROVIDER"))%string "ollama"
  then Ret (OllamaProvider (default "http://localhost:11434" (environ "OLLAMA_HOST"))%string (default "qwen3.5" (environ "CHAT_MODEL"))%string)
  else
    match environ "ANTHROPIC_API_KEY" with
    | Some key => Ret (AnthropicProvider key (default "claude-opus-5" (environ "CHAT_MODEL"))%string)
    | None => Raise KeyError
    end.
End dependencies.

(** ** Closing them *)

(** A call of [close_redis_clients] under way: the clients it has yet to close, and
    what closing raised. *)
Record Closing : Type := mkClosing { cl_left : list Z; cl_failures : list exn }.

Definition CLOSE_ORDER : list SharedClient := [RateLimiterClient; RefreshTokenClient; IngestionClient].

(** Up to its first await: the cached clients, forgotten. *)
Definition close_begin : stm Process Closing := λ p,
  (Ret (mkClosing (omap (λ s, od_get s (ps_clients p)) CLOSE_ORDER) []),
   mkProcess [] (ps_dispatcher p) (ps_built p) (ps_closed p)).

Definition record_closed (c : Z) (p : Process) : Process := mkProcess (ps_clients p) (ps_dispatcher p) (ps_built p) (ps_closed p ++ [c]).

(** The loop's body, given what [await client.aclose()] raised, if it did. *)
Definition close_next (outcome : res unit) (cl : Closing) : stm Process Closing := λ p,
  match cl_left cl with
  | [] => (Ret cl, p)
  | c :: rest =>
      match outcome with
      | Raise CancelledError => (Raise CancelledError, record_closed c p)
      | Raise e => (Ret (mkClosing rest (cl_failures cl ++ [e])), record_closed c p)
      | Ret tt => (Ret (mkClosing rest (cl_failures cl)), record_closed c p)
      end
  end.

Definition close_end (cl : Closing) : res unit := match cl_failures cl with e :: _ => Raise e | [] => Ret tt end.

Class Closable (W : Type) : Type := aclose : Z → stm W unit.

Section closing.
Context {W : Type} `{Closable W}.

Fixpoint close_loop (clients : list Z) (cl : Closing) : stm (Process * W) Closing :=
  match clients with
  | [] => mret cl
  | c :: rest =>
      outcome ← on_snd (λ w, let '(r, w') := aclose c w in (Ret r, w'));
      cl ← on_fst (close_next outcome cl);
      close_loop rest cl
  end.

Definition close_redis_clients : stm (Process * W) unit :=
  cl ← on_fst close_begin;
  cl ← close_loop (cl_left cl) cl;
  lift_res (close_end cl).
End closing.

(** ** The unified pipeline *)

Definition MAG_HIT : f64 := flit 42 100.
Definition MAG_PARTIAL : f64 := flit 37 100.
Definition RAG_TOP_K : Z := 5.

(** The cascade the API serves: no CAG tier. *)
Definition serving_cascade : res LatencyCascade :=
  MagTier_init MAG_HIT MAG_PARTIAL 5;;
  RagTier_init RAG_TOP_K;;
  timeouts ← TierTimeouts_init (tt_cag default_timeouts) (tt_mag default_timeouts) (tt_rag default_timeouts);
  LatencyCascade_init [MAG; RAG] (Some timeouts) false DEFAULT_BACKGROUND_TIMEOUT DEFAULT_MAX_BACKGROUND.

(** The code gives one caching embedder to the answerer, the classifier and the RAG
    tier; here the answerer and the tiers behind [start] each have their own, which
    answers the same texts alike (EmbeddingCache.v). *)
Definition build_unified_pipeline {E C M B} `{EmbeddingModel E} (start : LatencyCascade → C) (clock : nat → f64) (chat_model : M) (recorder : B) :
  stm E (UnifiedAnswerQuestion E PrototypeQueryClassifier C M B) :=
  cascade ← lift_res serving_cascade;
  classifier ← Prototype_init DEFAULT_ROUTING_EXEMPLARS 5;
  embedder ← get_st;
  lift_res (UnifiedAnswerQuestion_init embedder (Some classifier) (start cascade) chat_model DEFAULT_CONTEXT_TOKENS DEFAULT_SHARES
    DEFAULT_SELECT_THRESHOLD DEFAULT_UNCERTAINTY_MARGIN DEFAULT_CLASSIFIER_TIMEOUT (Some recorder) clock).

(** [release_process_resources]: a pipeline that was built drains first. *)
Definition release_process_resources {W} `{Closable W} (pipeline_built : bool) (drain : stm W unit) : stm (Process * W) unit :=
  (if pipeline_built then on_snd drain else mret tt);;
  close_redis_clients.

(** What it serves a route from: RAG stands in for a tier that is not there. *)
Lemma served_routes cascade d : serving_cascade = Ret cascade →
  planned cascade (Some d) = (if decide (MAG ∈ rd_paradigms d) then [MAG; RAG] else [RAG]) ∧ planned cascade None = [MAG; RAG].
Proof.
  intros Hc. assert (lc_tiers cascade = {[MAG; RAG]}) as Ht.
  { assert (lc_tiers <$> serving_cascade = Ret (list_to_set [MAG; RAG])) as Hs by (vm_compute; reflexivity). rewrite Hc in Hs. injection Hs as ->. set_solver. }
  assert (CAG ∉ lc_tiers cascade ∧ MAG ∈ lc_tiers cascade ∧ RAG ∈ lc_tiers cascade) as (Hcag & Hmag & Hrag) by (rewrite Ht; set_solver).
  unfold planned, eligible, configured, PARADIGM_ORDER. rewrite !filter_cons, !filter_nil.
  rewrite !(decide_False (P := CAG ∈ _)), (decide_True (P := MAG ∈ lc_tiers cascade)), !(decide_True (P := RAG ∈ lc_tiers cascade)) by tauto.
  split; [|done]. rewrite decide_False by tauto. rewrite (decide_True (P := RAG ∈ _ ∧ _)) by auto.
  destruct (decide (MAG ∈ rd_paradigms d)); [by rewrite decide_True by auto|]. rewrite decide_False; [done|]. by intros [_ [?|?]].
Qed.

(** ** Requests and closings, interleaved *)

Record Machine : Type := mkMachine { mc_process : Process; mc_closings : list Closing }.

Section machine.
Context `{Environ}.

(** What may happen between two awaits: a request asks for a client or for the
    dispatcher, a closing begins, one closing goes on to its next client, or ends. *)
Inductive resource_step : Machine → Machine → Prop :=
  | step_get s c p p' cs : get_client s p = (Ret c, p') → resource_step (mkMachine p cs) (mkMachine p' cs)
  | step_dispatcher c p p' cs : get_ingestion_job_dispatcher p = (Ret c, p') → resource_step (mkMachine p cs) (mkMachine p' cs)
  | step_begin cl p p' cs : close_begin p = (Ret cl, p') → resource_step (mkMachine p cs) (mkMachine p' (cs ++ [cl]))
  | step_close (i : nat) outcome cl cl' p p' cs : cs !! i = Some cl → cl_left cl ≠ [] → close_next outcome cl p = (Ret cl', p') →
      resource_step (mkMachine p cs) (mkMachine p' (<[i := cl']> cs))
  | step_end (i : nat) cl p cs : cs !! i = Some cl → cl_left cl = [] → resource_step (mkMachine p cs) (mkMachine p (delete i cs)).

Definition new_process : Process := mkProcess [] None [] [].
Definition resource_reachable : Machine → Prop := rtc resource_step (mkMachine new_process []).

(** Every client built is cached, waiting to be closed, or closed. *)
Definition accounted (m : Machine) : list Z :=
  map snd (ps_clients (mc_process m)) ++ flat_map cl_left (mc_closings m) ++ ps_closed (mc_process m).

Definition in_account (m : Machine) : Prop :=
  ps_built (mc_process m) = map Z.of_nat (seq 0 (length (ps_built (mc_process m)))) ∧
  ps_built (mc_process m) ≡ₚ accounted m ∧ NoDup (od_keys (ps_clients (mc_process m))).

Lemma closing_takes_all clients : NoDup (od_keys clients) → omap (λ s, od_get s clients) CLOSE_ORDER ≡ₚ map (snd : SharedClient * Z → Z) clients.
Proof.
  intros Hnd. assert (omap (λ s, od_get s clients) CLOSE_ORDER = map snd (omap (λ s, c ← od_get s clients; Some (s, c)) CLOSE_ORDER)) as ->.
  { unfold CLOSE_ORDER. cbn [omap list_omap]. destruct (od_get RateLimiterClient clients), (od_get RefreshTokenClient clients), (od_get IngestionClient clients); done. }
  apply fmap_Permutation. apply NoDup_Permutation.
  - assert (NoDup (map fst (omap (λ s, c ← od_get s clients; Some (s, c)) CLOSE_ORDER))) as Hk; [|by apply (NoDup_fmap_1 fst)].
    apply (bool_decide_unpack _). unfold CLOSE_ORDER. cbn [omap list_omap].
    destruct (od_get RateLimiterClient clients), (od_get RefreshTokenClient clients), (od_get IngestionClient clients); exact I.
  - by apply (NoDup_fmap_1 fst).
  - intros [s c]. rewrite list_elem_of_omap. split.
    + intros (s' & _ & Hs). destruct (od_get s' clients) as [c'|] eqn:Hg; [|done]. cbn in Hs. injection Hs as -> ->. by apply od_get_elem.
    + intros Hin. exists s. split; [destruct s; unfold CLOSE_ORDER; in_list|]. by rewrite (od_get_in s c clients Hnd Hin).
Qed.

Lemma get_client_account s c p p' cs : get_client s p = (Ret c, p') → in_account (mkMachine p cs) → in_account (mkMachine p' cs).
Proof.
  unfold get_client. destruct (od_get s (ps_clients p)) eqn:Hg; [by intros [= _ <-]|]. destruct (environ "REDIS_URL"); [|done]. intros [= _ <-] (Hseq & Hperm & Hnd).
  unfold in_account, accounted in *. cbn [mc_process mc_closings ps_built ps_clients ps_closed] in *. split_and!.
  - rewrite length_app, seq_app, map_app. by rewrite <- Hseq.
  - rewrite od_set_fresh by (by apply od_get_None). rewrite map_app, Hperm. cbn [map snd]. rewrite <- !app_assoc. apply Permutation_app_head.
    rewrite <- Permutation_cons_append. cbn [app]. by rewrite Permutation_middle.
  - by apply od_set_nodup.
Qed.

Lemma resource_step_account m m' : resource_step m m' → in_account m → in_account m'.
Proof.
  intros [s c p p' cs Hg|c p p' cs Hg|cl p p' cs Hb|i outcome cl cl' p p' cs Hi Hne Hc|i cl p cs Hi Hl].
  - by apply (get_client_account s c).
  - revert Hg. unfold get_ingestion_job_dispatcher, mbind, stm_bind, get_st, mret, stm_ret. destruct (ps_dispatcher p); [by intros [= _ <-]|].
    destruct (get_client IngestionClient p) as [[c'|e] p1] eqn:Hc; [|done]. unfold modify. intros [= _ <-] Hok.
    destruct (get_client_account _ _ _ _ cs Hc Hok) as (Hseq & Hperm & Hnd). by split_and!.
  - unfold close_begin in Hb. injection Hb as <- <-. intros (Hseq & Hperm & Hnd). unfold in_account, accounted in *. cbn [mc_process mc_closings ps_built ps_clients ps_closed map app] in *.
    split_and!; [done| |constructor]. rewrite Hperm, flat_map_app. cbn [flat_map cl_left]. rewrite app_nil_r, <- (closing_takes_all _ Hnd), !app_assoc.
    apply Permutation_app_tail, Permutation_app_comm.
  - intros (Hseq & Hperm & Hnd). unfold close_next in Hc. destruct (cl_left cl) as [|c rest] eqn:Hl; [done|].
    assert (p' = record_closed c p ∧ cl_left cl' = rest) as [-> Hl'] by (destruct outcome as [[]|[]]; try done; by injection Hc as <- <-).
    unfold in_account, accounted in *. cbn [mc_process mc_closings record_closed ps_built ps_clients ps_closed] in *. split_and!; [done| |done]. rewrite Hperm. apply Permutation_app_head.
    assert (flat_map cl_left cs ≡ₚ c :: flat_map cl_left (<[i:=cl']> cs)) as ->.
    { rewrite <- (take_drop_middle cs i cl Hi) at 1. rewrite insert_take_drop by (by eapply lookup_lt_Some). rewrite !flat_map_app. cbn [flat_map]. rewrite Hl, Hl'. by rewrite Permutation_middle. }
    rewrite app_assoc, <- Permutation_cons_append. cbn [app]. done.
  - intros (Hseq & Hperm & Hnd). split_and!; [done| |done]. unfold accounted in *. cbn [mc_process mc_closings] in *. rewrite Hperm. apply Permutation_app_head, Permutation_app_tail.
    rewrite <- (take_drop_middle cs i cl Hi) at 1. rewrite delete_take_drop, !flat_map_app. cbn [flat_map]. by rewrite Hl.
Qed.

Lemma reachable_account m : resource_reachable m → in_account m.
Proof.
  unfold resource_reachable. intros Hr. assert (in_account (mkMachine new_process [])) as H0' by (split_and!; [done|done|constructor]).
  induction Hr as [|m1 m2 m3 Hs _ IH]; [done|]. by apply IH, (resource_step_account m1).
Qed.
End machine.

Section shutdown.
Context `{Environ} {W : Type} `{Closable W}.

(** What each call of [aclose] comes to, one after the other. *)
Fixpoint close_outcomes (clients : list Z) (w : W) : list (res unit) * W :=
  match clients with
  | [] => ([], w)
  | c :: rest => let '(r, w) := aclose c w in let '(rs, w) := close_outcomes rest w in (r :: rs, w)
  end.

Definition failures_of (outcomes : list (res unit)) : list exn := omap (λ o : res unit, match o with Raise e => Some e | Ret _ => None end) outcomes.

Definition never_cancelled : Prop := ∀ c w, (aclose c w).1 ≠ Raise CancelledError.

Lemma close_loop_spec clients cl p (w : W) : never_cancelled → cl_left cl = clients →
  close_loop clients cl (p, w) = (Ret (mkClosing [] (cl_failures cl ++ failures_of (close_outcomes clients w).1)),
    (mkProcess (ps_clients p) (ps_dispatcher p) (ps_built p) (ps_closed p ++ clients), (close_outcomes clients w).2)).
Proof.
  intros Hnc. revert cl p w. induction clients as [|c rest IH]; intros [left failures] p w; cbn [cl_left cl_failures]; intros ->; cbn [close_loop close_outcomes].
  { cbn. rewrite !app_nil_r. by destruct p. }
  unfold mbind, stm_bind, on_snd, on_fst. cbn [fst snd]. specialize (Hnc c w) as Hc. destruct (aclose c w) as [r w'] eqn:Hr. cbn [fst snd] in *.
  assert (close_next r (mkClosing (c :: rest) failures) p = (Ret (mkClosing rest (failures ++ failures_of [r])), record_closed c p)) as ->.
  { unfold close_next. cbn [cl_left cl_failures]. destruct r as [[]|e]; cbn; [by rewrite app_nil_r|]. by destruct e. }
  rewrite (IH (mkClosing rest (failures ++ failures_of [r])) (record_closed c p) w' eq_refl). destruct (close_outcomes rest w') as [rs w''] eqn:Hrs. cbn [fst snd record_closed ps_clients ps_dispatcher ps_built ps_closed cl_failures].
  rewrite <- !app_assoc. f_equal. f_equal. f_equal. f_equal. unfold failures_of. cbn [omap list_omap]. by destruct r.
Qed.

End shutdown.

(** ** A worked example *)

#[local] Instance redis_environ : Environ := λ name, if String.eqb name "REDIS_URL" then Some "redis://localhost"%string else None.
(** The second client built fails to close. *)
#[local] Instance close_all_but_one : Closable (list Z) := λ c log, (if c =? 1 then Raise (BackendError "ConnectionError") else Ret tt, log ++ [c]).

Definition after_requests : Process :=
  let '(_, p) := get_client RateLimiterClient new_process in
  let '(_, p) := get_client RefreshTokenClient p in
  let '(_, p) := get_client RateLimiterClient p in
  let '(_, p) := get_ingestion_job_dispatcher p in p.

Lemma requests_reachable : resource_reachable (mkMachine after_requests []).
Proof.
  unfold resource_reachable. eapply rtc_l; [by apply (step_get RateLimiterClient 0)|]. eapply rtc_l; [by apply (step_get RefreshTokenClient 1)|].
  eapply rtc_l; [by apply (step_get RateLimiterClient 0)|]. eapply rtc_l; [by apply (step_dispatcher 2)|]. apply rtc_refl.
Qed.


(** The dispatcher is cached with the client it was built with, and closing does
    not forget it: the next call gets a client that was closed, and whatever that
    one opens again no later closing sees. *)
Lemma dispatcher_keeps_a_closed_client :
  let '(_, (p', _)) := close_redis_clients (after_requests, []) in
  get_ingestion_job_dispatcher p' = (Ret 2, p') ∧ 2 ∈ ps_closed p' ∧ (close_begin p').1 = Ret (mkClosing [] []).
Proof. vm_compute. split; [done|]. split; [|done]. do 2 right. left. Qed.
