(* ===== verification/Offloading.v ===== *)
(** * Tiered offloading

    The six strategies of cag/infrastructure (sequential_offloader.py,
    layerkv_offloader.py, infinigen_offloader.py, kvpr_offloader.py,
    inf2_offloader.py, oneiros_offloader.py) behind the port
    [OffloadingStrategy], and cag/domain/offloading_metrics.py.  Durations are
    doubles; what is proved of them holds of the doubles the code computes. *)

From Stdlib Require Import ZArith Lia Floats.SpecFloat.
From S2P Require Import Prelude PyFloat IntDivision FloatOrder.

Record OffloadWorkload : Type := mkWorkload {
  ow_num_layers : Z;
  ow_compute_ms_per_layer : f64;
  ow_warm_fetch_ms_per_layer : f64;
  ow_cold_fetch_ms_per_layer : f64;
  ow_gpu_layer_capacity : Z
}.

Record OffloadRun : Type := mkRun {
  or_strategy : string;
  or_total_ms : f64;
  or_transfer_ms_issued : f64;
  or_transfer_ms_hidden : f64;
  or_gpu_layers_resident : Z
}.

Class OffloadingStrategy (S : Type) : Type := offload_run : S → OffloadWorkload → res OffloadRun.

(** ** sequential_offloader.py *)

Definition resident_and_offloaded (w : OffloadWorkload) : Z * Z :=
  let resident := Z.min (ow_gpu_layer_capacity w) (ow_num_layers w) in (resident, ow_num_layers w - resident).

(** [int * float]. *)
Definition int_mul (n : Z) (x : f64) : res f64 := f ← int_to_float n; Ret (fmul f x).

Record SequentialOffloader : Type := mkSequential {}.

#[export] Instance sequential_run : OffloadingStrategy SequentialOffloader := λ _ w,
  let '(resident, offloaded) := resident_and_offloaded w in
  compute ← int_mul (ow_num_layers w) (ow_compute_ms_per_layer w);
  transfer ← int_mul offloaded (ow_warm_fetch_ms_per_layer w);
  Ret (mkRun "sequential" (fadd compute transfer) transfer fzero resident).

(** ** layerkv_offloader.py *)

(** [fetch_ms_by_layer[layer + 1]], or 0.0 past the end. *)
Definition next_fetch (fetches : list f64) (layer : nat) : f64 := default fzero (fetches !! S layer).

Definition pipeline_step (compute_ms : f64) (fetches : list f64) (acc : f64 * f64) (layer : nat) : f64 * f64 :=
  (fadd acc.1 (fmax compute_ms (next_fetch fetches layer)), fadd acc.2 (fmin compute_ms (next_fetch fetches layer))).

Definition pipeline_total (num_layers : Z) (compute_ms : f64) (fetches : list f64) : f64 * f64 :=
  foldl (pipeline_step compute_ms fetches) (default fzero (fetches !! 0%nat), fzero) (seq 0 (Z.to_nat num_layers)).

(** One fetch per layer: [here] for the layers on the GPU, [there] for the others. *)
Definition fetches_of (w : OffloadWorkload) (resident : Z) (here there : f64) : list f64 :=
  map (λ layer : nat, if Z.of_nat layer <? resident then here else there) (seq 0 (Z.to_nat (ow_num_layers w))).

Definition pipelined (strategy : string) (w : OffloadWorkload) (resident : Z) (fetches : list f64) : OffloadRun :=
  let '(total, hidden) := pipeline_total (ow_num_layers w) (ow_compute_ms_per_layer w) fetches in
  mkRun strategy total (fsum fetches) hidden resident.

Record LayerKVOffloader : Type := mkLayerKV {}.

#[export] Instance layerkv_run : OffloadingStrategy LayerKVOffloader := λ _ w,
  let resident := (resident_and_offloaded w).1 in
  Ret (pipelined "layerkv" w resident (fetches_of w resident fzero (ow_warm_fetch_ms_per_layer w))).

(** ** infinigen_offloader.py *)

Record InfiniGenOffloader : Type := mkInfiniGen { ig_critical_fraction : f64 }.

Definition InfiniGen_init (critical_fraction : f64) : res InfiniGenOffloader :=
  if negb (flt fzero critical_fraction && fle critical_fraction fone) then Raise (ValueError "critical_fraction must be in (0.0, 1.0]")
  else Ret (mkInfiniGen critical_fraction).

#[export] Instance infinigen_run : OffloadingStrategy InfiniGenOffloader := λ o w,
  let resident := (resident_and_offloaded w).1 in
  let per_layer := fmul (ow_warm_fetch_ms_per_layer w) (ig_critical_fraction o) in
  Ret (pipelined "infinigen" w resident (fetches_of w resident fzero per_layer)).

(** ** kvpr_offloader.py *)

Record KVPROffloader : Type := mkKVPR { kp_recompute_fraction : f64 }.

Definition KVPR_init (recompute_fraction : f64) : res KVPROffloader :=
  if negb (fle fzero recompute_fraction && fle recompute_fraction fone) then Raise (ValueError "recompute_fraction must be between 0.0 and 1.0")
  else Ret (mkKVPR recompute_fraction).

#[export] Instance kvpr_run : OffloadingStrategy KVPROffloader := λ o w,
  let '(resident, offloaded) := resident_and_offloaded w in
  let recompute_ms := fmul (ow_compute_ms_per_layer w) (kp_recompute_fraction o) in
  let transfer_ms := fmul (ow_warm_fetch_ms_per_layer w) (fsub fone (kp_recompute_fraction o)) in
  let stall_per_layer := fmax recompute_ms transfer_ms in
  let hidden_per_layer := fmin recompute_ms transfer_ms in
  compute ← int_mul (ow_num_layers w) (ow_compute_ms_per_layer w);
  stalls ← int_mul offloaded stall_per_layer;
  issued ← int_mul offloaded transfer_ms;
  hidden ← int_mul offloaded hidden_per_layer;
  Ret (mkRun "kvpr" (fadd compute stalls) issued hidden resident).

(** ** inf2_offloader.py *)

Record INF2Offloader : Type := mkINF2 { i2_pcie_reduction : f64; i2_storage_compute_ms : f64 }.

Definition INF2_init (pcie_reduction storage_compute_ms : f64) : res INF2Offloader :=
  if negb (flt fzero pcie_reduction && fle pcie_reduction fone) then Raise (ValueError "pcie_reduction must be in (0.0, 1.0]")
  else if flt storage_compute_ms fzero then Raise (ValueError "storage_compute_ms must be non-negative")
  else Ret (mkINF2 pcie_reduction storage_compute_ms).

#[export] Instance inf2_run : OffloadingStrategy INF2Offloader := λ o w,
  let resident := (resident_and_offloaded w).1 in
  let per_layer := fadd (fmul (ow_cold_fetch_ms_per_layer w) (i2_pcie_reduction o)) (i2_storage_compute_ms o) in
  Ret (pipelined "inf2" w resident (fetches_of w resident fzero per_layer)).

(** ** oneiros_offloader.py *)

Record OneirosOffloader : Type := mkOneiros { on_freed_layer_capacity : Z; on_parameter_stream_ms : f64 }.

Definition Oneiros_init (freed_layer_capacity : Z) (parameter_stream_ms : f64) : res OneirosOffloader :=
  if freed_layer_capacity <? 0 then Raise (ValueError "freed_layer_capacity must be non-negative")
  else if flt parameter_stream_ms fzero then Raise (ValueError "parameter_stream_ms must be non-negative")
  else Ret (mkOneiros freed_layer_capacity parameter_stream_ms).

#[export] Instance oneiros_run : OffloadingStrategy OneirosOffloader := λ o w,
  let resident := Z.min (ow_gpu_layer_capacity w + on_freed_layer_capacity o) (ow_num_layers w) in
  Ret (pipelined "oneiros" w resident
    (fetches_of w resident (on_parameter_stream_ms o) (fadd (ow_warm_fetch_ms_per_layer w) (on_parameter_stream_ms o)))).

(** ** offloading_metrics.py *)

Definition overlap_efficiency (transfer_ms_issued transfer_ms_hidden : f64) : res f64 :=
  if flt transfer_ms_issued fzero || flt transfer_ms_hidden fzero then Raise (ValueError "transfer times must be non-negative")
  else if flt transfer_ms_issued transfer_ms_hidden then Raise (ValueError "hidden transfer time cannot exceed issued transfer time")
  else if feq transfer_ms_issued fzero then Ret fone
  else fdiv transfer_ms_hidden transfer_ms_issued.

Definition effective_context_multiplier (gpu_layer_capacity layers_served : Z) : res f64 :=
  if gpu_layer_capacity <? 1 then Raise (ValueError "gpu_layer_capacity must be at least 1")
  else if layers_served <? 0 then Raise (ValueError "layers_served must be non-negative")
  else int_true_div layers_served gpu_layer_capacity.

Definition latency_cost_ratio (baseline_ms offloaded_ms : f64) : res f64 :=
  if fle baseline_ms fzero then Raise (ValueError "baseline_ms must be positive")
  else if flt offloaded_ms fzero then Raise (ValueError "offloaded_ms must be non-negative")
  else fdiv offloaded_ms baseline_ms.

(** ** What is hidden was issued *)

Lemma fsum_unsigned l : Forall (λ x, unsigned x = true) l → unsigned (fsum l) = true.
Proof. induction l as [|x l IH] using rev_ind; [done|]. rewrite Forall_app, Forall_singleton, fsum_snoc. intros [??]. auto. Qed.

Lemma next_fetch_unsigned fetches layer : Forall (λ x, unsigned x = true) fetches → unsigned (next_fetch fetches layer) = true.
Proof. intros Hf. unfold next_fetch. destruct (fetches !! S layer) as [x|] eqn:Hx; [|done]. by apply (Forall_lookup_1 _ _ _ _ Hf Hx). Qed.

Lemma fle_add x y z : unsigned x = true → unsigned y = true → unsigned z = true → units y = 0 → fle x z = true → fle (fadd x y) z = true.
Proof.
  intros Hx Hy Hz H0. destruct (fadd_units x y Hx Hy) as [Hn Hu]. rewrite !fle_units, !Z.leb_le by done. intros Hle.
  rewrite Hu, H0, Z.add_0_r, rnd_units by done. lia.
Qed.

Definition after_layers (compute_ms : f64) (fetches : list f64) (k : nat) : f64 * f64 :=
  foldl (pipeline_step compute_ms fetches) (default fzero (fetches !! 0%nat), fzero) (seq 0 k).

Lemma after_layers_S c fetches k : after_layers c fetches (S k) = pipeline_step c fetches (after_layers c fetches k) k.
Proof. unfold after_layers. by rewrite seq_S, foldl_app. Qed.

Section pipeline.
Context (c : f64) (fetches : list f64) (Hc : unsigned c = true) (Hf : Forall (λ x, unsigned x = true) fetches).

Lemma after_layers_unsigned k : unsigned (after_layers c fetches k).1 = true ∧ unsigned (after_layers c fetches k).2 = true.
Proof.
  pose proof (next_fetch_unsigned fetches) as Hnext. induction k as [|k [IH1 IH2]].
  - cbn. split; [|done]. destruct (fetches !! 0%nat) as [x|] eqn:Hx; [|done]. by apply (Forall_lookup_1 _ _ _ _ Hf Hx).
  - rewrite after_layers_S. unfold pipeline_step. cbn [fst snd]. auto.
Qed.

(** Up to any layer, what was hidden is no more than what its fetches and the next one come to. *)
Lemma hidden_below_issued k : fle (after_layers c fetches k).2 (fsum (take (S k) fetches)) = true.
Proof.
  induction k as [|k IH].
  - cbn [after_layers seq foldl snd]. rewrite fle_units; [|done|by apply fsum_unsigned, Forall_take]. apply Z.leb_le.
    apply (proj1 (units_range _ (fsum_unsigned _ (Forall_take _ _ _ Hf)))).
  - rewrite after_layers_S. unfold pipeline_step. cbn [fst snd]. destruct (after_layers_unsigned k) as [_ Hh].
    pose proof (next_fetch_unsigned fetches k Hf) as Hnext. pose proof (fmin_unsigned _ _ Hc Hnext) as Hmin.
    unfold next_fetch in *. destruct (fetches !! S k) as [x|] eqn:Hx; cbn [default] in *; [unfold id in *|].
    + rewrite (take_S_r _ _ _ Hx), fsum_snoc. apply fadd_mono; [done|apply fsum_unsigned; by apply Forall_take|done|done|exact IH|].
      rewrite fle_units, fmin_units by done. apply Z.leb_le. lia.
    + apply fle_add; [done|done|apply fsum_unsigned; by apply Forall_take| |].
      * rewrite fmin_units by done. pose proof (units_range c Hc). change (units fzero) with 0. lia.
      * rewrite take_ge in IH |- *; [exact IH|by apply lookup_ge_None_1 in Hx; lia|by apply lookup_ge_None_1 in Hx; lia].
Qed.
End pipeline.

Record workload_ok (w : OffloadWorkload) : Prop := {
  wo_compute : finite_unsigned (ow_compute_ms_per_layer w) = true;
  wo_warm : finite_unsigned (ow_warm_fetch_ms_per_layer w) = true;
  wo_cold : finite_unsigned (ow_cold_fetch_ms_per_layer w) = true
}.

Lemma finite_unsigned_unsigned x : finite_unsigned x = true → unsigned x = true.
Proof. unfold finite_unsigned. by intros [? _]%andb_true_iff. Qed.
#[export] Hint Resolve finite_unsigned_unsigned : core.

(** What was issued and hidden can be scored. *)
Definition accounted (resident : Z) (r : OffloadRun) : Prop :=
  or_gpu_layers_resident r = resident ∧ unsigned (or_total_ms r) = true ∧
  unsigned (or_transfer_ms_issued r) = true ∧ unsigned (or_transfer_ms_hidden r) = true ∧ fle (or_transfer_ms_hidden r) (or_transfer_ms_issued r) = true.

Lemma overlap_efficiency_scored r resident : accounted resident r → is_finite (or_transfer_ms_issued r) = true →
  ∃ e, overlap_efficiency (or_transfer_ms_issued r) (or_transfer_ms_hidden r) = Ret e ∧ fle fzero e = true ∧ fle e fone = true.
Proof.
  intros (_ & _ & Hi & Hh & Hle) Hfin. unfold overlap_efficiency. pose proof (units_range _ Hi) as Hui. pose proof (units_range _ Hh) as Huh.
  pose proof Hle as Hu. rewrite fle_units, Z.leb_le in Hu by done.
  rewrite !flt_units by done. change (units fzero) with 0. rewrite !(proj2 (Z.ltb_ge _ _)) by lia. cbn [orb].
  destruct (feq (or_transfer_ms_issued r) fzero) eqn:Hzero; [by exists fone|].
  assert (finite_unsigned (or_transfer_ms_issued r) = true) as Hfi by (unfold finite_unsigned; by rewrite Hi, Hfin).
  assert (0 < units (or_transfer_ms_issued r)) as Hpos.
  { destruct (or_transfer_ms_issued r) as [s|s| |[] m e]; try done. cbn [unsigned negb andb] in Hi. apply (units_finite m e Hi). }
  destruct (fdiv_raw_le_one (or_transfer_ms_hidden r) (or_transfer_ms_issued r)) as [Hn Hone]; [by eapply finite_below|done|done|done|].
  exists (fdiv_raw (or_transfer_ms_hidden r) (or_transfer_ms_issued r)). split; [|split; [|done]].
  - unfold fdiv. by destruct (or_transfer_ms_issued r).
  - rewrite fle_units by done. apply Z.leb_le. apply (units_range _ Hn).
Qed.

Lemma fetches_of_unsigned w resident here there : unsigned here = true → unsigned there = true → Forall (λ x, unsigned x = true) (fetches_of w resident here there).
Proof. intros Hh Ht. apply Forall_map, Forall_forall. intros layer _. simpl. by destruct (_ <? _). Qed.

Lemma pipelined_accounted strategy w resident here there : workload_ok w → unsigned here = true → unsigned there = true →
  accounted resident (pipelined strategy w resident (fetches_of w resident here there)).
Proof.
  intros Hw Hh Ht. pose proof (fetches_of_unsigned w resident here there Hh Ht) as Hf. pose proof (finite_unsigned_unsigned _ (wo_compute w Hw)) as Hc.
  unfold pipelined. change (pipeline_total (ow_num_layers w) (ow_compute_ms_per_layer w) (fetches_of w resident here there))
    with (after_layers (ow_compute_ms_per_layer w) (fetches_of w resident here there) (Z.to_nat (ow_num_layers w))).
  destruct (after_layers_unsigned _ _ Hc Hf (Z.to_nat (ow_num_layers w))) as [Htot Hhid].
  pose proof (hidden_below_issued _ _ Hc Hf (Z.to_nat (ow_num_layers w))) as Hle.
  rewrite take_ge in Hle by (unfold fetches_of; rewrite length_map, length_seq; lia).
  destruct (after_layers _ _ _) as [total hidden]. split_and!; [done|done|by apply fsum_unsigned|done|done].
Qed.

Lemma int_mul_mono n x y a b : 0 ≤ n → finite_unsigned x = true → finite_unsigned y = true → fle x y = true →
  int_mul n x = Ret a → int_mul n y = Ret b → unsigned a = true ∧ unsigned b = true ∧ fle a b = true.
Proof.
  unfold int_mul. intros Hn Hx Hy Hle. destruct (int_to_float n) as [f|e] eqn:Hf; [|done]. pose proof (int_to_float_unsigned n f Hn Hf) as Hff. intros [= <-] [= <-].
  split; [apply (fmul_units f x Hff Hx)|]. split; [apply (fmul_units f y Hff Hy)|].
  apply fmul_mono; try done. apply fle_refl. by apply unsigned_not_nan, finite_unsigned_unsigned.
Qed.

Lemma fmul_below x y : finite_unsigned x = true → unsigned y = true → fle y fone = true → finite_unsigned (fmul x y) = true ∧ fle (fmul x y) x = true.
Proof.
  intros Hx Hy Hle. assert (finite_unsigned y = true) as Hfy by (by apply (finite_below y fone)).
  destruct (fmul_one x y Hx Hfy) as (Hn & Hl & _). split; [by apply (finite_below _ x); auto|auto].
Qed.

(** A fraction is a number from 0 to 1, in the form the format gives it. *)
Definition fraction (x : f64) : Prop := unsigned x = true ∧ fle x fone = true.

Lemma fmin_below x y : unsigned x = true → unsigned y = true → fle (fmin x y) y = true.
Proof. intros Hx Hy. rewrite fle_units, fmin_units by auto. apply Z.leb_le. lia. Qed.

Lemma fmax_above_l x y z : unsigned x = true → unsigned y = true → unsigned z = true → fle x z = true → fle y z = true → fle (fmax x y) z = true.
Proof. intros Hx Hy Hz. rewrite !fle_units, fmax_units, !Z.leb_le by auto. lia. Qed.

(** The two halves of a KVPR layer. *)
Lemma kvpr_halves o w : workload_ok w → fraction (kp_recompute_fraction o) →
  let recompute := fmul (ow_compute_ms_per_layer w) (kp_recompute_fraction o) in
  let transfer := fmul (ow_warm_fetch_ms_per_layer w) (fsub fone (kp_recompute_fraction o)) in
  finite_unsigned recompute = true ∧ fle recompute (ow_compute_ms_per_layer w) = true ∧
  finite_unsigned transfer = true ∧ fle transfer (ow_warm_fetch_ms_per_layer w) = true.
Proof.
  intros Hw [Hn Hle]. cbv zeta. destruct (fmul_below _ _ (wo_compute w Hw) Hn Hle) as [H1 H2].
  destruct (fsub_units fone (kp_recompute_fraction o)) as [Hs1 Hs2]; [done|by apply (finite_below _ fone)|done|].
  destruct (fmul_below _ _ (wo_warm w Hw) (finite_unsigned_unsigned _ Hs1) Hs2) as [H3 H4]. done.
Qed.

Lemma finite_max x y : finite_unsigned x = true → finite_unsigned y = true → finite_unsigned (fmax x y) = true.
Proof. intros. unfold fmax. by destruct (flt x y). Qed.
Lemma finite_min x y : finite_unsigned x = true → finite_unsigned y = true → finite_unsigned (fmin x y) = true.
Proof. intros. unfold fmin. by destruct (flt y x). Qed.

Lemma offloaded_nonneg w : 0 ≤ (resident_and_offloaded w).2.
Proof. unfold resident_and_offloaded. cbn [snd]. lia. Qed.

Lemma sequential_accounted w r : workload_ok w → 0 ≤ ow_num_layers w → offload_run mkSequential w = Ret r →
  accounted (Z.min (ow_gpu_layer_capacity w) (ow_num_layers w)) r ∧ or_transfer_ms_hidden r = fzero.
Proof.
  intros Hw Hn. unfold offload_run, sequential_run. pose proof (offloaded_nonneg w) as Hoff. unfold resident_and_offloaded in *. cbn [snd] in Hoff.
  destruct (int_mul (ow_num_layers w) _) as [compute|] eqn:Hc; [|done]. cbn [mbind res_bind]. destruct (int_mul (ow_num_layers w - _) _) as [transfer|] eqn:Ht; [|done].
  cbn [mbind res_bind]. intros [= <-].
  pose proof (int_mul_mono _ _ _ _ _ Hn (wo_compute w Hw) (wo_compute w Hw) ltac:(apply fle_refl, unsigned_not_nan; auto using wo_compute) Hc Hc) as (Hc' & _ & _).
  pose proof (int_mul_mono _ _ _ _ _ Hoff (wo_warm w Hw) (wo_warm w Hw) ltac:(apply fle_refl, unsigned_not_nan; auto using wo_warm) Ht Ht) as (Ht' & _ & _).
  split; [|done]. split_and!; [done|by apply fadd_unsigned|done|done|]. cbn [or_transfer_ms_issued or_transfer_ms_hidden].
  rewrite fle_units by done. apply Z.leb_le, (units_range _ Ht').
Qed.

Lemma kvpr_accounted o w r : workload_ok w → 0 ≤ ow_num_layers w → fraction (kp_recompute_fraction o) → offload_run o w = Ret r →
  accounted (Z.min (ow_gpu_layer_capacity w) (ow_num_layers w)) r.
Proof.
  intros Hw Hn Hfrac. unfold offload_run, kvpr_run. pose proof (offloaded_nonneg w) as Hoff. unfold resident_and_offloaded in *. cbn [snd] in Hoff.
  destruct (kvpr_halves o w Hw Hfrac) as (Hr & _ & Ht & _). set (recompute := fmul _ (kp_recompute_fraction o)) in *. set (transfer := fmul _ (fsub _ _)) in *. clearbody recompute transfer.
  destruct (int_mul (ow_num_layers w) _) as [compute|] eqn:Hc; [|done]. cbn [mbind res_bind].
  destruct (int_mul _ (fmax _ _)) as [stalls|] eqn:Hs; [|done]. cbn [mbind res_bind].
  destruct (int_mul _ transfer) as [issued|] eqn:Hi; [|done]. cbn [mbind res_bind].
  destruct (int_mul _ (fmin _ _)) as [hidden|] eqn:Hh; [|done]. cbn [mbind res_bind]. intros [= <-].
  pose proof (int_mul_mono _ _ _ _ _ Hn (wo_compute w Hw) (wo_compute w Hw) ltac:(apply fle_refl, unsigned_not_nan; auto using wo_compute) Hc Hc) as (Hc' & _ & _).
  pose proof (int_mul_mono _ _ _ _ _ Hoff (finite_max _ _ Hr Ht) (finite_max _ _ Hr Ht) ltac:(apply fle_refl, unsigned_not_nan; auto) Hs Hs) as (Hs' & _ & _).
  pose proof (int_mul_mono _ _ _ _ _ Hoff (finite_min _ _ Hr Ht) Ht ltac:(apply fmin_below; auto) Hh Hi) as (Hh' & Hi' & Hle).
  split_and!; [done|by apply fadd_unsigned|done|done|done].
Qed.

(** ** Cheaper fetches, cheaper runs *)

Definition cheaper (x y : f64) : Prop := unsigned x = true ∧ unsigned y = true ∧ fle x y = true.

Lemma cheaper_refl x : unsigned x = true → cheaper x x.
Proof. intros Hx. split_and!; [done|done|]. by apply fle_refl, unsigned_not_nan. Qed.

Lemma cheaper_add x x' y y' : cheaper x x' → cheaper y y' → cheaper (fadd x y) (fadd x' y').
Proof. intros (? & ? & ?) (? & ? & ?). split_and!; [by apply fadd_unsigned..|]. by apply fadd_mono. Qed.

Lemma cheaper_max c x y : unsigned c = true → cheaper x y → cheaper (fmax c x) (fmax c y).
Proof.
  intros Hc (Hx & Hy & Hle). split_and!; [by apply fmax_unsigned..|]. rewrite !fle_units, !fmax_units, !Z.leb_le in * by auto. lia.
Qed.

Lemma fsum_cheaper l l' : Forall2 cheaper l l' → cheaper (fsum l) (fsum l').
Proof.
  revert l'. induction l as [|x l IH] using rev_ind; intros l' Hl.
  - apply Forall2_nil_inv_l in Hl as ->. by apply cheaper_refl.
  - apply Forall2_app_inv_l in Hl as (l1 & l2 & Hl1 & Hl2 & ->). apply Forall2_cons_inv_l in Hl2 as (y & l3 & Hxy & Hl3 & ->).
    apply Forall2_nil_inv_l in Hl3 as ->. rewrite !fsum_snoc. apply cheaper_add; auto.
Qed.

Lemma lookup_cheaper l l' (k : nat) : Forall2 cheaper l l' → cheaper (default fzero (l !! k)) (default fzero (l' !! k)).
Proof.
  intros Hl. destruct (l !! k) as [x|] eqn:Hx.
  - destruct (Forall2_lookup_l _ _ _ _ _ Hl Hx) as (y & -> & Hxy). exact Hxy.
  - apply lookup_ge_None in Hx. rewrite (Forall2_length _ _ _ Hl) in Hx. rewrite (proj2 (lookup_ge_None l' k) Hx). by apply cheaper_refl.
Qed.

Lemma after_layers_cheaper c l l' k : unsigned c = true → Forall2 cheaper l l' → cheaper (after_layers c l k).1 (after_layers c l' k).1.
Proof.
  intros Hc Hl. induction k as [|k IH]; [by apply (lookup_cheaper l l' 0)|]. rewrite !after_layers_S. unfold pipeline_step. cbn [fst].
  apply cheaper_add; [exact IH|]. apply cheaper_max; [done|]. by apply (lookup_cheaper l l' (S k)).
Qed.

Lemma pipelined_cheaper strategy strategy' w resident here there here' there' : unsigned (ow_compute_ms_per_layer w) = true → cheaper here here' → cheaper there there' →
  let r := pipelined strategy w resident (fetches_of w resident here there) in
  let r' := pipelined strategy' w resident (fetches_of w resident here' there') in
  cheaper (or_total_ms r) (or_total_ms r') ∧ cheaper (or_transfer_ms_issued r) (or_transfer_ms_issued r').
Proof.
  intros Hc Hh Ht. assert (Forall2 cheaper (fetches_of w resident here there) (fetches_of w resident here' there')) as Hl.
  { unfold fetches_of. apply Forall2_fmap, Forall_Forall2_diag, Forall_forall. intros layer _. cbn beta. by destruct (_ <? _). }
  unfold pipelined. pose proof (after_layers_cheaper _ _ _ (Z.to_nat (ow_num_layers w)) Hc Hl) as Htot. unfold after_layers in Htot. unfold pipeline_total.
  destruct (foldl _ _ _) as [t h], (foldl _ _ _) as [t' h']. cbn [or_total_ms or_transfer_ms_issued fst] in *. split; [exact Htot|by apply fsum_cheaper].
Qed.

(** ** The properties *)

(** A run that keeps to its capacity and that overlap_efficiency can score. *)
Definition scored (capacity : Z) (w : OffloadWorkload) (outcome : res OffloadRun) : Prop :=
  ∀ r, outcome = Ret r → or_gpu_layers_resident r = Z.min capacity (ow_num_layers w) ∧
    (is_finite (or_transfer_ms_issued r) = true →
     ∃ e, overlap_efficiency (or_transfer_ms_issued r) (or_transfer_ms_hidden r) = Ret e ∧ fle fzero e = true ∧ fle e fone = true).

Lemma scored_accounted capacity w outcome : (∀ r, outcome = Ret r → accounted (Z.min capacity (ow_num_layers w)) r) → scored capacity w outcome.
Proof. intros Hacc r Hr. split; [apply (Hacc r Hr)|]. intros Hfin. by apply (overlap_efficiency_scored r (Z.min capacity (ow_num_layers w))); [apply Hacc|]. Qed.

(** Every offloading strategy answers for its transfers: on a workload of
    finite durations no run keeps more layers on the GPU than fit, and what it
    says it hid is never more than what it says it issued, on the very doubles
    it adds up in different orders, so that overlap_efficiency never rejects a
    run and always scores it between 0 and 1. *)
Theorem offloads_are_accounted w o_infinigen o_kvpr o_inf2 o_oneiros fraction1 fraction2 fraction3 storage_ms freed stream_ms :
  workload_ok w → 0 ≤ ow_num_layers w → unsigned fraction1 = true → unsigned fraction2 = true → unsigned fraction3 = true → unsigned storage_ms = true → unsigned stream_ms = true →
  InfiniGen_init fraction1 = Ret o_infinigen → KVPR_init fraction2 = Ret o_kvpr → INF2_init fraction3 storage_ms = Ret o_inf2 → Oneiros_init freed stream_ms = Ret o_oneiros →
  let capacity := ow_gpu_layer_capacity w in
  scored capacity w (offload_run mkSequential w) ∧ scored capacity w (offload_run mkLayerKV w) ∧
  scored capacity w (offload_run o_infinigen w) ∧ scored capacity w (offload_run o_kvpr w) ∧
  scored capacity w (offload_run o_inf2 w) ∧ scored (capacity + freed) w (offload_run o_oneiros w).
Proof.
  intros Hw Hn Hf1 Hf2 Hf3 Hstorage Hstream Hig Hkp Hi2 Hon capacity.
  unfold InfiniGen_init in Hig. destruct (flt fzero fraction1 && fle fraction1 fone) eqn:H1; [|done]. injection Hig as <-. apply andb_true_iff in H1 as [_ H1].
  unfold KVPR_init in Hkp. destruct (fle fzero fraction2 && fle fraction2 fone) eqn:H2; [|done]. injection Hkp as <-. apply andb_true_iff in H2 as [_ H2].
  unfold INF2_init in Hi2. destruct (flt fzero fraction3 && fle fraction3 fone) eqn:H3; [|done]. destruct (flt storage_ms fzero); [done|]. injection Hi2 as <-. apply andb_true_iff in H3 as [_ H3].
  unfold Oneiros_init in Hon. destruct (freed <? 0); [done|]. destruct (flt stream_ms fzero); [done|]. injection Hon as <-.
  pose proof (fmul_below _ _ (wo_warm w Hw) Hf1 H1) as [Hwarm _]. pose proof (fmul_below _ _ (wo_cold w Hw) Hf3 H3) as [Hcold _].
  split_and!; apply scored_accounted; intros r Hr.
  - by apply sequential_accounted.
  - injection Hr as <-. apply pipelined_accounted; auto using wo_warm.
  - injection Hr as <-. apply pipelined_accounted; auto.
  - by apply (kvpr_accounted (mkKVPR fraction2)).
  - injection Hr as <-. apply pipelined_accounted; auto.
  - injection Hr as <-. apply pipelined_accounted; auto using wo_warm.
Qed.

(** C33: Each mechanism costs no more than what it improves on: InfiniGen, which
    fetches only what it predicts is critical, never issues more transfer and
    never takes longer than LayerKV, and KVPR never takes longer than fetching
    sequentially wherever a layer's compute is no longer than its fetch, for
    every fraction their constructors accept and to the last bit. *)
Theorem offloading_pays w o_infinigen o_kvpr fraction1 fraction2 :
  workload_ok w → 0 ≤ ow_num_layers w → unsigned fraction1 = true → unsigned fraction2 = true →
  InfiniGen_init fraction1 = Ret o_infinigen → KVPR_init fraction2 = Ret o_kvpr →
  (∃ r r', offload_run o_infinigen w = Ret r ∧ offload_run mkLayerKV w = Ret r' ∧ or_gpu_layers_resident r = or_gpu_layers_resident r' ∧
     fle (or_total_ms r) (or_total_ms r') = true ∧ fle (or_transfer_ms_issued r) (or_transfer_ms_issued r') = true) ∧
  (fle (ow_compute_ms_per_layer w) (ow_warm_fetch_ms_per_layer w) = true → ∀ r r', offload_run o_kvpr w = Ret r → offload_run mkSequential w = Ret r' →
     fle (or_total_ms r) (or_total_ms r') = true ∧ fle (or_transfer_ms_issued r) (or_transfer_ms_issued r') = true).
Proof.
  intros Hw Hn Hf1 Hf2 Hig Hkp.
  unfold InfiniGen_init in Hig. destruct (flt fzero fraction1 && fle fraction1 fone) eqn:H1; [|done]. injection Hig as <-. apply andb_true_iff in H1 as [_ H1].
  unfold KVPR_init in Hkp. destruct (fle fzero fraction2 && fle fraction2 fone) eqn:H2; [|done]. injection Hkp as <-. apply andb_true_iff in H2 as [_ H2].
  destruct (fmul_below _ _ (wo_warm w Hw) Hf1 H1) as [Hwarm Hle]. split.
  - eexists _, _. do 2 (split; [reflexivity|]).
    destruct (pipelined_cheaper "infinigen" "layerkv" w (resident_and_offloaded w).1 fzero (fmul (ow_warm_fetch_ms_per_layer w) fraction1) fzero (ow_warm_fetch_ms_per_layer w)) as [(_ & _ & Ht) (_ & _ & Hi)];
      [auto using wo_compute|by apply cheaper_refl|split_and!; auto using wo_warm|].
    split_and!; [|exact Ht|exact Hi]. cbn [ig_critical_fraction]. unfold pipelined. by repeat destruct (pipeline_total _ _ _).
  - intros Hcw r r' Hr Hr'. unfold offload_run, kvpr_run, sequential_run in *. pose proof (offloaded_nonneg w) as Hoff. unfold resident_and_offloaded in *. cbn [snd] in Hoff.
    destruct (kvpr_halves (mkKVPR fraction2) w Hw (conj Hf2 H2)) as (Hrec & Hrec' & Htr & Htr'). cbn [kp_recompute_fraction] in *.
    set (recompute := fmul _ fraction2) in *. set (transfer := fmul _ (fsub _ _)) in *. clearbody recompute transfer.
    destruct (int_mul (ow_num_layers w) _) as [compute|] eqn:Hc; [|done]. cbn [mbind res_bind] in *.
    destruct (int_mul _ (fmax _ _)) as [stalls|] eqn:Hs; [|done]. destruct (int_mul _ transfer) as [issued|] eqn:Hi; [|done]. destruct (int_mul _ (fmin _ _)) as [hidden|] eqn:Hh; [|done].
    destruct (int_mul _ (ow_warm_fetch_ms_per_layer w)) as [fetched|] eqn:Hfe; [|done]. cbn [mbind res_bind] in *. injection Hr as <-. injection Hr' as <-. cbn [or_total_ms or_transfer_ms_issued].
    pose proof (int_mul_mono _ _ _ _ _ Hn (wo_compute w Hw) (wo_compute w Hw) ltac:(apply fle_refl, unsigned_not_nan; auto using wo_compute) Hc Hc) as (Hc' & _ & _).
    assert (fle (fmax recompute transfer) (ow_warm_fetch_ms_per_layer w) = true) as Hmax.
    { apply fmax_above_l; auto using wo_warm. by apply (fle_trans _ (ow_compute_ms_per_layer w)). }
    pose proof (int_mul_mono _ _ _ _ _ Hoff (finite_max _ _ Hrec Htr) (wo_warm w Hw) Hmax Hs Hfe) as (Hs' & Hfe' & Hle1).
    pose proof (int_mul_mono _ _ _ _ _ Hoff Htr (wo_warm w Hw) Htr' Hi Hfe) as (_ & _ & Hle2).
    split; [|exact Hle2]. apply fadd_mono; [done..| |done]. apply fle_refl. by apply unsigned_not_nan.
Qed.

(** ** Worked examples *)

(** Eight layers of which four fit; the durations of the long-context pipeline. *)
Definition sample_workload : OffloadWorkload := mkWorkload 8 (flit 10 1) (flit 6 1) (flit 40 1) 4.

Lemma sample_workload_ok : workload_ok sample_workload.
Proof. by split. Qed.

(** Sequential fetching hides nothing; what all fits scores 1 all the same. *)
Example sequential_scores :
  (r ← offload_run mkSequential sample_workload; overlap_efficiency (or_transfer_ms_issued r) (or_transfer_ms_hidden r)) = Ret fzero ∧
  (r ← offload_run mkSequential (mkWorkload 4 (flit 10 1) (flit 6 1) (flit 40 1) 4); overlap_efficiency (or_transfer_ms_issued r) (or_transfer_ms_hidden r)) = Ret fone.
Proof. by vm_compute. Qed.

Lemma offloads_are_accounted_witness :
  let w := sample_workload in let half := flit 1 2 in
  scored 4 w (offload_run mkSequential w) ∧ scored 4 w (offload_run mkLayerKV w) ∧ scored 4 w (offload_run (mkInfiniGen half) w) ∧
  scored 4 w (offload_run (mkKVPR half) w) ∧ scored 4 w (offload_run (mkINF2 half fone) w) ∧ scored (4 + 2) w (offload_run (mkOneiros 2 fone) w).
Proof.
  exact (offloads_are_accounted sample_workload (mkInfiniGen (flit 1 2)) (mkKVPR (flit 1 2)) (mkINF2 (flit 1 2) fone) (mkOneiros 2 fone) (flit 1 2) (flit 1 2) (flit 1 2) fone 2 fone
    sample_workload_ok ltac:(done) eq_refl eq_refl eq_refl eq_refl eq_refl eq_refl eq_refl eq_refl eq_refl).
Defined.

Lemma offloading_pays_witness :
  let w := mkWorkload 8 (flit 5 1) (flit 6 1) (flit 40 1) 4 in let third := flit 1 3 in
  (∃ r r', offload_run (mkInfiniGen third) w = Ret r ∧ offload_run mkLayerKV w = Ret r' ∧ or_gpu_layers_resident r = or_gpu_layers_resident r' ∧
     fle (or_total_ms r) (or_total_ms r') = true ∧ fle (or_transfer_ms_issued r) (or_transfer_ms_issued r') = true) ∧
  (∀ r r', offload_run (mkKVPR third) w = Ret r → offload_run mkSequential w = Ret r' →
     fle (or_total_ms r) (or_total_ms r') = true ∧ fle (or_transfer_ms_issued r) (or_transfer_ms_issued r') = true).
Proof.
  destruct (offloading_pays (mkWorkload 8 (flit 5 1) (flit 6 1) (flit 40 1) 4) (mkInfiniGen (flit 1 3)) (mkKVPR (flit 1 3)) (flit 1 3) (flit 1 3)
    ltac:(by split) ltac:(done) eq_refl eq_refl eq_refl eq_refl) as [Hig Hkp].
  split; [exact Hig|exact (Hkp eq_refl)].
Defined.
