(* ===== verification/Compressors.v ===== *)
(** * KV-cache compression

    The compressors of cag/infrastructure (kivi_compressor.py,
    kvquant_compressor.py, palu_compressor.py, shadowkv_compressor.py) behind
    the port [KVCacheCompressor], minicache_compressor.py over two layers, and
    cag/domain/compression_metrics.py and payload_footprint.py.  A tensor is a
    list of rows of doubles.  NumPy's decomposition and product, the statistics
    module and the C library's acos and sin are parameters. *)

From Stdlib Require Import ZArith Lia Floats.SpecFloat.
From S2P Require Import Prelude PyFloat IntDivision PySeq Evictors RagPorts Chunking.

Abbreviation Matrix := (list (list f64)) (only parsing).

(** What a compressor makes of a tensor; each has a payload of its own. *)
Record CompressedKV (P : Type) : Type := mkCompressed {
  ck_method : string;
  ck_payload : P;
  ck_original_shape : Z * Z
}.
Arguments mkCompressed {P}.
Arguments ck_method {P}.
Arguments ck_payload {P}.
Arguments ck_original_shape {P}.

Class KVCacheCompressor (C P : Type) : Type := {
  compress : C → Matrix → res (CompressedKV P);
  decompress : C → CompressedKV P → res Matrix
}.

Definition kv_empty : exn := ValueError "kv must be non-empty".
Definition wrong_method (expected got : string) : exn := ValueError ("expected a '" +:+ expected +:+ "' payload, got '" +:+ got +:+ "'").
Definition bits_range : exn := ValueError "bits must be between 1 and 16".

Definition width (m : Matrix) : nat := match m with [] => 0%nat | row :: _ => length row end.

(** [[row[channel] for row in kv]]. *)
Definition channel_values (m : Matrix) (channel : nat) : res (list f64) := res_mapM (py_index (Z.of_nat channel)) m.

(** Rows out of columns of one length. *)
Definition rows_of_columns {A} (d : A) (n : nat) (columns : list (list A)) : list (list A) :=
  map (λ i : nat, map (λ column, default d (column !! i)) columns) (seq 0 n).

(** ** kivi_compressor.py *)

Module KIVI.
Record KIVIPayload : Type := mkPayload {
  quantized_groups : list (list (list Z));
  scales : list (list f64);
  zero_points : list (list f64);
  residual_rows : Matrix;
  group_size : Z
}.

Record KIVICompressor : Type := mkKIVI { kc_group_size : Z; kc_levels : Z }.

Definition KIVI_init (size bits : Z) : res KIVICompressor :=
  if size <? 1 then Raise (ValueError "group_size must be at least 1")
  else if negb ((1 <=? bits) && (bits <=? 16)) then Raise bits_range
  else Ret (mkKIVI size (2 ^ bits - 1)).

(** Scale, zero point and codes of a channel of a group. *)
Definition linear_channel (levels : Z) (values : list f64) : res (f64 * f64 * list Z) :=
  match values with
  | [] => Raise (ValueError "min() arg is an empty sequence")
  | v0 :: rest =>
      let channel_min := py_min v0 rest in
      let channel_range := fsub (py_max v0 rest) channel_min in
      scale ← (if flt fzero channel_range then l ← int_to_float levels; fdiv channel_range l else Ret fone);
      codes ← res_mapM (λ value, q ← fdiv (fsub value channel_min) scale; py_round q) values;
      Ret (scale, channel_min, codes)
  end.

Definition quantize_group (levels : Z) (num_channels : nat) (group : Matrix) : res (list (list Z) * list f64 * list f64) :=
  channels ← res_mapM (λ channel, values ← channel_values group channel; linear_channel levels values) (seq 0 num_channels);
  Ret (rows_of_columns 0 (length group) (map snd channels), map (λ c, c.1.1) channels, map (λ c, c.1.2) channels).

(** The full groups, then the rows left over. *)
Fixpoint compress_groups (c : KIVICompressor) (num_channels : nat) (kv : Matrix) (starts : list Z) :
  res (list (list (list Z) * list f64 * list f64) * Matrix) :=
  match starts with
  | [] => Ret ([], [])
  | start :: starts =>
      let group := py_slice start (start + kc_group_size c) kv in
      if Z.of_nat (length group) <? kc_group_size c then Ret ([], group)
      else
        quantized ← quantize_group (kc_levels c) num_channels group;
        '(groups, residual) ← compress_groups c num_channels kv starts;
        Ret (quantized :: groups, residual)
  end.

Definition KIVI_compress (c : KIVICompressor) (kv : Matrix) : res (CompressedKV KIVIPayload) :=
  match kv with
  | [] => Raise kv_empty
  | _ =>
      '(groups, residual) ← compress_groups c (width kv) kv (range_step (Z.of_nat (length kv)) (kc_group_size c));
      Ret (mkCompressed "kivi" (mkPayload (map (λ g, g.1.1) groups) (map (λ g, g.1.2) groups) (map snd groups) residual (kc_group_size c))
        (Z.of_nat (length kv), Z.of_nat (width kv)))
  end.

Definition dequantize_row (group_scales group_zero_points : list f64) (row : list Z) : res (list f64) :=
  res_mapM (λ channel,
    zero ← py_index (Z.of_nat channel) group_zero_points;
    code ← py_index (Z.of_nat channel) row;
    scale ← py_index (Z.of_nat channel) group_scales;
    code ← int_to_float code;
    Ret (fadd zero (fmul code scale))) (seq 0 (length row)).

Definition KIVI_decompress (_ : KIVICompressor) (compressed : CompressedKV KIVIPayload) : res Matrix :=
  if negb (String.eqb (ck_method compressed) "kivi") then Raise (wrong_method "kivi" (ck_method compressed))
  else
    let payload := ck_payload compressed in
    pairs ← zip_strict (quantized_groups payload) (scales payload);
    triples ← zip_strict pairs (zero_points payload);
    rows ← res_mapM (λ t, res_mapM (dequantize_row t.1.2 t.2) t.1.1) triples;
    Ret (concat rows ++ residual_rows payload).

#[global] Instance kivi_compressor : KVCacheCompressor KIVICompressor KIVIPayload := {| compress := KIVI_compress; decompress := KIVI_decompress |}.
End KIVI.

(** ** kvquant_compressor.py *)

(** [bisect.bisect_right(a, x)]: every round halves [hi - lo]. *)
Fixpoint bisect_loop (fuel : nat) (a : list f64) (x : f64) (lo hi : nat) : nat :=
  match fuel with
  | O => lo
  | S fuel =>
      if (lo <? hi)%nat then
        let mid := ((lo + hi) / 2)%nat in
        if flt x (default fzero (a !! mid)) then bisect_loop fuel a x lo mid else bisect_loop fuel a x (S mid) hi
      else lo
  end.
Definition bisect_right (a : list f64) (x : f64) : nat := bisect_loop (S (length a)) a x 0 (length a).

Module KVQuant.
Section compressor.
Context `{Statistics}.

Record KVQuantPayload : Type := mkPayload {
  bits : Z;
  num_levels : Z;
  codes : list (list Z);
  codebooks : list (list f64);
  outliers : gmap (nat * nat) f64;
  outlier_std_threshold : f64
}.

Record KVQuantCompressor : Type := mkKVQuant { kq_bits : Z; kq_num_levels : Z; kq_outlier_std_threshold : f64 }.

Definition KVQuant_init (bits : Z) (threshold : f64) : res KVQuantCompressor :=
  if negb ((1 <=? bits) && (bits <=? 16)) then Raise bits_range
  else if fle threshold fzero then Raise (ValueError "outlier_std_threshold must be positive")
  else Ret (mkKVQuant bits (2 ^ bits) threshold).

Definition bucket_of (levels : Z) (boundaries : list f64) (value : f64) : Z := Z.min (Z.of_nat (bisect_right boundaries value)) (levels - 1).

Definition boundary (levels : Z) (sorted_values : list f64) (level : Z) : res f64 :=
  let count := Z.of_nat (length sorted_values) in
  x ← int_true_div (level * count) levels;
  n ← py_round x;
  py_index (Z.min n (count - 1)) sorted_values.

Definition _build_quantile_buckets (levels : Z) (inlier_values : list f64) (channel_mean : f64) : res (list f64 * list f64) :=
  match inlier_values with
  | [] => Ret ([], replicate (Z.to_nat levels) channel_mean)
  | _ =>
      let sorted_values := sorted_asc (λ x, x) inlier_values in
      boundaries ← res_mapM (boundary levels sorted_values) (py_range 1 levels);
      codebook ← res_mapM (λ level,
        match filter (λ v, bucket_of levels boundaries v = level) sorted_values with
        | [] => Ret channel_mean
        | bucket => st_fmean bucket
        end) (py_range 0 levels);
      Ret (boundaries, codebook)
  end.

Definition is_outlier (threshold mean spread value : f64) : bool :=
  flt fzero spread && flt (fmul threshold spread) (fabs (fsub value mean)).

(** A channel: the codes of its rows, -1 for an outlier, and its codebook. *)
Definition quantize_channel (c : KVQuantCompressor) (values : list f64) : res (list (Z * f64) * list f64) :=
  channel_mean ← st_fmean values;
  channel_spread ← st_pstdev values;
  let out := is_outlier (kq_outlier_std_threshold c) channel_mean channel_spread in
  '(boundaries, codebook) ← _build_quantile_buckets (kq_num_levels c) (filter (λ v, negb (out v)) values) channel_mean;
  Ret (map (λ v, (if out v then -1 else bucket_of (kq_num_levels c) boundaries v, v)) values, codebook).

(** The outliers of a channel, by row. *)
Definition outliers_of (channel : nat) (entries : list (Z * f64)) : list ((nat * nat) * f64) :=
  omap (λ e : nat * (Z * f64), if e.2.1 =? -1 then Some ((e.1, channel), e.2.2) else None) (imap pair entries).

Definition KVQuant_compress (c : KVQuantCompressor) (kv : Matrix) : res (CompressedKV KVQuantPayload) :=
  match kv with
  | [] => Raise kv_empty
  | _ =>
      if existsb (λ row, negb (length row =? width kv)%nat) kv then Raise (ValueError "every row must have the same number of channels")
      else
        channels ← res_mapM (λ channel, values ← channel_values kv channel; quantize_channel c values) (seq 0 (width kv));
        Ret (mkCompressed "kvquant"
          (mkPayload (kq_bits c) (kq_num_levels c) (rows_of_columns (-1) (length kv) (map (λ ch, map fst ch.1) channels)) (map snd channels)
             (list_to_map (concat (imap (λ channel ch, outliers_of channel ch.1) channels))) (kq_outlier_std_threshold c))
          (Z.of_nat (length kv), Z.of_nat (width kv)))
  end.

Definition decode (payload : KVQuantPayload) (row_index channel : nat) (code : Z) : res f64 :=
  match outliers payload !! (row_index, channel) with
  | Some value => Ret value
  | None => codebook ← py_index (Z.of_nat channel) (codebooks payload); py_index code codebook
  end.

(** [enumerate] and a body. *)
Fixpoint mapi_res {A B} (f : nat → A → res B) (start : nat) (l : list A) : res (list B) :=
  match l with
  | [] => Ret []
  | x :: l => y ← f start x; ys ← mapi_res f (S start) l; Ret (y :: ys)
  end.

Definition KVQuant_decompress (_ : KVQuantCompressor) (compressed : CompressedKV KVQuantPayload) : res Matrix :=
  if negb (String.eqb (ck_method compressed) "kvquant") then Raise (wrong_method "kvquant" (ck_method compressed))
  else mapi_res (λ row_index code_row, mapi_res (decode (ck_payload compressed) row_index) 0 code_row) 0 (codes (ck_payload compressed)).

#[global] Instance kvquant_compressor : KVCacheCompressor KVQuantCompressor KVQuantPayload := {| compress := KVQuant_compress; decompress := KVQuant_decompress |}.
End compressor.
End KVQuant.

(** ** palu_compressor.py *)

(** [numpy.linalg.svd(m, full_matrices=False)] and [a @ b]. *)
Class Numpy : Type := { np_svd : Matrix → res (Matrix * list f64 * Matrix); np_matmul : Matrix → Matrix → res Matrix }.

(** [numpy.array(m)] refuses rows of different lengths. *)
Definition np_array (m : Matrix) : res Matrix :=
  if existsb (λ row, negb (length row =? width m)%nat) m then Raise (ValueError "setting an array element with a sequence") else Ret m.

Module PALU.
Section compressor.
Context `{Numpy}.

Record PALUPayload : Type := mkPayload { H_ : Matrix; B_ : Matrix; rank_ : Z }.
Record PALUCompressor : Type := mkPALU { pc_rank : Z }.

Definition PALU_init (rank : Z) : res PALUCompressor := if rank <? 1 then Raise (ValueError "rank must be at least 1") else Ret (mkPALU rank).

Definition PALU_compress (c : PALUCompressor) (kv : Matrix) : res (CompressedKV PALUPayload) :=
  match kv with
  | [] => Raise kv_empty
  | _ =>
      matrix ← np_array kv;
      let num_tokens := Z.of_nat (length matrix) in
      let num_channels := Z.of_nat (width matrix) in
      let effective_rank := Z.min (Z.min (pc_rank c) num_tokens) num_channels in
      '(u, s, vh) ← np_svd matrix;
      let k := Z.to_nat effective_rank in
      Ret (mkCompressed "palu" (mkPayload (map (λ row, zip_with fmul (take k row) (take k s)) u) (take k vh) effective_rank) (num_tokens, num_channels))
  end.

Definition PALU_decompress (_ : PALUCompressor) (compressed : CompressedKV PALUPayload) : res Matrix :=
  if negb (String.eqb (ck_method compressed) "palu") then Raise (wrong_method "palu" (ck_method compressed))
  else
    h ← np_array (H_ (ck_payload compressed));
    b ← np_array (B_ (ck_payload compressed));
    np_matmul h b.

#[global] Instance palu_compressor : KVCacheCompressor PALUCompressor PALUPayload := {| compress := PALU_compress; decompress := PALU_decompress |}.
End compressor.
End PALU.

(** ** shadowkv_compressor.py *)

Module ShadowKV.
Section compressor.
Context `{Numpy}.

Record ShadowKVPayload : Type := mkPayload {
  palu_B : Matrix;
  sparse_h_entries : list (nat * nat * Z);
  h_shape : nat * nat;
  scale_ : f64;
  zero_point : f64
}.

Record ShadowKVCompressor : Type := mkShadowKV { sc_palu : PALU.PALUCompressor; sc_sparsity_ratio : f64; sc_bits : Z; sc_levels : Z }.

Definition ShadowKV_init (rank : Z) (sparsity_ratio : f64) (bits : Z) : res ShadowKVCompressor :=
  if negb (fle fzero sparsity_ratio && fle sparsity_ratio fone) then Raise (ValueError "sparsity_ratio must be between 0.0 and 1.0")
  else if negb ((1 <=? bits) && (bits <=? 16)) then Raise bits_range
  else palu ← PALU.PALU_init rank; Ret (mkShadowKV palu sparsity_ratio bits (2 ^ bits - 1)).

Definition _quantization_params (levels : Z) (values : list f64) : res (f64 * f64) :=
  match values with
  | [] => Ret (fone, fzero)
  | v0 :: rest =>
      let low := py_min v0 rest in
      let value_range := fsub (py_max v0 rest) low in
      scale ← (if flt fzero value_range then l ← int_to_float levels; fdiv value_range l else Ret fone);
      Ret (scale, low)
  end.

Definition _quantize (value scale zero_point : f64) : res Z := q ← fdiv (fsub value zero_point) scale; py_round q.
Definition _dequantize (quantized_value : Z) (scale zero_point : f64) : res f64 := q ← int_to_float quantized_value; Ret (fadd zero_point (fmul q scale)).

(** Every entry of the latent, in row order. *)
Definition flat_entries (h : Matrix) : res (list (nat * nat * f64)) :=
  rows ← res_mapM (λ p : nat * list f64, res_mapM (λ col, value ← py_index (Z.of_nat col) p.2; Ret (p.1, col, value)) (seq 0 (width h))) (imap pair h);
  Ret (concat rows).

(** The entries left when the smallest share is dropped. *)
Definition surviving_entries (ratio : f64) (entries : list (nat * nat * f64)) : res (list (nat * nat * f64)) :=
  n ← int_to_float (Z.of_nat (length entries));
  drop_count ← py_round (fmul n ratio);
  Ret (py_slice drop_count (Z.of_nat (length entries)) (sorted_asc (λ e, fabs e.2) entries)).

Definition ShadowKV_compress (c : ShadowKVCompressor) (kv : Matrix) : res (CompressedKV ShadowKVPayload) :=
  palu_compressed ← PALU.PALU_compress (sc_palu c) kv;
  let h := PALU.H_ (ck_payload palu_compressed) in
  entries ← flat_entries h;
  surviving ← surviving_entries (sc_sparsity_ratio c) entries;
  '(scale, zero) ← _quantization_params (sc_levels c) (map snd surviving);
  sparse ← res_mapM (λ e : nat * nat * f64, q ← _quantize e.2 scale zero; Ret (e.1, q)) surviving;
  Ret (mkCompressed "shadowkv" (mkPayload (PALU.B_ (ck_payload palu_compressed)) sparse (length h, width h) scale zero) (ck_original_shape palu_compressed)).

(** [h[row][col] = value]. *)
Definition set_entry (h : Matrix) (row col : nat) (value : f64) : res Matrix :=
  match h !! row with
  | Some r => if (col <? length r)%nat then Ret (<[row := <[col := value]> r]> h) else Raise IndexError
  | None => Raise IndexError
  end.

Fixpoint fill (scale zero : f64) (h : Matrix) (entries : list (nat * nat * Z)) : res Matrix :=
  match entries with
  | [] => Ret h
  | (row, col, q) :: entries => value ← _dequantize q scale zero; h ← set_entry h row col value; fill scale zero h entries
  end.

Definition ShadowKV_decompress (_ : ShadowKVCompressor) (compressed : CompressedKV ShadowKVPayload) : res Matrix :=
  if negb (String.eqb (ck_method compressed) "shadowkv") then Raise (wrong_method "shadowkv" (ck_method compressed))
  else
    let payload := ck_payload compressed in
    let '(num_rows, num_cols) := h_shape payload in
    h ← fill (scale_ payload) (zero_point payload) (replicate num_rows (replicate num_cols fzero)) (sparse_h_entries payload);
    let b := palu_B payload in
    res_mapM (λ hrow,
      b0 ← py_index 0 b;
      res_mapM (λ col,
        terms ← res_mapM (λ k, x ← py_index (Z.of_nat k) hrow; brow ← py_index (Z.of_nat k) b; y ← py_index (Z.of_nat col) brow; Ret (fmul x y)) (seq 0 num_cols);
        Ret (fsum terms)) (seq 0 (length b0))) h.

#[global] Instance shadowkv_compressor : KVCacheCompressor ShadowKVCompressor ShadowKVPayload := {| compress := ShadowKV_compress; decompress := ShadowKV_decompress |}.
End compressor.
End ShadowKV.

(** ** minicache_compressor.py *)

(** The C library's inverse cosine and sine. *)
Class Trigonometry : Type := { tr_acos : f64 → f64; tr_sin : f64 → f64 }.

Module MiniCache.
Section compressor.
Context `{Trigonometry}.

Record MiniCachePayload : Type := mkPayload { shared_directions : Matrix; magnitudes_a : list f64; magnitudes_b : list f64 }.

Definition _NEAR_PARALLEL_SIN_THETA : f64 := flit 1 1000000.

Definition _unit (row : list f64) (magnitude : f64) : res (list f64) :=
  if feq magnitude fzero then Ret (replicate (length row) fzero) else res_mapM (λ value, fdiv value magnitude) row.

Definition dot_product (u v : list f64) : res f64 := pairs ← zip_strict u v; Ret (fsum (map (λ p, fmul p.1 p.2) pairs)).

Definition blend (coefficient_u coefficient_v : f64) (u v : list f64) : res (list f64) :=
  pairs ← zip_strict u v; Ret (map (λ p, fadd (fmul coefficient_u p.1) (fmul coefficient_v p.2)) pairs).

Definition _slerp (u v : list f64) (t : f64) : res (list f64) :=
  dot ← dot_product u v;
  let dot := fmax (fopp fone) (fmin fone dot) in
  let theta := tr_acos dot in
  let sin_theta := tr_sin theta in
  if flt sin_theta _NEAR_PARALLEL_SIN_THETA then blend (fsub fone t) t u v
  else
    coefficient_u ← fdiv (tr_sin (fmul (fsub fone t) theta)) sin_theta;
    coefficient_v ← fdiv (tr_sin (fmul t theta)) sin_theta;
    blend coefficient_u coefficient_v u v.

Definition merge_rows (row_a row_b : list f64) : res (list f64 * f64 * f64) :=
  let magnitude_a := norm row_a in
  let magnitude_b := norm row_b in
  direction_a ← _unit row_a magnitude_a;
  direction_b ← _unit row_b magnitude_b;
  shared ← _slerp direction_a direction_b (flit 1 2);
  Ret (shared, magnitude_a, magnitude_b).

Definition MiniCache_compress (layer_a layer_b : Matrix) : res (CompressedKV MiniCachePayload) :=
  if match layer_a, layer_b with [], _ | _, [] => true | _, _ => false end then Raise (ValueError "layer_a and layer_b must be non-empty")
  else if negb (length layer_a =? length layer_b)%nat then Raise (ValueError "layer_a and layer_b must have the same number of tokens")
  else if existsb (λ row, negb (length row =? width layer_a)%nat) (layer_a ++ layer_b) then
    Raise (ValueError "all rows in both layers must have the same number of channels")
  else
    pairs ← zip_strict layer_a layer_b;
    merged ← res_mapM (λ p, merge_rows p.1 p.2) pairs;
    Ret (mkCompressed "minicache" (mkPayload (map (λ m, m.1.1) merged) (map (λ m, m.1.2) merged) (map snd merged))
      (Z.of_nat (length layer_a), Z.of_nat (width layer_a))).

Definition scale_rows (magnitudes : list f64) (directions : Matrix) : res Matrix :=
  pairs ← zip_strict magnitudes directions; Ret (map (λ p, map (fmul p.1) p.2) pairs).

Definition MiniCache_decompress (compressed : CompressedKV MiniCachePayload) : res (Matrix * Matrix) :=
  if negb (String.eqb (ck_method compressed) "minicache") then Raise (wrong_method "minicache" (ck_method compressed))
  else
    let payload := ck_payload compressed in
    layer_a ← scale_rows (magnitudes_a payload) (shared_directions payload);
    layer_b ← scale_rows (magnitudes_b payload) (shared_directions payload);
    Ret (layer_a, layer_b).
End compressor.
End MiniCache.

(** ** compression_metrics.py *)

Definition compression_ratio (original_bit_width : f64) (original_element_count : Z) (compressed_bit_width : f64) (compressed_element_count : Z) : res f64 :=
  if fle compressed_bit_width fzero || (compressed_element_count <=? 0) then Raise (ValueError "compressed size must be a positive number of bits")
  else
    n ← int_to_float original_element_count;
    k ← int_to_float compressed_element_count;
    fdiv (fmul original_bit_width n) (fmul compressed_bit_width k).

Definition row_error (acc : f64 * Z) (rows : list f64 * list f64) : res (f64 * Z) :=
  if negb (length rows.1 =? length rows.2)%nat then Raise (ValueError "original and reconstructed rows must have the same length")
  else Ret (foldl (λ (a : f64 * Z) (v : f64 * f64), (fadd a.1 (fabs (fsub v.1 v.2)), a.2 + 1)) acc (zip rows.1 rows.2)).

Fixpoint rows_error (acc : f64 * Z) (rows : list (list f64 * list f64)) : res (f64 * Z) :=
  match rows with [] => Ret acc | p :: rows => acc ← row_error acc p; rows_error acc rows end.

Definition reconstruction_error (original reconstructed : Matrix) : res f64 :=
  if match original, reconstructed with [], _ | _, [] => true | _, _ => false end then Raise (ValueError "original and reconstructed must be non-empty")
  else if negb (length original =? length reconstructed)%nat then Raise (ValueError "original and reconstructed must have the same number of rows")
  else
    '(total, count) ← rows_error (fzero, 0) (zip original reconstructed);
    n ← int_to_float count;
    fdiv total n.

(** ** payload_footprint.py *)

(** A payload's values, as far as their cost in bits tells them apart. *)
Inductive value : Type :=
  | VInt (n : Z)
  | VFloat (x : f64)
  | VBool (b : bool)
  | VList (l : list value)
  | VOther.

Class Payload (P : Type) : Type := payload_values : P → list value.

Fixpoint bits_of (int_bits : f64) (v : value) : f64 :=
  match v with
  | VList l => fsum (map (bits_of int_bits) l)
  | VBool _ => fzero
  | VInt _ => int_bits
  | VFloat _ => flit 32 1
  | VOther => fzero
  end.

Definition payload_bits {P} `{Payload P} (payload : P) (quantized_bit_width : Z) : res f64 :=
  if quantized_bit_width <? 1 then Raise (ValueError "quantized_bit_width must be at least 1")
  else int_bits ← int_to_float quantized_bit_width; Ret (fsum (map (bits_of int_bits) (payload_values payload))).

Definition dense_bits (rows channels bit_width : Z) : res f64 :=
  if (rows <? 0) || (channels <? 0) then Raise (ValueError "rows and channels must be non-negative")
  else if bit_width <? 1 then Raise (ValueError "bit_width must be at least 1")
  else int_to_float (rows * channels * bit_width).

Definition floats (l : list f64) : value := VList (map VFloat l).
Definition ints (l : list Z) : value := VList (map VInt l).
Definition matrix_value (m : Matrix) : value := VList (map floats m).

(** The dict each TypedDict is: a tuple and a dict are neither list nor number. *)
#[export] Instance kivi_payload : Payload KIVI.KIVIPayload := λ p,
  [VList (map (λ g, VList (map ints g)) (KIVI.quantized_groups p)); matrix_value (KIVI.scales p); matrix_value (KIVI.zero_points p);
   matrix_value (KIVI.residual_rows p); VInt (KIVI.group_size p)].
#[export] Instance kvquant_payload : Payload KVQuant.KVQuantPayload := λ p,
  [VInt (KVQuant.bits p); VInt (KVQuant.num_levels p); VList (map ints (KVQuant.codes p)); matrix_value (KVQuant.codebooks p); VOther;
   VFloat (KVQuant.outlier_std_threshold p)].
#[export] Instance palu_payload : Payload PALU.PALUPayload := λ p, [matrix_value (PALU.H_ p); matrix_value (PALU.B_ p); VInt (PALU.rank_ p)].
#[export] Instance shadowkv_payload : Payload ShadowKV.ShadowKVPayload := λ p,
  [matrix_value (ShadowKV.palu_B p); VList (map (λ _, VOther) (ShadowKV.sparse_h_entries p)); VOther; VFloat (ShadowKV.scale_ p); VFloat (ShadowKV.zero_point p)].

(** Once integers cost anything a tuple costs nothing: a latent of any number of entries is as good as none. *)
Example sparse_entries_cost_nothing :
  payload_bits (ShadowKV.mkPayload [[fone]] (replicate 100 (0%nat, 0%nat, 7)) (1%nat, 1%nat) fone fzero) 4 =
  payload_bits (ShadowKV.mkPayload [[fone]] [] (1%nat, 1%nat) fone fzero) 4.
Proof. by vm_compute. Qed.

(** A channel one unit wide has a scale of zero, one of 20 units a code of 20 out of 15. *)
Example tiny_channels :
  let c := KIVI.mkKIVI 2 15 in let tiny (m : positive) := S754_finite false m (-1074) in
  KIVI.KIVI_compress c [[fzero]; [tiny 1%positive]] = Raise ZeroDivisionError ∧
  (z ← KIVI.KIVI_compress c [[fzero]; [tiny 20%positive]]; Ret (KIVI.quantized_groups (ck_payload z))) = Ret [[[0]; [20]]].
Proof. by vm_compute. Qed.

(** ** What KVQuant gives back *)

Lemma imap_pair_lookup {A} (l : list A) i x : (i, x) ∈ imap pair l ↔ l !! i = Some x.
Proof.
  rewrite list_elem_of_lookup. split.
  - intros (k & Hk). rewrite list_lookup_imap in Hk. destruct (l !! k) as [y|] eqn:Hy; [|done]. simpl in Hk. by injection Hk as <- <-.
  - intros Hi. exists i. by rewrite list_lookup_imap, Hi.
Qed.

Lemma mapi_res_total {A B} (f : nat → A → res B) (Q : nat → A → B → Prop) start l :
  (∀ (k : nat) x, l !! k = Some x → ∃ y, f (start + k)%nat x = Ret y ∧ Q k x y) →
  ∃ ys, KVQuant.mapi_res f start l = Ret ys ∧ length ys = length l ∧ ∀ (k : nat) x, l !! k = Some x → ∃ y, ys !! k = Some y ∧ Q k x y.
Proof.
  revert start Q. induction l as [|x l IH]; intros start Q Hf; [by exists []|].
  destruct (Hf 0%nat x eq_refl) as (y & Hy & HQ). rewrite Nat.add_0_r in Hy.
  destruct (IH (S start) (λ k, Q (S k))) as (ys & Hys & Hlen & Hall).
  { intros k x' Hx. destruct (Hf (S k) x' Hx) as (y' & Hy' & HQ'). exists y'. split; [|done]. by rewrite <- Nat.add_succ_comm in Hy'. }
  exists (y :: ys). cbn [KVQuant.mapi_res]. rewrite Hy. cbn [mbind res_bind]. rewrite Hys. split_and!; [done|by cbn; f_equal|].
  intros [|k] x' Hx; [|by apply Hall]. injection Hx as <-. by exists y.
Qed.

Lemma rows_of_columns_lookup {A} (d : A) n columns (i : nat) : (i < n)%nat →
  rows_of_columns d n columns !! i = Some (map (λ column : list A, default d (column !! i)) columns).
Proof.
  intros Hi. unfold rows_of_columns. change (map ?f ?l) with (f <$> l). rewrite list_lookup_fmap, lookup_seq_lt by done. done.
Qed.

Section kvquant.
Context `{Statistics}.

Lemma bucket_of_range levels boundaries v : 1 ≤ levels → 0 ≤ KVQuant.bucket_of levels boundaries v < levels.
Proof. unfold KVQuant.bucket_of. lia. Qed.

Lemma buckets_length levels values mean boundaries codebook : 0 ≤ levels →
  KVQuant._build_quantile_buckets levels values mean = Ret (boundaries, codebook) → Z.of_nat (length codebook) = levels.
Proof.
  intros Hl. unfold KVQuant._build_quantile_buckets. destruct values as [|v values].
  - intros [= <- <-]. rewrite length_replicate. lia.
  - destruct (res_mapM (KVQuant.boundary _ _) _) as [bs|]; [|done]. cbn [mbind res_bind].
    destruct (res_mapM _ (py_range 0 levels)) as [book|] eqn:Hb; [|done]. cbn [mbind res_bind]. intros [= <- <-].
    apply res_mapM_lookup in Hb as [Hlen _]. rewrite Hlen. unfold py_range. rewrite length_seqZ. lia.
Qed.

Lemma quantize_channel_spec c values entries codebook : 1 ≤ KVQuant.kq_num_levels c →
  KVQuant.quantize_channel c values = Ret (entries, codebook) →
  ∃ mean spread, st_fmean values = Ret mean ∧ st_pstdev values = Ret spread ∧ map snd entries = values ∧
    Z.of_nat (length codebook) = KVQuant.kq_num_levels c ∧
    Forall (λ e : Z * f64, if KVQuant.is_outlier (KVQuant.kq_outlier_std_threshold c) mean spread e.2 then e.1 = -1 else 0 ≤ e.1 < KVQuant.kq_num_levels c) entries.
Proof.
  intros Hl. unfold KVQuant.quantize_channel. destruct (st_fmean values) as [mean|] eqn:Hm; [|done]. cbn [mbind res_bind].
  destruct (st_pstdev values) as [spread|] eqn:Hs; [|done]. cbn [mbind res_bind].
  destruct (KVQuant._build_quantile_buckets _ _ _) as [[boundaries book]|] eqn:Hb; [|done]. cbn [mbind res_bind]. intros [= <- <-].
  exists mean, spread. split_and!; [done|done| |by eapply buckets_length; [|exact Hb]; lia|].
  - rewrite map_map. apply map_id.
  - apply Forall_map, Forall_forall. intros v _. cbn [fst snd]. destruct (KVQuant.is_outlier _ _ _ v); [done|]. by apply bucket_of_range.
Qed.

Lemma outliers_lookup (channels : list (list (Z * f64) * list f64)) (i j : nat) entries book code v :
  channels !! j = Some (entries, book) → entries !! i = Some (code, v) →
  (list_to_map (concat (imap (λ channel ch, KVQuant.outliers_of channel ch.1) channels)) : gmap (nat * nat) f64) !! (i, j) = if code =? -1 then Some v else None.
Proof.
  intros Hj Hi. set (l := concat _).
  assert (Hin : ∀ x, ((i, j), x) ∈ l ↔ code = -1 ∧ x = v).
  { intros x. unfold l. rewrite list_elem_of_In, in_concat. split.
    - intros (sub & Hsub & Hx). apply list_elem_of_In, list_elem_of_lookup in Hsub as (k & Hk). rewrite list_lookup_imap in Hk.
      destruct (channels !! k) as [ch|] eqn:Hch; [|done]. simpl in Hk. injection Hk as <-. apply list_elem_of_In in Hx.
      unfold KVQuant.outliers_of in Hx. apply list_elem_of_omap in Hx as ([r [co w]] & He & Heq). apply imap_pair_lookup in He. cbn [fst snd] in Heq.
      destruct (Z.eqb_spec co (-1)) as [->|]; [|done]. injection Heq as -> -> ->. rewrite Hj in Hch. injection Hch as <-. cbn [fst] in He. rewrite Hi in He. by injection He as -> ->.
    - intros [-> ->]. exists (KVQuant.outliers_of j entries). split.
      + apply list_elem_of_In, list_elem_of_lookup. exists j. by rewrite list_lookup_imap, Hj.
      + apply list_elem_of_In. unfold KVQuant.outliers_of. apply list_elem_of_omap. exists (i, (-1, v)). split; [by apply imap_pair_lookup|done]. }
  destruct (list_to_map l !! (i, j)) as [x|] eqn:Hx.
  - apply elem_of_list_to_map_2, Hin in Hx as [-> ->]. done.
  - apply not_elem_of_list_to_map_2 in Hx. destruct (Z.eqb_spec code (-1)) as [->|]; [|done]. exfalso. apply Hx.
    apply list_elem_of_fmap. exists ((i, j), v). split; [done|]. by apply Hin.
Qed.

(** C32: What KVQuant gives back: a tensor of the same shape, in which every value
    more than the threshold of standard deviations from its channel's mean is
    the very value it was, and every other is the codebook entry its code names,
    a code that fits the bit width; decompression of what compress made never
    fails. *)
Theorem kvquant_round_trip bits threshold c kv z :
  KVQuant.KVQuant_init bits threshold = Ret c → compress c kv = Ret z →
  ∃ rows, decompress c z = Ret rows ∧ length rows = length kv ∧
    ∀ (i j : nat) row v, kv !! i = Some row → row !! j = Some v →
      ∃ row' r column mean spread, rows !! i = Some row' ∧ length row' = length row ∧ row' !! j = Some r ∧
        channel_values kv j = Ret column ∧ st_fmean column = Ret mean ∧ st_pstdev column = Ret spread ∧
        if KVQuant.is_outlier threshold mean spread v then r = v
        else ∃ codes code codebook, KVQuant.codes (ck_payload z) !! i = Some codes ∧ codes !! j = Some code ∧ 0 ≤ code < 2 ^ bits ∧
          KVQuant.codebooks (ck_payload z) !! j = Some codebook ∧ Z.of_nat (length codebook) = 2 ^ bits ∧ codebook !! Z.to_nat code = Some r.
Proof.
  unfold KVQuant.KVQuant_init. destruct ((1 <=? bits) && (bits <=? 16)) eqn:Hbits; [|done]. destruct (fle threshold fzero); [done|]. intros [= <-].
  apply andb_true_iff in Hbits as [Hb1%Z.leb_le Hb2%Z.leb_le]. assert (1 ≤ 2 ^ bits) as Hlevels by (assert (0 < 2 ^ bits) by (apply Z.pow_pos_nonneg; lia); lia).
  unfold compress, KVQuant.kvquant_compressor, KVQuant.KVQuant_compress. destruct kv as [|row0 kv0]; [done|]. set (kv := row0 :: kv0). clearbody kv. intros Hz.
  destruct (existsb _ kv) eqn:Hrect; [done|]. destruct (res_mapM _ (seq 0 (width kv))) as [channels|] eqn:Hch; [|done]. cbn [mbind res_bind] in Hz. injection Hz as <-.
  apply res_mapM_lookup in Hch as [Hlen Hch]. rewrite length_seq in Hlen.
  assert (∀ row, row ∈ kv → length row = width kv) as Hwidth.
  { intros row Hrow. destruct (Nat.eqb_spec (length row) (width kv)) as [|Hne]; [done|]. exfalso. apply not_true_iff_false in Hrect. apply Hrect, existsb_exists.
    exists row. split; [by apply list_elem_of_In|]. by apply negb_true_iff, Nat.eqb_neq. }
  (* each channel, read back at a row *)
  assert (∀ (i j : nat) row v, kv !! i = Some row → row !! j = Some v →
    ∃ entries codebook column mean spread code, channels !! j = Some (entries, codebook) ∧ entries !! i = Some (code, v) ∧ channel_values kv j = Ret column ∧
      st_fmean column = Ret mean ∧ st_pstdev column = Ret spread ∧ Z.of_nat (length codebook) = 2 ^ bits ∧
      if KVQuant.is_outlier threshold mean spread v then code = -1 else 0 ≤ code < 2 ^ bits) as Hread.
  { intros i j row v Hrow Hv. assert (j < width kv)%nat as Hj.
    { rewrite <- (Hwidth row) by (by eapply list_elem_of_lookup_2). by eapply lookup_lt_Some. }
    destruct (Hch j j ltac:(by rewrite lookup_seq_lt)) as ([entries codebook] & Hjch & Hq).
    destruct (channel_values kv j) as [column|] eqn:Hcol; [|done]. cbn [mbind res_bind] in Hq.
    apply quantize_channel_spec in Hq as (mean & spread & Hmean & Hspread & Hvalues & Hbook & Hforall); [|exact Hlevels].
    pose proof Hcol as Hc'. unfold channel_values in Hc'. apply res_mapM_lookup in Hc' as [_ Hc']. destruct (Hc' i row Hrow) as (v' & Hv' & Hidx).
    rewrite (py_index_nonneg row j v Hv) in Hidx. injection Hidx as <-. rewrite <- Hvalues in Hv'. change (map snd entries) with (snd <$> entries) in Hv'.
    rewrite list_lookup_fmap in Hv'. destruct (entries !! i) as [[code w]|] eqn:Hentry; [|done]. cbn in Hv'. injection Hv' as ->.
    pose proof (Forall_lookup_1 _ _ _ _ Hforall Hentry) as Hcode. cbn [fst snd KVQuant.kq_num_levels KVQuant.kq_outlier_std_threshold] in Hcode, Hbook.
    by exists entries, codebook, column, mean, spread, code. }
  set (payload := KVQuant.mkPayload _ _ _ _ _ _).
  assert (∀ (i j : nat) row v, kv !! i = Some row → row !! j = Some v → ∃ r code codebook column mean spread,
    KVQuant.decode payload i j code = Ret r ∧ KVQuant.codes payload !! i ≫= (λ codes, codes !! j) = Some code ∧
    channel_values kv j = Ret column ∧ st_fmean column = Ret mean ∧ st_pstdev column = Ret spread ∧ KVQuant.codebooks payload !! j = Some codebook ∧
    Z.of_nat (length codebook) = 2 ^ bits ∧
    if KVQuant.is_outlier threshold mean spread v then r = v else 0 ≤ code < 2 ^ bits ∧ codebook !! Z.to_nat code = Some r) as Hdecode.
  { intros i j row v Hrow Hv. destruct (Hread i j row v Hrow Hv) as (entries & codebook & column & mean & spread & code & Hjch & Hentry & Hcol & Hmean & Hspread & Hbook & Hcode).
    assert (KVQuant.codebooks payload !! j = Some codebook) as Hcb by (unfold payload; cbn [KVQuant.codebooks]; change (map snd channels) with (snd <$> channels); by rewrite list_lookup_fmap, Hjch).
    assert (KVQuant.codes payload !! i ≫= (λ codes, codes !! j) = Some code) as Hcodes.
    { unfold payload. cbn [KVQuant.codes]. rewrite rows_of_columns_lookup by exact (lookup_lt_Some _ _ _ Hrow). cbn [mbind option_bind].
      change (map ?f ?l) with (f <$> l). rewrite !list_lookup_fmap, Hjch. cbn [fmap option_fmap option_map fst]. change (map fst entries) with (fst <$> entries). by rewrite list_lookup_fmap, Hentry. }
    assert (KVQuant.outliers payload !! (i, j) = if code =? -1 then Some v else None) as Hout by (unfold payload; cbn [KVQuant.outliers]; by eapply outliers_lookup).
    unfold KVQuant.decode. rewrite Hout. destruct (KVQuant.is_outlier threshold mean spread v) eqn:Hisout.
    - subst code. exists v, (-1), codebook, column, mean, spread. rewrite Hisout. by split_and!.
    - rewrite (proj2 (Z.eqb_neq code (-1))) by lia. rewrite (py_index_nonneg _ j codebook Hcb). cbn [mbind res_bind].
      destruct (lookup_lt_is_Some_2 codebook (Z.to_nat code) ltac:(lia)) as [r Hr]. exists r, code, codebook, column, mean, spread. rewrite Hisout.
      split_and!; try done; try lia. rewrite <- (Z2Nat.id code) by lia. by apply py_index_nonneg. }
  assert (length (KVQuant.codes payload) = length kv ∧ ∀ i cr, KVQuant.codes payload !! i = Some cr → length cr = width kv) as [Hncodes Hcr].
  { unfold payload. cbn [KVQuant.codes]. unfold rows_of_columns. split; [by rewrite length_map, length_seq|]. intros i cr Hi.
    change (map ?f (seq 0 (length kv))) with (f <$> seq 0 (length kv)) in Hi. rewrite list_lookup_fmap in Hi. destruct (seq 0 (length kv) !! i); [|discriminate Hi].
    cbn in Hi. injection Hi as <-. by rewrite !length_map. }
  clearbody payload. clear Hread Hch.
  destruct (mapi_res_total (λ i cr, KVQuant.mapi_res (KVQuant.decode payload i) 0 cr)
    (λ i cr rr, length rr = length cr ∧ ∀ (j : nat) code, cr !! j = Some code → ∃ r, rr !! j = Some r ∧ KVQuant.decode payload i j code = Ret r) 0 (KVQuant.codes payload)) as (rows & Hrows & Hlen' & Hall).
  { intros i cr Hi. cbn [Nat.add]. pose proof (lookup_lt_Some _ _ _ Hi) as Hlt. destruct (lookup_lt_is_Some_2 kv i ltac:(lia)) as [row Hrow].
    destruct (mapi_res_total (KVQuant.decode payload i) (λ j code r, KVQuant.decode payload i j code = Ret r) 0 cr) as (rr & Hrr & Hl & Hr).
    { intros j code Hcode. cbn [Nat.add]. pose proof (lookup_lt_Some _ _ _ Hcode) as Hj. rewrite (Hcr i cr Hi) in Hj.
      destruct (lookup_lt_is_Some_2 row j) as [v Hv]; [by rewrite (Hwidth row) by (by eapply list_elem_of_lookup_2)|].
      destruct (Hdecode i j row v Hrow Hv) as (r & code' & codebook & column & mean & spread & Hd & Hcodes & _). rewrite Hi in Hcodes. cbn in Hcodes.
      assert (code' = code) as -> by congruence. by exists r. }
    exists rr. split; [done|]. split; [done|]. intros j code Hcode. exact (Hr j code Hcode). }
  exists rows. split; [exact Hrows|]. split; [by rewrite Hlen'|]. intros i j row v Hrow Hv.
  destruct (Hdecode i j row v Hrow Hv) as (r & code & codebook & column & mean & spread & Hd & Hcodes & Hcol & Hmean & Hspread & Hcb & Hbook & Hout).
  destruct (KVQuant.codes payload !! i) as [cr|] eqn:Hi; [|done]. cbn in Hcodes. destruct (Hall i cr Hi) as (rr & Hrr & Hl & Hr). destruct (Hr j code Hcodes) as (r' & Hr' & Hd').
  assert (r' = r) as -> by congruence. exists rr, r, column, mean, spread. split_and!; [done|by rewrite Hl, (Hcr i cr Hi), (Hwidth row) by (by eapply list_elem_of_lookup_2)|done..|].
  destruct (KVQuant.is_outlier threshold mean spread v); [done|]. destruct Hout as [? ?]. exists cr, code, codebook. cbn [ck_payload]. by rewrite Hi.
Qed.
End kvquant.

(** ** A worked example *)

(** Mean and deviation by their textbook formulas. *)
Definition textbook_mean (l : list f64) : res f64 := n ← int_to_float (Z.of_nat (length l)); fdiv (fsum l) n.
Definition textbook_statistics : Statistics := {|
  st_fmean := textbook_mean;
  st_pstdev := λ l, mean ← textbook_mean l; v ← textbook_mean (map (λ x, fmul (fsub x mean) (fsub x mean)) l); Ret (fsqrt_raw v) |}.

(** One channel of four tokens, the last far from the others, at one bit. *)
Definition spiked : Matrix := map (λ n, [flit n 1]) [1; 2; 1; 9].

Lemma kvquant_round_trip_witness :
  ∃ z rows row, compress (KVCacheCompressor := KVQuant.kvquant_compressor (H := textbook_statistics)) (KVQuant.mkKVQuant 1 2 fone) spiked = Ret z ∧
    decompress (KVCacheCompressor := KVQuant.kvquant_compressor (H := textbook_statistics)) (KVQuant.mkKVQuant 1 2 fone) z = Ret rows ∧
    length rows = 4%nat ∧ rows !! 3%nat = Some row ∧ row !! 0%nat = Some (flit 9 1).
Proof.
  destruct (compress (KVCacheCompressor := KVQuant.kvquant_compressor (H := textbook_statistics)) (KVQuant.mkKVQuant 1 2 fone) spiked) as [z|e] eqn:Hz;
    [|exfalso; vm_compute in Hz; discriminate Hz].
  destruct (kvquant_round_trip (H := textbook_statistics) 1 fone (KVQuant.mkKVQuant 1 2 fone) spiked z eq_refl Hz) as (rows & Hrows & Hlen & Hall).
  destruct (Hall 3%nat 0%nat [flit 9 1] (flit 9 1) eq_refl eq_refl) as (row & r & column & mean & spread & Hrow & _ & Hr & Hcol & Hmean & Hspread & Hout).
  assert (column = map (λ n, flit n 1) [1; 2; 1; 9]) as -> by (vm_compute in Hcol; injection Hcol as <-; by vm_compute).
  assert (KVQuant.is_outlier fone mean spread (flit 9 1) = true) as Hspike.
  { vm_compute in Hmean, Hspread. injection Hmean as <-. injection Hspread as <-. by vm_compute. }
  rewrite Hspike in Hout. subst r. exists z, rows, row. by split_and!.
Defined.
