(* ===== verification/Pipelines.v ===== *)
(** * Combined techniques

    cag/application/long_context_pipeline.py and real_time_chat_pipeline.py,
    which feed one technique's output to the next through the ports of
    Evictors.v, Compressors.v, Offloading.v and MultiTurn.v;
    cag/domain/combination_metrics.py, which scores what the combination adds;
    and cag/domain/attention_compatibility.py. *)

From Stdlib Require Import ZArith Lia Floats.SpecFloat.
From S2P Require Import Prelude PyFloat IntDivision FloatOrder PySeq Evictors MultiTurn Offloading Compressors.

(** ** long_context_pipeline.py *)

Record LongContextResult : Type := mkLongContext {
  lc_original_tokens : Z;
  lc_tokens_after_eviction : Z;
  lc_slots_after_compression : f64;
  lc_gpu_resident_slots : f64;
  lc_stage_reductions : list f64;
  lc_kept_indices : list Z
}.

(** [x / y if y else 1.0]. *)
Definition ratio_or_one (x y : f64) : res f64 := if feq y fzero then Ret fone else fdiv x y.

Section long_context.
Context {E C P O : Type} `{KVCacheEvictor E, KVCacheCompressor C P, !Payload P, OffloadingStrategy O}.

(** Bits before over bits after. *)
Definition compression_of (payload : P) (rows channels quantized_bit_width : Z) : res f64 :=
  before_bits ← dense_bits rows channels 32;
  after_bits ← payload_bits payload quantized_bit_width;
  ratio_or_one before_bits after_bits.

Definition layers_workload (layers_needed gpu_layer_capacity : Z) : OffloadWorkload :=
  mkWorkload layers_needed (flit 10 1) (flit 6 1) (flit 40 1) gpu_layer_capacity.

(** From the rows that survived eviction on. *)
Definition compress_and_offload (compressor : C) (offloader : O) (quantized_bit_width gpu_layer_capacity : Z) (surviving : list (list f64)) :
  res (f64 * f64 * f64 * f64) :=
  compressed ← compress compressor surviving;
  first ← py_index 0 surviving;
  compression_reduction ← compression_of (ck_payload compressed) (Z.of_nat (length surviving)) (Z.of_nat (length first)) quantized_bit_width;
  n ← int_to_float (Z.of_nat (length surviving));
  slots_after_compression ← fdiv n compression_reduction;
  slots ← py_trunc slots_after_compression;
  let layers_needed := Z.max 1 slots in
  run ← offload_run offloader (layers_workload layers_needed gpu_layer_capacity);
  let resident := Z.min (or_gpu_layers_resident run) layers_needed in
  offload_reduction ← (if resident =? 0 then Ret fone else int_true_div layers_needed resident);
  resident ← int_to_float resident;
  Ret (slots_after_compression, resident, compression_reduction, offload_reduction).

Definition LongContext_execute (compressor : C) (offloader : O) (quantized_bit_width : Z)
  (kv : list (list f64)) (attention_scores : list f64) (token_budget gpu_layer_capacity : Z) : stm E LongContextResult :=
  let original_tokens := Z.of_nat (length kv) in
  if original_tokens =? 0 then raise kv_empty
  else
    decision ← select_keep_indices attention_scores token_budget;
    surviving ← lift_res (res_mapM (λ index, py_index index kv) (ed_keep_indices decision));
    eviction_reduction ← lift_res (int_true_div original_tokens (Z.of_nat (length surviving)));
    '(slots, resident, compression_reduction, offload_reduction) ← lift_res (compress_and_offload compressor offloader quantized_bit_width gpu_layer_capacity surviving);
    mret (mkLongContext original_tokens (Z.of_nat (length surviving)) slots resident [eviction_reduction; compression_reduction; offload_reduction] (ed_keep_indices decision)).
End long_context.

(** ** real_time_chat_pipeline.py *)

Record RealTimeChatResult : Type := mkChat {
  ct_per_turn_recompute : list Z;
  ct_per_turn_resident : list f64;
  ct_unbounded_resident : list Z;
  ct_stage_reductions : list f64
}.

Section real_time_chat.
Context {S E C P : Type} `{MultiTurnCacheStrategy S, KVCacheEvictor E, KVCacheCompressor C P, !Payload P}.

Record RealTimeChatPipeline : Type := mkChatPipeline {
  cp_session : S;
  cp_compressor : C;
  cp_budget : Z;
  cp_channels : Z;
  cp_quantized_bit_width : Z
}.

Definition RealTimeChat_init (session : S) (compressor : C) (resident_token_budget channels_per_token quantized_bit_width : Z) : res RealTimeChatPipeline :=
  if resident_token_budget <? 1 then Raise (ValueError "resident_token_budget must be at least 1")
  else if channels_per_token <? 1 then Raise (ValueError "channels_per_token must be at least 1")
  else Ret (mkChatPipeline session compressor resident_token_budget channels_per_token quantized_bit_width).

(** [[1.0 / (accumulated - position) for position in range(accumulated)]]. *)
Definition decaying_scores (accumulated : Z) : res (list f64) :=
  res_mapM (λ position, d ← int_to_float (accumulated - position); fdiv fone d) (py_range 0 accumulated).

(** [[float(i)] * channels for i in range(kept)]. *)
Definition placeholder_rows (channels kept : Z) : res (list (list f64)) :=
  res_mapM (λ i, x ← int_to_float i; Ret (replicate (Z.to_nat channels) x)) (py_range 0 kept).

(** One turn: what is kept of the tokens so far, and the compression ratio from here on. *)
Definition chat_turn (p : RealTimeChatPipeline) (accumulated : Z) (compression_reduction : f64) : stm E (f64 * f64) :=
  scores ← lift_res (decaying_scores accumulated);
  decision ← select_keep_indices scores (Z.min (cp_budget p) accumulated);
  let kept := Z.of_nat (length (ed_keep_indices decision)) in
  surviving_rows ← lift_res (placeholder_rows (cp_channels p) kept);
  compressed ← lift_res (compress (cp_compressor p) surviving_rows);
  after_bits ← lift_res (payload_bits (ck_payload compressed) (cp_quantized_bit_width p));
  compression_reduction ← lift_res (if feq after_bits fzero then Ret compression_reduction
    else before ← dense_bits kept (cp_channels p) 32; fdiv before after_bits);
  resident ← lift_res (n ← int_to_float kept; fdiv n compression_reduction);
  mret (resident, compression_reduction).

Fixpoint chat_turns (p : RealTimeChatPipeline) (accumulated : Z) (compression_reduction : f64) (turns : list ConversationTurn) :
  stm E (list Z * list f64 * f64) :=
  match turns with
  | [] => mret ([], [], compression_reduction)
  | turn :: turns =>
      let accumulated := accumulated + tn_new_tokens turn in
      '(resident, compression_reduction) ← chat_turn p accumulated compression_reduction;
      '(unbounded, residents, compression_reduction) ← chat_turns p accumulated compression_reduction turns;
      mret (accumulated :: unbounded, resident :: residents, compression_reduction)
  end.

Definition RealTimeChat_execute (p : RealTimeChatPipeline) (turns : list ConversationTurn) : stm E RealTimeChatResult :=
  run ← lift_res (run_session (cp_session p) turns);
  '(unbounded, residents, compression_reduction) ← chat_turns p 0 fone turns;
  last ← lift_res (py_index (-1) unbounded);
  eviction_reduction ← lift_res (int_true_div last (Z.min (cp_budget p) last));
  mret (mkChat (sr_per_turn_recompute run) residents unbounded [eviction_reduction; compression_reduction]).
End real_time_chat.

(** ** combination_metrics.py *)

Definition no_stages : exn := ValueError "stage_reductions must be non-empty".

Definition compounded_reduction (stage_reductions : list f64) : res f64 :=
  match stage_reductions with
  | [] => Raise no_stages
  | _ =>
      if existsb (λ reduction, fle reduction fzero) stage_reductions then Raise (ValueError "every stage reduction must be positive")
      else Ret (foldl fmul fone stage_reductions)
  end.

Definition best_single_reduction (stage_reductions : list f64) : res f64 :=
  match stage_reductions with
  | [] => Raise no_stages
  | x :: rest => Ret (py_max x rest)
  end.

Definition synergy_score (measured_reduction : f64) (stage_reductions : list f64) : res f64 :=
  if fle measured_reduction fzero then Raise (ValueError "measured_reduction must be positive")
  else
    floor ← best_single_reduction stage_reductions;
    ceiling ← compounded_reduction stage_reductions;
    if feq ceiling floor then Ret (if fle ceiling measured_reduction then fone else fzero)
    else fdiv (fsub measured_reduction floor) (fsub ceiling floor).

Definition interference_drift (standalone_reduction in_pipeline_reduction : f64) : res f64 :=
  if fle standalone_reduction fzero then Raise (ValueError "standalone_reduction must be positive")
  else if fle in_pipeline_reduction fzero then Raise (ValueError "in_pipeline_reduction must be positive")
  else fdiv (fsub in_pipeline_reduction standalone_reduction) standalone_reduction.

(** ** attention_compatibility.py *)

Inductive CAGTechnique : Type :=
  | KV_CACHE_EVICTION | KV_CACHE_COMPRESSION | PAGED_ATTENTION | SPECULATIVE_DECODING
  | PREFIX_CACHING | HYBRID_OFFLOADING | MULTI_TURN_CACHING | CACHE_AWARE_BATCHING.

Definition is_compatible_with_alternative_attention (technique : CAGTechnique) : bool :=
  match technique with
  | KV_CACHE_EVICTION | KV_CACHE_COMPRESSION | PAGED_ATTENTION | SPECULATIVE_DECODING => false
  | PREFIX_CACHING | HYBRID_OFFLOADING | MULTI_TURN_CACHING | CACHE_AWARE_BATCHING => true
  end.

(** ** What a combination is worth *)

Lemma fmul_comm x y : fmul x y = fmul y x.
Proof.
  destruct x as [sx|sx| |sx mx ex], y as [sy|sy| |sy my ey]; try done; unfold fmul, SFmul; rewrite ?(xorb_comm sx sy); try done.
  by rewrite Pos.mul_comm, Z.add_comm.
Qed.

(** A reduction a stage can report: it does not make things larger. *)
Definition reduction (x : f64) : Prop := finite_unsigned x = true ∧ fle fone x = true.

Lemma fmul_inf y : finite_unsigned y = true → fle fone y = true → fmul finf y = finf.
Proof. intros Hy Hle. by destruct y as [[]|[]| |[] m e]. Qed.

Lemma unsigned_infinite x : unsigned x = true → is_finite x = false → x = finf.
Proof. by destruct x as [|[]| |[]]. Qed.

Lemma fle_finf x : unsigned x = true → fle x finf = true.
Proof. intros Hx. rewrite fle_units by done. apply Z.leb_le, (units_range x Hx). Qed.

(** The product so far and one more stage. *)
Lemma compound_step p r : unsigned p = true → fle fone p = true → reduction r →
  unsigned (fmul p r) = true ∧ fle p (fmul p r) = true ∧ fle r (fmul p r) = true.
Proof.
  intros Hp H1 [Hr Hr1]. destruct (is_finite p) eqn:Hfin.
  - assert (finite_unsigned p = true) as Hfp by (unfold finite_unsigned; by rewrite Hp, Hfin).
    destruct (fmul_one p r Hfp Hr) as (Hu & _ & Hle). destruct (fmul_one r p Hr Hfp) as (_ & _ & Hle'). rewrite (fmul_comm r p) in Hle'.
    by split_and!; auto.
  - rewrite (unsigned_infinite p Hp Hfin), fmul_inf by done. split_and!; [done|by apply fle_refl|by apply fle_finf; auto].
Qed.

Lemma compounded_above l p : unsigned p = true → fle fone p = true → Forall reduction l →
  unsigned (foldl fmul p l) = true ∧ fle p (foldl fmul p l) = true ∧ ∀ x, x ∈ l → fle x (foldl fmul p l) = true.
Proof.
  revert p. induction l as [|r l IH]; intros p Hp H1 Hl.
  - split_and!; [done|by apply fle_refl, unsigned_not_nan|]. intros x Hx. by apply not_elem_of_nil in Hx.
  - apply Forall_cons in Hl as [Hr Hl]. destruct (compound_step p r Hp H1 Hr) as (Hu & Hle & Hle').
    destruct (IH (fmul p r) Hu ltac:(by apply (fle_trans _ p)) Hl) as (Hu' & Hle2 & Hall). cbn [foldl].
    split_and!; [done|by apply (fle_trans _ (fmul p r))|]. intros x [->|Hx]%elem_of_cons; [by apply (fle_trans _ (fmul p r))|by apply Hall].
Qed.

Lemma py_max_in x l : py_max x l ∈ x :: l.
Proof.
  revert x. induction l as [|y l IH]; intros x; [by left|]. unfold py_max in *. cbn [foldl]. specialize (IH (if flt x y then y else x)).
  apply elem_of_cons in IH as [IH|IH]; [rewrite IH; destruct (flt x y); set_solver|set_solver].
Qed.

(** Unequal numbers differ by something. *)
Lemma fsub_not_zero x y : unsigned x = true → finite_unsigned y = true → fle y x = true → feq x y = false →
  ∀ z, ∃ q, fdiv z (fsub x y) = Ret q.
Proof.
  intros Hx Hy Hle Hne z. destruct (is_finite x) eqn:Hfin.
  - assert (units y ≠ units x) as Hunits.
    { intros Heq. apply not_true_iff_false in Hne. apply Hne.
      assert (fle x y = true) as Hxy by (rewrite fle_units by auto; apply Z.leb_le; lia). revert Hle Hxy. unfold fle, feq, SFleb, SFeqb.
      assert (SFcompare y x = option_map CompOpp (SFcompare x y)) as ->; [|by destruct (SFcompare x y) as [[]|]].
      destruct x as [s|s| |s m e], y as [s'|s'| |s' m' e']; try done; try (by destruct s); try (by destruct s'); try (by destruct s, s').
      cbn [SFcompare option_map]. f_equal. rewrite (Z.compare_antisym e e'). change (Pos.compare_cont Eq m' m) with (Pos.compare m' m). change (Pos.compare_cont Eq m m') with (Pos.compare m m').
      rewrite (Pos.compare_antisym m m'). destruct s, s', (e ?= e')%Z, (m ?= m')%positive; done. }
    pose proof Hle as Hle'. rewrite fle_units, Z.leb_le in Hle' by auto. assert (unsigned y = true) as Hy' by auto.
    unfold finite_unsigned in Hy. apply andb_true_iff in Hy as [_ Hfy].
    destruct x as [sx|[]| |[] mx ex]; try discriminate Hx; try discriminate Hfin.
    + pose proof (units_range y Hy'). change (units (S754_zero sx)) with 0 in *. lia.
    + destruct y as [sy|[]| |[] my ey]; try discriminate Hy'; try discriminate Hfy; [by exists (fdiv_raw z (S754_finite false mx ex))|].
      cbn [unsigned negb andb] in Hx, Hy'. destruct (finite_digits mx ex Hx) as (Hex & _), (finite_digits my ey Hy') as (Hey & _). cbn [units] in *.
      unfold fsub, SFsub, cond_Zopp. rewrite !shl_align_units by lia.
      assert (∀ m e, Z.min ex ey ≤ e → Z.pos m * 2 ^ (e + 1074) = Z.pos m * 2 ^ (e - Z.min ex ey) * 2 ^ (Z.min ex ey + 1074)) as Hval.
      { intros m e He. rewrite <- Z.mul_assoc, <- Z.pow_add_r by lia. do 2 f_equal. lia. }
      rewrite (Hval mx ex), (Hval my ey) in Hle', Hunits by lia. assert (0 < 2 ^ (Z.min ex ey + 1074)) as Hpos by (apply Z.pow_pos_nonneg; lia).
      apply Z.mul_le_mono_pos_r in Hle'; [|done].
      destruct (Z.pos mx * 2 ^ (ex - Z.min ex ey) - Z.pos my * 2 ^ (ey - Z.min ex ey)) as [|p|p] eqn:Hd; [exfalso; apply Hunits; f_equal; lia| |lia].
      cbn [binary_normalize]. destruct (binary_round_units p (Z.min ex ey) ltac:(lia)) as [Hn Hu]. cbv zeta in *.
      assert (1 ≤ rnd (Z.pos p * 2 ^ (Z.min ex ey + 1074)) (-1074)) as Hone.
      { transitivity (rnd 1 (-1074)); [by vm_compute|]. apply rnd_mono; [|lia]. split; [lia|]. lia. }
      assert (0 < units (binary_round f64_prec f64_emax false p (Z.min ex ey))) as Hup by (rewrite Hu; pose proof infinite_units_pos; lia).
      unfold fdiv. destruct (binary_round f64_prec f64_emax false p (Z.min ex ey)) as [s|s| |s m e]; [by cbn [units] in Hup|by eexists..].
  - rewrite (unsigned_infinite x Hx Hfin). unfold finite_unsigned in Hy. apply andb_true_iff in Hy as [Hy Hfy].
    destruct y as [s|s| |s m e]; try done; by eexists.
Qed.

(** Compounding is never the worse hypothesis: where no stage makes things
    larger, the product of the stages' reductions is at least the best of them,
    rounding included, so the ceiling synergy_score measures against is never
    below its floor, and it scores every positive measurement: it never divides
    by a difference that is zero. *)
Theorem compounding_beats_the_best l : l ≠ [] → Forall reduction l →
  ∃ best product, best_single_reduction l = Ret best ∧ compounded_reduction l = Ret product ∧ fle best product = true ∧
    ∀ measured, flt fzero measured = true → ∃ score, synergy_score measured l = Ret score.
Proof.
  intros Hne Hl. destruct l as [|x rest] eqn:Heq; [done|]. rewrite <- Heq in *.
  destruct (compounded_above l fone eq_refl eq_refl Hl) as (Hu & H1 & Hall).
  assert (py_max x rest ∈ l) as Hin by (rewrite Heq; apply py_max_in).
  assert (existsb (λ r, fle r fzero) l = false) as Hpositive.
  { apply not_true_iff_false. intros (r & Hr & Hle)%existsb_exists. apply list_elem_of_In in Hr. rewrite Forall_forall in Hl.
    destruct (Hl r Hr) as [_ Hr1]. by pose proof (fle_trans _ _ _ Hr1 Hle). }
  assert (best_single_reduction l = Ret (py_max x rest)) as Hbest by (by rewrite Heq).
  assert (compounded_reduction l = Ret (foldl fmul fone l)) as Hprod by (unfold compounded_reduction; rewrite Hpositive; by rewrite Heq).
  exists (py_max x rest), (foldl fmul fone l). split_and!; [done|done|by apply Hall|].
  intros measured Hm. unfold synergy_score. rewrite Hbest, Hprod. cbn [mbind res_bind].
  assert (fle measured fzero = false) as ->.
  { destruct measured as [s|s| |s m e]; try done; by destruct s. }
  destruct (feq (foldl fmul fone l) (py_max x rest)) eqn:Hfeq; [by eexists|].
  rewrite Forall_forall in Hl. destruct (Hl _ Hin) as [Hfin _]. by apply fsub_not_zero; [..|apply Hall|].
Qed.

(** ** What each stage is given *)

(** Two counts divide. *)
Lemma count_ratio n b : 0 < n < 2 ^ 53 → 0 < b < 2 ^ 53 → ∃ x, int_true_div n b = Ret x.
Proof.
  intros Hn Hb. pose proof (Zdigits2_le n 53 Hn). pose proof (Zdigits2_le b 53 Hb).
  destruct (Zdigits2_bounds n ltac:(lia)) as [_ Hdn]. destruct (Zdigits2_bounds b ltac:(lia)) as [_ Hdb].
  destruct (int_true_div_round n b ltac:(lia) ltac:(lia) ltac:(lia)) as (q & r & _ & _ & Hq & ->).
  destruct (Z.lt_ge_cases q (2 ^ 53)).
  - destruct (round_53 q (- (53 + Zdigits2 b - Zdigits2 n)) (new_location b r) ltac:(lia) ltac:(lia)) as (m & j & -> & _). by eexists.
  - destruct (round_54 q (- (53 + Zdigits2 b - Zdigits2 n)) (new_location b r) ltac:(lia) ltac:(lia)) as (m & j & -> & _). by eexists.
Qed.

Lemma rows_at (kv : list (list f64)) keep : (∀ i, i ∈ keep → 0 ≤ i < Z.of_nat (length kv)) → ∃ rows, res_mapM (λ index, py_index index kv) keep = Ret rows ∧ length rows = length keep.
Proof.
  intros Hkeep. destruct (res_mapM_total (λ index, py_index index kv) keep) as [rows Hrows].
  - intros i Hi. destruct (Hkeep i Hi). destruct (lookup_lt_is_Some_2 kv (Z.to_nat i) ltac:(lia)) as [row Hrow]. exists row.
    rewrite <- (Z2Nat.id i) by lia. by apply py_index_nonneg.
  - exists rows. split; [done|]. by apply res_mapM_lookup in Hrows as [? _].
Qed.

Section long_context_facts.
Context {E C P O : Type} `{KVCacheEvictor E, KVCacheCompressor C P, !Payload P, OffloadingStrategy O} {ev_wf : E → Prop} `{!KVCacheEvictorLaws E ev_wf}.

(** An offloader that keeps on the GPU what fits. *)
Definition keeps_to_capacity (offloader : O) : Prop :=
  ∀ w run, offload_run offloader w = Ret run → or_gpu_layers_resident run = Z.min (ow_gpu_layer_capacity w) (ow_num_layers w).

Lemma offload_within (compressor : C) offloader bit_width capacity surviving slots resident c o : keeps_to_capacity offloader →
  compress_and_offload compressor offloader bit_width capacity surviving = Ret (slots, resident, c, o) →
  ∃ held layers, int_to_float held = Ret resident ∧ py_trunc slots = Ret layers ∧ held = Z.min capacity (Z.max 1 layers).
Proof.
  intros Hcap. unfold compress_and_offload. destruct (compress compressor surviving) as [z|]; [|done]. cbn [mbind res_bind].
  destruct (py_index 0 surviving) as [first|]; [|done]. cbn [mbind res_bind]. destruct (compression_of _ _ _ _) as [ratio|]; [|done]. cbn [mbind res_bind].
  destruct (int_to_float (Z.of_nat _)) as [n|]; [|done]. cbn [mbind res_bind]. destruct (fdiv n ratio) as [s|]; [|done]. cbn [mbind res_bind].
  destruct (py_trunc s) as [layers|] eqn:Htrunc; [|done]. cbn [mbind res_bind].
  destruct (offload_run offloader _) as [run|] eqn:Hrun; [|done]. cbn [mbind res_bind]. apply Hcap in Hrun. unfold layers_workload in Hrun. cbn [ow_gpu_layer_capacity ow_num_layers] in Hrun.
  destruct (if _ =? 0 then _ else _) as [ratio'|]; [|done]. cbn [mbind res_bind]. destruct (int_to_float _) as [f|] eqn:Hf; [|done]. cbn [mbind res_bind]. intros [= <- <- _ _].
  exists (Z.min (or_gpu_layers_resident run) (Z.max 1 layers)), layers. split_and!; [done|done|lia].
Qed.

(** The long-context pipeline hands each stage only what the one before left:
    of a cache with one score per token and a budget of at least one, eviction
    keeps min(budget, tokens) rows in their order, the compressor is given
    exactly those rows, and what the offloader leaves on the GPU is no more than
    its capacity and no more than the compressed slots need; what a later stage
    raises is what the pipeline raises. An empty cache and an empty budget are
    refused before any stage runs or changes anything. *)
Theorem long_context_feeds_survivors (compressor : C) (offloader : O) bit_width kv scores budget capacity (e : E) :
  ev_wf e → length scores = length kv → Z.of_nat (length kv) < 2 ^ 53 → keeps_to_capacity offloader →
  if decide (kv = []) then LongContext_execute compressor offloader bit_width kv scores budget capacity e = (Raise kv_empty, e)
  else if decide (budget < 1) then LongContext_execute compressor offloader bit_width kv scores budget capacity e = (Raise msg_budget, e)
  else ∃ decision surviving ratio e', decision_ok (Z.of_nat (length kv)) budget decision ∧ ev_wf e' ∧
    select_keep_indices scores budget e = (Ret decision, e') ∧
    res_mapM (λ index, py_index index kv) (ed_keep_indices decision) = Ret surviving ∧ Z.of_nat (length surviving) = Z.min budget (Z.of_nat (length kv)) ∧
    match compress_and_offload compressor offloader bit_width capacity surviving with
    | Raise x => LongContext_execute compressor offloader bit_width kv scores budget capacity e = (Raise x, e')
    | Ret (slots, resident, c, o) =>
        LongContext_execute compressor offloader bit_width kv scores budget capacity e =
          (Ret (mkLongContext (Z.of_nat (length kv)) (Z.of_nat (length surviving)) slots resident [ratio; c; o] (ed_keep_indices decision)), e') ∧
        ∃ held layers, int_to_float held = Ret resident ∧ py_trunc slots = Ret layers ∧ held = Z.min capacity (Z.max 1 layers)
    end.
Proof.
  intros Hwf Hlen Hsmall Hcap. unfold LongContext_execute. destruct (decide (kv = [])) as [->|Hne]; [done|].
  assert (0 < Z.of_nat (length kv)) as Hpos by (destruct kv; [done|simpl; lia]). rewrite (proj2 (Z.eqb_neq _ 0)) by lia.
  assert (scores ≠ []) as Hscores by (intros ->; simpl in Hlen; lia).
  destruct (decide (budget < 1)) as [Hb|Hb]; [by apply stm_bind_raise, (el_budget (ev_wf := ev_wf))|].
  destruct (el_decides e scores budget Hwf Hscores ltac:(lia)) as (decision & e' & Hsel & Hwf' & Hok). rewrite Hlen in Hok.
  destruct (rows_at kv (ed_keep_indices decision) (do_range _ _ _ Hok)) as (surviving & Hrows & Hcount).
  pose proof (do_count _ _ _ Hok) as Hkept. destruct (count_ratio (Z.of_nat (length kv)) (Z.of_nat (length surviving)) ltac:(lia) ltac:(lia)) as [ratio Hratio].
  exists decision, surviving, ratio, e'. rewrite (stm_bind_eq _ _ _ _ _ Hsel), Hrows, stm_lift_bind, Hratio, stm_lift_bind.
  split_and!; [done..|lia|]. destruct (compress_and_offload _ _ _ _ surviving) as [[[[slots resident] c] o]|x] eqn:Hrest; [|done].
  split; [done|]. by eapply offload_within.
Qed.
End long_context_facts.

(** ** What a conversation holds *)

Fixpoint running_totals (from : Z) (turns : list ConversationTurn) : list Z :=
  match turns with [] => [] | t :: turns => (from + tn_new_tokens t) :: running_totals (from + tn_new_tokens t) turns end.

Section chat_facts.
Context {S E C P : Type} `{MultiTurnCacheStrategy S, KVCacheEvictor E, KVCacheCompressor C P, !Payload P} {ev_wf : E → Prop} `{!KVCacheEvictorLaws E ev_wf}.

(** A turn's share of the GPU: at most the budget's tokens, as small as they compress. *)
Definition bounded_share (budget total : Z) (resident : f64) : Prop :=
  ∃ kept n ratio, 1 ≤ kept ≤ budget ∧ kept ≤ total ∧ int_to_float kept = Ret n ∧ fdiv n ratio = Ret resident.

Lemma chat_turn_bounded (p : @RealTimeChatPipeline S C) total ratio e resident ratio' e' : ev_wf e → 1 ≤ cp_budget p →
  chat_turn p total ratio e = (Ret (resident, ratio'), e') → ev_wf e' ∧ bounded_share (cp_budget p) total resident.
Proof.
  intros Hwf Hb. unfold chat_turn. destruct (decaying_scores total) as [scores|] eqn:Hscores; [|done]. rewrite stm_lift_bind.
  assert (Z.of_nat (length scores) = Z.max 0 total) as Hlen by (apply res_mapM_lookup in Hscores as [-> _]; unfold py_range; rewrite length_seqZ; lia).
  intros Hrun. apply stm_bind_inv in Hrun as (decision & e1 & Hsel & Hrun).
  destruct (Z.le_gt_cases total 0) as [Hneg|Hpos]; [destruct scores; [by rewrite (el_empty (ev_wf := ev_wf)) in Hsel|simpl in Hlen; lia]|].
  assert (scores ≠ []) as Hne by (intros ->; simpl in Hlen; lia).
  destruct (el_decides e scores (Z.min (cp_budget p) total) Hwf Hne ltac:(lia)) as (d & e2 & Hsel' & Hwf' & Hok). rewrite Hsel in Hsel'. injection Hsel' as <- <-.
  pose proof (do_count _ _ _ Hok) as Hkept.
  destruct (placeholder_rows _ _) as [rows|]; [|done]. rewrite stm_lift_bind in Hrun. destruct (compress _ rows) as [z|]; [|done]. rewrite stm_lift_bind in Hrun.
  destruct (payload_bits _ _) as [bits|]; [|done]. rewrite stm_lift_bind in Hrun. destruct (if feq bits fzero then _ else _) as [r|]; [|done]. rewrite stm_lift_bind in Hrun.
  destruct (int_to_float (Z.of_nat _)) as [n|] eqn:Hn; [|done]. cbn [mbind res_bind] in Hrun. destruct (fdiv n r) as [x|] eqn:Hx; [|done]. rewrite stm_lift_bind in Hrun.
  injection Hrun as <- <- <-. split; [done|]. exists (Z.of_nat (length (ed_keep_indices decision))), n, r. split_and!; [lia|lia|lia|done|done].
Qed.

Lemma chat_turns_bounded (p : @RealTimeChatPipeline S C) turns from ratio e unbounded residents ratio' e' : ev_wf e → 1 ≤ cp_budget p →
  chat_turns p from ratio turns e = (Ret (unbounded, residents, ratio'), e') →
  unbounded = running_totals from turns ∧ Forall2 (bounded_share (cp_budget p)) unbounded residents.
Proof.
  revert from ratio e unbounded residents ratio' e'. induction turns as [|t turns IH]; intros from ratio e unbounded residents ratio' e' Hwf Hb; cbn [chat_turns running_totals].
  - intros [= <- <- _ _]. done.
  - intros Hrun. apply stm_bind_inv in Hrun as ([x r] & e1 & Hturn & Hrun). destruct (chat_turn_bounded _ _ _ _ _ _ _ Hwf Hb Hturn) as [Hwf' Hshare].
    apply stm_bind_inv in Hrun as ([[us rs] r'] & e2 & Hrest & Hrun). injection Hrun as <- <- _ _.
    destruct (IH _ _ _ _ _ _ _ Hwf' Hb Hrest) as [-> Hall]. split; [done|by constructor].
Qed.

(** However long a conversation grows, no turn keeps more than the budget's tokens. *)
Theorem chat_memory_is_bounded session (compressor : C) budget channels bit_width (p : @RealTimeChatPipeline S C) turns e r e' : ev_wf e →
  RealTimeChat_init session compressor budget channels bit_width = Ret p → RealTimeChat_execute p turns e = (Ret r, e') →
  turns ≠ [] ∧ ct_unbounded_resident r = running_totals 0 turns ∧ Forall2 (bounded_share budget) (running_totals 0 turns) (ct_per_turn_resident r).
Proof.
  intros Hwf. unfold RealTimeChat_init. destruct (Z.ltb_spec budget 1); [done|]. destruct (channels <? 1); [done|]. intros [= <-]. unfold RealTimeChat_execute. cbn [cp_session].
  destruct (run_session session turns) as [run|]; [|done]. rewrite stm_lift_bind. intros Hrun. apply stm_bind_inv in Hrun as ([[us rs] ratio] & e1 & Hturns & Hrun).
  apply chat_turns_bounded in Hturns as [Hus Hall]; [|done|done]. cbn [cp_budget] in *. destruct (py_index (-1) us) as [l|] eqn:Hl; [|done]. rewrite stm_lift_bind in Hrun.
  destruct (int_true_div _ _) as [x|]; [|done]. rewrite stm_lift_bind in Hrun. injection Hrun as <- _. cbn [ct_unbounded_resident ct_per_turn_resident]. subst us.
  split_and!; [|done|done]. intros ->. discriminate Hl.
Qed.
End chat_facts.

(** ** Worked examples *)

Lemma compounding_beats_the_best_witness :
  let l := [flit 3 1; flit 4 1; flit 3 2] in
  ∃ best product, best_single_reduction l = Ret best ∧ compounded_reduction l = Ret product ∧ fle best product = true ∧
    ∀ measured, flt fzero measured = true → ∃ score, synergy_score measured l = Ret score.
Proof. apply compounding_beats_the_best; [discriminate|]. repeat constructor. Defined.

(** Four tokens, two kept by H2O, quantized by KIVI in groups of two, offloaded by LayerKV. *)
Lemma long_context_feeds_survivors_witness :
  let kv := map (λ n, [flit n 1]) [1; 2; 3; 4] in let scores := map (λ n, flit n 1) [5; 1; 1; 7] in
  ∃ decision surviving e', select_keep_indices scores 2 (mkH2O 1) = (Ret decision, e') ∧
    res_mapM (λ index, py_index index kv) (ed_keep_indices decision) = Ret surviving ∧ Z.of_nat (length surviving) = 2.
Proof.
  pose proof (long_context_feeds_survivors (ev_wf := h2o_wf) (KIVI.mkKIVI 2 15) mkLayerKV 4 (map (λ n, [flit n 1]) [1; 2; 3; 4]) (map (λ n, flit n 1) [5; 1; 1; 7]) 2 8 (mkH2O 1)
    ltac:(unfold h2o_wf; simpl; lia) eq_refl ltac:(reflexivity) ltac:(intros w run [= <-]; unfold pipelined; by destruct (pipeline_total _ _ _))) as Hrun.
  rewrite !decide_False in Hrun by (lia || discriminate).
  destruct Hrun as (decision & surviving & ratio & e' & _ & _ & Hsel & Hrows & Hcount & _). exists decision, surviving, e'. by split_and!.
Defined.
