(* ===== verification/EvalMetrics.v ===== *)
(** * What the evaluation measures

    evaluation/domain: statistics.py, cascade_metrics.py, routing_metrics.py and
    freshness_metrics.py.  Counts are exact; a rate is the double nearest a
    quotient of two of them, a duration is a double.  [math.nan] stands for a rate
    never measured. *)

From Stdlib Require Import ZArith Lia Ascii String Floats.SpecFloat.
From S2P Require Import Prelude PyFloat IntDivision FloatOrder PyTime PySeq PyStr Entities StructureChunker Pipelines.

(** [needle in haystack], and how many of a list satisfy a test. *)
Definition str_in (needle haystack : string) : bool := match find_sub needle haystack with Some _ => true | None => false end.
Definition count_if {A} (p : A → bool) (l : list A) : Z := Z.of_nat (length (List.filter p l)).

(** [numerator / denominator if denominator else math.nan]. *)
Definition _ratio (numerator denominator : Z) : res f64 := if denominator =? 0 then Ret S754_nan else int_true_div numerator denominator.

(** ** statistics.py *)

Definition percentile_index (pct : f64) (n : Z) : res Z :=
  top ← int_to_float (n - 1);
  k ← py_round (fmul pct top);
  Ret (Z.min (n - 1) k).

Definition nearest_rank_percentile (sorted_values : list f64) (pct : f64) : res f64 :=
  match sorted_values with
  | [] => Raise (ValueError "at least one value is required")
  | _ => index ← percentile_index pct (Z.of_nat (length sorted_values)); py_index index sorted_values
  end.

(** 0.50 and 0.95. *)
Definition p50 : f64 := flit 1 2.
Definition p95 : f64 := flit 95 100.

(** ** cascade_metrics.py *)

Definition OUTCOMES : list TierOutcome := [HIT; PARTIAL; MISS; TIMEOUT; ERROR].

Record TierLatencySummary : Type := mkTierLatencySummary {
  tl_paradigm : Paradigm;
  tl_attempts : Z;
  tl_outcomes : list (TierOutcome * Z);
  tl_p50_ms : f64;
  tl_p95_ms : f64;
  tl_budget_ms : f64;
  tl_within_budget_rate : f64
}.

Definition of_paradigm (p : Paradigm) (a : TierAttempt) : bool := bool_decide (ta_paradigm a = p).

Definition outcome_counts (mine : list TierAttempt) : list (TierOutcome * Z) :=
  List.filter (λ on, negb (on.2 =? 0)) (map (λ o, (o, count_if (λ a, bool_decide (ta_outcome a = o)) mine)) OUTCOMES).

(** One turn of the loop; [None] when the tier was never attempted. *)
Definition summarize_tier (attempts : list TierAttempt) (budgets_ms : gmap Paradigm f64) (p : Paradigm) : res (option TierLatencySummary) :=
  match List.filter (of_paradigm p) attempts with
  | [] => Ret None
  | mine =>
      let elapsed := sorted_asc id (map ta_elapsed_ms mine) in
      budget ← match budgets_ms !! p with Some b => Ret b | None => Raise KeyError end;
      low ← nearest_rank_percentile elapsed p50;
      high ← nearest_rank_percentile elapsed p95;
      rate ← int_true_div (count_if (λ a, fle (ta_elapsed_ms a) budget) mine) (Z.of_nat (length mine));
      Ret (Some (mkTierLatencySummary p (Z.of_nat (length mine)) (outcome_counts mine) low high budget rate))
  end.

Definition summarize_tier_latency (attempts : list TierAttempt) (budgets_ms : gmap Paradigm f64) : res (list TierLatencySummary) :=
  summaries ← res_mapM (summarize_tier attempts budgets_ms) PARADIGM_ORDER;
  Ret (omap (M := list) id summaries).

Record StaleAnswerTally : Type := mkStaleAnswerTally {
  sa_arm : string;
  sa_runs : Z;
  sa_stale : Z;
  sa_fresh : Z;
  sa_mixed : Z
}.

Definition sa_stale_rate (t : StaleAnswerTally) : res f64 := _ratio (sa_stale t) (sa_runs t).

Definition tally_staleness (arm : string) (contexts : list string) (stale_marker fresh_marker : string) : StaleAnswerTally :=
  let flags := map (λ context, (str_in stale_marker context, str_in fresh_marker context)) contexts in
  mkStaleAnswerTally arm (Z.of_nat (length contexts))
    (count_if (λ sf, sf.1 && negb sf.2) flags) (count_if (λ sf, sf.2 && negb sf.1) flags) (count_if (λ sf, sf.1 && sf.2) flags).

Record AllocatorTally : Type := mkAllocatorTally {
  al_window_tokens : Z;
  al_turns : Z;
  al_dynamic_dropped : Z;
  al_static_dropped : Z;
  al_dynamic_tokens : Z;
  al_static_tokens : Z
}.

(** ** routing_metrics.py *)

Record RoutingObservation : Type := mkRoutingObservation {
  ro_query : string;
  ro_expected : gset Paradigm;
  ro_decision : RoutingDecision;
  ro_latency_ms : f64
}.

Record PrecisionRecall : Type := mkPrecisionRecall { pr_precision : f64; pr_recall : f64 }.

Record RoutingMetrics : Type := mkRoutingMetrics {
  rm_count : Z;
  rm_exact_match_rate : f64;
  rm_coverage_rate : f64;
  rm_confident_rate : f64;
  rm_per_paradigm : list (Paradigm * PrecisionRecall);
  rm_latency_p50_ms : f64;
  rm_latency_p95_ms : f64
}.

Definition selected (p : Paradigm) (o : RoutingObservation) : bool := bool_decide (p ∈ rd_paradigms (ro_decision o)).
Definition needed (p : Paradigm) (o : RoutingObservation) : bool := bool_decide (p ∈ ro_expected o).
Definition exact_match (o : RoutingObservation) : bool := bool_decide (rd_paradigms (ro_decision o) = ro_expected o).
Definition covered (o : RoutingObservation) : bool := bool_decide (ro_expected o ⊆ rd_paradigms (ro_decision o)).
Definition confident (o : RoutingObservation) : bool := bool_decide (rd_mode (ro_decision o) = CASCADE).

Definition precision_recall (observations : list RoutingObservation) (p : Paradigm) : res (Paradigm * PrecisionRecall) :=
  let true_pos := count_if (λ o, selected p o && needed p o) observations in
  let false_pos := count_if (λ o, selected p o && negb (needed p o)) observations in
  let false_neg := count_if (λ o, negb (selected p o) && needed p o) observations in
  precision ← _ratio true_pos (true_pos + false_pos);
  recall ← _ratio true_pos (true_pos + false_neg);
  Ret (p, mkPrecisionRecall precision recall).

Definition summarize (observations : list RoutingObservation) : res RoutingMetrics :=
  match observations with
  | [] => Raise (ValueError "at least one observation is required")
  | _ =>
      let count := Z.of_nat (length observations) in
      per_paradigm ← res_mapM (precision_recall observations) PARADIGM_ORDER;
      let latencies := sorted_asc id (map ro_latency_ms observations) in
      exact ← int_true_div (count_if exact_match observations) count;
      coverage ← int_true_div (count_if covered observations) count;
      confidence ← int_true_div (count_if confident observations) count;
      low ← nearest_rank_percentile latencies p50;
      high ← nearest_rank_percentile latencies p95;
      Ret (mkRoutingMetrics count exact coverage confidence per_paradigm low high)
  end.

(** ** freshness_metrics.py *)

Record ProbeObservation : Type := mkProbeObservation {
  po_arm : string;
  po_source_key : string;
  po_context : string;
  po_current_marker : string;
  po_superseded_markers : list string;
  po_served_from_cag : bool;
  po_foreign_markers : list string
}.

Record PlacementTally : Type := mkPlacementTally {
  pt_arm : string;
  pt_source_key : string;
  pt_probes : Z;
  pt_stale_only : Z;
  pt_mixed : Z;
  pt_fresh_only : Z;
  pt_neither : Z;
  pt_cag_served : Z;
  pt_stale_from_cag : Z;
  pt_foreign_exposures : Z
}.

Definition pt_stale_rate (t : PlacementTally) : res f64 := _ratio (pt_stale_only t) (pt_probes t).
Definition pt_cag_share (t : PlacementTally) : res f64 := _ratio (pt_cag_served t) (pt_probes t).

Definition probe_key (o : ProbeObservation) : string * string := (po_arm o, po_source_key o).
Definition probe_stale (o : ProbeObservation) : bool := existsb (λ marker, str_in marker (po_context o)) (po_superseded_markers o).
Definition probe_fresh (o : ProbeObservation) : bool := str_in (po_current_marker o) (po_context o).
Definition probe_foreign (o : ProbeObservation) : bool := existsb (λ marker, str_in marker (po_context o)) (po_foreign_markers o).

Inductive ProbeLabel : Type := StaleOnly | Mixed | FreshOnly | Neither.

#[global] Instance probe_label_eq_dec : EqDecision ProbeLabel.
Proof. solve_decision. Defined.

Definition probe_label (o : ProbeObservation) : ProbeLabel :=
  if probe_stale o then (if probe_fresh o then Mixed else StaleOnly) else (if probe_fresh o then FreshOnly else Neither).

(** [groups.setdefault(key, \[\]).append(observation)], in order. *)
Definition group_probes (observations : list ProbeObservation) : list (string * string * list ProbeObservation) :=
  foldl (λ groups o, od_set (probe_key o) (default [] (od_get (probe_key o) groups) ++ [o]) groups) [] observations.

Record LabelCounts : Type := mkLabelCounts { lc_stale_only : Z; lc_mixed : Z; lc_fresh_only : Z; lc_neither : Z; lc_stale_from_cag : Z }.

Definition count_probe (c : LabelCounts) (o : ProbeObservation) : LabelCounts :=
  let from_cag := lc_stale_from_cag c + Z.b2z (probe_stale o && po_served_from_cag o) in
  match probe_label o with
  | StaleOnly => mkLabelCounts (lc_stale_only c + 1) (lc_mixed c) (lc_fresh_only c) (lc_neither c) from_cag
  | Mixed => mkLabelCounts (lc_stale_only c) (lc_mixed c + 1) (lc_fresh_only c) (lc_neither c) from_cag
  | FreshOnly => mkLabelCounts (lc_stale_only c) (lc_mixed c) (lc_fresh_only c + 1) (lc_neither c) from_cag
  | Neither => mkLabelCounts (lc_stale_only c) (lc_mixed c) (lc_fresh_only c) (lc_neither c + 1) from_cag
  end.

Definition tally_group (g : string * string * list ProbeObservation) : PlacementTally :=
  let '(arm, key, group) := g in
  let counts := foldl count_probe (mkLabelCounts 0 0 0 0 0) group in
  mkPlacementTally arm key (Z.of_nat (length group)) (lc_stale_only counts) (lc_mixed counts) (lc_fresh_only counts) (lc_neither counts)
    (count_if po_served_from_cag group) (lc_stale_from_cag counts) (count_if probe_foreign group).

Definition tally_probes (observations : list ProbeObservation) : list PlacementTally := map tally_group (group_probes observations).

(** *** PreloadTracker *)

Record PreloadTracker : Type := mkPreloadTracker {
  tr_generations : gmap (string * string) (list bool);
  tr_times : gmap (string * string) (list datetime)
}.

Definition new_tracker : PreloadTracker := mkPreloadTracker ∅ ∅.

Definition preloaded (arm source_key : string) (at_ : datetime) (t : PreloadTracker) : PreloadTracker :=
  let k := (arm, source_key) in
  mkPreloadTracker (<[k := default [] (tr_generations t !! k) ++ [false]]> (tr_generations t))
    (<[k := default [] (tr_times t !! k) ++ [at_]]> (tr_times t)).

Definition served (arm source_key : string) (t : PreloadTracker) : PreloadTracker :=
  let k := (arm, source_key) in
  match tr_generations t !! k with
  | Some ((_ :: _) as generations) =>
      mkPreloadTracker (<[k := take (length generations - 1) generations ++ [true]]> (tr_generations t)) (tr_times t)
  | _ => t
  end.

Definition counts (arm source_key : string) (t : PreloadTracker) : Z * Z :=
  let generations := default [] (tr_generations t !! (arm, source_key)) in
  (Z.of_nat (length generations), count_if negb generations).

Definition split_at (arm source_key : string) (instant : datetime) (t : PreloadTracker) : Z * Z :=
  let times := default [] (tr_times t !! (arm, source_key)) in
  let before := count_if (λ at_, at_ <? instant) times in
  (before, Z.of_nat (length times) - before).

Record MigrationObservation : Type := mkMigrationObservation {
  mo_source_key : string;
  mo_from_route : string;
  mo_to_route : string;
  mo_shift_at : datetime;
  mo_migrated_at : datetime;
  mo_preloads_before : Z;
  mo_preloads_after : Z
}.

Definition mo_lag (m : MigrationObservation) : timedelta := mo_migrated_at m - mo_shift_at m.

Record RouteRow : Type := mkRouteRow {
  rr_data_type : string;
  rr_declared_change : string;
  rr_scope : string;
  rr_source_paradigm : string;
  rr_route : string;
  rr_agrees : bool
}.

(** ** Worked examples *)

Example ranks : map (λ n, percentile_index p95 n) [1; 2; 5; 20; 21; 1000] = [Ret 0; Ret 1; Ret 4; Ret 18; Ret 19; Ret 949].
Proof. vm_compute. reflexivity. Qed.

Example tracked :
  let t := preloaded "a" "s" 3 (served "a" "s" (preloaded "a" "s" 2 (preloaded "a" "s" 1 new_tracker))) in
  (counts "a" "s" t, counts "b" "s" t, split_at "a" "s" 2 t) = ((3, 2), (0, 0), (1, 2)).
Proof. vm_compute. reflexivity. Qed.

(** ** Percentiles are ranks *)

(** Reading an unsigned finite double as an integer rounds its units. *)
Lemma py_round_units x : finite_unsigned x = true → py_round x = Ret (rne (units x) 1074).
Proof.
  unfold finite_unsigned. intros [Hx Hf]%andb_true_iff. destruct x as [s|[]| |[] m e]; try discriminate Hx; try discriminate Hf; [done|].
  cbn [unsigned negb andb] in Hx. destruct (finite_digits m e Hx) as (He & _). cbn [py_round units]. f_equal.
  destruct (Z.leb_spec 0 e) as [Hp|Hn].
  - rewrite Z.shiftl_mul_pow2, (Z.add_comm e), Z.pow_add_r, (Z.mul_comm (2 ^ 1074)), Z.mul_assoc by lia. symmetry. apply rne_exact. lia.
  - assert (rne (Z.pos m * 2 ^ (e + 1074)) 1074 = rne (Z.pos m) (- e)) as ->.
    { replace 1074 with (- e + (e + 1074)) at 2 by lia. apply rne_scale; lia. }
    unfold rne. rewrite Z.shiftr_div_pow2, !Z.shiftl_mul_pow2 by lia. set (q := Z.pos m / 2 ^ (- e)).
    assert (0 < 2 ^ (- e)) as Hpow by (apply Z.pow_pos_nonneg; lia).
    assert (Z.pos m - q * 2 ^ (- e) = Z.pos m mod 2 ^ (- e)) as -> by (unfold q; pose proof (Z.div_mod (Z.pos m) (2 ^ (- e))); lia).
    assert (2 ^ (- e) = 2 * 2 ^ (- e - 1)) as Htwo by (rewrite <- Z.pow_succ_r by lia; f_equal; lia). rewrite Z.mul_1_l.
    rewrite <- Z.negb_even. set (r := Z.pos m mod 2 ^ (- e)). rewrite Htwo.
    destruct (Z.compare_spec (2 * r) (2 * 2 ^ (- e - 1))) as [Heq|Hlt|Hgt].
    + replace r with (2 ^ (- e - 1)) by lia. rewrite Z.ltb_irrefl, Z.eqb_refl. by destruct (Z.even q).
    + rewrite (proj2 (Z.ltb_ge _ _)), (proj2 (Z.eqb_neq _ _)) by lia. done.
    + rewrite (proj2 (Z.ltb_lt _ _)) by lia. done.
Qed.

Lemma rnd_integer n : 0 < n < 2 ^ 53 → rnd (n * 2 ^ 1074) (-1074) = n * 2 ^ 1074.
Proof.
  intros Hn. unfold rnd. rewrite !exponent_eq, Zdigits2_shift by lia. pose proof (Zdigits2_mono n (2 ^ 53 - 1) ltac:(lia)) as Hd.
  change (Zdigits2 (2 ^ 53 - 1)) with 53 in Hd. set (d := Z.max (Zdigits2 n + 1074 + -1074 - 53) (-1074)). assert (-1074 ≤ d ≤ 0) as Hd' by lia. clearbody d.
  replace (d - -1074) with (d + 1074) by lia. replace (n * 2 ^ 1074) with (n * 2 ^ (- d) * 2 ^ (d + 1074)).
  - rewrite rne_exact by lia. done.
  - rewrite <- Z.mul_assoc, <- Z.pow_add_r by lia. do 2 f_equal. lia.
Qed.

Lemma int_to_float_units n : 0 ≤ n < 2 ^ 53 → ∃ x, int_to_float n = Ret x ∧ finite_unsigned x = true ∧ units x = n * 2 ^ 1074.
Proof.
  intros Hn. destruct n as [|p|p]; [by exists fzero| |lia]. destruct (binary_round_units p 0 ltac:(lia)) as [Hs Hu]. cbv zeta in Hs, Hu.
  change (0 + 1074) with 1074 in Hu. rewrite rnd_integer in Hu by lia. assert (Z.pos p * 2 ^ 1074 < infinite_units) as Hfin.
  { unfold infinite_units. apply Z.lt_le_trans with (2 ^ 53 * 2 ^ 1074); [apply Z.mul_lt_mono_pos_r; [apply Z.pow_pos_nonneg; lia|lia]|].
    rewrite <- Z.pow_add_r by lia. apply Z.pow_le_mono_r; lia. }
  rewrite Z.min_l in Hu by lia. exists (of_Z_raw (Z.pos p)). unfold int_to_float, of_Z_raw, binary_normalize.
  assert (finite_unsigned (binary_round f64_prec f64_emax false p 0) = true) as Hf by (unfold finite_unsigned; rewrite Hs, is_finite_units, Hu by done; by apply Z.ltb_lt).
  split_and!; [|done|done]. by destruct (binary_round f64_prec f64_emax false p 0) as [|[]| |].
Qed.

(** The index of a percentile is the rank of [pct * (n - 1)], whatever the fraction. *)
Lemma percentile_index_spec pct n : finite_unsigned pct = true → fle pct fone = true → 0 < n < 2 ^ 53 →
  ∃ x, int_to_float (n - 1) = Ret x ∧ percentile_index pct n = Ret (rne (units (fmul pct x)) 1074) ∧
    0 ≤ rne (units (fmul pct x)) 1074 < n ∧ finite_unsigned x = true.
Proof.
  intros Hp Hle Hn. destruct (int_to_float_units (n - 1) ltac:(lia)) as (x & Hx & Hf & Hu). exists x. split; [done|].
  destruct (fmul_units pct x Hp Hf) as [Hs Hm]. destruct (fmul_units x pct Hf Hp) as [Hs' Hm']. rewrite Z.mul_comm, <- Hm in Hm'.
  destruct (fmul_one x pct Hf Hp) as (_ & Hone & _). specialize (Hone Hle). pose proof Hf as [Hxs _]%andb_true_iff.
  rewrite fle_units, Z.leb_le, Hm' in Hone by done. pose proof (units_range _ Hs) as Hr.
  assert (finite_unsigned (fmul pct x) = true) as Hff.
  { unfold finite_unsigned in *. rewrite Hs, is_finite_units by done. apply andb_true_iff in Hf as [_ Hf]. rewrite is_finite_units in Hf by done. apply Z.ltb_lt in Hf. apply Z.ltb_lt. lia. }
  assert (0 ≤ rne (units (fmul pct x)) 1074 ≤ n - 1) as Hb.
  { split; [apply rne_ge; lia|apply rne_le; lia]. }
  split_and!; [|lia..|done]. unfold percentile_index. rewrite Hx. cbn [mbind res_bind]. rewrite py_round_units by done. cbn [mbind res_bind]. f_equal. lia.
Qed.

Lemma nearest_rank_total l pct : finite_unsigned pct = true → fle pct fone = true → l ≠ [] → Z.of_nat (length l) < 2 ^ 53 →
  ∃ (k : nat) v, percentile_index pct (Z.of_nat (length l)) = Ret (Z.of_nat k) ∧ l !! k = Some v ∧ nearest_rank_percentile l pct = Ret v.
Proof.
  intros Hp Hle Hne Hlen. assert (0 < Z.of_nat (length l)) as Hpos by (destruct l; [done|cbn; lia]).
  destruct (percentile_index_spec pct _ Hp Hle (conj Hpos Hlen)) as (x & _ & Hi & Hr & _). set (i := rne _ _) in *. clearbody i.
  destruct (lookup_lt_is_Some_2 l (Z.to_nat i)) as [v Hv]; [lia|]. exists (Z.to_nat i), v. rewrite Z2Nat.id by lia. split_and!; [done..|].
  unfold nearest_rank_percentile. destruct l as [|a l]; [done|]. rewrite Hi. cbn [mbind res_bind]. unfold py_index.
  rewrite (proj2 (Z.ltb_ge i 0)), (proj2 (Z.ltb_ge i 0)) by lia. by rewrite Hv.
Qed.

(** A greater percentile has a rank no lower. *)
Lemma percentile_index_mono pct pct' n i j : finite_unsigned pct = true → finite_unsigned pct' = true → fle pct pct' = true → fle pct' fone = true →
  0 < n < 2 ^ 53 → percentile_index pct n = Ret i → percentile_index pct' n = Ret j → i ≤ j.
Proof.
  intros Hp Hp' Hle Hone Hn Hi Hj. assert (fle pct fone = true) as Hone1 by (by eapply fle_trans).
  destruct (percentile_index_spec pct n Hp Hone1 Hn) as (x & Hx & Hi' & _ & Hf). destruct (percentile_index_spec pct' n Hp' Hone Hn) as (x' & Hx' & Hj' & _ & _).
  rewrite Hx in Hx'. injection Hx' as <-. rewrite Hi in Hi'. rewrite Hj in Hj'. injection Hi' as ->. injection Hj' as ->. apply rne_mono; [lia|].
  destruct (fmul_units pct x Hp Hf) as [Hs _], (fmul_units pct' x Hp' Hf) as [Hs' _]. rewrite <- Z.leb_le, <- fle_units by done.
  apply fmul_mono; try done. apply fle_refl. apply unsigned_not_nan. by apply andb_true_iff in Hf as [? _].
Qed.

(** ** Every probe is tallied once *)

(** The keys of a list, each where it first appears. *)
Definition first_seen {K} `{EqDecision K} (l : list K) : list K := foldl (λ ks k, if decide (k ∈ ks) then ks else ks ++ [k]) [] l.

Lemma first_seen_snoc {K} `{EqDecision K} (l : list K) k : first_seen (l ++ [k]) = if decide (k ∈ first_seen l) then first_seen l else first_seen l ++ [k].
Proof. unfold first_seen. by rewrite foldl_snoc. Qed.

Lemma first_seen_spec {K} `{EqDecision K} (l : list K) : NoDup (first_seen l) ∧ ∀ k, k ∈ first_seen l ↔ k ∈ l.
Proof.
  induction l as [|x l [Hnd Hin]] using rev_ind; [split; [constructor|done]|]. rewrite first_seen_snoc. destruct (decide (x ∈ first_seen l)) as [Hx|Hx].
  - split; [done|]. intros k. rewrite elem_of_app, list_elem_of_singleton, Hin. apply Hin in Hx. naive_solver.
  - split; [apply NoDup_app; split; [done|split; [|apply NoDup_singleton]]; by intros y Hy ->%list_elem_of_singleton|].
    intros k. by rewrite !elem_of_app, Hin.
Qed.

Section keyed_dict.
Context {K V : Type} `{EqDecision K}.

Lemma od_get_map (f : K → V) ks k : od_get k (map (λ j, (j, f j)) ks) = if decide (k ∈ ks) then Some (f k) else None.
Proof.
  induction ks as [|j ks IH]; [by rewrite decide_False by apply not_elem_of_nil|]. cbn [map]. rewrite od_get_cons, IH.
  destruct (decide (j = k)) as [->|Hne]; [by rewrite decide_True by (by left)|].
  destruct (decide (k ∈ ks)) as [Hk|Hk]; [by rewrite decide_True by (by right)|]. rewrite decide_False; [done|]. by rewrite not_elem_of_cons.
Qed.

Lemma od_set_map (f g : K → V) ks k : NoDup ks → (∀ j, j ≠ k → g j = f j) →
  od_set k (g k) (map (λ j, (j, f j)) ks) = map (λ j, (j, g j)) (if decide (k ∈ ks) then ks else ks ++ [k]).
Proof.
  intros Hnd Hg. induction ks as [|j ks IH]; [by rewrite decide_False by apply not_elem_of_nil|]. apply NoDup_cons in Hnd as [Hj Hnd]. cbn [map od_set].
  destruct (decide (j = k)) as [->|Hne].
  - rewrite decide_True by (by left). cbn [map]. f_equal. apply map_ext_in. intros i Hi. rewrite Hg; [done|]. intros ->. by apply Hj, list_elem_of_In.
  - rewrite IH by done. destruct (decide (k ∈ ks)) as [Hk|Hk].
    + rewrite decide_True by (by right). cbn [map]. by rewrite Hg.
    + rewrite decide_False by (by rewrite not_elem_of_cons). cbn [app map]. by rewrite Hg.
Qed.

Lemma zsum_od_set (size : V → Z) k v (d : list (K * V)) :
  zsum (map (λ kv, size kv.2) (od_set k v d)) = zsum (map (λ kv, size kv.2) d) - match od_get k d with Some w => size w | None => 0 end + size v.
Proof.
  induction d as [|[j w] d IH]; [cbn; lia|]. cbn [od_set]. rewrite od_get_cons. destruct (decide (j = k)); unfold zsum in *; cbn in *; lia.
Qed.
End keyed_dict.

Definition in_group (k : string * string) (o : ProbeObservation) : bool := bool_decide (probe_key o = k).

Lemma group_probes_snoc l o : group_probes (l ++ [o]) = od_set (probe_key o) (default [] (od_get (probe_key o) (group_probes l)) ++ [o]) (group_probes l).
Proof. unfold group_probes. by rewrite foldl_snoc. Qed.

Lemma group_probes_spec l : group_probes l = map (λ k, (k, List.filter (in_group k) l)) (first_seen (map probe_key l)).
Proof.
  induction l as [|o l IH] using rev_ind; [done|]. rewrite group_probes_snoc, IH, map_app. cbn [map]. rewrite first_seen_snoc.
  destruct (first_seen_spec (map probe_key l)) as [Hnd Hin]. set (k := probe_key o).
  rewrite <- (od_set_map (λ j, List.filter (in_group j) l)); [|done|].
  - f_equal. rewrite List.filter_app. cbn [List.filter]. unfold in_group at 3. rewrite bool_decide_eq_true_2 by done. f_equal. rewrite od_get_map.
    destruct (decide (k ∈ first_seen (map probe_key l))) as [Hk|Hk]; [done|]. cbn. symmetry. rewrite Hin in Hk.
    induction l as [|p l IHl] using rev_ind; [done|]. clear -Hk. revert Hk. generalize (l ++ [p]). intros m. induction m as [|q m IHm]; [done|].
    cbn [map List.filter]. intros [Hq Hm]%not_elem_of_cons. unfold in_group at 1. rewrite bool_decide_eq_false_2 by congruence. by apply IHm.
  - intros j Hj. rewrite List.filter_app. cbn [List.filter]. unfold in_group at 2. rewrite bool_decide_eq_false_2 by (intros He; by apply Hj). by rewrite app_nil_r.
Qed.

Lemma count_if_cons {A} (p : A → bool) x l : count_if p (x :: l) = Z.b2z (p x) + count_if p l.
Proof. unfold count_if. cbn [List.filter]. destruct (p x); cbn [length Z.b2z]; lia. Qed.

Definition has_label (lb : ProbeLabel) (o : ProbeObservation) : bool := bool_decide (probe_label o = lb).

Lemma has_label_eq lb o : has_label lb o =
  match lb, probe_label o with StaleOnly, StaleOnly | Mixed, Mixed | FreshOnly, FreshOnly | Neither, Neither => true | _, _ => false end.
Proof. unfold has_label. by destruct lb, (probe_label o). Qed.

Lemma count_probes_spec l c : foldl count_probe c l =
  mkLabelCounts (lc_stale_only c + count_if (has_label StaleOnly) l) (lc_mixed c + count_if (has_label Mixed) l)
    (lc_fresh_only c + count_if (has_label FreshOnly) l) (lc_neither c + count_if (has_label Neither) l)
    (lc_stale_from_cag c + count_if (λ o, probe_stale o && po_served_from_cag o) l).
Proof.
  revert c. induction l as [|o l IH]; intros c; [destruct c; unfold count_if; cbn; f_equal; lia|]. cbn [foldl]. rewrite IH, !count_if_cons.
  unfold count_probe. rewrite !has_label_eq. destruct (probe_label o); cbn; f_equal; lia.
Qed.

Lemma label_counts_total l :
  count_if (has_label StaleOnly) l + count_if (has_label Mixed) l + count_if (has_label FreshOnly) l + count_if (has_label Neither) l = Z.of_nat (length l).
Proof.
  induction l as [|o l IH]; [done|]. rewrite !count_if_cons. rewrite !has_label_eq. destruct (probe_label o); cbn; lia.
Qed.

Lemma stale_from_cag_bound l :
  count_if (λ o, probe_stale o && po_served_from_cag o) l ≤ Z.min (count_if po_served_from_cag l) (count_if (has_label StaleOnly) l + count_if (has_label Mixed) l).
Proof.
  induction l as [|o l IH]; [done|]. rewrite !count_if_cons. rewrite !has_label_eq. unfold probe_label. destruct (probe_stale o), (probe_fresh o), (po_served_from_cag o); cbn; lia.
Qed.

(** The tally of one arm's probes of one source, count by count. *)
Definition tally_of (k : string * string) (group : list ProbeObservation) : PlacementTally :=
  mkPlacementTally k.1 k.2 (Z.of_nat (length group)) (count_if (has_label StaleOnly) group) (count_if (has_label Mixed) group)
    (count_if (has_label FreshOnly) group) (count_if (has_label Neither) group) (count_if po_served_from_cag group)
    (count_if (λ o, probe_stale o && po_served_from_cag o) group) (count_if probe_foreign group).

Lemma tally_group_spec k group : tally_group (k, group) = tally_of k group.
Proof. destruct k as [arm key]. unfold tally_group, tally_of. by rewrite count_probes_spec. Qed.

Lemma group_sizes l : zsum (map (λ kg, Z.of_nat (length kg.2)) (group_probes l)) = Z.of_nat (length l).
Proof.
  induction l as [|o l IH] using rev_ind; [done|]. rewrite group_probes_snoc, (zsum_od_set (λ g, Z.of_nat (length g))), IH, !length_app. cbn [length].
  destruct (od_get _ _) as [g|]; cbn; rewrite ?length_app; lia.
Qed.

(** Every probe is tallied once. The tallies come in the order their arm and
    source were first probed, one for each pair; a tally counts exactly the probes
    of its pair, by what reached the context: only superseded text, both, only the
    current text, or neither, each probe under one of the four. No tally is empty,
    together they count every probe, and a tally never has more stale answers from
    the cache than answers from the cache or answers with superseded text. *)
Theorem probes_are_tallied_once observations :
  let keys := first_seen (map probe_key observations) in
  let tallies := tally_probes observations in
  tallies = map (λ k, tally_of k (List.filter (in_group k) observations)) keys ∧
  NoDup keys ∧ (∀ k, k ∈ keys ↔ k ∈ map probe_key observations) ∧
  zsum (map pt_probes tallies) = Z.of_nat (length observations) ∧
  Forall (λ t, 0 < pt_probes t ∧ pt_stale_only t + pt_mixed t + pt_fresh_only t + pt_neither t = pt_probes t ∧
    pt_stale_from_cag t ≤ Z.min (pt_cag_served t) (pt_stale_only t + pt_mixed t)) tallies.
Proof.
  cbv zeta. destruct (first_seen_spec (map probe_key observations)) as [Hnd Hin].
  assert (tally_probes observations = map (λ k, tally_of k (List.filter (in_group k) observations)) (first_seen (map probe_key observations))) as Ht.
  { unfold tally_probes. rewrite group_probes_spec, map_map. apply map_ext. intros k. apply tally_group_spec. }
  split_and!; [done..| |].
  - rewrite <- group_sizes. unfold tally_probes. rewrite map_map. f_equal. apply map_ext. by intros [[arm key] group].
  - rewrite Ht. apply list.Forall_forall. intros t (k & -> & Hk)%list_elem_of_fmap. split_and!; [|apply label_counts_total|apply stale_from_cag_bound].
    rewrite Hin in Hk. apply list_elem_of_fmap in Hk as (o & -> & Ho). cbn.
    assert (o ∈ List.filter (in_group (probe_key o)) observations) as Hof.
    { apply list_elem_of_In, List.filter_In. split; [by apply list_elem_of_In|]. by apply bool_decide_eq_true. }
    destruct (List.filter _ _); [by apply not_elem_of_nil in Hof|cbn; lia].
Qed.

(** ** Percentiles of a sample *)

Lemma sorted_lookup_le (l : list f64) (i j : nat) x y : keys_ok id l → sorted_asc id l !! i = Some x → sorted_asc id l !! j = Some y → (i ≤ j)%nat → fle x y = true.
Proof.
  intros Hok Hx Hy Hij. assert (StronglySorted (λ a b : f64, key_le id a b = true) (sorted_asc id l)) as Hs by (apply sort_by_sorted; auto using key_le_total, key_le_trans).
  destruct (decide (i = j)) as [->|Hne].
  - assert (x = y) as <- by congruence. apply fle_refl. unfold keys_ok in Hok. rewrite list.Forall_forall in Hok. apply (Hok x). rewrite <- (sorted_asc_perm id l). by eapply list_elem_of_lookup_2.
  - clear Hok. revert i j Hx Hy Hij Hne. induction Hs as [|a l' Hs IH Hall]; intros [|i] [|j] Hx Hy Hij Hne; try done; try lia; cbn in Hx, Hy; [|apply (IH i j); try done; lia].
    injection Hx as <-. rewrite list.Forall_forall in Hall. apply (Hall y). by eapply list_elem_of_lookup_2.
Qed.

(** The median and the 95th of a sample are in it, the one not above the other. *)
Lemma percentiles_ordered (l : list f64) : l ≠ [] → keys_ok id l → Z.of_nat (length l) < 2 ^ 53 →
  ∃ low high, nearest_rank_percentile (sorted_asc id l) p50 = Ret low ∧ nearest_rank_percentile (sorted_asc id l) p95 = Ret high ∧
    low ∈ l ∧ high ∈ l ∧ fle low high = true.
Proof.
  intros Hne Hok Hlen. assert (length (sorted_asc id l) = length l) as Hl by (by rewrite (sorted_asc_perm id l)).
  assert (sorted_asc id l ≠ []) as Hne' by (intros He; rewrite He in Hl; by destruct l). rewrite <- Hl in Hlen.
  destruct (nearest_rank_total (sorted_asc id l) p50 eq_refl eq_refl Hne' Hlen) as (i & low & Hi & Hlow & ->).
  destruct (nearest_rank_total (sorted_asc id l) p95 eq_refl eq_refl Hne' Hlen) as (j & high & Hj & Hhigh & ->).
  exists low, high. split_and!; [done..| | |].
  - rewrite <- (sorted_asc_perm id l). by eapply list_elem_of_lookup_2.
  - rewrite <- (sorted_asc_perm id l). by eapply list_elem_of_lookup_2.
  - eapply sorted_lookup_le; [done..|]. apply Nat2Z.inj_le. eapply (percentile_index_mono p50 p95); [done..| |done|done]. destruct (sorted_asc id l); [done|cbn in *; lia].
Qed.

Lemma count_if_le {A} (p q : A → bool) l : (∀ x, p x = true → q x = true) → count_if p l ≤ count_if q l.
Proof. intros Hpq. induction l as [|x l IH]; [done|]. rewrite !count_if_cons. specialize (Hpq x). destruct (p x), (q x); cbn; lia. Qed.

Lemma count_if_range {A} (p : A → bool) l : 0 ≤ count_if p l ≤ Z.of_nat (length l).
Proof. induction l as [|x l IH]; [done|]. rewrite count_if_cons. cbn [length]. destruct (p x); cbn; lia. Qed.

Lemma rate_total k n : 0 ≤ k < 2 ^ 53 → 0 < n < 2 ^ 53 → ∃ x, int_true_div k n = Ret x.
Proof. intros Hk Hn. destruct (Z.eq_dec k 0) as [->|]; [by destruct n; [lia|exists fzero|lia]|]. by apply count_ratio; lia. Qed.

Lemma ratio_total k n : 0 ≤ k < 2 ^ 53 → 0 ≤ n < 2 ^ 53 → ∃ x, _ratio k n = Ret x.
Proof. intros Hk Hn. unfold _ratio. destruct (Z.eqb_spec n 0); [by eexists|]. by apply rate_total; lia. Qed.

(** Selected and needed, selected only, and needed only: no observation twice. *)
Lemma confusion_counts p l :
  count_if (λ o, selected p o && needed p o) l + count_if (λ o, selected p o && negb (needed p o)) l = count_if (selected p) l ∧
  count_if (λ o, selected p o && needed p o) l + count_if (λ o, negb (selected p o) && needed p o) l = count_if (needed p) l.
Proof. induction l as [|o l [IH1 IH2]]; [done|]. rewrite !count_if_cons. destruct (selected p o), (needed p o); cbn; lia. Qed.

(** Summarizing some observations, none with a NaN for its latency, gives the
    rates of what it counted; an exact route is a covering one. *)
Lemma summarize_total l : l ≠ [] → Z.of_nat (length l) < 2 ^ 53 → keys_ok ro_latency_ms l → ∃ m, summarize l = Ret m ∧ rm_count m = Z.of_nat (length l) ∧
  int_true_div (count_if exact_match l) (rm_count m) = Ret (rm_exact_match_rate m) ∧
  int_true_div (count_if covered l) (rm_count m) = Ret (rm_coverage_rate m) ∧ count_if exact_match l ≤ count_if covered l ∧
  map fst (rm_per_paradigm m) = PARADIGM_ORDER ∧
  Forall (λ pr, _ratio (count_if (λ o, selected pr.1 o && needed pr.1 o) l) (count_if (selected pr.1) l) = Ret (pr_precision pr.2) ∧
    _ratio (count_if (λ o, selected pr.1 o && needed pr.1 o) l) (count_if (needed pr.1) l) = Ret (pr_recall pr.2)) (rm_per_paradigm m) ∧
  rm_latency_p50_ms m ∈ map ro_latency_ms l ∧ rm_latency_p95_ms m ∈ map ro_latency_ms l ∧ fle (rm_latency_p50_ms m) (rm_latency_p95_ms m) = true.
Proof.
  intros Hne Hlen Hok. assert (0 < Z.of_nat (length l)) as Hpos by (destruct l; [done|cbn; lia]).
  destruct (percentiles_ordered (map ro_latency_ms l)) as (low & high & Hlow & Hhigh & Hin & Hin' & Hle).
  { by destruct l. } { unfold keys_ok in *. apply Forall_map. exact Hok. } { by rewrite length_map. }
  assert (∀ p, ∃ x, int_true_div (count_if p l) (Z.of_nat (length l)) = Ret x) as Hrate by (intros p; pose proof (count_if_range p l); apply rate_total; lia).
  destruct (Hrate exact_match) as [ex Hex], (Hrate covered) as [cv Hcv], (Hrate confident) as [cf Hcf].
  assert (∀ p, ∃ pr, precision_recall l p = Ret (p, pr) ∧
    _ratio (count_if (λ o, selected p o && needed p o) l) (count_if (selected p) l) = Ret (pr_precision pr) ∧
    _ratio (count_if (λ o, selected p o && needed p o) l) (count_if (needed p) l) = Ret (pr_recall pr)) as Hpr.
  { intros p. pose proof (count_if_range (λ o, selected p o && needed p o) l). pose proof (count_if_range (selected p) l). pose proof (count_if_range (needed p) l).
    unfold precision_recall. destruct (confusion_counts p l) as [-> ->].
    destruct (ratio_total (count_if (λ o, selected p o && needed p o) l) (count_if (selected p) l)) as [x ->]; [lia..|].
    destruct (ratio_total (count_if (λ o, selected p o && needed p o) l) (count_if (needed p) l)) as [y ->]; [lia..|]. by exists (mkPrecisionRecall x y). }
  destruct (Hpr CAG) as (pc & Hc & Hc'), (Hpr MAG) as (pm & Hm & Hm'), (Hpr RAG) as (pg & Hg & Hg').
  exists (mkRoutingMetrics (Z.of_nat (length l)) ex cv cf [(CAG, pc); (MAG, pm); (RAG, pg)] low high). split.
  - unfold summarize. destruct l as [|o l]; [done|]. unfold PARADIGM_ORDER. cbn [res_mapM]. rewrite Hc, Hm, Hg. cbn [mbind res_bind]. rewrite Hex, Hcv, Hcf. cbn [mbind res_bind].
    rewrite Hlow, Hhigh. done.
  - split_and!; try done; [|cbn [rm_per_paradigm]; by rewrite !Forall_cons]. apply count_if_le. intros o Ho%bool_decide_eq_true. apply bool_decide_eq_true. by rewrite Ho.
Qed.

(** ** What the tracker counts *)

Inductive TrackEvent : Type := Preload (at_ : datetime) | Serve.

(** For each pre-load of a source, whether it was served from before the next. *)
Fixpoint generations (events : list TrackEvent) : list bool :=
  match events with
  | [] => []
  | Serve :: rest => generations rest
  | Preload _ :: rest => (match rest with Serve :: _ => true | _ => false end) :: generations rest
  end.

Definition track (arm source_key : string) (t : PreloadTracker) (e : TrackEvent) : PreloadTracker :=
  match e with Preload at_ => preloaded arm source_key at_ t | Serve => served arm source_key t end.

Definition preload_times (events : list TrackEvent) : list datetime := omap (λ e, match e with Preload t => Some t | Serve => None end) events.

Definition serve_last (l : list bool) : list bool := match l with [] => [] | _ => take (length l - 1) l ++ [true] end.

Lemma serve_last_cons b c (l : list bool) : serve_last (b :: c :: l) = b :: serve_last (c :: l).
Proof. cbn. by rewrite Nat.sub_0_r. Qed.

Lemma generations_preload events t : generations (events ++ [Preload t]) = generations events ++ [false].
Proof. induction events as [|[s|] events IH]; [done| |done]. cbn [app generations]. rewrite IH. cbn [app]. f_equal. by destruct events as [|[]]. Qed.

Lemma generations_serve events : generations (events ++ [Serve]) = serve_last (generations events).
Proof.
  induction events as [|[s|] events IH]; [done| |done]. cbn [app generations]. rewrite IH.
  destruct events as [|[s'|] events]; [done|..]; cbn [app generations].
  - by rewrite serve_last_cons.
  - destruct (generations events) as [|g gs]; [done|]. by rewrite serve_last_cons.
Qed.

(** The tracker agrees with the events of each source. *)
Lemma tracker_spec arm source_key events :
  let t := foldl (track arm source_key) new_tracker events in
  counts arm source_key t = (Z.of_nat (length (generations events)), count_if negb (generations events)) ∧
  (∀ instant, split_at arm source_key instant t = (count_if (λ at_, at_ <? instant) (preload_times events),
     Z.of_nat (length (preload_times events)) - count_if (λ at_, at_ <? instant) (preload_times events))) ∧
  (∀ arm' key', (arm', key') ≠ (arm, source_key) → counts arm' key' t = (0, 0)).
Proof.
  cbv zeta. set (t := foldl _ _ _).
  assert (default [] (tr_generations t !! (arm, source_key)) = generations events ∧ default [] (tr_times t !! (arm, source_key)) = preload_times events ∧
    ∀ k, k ≠ (arm, source_key) → tr_generations t !! k = None) as (Hg & Ht & Ho).
  { unfold t. clear t. induction events as [|e events (Hg & Ht & Ho)] using rev_ind; [split_and!; [done|done|intros; apply lookup_empty]|]. rewrite foldl_snoc.
    set (t := foldl _ _ _) in *. clearbody t. unfold preload_times. rewrite omap_app. fold (preload_times events). destruct e as [at_|]; cbn [track].
    - rewrite generations_preload, <- Hg, <- Ht. unfold preloaded. cbn [tr_generations tr_times]. rewrite !lookup_insert_eq. split_and!; [done..|].
      intros k Hk. rewrite lookup_insert_ne by done. by apply Ho.
    - rewrite generations_serve, <- Hg. cbn [omap list_omap]. rewrite app_nil_r. unfold served.
      destruct (tr_generations t !! (arm, source_key)) as [[|g gs]|] eqn:Hk; [by rewrite Hk|cbn [tr_generations tr_times]|by rewrite Hk].
      rewrite lookup_insert_eq. split_and!; [done..|]. intros k Hne. rewrite lookup_insert_ne by done. by apply Ho. }
  unfold counts, split_at. rewrite Hg, Ht. split_and!; [done..|]. intros a k Hne. by rewrite Ho.
Qed.
