(* ===== verification/EvalRun.v ===== *)
(** * Comparing two ways of answering

    evaluation: domain/entities.py and ports.py, application/run_comparison.py,
    the judges of infrastructure/ (ollama_judge.py, claude_judge.py,
    _judge_prompt.py) and scenarios/loader.py.  A strategy under test, the clock
    and the judge act on one world; a judge's scores are whatever JSON its model
    replied with, which the code does not check. *)

From Stdlib Require Import ZArith Lia Ascii String Floats.SpecFloat.
From S2P Require Import Prelude PyFloat IntDivision FloatOrder PyStr Prompts Json MagDomain LlmJson EvalMetrics.

(** ** Entities *)

Record Answer : Type := mkAnswer {
  an_text : string;
  an_input_tokens : Z;
  an_output_tokens : Z;
  an_context : string
}.

Record RunResult : Type := mkRunResult {
  rs_label : string;
  rs_latency_p50_ms : f64;
  rs_latency_p95_ms : f64;
  rs_total_input_tokens : Z;
  rs_total_output_tokens : Z;
  rs_task_success_rate : f64;
  rs_answers : list Answer;
  rs_per_question_success_rate : list f64
}.

Record JudgeScores : Type := mkJudgeScores {
  js_coherence : json;
  js_relevance : json;
  js_completeness : json;
  js_groundedness : json;
  js_unverifiable_claims : json;
  js_parse_failed : bool
}.

Record ComparisonResult : Type := mkComparison {
  cm_scenario_name : string;
  cm_model_config : string;
  cm_success_criterion : string;
  cm_rag : bool;
  cm_cag : bool;
  cm_mag : bool;
  cm_notes : string;
  cm_baseline : RunResult;
  cm_treatment : RunResult;
  cm_judge_scores : list (JudgeScores * JudgeScores)
}.

(** The query, the two responses, their contexts and the reference passage. *)
Record JudgeRequest : Type := mkJudgeRequest {
  jq_query : string;
  jq_response_a : string;
  jq_response_b : string;
  jq_context_a : string;
  jq_context_b : string;
  jq_reference_context : string
}.

Class Judge (W : Type) : Type := judge_score : JudgeRequest → stm W (JudgeScores * JudgeScores).
Class PerfCounter (W : Type) : Type := perf_counter : stm W f64.

(** ** RunComparison *)

Definition _percentile (sorted_values : list f64) (pct : f64) : res f64 :=
  match sorted_values with
  | [] => Ret fzero
  | _ => nearest_rank_percentile sorted_values pct
  end.

Section comparison.
Context {W : Type} `{PerfCounter W} `{Judge W}.

Definition Strategy : Type := string → stm W Answer.
Definition SuccessCheck : Type := string → Answer → res bool.

(** One repeat of one question: its latency, its answer, whether it passed. *)
Record Repeat : Type := mkRepeat { rp_latency_ms : f64; rp_answer : Answer; rp_success : bool }.

Definition ask_once (strategy : Strategy) (success_check : SuccessCheck) (question : string) : stm W Repeat :=
  start ← perf_counter;
  answer ← strategy question;
  stop ← perf_counter;
  success ← lift_res (success_check question answer);
  mret (mkRepeat (fmul (fsub stop start) (of_Z_raw 1000)) answer success).

(** One question's repeats, the answer kept and its success rate. *)
Record QuestionRun : Type := mkQuestionRun { qr_repeats : list Repeat; qr_answer : Answer; qr_success_rate : f64 }.

Definition successes (repeats : list Repeat) : Z := count_if rp_success repeats.

Definition run_question (repeat_count : Z) (strategy : Strategy) (success_check : SuccessCheck) (question : string) : stm W QuestionRun :=
  repeats ← for_each (seqZ 0 repeat_count) (λ _, ask_once strategy success_check question);
  kept ← lift_res (match last repeats with Some r => Ret (rp_answer r) | None => Raise IndexError end);
  rate ← lift_res (int_true_div (successes repeats) repeat_count);
  mret (mkQuestionRun repeats kept rate).

(** The figures of an arm from its questions' repeats. *)
Definition run_result (label : string) (repeat_count : Z) (runs : list QuestionRun) : res RunResult :=
  let latencies := sorted_asc id (map rp_latency_ms (flat_map qr_repeats runs)) in
  let total_repeats := zsum (map (λ _, repeat_count) runs) in
  low ← _percentile latencies p50;
  high ← _percentile latencies p95;
  rate ← (if total_repeats =? 0 then Ret fzero else int_true_div (zsum (map (λ r, successes (qr_repeats r)) runs)) total_repeats);
  let answers := map qr_answer runs in
  Ret (mkRunResult label low high (zsum (map an_input_tokens answers)) (zsum (map an_output_tokens answers)) rate answers (map qr_success_rate runs)).

Definition _run_strategy (repeat_count : Z) (label : string) (strategy : Strategy) (questions : list string) (success_check : SuccessCheck) : stm W RunResult :=
  runs ← for_each questions (run_question repeat_count strategy success_check);
  lift_res (run_result label repeat_count runs).

(** [zip(..., strict=True)]: the tuples of the common length, then a raise if
    one of the four goes on. *)
Fixpoint zip_requests (questions : list string) (b t : list Answer) (references : list string) : list JudgeRequest * bool :=
  match questions, b, t, references with
  | q :: qs, x :: b', y :: t', ref :: refs =>
      let '(rest, even) := zip_requests qs b' t' refs in
      (mkJudgeRequest q (an_text x) (an_text y) (an_context x) (an_context y) ref :: rest, even)
  | [], [], [], [] => ([], true)
  | _, _, _, _ => ([], false)
  end.

Definition RunComparison_execute (repeat_count : Z) (scenario_name model_config success_criterion : string) (rag cag mag : bool)
    (questions : list string) (baseline treatment : Strategy) (success_check : SuccessCheck) (notes : string)
    (reference_contexts : option (list string)) : stm W ComparisonResult :=
  baseline_result ← _run_strategy repeat_count "Baseline" baseline questions success_check;
  treatment_result ← _run_strategy repeat_count "Treatment" treatment questions success_check;
  let references := default (map (λ _, EmptyString) questions) reference_contexts in
  let '(requests, even) := zip_requests questions (rs_answers baseline_result) (rs_answers treatment_result) references in
  judge_scores ← for_each requests judge_score;
  if even : bool
  then mret (mkComparison scenario_name model_config success_criterion rag cag mag notes baseline_result treatment_result judge_scores)
  else raise (ValueError "zip() arguments have different lengths").
End comparison.
Arguments Strategy W : clear implicits.

(** ** The judge's prompt *)

Definition JUDGE_SYSTEM_PROMPT : string :=
  (
    "You are an impartial judge comparing two responses to the same query." +:+ nl +:+ nl +:+
    "Score EACH response independently on these four dimensions, 1-5 each, per this " +:+ "rubric:" +:+
    nl +:+ "- coherence: 1 = disjointed or self-contradictory, 3 = holds together but has " +:+
    "rough transitions, 5 = reads as a single well-organized answer" +:+ nl +:+
    "- relevance: 1 = misses the actual question asked, 3 = addresses the question " +:+
    "but includes significant off-topic material, 5 = tightly focused on what was " +:+
    "actually asked" +:+ nl +:+
    "- completeness: 1 = leaves out information the query clearly needed, 3 = covers " +:+
    "the main point but skips secondary detail the query implied it wanted, 5 = " +:+
    "covers everything the query needed at the depth it implied" +:+ nl +:+
    "- groundedness: 1 = asserts specific checkable facts with no support anywhere, " +:+
    "3 = mixes grounded and unverifiable claims, 5 = every specific checkable claim " +:+
    "traces to its grounding source. If a REFERENCE PASSAGE is given below, score " +:+
    "groundedness for BOTH responses against that reference passage, not against " +:+
    "either response's own context section -- a response can retrieve the wrong " +:+
    "material, generate a fluent answer that traces perfectly to that wrong " +:+
    "material, and still be factually ungrounded against what's actually true, which " +:+
    "grading against a response's own context can never catch. If no reference " +:+
    "passage is given, fall back to judging each response's groundedness against its " +:+
    "own context section instead. If a response's own context section reads " +:+ dq +:+
    "(none provided)" +:+ dq +:+
    ", that response had nothing to ground itself in -- score it on whether it " +:+
    "hedges appropriately for having no context (5) versus asserting specific " +:+
    "checkable facts anyway with nothing behind them (1), not as an automatic floor " +:+
    "and not by guessing whether its claims happen to be true." +:+ nl +:+ nl +:+
    "Each response has its own context section above it, used for the hallucination " +:+
    "check below -- judge whether a claim is *unverifiable* against that response's " +:+
    "OWN context only, never the other response's; groundedness itself follows the " +:+
    "reference-passage rule above when a reference passage is given. Score both " +:+
    "responses on all four dimensions before comparing them to each other. Also " +:+
    "flag, per response, any specific claim you cannot verify against the query or " +:+
    "that response's own context -- a real flagged claim, never a bare " +:+ dq +:+ "seems fine" +:+
    dq +:+ " or " +:+ dq +:+ "seems off." +:+ dq +:+ nl +:+ nl +:+
    "Respond with ONLY this JSON shape, no other text, no markdown fencing:" +:+ nl +:+ "{" +:+ dq +:+
    "response_a" +:+ dq +:+ ": {" +:+ dq +:+ "coherence" +:+ dq +:+ ": <int>, " +:+ dq +:+ "relevance" +:+
    dq +:+ ": <int>, " +:+ dq +:+ "completeness" +:+ dq +:+ ": <int>, " +:+ dq +:+ "groundedness" +:+
    dq +:+ ": <int>, " +:+ dq +:+ "unverifiable_claims" +:+ dq +:+ ": [<str>, ...]}, " +:+ dq +:+
    "response_b" +:+ dq +:+ ": {" +:+ dq +:+ "coherence" +:+ dq +:+ ": <int>, " +:+ dq +:+ "relevance" +:+
    dq +:+ ": <int>, " +:+ dq +:+ "completeness" +:+ dq +:+ ": <int>, " +:+ dq +:+ "groundedness" +:+
    dq +:+ ": <int>, " +:+ dq +:+ "unverifiable_claims" +:+ dq +:+ ": [<str>, ...]}}" +:+ nl)%string.

Definition or_none_provided (context : string) : string := match context with EmptyString => "(none provided)" | _ => context end.

Definition build_judge_user_message (r : JudgeRequest) : string :=
  let '(reference_block, context_label) :=
    match jq_reference_context r with
    | EmptyString =>
        (EmptyString, "use this to judge groundedness -- a claim that doesn't trace to this is unverifiable")
    | reference_context =>
        ("Reference passage (the actual correct source material -- score BOTH responses' groundedness against this, " +:+
         "not against either response's own context section below):" +:+ nl +:+ reference_context +:+ nl +:+ nl,
         "use this for the unverifiable-claims check only -- for groundedness, see the reference passage above instead")
    end%string in
  ("Query: " +:+ jq_query r +:+ nl +:+ nl +:+ reference_block +:+
   "Context for Response A (" +:+ context_label +:+ "):" +:+ nl +:+ or_none_provided (jq_context_a r) +:+ nl +:+ nl +:+
   "Response A:" +:+ nl +:+ jq_response_a r +:+ nl +:+ nl +:+
   "Context for Response B (" +:+ context_label +:+ "):" +:+ nl +:+ or_none_provided (jq_context_b r) +:+ nl +:+ nl +:+
   "Response B:" +:+ nl +:+ jq_response_b r)%string.

(** ** The judges *)

Definition judge_scores_of (parsed : json) (which : string) : res JudgeScores :=
  let field name := response ← json_item parsed which; json_item response name in
  coherence ← field "coherence"%string;
  relevance ← field "relevance"%string;
  completeness ← field "completeness"%string;
  groundedness ← field "groundedness"%string;
  unverifiable_claims ← field "unverifiable_claims"%string;
  Ret (mkJudgeScores coherence relevance completeness groundedness unverifiable_claims false).

Definition _to_scores (parsed : json) : res (JudgeScores * JudgeScores) :=
  a ← judge_scores_of parsed "response_a";
  b ← judge_scores_of parsed "response_b";
  Ret (a, b).

Definition _parse_failure (reason : string) : JudgeScores :=
  mkJudgeScores (JInt 0) (JInt 0) (JInt 0) (JInt 0) (JList [JStr ("JUDGE PARSE FAILURE: " +:+ reason)]) true.

Definition _MAX_SCORE_ATTEMPTS : nat := 3.

(** The exceptions the retry loop catches. *)
Definition caught_judge (e : exn) : bool :=
  match e with JSONDecodeError | KeyError | TypeError _ => true | _ => false end.

(** A model's client: a system and a user message to the reply's content. *)
Class OllamaClient (M : Type) : Type := ollama_chat : string → string → stm M (option string).
(** [f"{type(e).__name__}: {e}"] of what a reply raised. *)
Class ErrorText : Type := error_text : string → exn → string.

Section judges.
Context {M : Type} `{OllamaClient M} `{ErrorText}.

(** [response.message.content or "{}"], as text to parse. *)
Definition reply_text (content : option string) : string :=
  match content with None | Some EmptyString => "{}" | Some s => s end.

Fixpoint score_attempts (attempts : nat) (last_error : string) (r : JudgeRequest) : stm M (JudgeScores * JudgeScores) :=
  match attempts with
  | O => let failure := _parse_failure last_error in mret (failure, failure)
  | S attempts =>
      content ← ollama_chat JUDGE_SYSTEM_PROMPT (build_judge_user_message r);
      match json_loads (reply_text content) ≫= _to_scores with
      | Ret scores => mret scores
      | Raise e => if caught_judge e then score_attempts attempts (error_text (reply_text content) e) r else raise e
      end
  end.

Definition OllamaJudge_score : JudgeRequest → stm M (JudgeScores * JudgeScores) := score_attempts _MAX_SCORE_ATTEMPTS "NoneType: None".
End judges.

(** A Claude response: its content blocks, each a type and a text. *)
Class ClaudeClient (M : Type) : Type := claude_create : string → string → stm M (list (string * string)).

Definition first_text (content : list (string * string)) : string :=
  match List.find (λ block, String.eqb block.1 "text") content with Some block => block.2 | None => EmptyString end.

Definition ClaudeJudge_score {M} `{ClaudeClient M} (r : JudgeRequest) : stm M (JudgeScores * JudgeScores) :=
  content ← claude_create JUDGE_SYSTEM_PROMPT (build_judge_user_message r);
  lift_res (json_loads (first_text content) ≫= _to_scores).

(** ** Scenarios *)

Record ScenarioQuestion : Type := mkScenarioQuestion { sq_question : json; sq_success_criterion : json; sq_gold_passage : json }.
Record Scenario : Type := mkScenario { sc_name : json; sc_corpus_dir : string; sc_questions : list ScenarioQuestion }.

(** The files, and what YAML makes of one. *)
Class ScenarioFiles : Type := { read_text : string → res string; yaml_safe_load : string → res json }.

(** What iterating over a parsed value gives. *)
Definition iter_json (v : json) : res (list json) :=
  match v with
  | JList l => Ret l
  | JObj o => Ret (map (λ kv, JStr kv.1) o)
  | JStr s => Ret (map (λ c, JStr (utf8_encode c)) (code_points s))
  | _ => Raise (TypeError "not iterable")
  end.

Definition json_dict (v : json) : res (list (string * json)) := match v with JObj o => Ret o | _ => Raise AttributeError end.

Definition load_scenario `{ScenarioFiles} (scenario_dir : string) : res Scenario :=
  text ← read_text (scenario_dir +:+ "/queries.yaml");
  data ← yaml_safe_load text;
  entries ← json_item data "questions" ≫= iter_json;
  questions ← res_mapM (λ q,
    question ← json_item q "question";
    success_criterion ← json_item q "success_criterion";
    o ← json_dict q;
    Ret (mkScenarioQuestion question success_criterion (dict_get "gold_passage" (JStr EmptyString) o))) entries;
  name ← json_item data "name";
  Ret (mkScenario name (scenario_dir +:+ "/corpus") questions).

(** ** A judge's scores are its model's, or none *)

Lemma to_scores_parsed parsed a b : _to_scores parsed = Ret (a, b) → js_parse_failed a = false ∧ js_parse_failed b = false.
Proof.
  unfold _to_scores, judge_scores_of. intros Hab. repeat match type of Hab with context [json_item ?v ?k] => destruct (json_item v k); cbn [mbind res_bind] in Hab; [|done] end.
  by injection Hab as <- <-.
Qed.

Section judge_attempts.
Context {M : Type} `{OllamaClient M} `{ErrorText}.

(** The replies a judge gets to ask for before it settles, oldest first. *)
Inductive attempted (r : JudgeRequest) : nat → M → list (option string) → M → Prop :=
  | attempted_none n m : attempted r n m [] m
  | attempted_more n m content m' replies m'' : ollama_chat JUDGE_SYSTEM_PROMPT (build_judge_user_message r) m = (Ret content, m') →
      attempted r n m' replies m'' → attempted r (S n) m (content :: replies) m''.

Definition unusable (content : option string) : Prop := ∃ e, json_loads (reply_text content) ≫= _to_scores = Raise e ∧ caught_judge e = true.

Lemma score_attempts_spec n last r m out m' : score_attempts n last r m = (Ret out, m') →
  ∃ replies, attempted r n m replies m' ∧
    ((∃ before content, replies = before ++ [content] ∧ Forall unusable before ∧ json_loads (reply_text content) ≫= _to_scores = Ret out) ∨
     (length replies = n ∧ Forall unusable replies ∧ js_parse_failed out.1 = true ∧ js_parse_failed out.2 = true)).
Proof.
  revert last m. induction n as [|n IH]; intros last m; cbn [score_attempts].
  - intros [= <- <-]. exists []. split; [constructor|]. right. by repeat split.
  - unfold mbind at 1, stm_bind. destruct (ollama_chat _ _ m) as [[content|e] m1] eqn:Hc; [|done].
    destruct (json_loads (reply_text content) ≫= _to_scores) as [scores|e] eqn:Hp.
    + intros [= <- <-]. exists [content]. split; [econstructor; [exact Hc|constructor]|]. left. by exists [], content.
    + destruct (caught_judge e) eqn:He; [|done]. intros Hs. destruct (IH _ _ Hs) as (replies & Hat & Hcases). exists (content :: replies).
      assert (unusable content) as Hun by (by exists e). split; [by econstructor|]. destruct Hcases as [(before & c & -> & Hb & Hout)|(Hlen & Hall & Hf)].
      * left. exists (content :: before), c. split; [done|]. split; [by constructor|done].
      * right. cbn [length]. split; [by rewrite Hlen|]. split; [by constructor|done].
Qed.
End judge_attempts.

(** ** What a comparison runs *)

Inductive Call : Type :=
  | Asked (arm : bool) (question : string) (answer : Answer)
  | Judged (request : JudgeRequest) (scores : JudgeScores * JudgeScores).

Section schedule.
Context {W : Type} (clock : stm W f64) (judge : JudgeRequest → stm W (JudgeScores * JudgeScores)).

(** The world with the calls that returned, oldest first. *)
Definition logged {A} (entry : A → Call) (m : stm W A) : stm (W * list Call) A := λ s,
  match m s.1 with (Ret a, w) => (Ret a, (w, s.2 ++ [entry a])) | (Raise e, w) => (Raise e, (w, s.2)) end.

#[local] Instance logged_clock : PerfCounter (W * list Call) := on_fst clock.
#[local] Instance logged_judge : Judge (W * list Call) := λ r, logged (Judged r) (judge r).

Definition logged_strategy (arm : bool) (strategy : Strategy W) : Strategy (W * list Call) := λ q, logged (Asked arm q) (strategy q).

Lemma for_each_logged {A B} (body : A → stm (W * list Call) B) (entry : A → B → list Call) (Q : A → B → Prop) :
  (∀ x s y s', body x s = (Ret y, s') → s'.2 = s.2 ++ entry x y ∧ Q x y) →
  ∀ l s ys s', for_each l body s = (Ret ys, s') → s'.2 = s.2 ++ concat (zip_with entry l ys) ∧ Forall2 Q l ys.
Proof.
  intros Hbody l. induction l as [|x l IH]; intros s ys s'; cbn [for_each].
  - intros [= <- <-]. rewrite app_nil_r. by split.
  - unfold mbind at 1, stm_bind. destruct (body x s) as [[y|e] s1] eqn:Hx; [|done]. unfold mbind at 1, stm_bind.
    destruct (for_each l body s1) as [[ys'|e] s2] eqn:Hl; [|done]. intros [= <- <-]. destruct (Hbody _ _ _ _ Hx) as [Hlog HQ]. destruct (IH _ _ _ Hl) as [Hlog' HQ'].
    cbn [zip_with concat]. rewrite Hlog', Hlog, <- app_assoc. split; [done|by constructor].
Qed.

Definition asked_of (arm : bool) (question : string) (r : QuestionRun) : list Call := map (λ rp, Asked arm question (rp_answer rp)) (qr_repeats r).

(** What a question's run is: its repeats, each checked, the last one kept. *)
Definition question_run (repeat_count : Z) (success_check : SuccessCheck) (question : string) (r : QuestionRun) : Prop :=
  length (qr_repeats r) = Z.to_nat repeat_count ∧
  Forall (λ rp, success_check question (rp_answer rp) = Ret (rp_success rp)) (qr_repeats r) ∧
  rp_answer <$> last (qr_repeats r) = Some (qr_answer r) ∧
  int_true_div (successes (qr_repeats r)) repeat_count = Ret (qr_success_rate r).

Lemma ask_once_logged arm strategy check q s rp s' : ask_once (logged_strategy arm strategy) check q s = (Ret rp, s') →
  s'.2 = s.2 ++ [Asked arm q (rp_answer rp)] ∧ check q (rp_answer rp) = Ret (rp_success rp).
Proof.
  unfold ask_once, mbind, stm_bind, perf_counter, logged_clock, on_fst, logged_strategy, logged, lift_res, mret, stm_ret. destruct s as [w log]. cbn [fst snd].
  destruct (clock w) as [[t|e] w1]; cbn [fst snd]; [|done]. destruct (strategy q w1) as [[a|e] w2]; cbn [fst snd]; [|done].
  destruct (clock w2) as [[t'|e] w3]; cbn [fst snd]; [|done]. destruct (check q a) as [ok|e] eqn:Hok; [|done]. by intros [= <- <-].
Qed.

Lemma run_question_logged n arm strategy check q s r s' : run_question n (logged_strategy arm strategy) check q s = (Ret r, s') →
  s'.2 = s.2 ++ asked_of arm q r ∧ question_run n check q r.
Proof.
  unfold run_question, mbind, stm_bind, lift_res, mret, stm_ret. destruct (for_each _ _ s) as [[repeats|e] s1] eqn:Hf; [|done].
  destruct (for_each_logged _ (λ _ rp, [Asked arm q (rp_answer rp)]) (λ _ rp, check q (rp_answer rp) = Ret (rp_success rp))
    (λ _ s rp s', ask_once_logged arm strategy check q s rp s') _ _ _ _ Hf) as [Hlog Hall].
  destruct (last repeats) as [kept|] eqn:Hlast; [|done]. destruct (int_true_div _ n) as [rate|e] eqn:Hrate; [|done]. intros [= <- <-].
  pose proof (Forall2_length _ _ _ Hall) as Hlen. rewrite length_seqZ in Hlen. split.
  - rewrite Hlog. f_equal. unfold asked_of. cbn [qr_repeats]. clear -Hall. induction Hall as [|x rp l rps _ _ IH]; [done|]. cbn. by f_equal.
  - split_and!; cbn [qr_repeats qr_answer qr_success_rate]; [done| |by rewrite Hlast|done]. clear -Hall. induction Hall; by constructor.
Qed.

Lemma zip_requests_even qs b t refs requests : zip_requests qs b t refs = (requests, true) →
  length requests = length qs ∧ length b = length qs ∧ length t = length qs ∧ length refs = length qs.
Proof.
  revert b t refs requests. induction qs as [|q qs IH]; intros [|x b] [|y t] [|ref refs] requests; cbn [zip_requests]; try done; [by intros [= <-]|].
  destruct (zip_requests qs b t refs) as [rest even] eqn:Hz. intros [= <- ->]. destruct (IH _ _ _ _ Hz) as (? & ? & ? & ?). cbn. by repeat split; f_equal.
Qed.

Lemma zip_requests_lookup qs b t refs requests even : zip_requests qs b t refs = (requests, even) → ∀ (i : nat) q x y ref,
  qs !! i = Some q → b !! i = Some x → t !! i = Some y → refs !! i = Some ref →
  requests !! i = Some (mkJudgeRequest q (an_text x) (an_text y) (an_context x) (an_context y) ref).
Proof.
  revert b t refs requests even. induction qs as [|q' qs IH]; intros [|x' b] [|y' t] [|ref' refs] requests even; cbn [zip_requests]; try (intros _ [|i]; discriminate).
  destruct (zip_requests qs b t refs) as [rest even'] eqn:Hz. intros [= <- <-] [|i] q x y ref; [by intros [= ->] [= ->] [= ->] [= ->]|]. by apply (IH _ _ _ _ _ Hz).
Qed.

Lemma zip_requests_total qs b t refs : length b = length qs → length t = length qs → length refs = length qs → ∃ requests, zip_requests qs b t refs = (requests, true).
Proof.
  revert b t refs. induction qs as [|q qs IH]; intros [|x b] [|y t] [|ref refs]; cbn [zip_requests length]; try done; [by exists []|].
  intros [= Hb] [= Ht] [= Hr]. destruct (IH _ _ _ Hb Ht Hr) as [requests ->]. by eexists.
Qed.

Lemma run_result_answers label n runs r : run_result label n runs = Ret r → rs_answers r = map qr_answer runs ∧ rs_label r = label.
Proof.
  unfold run_result. destruct (_percentile _ p50); [|done]. cbn [mbind res_bind]. destruct (_percentile _ p95); [|done]. cbn [mbind res_bind].
  destruct (if _ =? 0 then _ else _); [|done]. by intros [= <-].
Qed.

Lemma run_strategy_logged n label arm strategy check questions s r s' :
  _run_strategy n label (logged_strategy arm strategy) questions check s = (Ret r, s') →
  ∃ runs, Forall2 (question_run n check) questions runs ∧ run_result label n runs = Ret r ∧ s'.2 = s.2 ++ concat (zip_with (asked_of arm) questions runs).
Proof.
  unfold _run_strategy, mbind, stm_bind, lift_res. destruct (for_each _ _ s) as [[runs|e] s1] eqn:Hf; [|done]. intros [= Hr <-]. exists runs.
  destruct (for_each_logged _ (asked_of arm) (question_run n check) (λ q s r s', run_question_logged n arm strategy check q s r s') _ _ _ _ Hf) as [Hlog Hall]. done.
Qed.

Lemma judge_logged requests s scores s' : for_each requests judge_score s = (Ret scores, s') →
  s'.2 = s.2 ++ zip_with Judged requests scores ∧ length scores = length requests.
Proof.
  intros Hf. assert (∀ r (s : W * list Call) x s', judge_score r s = (Ret x, s') → s'.2 = s.2 ++ [Judged r x] ∧ True) as Hbody.
  { intros r [w log] x s1. unfold judge_score, logged_judge, logged. cbn [fst snd]. destruct (judge r w) as [[y|e] w1]; [|done]. by intros [= <- <-]. }
  destruct (for_each_logged judge_score (λ r x, [Judged r x]) (λ _ _, True) Hbody _ _ _ _ Hf) as [Hlog Hall].
  split; [|symmetry; by eapply Forall2_length]. rewrite Hlog. f_equal. clear. revert scores. induction requests as [|r rs IH]; intros [|x xs]; cbn; try done. by f_equal.
Qed.

(** *** It returns *)

Definition returns {S A} (m : stm S A) : Prop := ∀ s, ∃ a s', m s = (Ret a, s').

Lemma returns_bind {S A B} (m : stm S A) (f : A → stm S B) : returns m → (∀ a, returns (f a)) → returns (m ≫= f).
Proof. intros Hm Hf s. destruct (Hm s) as (a & s1 & Ha). destruct (Hf a s1) as (b & s2 & Hb). exists b, s2. unfold mbind, stm_bind. by rewrite Ha. Qed.

Lemma returns_lift {S A} (r : res A) : (∃ a, r = Ret a) → returns (S := S) (lift_res r).
Proof. intros [a ->] s. by exists a, s. Qed.

Lemma returns_for_each {S A B} (body : A → stm S B) l : (∀ x, x ∈ l → returns (body x)) → ∀ s, ∃ ys s', for_each l body s = (Ret ys, s') ∧ length ys = length l.
Proof.
  induction l as [|x l IH]; intros Hb s; [by exists [], s|]. cbn [for_each]. destruct (Hb x ltac:(by left) s) as (y & s1 & Hy).
  destruct (IH (λ x' Hx', Hb x' ltac:(by right)) s1) as (ys & s2 & Hys & Hlen). exists (y :: ys), s2. unfold mbind, stm_bind. rewrite Hy, Hys. split; [done|cbn; by rewrite Hlen].
Qed.

Lemma returns_logged {A} (entry : A → Call) m : returns m → returns (logged entry m).
Proof. intros Hm [w log]. destruct (Hm w) as (a & w' & Ha). exists a, (w', log ++ [entry a]). unfold logged. cbn [fst snd]. by rewrite Ha. Qed.

Lemma returns_question n arm strategy (check : SuccessCheck) q : 0 < n < 2 ^ 53 → returns clock → returns (strategy q) → (∀ a, ∃ b, check q a = Ret b) →
  returns (run_question n (logged_strategy arm strategy) check q).
Proof.
  intros Hn Hc Hs Hk s. assert (returns (on_fst (S2 := list Call) clock)) as Hclock.
  { intros [w log]. destruct (Hc w) as (t & w' & Ht). exists t, (w', log). unfold on_fst. cbn. by rewrite Ht. }
  assert (returns (ask_once (logged_strategy arm strategy) check q)) as Hask.
  { unfold ask_once. apply returns_bind; [done|intros t]. apply returns_bind; [by apply returns_logged|intros a]. apply returns_bind; [done|intros t'].
    apply returns_bind; [by apply returns_lift|]. intros b s'. by eexists _, _. }
  unfold run_question, mbind, stm_bind, lift_res, mret, stm_ret.
  destruct (returns_for_each (λ _ : Z, ask_once (logged_strategy arm strategy) check q) (seqZ 0 n) (λ _ _, Hask) s) as (rs & s1 & -> & Hlen). rewrite length_seqZ in Hlen.
  destruct (last rs) as [r|] eqn:Hlast; [|apply last_None in Hlast as ->; cbn in Hlen; lia].
  pose proof (count_if_range rp_success rs). destruct (rate_total (successes rs) n) as [x ->]; [unfold successes; lia..|]. by eexists _, _.
Qed.

Lemma percentile_total l pct : finite_unsigned pct = true → fle pct fone = true → Z.of_nat (length l) < 2 ^ 53 → ∃ v, _percentile l pct = Ret v.
Proof.
  intros Hp Hle Hlen. unfold _percentile. destruct l as [|x l]; [by eexists|].
  destruct (nearest_rank_total (x :: l) pct Hp Hle ltac:(done) Hlen) as (k & v & _ & _ & ->). by exists v.
Qed.

Lemma run_result_total label n (check : SuccessCheck) questions runs : 0 < n → n * Z.of_nat (length questions) < 2 ^ 53 → Forall2 (question_run n check) questions runs →
  ∃ r, run_result label n runs = Ret r.
Proof.
  intros Hn Hb Hall. assert (Z.of_nat (length (flat_map qr_repeats runs)) = n * Z.of_nat (length questions) ∧ zsum (map (λ _ : QuestionRun, n) runs) = n * Z.of_nat (length questions) ∧
    0 ≤ zsum (map (λ r, successes (qr_repeats r)) runs) ≤ n * Z.of_nat (length questions)) as (Hlen & Hsum & Hsucc).
  { clear Hb. unfold zsum. induction Hall as [|q r qs rs (Hr & _) _ (IH1 & IH2 & IH3)]; [cbn; lia|]. pose proof (count_if_range rp_success (qr_repeats r)) as Hc. rewrite Hr in Hc.
    cbn [flat_map map foldr length]. rewrite length_app. unfold successes at 1 3. lia. }
  unfold run_result. set (l := sorted_asc id _). assert (Z.of_nat (length l) < 2 ^ 53) as Hl.
  { unfold l. rewrite (sorted_asc_perm id), length_map. lia. }
  destruct (percentile_total l p50 eq_refl eq_refl Hl) as [low ->]. cbn [mbind res_bind]. destruct (percentile_total l p95 eq_refl eq_refl Hl) as [high ->]. cbn [mbind res_bind].
  rewrite Hsum. destruct (Z.eqb_spec (n * Z.of_nat (length questions)) 0) as [Hz|Hz]; [by eexists|]. destruct (rate_total (zsum (map (λ r, successes (qr_repeats r)) runs)) (n * Z.of_nat (length questions))) as [x ->]; [lia..|]. by eexists.
Qed.

(** A comparison is fair. Both strategies are asked the same questions the same
    number of times, all of the baseline's first and each question's repeats
    together, then each question is judged once, in order: baseline against
    treatment, each with its own context and the question's reference passage. The
    answer kept of a question is its last repeat's; a success is what the check says
    of a repeat's own answer; the rates and totals of an arm are those of its own
    repeats. With a positive repeat count, as many references as questions, and
    nothing that raises, the comparison does return. *)
Theorem comparison_is_fair repeat_count name model criterion rag cag mag questions baseline treatment (success_check : SuccessCheck) notes references (w : W) :
  let refs := default (map (λ _, EmptyString) questions) references in
  let run := RunComparison_execute (W := W * list Call) repeat_count name model criterion rag cag mag questions
    (logged_strategy true baseline) (logged_strategy false treatment) success_check notes references (w, []) in
  (∀ c w' log, run = (Ret c, (w', log)) → ∃ b t requests,
    Forall2 (question_run repeat_count success_check) questions b ∧ Forall2 (question_run repeat_count success_check) questions t ∧
    run_result "Baseline" repeat_count b = Ret (cm_baseline c) ∧ run_result "Treatment" repeat_count t = Ret (cm_treatment c) ∧
    rs_answers (cm_baseline c) = map qr_answer b ∧ rs_answers (cm_treatment c) = map qr_answer t ∧
    (∀ i q x y ref, questions !! i = Some q → qr_answer <$> b !! i = Some x → qr_answer <$> t !! i = Some y → refs !! i = Some ref →
      requests !! i = Some (mkJudgeRequest q (an_text x) (an_text y) (an_context x) (an_context y) ref)) ∧
    length refs = length questions ∧ length requests = length questions ∧ length (cm_judge_scores c) = length questions ∧
    log = concat (zip_with (asked_of true) questions b) ++ concat (zip_with (asked_of false) questions t) ++ zip_with Judged requests (cm_judge_scores c)) ∧
  (0 < repeat_count → repeat_count * Z.of_nat (length questions) < 2 ^ 53 → length refs = length questions →
    returns clock → (∀ q, returns (baseline q)) → (∀ q, returns (treatment q)) → (∀ r, returns (judge r)) → (∀ q a, ∃ b, success_check q a = Ret b) →
    ∃ c s, run = (Ret c, s)).
Proof.
  cbv zeta. set (refs := default _ references). split.
  - intros c w' log. unfold RunComparison_execute, mbind, stm_bind. fold refs.
    destruct (_run_strategy _ "Baseline" _ _ _ _) as [[br|e] s1] eqn:Hb; [|done]. destruct (_run_strategy _ "Treatment" _ _ _ _) as [[tr|e] s2] eqn:Ht; [|done].
    destruct (run_strategy_logged _ _ _ _ _ _ _ _ _ Hb) as (b & Hball & Hbr & Hblog). destruct (run_strategy_logged _ _ _ _ _ _ _ _ _ Ht) as (t & Htall & Htr & Htlog).
    destruct (run_result_answers _ _ _ _ Hbr) as [Hba _], (run_result_answers _ _ _ _ Htr) as [Hta _]. rewrite Hba, Hta.
    destruct (zip_requests _ _ _ _) as [requests even] eqn:Hz. destruct (for_each requests judge_score s2) as [[scores|e] s3] eqn:Hj; [|done].
    destruct even; [|done]. intros [= <- Hs]. destruct (judge_logged _ _ _ _ Hj) as [Hjlog Hjlen]. destruct (zip_requests_even _ _ _ _ _ Hz) as (Hl & _ & _ & Hlr).
    exists b, t, requests. cbn [cm_baseline cm_treatment cm_judge_scores]. split_and!; [done..| | |done|lia|].
    { intros i q x y ref Hq Hx Hy Href. apply (zip_requests_lookup _ _ _ _ _ _ Hz i q x y ref Hq); [by rewrite list_lookup_fmap..|done]. }
    { lia. }
    rewrite Hs in Hjlog. cbn in Hjlog. rewrite Hjlog, Htlog, Hblog. cbn [snd app]. by rewrite <- app_assoc.
  - intros Hn Hbound Hrefs Hclock Hbase Htreat Hjudge Hcheck.
    assert (∀ arm label strategy, (∀ q, returns (strategy q)) → returns (_run_strategy repeat_count label (logged_strategy arm strategy) questions success_check)) as Hrun.
    { intros arm label strategy Hs s. destruct (returns_for_each (run_question repeat_count (logged_strategy arm strategy) success_check) questions) with (s := s) as (runs & s1 & Hf & _).
      { intros q Hq. apply returns_question; [|done..|by apply Hcheck]. destruct questions; [by apply not_elem_of_nil in Hq|cbn in Hbound; nia]. }
      destruct (for_each_logged _ (asked_of arm) (question_run repeat_count success_check) (λ q s r s', run_question_logged _ arm strategy success_check q s r s') _ _ _ _ Hf) as [_ Hall].
      destruct (run_result_total label repeat_count success_check questions runs Hn Hbound Hall) as [r Hr]. exists r, s1. unfold _run_strategy, mbind, stm_bind, lift_res. by rewrite Hf, Hr. }
    unfold RunComparison_execute, mbind, stm_bind. fold refs. destruct (Hrun true "Baseline" baseline Hbase (w, [])) as (br & s1 & Hb). rewrite Hb.
    destruct (Hrun false "Treatment" treatment Htreat s1) as (tr & s2 & Ht). rewrite Ht.
    destruct (run_strategy_logged _ _ _ _ _ _ _ _ _ Hb) as (b & Hball & Hbr & _). destruct (run_strategy_logged _ _ _ _ _ _ _ _ _ Ht) as (t & Htall & Htr & _).
    destruct (run_result_answers _ _ _ _ Hbr) as [-> _], (run_result_answers _ _ _ _ Htr) as [-> _].
    destruct (zip_requests_total questions (map qr_answer b) (map qr_answer t) refs) as [requests Hz]; [rewrite length_map; symmetry; by eapply Forall2_length..|done|]. rewrite Hz.
    assert (∀ r, returns (S := W * list Call) (judge_score r)) as Hscore by (intros r; by apply returns_logged).
    destruct (returns_for_each judge_score requests (λ r _, Hscore r) s2) as (scores & s3 & Hj & _). cbv beta iota. rewrite Hj. by eexists _, _.
Qed.
End schedule.

(** ** A worked example *)

Definition ticking : stm Z f64 := λ t, (Ret (of_Z_raw t), t + 1).
Definition echo (reply : string) : Strategy Z := λ q, mret (mkAnswer (q +:+ reply) 3 5 EmptyString).
Definition same_scores : JudgeRequest → stm Z (JudgeScores * JudgeScores) := λ _,
  let s := mkJudgeScores (JInt 5) (JInt 5) (JInt 4) (JInt 3) (JList []) false in mret (s, s).
Definition says_yes (question : string) (a : Answer) : res bool := Ret (str_in "yes" (an_text a)).

Lemma comparison_is_fair_witness : ∃ c w log,
  RunComparison_execute (W := Z * list Call) (H := on_fst ticking) (H0 := λ r, logged (Judged r) (same_scores r))
    2 "s" "m" "c" true false false ["a"; "b"]%string (logged_strategy true (echo " no")) (logged_strategy false (echo " yes")) says_yes EmptyString None (0, [])
    = (Ret c, (w, log)) ∧ length (cm_judge_scores c) = 2%nat ∧ length log = 10%nat ∧
  rs_task_success_rate (cm_treatment c) = fone ∧ rs_task_success_rate (cm_baseline c) = fzero.
Proof.
  destruct (comparison_is_fair ticking same_scores 2 "s" "m" "c" true false false ["a"; "b"]%string (echo " no") (echo " yes") says_yes EmptyString None 0) as [Hfair Hreturns].
  destruct Hreturns as (c & [w log] & Hrun); [done..|by intros t; eexists _, _|by intros q t; eexists _, _|by intros q t; eexists _, _|by intros r t; eexists _, _|by intros q a; eexists|].
  exists c, w, log. split; [exact Hrun|]. destruct (Hfair c w log Hrun) as (b & t & requests & _ & _ & _ & _ & _ & _ & _ & _ & _ & Hlen & _). split; [exact Hlen|].
  clear -Hrun. vm_compute in Hrun. injection Hrun as <- <- <-. by vm_compute.
Defined.

(** *** Judges *)

#[local] Instance kinds_only : ErrorText := λ _ e, match e with JSONDecodeError => "JSONDecodeError" | KeyError => "KeyError" | _ => "TypeError" end%string.
(** A scripted client: its replies in order. *)
#[local] Instance scripted_client : OllamaClient (list (option string)) := λ _ _ l,
  match l with content :: rest => (Ret content, rest) | [] => (Raise (BackendError "no more replies"), []) end.

Example unparsed_three_times :
  (λ out : res (JudgeScores * JudgeScores) * list (option string), (js_parse_failed <$> (fst <$> out.1), js_unverifiable_claims <$> (snd <$> out.1), out.2))
    (OllamaJudge_score (mkJudgeRequest "q" "a" "b" EmptyString EmptyString EmptyString) [None; Some "not json"; Some "[]"; Some "{}"]%string) =
  (Ret true, Ret (JList [JStr "JUDGE PARSE FAILURE: TypeError"]), [Some "{}"])%string.
Proof. vm_compute. reflexivity. Qed.
