(* ===== verification/EvalScenarios.v ===== *)
(** * What the evaluation scenarios measure

    evaluation/scenarios: the success checks and thresholds of
    orchestration_meta_layer_*.py, and of the runners the parts that are not
    wiring: freshness-router/run_freshness_measurements.py (the simulated feeds,
    the routed spectrum, the naive baseline, the probe and the calibration) and
    orchestration-meta-layer/run_router_comparison.py and
    run_cascade_comparison.py (observing a classifier, the oracle); the cascade's
    own measurements are in EvalCascade.v. *)

From Stdlib Require Import ZArith Lia Ascii String Floats.SpecFloat.
From S2P Require Import Prelude PyFloat IntDivision PyTime PySeq PyStr Digest Json JsonText Entities ParadigmRouter FreshnessRouter Ports RagPorts CacheWarmedRetrieve Ingestion Jobs RagRetrieval StructureChunker Classifiers UnifiedAnswer Resources EvalMetrics.

(** ** Success checks *)

(** A matcher takes whether the character before was a word's, and the text. *)
Definition matcher : Type := bool → list Z → bool.

Section checks.
Context `{UnicodeWords} `{CaseTable}.

Definition space_codes : list Z := omap (λ w, head (code_points w)) whitespace.
Definition is_space (c : Z) : bool := existsb (Z.eqb c) space_codes.

(** A literal, then [k]. *)
Fixpoint lit_at (p : list Z) (k : matcher) (previous : bool) (text : list Z) : bool :=
  match p, text with
  | [], _ => k previous text
  | c :: p', d :: text' => (c =? d) && lit_at p' k (is_word d) text'
  | _, _ => false
  end.
Definition any_of (alternatives : list string) (k : matcher) : matcher := λ previous text,
  existsb (λ s, lit_at (code_points s) k previous text) alternatives.
Definition word_boundary (k : matcher) : matcher := λ previous text, at_boundary previous text && k previous text.
(** [\s+]. *)
Fixpoint spaces_then (k : matcher) (text : list Z) : bool :=
  match text with
  | c :: rest => is_space c && (k (is_word c) rest || spaces_then k rest)
  | [] => false
  end.
Definition matched : matcher := λ _ _, true.

(** [re.search]. *)
Fixpoint search_from (m : matcher) (previous : bool) (text : list Z) : bool :=
  m previous text || match text with c :: rest => search_from m (is_word c) rest | [] => false end.
Definition re_search (m : matcher) (s : string) : bool := search_from m false (code_points s).

Definition _TEN : matcher := word_boundary (any_of ["10"; "ten"]%string (word_boundary matched)).
Definition _NON_ANSWER : matcher := λ previous text,
  word_boundary (any_of ["does not"; "doesn't"; "do not"; "don't"; "did not"; "didn't"]%string (λ _, spaces_then
    (any_of ["contain"; "specify"; "mention"; "include"; "say"; "state"; "provide"; "indicate"]%string (word_boundary matched)))) previous text ||
  word_boundary (any_of ["not"]%string (λ _, spaces_then
    (any_of ["specified"; "mentioned"; "provided"; "stated"; "known"]%string (word_boundary matched)))) previous text ||
  word_boundary (any_of ["no information"]%string (word_boundary matched)) previous text ||
  word_boundary (any_of ["cannot"; "can't"; "unable to"]%string (λ _, spaces_then
    (any_of ["determine"; "tell"; "confirm"]%string (word_boundary matched)))) previous text.

(** [s.replace(U+2019, "'")], on its UTF-8 bytes 226 128 153. *)
Fixpoint straight_quotes (s : string) : string :=
  match s with
  | String a (String b (String c rest) as s') =>
      if (N.eqb (N_of_ascii a) 226 && N.eqb (N_of_ascii b) 128 && N.eqb (N_of_ascii c) 153)%N
      then String "'" (straight_quotes rest) else String a (straight_quotes s')
  | String a s' => String a (straight_quotes s')
  | EmptyString => EmptyString
  end.

Definition _normalize (answer : string) : string := straight_quotes (str_lower answer).
Definition is_non_answer (answer : string) : bool := re_search _NON_ANSWER (_normalize answer).
Definition _contains_any (terms : list string) (answer : string) : bool := existsb (λ term, str_in term (_normalize answer)) terms.
Definition _answers_with (found : string → bool) (answer : string) : bool := found answer && negb (is_non_answer answer).
Definition _forty_five (answer : string) : bool :=
  let text := _normalize answer in str_in "45" text || str_in "forty-five" text.
Definition _five_to_seven (answer : string) : bool :=
  let text := _normalize answer in (str_in "five" text && str_in "seven" text) || (str_in "5" text && str_in "7" text).
Definition _mentions_ten (answer : string) : bool := re_search _TEN (_normalize answer).

Definition SUCCESS_CHECKS : list (string → bool) :=
  [_forty_five;
   _forty_five;
   _five_to_seven;
   _contains_any ["verification"; "twelve"; "12"]%string;
   _contains_any ["two-year"; "two year"; "2-year"; "2 year"]%string;
   _contains_any ["out of stock"]%string;
   _contains_any ["20%"; "20 percent"; "twenty percent"]%string;
   _answers_with (_contains_any ["expedited"; "two-day"; "2-day"]%string);
   _answers_with _mentions_ten;
   _answers_with (λ answer, str_in "out of stock" (_normalize answer) && _mentions_ten answer)].
End checks.

Definition CAG_HIT : f64 := flit 43 100.
Definition CAG_PARTIAL : f64 := flit 35 100.
Definition MAG_HIT : f64 := flit 42 100.
Definition MAG_PARTIAL : f64 := flit 37 100.

(** ** The simulated feeds *)

(** 2026-01-01. *)
Definition T0 : datetime := days 739616.
Definition HOUR : timedelta := hours 1.
Definition DAY : timedelta := days 1.
Definition HORIZON_HOURS : Z := 30 * 24.
Definition PROBE_EVERY_HOURS : Z := 3.

(** [int((now - T0) / HOUR)]. *)
Definition _hours (now : datetime) : res Z := x ← int_true_div (now - T0) HOUR; py_trunc x.

Record Feed : Type := mkFeed {
  fd_profile : DataSourceProfile;
  fd_question : string;
  fd_version_at : datetime → res Z;
  fd_text : Z → res string;
  fd_marker : Z → res string
}.

Definition _catalog_version (now : datetime) : res Z :=
  hours ← _hours now;
  Ret (if hours <? 216 then hours / 24 else 9 + (hours - 216)).

Definition _POLICY_DAYS : list string := ["forty-five"; "sixty"]%string.

Definition BACKPACK_FEED : Feed := mkFeed (mkProfile "backpack-price" TENANT_SCOPE HOUR)
  "How much does the blue hiking backpack cost today?" _hours
  (λ n, Ret ("The blue hiking backpack costs " +:+ show_Z (40 + n) +:+ " dollars today.")%string)
  (λ n, Ret ("costs " +:+ show_Z (40 + n) +:+ " dollars")%string).
Definition POLICY_FEED : Feed := mkFeed (mkProfile "return-policy" TENANT_SCOPE (90 * DAY))
  "What is the return policy for unopened items?" (λ now, Ret (Z.b2z (T0 + 11 * DAY + 9 * HOUR <=? now)))
  (λ n, d ← py_index n _POLICY_DAYS;
     Ret ("Our return policy allows customers to return unopened items within " +:+ d +:+ " days of purchase for a full refund.")%string)
  (λ n, d ← py_index n _POLICY_DAYS; Ret ("within " +:+ d +:+ " days")%string).
Definition CATALOG_FEED : Feed := mkFeed (mkProfile "blender-catalog" TENANT_SCOPE (7 * DAY))
  "How many kitchen blender models does the catalog list?" _catalog_version
  (λ n, Ret ("The kitchen blender catalog lists " +:+ show_Z (100 + n) +:+ " models this season.")%string)
  (λ n, Ret ("lists " +:+ show_Z (100 + n) +:+ " models")%string).
Definition SHIPPING_FEED : Feed := mkFeed (mkProfile "shipping-guide" TENANT_SCOPE (365 * DAY))
  "How long does standard shipping take?" (λ now, Ret 0)
  (λ n, Ret "Standard shipping takes five to seven business days."%string) (λ n, Ret "five to seven"%string).
Definition SALE_FEED : Feed := mkFeed (mkProfile "flash-sale" TENANT_SCOPE HOUR)
  "Which code gives the flash sale discount on garden hoses?" (λ now, hours ← _hours now; Ret (Z.min hours 96))
  (λ n, Ret ("Flash sale code SALE" +:+ show_Z n +:+ " takes 20 percent off every garden hose.")%string)
  (λ n, Ret ("SALE" +:+ show_Z n +:+ " ")%string).

Definition FEEDS : list Feed := [BACKPACK_FEED; POLICY_FEED; CATALOG_FEED; SHIPPING_FEED; SALE_FEED].

Definition SIZE_FEED : Feed := mkFeed (mkProfile "size-preference" USER_SCOPE (30 * DAY))
  "What shoe size do I wear?" (λ now, Ret (Z.b2z (T0 + 14 * DAY + 9 * HOUR <=? now)))
  (λ n, Ret ("The user wears size " +:+ show_Z (10 + n) +:+ " running shoes.")%string)
  (λ n, Ret ("size " +:+ show_Z (10 + n) +:+ " ")%string).

Definition _WARRANTY_YEARS : list string := ["two"; "three"]%string.

Definition WARRANTY : Feed := mkFeed (mkProfile "warranty-terms" TENANT_SCOPE (7 * DAY))
  "How long is the bicycle frame warranty?" (λ now, Ret (Z.b2z (T0 + 7 * DAY <=? now)))
  (λ n, y ← py_index n _WARRANTY_YEARS; Ret ("Every bicycle carries a " +:+ y +:+ "-year limited frame warranty.")%string)
  (λ n, y ← py_index n _WARRANTY_YEARS; Ret (y +:+ "-year")%string).

Definition SHIFTS : list (string * datetime) := [("blender-catalog", T0 + 9 * DAY); ("flash-sale", T0 + 4 * DAY)]%string.

(** ** The freshness spectrum *)

(** A data type, its declared change, scope and interval, and the paradigm the
    source gives it. *)
Definition SPECTRUM : list (string * string * SourceScope * timedelta * string) :=
  [("Stock prices, live scores", "seconds", TENANT_SCOPE, seconds 1, "RAG");
   ("News, social media", "minutes-hours", TENANT_SCOPE, HOUR, "RAG");
   ("User session state", "every turn", USER_SCOPE, seconds 60, "MAG");
   ("Product catalog", "daily-weekly", TENANT_SCOPE, 3 * DAY, "CAG + RAG hybrid");
   ("Company policies, manuals", "monthly-quarterly", TENANT_SCOPE, 60 * DAY, "CAG");
   ("Textbooks, reference", "never", TENANT_SCOPE, 3650 * DAY, "CAG");
   ("Code repositories", "per commit", TENANT_SCOPE, 4 * HOUR, "CAG + RAG");
   ("User long-term preferences", "gradually", USER_SCOPE, 30 * DAY, "MAG")]%string.

Definition _SOURCE_ROUTE : list (string * IngestionRoute) :=
  [("RAG", RAG_ONLY); ("MAG", MAG_ROUTE); ("CAG", CAG_WITH_RAG_BACKUP); ("CAG + RAG hybrid", CAG_WITH_RAG_BACKUP);
   ("CAG + RAG", CAG_WITH_RAG_BACKUP)]%string.

Definition spectrum_row (entry : string * string * SourceScope * timedelta * string) : res RouteRow :=
  let '(data_type, change, scope, interval, paradigm) := entry in
  profile ← DataSourceProfile_init data_type scope interval;
  let route := route_for profile default_policy in
  expected ← match od_get paradigm _SOURCE_ROUTE with Some r => Ret r | None => Raise KeyError end;
  Ret (mkRouteRow data_type change (scope_value scope) paradigm (route_value route) (bool_decide (route = expected))).

Definition _spectrum : res (list RouteRow) := res_mapM spectrum_row SPECTRUM.

(** ** Arms and probes *)

Definition _always_cag (profile : DataSourceProfile) (policy : FreshnessPolicy) : IngestionRoute := CAG_WITH_RAG_BACKUP.
Definition _always_rag (profile : DataSourceProfile) (policy : FreshnessPolicy) : IngestionRoute := RAG_ONLY.

Definition NAIVE : string := "cache everything, batch refresh only".
Definition ARMS : list (string * (DataSourceProfile → FreshnessPolicy → IngestionRoute) * bool) :=
  [(NAIVE, _always_cag, false); ("cache everything, invalidate on change"%string, _always_cag, false);
   ("RAG only"%string, _always_rag, false); ("freshness-aware"%string, route_for, true)].

Definition _probe_rows (source_key : string) : list string :=
  if String.eqb source_key (dp_source_key (fd_profile SIZE_FEED))
  then [(source_key +:+ " (owner)")%string; (source_key +:+ " (other user)")%string]
  else [source_key].

(** The naive baseline's stores, and the text it last saw of each source. *)
Record NaivePlacement (I E C R : Type) : Type := mkNaive {
  nv_tenant_id : uuid;
  nv_rag_index : I;
  nv_warmed : CacheWarmedRetrieve E C R;
  nv_latest : list (uuid * (string * string))
}.
Arguments mkNaive {I E C R}. Arguments nv_tenant_id {I E C R}. Arguments nv_rag_index {I E C R}.
Arguments nv_warmed {I E C R}. Arguments nv_latest {I E C R}.

Section naive.
Context {I E C R KV : Type} `{RagIndex I} `{EmbeddingModel E} `{FrozenCache C KV}.
Abbreviation Naive := (NaivePlacement I E C R) (only parsing).

Definition on_naive_index {A} (m : stm I A) : stm Naive A := λ s,
  let '(r, i) := m (nv_rag_index s) in (r, mkNaive (nv_tenant_id s) i (nv_warmed s) (nv_latest s)).
Definition on_naive_warmed {A} (m : stm (CacheWarmedRetrieve E C R) A) : stm Naive A := λ s,
  let '(r, w) := m (nv_warmed s) in (r, mkNaive (nv_tenant_id s) (nv_rag_index s) w (nv_latest s)).

Definition naive_ingest (feed : Feed) (content : string) (user_id : option uuid) : stm Naive unit :=
  s ← get_st;
  let key := dp_source_key (fd_profile feed) in
  let source_id := source_id_for (nv_tenant_id s) key user_id in
  if String.eqb (default (EmptyString, EmptyString) (od_get source_id (nv_latest s))).2 content then mret tt
  else
    on_naive_index (ri_replace (nv_tenant_id s) source_id key content);;
    modify (λ s, mkNaive (nv_tenant_id s) (nv_rag_index s) (nv_warmed s) (od_set source_id (key, content) (nv_latest s))).

Definition naive_rewarm : stm Naive (list string) :=
  s ← get_st;
  _ ← for_each (nv_latest s) (λ '(source_id, (_, content)),
    on_naive_warmed (CacheWarmedRetrieve.on_cache (fc_preload (nv_tenant_id s) source_id content));;
    on_naive_warmed (note_warmed (nv_tenant_id s) source_id content));
  mret (map (λ e, e.2.1) (nv_latest s)).
End naive.

Section probes.
Context {E C : Type} `{EmbeddingModel E} `{CascadeRunner C}.

(** One probe, in a session of its own: the question through the cascade, the
    markers of its version and of those before. *)
Definition _probe (arm : string) (tenant_id session_id : uuid) (feed : Feed) (now : datetime) (user_id : uuid) (row : string) (foreign : list string) :
  stm (E * C) ProbeObservation :=
  version ← lift_res (fd_version_at feed now);
  embedding ← on_fst (embed (fd_question feed));
  result ← on_snd (cascade_run (mkRequest tenant_id user_id session_id (fd_question feed) embedding) None);
  current ← lift_res (fd_marker feed version);
  superseded ← lift_res (res_mapM (fd_marker feed) (seqZ 0 version));
  mret (mkProbeObservation arm row (join (String "010" EmptyString) (map ci_content (cr_items result))) current superseded
    (existsb (λ item, bool_decide (ci_paradigm item = CAG)) (cr_items result)) foreign).
End probes.

(** *** Calibration *)

Section calibration.
Context {E : Type} `{EmbeddingModel E}.

Definition CALIBRATED : list Feed := FEEDS ++ [SIZE_FEED; WARRANTY].
Definition calibration_hit : f64 := py_max CAG_HIT [MAG_HIT].
Definition calibration_partial : f64 := py_min CAG_PARTIAL [MAG_PARTIAL].

(** The texts the questions are scored against, by source. *)
Definition feed_vectors : stm E (list (string * list f64)) :=
  vectors ← for_each CALIBRATED (λ f,
    text ← lift_res (fd_text f 0);
    vector ← embed text;
    mret (dp_source_key (fd_profile f), vector));
  mret (od_of_list vectors).

(** One question's own score and its best other. *)
Definition question_scores (texts : list (string * list f64)) (feed : Feed) : stm E (f64 * f64) :=
  question ← embed (fd_question feed);
  scores ← lift_res (res_mapM (λ kv, s ← cosine_similarity question kv.2; Ret (kv.1, s)) texts);
  own ← lift_res (match od_get (dp_source_key (fd_profile feed)) scores with Some s => Ret s | None => Raise KeyError end);
  best_other ← lift_res (match map snd (od_del (dp_source_key (fd_profile feed)) scores) with
    | s :: rest => Ret (py_max s rest)
    | [] => Raise (ValueError "max() iterable argument is empty")
    end);
  mret (own, best_other).

Definition miscalibrated (s : f64 * f64) : bool := flt s.1 calibration_hit || fle calibration_partial s.2.

(** Every feed's scores, or a raise when one fails. *)
Definition _calibrate : stm E (list (string * (f64 * f64))) :=
  texts ← feed_vectors;
  scores ← for_each CALIBRATED (λ f, s ← question_scores texts f; mret (dp_source_key (fd_profile f), s));
  if existsb (λ ks, miscalibrated ks.2) scores
  then raise (RuntimeError "SystemExit: question wording fails calibration")
  else mret scores.
End calibration.

(** ** Classifiers under observation *)

Section router.
Context {W Q : Type} `{QueryClassifier Q}.

(** [decide(await classifier.score(...))], or every paradigm when it fails. *)
Definition _classify (query : string) (embedding : list f64) : stm Q RoutingDecision := λ q,
  match classify query embedding q with
  | (Ret scores, q') => (decide_route scores DEFAULT_SELECT_THRESHOLD DEFAULT_UNCERTAINTY_MARGIN, q')
  | (Raise ClassificationFailed, q') => (Ret (fallback_decision ∅), q')
  | (Raise e, q') => (Raise e, q')
  end.

(** The labeled queries, each with its paradigms, timed by [perf_counter]. *)
Definition _observe (perf_counter : stm W f64) (embeddings : gmap string (list f64)) (queries : list (string * gset Paradigm)) :
  stm (W * Q) (list RoutingObservation) :=
  for_each queries (λ entry,
    started ← on_fst perf_counter;
    embedding ← lift_res (match embeddings !! entry.1 with Some v => Ret v | None => Raise KeyError end);
    decision ← on_snd (_classify entry.1 embedding);
    stopped ← on_fst perf_counter;
    mret (mkRoutingObservation entry.1 entry.2 decision (fmul (fsub stopped started) (of_Z_raw 1000)))).
End router.

(** *** The oracle *)

Definition OracleClassifier : Type := gmap string (gset Paradigm).

Definition oracle_scores (expected : gset Paradigm) : gmap Paradigm f64 :=
  list_to_map (map (λ p, (p, if decide (p ∈ expected) then fone else fzero)) PARADIGM_ORDER).

Definition Oracle_score (query : string) (query_embedding : list f64) : stm OracleClassifier (gmap Paradigm f64) := λ routes,
  (match routes !! query with Some expected => Ret (oracle_scores expected) | None => Raise KeyError end, routes).
#[export] Instance oracle_query_classifier : QueryClassifier OracleClassifier := Oracle_score.

(** Labeled routes come back as they are labeled, and as a cascade. *)
Lemma oracle_routes (routes : OracleClassifier) query expected embedding : routes !! query = Some expected → expected ≠ ∅ →
  _classify query embedding routes = (Ret (mkDecision expected CASCADE (oracle_scores expected)), routes).
Proof.
  intros Hr Hne. unfold _classify, classify, oracle_query_classifier, Oracle_score. rewrite Hr.
  assert (∀ p, score_of (oracle_scores expected) p = if decide (p ∈ expected) then fone else fzero) as Hs.
  { intros p. unfold score_of, oracle_scores. by destruct p. }
  f_equal. unfold decide_route. rewrite bool_decide_eq_true_2. 2: { apply set_eq. intros p. rewrite elem_of_dom. split; intros _; [apply elem_of_all_paradigms|by destruct p]. }
  cbn [negb].
  assert (forallb (λ p, score_ok (score_of (oracle_scores expected) p)) PARADIGM_ORDER = true) as ->.
  { apply forallb_forall. intros p _. rewrite Hs. by destruct (decide _). }
  cbn [negb]. assert (ParadigmRouter.selected (oracle_scores expected) DEFAULT_SELECT_THRESHOLD = expected) as ->.
  { apply set_eq. intros p. rewrite elem_of_selected, Hs. by destruct (decide (p ∈ expected)). }
  assert (uncertain (oracle_scores expected) DEFAULT_SELECT_THRESHOLD DEFAULT_UNCERTAINTY_MARGIN = ∅) as ->.
  { apply set_eq. intros p. rewrite elem_of_uncertain. unfold in_band. rewrite Hs. split; [|set_solver]. by destruct (decide (p ∈ expected)). }
  rewrite decide_False by done. by rewrite decide_True.
Qed.

(** ** Markers tell versions apart *)

Definition is_digit_char (c : ascii) : bool := match digit_value c with Some _ => true | None => false end.
Fixpoint all_chars (p : ascii → bool) (s : string) : bool := match s with String c s' => p c && all_chars p s' | EmptyString => true end.
Abbreviation no_digit := (all_chars (λ c, negb (is_digit_char c))) (only parsing).
Definition digits (s : string) : bool := negb (String.eqb s EmptyString) && all_chars is_digit_char s.

Lemma str_in_step x c s : str_in x (String c s) = startswith x (String c s) || str_in x s.
Proof. unfold str_in. cbn [find_sub]. destruct (startswith x (String c s)); [done|]. by destruct (find_sub x s). Qed.

Lemma str_in_nil x : str_in x EmptyString = startswith x EmptyString.
Proof. unfold str_in. cbn [find_sub]. by destruct (startswith x EmptyString). Qed.

Lemma startswith_cons c d p s : startswith (String c p) (String d s) = Ascii.eqb c d && startswith p s.
Proof. unfold startswith. cbn [strip_prefix]. by destruct (Ascii.eqb c d). Qed.

Lemma startswith_long p q r : (slen p ≤ slen q)%nat → startswith p (q +:+ r) = startswith p q.
Proof.
  revert q. induction p as [|c p IH]; intros q Hq; [done|]. destruct q as [|d q]; [cbn in Hq; lia|]. rewrite sapp_cons, !startswith_cons, IH; [done|cbn in Hq; lia].
Qed.

Lemma startswith_more p r s : startswith p s = false → startswith (p +:+ r) s = false.
Proof.
  revert s. induction p as [|c p IH]; intros s; [done|]. rewrite sapp_cons. destruct s as [|d s]; [done|]. rewrite !startswith_cons.
  destruct (Ascii.eqb c d); [|done]. cbn [andb]. apply IH.
Qed.

Lemma startswith_same p q s : startswith (p +:+ q) (p +:+ s) = startswith q s.
Proof. induction p as [|c p IH]; [done|]. by rewrite !sapp_cons, startswith_cons, Ascii.eqb_refl. Qed.

(** A text without digits does not start across a digit. *)
Lemma startswith_digit mid m d rest : no_digit mid = true → (slen m < slen mid)%nat → is_digit_char d = true → startswith mid (m +:+ String d rest) = false.
Proof.
  revert mid. induction m as [|e m IH]; intros [|c mid] Hn Hl Hd; try (cbn in Hl; lia); cbn [all_chars] in Hn; apply andb_true_iff in Hn as [Hc Hn].
  - rewrite sapp_nil, startswith_cons. destruct (Ascii.eqb_spec c d) as [->|]; [by rewrite Hd in Hc|done].
  - rewrite sapp_cons, startswith_cons, IH; [by rewrite andb_false_r|done|cbn in Hl; lia|done].
Qed.

Lemma digits_cons s : digits s = true → ∃ d s', s = String d s' ∧ is_digit_char d = true ∧ all_chars is_digit_char s' = true.
Proof. destruct s as [|d s']; [done|]. unfold digits. cbn. intros [Hd Hs]%andb_true_iff. by exists d, s'. Qed.

Section template.
Context (mid r : string) (Hmid : no_digit mid = true) (Hne : mid ≠ EmptyString).

Lemma skip_digits D s : all_chars is_digit_char D = true → str_in (mid +:+ r) (D +:+ s) = str_in (mid +:+ r) s.
Proof.
  induction D as [|d D IH]; [done|]. cbn [all_chars]. intros [Hd HD]%andb_true_iff. rewrite sapp_cons, str_in_step, startswith_more, IH; [done..|].
  change (String d (D +:+ s)) with (EmptyString +:+ String d (D +:+ s))%string. apply startswith_digit; [done| |done]. destruct mid; [done|cbn; lia].
Qed.

(** Up to a number, only what its literal says. *)
Lemma skip_literal pre D s : str_in mid pre = false → digits D = true → str_in (mid +:+ r) (pre +:+ (D +:+ s)) = str_in (mid +:+ r) s.
Proof.
  intros Hpre HD. destruct (digits_cons D HD) as (d & D' & -> & Hd & HD'). revert Hpre. induction pre as [|c pre IH]; intros Hpre.
  - rewrite sapp_nil. apply skip_digits. cbn. by rewrite Hd.
  - rewrite str_in_step in Hpre. apply orb_false_iff in Hpre as [Hc Hpre]. rewrite sapp_cons, str_in_step, IH by done.
    rewrite startswith_more; [done|]. rewrite <- sapp_cons. destruct (Nat.le_gt_cases (slen mid) (slen (String c pre))).
    + by rewrite startswith_long.
    + rewrite (sapp_cons d D' s). by apply startswith_digit.
Qed.

(** At the marker's own place, only its number decides. *)
Lemma own_marker a D s : find_sub mid (a +:+ mid) = Some (slen a) → digits D = true →
  str_in (mid +:+ r) (a +:+ (mid +:+ (D +:+ s))) = startswith r (D +:+ s) || str_in (mid +:+ r) s.
Proof.
  intros Hfirst HD. induction a as [|c a IH].
  - rewrite sapp_nil. destruct (digits_cons D HD) as (d & D' & -> & Hd & HD').
    assert (∀ m, (slen m < slen mid)%nat → str_in (mid +:+ r) (m +:+ (String d D' +:+ s)) = str_in (mid +:+ r) s) as Hskip.
    { induction m as [|e m IHm]; intros Hm; [rewrite sapp_nil; apply skip_digits; cbn; by rewrite Hd|]. rewrite sapp_cons, str_in_step, IHm by (cbn in Hm; lia).
      rewrite startswith_more; [done|]. rewrite <- sapp_cons, (sapp_cons d D' s). by apply startswith_digit. }
    destruct mid as [|e m] eqn:Hm; [done|]. rewrite (sapp_cons e m (String d D' +:+ s)), str_in_step, Hskip by (cbn; lia).
    by rewrite <- sapp_cons, <- Hm, startswith_same.
  - rewrite sapp_cons in Hfirst. cbn [find_sub] in Hfirst. destruct (startswith mid (String c (a +:+ mid))) eqn:Hc; [done|].
    apply fmap_Some in Hfirst as (k & Hk & Hs). injection Hs as <-. rewrite sapp_cons, str_in_step, IH by done.
    rewrite startswith_more; [done|]. rewrite <- Hc, <- (startswith_long mid (String c (a +:+ mid)) (D +:+ s)).
    + by rewrite sapp_cons, sapp_assoc.
    + cbn. rewrite sapp_length. lia.
Qed.
End template.

(** Two numbers before the same non-digit: one starts the other only if equal. *)
Lemma startswith_number D E c suf b : all_chars is_digit_char D = true → all_chars is_digit_char E = true → is_digit_char c = false →
  startswith (D +:+ String c suf) (E +:+ (String c suf +:+ b)) = String.eqb D E.
Proof.
  intros HD HE Hc. revert E HE. induction D as [|d D IH]; intros [|e E] HE; cbn [all_chars] in *.
  - rewrite !sapp_nil, startswith_app. done.
  - apply andb_true_iff in HE as [He _]. rewrite sapp_nil, sapp_cons, startswith_cons. destruct (Ascii.eqb_spec c e) as [->|]; [by rewrite He in Hc|done].
  - apply andb_true_iff in HD as [Hd _]. rewrite sapp_nil, !sapp_cons, startswith_cons. destruct (Ascii.eqb_spec d c) as [->|]; [by rewrite Hd in Hc|done].
  - apply andb_true_iff in HD as [_ HD], HE as [_ HE]. rewrite (sapp_cons d D), (sapp_cons e E), startswith_cons, (IH HD _ HE).
    cbn [String.eqb]. by destruct (Ascii.eqb d e).
Qed.

Lemma shown_digits n : 0 ≤ n → digits (show_Z n) = true.
Proof.
  intros Hn. unfold show_Z. rewrite (proj2 (Z.ltb_ge _ _)) by lia. destruct (scan_shown n EmptyString Hn eq_refl) as (k & Hk & Hl & _).
  assert (String.eqb (show_nat n) EmptyString = false) as He by (destruct (show_nat n); [cbn in Hl; lia|done]).
  unfold digits. rewrite He. cbn [negb andb]. unfold show_nat. clear.
  assert (∀ (f : nat) m acc, all_chars is_digit_char acc = true → all_chars is_digit_char (digits_go f m acc) = true) as Hgo; [|by apply Hgo].
  induction f as [|f IH]; intros m acc Ha; [done|]. cbn [digits_go].
  assert (all_chars is_digit_char (String (ascii_of_N (Z.to_N (48 + m mod 10))) acc) = true) as Hd.
  { cbn [all_chars]. unfold is_digit_char at 1. rewrite digit_char_value; [done|]. by apply Z.mod_pos_bound. }
  destruct (m <? 10); [done|by apply IH].
Qed.

Lemma shown_inj n m : 0 ≤ n → 0 ≤ m → String.eqb (show_Z n) (show_Z m) = (n =? m).
Proof.
  intros Hn Hm. unfold show_Z. rewrite !(proj2 (Z.ltb_ge _ _)) by lia.
  destruct (String.eqb_spec (show_nat n) (show_nat m)) as [He|He]; [|symmetry; apply Z.eqb_neq; by intros ->].
  destruct (scan_shown n EmptyString Hn eq_refl) as (k & _ & _ & Hs & _), (scan_shown m EmptyString Hm eq_refl) as (k' & _ & _ & Hs' & _).
  rewrite He, Hs' in Hs. injection Hs as ->. by rewrite Z.eqb_refl.
Qed.

(** The marker of a number, in the text of a number. *)
Lemma numbered_marker a mid c suf b n m : no_digit mid = true → mid ≠ EmptyString → is_digit_char c = false →
  find_sub mid (a +:+ mid) = Some (slen a) → str_in mid (String c suf +:+ b) = false → 0 ≤ n → 0 ≤ m →
  str_in (mid +:+ (show_Z n +:+ String c suf)) (a +:+ (mid +:+ (show_Z m +:+ (String c suf +:+ b)))) = (n =? m).
Proof.
  intros Hmid Hne Hc Hfirst Hrest Hn Hm. rewrite own_marker by (done || by apply shown_digits).
  pose proof (shown_digits n Hn) as [_ HD]%andb_true_iff. pose proof (shown_digits m Hm) as [_ HE]%andb_true_iff.
  rewrite startswith_number, shown_inj by done. destruct (n =? m); [done|]. cbn [orb].
  revert Hrest. generalize (String c suf +:+ b)%string as s. induction s as [|d s IH]; [rewrite !str_in_nil; apply startswith_more|].
  rewrite !str_in_step, !orb_false_iff. intros [H1 H2]. split; [by apply startswith_more|by apply IH].
Qed.

Lemma not_in_more x r s : str_in x s = false → str_in (x +:+ r) s = false.
Proof.
  induction s as [|d s IH]; [rewrite !str_in_nil; apply startswith_more|]. rewrite !str_in_step, !orb_false_iff. intros [H1 H2].
  split; [by apply startswith_more|by apply IH].
Qed.

(** Another feed's numbered text. *)
Lemma foreign_marker mid r pre m post : no_digit mid = true → mid ≠ EmptyString → str_in mid pre = false → str_in mid post = false → 0 ≤ m →
  str_in (mid +:+ r) (pre +:+ (show_Z m +:+ post)) = false.
Proof. intros Hmid Hne Hpre Hpost Hm. rewrite skip_literal by (done || by apply shown_digits). by apply not_in_more. Qed.

Lemma foreign_literal mid pre m post : no_digit mid = true → mid ≠ EmptyString → str_in mid pre = false → str_in mid post = false → 0 ≤ m →
  str_in mid (pre +:+ (show_Z m +:+ post)) = false.
Proof. intros. rewrite <- (sapp_nil_r mid). by apply foreign_marker. Qed.

(** The versions a feed has from the first day on. *)
Definition reachable (f : Feed) (n : Z) : Prop := ∃ now, T0 ≤ now < datetime_end ∧ fd_version_at f now = Ret n.

Lemma hours_nonneg now h : T0 ≤ now < datetime_end → _hours now = Ret h → 0 ≤ h.
Proof.
  intros Hnow. unfold _hours. destruct (Z.eq_dec now T0) as [->|Hne]; [rewrite Z.sub_diag; by intros [= <-]|].
  assert (0 < now - T0 < 2 ^ 60) as Hr by (unfold datetime_end, T0, days, us_day, us_second in *; lia).
  destruct (int_true_div_trunc (now - T0) HOUR Hr) as (x & z & -> & Hz & Hle & _); [unfold HOUR, hours, us_hour, us_second; lia|].
  cbn [mbind res_bind]. rewrite Hz. intros [= <-]. pose proof (Z.div_pos (now - T0) HOUR ltac:(lia) ltac:(done)). lia.
Qed.

(** A feed's numbers, or its two wordings. *)
Definition numbered (f : Feed) : bool := existsb (String.eqb (dp_source_key (fd_profile f))) ["backpack-price"; "blender-catalog"; "flash-sale"; "size-preference"]%string.

Lemma reachable_versions f n : f ∈ CALIBRATED → reachable f n →
  0 ≤ n ∧ (numbered f = false ∨ f = SIZE_FEED → n = 0 ∨ n = 1) ∧ (f = SHIPPING_FEED → n = 0).
Proof.
  assert (∀ b, 0 ≤ Z.b2z b ∧ (Z.b2z b = 0 ∨ Z.b2z b = 1)) as Hb by (intros []; cbn; lia).
  intros Hf (now & Hnow & Hv). unfold CALIBRATED, FEEDS in Hf. cbn [app] in Hf. rewrite !elem_of_cons, elem_of_nil in Hf.
  destruct Hf as [->|[->|[->|[->|[->|[->|[->|[]]]]]]]]; cbn [fd_version_at BACKPACK_FEED POLICY_FEED CATALOG_FEED SHIPPING_FEED SALE_FEED SIZE_FEED WARRANTY] in Hv.
  - pose proof (hours_nonneg _ _ Hnow Hv). split_and!; [done|by intros [|]|done].
  - injection Hv as <-. destruct (Hb (T0 + 11 * DAY + 9 * HOUR <=? now)) as [H0 H01]. split_and!; [done|done|done].
  - unfold _catalog_version in Hv. destruct (_hours now) as [h|] eqn:Hh; [|done]. injection Hv as <-. pose proof (hours_nonneg _ _ Hnow Hh).
    split_and!; [|by intros [|]|done]. destruct (Z.ltb_spec h 216); [by apply Z.div_pos|lia].
  - injection Hv as <-. split_and!; [done|by left|done].
  - destruct (_hours now) as [h|] eqn:Hh; [|done]. injection Hv as <-. pose proof (hours_nonneg _ _ Hnow Hh). split_and!; [lia|by intros [|]|done].
  - injection Hv as <-. destruct (Hb (T0 + 14 * DAY + 9 * HOUR <=? now)) as [H0 H01]. split_and!; [done|done|done].
  - injection Hv as <-. destruct (Hb (T0 + 7 * DAY <=? now)) as [H0 H01]. split_and!; [done|done|done].
Qed.

(** A feed's texts and markers: around a number, or one wording a version. *)
Inductive Shape : Type :=
  | Numbered (before mid : string) (c : ascii) (suffix after : string) (base : Z)
  | Worded (wordings : list (string * string)).

Definition shape_marker (s : Shape) (n : Z) : option string :=
  match s with
  | Numbered _ mid c suffix _ base => Some (mid +:+ (show_Z (base + n) +:+ String c suffix))%string
  | Worded wordings => fst <$> wordings !! Z.to_nat n
  end.
Definition shape_text (s : Shape) (n : Z) : option string :=
  match s with
  | Numbered before mid c suffix after base => Some (before +:+ (mid +:+ (show_Z (base + n) +:+ (String c suffix +:+ after))))%string
  | Worded wordings => snd <$> wordings !! Z.to_nat n
  end.

Definition nonempty (s : string) : bool := negb (String.eqb s EmptyString).

(** The marker is where it should be and nowhere else in its own texts, and
    nowhere in the other's. *)
Definition well_marked (s : Shape) : bool :=
  match s with
  | Numbered before mid c suffix after base =>
      no_digit mid && nonempty mid && negb (is_digit_char c) && (0 <=? base) &&
      bool_decide (find_sub mid (before +:+ mid) = Some (slen before)) && negb (str_in mid (String c suffix +:+ after))
  | Worded wordings =>
      forallb (λ i, forallb (λ j, match wordings !! i, wordings !! j with
        | Some v, Some w => Bool.eqb (str_in v.1 w.2) (i =? j)%nat | _, _ => true end) (seq 0 (length wordings))) (seq 0 (length wordings))
  end.
Definition out_of (x : string) (s : Shape) : bool :=
  match s with
  | Numbered before mid c suffix after base =>
      no_digit x && nonempty x && (0 <=? base) && negb (str_in x (before +:+ mid)) && negb (str_in x (String c suffix +:+ after))
  | Worded wordings => forallb (λ w, negb (str_in x w.2)) wordings
  end.
Definition apart (s t : Shape) : bool :=
  match s with Numbered _ mid _ _ _ _ => out_of mid t | Worded wordings => forallb (λ v, out_of v.1 t) wordings end.

Lemma nonempty_ne s : nonempty s = true → s ≠ EmptyString.
Proof. by intros Hs ->. Qed.

Lemma out_of_text x r s m t : out_of x s = true → 0 ≤ m → shape_text s m = Some t → str_in (x +:+ r) t = false.
Proof.
  destruct s as [before mid c suffix after base|wordings]; cbn [out_of shape_text].
  - intros [[[[Hx Hne]%andb_true_iff Hb%Z.leb_le]%andb_true_iff Hpre%negb_true_iff]%andb_true_iff Hpost%negb_true_iff]%andb_true_iff Hm [= <-].
    rewrite <- sapp_assoc. apply foreign_marker; [done|by apply nonempty_ne|done..|lia].
  - intros Hall Hm (w & Hw & ->)%fmap_Some. apply not_in_more. rewrite forallb_forall in Hall.
    apply negb_true_iff, Hall, list_elem_of_In. by eapply list_elem_of_lookup_2.
Qed.

Lemma apart_marker s s' n m x t : apart s s' = true → 0 ≤ n → 0 ≤ m → shape_marker s n = Some x → shape_text s' m = Some t → str_in x t = false.
Proof.
  destruct s as [before mid c suffix after base|wordings]; cbn [apart shape_marker]; intros Hap Hn Hm.
  - intros [= <-] Ht. by apply (out_of_text _ _ s' m).
  - intros (w & Hw & ->)%fmap_Some Ht. rewrite forallb_forall in Hap. rewrite <- (sapp_nil_r w.1). apply (out_of_text _ _ s' m); [|done|done].
    apply Hap, list_elem_of_In. by eapply list_elem_of_lookup_2.
Qed.

Lemma own_text s n m x t : well_marked s = true → 0 ≤ n → 0 ≤ m → shape_marker s n = Some x → shape_text s m = Some t → str_in x t = (n =? m).
Proof.
  destruct s as [before mid c suffix after base|wordings]; cbn [well_marked shape_marker shape_text]; intros Hw Hn Hm.
  - apply andb_true_iff in Hw as [[[[[Hmid Hne]%andb_true_iff Hc%negb_true_iff]%andb_true_iff Hb%Z.leb_le]%andb_true_iff Hf%bool_decide_eq_true]%andb_true_iff Hr%negb_true_iff].
    intros [= <-] [= <-]. rewrite numbered_marker by (done || lia || by apply nonempty_ne). apply eq_iff_eq_true. rewrite !Z.eqb_eq. lia.
  - intros (v & Hv & ->)%fmap_Some (w & Hw' & ->)%fmap_Some. rewrite forallb_forall in Hw.
    assert (∀ (k : nat) u, wordings !! k = Some u → In k (seq 0 (length wordings))) as Hin.
    { intros k u Hk. apply in_seq. apply lookup_lt_Some in Hk. lia. }
    specialize (Hw _ (Hin _ _ Hv)). rewrite forallb_forall in Hw. specialize (Hw _ (Hin _ _ Hw')). rewrite Hv, Hw' in Hw. apply Bool.eqb_prop in Hw. rewrite Hw.
    apply eq_iff_eq_true. rewrite Nat.eqb_eq, Z.eqb_eq. lia.
Qed.

Definition shape_of (f : Feed) : Shape :=
  let key := dp_source_key (fd_profile f) in
  if String.eqb key "backpack-price" then Numbered "The blue hiking backpack " "costs " " " "dollars" " today." 40
  else if String.eqb key "blender-catalog" then Numbered "The kitchen blender catalog " "lists " " " "models" " this season." 100
  else if String.eqb key "flash-sale" then Numbered "Flash sale code " "SALE" " " "" "takes 20 percent off every garden hose." 0
  else if String.eqb key "size-preference" then Numbered "The user wears " "size " " " "" "running shoes." 10
  else if String.eqb key "return-policy" then Worded (map (λ d,
    ("within " +:+ d +:+ " days", "Our return policy allows customers to return unopened items within " +:+ d +:+ " days of purchase for a full refund.")) _POLICY_DAYS)
  else if String.eqb key "shipping-guide" then Worded [("five to seven", "Standard shipping takes five to seven business days.")]
  else Worded (map (λ y, (y +:+ "-year", "Every bicycle carries a " +:+ y +:+ "-year limited frame warranty.")) _WARRANTY_YEARS).

Lemma shapes_apart : forallb (λ f, well_marked (shape_of f) &&
  forallb (λ g, String.eqb (dp_source_key (fd_profile f)) (dp_source_key (fd_profile g)) || apart (shape_of f) (shape_of g)) CALIBRATED) CALIBRATED = true.
Proof. vm_compute. reflexivity. Qed.

Lemma feed_shape f n : f ∈ CALIBRATED → reachable f n →
  (∀ x, fd_marker f n = Ret x → shape_marker (shape_of f) n = Some x) ∧ (∀ t, fd_text f n = Ret t → shape_text (shape_of f) n = Some t).
Proof.
  intros Hf Hn. destruct (reachable_versions f n Hf Hn) as (_ & Hw & Hs). unfold CALIBRATED, FEEDS in Hf. cbn [app] in Hf. rewrite !elem_of_cons, elem_of_nil in Hf.
  destruct Hf as [->|[->|[->|[->|[->|[->|[->|[]]]]]]]].
  1, 3, 5, 6: split; intros ? [= <-]; reflexivity.
  - destruct (Hw (or_introl eq_refl)) as [-> | ->]; split; intros ? [= <-]; reflexivity.
  - rewrite (Hs eq_refl). split; intros ? [= <-]; reflexivity.
  - destruct (Hw (or_introl eq_refl)) as [-> | ->]; split; intros ? [= <-]; reflexivity.
Qed.

Lemma same_feed f g : f ∈ CALIBRATED → g ∈ CALIBRATED → dp_source_key (fd_profile f) = dp_source_key (fd_profile g) → f = g.
Proof.
  unfold CALIBRATED, FEEDS. cbn [app]. rewrite !elem_of_cons, !elem_of_nil.
  intros [->|[->|[->|[->|[->|[->|[->|[]]]]]]]] [->|[->|[->|[->|[->|[->|[->|[]]]]]]]]; done.
Qed.

(** A marker names one version of one source. Whatever day and hour the feeds
    are read from the first day on, the marker of a version is in the text the same
    source has at that version, and in no text of another version or of another
    source: not a price that starts like another's, not a sale code that extends
    one, not the wording of another policy. So what a probe finds of its markers in
    a context says which versions reached it. *)
Theorem markers_tell_versions f g n m x t : f ∈ CALIBRATED → g ∈ CALIBRATED → reachable f n → reachable g m →
  fd_marker f n = Ret x → fd_text g m = Ret t →
  str_in x t = bool_decide (dp_source_key (fd_profile f) = dp_source_key (fd_profile g) ∧ n = m).
Proof.
  intros Hf Hg Hn Hm Hx Ht. destruct (feed_shape f n Hf Hn) as [Hxs _], (feed_shape g m Hg Hm) as [_ Hts]. apply Hxs in Hx. apply Hts in Ht. clear Hxs Hts.
  destruct (reachable_versions f n Hf Hn) as [Hn0 _], (reachable_versions g m Hg Hm) as [Hm0 _].
  pose proof shapes_apart as Hs. rewrite forallb_forall in Hs. specialize (Hs f (proj1 (list_elem_of_In _ _) Hf)). apply andb_true_iff in Hs as [Hwell Hap].
  rewrite forallb_forall in Hap. specialize (Hap g (proj1 (list_elem_of_In _ _) Hg)). apply orb_true_iff in Hap as [Hkey%String.eqb_eq|Hap].
  - rewrite (same_feed f g Hf Hg Hkey) in *. rewrite (own_text _ n m x t Hwell) by done. apply eq_iff_eq_true. rewrite bool_decide_eq_true, Z.eqb_eq. tauto.
  - destruct (decide (dp_source_key (fd_profile f) = dp_source_key (fd_profile g))) as [Hkey|Hne].
    + rewrite (same_feed f g Hf Hg Hkey) in *. rewrite (own_text _ n m x t Hwell) by done. apply eq_iff_eq_true. rewrite bool_decide_eq_true, Z.eqb_eq. tauto.
    + rewrite bool_decide_eq_false_2 by tauto. by apply (apart_marker _ _ n m x t Hap).
Qed.

(** Day 5, 01:00: the sale is at its last code, the price at its 98th. *)
Lemma markers_tell_versions_witness :
  str_in "SALE9 " "Flash sale code SALE96 takes 20 percent off every garden hose." = false ∧
  str_in "costs 137 dollars" "The blue hiking backpack costs 137 dollars today." = true.
Proof.
  assert (SALE_FEED ∈ CALIBRATED ∧ BACKPACK_FEED ∈ CALIBRATED) as [Hs Hb] by (split; apply list_elem_of_In; cbn; tauto).
  assert (reachable SALE_FEED 9 ∧ reachable SALE_FEED 96 ∧ reachable BACKPACK_FEED 97) as (H9 & H96 & Hback).
  { repeat split; [exists (T0 + 9 * HOUR)|exists (T0 + 97 * HOUR)|exists (T0 + 97 * HOUR)]; (split; [vm_compute; split; [discriminate|reflexivity]|vm_compute; reflexivity]). }
  split.
  - refine (eq_trans (markers_tell_versions SALE_FEED SALE_FEED 9 96 _ _ Hs Hs H9 H96 eq_refl eq_refl) _). reflexivity.
  - refine (eq_trans (markers_tell_versions BACKPACK_FEED BACKPACK_FEED 97 97 _ _ Hb Hb Hback Hback eq_refl eq_refl) _). reflexivity.
Defined.

(** Seven of the eight data types are routed as the source has them. *)
Example spectrum_routed :
  (map (λ r, (rr_data_type r, rr_route r, rr_agrees r)) <$> _spectrum) = Ret
    [("Stock prices, live scores", "rag_only", true); ("News, social media", "rag_only", true); ("User session state", "mag", true);
     ("Product catalog", "cag_with_rag_backup", true); ("Company policies, manuals", "cag_with_rag_backup", true);
     ("Textbooks, reference", "cag_with_rag_backup", true); ("Code repositories", "rag_only", false); ("User long-term preferences", "mag", true)]%string.
Proof. vm_compute. reflexivity. Qed.

#[local] Instance ascii_word : UnicodeWords := λ _, false.
#[local] Instance ascii_lower : CaseTable := lower.

(** A non-answer that happens to name a ten fails; a plain answer passes. *)
Example checks_read :
  map (λ a, (is_non_answer a, _mentions_ten a, _answers_with _mentions_ten a))
    ["The context doesn't  specify a size; stock lists sizes 9 and 10."; "You wear a TEN."; "Often, the user wears 100."; "It is not known."]%string
  = [(true, true, false); (false, true, true); (false, false, false); (true, false, false)].
Proof. vm_compute. reflexivity. Qed.

(** ** The naive baseline serves the newest text from RAG *)

Section naive_laws.
Context {I E C R KV : Type} `{RagIndex I} `{EmbeddingModel E} `{FrozenCache C KV} (texts : I → gmap (uuid * uuid) string) `{!RagIndexLaws I texts}.

(** What the baseline last saw of each source is what RAG has. *)
Definition latest_indexed (s : NaivePlacement I E C R) : Prop :=
  ∀ id key content, od_get id (nv_latest s) = Some (key, content) → texts (nv_rag_index s) !! (nv_tenant_id s, id) = Some content.

Lemma naive_ingest_indexed feed content user_id s : latest_indexed s → content ≠ EmptyString →
  let id := source_id_for (nv_tenant_id s) (dp_source_key (fd_profile feed)) user_id in
  match naive_ingest feed content user_id s with
  | (Ret _, s') => latest_indexed s' ∧ texts (nv_rag_index s') !! (nv_tenant_id s, id) = Some content ∧ nv_warmed s' = nv_warmed s
  | (Raise _, s') => nv_latest s' = nv_latest s ∧ nv_warmed s' = nv_warmed s
  end.
Proof.
  intros Hs Hc. cbv zeta. unfold naive_ingest, mbind, stm_bind, get_st, mret, stm_ret. set (id := source_id_for _ _ _).
  destruct (String.eqb_spec (default (EmptyString, EmptyString) (od_get id (nv_latest s))).2 content) as [He|He].
  - split; [done|]. split; [|done]. destruct (od_get id (nv_latest s)) as [[key c]|] eqn:Hg; [|by cbn in He]. cbn in He. subst c. by eapply Hs.
  - unfold on_naive_index. pose proof (ri_replace_spec (nv_tenant_id s) id (dp_source_key (fd_profile feed)) content (nv_rag_index s)) as Hr.
    destruct (ri_replace _ _ _ _ _) as [[[]|e] i]; [|done]. cbn [modify nv_tenant_id nv_rag_index nv_latest nv_warmed]. rewrite Hr, lookup_insert_eq. split_and!; [|done..].
    intros id' key' content'. cbn [nv_latest nv_rag_index nv_tenant_id]. rewrite od_get_set, Hr. destruct (decide (id = id')) as [<-|Hne].
    + intros [= <- <-]. by rewrite lookup_insert_eq.
    + intros Hg. rewrite lookup_insert_ne by congruence. by eapply Hs.
Qed.
End naive_laws.

(** The thresholds the API serves with are the measured ones. *)
Lemma serving_thresholds_are_measured : Resources.MAG_HIT = MAG_HIT ∧ Resources.MAG_PARTIAL = MAG_PARTIAL.
Proof. done. Qed.
