(* ===== verification/EvalReports.v ===== *)
(** * The evaluation's reports

    evaluation/infrastructure: markdown_report.py, cascade_report.py,
    freshness_report.py and routing_report.py, with the format specifications
    they use.  [repr] of a str and [str] of a value that is not one are
    parameters. *)

From Stdlib Require Import ZArith Lia Ascii String Floats.SpecFloat.
From S2P Require Import Prelude PyFloat IntDivision FloatOrder PyTime PyStr Prompts Json MagDomain Entities Identity Sessions LlmJson Serving MemoryIndexes EvalMetrics EvalRun.

(** ** Format specifications *)

(** [f"{x:.<places>f}"]: the exact value, to the nearest, ties to even. *)
Definition fixed_digits (places : nat) (n : Z) : string :=
  let s := pad (S places) n in
  let whole := (slen s - places)%nat in
  match places with
  | O => s
  | _ => (str_take whole s +:+ "." +:+ str_drop whole s)%string
  end.

Definition minus (negative : bool) (s : string) : string := if negative then String "-" s else s.

Definition fixed (places : nat) (x : f64) : string :=
  match x with
  | S754_nan => "nan"
  | S754_infinity s => minus s "inf"
  | S754_zero s => minus s (fixed_digits places 0)
  | S754_finite s m e =>
      let scaled := (Z.pos m * 10 ^ Z.of_nat places)%Z in
      minus s (fixed_digits places (if (0 <=? e)%Z then Z.shiftl scaled e else rne scaled (- e)%Z))
  end%string.

(** [f"{x:+.1f}"]. *)
Definition signed_fixed (places : nat) (x : f64) : string :=
  let s := fixed places x in if startswith "-" s then s else String "+" s.

(** [f"{x:.0%}"]. *)
Definition percent (x : f64) : string := (fixed 0 (fmul x (of_Z_raw 100)) +:+ "%")%string.

Definition _pct (value : f64) : string := if is_nan value then "n/a" else percent value.

(** [f"{t:%Y-%m-%d %H:%M}"]. *)
Definition minute_of (t : datetime) : string :=
  let '(y, m, d) := civil_of_days (t / us_day) in
  let s := t mod us_day / us_second in
  (pad 4 y +:+ "-" +:+ pad 2 m +:+ "-" +:+ pad 2 d +:+ " " +:+ pad 2 (s / 3600) +:+ ":" +:+ pad 2 (s / 60 mod 60))%string.

Definition lines_of (lines : list string) : string := join nl lines.

(** ** markdown_report.py *)

Definition show_delta (pct : f64) : string := (signed_fixed 1 pct +:+ "%")%string.

(** [_delta_pct] of two ints, and of two floats. *)
Definition _delta_pct (baseline treatment : Z) : res string :=
  if baseline =? 0 then Ret "n/a"%string
  else ratio ← int_true_div (treatment - baseline) baseline; Ret (show_delta (fmul ratio (of_Z_raw 100))).
Definition _delta_pct_float (baseline treatment : f64) : res string :=
  if feq baseline fzero then Ret "n/a"%string
  else ratio ← fdiv (fsub treatment baseline) baseline; Ret (show_delta (fmul ratio (of_Z_raw 100))).

Definition _mark (active : bool) : string := if active then "✓" else "✗".

Definition _quantitative_table (result : ComparisonResult) : res (list string) :=
  let b := cm_baseline result in
  let t := cm_treatment result in
  output_delta ← _delta_pct (rs_total_output_tokens b) (rs_total_output_tokens t);
  latency_delta ← _delta_pct_float (rs_latency_p50_ms b) (rs_latency_p50_ms t);
  let figures r := (show_Z (rs_total_input_tokens r) +:+ " | " +:+ show_Z (rs_total_output_tokens r) +:+ " | " +:+
    fixed 0 (rs_latency_p50_ms r) +:+ "ms / " +:+ fixed 0 (rs_latency_p95_ms r) +:+ "ms | " +:+ percent (rs_task_success_rate r))%string in
  Ret ["## Quantitative"; "";
       "| Run | RAG | CAG | MAG | Model | Input tokens | Output tokens | Latency (p50 / p95) | Task success | Δ vs. baseline | Notes |";
       "|---|---|---|---|---|---|---|---|---|---|---|";
       "| Baseline | " +:+ _mark false +:+ " | " +:+ _mark false +:+ " | " +:+ _mark false +:+ " | " +:+ cm_model_config result +:+ " | " +:+ figures b +:+
         " | — | " +:+ cm_notes result +:+ " |";
       "| Treatment | " +:+ _mark (cm_rag result) +:+ " | " +:+ _mark (cm_cag result) +:+ " | " +:+ _mark (cm_mag result) +:+ " | " +:+ cm_model_config result +:+ " | " +:+
         figures t +:+ " | " +:+ output_delta +:+ " output tokens, " +:+ latency_delta +:+ " p50 latency | " +:+ cm_notes result +:+ " |";
       ""]%string.

Section markdown.
Context `{PyRepr}.

Definition _score_row (label : string) (scores : JudgeScores) : string :=
  (if js_parse_failed scores then "| " +:+ label +:+ " | — | — | — | — |"
   else "| " +:+ label +:+ " | " +:+ py_str (js_coherence scores) +:+ " | " +:+ py_str (js_relevance scores) +:+ " | " +:+
     py_str (js_completeness scores) +:+ " | " +:+ py_str (js_groundedness scores) +:+ " |")%string.

Definition _success_rate_line (result : ComparisonResult) (index : nat) : option string :=
  match rs_per_question_success_rate (cm_baseline result) !! index, rs_per_question_success_rate (cm_treatment result) !! index with
  | Some b, Some t => Some ("Task success this question: baseline " +:+ percent b +:+ ", treatment " +:+ percent t)%string
  | _, _ => None
  end.

(** [', '.join(claims)] and [claims\[0\]] of whatever the judge replied. *)
Definition join_json (v : json) : res string :=
  items ← iter_json v;
  texts ← res_mapM (λ x, match x with JStr s => Ret s | _ => Raise (TypeError "sequence item: expected str instance") end) items;
  Ret (join ", " texts).
Definition first_claim (v : json) : res string :=
  match v with
  | JList (x :: _) => Ret (py_str x)
  | JList [] => Raise IndexError
  | JStr (String _ _ as s) => Ret (match code_points s with c :: _ => utf8_encode c | [] => EmptyString end)
  | JStr EmptyString => Raise IndexError
  | JObj _ => Raise KeyError
  | _ => Raise (TypeError "not subscriptable")
  end.

Definition claim_lines (label : string) (scores : JudgeScores) : res (list string) :=
  if js_parse_failed scores then
    reason ← first_claim (js_unverifiable_claims scores);
    Ret ["- ⚠ " +:+ label +:+ ": " +:+ reason]%string
  else if truthy (js_unverifiable_claims scores) then
    claims ← join_json (js_unverifiable_claims scores);
    Ret ["- " +:+ label +:+ " unverifiable claims: " +:+ claims]%string
  else Ret [].

(** One question, numbered from 1, its index one less. *)
Definition question_lines (result : ComparisonResult) (index : nat) (scores : JudgeScores * JudgeScores) : res (list string) :=
  let rate_lines := match _success_rate_line result index with Some line => [line; EmptyString] | None => [] end in
  let answer_lines :=
    match rs_answers (cm_baseline result) !! index, rs_answers (cm_treatment result) !! index with
    | Some b, Some t => ["- Baseline answer: " +:+ an_text b; "- Treatment answer: " +:+ an_text t; ""]%string
    | _, _ => []
    end in
  claims_a ← claim_lines "Baseline" scores.1;
  claims_b ← claim_lines "Treatment" scores.2;
  Ret (["### Question " +:+ show_Z (Z.of_nat (S index)); ""]%string ++ rate_lines ++
    ["| Response | Coherence | Relevance | Completeness | Groundedness |"; "|---|---|---|---|---|";
     _score_row "Baseline (A)" scores.1; _score_row "Treatment (B)" scores.2; ""]%string ++
    answer_lines ++ claims_a ++ claims_b ++ [EmptyString]).

Definition _qualitative_section (result : ComparisonResult) : res (list string) :=
  sections ← res_mapM (λ ix, question_lines result ix.1 ix.2) (imap (λ i s, (i, s)) (cm_judge_scores result));
  Ret (["## Qualitative (per question)"; ""]%string ++ concat sections).

Definition render (result : ComparisonResult) : res string :=
  quantitative ← _quantitative_table result;
  qualitative ← _qualitative_section result;
  Ret (lines_of (["# " +:+ cm_scenario_name result +:+ " — Comparison Result"; "";
    "**Model:** " +:+ cm_model_config result; "**Success criterion:** " +:+ cm_success_criterion result; ""]%string ++ quantitative ++ qualitative)).

Definition render_github_comment (result : ComparisonResult) : res string :=
  quantitative ← _quantitative_table result;
  qualitative ← _qualitative_section result;
  Ret (lines_of (["**Model:** " +:+ cm_model_config result; ""]%string ++ quantitative ++ qualitative)).
End markdown.

(** ** cascade_report.py *)

Definition upper_paradigm (p : Paradigm) : string := match p with CAG => "CAG" | MAG => "MAG" | RAG => "RAG" end.

Definition _tier_row (s : TierLatencySummary) : string :=
  let outcomes := join ", " (map (λ on : TierOutcome * Z, outcome_value on.1 +:+ " " +:+ show_Z on.2)%string (tl_outcomes s)) in
  (upper_paradigm (tl_paradigm s) +:+ " | " +:+ show_Z (tl_attempts s) +:+ " | " +:+ outcomes +:+ " | " +:+ fixed 2 (tl_p50_ms s) +:+ " | " +:+
   fixed 2 (tl_p95_ms s) +:+ " | " +:+ fixed 0 (tl_budget_ms s) +:+ " | " +:+ _pct (tl_within_budget_rate s) +:+ " |")%string.

Definition stale_answer_row (t : StaleAnswerTally) : res string :=
  rate ← sa_stale_rate t;
  Ret ("| " +:+ sa_arm t +:+ " | " +:+ show_Z (sa_runs t) +:+ " | " +:+ show_Z (sa_stale t) +:+ " | " +:+ show_Z (sa_fresh t) +:+ " | " +:+
    show_Z (sa_mixed t) +:+ " | " +:+ _pct rate +:+ " |")%string.

Definition allocator_row (a : AllocatorTally) : string :=
  ("| " +:+ show_Z (al_window_tokens a) +:+ " | " +:+ show_Z (al_turns a) +:+ " | " +:+ show_Z (al_dynamic_dropped a) +:+ " | " +:+
   show_Z (al_static_dropped a) +:+ " | " +:+ show_Z (al_dynamic_tokens a) +:+ " | " +:+ show_Z (al_static_tokens a) +:+ " |")%string.

Definition render_cascade_measurements (tiers : list TierLatencySummary) (tallies : list StaleAnswerTally) (allocators : list AllocatorTally) (notes : string) : res string :=
  stale_rows ← res_mapM stale_answer_row tallies;
  Ret (lines_of (
    ["# Orchestration Meta-Layer — Cascade Measurements"; ""; notes; "";
     "## Tier latency against Concept 5's budgets"; "";
     "| Tier | Attempts | Outcomes | p50 ms | p95 ms | Budget ms | Within budget |"; "|---|---|---|---|---|---|---|"]%string ++
    map (λ s, "| " +:+ _tier_row s)%string tiers ++
    [""; "## Superseded frozen-cache text reaching the model, router off vs. on"; "";
     "| Arm | Runs | Stale only | Current only | Both | Stale rate |"; "|---|---|---|---|---|---|"]%string ++
    stale_rows ++
    [""; "## Dynamic reallocation vs. static base slices"; "";
     "| Window tokens | Turns | Dropped (dynamic) | Dropped (static) | Tokens used (dynamic) | Tokens used (static) |"; "|---|---|---|---|---|---|"]%string ++
    map allocator_row allocators) +:+ nl)%string.

Definition render_retriever_measurements (retrievers : list (string * list TierLatencySummary)) (notes : string) : string :=
  (lines_of (
    ["# Orchestration Meta-Layer — RAG Retrievers in a PARALLEL Route"; ""; notes; "";
     "## Tier latency against Concept 5's budgets, per RAG retriever"; "";
     "| Retriever | Tier | Attempts | Outcomes | p50 ms | p95 ms | Budget ms | Within budget |"; "|---|---|---|---|---|---|---|---|"]%string ++
    flat_map (λ nt : string * list TierLatencySummary, map (λ s, "| " +:+ nt.1 +:+ " | " +:+ _tier_row s)%string nt.2) retrievers) +:+ nl)%string.

(** ** freshness_report.py *)

Definition route_line (r : RouteRow) : string :=
  ("| " +:+ rr_data_type r +:+ " | " +:+ rr_declared_change r +:+ " | " +:+ rr_scope r +:+ " | " +:+ rr_source_paradigm r +:+ " | " +:+ rr_route r +:+ " | " +:+
   (if rr_agrees r then "yes" else "no") +:+ " |")%string.

Definition placement_row (preloads : gmap (string * string) (Z * Z)) (t : PlacementTally) : res string :=
  let '(preloaded, unused) := default (0, 0) (preloads !! (pt_arm t, pt_source_key t)) in
  stale ← pt_stale_rate t;
  share ← pt_cag_share t;
  Ret ("| " +:+ pt_arm t +:+ " | " +:+ pt_source_key t +:+ " | " +:+ show_Z (pt_probes t) +:+ " | " +:+ show_Z (pt_stale_only t) +:+ " | " +:+ show_Z (pt_mixed t) +:+ " | " +:+
    show_Z (pt_fresh_only t) +:+ " | " +:+ show_Z (pt_neither t) +:+ " | " +:+ _pct stale +:+ " | " +:+ _pct share +:+ " | " +:+ show_Z preloaded +:+ " | " +:+
    show_Z unused +:+ " | " +:+ show_Z (pt_foreign_exposures t) +:+ " |")%string.

Definition migration_row (m : MigrationObservation) : res string :=
  lag ← total_seconds (mo_lag m);
  hours ← fdiv lag (of_Z_raw 3600);
  Ret ("| " +:+ mo_source_key m +:+ " | " +:+ mo_from_route m +:+ " → " +:+ mo_to_route m +:+ " | " +:+ minute_of (mo_shift_at m) +:+ " | " +:+
    minute_of (mo_migrated_at m) +:+ " | " +:+ fixed 1 hours +:+ " h | " +:+ show_Z (mo_preloads_before m) +:+ " | " +:+ show_Z (mo_preloads_after m) +:+ " |")%string.

Definition ttl_row (t : PlacementTally) : string :=
  ("| " +:+ pt_arm t +:+ " | " +:+ pt_source_key t +:+ " | " +:+ show_Z (pt_probes t) +:+ " | " +:+ show_Z (pt_stale_from_cag t) +:+ " |")%string.

Definition render_freshness_measurements (routes : list RouteRow) (tallies : list PlacementTally) (preloads : gmap (string * string) (Z * Z))
    (migrations : list MigrationObservation) (ttl_tallies : list PlacementTally) (notes : string) : res string :=
  placements ← res_mapM (placement_row preloads) tallies;
  moves ← res_mapM migration_row migrations;
  Ret (lines_of (
    ["# Freshness-Aware Data Router — Measurements"; ""; notes; ""; "## Concept 9's freshness spectrum, routed"; "";
     "| Data type | Declared change | Scope | Source's paradigm | Route | Agrees |"; "|---|---|---|---|---|---|"]%string ++
    map route_line routes ++
    [""; "## Placement ablation over 30 simulated days"; "";
     "| Arm | Source | Probes | Stale only | Mixed | Current only | Neither | Stale rate | Served from CAG | Pre-loads | Never-served pre-loads | Foreign exposures |";
     "|---|---|---|---|---|---|---|---|---|---|---|---|"]%string ++
    placements ++
    [""; "## Migration lag"; ""; "| Source | Migration | Pattern shift | Migrated | Lag | Pre-loads before | Pre-loads after |"; "|---|---|---|---|---|---|---|"]%string ++
    moves ++
    [""; "## TTL bound on a silently changed cached source"; ""; "| Arm | Source | Probes | Superseded text served from CAG |"; "|---|---|---|---|"]%string ++
    map ttl_row ttl_tallies) +:+ nl)%string.

(** ** routing_report.py *)

Class StrRepr : Type := str_repr : string → string.

Section routing.
Context `{StrRepr}.

Definition _labels (paradigms : gset Paradigm) : string := join "+" (map upper_paradigm (filter (λ p, p ∈ paradigms) PARADIGM_ORDER)).

Definition metrics_row (nm : string * RoutingMetrics) : res string :=
  let '(name, m) := nm in
  pairs ← res_mapM (λ p, match od_get p (rm_per_paradigm m) with
    | Some pr => Ret (_pct (pr_precision pr) +:+ " / " +:+ _pct (pr_recall pr))%string
    | None => Raise KeyError
    end) PARADIGM_ORDER;
  Ret ("| " +:+ name +:+ " | " +:+ show_Z (rm_count m) +:+ " | " +:+ _pct (rm_exact_match_rate m) +:+ " | " +:+ _pct (rm_coverage_rate m) +:+ " | " +:+
    _pct (rm_confident_rate m) +:+ " | " +:+ join " | " pairs +:+ " | " +:+ fixed 2 (rm_latency_p50_ms m) +:+ " | " +:+ fixed 2 (rm_latency_p95_ms m) +:+ " |")%string.

Definition misrouted_lines (no : string * list RoutingObservation) : list string :=
  let '(name, observed) := no in
  let misrouted := List.filter (λ o, negb (exact_match o)) observed in
  [""; "## Misrouted by " +:+ name +:+ " (" +:+ show_Z (Z.of_nat (length misrouted)) +:+ ")"; ""]%string ++
  match misrouted with
  | [] => ["- none"]%string
  | _ => map (λ o, "- " +:+ str_repr (ro_query o) +:+ ": expected " +:+ _labels (ro_expected o) +:+ ", routed " +:+
      _labels (rd_paradigms (ro_decision o)) +:+ " (" +:+ mode_value (rd_mode (ro_decision o)) +:+ ")")%string misrouted
  end.

Definition render_router_comparison (metrics : list (string * RoutingMetrics)) (observations : list (string * list RoutingObservation)) (notes : string) : res string :=
  rows ← res_mapM metrics_row metrics;
  Ret (lines_of (
    ["# Orchestration Meta-Layer — Router Comparison"; ""; notes; "";
     "| Classifier | Queries | Exact route | Covers needed | Confident | CAG P / R | MAG P / R | RAG P / R | p50 ms | p95 ms |"; "|---|---|---|---|---|---|---|---|---|---|"]%string ++
    rows ++ flat_map misrouted_lines observations) +:+ nl)%string.
End routing.

(** ** Worked examples *)

Example formatted :
  (map (fixed 0) [flit 1 2; flit 3 2; flit 5 2; flit (-1) 4; finf; S754_nan], map (fixed 2) [flit 1 8; flit 2345 1000; flit 99999 1000; fzero],
   signed_fixed 1 (flit 1 20), signed_fixed 1 (flit (-135) 10), percent (flit 2 3), _pct S754_nan, minute_of (days 739616 + 33300000000)) =
  (["0"; "2"; "2"; "-0"; "inf"; "nan"], ["0.12"; "2.35"; "100.00"; "0.00"], "+0.1", "-13.5", "67%", "n/a", "2026-01-01 09:15")%string.
Proof. vm_compute. reflexivity. Qed.

(** ** What a report shows *)

(** A figure is the exact value to the nearest of its last place. *)
Lemma fixed_units places x : finite_unsigned x = true → x ≠ S754_zero true → fixed places x = fixed_digits places (rne (units x * 10 ^ Z.of_nat places) 1074).
Proof.
  unfold finite_unsigned. intros [Hx Hf]%andb_true_iff Hz. destruct x as [[]|[]| |[] m e]; try discriminate Hx; try discriminate Hf; [done|..].
  { cbn [fixed minus units]. by f_equal. }
  cbn [unsigned negb andb] in Hx. destruct (finite_digits m e Hx) as (He & _). cbn [fixed minus units]. f_equal. set (t := 10 ^ Z.of_nat places).
  replace (Z.pos m * 2 ^ (e + 1074) * t) with (Z.pos m * t * 2 ^ (e + 1074)) by lia. destruct (Z.leb_spec 0 e) as [Hp|Hn].
  - rewrite Z.shiftl_mul_pow2, (Z.add_comm e), Z.pow_add_r, (Z.mul_comm (2 ^ 1074)), Z.mul_assoc by lia. symmetry. apply rne_exact. lia.
  - replace 1074 with (- e + (e + 1074)) at 2 by lia. symmetry. apply rne_scale; lia.
Qed.

(** A rate no run measured reads n/a, not a percentage. *)
Lemma unmeasured_rates arm stale fresh mixed : stale_answer_row (mkStaleAnswerTally arm 0 stale fresh mixed) =
  Ret ("| " +:+ arm +:+ " | 0 | " +:+ show_Z stale +:+ " | " +:+ show_Z fresh +:+ " | " +:+ show_Z mixed +:+ " | n/a |")%string.
Proof. reflexivity. Qed.

(** A judge whose replies never parsed shows no score, and why. *)
Lemma unjudged_row `{PyRepr} label reason :
  _score_row label (_parse_failure reason) = ("| " +:+ label +:+ " | — | — | — | — |")%string ∧
  claim_lines label (_parse_failure reason) = Ret [("- ⚠ " +:+ label +:+ ": JUDGE PARSE FAILURE: " +:+ reason)%string].
Proof. split; reflexivity. Qed.
