(* ===== verification/EvalCascade.v ===== *)
(** * Measuring the cascade

    evaluation/scenarios/orchestration-meta-layer/run_cascade_comparison.py: its
    corpus, the tier latencies, the router-off and router-on contexts, the sweep
    of context windows, the retrievers in a parallel route, and the two arms
    compared.  The containers, models and cascades it builds act on one world;
    each of their calls is a parameter, since one embedder or model is reached
    from several of them. *)

From Stdlib Require Import ZArith Lia Ascii String Floats.SpecFloat.
From S2P Require Import Prelude PyFloat PyStr Prompts Json JsonText Entities BudgetAllocator ParadigmRouter RagPorts AssembleContext LatencyCascade RagRetrieval Sessions UnifiedAnswer Serving EvalMetrics EvalRun EvalScenarios EvalReports.

(** ** The corpus *)

Definition _LATENCY_REPEATS : Z := 5.
Definition _COMPARISON_REPEATS : Z := 5.
Definition _ALLOCATOR_WINDOWS : list Z := [1000; 400; 250; 150].
Definition _BUDGETS_MS : gmap Paradigm f64 := {[CAG := of_Z_raw 10; MAG := of_Z_raw 50; RAG := of_Z_raw 2000]}.
Definition _GENEROUS : TierTimeouts := mkTimeouts (of_Z_raw 5) (of_Z_raw 5) (of_Z_raw 10).

Definition _SHIPPING : string :=
  "Standard shipping takes five to seven business days. Expedited shipping arrives within two business days.".
Definition _ACCOUNT : string :=
  "To set up an account, provide your email address and choose a password of at least twelve characters. A verification email is sent immediately after registration.".
Definition _WARRANTY : string := "Every product carries a two-year limited warranty covering manufacturing defects.".

(** What Qdrant holds now, and what is frozen into CAG. *)
Definition _DOCUMENTS : list (string * option string) :=
  [("Our return policy allows customers to return unopened items within forty-five days of purchase for a full refund. The return window was extended to forty-five days today.",
    Some "Our return policy allows customers to return unopened items within thirty days of purchase for a full refund.");
   (_SHIPPING, Some _SHIPPING); (_ACCOUNT, Some _ACCOUNT); (_WARRANTY, Some _WARRANTY);
   ("As of this morning, the blue running shoes are out of stock in sizes 9 and 10, with a restock expected on Friday.", None);
   ("A flash sale today takes 20% off every backpack until midnight.", None)]%string.

Definition _FACTS : list (string * string) :=
  [("preferred_shipping_speed", "The user prefers expedited two-day shipping on every order.");
   ("shoe_size", "The user wears size 10 running shoes.");
   ("loyalty_tier", "The user is a Gold loyalty member.")]%string.

Definition _FRESHNESS_QUERIES : list string :=
  ["What changed in the return policy today?";
   "Has the return window been updated today?";
   "What is the latest return policy?";
   "Did the refund window change recently?";
   "What is the current number of days to return an item?";
   "Is there a new return policy as of today?"]%string.

Definition STALE_MARKER : string := "within thirty days".
Definition FRESH_DAYS : string := "forty-five days".

(** The superseded value is in the frozen copy of the policy and in no current
    document, the current value in the current policy and in nothing frozen. *)
Lemma corpus_tells_versions :
  map (λ d, str_in STALE_MARKER d.1) _DOCUMENTS = repeat false 6 ∧
  map (λ d, str_in FRESH_DAYS d.1) _DOCUMENTS = true :: repeat false 5 ∧
  map (λ d, option_map (str_in STALE_MARKER) d.2) _DOCUMENTS = [Some true; Some false; Some false; Some false; None; None] ∧
  forallb (λ d, negb (default false (option_map (str_in FRESH_DAYS) d.2))) _DOCUMENTS = true.
Proof. vm_compute. repeat split. Qed.

(** ** The stand-ins *)

(** What follows the last [sep] of a text that has one. *)
Fixpoint after_last (sep s : string) : option string :=
  match s with
  | EmptyString => strip_prefix sep EmptyString
  | String _ s' => match after_last sep s' with Some rest => Some rest | None => strip_prefix sep s end
  end.
(** [s.rsplit(sep, 1)[-1]]. *)
Definition rsplit_last (sep s : string) : string := default s (after_last sep s).

Example rsplit_examples :
  map (rsplit_last "Question: ") ["Answer. Question: why? Question: who?"; "Question: "; "no question"]%string = ["who?"; ""; "no question"]%string.
Proof. vm_compute. reflexivity. Qed.

(** HyDE's generator without the generation: it counts its calls. *)
Record FreshPassageChatModel : Type := mkFreshPassage { fp_calls : Z }.

Section passages.
Context `{StrRepr}.

Definition passage (question : string) (draft : Z) : string :=
  ("A confident hypothetical answer to " +:+ str_repr question +:+ ", draft " +:+ show_Z draft +:+ ".")%string.

Definition FreshPassage_complete (prompt : string) : stm FreshPassageChatModel string := λ m,
  let calls := fp_calls m + 1 in (Ret (passage (rsplit_last "Question: " prompt) calls), mkFreshPassage calls).
Definition FreshPassage_generate (question context : string) : stm FreshPassageChatModel string := FreshPassage_complete question.
#[export] Instance fresh_passage_model : ChatModel FreshPassageChatModel :=
  {| cm_generate := FreshPassage_generate; cm_complete := FreshPassage_complete |}.

Lemma same_last_field {A} (x : A) l l' d d' : x ∉ d → x ∉ d' → l ++ x :: d = l' ++ x :: d' → d = d'.
Proof.
  revert l'. induction l as [|a l IH]; intros [|b l'] Hd Hd' Heq; cbn in Heq; apply (f_equal tail) in Heq; cbn [tail] in Heq; [done| | |by eapply IH].
  - subst d. destruct Hd. apply elem_of_app. right. by left.
  - subst d'. destruct Hd'. apply elem_of_app. right. by left.
Qed.

Lemma ascii_list_app a b : list_ascii_of_string (a +:+ b) = list_ascii_of_string a ++ list_ascii_of_string b.
Proof. induction a as [|c a IH]; [done|]. rewrite sapp_cons. cbn [list_ascii_of_string app]. by rewrite IH. Qed.

Lemma digits_no_space s : digits s = true → " "%char ∉ list_ascii_of_string s.
Proof.
  unfold digits. intros [_ Hs]%andb_true_iff. induction s as [|c s IH]; [apply not_elem_of_nil|]. cbn [all_chars] in Hs. apply andb_true_iff in Hs as [Hc Hs].
  cbn [list_ascii_of_string]. apply not_elem_of_cons. split; [by intros <-|by apply IH].
Qed.

(** No two drafts read the same, whatever their questions. *)
Lemma passages_differ q q' n m : 0 ≤ n → 0 ≤ m → passage q n = passage q' m → n = m.
Proof.
  intros Hn Hm Hp. apply (f_equal list_ascii_of_string) in Hp. unfold passage in Hp.
  rewrite !ascii_list_app in Hp. change (list_ascii_of_string ", draft ") with (list_ascii_of_string ", draft" ++ [" "%char]) in Hp.
  change (list_ascii_of_string ".") with ["."%char] in Hp. rewrite !app_assoc in Hp. apply app_inj_tail in Hp as [Hp _]. rewrite <- !app_assoc in Hp. cbn [app] in Hp.
  rewrite !app_assoc in Hp. apply same_last_field in Hp; [|by apply digits_no_space, shown_digits..].
  apply (f_equal string_of_list_ascii) in Hp. rewrite !string_of_list_ascii_of_string in Hp. pose proof (shown_inj n m Hn Hm) as Hi.
  rewrite Hp, String.eqb_refl in Hi. symmetry in Hi. by apply Z.eqb_eq.
Qed.

(** Every call answers what no call before it did, so no cache holds its embedding. *)
Lemma every_passage_is_new prompts m passages m' : 0 ≤ fp_calls m → for_each prompts FreshPassage_complete m = (Ret passages, m') →
  NoDup passages ∧ fp_calls m' = fp_calls m + Z.of_nat (length prompts) ∧ ∀ x, x ∈ passages → ∃ q n, x = passage q n ∧ fp_calls m < n.
Proof.
  revert m passages. induction prompts as [|p prompts IH]; intros m passages Hm; cbn [for_each].
  { intros [= <- <-]. split_and!; [constructor|cbn; lia|]. intros x Hx. by apply not_elem_of_nil in Hx. }
  intros Hall. apply stm_bind_inv in Hall as (x & m1 & Hx & Hall). apply stm_bind_inv in Hall as (xs & m2 & Hxs & Hall).
  injection Hall as <- <-. injection Hx as <- <-. destruct (IH (mkFreshPassage (fp_calls m + 1)) xs) as (Hnd & Hcalls & Hlater); [cbn; lia|done|]. cbn [fp_calls] in *. split_and!.
  - apply NoDup_cons. split; [|done]. intros (q & n & Heq & Hlt)%Hlater. apply passages_differ in Heq; lia.
  - rewrite Hcalls. cbn [length]. lia.
  - intros x [->|(q & n & -> & Hlt)%Hlater]%elem_of_cons; [by exists (rsplit_last "Question: " p), (fp_calls m + 1); split; [|lia]|]. exists q, n. split; [done|lia].
Qed.
End passages.

(** The corpus's chunks, for one tenant; [NotImplementedError] is a RuntimeError. *)
Definition only_reads {A} : stm (list Chunk) A := raise (RuntimeError "the measurement only reads chunks").
#[export] Instance in_memory_chunks : DocumentRepository (list Chunk) := {|
  dr_save_document := λ _, only_reads;
  dr_update_document_status := λ _ _ _, only_reads;
  dr_save_chunks := λ _ _, only_reads;
  dr_get_chunks_for_tenant := λ _, get_st;
  dr_get_chunk_by_id := λ id, chunks ← get_st; mret (List.find (λ c, chunk_id c =? id) chunks) |}.

(** ** The measurements *)

Section measure.
Context {W : Type} (embed raw_embed : string → stm W (list f64)) (perf_counter : stm W f64) `{TokenCounter}
  (tenant_id user_id session_id : uuid).

Definition Classifier : Type := string → list f64 → stm W (gmap Paradigm f64).
Definition Runner : Type := TierRequest → option RoutingDecision → stm W CascadeResult.

Definition request (query : string) (embedding : list f64) : TierRequest := mkRequest tenant_id user_id session_id query embedding.

(** [decide(await classifier.score(query, embedding))]. *)
Definition decide_by (classifier : Classifier) (query : string) (embedding : list f64) : stm W RoutingDecision :=
  scores ← classifier query embedding;
  lift_res (decide_route scores DEFAULT_SELECT_THRESHOLD DEFAULT_UNCERTAINTY_MARGIN).

(** *** Part 1: tier latency, and what embedding a new question costs *)

Definition time_raw_embed (question : string) : stm W f64 :=
  started ← perf_counter;
  raw_embed question;;
  stopped ← perf_counter;
  mret (fmul (fsub stopped started) (of_Z_raw 1000)).

Definition latency_turn (prototype : Classifier) (budgeted : Runner) (question : string) : stm W (f64 * list TierAttempt) :=
  ms ← time_raw_embed question;
  embedding ← embed question;
  decision ← decide_by prototype question embedding;
  result ← budgeted (request question embedding) (Some decision);
  mret (ms, cr_attempts result).

Definition warm_up (run : Runner) (decision : option RoutingDecision) : stm W CascadeResult :=
  embedding ← embed "warm up"; run (request "warm up" embedding) decision.

Definition tier_latency (prototype : Classifier) (budgeted : Runner) (drain : stm W unit) (questions : list string) :
  stm W (list TierLatencySummary * list f64) :=
  warm_up budgeted None;;
  rounds ← for_each (seqZ 0 _LATENCY_REPEATS) (λ _, for_each questions (latency_turn prototype budgeted));
  drain;;
  let turns := concat rounds in
  tiers ← lift_res (summarize_tier_latency (flat_map snd turns) _BUDGETS_MS);
  mret (tiers, sorted_asc id (map fst turns)).

(** *** Part 2: which text reaches the model, router off and on *)

Definition arm_context (generous : Runner) (classifier : option Classifier) (query : string) : stm W string :=
  embedding ← embed query;
  decision ← match classifier with
    | None => mret None
    | Some c => d ← decide_by c query embedding; mret (Some d)
    end;
  result ← generous (request query embedding) decision;
  mret (join nl (map ci_content (cr_items result))).

Definition staleness_arms (lexical prototype : Classifier) : list (string * option Classifier) :=
  [("router off (Concept 5 cascade as drawn)", None); ("router on (lexical)", Some lexical); ("router on (prototype, MiniLM)", Some prototype)]%string.

Definition staleness (generous : Runner) (lexical prototype : Classifier) : stm W (list StaleAnswerTally) :=
  for_each (staleness_arms lexical prototype) (λ arm,
    contexts ← for_each _FRESHNESS_QUERIES (arm_context generous arm.2);
    mret (tally_staleness arm.1 contexts STALE_MARKER FRESH_DAYS)).

(** *** Part 3a: dynamic slices against static ones, across windows *)

Definition sweep_result (generous : Runner) (prototype : Classifier) (question : string) : stm W CascadeResult :=
  embedding ← embed question;
  decision ← decide_by prototype question embedding;
  generous (request question embedding) (Some decision).

(** [sum(d.values())]. *)
Definition sum_values (d : gmap Paradigm Z) : Z := zsum (map snd (map_to_list d)).

(** One result assembled both ways in one window. *)
Definition both_ways (window : Z) (result : CascadeResult) : res (AssembledContext * AssembledContext) :=
  dynamic_allocation ← allocate window (contributing result) DEFAULT_SHARES;
  dynamic ← assemble_context (cr_items result) dynamic_allocation;
  static_allocation ← allocate window (list_to_set PARADIGM_ORDER) DEFAULT_SHARES;
  static ← assemble_context (cr_items result) static_allocation;
  Ret (dynamic, static).

Definition window_tally (sweep_results : list CascadeResult) (window : Z) : res AllocatorTally :=
  turns ← res_mapM (both_ways window) sweep_results;
  let total (count : AssembledContext * AssembledContext → gmap Paradigm Z) := zsum (map (λ t, sum_values (count t)) turns) in
  Ret (mkAllocatorTally window (Z.of_nat (length sweep_results))
    (total (λ t, ac_dropped t.1)) (total (λ t, ac_dropped t.2)) (total (λ t, ac_tokens_used t.1)) (total (λ t, ac_tokens_used t.2))).

Definition allocator_sweep (generous : Runner) (prototype : Classifier) (questions : list string) : stm W (list AllocatorTally) :=
  sweep_results ← for_each questions (sweep_result generous prototype);
  lift_res (res_mapM (window_tally sweep_results) _ALLOCATOR_WINDOWS).

(** *** Every tier at once, one retriever at a time *)

Definition every_tier : RoutingDecision :=
  mkDecision (list_to_set PARADIGM_ORDER) PARALLEL (list_to_map (map (λ p, (p, fone)) PARADIGM_ORDER)).

Definition composition_turn (parallel : Runner) (question : string) : stm W (list TierAttempt) :=
  embedding ← embed question;
  result ← parallel (request question embedding) (Some every_tier);
  mret (cr_attempts result).

(** A composition: its name, a cascade over it, and that cascade's drain. *)
Definition retriever_rows (questions : list string) (compositions : list (string * Runner * stm W unit)) :
  stm W (list (string * list TierLatencySummary)) :=
  for_each compositions (λ composition,
    let '(name, parallel, drain) := composition in
    warm_up parallel (Some every_tier);;
    rounds ← for_each (seqZ 0 _LATENCY_REPEATS) (λ _, for_each questions (composition_turn parallel));
    drain;;
    rows ← lift_res (summarize_tier_latency (concat (concat rounds)) _BUDGETS_MS);
    mret (name, rows)).
End measure.

(** ** What the sweep reports *)

Lemma sum_values_all (m : gmap Paradigm Z) : (∀ p, is_Some (m !! p)) → sum_values m = zsum (map (λ p, default 0 (m !! p)) PARADIGM_ORDER).
Proof.
  intros Hall. unfold sum_values. replace (map (λ p, default 0 (m !! p)) PARADIGM_ORDER) with (map snd (map (λ p, (p, default 0 (m !! p))) PARADIGM_ORDER)) by by rewrite map_map.
  apply zsum_perm, Permutation_map, NoDup_Permutation; [apply NoDup_map_to_list| |].
  - apply (NoDup_fmap_1 fst). rewrite <- list_fmap_compose. apply (bool_decide_unpack _). vm_compute. done.
  - intros [p n]. rewrite elem_of_map_to_list, list_elem_of_fmap. split.
    + intros Hp. exists p. rewrite Hp. split; [done|apply elem_of_PARADIGM_ORDER].
    + intros (q & [= -> ->] & _). destruct (Hall q) as [n Hq]. by rewrite Hq.
Qed.

(** The five slices of a sweep's window, for every set of contributors. *)
Definition slices_within (window : Z) (active : gset Paradigm) : bool :=
  match allocate window active DEFAULT_SHARES with
  | Ret a => (0 <=? ba_cag a) && (0 <=? ba_mag a) && (0 <=? ba_rag a) && (0 <=? ba_query a) && (0 <=? ba_reserve a)
  | Raise _ => false
  end.

Definition contributor_sets : list (gset Paradigm) := [∅; {[CAG]}; {[MAG]}; {[RAG]}; {[CAG; MAG]}; {[CAG; RAG]}; {[MAG; RAG]}; {[CAG; MAG; RAG]}].

Lemma any_contributors (active : gset Paradigm) : active ∈ contributor_sets.
Proof.
  assert (active = list_to_set (filter (λ p, p ∈ active) PARADIGM_ORDER)) as Heq.
  { apply set_eq. intros p. rewrite elem_of_list_to_set, list_elem_of_filter. pose proof (elem_of_PARADIGM_ORDER p). tauto. }
  rewrite Heq. unfold PARADIGM_ORDER. rewrite !filter_cons, filter_nil. repeat case_decide; apply (bool_decide_unpack _); vm_compute; done.
Qed.

Lemma sweep_slices window active : window ∈ _ALLOCATOR_WINDOWS → slices_within window active = true.
Proof.
  assert (forallb (λ w, forallb (slices_within w) contributor_sets) _ALLOCATOR_WINDOWS = true) as Hall by by vm_compute.
  intros Hw. rewrite forallb_forall in Hall. apply list_elem_of_In, Hall in Hw. rewrite forallb_forall in Hw. apply Hw, list_elem_of_In, any_contributors.
Qed.

Section sweep.
Context `{TokenCounterLaws}.

(** A context packed into slices that are never negative holds no more than they do. *)
Lemma assembled_within items al a : assemble_context items al = Ret a → (∀ p, 0 ≤ ba_for al p) →
  sum_values (ac_tokens_used a) ≤ zsum (map (ba_for al) PARADIGM_ORDER).
Proof.
  intros Ha Hal. assert (∀ p, ∃ u, ac_tokens_used a !! p = Some u ∧ u ≤ ba_for al p) as Hp.
  { intros p. destruct (assembled_packed _ _ _ p Ha) as (k & d & u & Hpack & _ & Hu). exists u. split; [done|].
    apply pack_total in Hpack. specialize (Hal p). lia. }
  rewrite sum_values_all; [|intros p; destruct (Hp p) as (u & -> & _); eauto].
  destruct (Hp CAG) as (u1 & Hu1 & ?), (Hp MAG) as (u2 & Hu2 & ?), (Hp RAG) as (u3 & Hu3 & ?). unfold PARADIGM_ORDER, zsum. cbn. rewrite Hu1, Hu2, Hu3. cbn in *. lia.
Qed.

Lemma both_ways_tokens window r dynamic static : window ∈ _ALLOCATOR_WINDOWS → both_ways window r = Ret (dynamic, static) →
  0 ≤ sum_values (ac_tokens_used static) ≤ sum_values (ac_tokens_used dynamic) ∧ sum_values (ac_tokens_used dynamic) ≤ window.
Proof.
  intros Hw Hr. unfold both_ways in Hr. res_inv.
  assert (∀ p, ∃ more less, ac_tokens_used dynamic !! p = Some more ∧ ac_tokens_used static !! p = Some less ∧ 0 ≤ less ≤ more) as Hp.
  { intros p. eapply reallocation_admits_more; [exact default_shares_valid|exact E|exact E1|done..]. }
  split.
  - rewrite !sum_values_all; [|intros p; destruct (Hp p) as (? & ? & ? & ? & _); eauto..].
    destruct (Hp CAG) as (m1 & l1 & Hm1 & Hl1 & ?), (Hp MAG) as (m2 & l2 & Hm2 & Hl2 & ?), (Hp RAG) as (m3 & l3 & Hm3 & Hl3 & ?).
    unfold PARADIGM_ORDER, zsum. cbn. rewrite Hm1, Hl1, Hm2, Hl2, Hm3, Hl3. cbn. lia.
  - pose proof (allocate_total _ _ _ _ E) as Htotal. pose proof (sweep_slices window (contributing r) Hw) as Hs. unfold slices_within in Hs. rewrite E in Hs.
    repeat (apply andb_true_iff in Hs as [Hs ?]). assert (∀ p, 0 ≤ ba_for a p) as Hnn by (intros []; cbn; lia).
    apply (assembled_within _ _ _ E0) in Hnn. unfold ba_total, PARADIGM_ORDER, zsum in *. cbn in Hnn. lia.
Qed.

Lemma zsum_le {A} (f g : A → Z) l : (∀ x, x ∈ l → f x ≤ g x) → zsum (map f l) ≤ zsum (map g l).
Proof.
  induction l as [|x l IH]; intros Hfg; [done|]. unfold zsum in *. cbn. pose proof (Hfg x (list_elem_of_here _ _)).
  assert (∀ y, y ∈ l → f y ≤ g y) as Hl by (intros y Hy; apply Hfg; by right). specialize (IH Hl). lia.
Qed.

Lemma zsum_const {A} (n : Z) (l : list A) : zsum (map (λ _, n) l) = Z.of_nat (length l) * n.
Proof. induction l as [|x l IH]; [done|]. unfold zsum in *. cbn [map foldr length]. rewrite IH. lia. Qed.

(** Whatever the cascade found, in every window of the sweep reallocating the
    idle slices puts at least as many tokens in the prompt as the static slices
    do, over as many turns, and never more than the window has. *)
Theorem sweep_compares_token_use (results : list CascadeResult) tallies : res_mapM (window_tally results) _ALLOCATOR_WINDOWS = Ret tallies →
  map al_window_tokens tallies = _ALLOCATOR_WINDOWS ∧
  Forall (λ t, al_turns t = Z.of_nat (length results) ∧ 0 ≤ al_static_tokens t ≤ al_dynamic_tokens t ∧
    al_dynamic_tokens t ≤ al_turns t * al_window_tokens t) tallies.
Proof.
  intros Ht. assert (∀ w t, window_tally results w = Ret t → al_window_tokens t = w) as Hwin.
  { intros w t Hw. unfold window_tally in Hw. by res_inv. }
  split.
  - rewrite (res_mapM_image _ al_window_tokens id _ _ Hwin Ht). apply map_id.
  - apply list.Forall_forall. intros t (w & Hw & Htally)%(res_mapM_elem _ _ _ _ Ht). pose proof (Hwin _ _ Htally) as Hwt.
    unfold window_tally in Htally. destruct (res_mapM (both_ways w) results) as [turns|e] eqn:Hturns; cbn [mbind res_bind] in Htally; [|done].
    injection Htally as <-. cbn [al_turns al_static_tokens al_dynamic_tokens al_window_tokens]. split; [done|].
    assert (∀ x, x ∈ turns → 0 ≤ sum_values (ac_tokens_used x.2) ≤ sum_values (ac_tokens_used x.1) ∧ sum_values (ac_tokens_used x.1) ≤ w) as Hx.
    { intros [d s] (r & _ & Hr)%(res_mapM_elem _ _ _ _ Hturns). by eapply both_ways_tokens. }
    apply res_mapM_lookup in Hturns as [Hlen _]. rewrite <- Hlen, <- (zsum_const w turns). split_and!.
    + transitivity (zsum (map (λ _ : AssembledContext * AssembledContext, 0) turns)); [rewrite zsum_const; lia|]. apply zsum_le. intros x Hin. by apply Hx.
    + apply zsum_le. intros x Hin. by apply Hx.
    + apply zsum_le. intros x Hin. by apply Hx.
Qed.
End sweep.

(** ** The two arms compared *)

Definition fallback_name (f : RoutingFallback) : string :=
  match f with classifier_timeout => "classifier_timeout" | classifier_error => "classifier_error" end.

(** [repr] of a list of names, and of a list of pairs of them; none has a quote in it. *)
Definition single_quoted (name : string) : string := ("'" +:+ name +:+ "'")%string.
Definition names_repr (names : list string) : string := ("[" +:+ join ", " (map single_quoted names) +:+ "]")%string.
Definition attempts_repr (attempts : list TierAttempt) : string :=
  ("[" +:+ join ", " (map (λ a, "(" +:+ single_quoted (paradigm_value (ta_paradigm a)) +:+ ", " +:+ single_quoted (outcome_value (ta_outcome a)) +:+ ")") attempts) +:+ "]")%string.

(** Alphabetically, which is PARADIGM_ORDER. *)
Definition route_names (decision : option RoutingDecision) : list string :=
  match decision with Some d => map paradigm_value (filter (λ p, p ∈ rd_paradigms d) PARADIGM_ORDER) | None => [] end.

Section compared.
Context {W : Type} `{StrRepr} (last_tokens : stm W (Z * Z))
  (answer_question : uuid → string → stm W ChatAnswer) (unified : uuid → uuid → uuid → string → stm W UnifiedAnswer)
  (tenant_id user_id session_id : uuid).

(** The tokens of the chat model's last call, and the routes seen so far. *)
Abbreviation Arms := (W * list (string * string))%type (only parsing).

Definition baseline (question : string) : stm Arms Answer :=
  result ← on_fst (answer_question tenant_id question);
  tokens ← on_fst last_tokens;
  mret (EvalRun.mkAnswer (ans_answer result) tokens.1 tokens.2 (join (nl +:+ nl) (map sr_content (ans_sources result)))).

Definition route_text (a : UnifiedAnswer) : string :=
  ("routed " +:+ names_repr (route_names (an_decision a)) +:+ ", attempts " +:+ attempts_repr (an_attempts a))%string.

Definition treatment (question : string) : stm Arms Answer :=
  result ← on_fst (unified tenant_id user_id session_id question);
  match an_routing_fallback result with
  | Some fallback => raise (RuntimeError ("routing fell back (" +:+ fallback_name fallback +:+ ") on " +:+ str_repr question))
  | None =>
      on_snd (modify (od_set question (route_text result)));;
      tokens ← on_fst last_tokens;
      mret (EvalRun.mkAnswer (UnifiedAnswer.an_answer result) tokens.1 tokens.2 (join (nl +:+ nl) (map ci_content (an_sources result))))
  end.

(** The notes gain where each question was routed last. *)
Definition with_routes (notes : string) (routes_seen : list (string * string)) : string :=
  (notes +:+ " ROUTES (last repeat): " +:+ join "; " (map (λ qr, str_repr qr.1 +:+ ": " +:+ qr.2) routes_seen))%string.

Definition set_notes (notes : string) (c : ComparisonResult) : ComparisonResult :=
  mkComparison (cm_scenario_name c) (cm_model_config c) (cm_success_criterion c) (cm_rag c) (cm_cag c) (cm_mag c) notes
    (cm_baseline c) (cm_treatment c) (cm_judge_scores c).

(** [dict(zip(questions, SUCCESS_CHECKS, strict=True))], and the check of a question. *)
Fixpoint zip_checks (questions : list string) (checks : list (string → bool)) : res (list (string * (string → bool))) :=
  match questions, checks with
  | [], [] => Ret []
  | q :: qs, c :: cs => rest ← zip_checks qs cs; Ret ((q, c) :: rest)
  | _, _ => Raise (ValueError "zip() arguments have different lengths")
  end.
Definition checks_of `{UnicodeWords, CaseTable} (questions : list string) : res (list (string * (string → bool))) :=
  pairs ← zip_checks questions SUCCESS_CHECKS; Ret (od_of_list pairs).
Definition success_check (checks : list (string * (string → bool))) (question : string) (answer : Answer) : res bool :=
  match od_get question checks with Some c => Ret (c (an_text answer)) | None => Raise KeyError end.

Definition _CAVEATS : string :=
  "CAVEAT 1: judge and generator are both qwen3.5 (self-grading risk, as in every earlier batch). CAVEAT 2: CAG is a CPU distilgpt2 proxy whose lookup, not generation speed, is what the treatment exercises. CAVEAT 3: question 1 is a static policy question, so Concept 1's rule sends it to CAG, which holds the superseded thirty-day policy in this corpus; when CAG answers it alone, the stale value is what the model sees. That is a Sync Mixer failure routing cannot fix, and it is reported, not relabeled.".
Definition SUCCESS_CRITERION : string :=
  "each question's success_criterion in evaluation/scenarios/orchestration-meta-layer/queries.yaml, checked by evaluation/scenarios/orchestration_meta_layer_checks.py".
Definition comparison_notes (treatment_description : string) : string :=
  ("Baseline = RAG-only AnswerQuestion (top_k=3). Treatment = " +:+ treatment_description +:+
   ", with the CAG/MAG/RAG cascade under generous timeouts, the 128K budget allocator, and a real session budget record. " +:+ _CAVEATS)%string.

Context `{PerfCounter W} `{Judge W}.
#[local] Instance arms_clock : PerfCounter Arms := on_fst EvalRun.perf_counter.
#[local] Instance arms_judge : Judge Arms := λ r, on_fst (judge_score r).

(** [routes_seen] starts empty and ends with the comparison. *)
Definition compare (scenario_name : string) (questions gold_passages : list string) (checks : list (string * (string → bool)))
    (treatment_description : string) (drain : stm W unit) : stm W ComparisonResult := λ w,
  let '(r, (w', _)) := (
    comparison ← RunComparison_execute _COMPARISON_REPEATS scenario_name "qwen3.5, Ollama" SUCCESS_CRITERION true true true questions
      baseline treatment (success_check checks) (comparison_notes treatment_description) (Some gold_passages);
    on_fst drain;;
    s ← get_st;
    mret (set_notes (with_routes (cm_notes comparison) s.2) comparison) : stm Arms ComparisonResult) (w, []) in
  (r, w').

(** A fallback is not the arm measured: its answer never counts. *)
Lemma treatment_is_routed question s a s' : treatment question s = (Ret a, s') →
  ∃ result, (unified tenant_id user_id session_id question s.1).1 = Ret result ∧ an_routing_fallback result = None ∧
    an_text a = UnifiedAnswer.an_answer result ∧ od_get question s'.2 = Some (route_text result).
Proof.
  unfold treatment. intros Ht. apply stm_bind_inv in Ht as (result & s1 & Hu & Ht). exists result. unfold on_fst in Hu.
  destruct s as [w routes]. cbn [fst] in Hu |- *. destruct (unified tenant_id user_id session_id question w) as [r w1]. injection Hu as -> <-.
  destruct (an_routing_fallback result); [done|]. apply stm_bind_inv in Ht as (u & s2 & Hset & Ht). apply stm_bind_inv in Ht as (tokens & s3 & Htok & Ht).
  unfold mret, stm_ret in Ht. injection Ht as <- <-. unfold on_snd, modify in Hset. injection Hset as _ <-. unfold on_fst in Htok. cbn [fst snd] in Htok. destruct (last_tokens w1) as [rt w2].
  injection Htok as _ <-. split_and!; [done..|]. cbn [snd]. rewrite od_get_set. by rewrite decide_True.
Qed.
End compared.

(** ** Worked examples *)

(** [n] letters, which [byte_counter] charges [n] tokens. *)
Fixpoint letters (n : nat) : string := match n with O => EmptyString | S n => String "a" (letters n) end.

(** A passage the static slice has no room for, and short ones it does. *)
Definition long_and_short : CascadeResult :=
  mkCascadeResult (mkItem RAG (letters 800) fone None :: repeat (mkItem RAG (letters 60) (flit 1 2) None) 3) [] {[RAG]} false.

(** More tokens may be fewer items: the long passage takes the room of three. *)
Lemma reallocation_may_drop_more :
  window_tally (H := byte_counter) [long_and_short] 1000 = Ret (mkAllocatorTally 1000 1 3 1 800 180).
Proof. vm_compute. reflexivity. Qed.

Lemma sweep_compares_token_use_witness :
  let tallies := [mkAllocatorTally 1000 1 3 1 800 180; mkAllocatorTally 400 1 1 3 180 60; mkAllocatorTally 250 1 1 4 180 0; mkAllocatorTally 150 1 2 4 120 0] in
  map al_window_tokens tallies = _ALLOCATOR_WINDOWS ∧
  Forall (λ t, al_turns t = Z.of_nat (length [long_and_short]) ∧ 0 ≤ al_static_tokens t ≤ al_dynamic_tokens t ∧
    al_dynamic_tokens t ≤ al_turns t * al_window_tokens t) tallies.
Proof. apply (sweep_compares_token_use (H := byte_counter) [long_and_short]). vm_compute. reflexivity. Defined.
