(* ===== verification/EvalAblation.v ===== *)
(** * Thirty simulated days

    evaluation/scenarios/freshness-router/run_freshness_measurements.py: the hourly
    loop of a placement arm (_run_ablation_arm) and of a TTL arm (_run_ttl_arm).
    A rig's operations act on one world, since its stores, cache and cascade share
    an embedder; what they do is Ingestion.v's and EvalScenarios.v's. *)

From Stdlib Require Import ZArith Lia Ascii String Floats.SpecFloat.
From S2P Require Import Prelude PyFloat PyTime PyStr Entities FreshnessRouter Jobs EvalMetrics EvalScenarios.

(** ** Rigs *)

(** What an arm does to its stores: setting the simulated clock, ingesting a text
    (the naive placement or IngestDataSource), replacing one in RAG alone, the
    nightly review and re-warm, one probe, and the cascade's drain. *)
Record Rig (W : Type) : Type := mkRig {
  rg_name : string;
  rg_owner_id : uuid;
  rg_other_id : uuid;
  rg_set_clock : datetime → stm W unit;
  rg_ingest : Feed → string → datetime → option uuid → stm W unit;
  rg_replace : Feed → string → stm W unit;
  rg_review : option (datetime → stm W (list SourceMigration));
  rg_rewarm : datetime → stm W (list string);
  rg_probe : Feed → datetime → uuid → string → list string → stm W ProbeObservation;
  rg_drain : stm W unit
}.
Arguments mkRig {W}. Arguments rg_name {W}. Arguments rg_owner_id {W}. Arguments rg_other_id {W}. Arguments rg_set_clock {W}.
Arguments rg_ingest {W}. Arguments rg_replace {W}. Arguments rg_review {W}. Arguments rg_rewarm {W}. Arguments rg_probe {W}. Arguments rg_drain {W}.

(** The world, and what the arms so far have tracked and migrated. *)
Record ArmState (W : Type) : Type := mkArmState {
  ar_world : W;
  ar_tracker : PreloadTracker;
  ar_migrations : list MigrationObservation
}.
Arguments mkArmState {W}. Arguments ar_world {W}. Arguments ar_tracker {W}. Arguments ar_migrations {W}.

(** [now.hour == 0]. *)
Definition at_midnight (now : datetime) : bool := now mod us_day / us_hour =? 0.
Definition tick_time (tick : Z) : datetime := T0 + tick * HOUR.
(** [range(HORIZON_HOURS + 1)]. *)
Definition TICKS : list Z := seqZ 0 (HORIZON_HOURS + 1).
Definition probed (tick : Z) : bool := tick mod PROBE_EVERY_HOURS =? 0.
Definition source_key (feed : Feed) : string := dp_source_key (fd_profile feed).

(** ** A placement arm *)

Section arm.
Context {W : Type} (rig : Rig W).
Abbreviation Arm := (ArmState W) (only parsing).

Definition on_world {A} (m : stm W A) : stm Arm A := λ s,
  let '(r, w) := m (ar_world s) in (r, mkArmState w (ar_tracker s) (ar_migrations s)).
Definition track_with (f : PreloadTracker → PreloadTracker) : stm Arm unit :=
  modify (λ s, mkArmState (ar_world s) (f (ar_tracker s)) (ar_migrations s)).

(** [feed.text(feed.version_at(now))]. *)
Definition text_at (feed : Feed) (now : datetime) : res string := version ← fd_version_at feed now; fd_text feed version.

Definition fed : list (Feed * option uuid) := map (λ feed, (feed, None)) FEEDS ++ [(SIZE_FEED, Some (rg_owner_id rig))].

Definition ingest_feeds (now : datetime) : stm Arm (list unit) :=
  for_each fed (λ '(feed, user_id),
    content ← lift_res (text_at feed now);
    on_world (rg_ingest rig feed content now user_id)).

Definition observe_migration (now : datetime) (m : SourceMigration) : MigrationObservation :=
  mkMigrationObservation (sm_source_key m) (route_value (sm_from_route m)) (route_value (sm_to_route m))
    (default now (od_get (sm_source_key m) SHIFTS)) now 0 0.

(** What midnight adds: the migrations reviewed, and each re-warmed source's rows. *)
Definition review_sources (now : datetime) : stm Arm unit :=
  match rg_review rig with
  | None => mret tt
  | Some review =>
      found ← on_world (review now);
      modify (λ s, mkArmState (ar_world s) (ar_tracker s) (ar_migrations s ++ map (observe_migration now) found))
  end.

Definition rewarm_sources (now : datetime) : stm Arm unit :=
  keys ← on_world (rg_rewarm rig now);
  _ ← for_each (flat_map _probe_rows keys) (λ row, track_with (preloaded (rg_name rig) row now));
  mret tt.

(** A feed, the user who asks, the row it counts for and the markers foreign to it. *)
Definition probe_plan : list (Feed * uuid * string * list string) :=
  map (λ feed, (feed, rg_owner_id rig, source_key feed, [])) FEEDS ++
  [(SIZE_FEED, rg_owner_id rig, (source_key SIZE_FEED +:+ " (owner)")%string, []);
   (SIZE_FEED, rg_other_id rig, (source_key SIZE_FEED +:+ " (other user)")%string, ["size 10 "; "size 11 "]%string)].

Definition probe_sources (now : datetime) : stm Arm (list ProbeObservation) :=
  probes ← for_each probe_plan (λ '(feed, user_id, row, foreign), on_world (rg_probe rig feed now user_id row foreign));
  _ ← for_each probes (λ o, if po_served_from_cag o then track_with (served (rg_name rig) (po_source_key o)) else mret tt);
  mret probes.

Definition arm_tick (tick : Z) : stm Arm (list ProbeObservation) :=
  let now := tick_time tick in
  on_world (rg_set_clock rig now);;
  ingest_feeds now;;
  (if at_midnight now then review_sources now;; rewarm_sources now else mret tt);;
  (if probed tick then probe_sources now else mret []).

(** The pre-loads of the migrated source on either side of its migration. *)
Definition with_preloads (t : PreloadTracker) (m : MigrationObservation) : MigrationObservation :=
  let '(before, after) := split_at (rg_name rig) (mo_source_key m) (mo_migrated_at m) t in
  mkMigrationObservation (mo_source_key m) (mo_from_route m) (mo_to_route m) (mo_shift_at m) (mo_migrated_at m) before after.

(** [migrations\[first_migration:\]] are this arm's. *)
Definition _run_ablation_arm : stm Arm (list ProbeObservation) :=
  start ← get_st;
  let first_migration := length (ar_migrations start) in
  observations ← for_each TICKS arm_tick;
  on_world (rg_drain rig);;
  modify (λ s, mkArmState (ar_world s) (ar_tracker s)
    (take first_migration (ar_migrations s) ++ map (with_preloads (ar_tracker s)) (drop first_migration (ar_migrations s))));;
  mret (concat observations).

(** ** A TTL arm *)

(** Confirmed every midnight of the first week, changed behind the router's back
    at the start of the second. *)
Definition ttl_tick (tick : Z) : stm W (list ProbeObservation) :=
  let now := tick_time tick in
  rg_set_clock rig now;;
  (if at_midnight now && (now <=? T0 + 6 * DAY)
   then content ← lift_res (fd_text WARRANTY 0); rg_ingest rig WARRANTY content now None else mret tt);;
  (if now =? T0 + 7 * DAY then content ← lift_res (fd_text WARRANTY 1); rg_replace rig WARRANTY content else mret tt);;
  (if at_midnight now then rg_rewarm rig now;; mret tt else mret tt);;
  (if probed tick then o ← rg_probe rig WARRANTY now (rg_owner_id rig) (source_key WARRANTY) []; mret [o] else mret []).

Definition _run_ttl_arm : stm W (list ProbeObservation) :=
  observations ← for_each TICKS ttl_tick;
  rg_drain rig;;
  mret (concat observations).
End arm.

(** The markers the other user must not see are the size feed's two. *)
Lemma size_markers : res_mapM (fd_marker SIZE_FEED) [0; 1] = Ret ["size 10 "; "size 11 "]%string.
Proof. vm_compute. reflexivity. Qed.

Lemma owner_and_other : _probe_rows (source_key SIZE_FEED) = [(source_key SIZE_FEED +:+ " (owner)")%string; (source_key SIZE_FEED +:+ " (other user)")%string].
Proof. vm_compute. reflexivity. Qed.

(** ** Every row is probed on schedule *)

(** What a loop returns, element by element. *)
Lemma yields_each {S A B} (Q : A → B → Prop) (l : list A) (body : A → stm S B) :
  (∀ x, x ∈ l → yields (Q x) (body x)) → yields (Forall2 Q l) (for_each l body).
Proof.
  induction l as [|x l IH]; intros Hb; cbn [for_each]; [by apply yields_ret|].
  eapply yields_bind; [apply Hb; by left|]. intros y Hy. eapply yields_bind; [apply IH; intros z Hz; apply Hb; by right|].
  intros ys Hys. apply yields_ret. by constructor.
Qed.

Lemma yields_on_world {W A} (Q : A → Prop) (m : stm W A) : yields Q m → yields Q (on_world m).
Proof. intros Hm [w t ms]. specialize (Hm w). unfold on_world. cbn [ar_world]. by destruct (m w). Qed.

Lemma yields_then {S A B} (Q : B → Prop) (m : stm S A) (n : stm S B) : yields Q n → yields Q (m;; n).
Proof. intros Hn. eapply yields_bind; [apply yields_any|]. by intros _ _. Qed.

Section schedule.
Context {W : Type} (rig : Rig W).

(** The arm and row an observation is filed under. *)
Definition filed (o : ProbeObservation) : string * string := (po_arm o, po_source_key o).
Context (Hprobe : ∀ feed now user_id row foreign, yields (λ o, filed o = (rg_name rig, row)) (rg_probe rig feed now user_id row foreign)).

Definition plan_rows : list string := map (λ p, p.1.2) (probe_plan rig).

Lemma probe_sources_rows now : yields (λ obs, map filed obs = map (pair (rg_name rig)) plan_rows) (probe_sources rig now).
Proof.
  unfold probe_sources. eapply yields_bind.
  - apply (yields_each (λ p o, filed o = (rg_name rig, p.1.2))). intros [[[feed user] row] foreign] _. apply yields_on_world, Hprobe.
  - intros probes Hrows. apply yields_then, yields_ret. unfold plan_rows. rewrite map_map. induction Hrows as [|p o ps os Hpo _ IH]; [done|].
    cbn [map]. by rewrite Hpo, IH.
Qed.

Lemma arm_tick_rows tick : yields (λ obs, map filed obs = if probed tick then map (pair (rg_name rig)) plan_rows else []) (arm_tick rig tick).
Proof. unfold arm_tick. do 3 apply yields_then. destruct (probed tick); [apply probe_sources_rows|by apply yields_ret]. Qed.

(** An arm that returns probed each of its seven rows 241 times, every three
    hours from the first to the last, in the same order every time. *)
Lemma ablation_probes_on_schedule :
  yields (λ obs, map filed obs = concat (repeat (map (pair (rg_name rig)) plan_rows) 241)) (_run_ablation_arm rig).
Proof.
  unfold _run_ablation_arm. eapply yields_bind; [apply yields_any|]. intros start _.
  eapply yields_bind; [apply (yields_each _ _ _ (λ tick _, arm_tick_rows tick))|]. intros observations Hticks. do 2 apply yields_then. apply yields_ret.
  set (rows := map (pair (rg_name rig)) plan_rows) in *. clearbody rows.
  rewrite concat_map. replace (map (map filed) observations) with (map (λ tick, if probed tick then rows else []) TICKS).
  2: { clear -Hticks. induction Hticks as [|t o ts os Hto _ IH]; [done|]. cbn [map]. by rewrite Hto, IH. }
  vm_compute. reflexivity.
Qed.
End schedule.

(** ** A migration splits its source's pre-loads *)

(** As many serving records as pre-load times, of every row. *)
Definition tracker_even (t : PreloadTracker) : Prop :=
  ∀ k, length (default [] (tr_generations t !! k)) = length (default [] (tr_times t !! k)).

Lemma new_tracker_even : tracker_even new_tracker.
Proof. intros k. unfold new_tracker. cbn. by rewrite !lookup_empty. Qed.

Lemma preloaded_even arm row at_ t : tracker_even t → tracker_even (preloaded arm row at_ t).
Proof.
  intros Ht k. unfold preloaded. cbn [tr_generations tr_times]. destruct (decide (k = (arm, row))) as [->|Hne].
  - rewrite !lookup_insert_eq. cbn. rewrite !length_app, (Ht (arm, row)). done.
  - rewrite !lookup_insert_ne by done. apply Ht.
Qed.

Lemma served_even arm row t : tracker_even t → tracker_even (served arm row t).
Proof.
  intros Ht k. unfold served. destruct (tr_generations t !! (arm, row)) as [[|g gs]|] eqn:Hg; [apply Ht| |apply Ht].
  cbn [tr_generations tr_times]. destruct (decide (k = (arm, row))) as [->|Hne].
  - rewrite lookup_insert_eq, <- (Ht (arm, row)), Hg. cbn [default id]. rewrite length_app, length_take. cbn [length]. lia.
  - rewrite lookup_insert_ne by done. apply Ht.
Qed.

Section account.
Context {W : Type} (rig : Rig W) (earlier : list MigrationObservation).

Definition arm_ok (s : ArmState W) : Prop := (∃ later, ar_migrations s = earlier ++ later) ∧ tracker_even (ar_tracker s).

Lemma preserves_each {S A B} (I : S → Prop) (l : list A) (body : A → stm S B) : (∀ x, preserves I (body x)) → preserves I (for_each l body).
Proof. intros Hb. induction l as [|x l IH]; cbn [for_each]; auto with invariants. Qed.

Lemma on_world_ok {A} (m : stm W A) : preserves arm_ok (on_world m).
Proof. intros [w t ms] Hs. unfold on_world. cbn [ar_world]. by destruct (m w). Qed.

Lemma track_with_ok f : (∀ t, tracker_even t → tracker_even (f t)) → preserves arm_ok (track_with f).
Proof. intros Hf s [Hm Ht]. split; [done|]. cbn. by apply Hf. Qed.

Hint Resolve preserves_each on_world_ok track_with_ok preloaded_even served_even : invariants.

Lemma review_sources_ok now : preserves arm_ok (review_sources rig now).
Proof.
  unfold review_sources. destruct (rg_review rig) as [review|]; [|apply preserves_ret]. apply preserves_bind; [apply on_world_ok|].
  intros found s [[later Hl] Ht]. split; [|done]. cbn. rewrite Hl, <- app_assoc. eauto.
Qed.

Lemma arm_tick_ok tick : preserves arm_ok (arm_tick rig tick).
Proof.
  unfold arm_tick, ingest_feeds, rewarm_sources, probe_sources. pose proof (review_sources_ok (tick_time tick)).
  apply preserves_bind; [auto with invariants|]. intros _. apply preserves_bind; [apply preserves_each; intros [feed user]; auto with invariants|].
  intros _. apply preserves_bind; [destruct (at_midnight _); eauto 10 with invariants|].
  intros _. destruct (probed tick); [|auto with invariants]. apply preserves_bind.
  - apply preserves_each. intros [[[feed user] row] foreign]. auto with invariants.
  - intros probes. apply preserves_bind; [|auto with invariants]. apply preserves_each. intros o. destruct (po_served_from_cag o); auto with invariants.
Qed.
End account.

(** What earlier arms observed stands as it was; of each migration of this arm,
    the pre-loads before and after it are all the report counts of its source. *)
Lemma migrations_split_their_preloads {W} (rig : Rig W) s obs s' : tracker_even (ar_tracker s) → _run_ablation_arm rig s = (Ret obs, s') →
  tracker_even (ar_tracker s') ∧ ∃ new, ar_migrations s' = ar_migrations s ++ new ∧
    Forall (λ m, mo_preloads_before m + mo_preloads_after m = (counts (rg_name rig) (mo_source_key m) (ar_tracker s')).1 ∧
      0 ≤ mo_preloads_before m ∧ 0 ≤ mo_preloads_after m) new.
Proof.
  intros Ht Hrun. unfold _run_ablation_arm in Hrun. apply stm_bind_inv in Hrun as (start & s0 & Hstart & Hrun). injection Hstart as <- <-.
  apply stm_bind_inv in Hrun as (observations & s1 & Hticks & Hrun). apply stm_bind_inv in Hrun as (u & s2 & Hdrain & Hrun).
  apply stm_bind_inv in Hrun as (u' & s3 & Hset & Hrun). injection Hset as _ <-. injection Hrun as _ <-.
  assert (arm_ok (ar_migrations s) s2) as [[later Hlater] Heven].
  { pose proof (on_world_ok (ar_migrations s) (rg_drain rig) s1) as Hd. rewrite Hdrain in Hd. apply Hd.
    pose proof (preserves_each (arm_ok (ar_migrations s)) TICKS (arm_tick rig) (arm_tick_ok rig _) s) as Hl. rewrite Hticks in Hl. apply Hl.
    split; [exists []; by rewrite app_nil_r|done]. }
  cbn [ar_tracker ar_migrations]. split; [done|]. rewrite Hlater, take_app_length, drop_app_length. eexists. split; [reflexivity|].
  apply list.Forall_forall. intros m (m0 & -> & _)%list_elem_of_fmap. unfold with_preloads, split_at, counts. cbn [mo_source_key mo_preloads_before mo_preloads_after fst].
  rewrite (Heven (rg_name rig, mo_source_key m0)). set (times := default [] _).
  pose proof (List.filter_length_le (λ at_, at_ <? mo_migrated_at m0) times). unfold count_if. lia.
Qed.

(** ** A worked example *)

(** A rig of one cached source that migrates on the second night. *)
Definition small_rig : Rig unit := {|
  rg_name := "freshness-aware";
  rg_owner_id := 1;
  rg_other_id := 2;
  rg_set_clock _ := mret tt;
  rg_ingest _ _ _ _ := mret tt;
  rg_replace _ _ := mret tt;
  rg_review := Some (λ now, mret (if now =? T0 + DAY then [mkSourceMigration "flash-sale" RAG_ONLY CAG_WITH_RAG_BACKUP DAY] else []));
  rg_rewarm now := mret (if now <=? T0 + DAY then ["flash-sale"; "size-preference"]%string else []);
  rg_probe feed now user_id row foreign := mret (mkProbeObservation "freshness-aware" row "" "x" [] (String.eqb row "flash-sale") foreign);
  rg_drain := mret tt |}.

Example small_arm :
  let '(r, s) := _run_ablation_arm small_rig (mkArmState tt new_tracker []) in
  (match r with Ret obs => Some (length obs) | Raise _ => None end, ar_migrations s, counts "freshness-aware" "flash-sale" (ar_tracker s),
   counts "freshness-aware" "size-preference (other user)" (ar_tracker s)) =
  (Some 1687%nat, [mkMigrationObservation "flash-sale" "rag_only" "cag_with_rag_backup" (T0 + 4 * DAY) (T0 + DAY) 1 1], (2, 0), (2, 2)).
Proof. vm_compute. reflexivity. Qed.
