(* ===== verification/ModelServers.v ===== *)
(** * Model clients and inference servers

    rag/infrastructure/ollama_chat_model.py and claude_chat_model.py, and of
    cag/infrastructure vllm_completion_client.py, vllm_metrics_client.py and
    medusa_candidate_generator.py.  The servers behind them are parameters: what a
    chat call, an HTTP request or a forward pass answers. *)

From Stdlib Require Import ZArith Lia Ascii String Floats.SpecFloat.
From S2P Require Import Prelude PyFloat PySeq PyStr Prompts Json MagDomain LlmJson RagPorts SpeculativeDecode MemoryIndexes EvalMetrics.

(** ** Chat models *)

(** A message: its role and its content. *)
Definition message : Type := string * string.

Definition context_question (question context : string) : string :=
  ("Context:" +:+ nl +:+ context +:+ nl +:+ nl +:+ "Question: " +:+ question)%string.

(** What an Ollama server answers: the content, and the tokens it read and wrote
    when it says so. *)
Record OllamaResponse : Type := mkOllamaResponse {
  ch_content : option string;
  ch_prompt_eval_count : option Z;
  ch_eval_count : option Z
}.

Class OllamaServer (S : Type) : Type := ollama_messages : list message → stm S OllamaResponse.

Record OllamaChatModel (S : Type) : Type := mkOllamaChatModel {
  oc_server : S;
  last_input_tokens : Z;
  last_output_tokens : Z
}.
Arguments mkOllamaChatModel {S}. Arguments oc_server {S}. Arguments last_input_tokens {S}. Arguments last_output_tokens {S}.

Section ollama.
Context {S : Type} `{OllamaServer S}.

Definition OllamaChatModel_init (server : S) : OllamaChatModel S := mkOllamaChatModel server 0 0.

Definition on_server {A} (m : stm S A) : stm (OllamaChatModel S) A := λ s,
  let '(r, server) := m (oc_server s) in (r, mkOllamaChatModel server (last_input_tokens s) (last_output_tokens s)).

Definition _record_token_counts (r : OllamaResponse) : stm (OllamaChatModel S) unit :=
  modify (λ s, mkOllamaChatModel (oc_server s) (default 0 (ch_prompt_eval_count r)) (default 0 (ch_eval_count r))).

Definition ollama_ask (messages : list message) : stm (OllamaChatModel S) string :=
  response ← on_server (ollama_messages messages);
  _record_token_counts response;;
  mret (default EmptyString (ch_content response)).

Definition Ollama_generate (question context : string) : stm (OllamaChatModel S) string :=
  ollama_ask [("system", ANSWER_SYSTEM_PROMPT); ("user", context_question question context)]%string.
Definition Ollama_complete (prompt : string) : stm (OllamaChatModel S) string := ollama_ask [("user", prompt)]%string.

#[export] Instance ollama_chat_model : ChatModel (OllamaChatModel S) := {| cm_generate := Ollama_generate; cm_complete := Ollama_complete |}.

(** The counts a caller reads are those of the last call that was answered. *)
Lemma counts_of_last_call messages s :
  match on_server (ollama_messages messages) s with
  | (Ret r, s') => ollama_ask messages s = (Ret (default EmptyString (ch_content r)),
      mkOllamaChatModel (oc_server s') (default 0 (ch_prompt_eval_count r)) (default 0 (ch_eval_count r)))
  | (Raise e, s') => ollama_ask messages s = (Raise e, s') ∧ last_input_tokens s' = last_input_tokens s ∧ last_output_tokens s' = last_output_tokens s
  end.
Proof.
  unfold ollama_ask, _record_token_counts, mbind, stm_bind, modify, on_server, mret, stm_ret.
  by destruct (ollama_messages messages (oc_server s)) as [[r|e] server].
Qed.
End ollama.

(** A Claude server: an optional system prompt and the messages to content
    blocks, each a type and a text. *)
Class ClaudeServer (S : Type) : Type := claude_messages : option string → list message → stm S (list (string * string)).

Section claude.
Context {S : Type} `{ClaudeServer S}.

Definition first_text_block (content : list (string * string)) : string :=
  match List.find (λ block, String.eqb block.1 "text") content with Some block => block.2 | None => EmptyString end.

Definition Claude_generate (question context : string) : stm S string :=
  content ← claude_messages (Some ANSWER_SYSTEM_PROMPT) [("user", context_question question context)]%string;
  mret (first_text_block content).
Definition Claude_complete (prompt : string) : stm S string :=
  content ← claude_messages None [("user", prompt)]%string;
  mret (first_text_block content).
Definition claude_chat_model : ChatModel S := {| cm_generate := Claude_generate; cm_complete := Claude_complete |}.

(** Thinking comes before the answer: blocks that are not text are passed over. *)
Lemma first_text_after thinking t rest : Forall (λ b, b.1 ≠ "text"%string) thinking → first_text_block (thinking ++ ("text"%string, t) :: rest) = t.
Proof.
  induction 1 as [|b bs Hb _ IH]; [done|]. unfold first_text_block in *. cbn [app List.find]. destruct (String.eqb_spec b.1 "text"); [done|exact IH].
Qed.
End claude.

(** ** The vLLM completion client *)

Record HttpResponse : Type := mkHttpResponse { ht_status : Z; ht_text : string }.

Class HttpServer (S : Type) : Type := {
  http_post : string → json → stm S HttpResponse;
  http_get : string → stm S HttpResponse;
  http_clock : stm S f64
}.

Definition raise_for_status {S} (r : HttpResponse) : stm S unit :=
  if (200 <=? ht_status r) && (ht_status r <? 300) then mret tt else raise (BackendError "HTTPStatusError").

(** [url.rstrip("/")]. *)
Definition rstrip_slash (url : string) : string := rev_string (lstrip_chars "/" (rev_string url)).

Section vllm.
Context {S : Type} `{HttpServer S} `{PyRepr} (base_url model : string).

Definition completions (fields : list (string * json)) : stm S json :=
  response ← http_post (rstrip_slash base_url +:+ "/v1/completions")%string (JObj (("model", JStr model) :: fields)%string);
  raise_for_status response;;
  lift_res (json_loads (ht_text response)).

(** [v\[i\]] of a parsed value by an index. *)
Definition json_at (v : json) (i : Z) : res json :=
  match v with
  | JList l => py_index i l
  | JStr s => (λ c, JStr (utf8_encode c)) <$> py_index i (code_points s)
  | JObj _ => Raise KeyError
  | _ => Raise (TypeError "not subscriptable")
  end.

Definition vllm_complete (prompt : string) (max_tokens : Z) : stm S string :=
  parsed ← completions [("prompt", JStr prompt); ("max_tokens", JInt max_tokens); ("temperature", JFloat fzero)]%string;
  lift_res (choices ← json_item parsed "choices"; choice ← json_at choices 0; py_str <$> json_item choice "text").

Definition complete_timed (prompt : string) (max_tokens : Z) : stm S (string * f64) :=
  start ← http_clock;
  text ← vllm_complete prompt max_tokens;
  stop ← http_clock;
  mret (text, fsub stop start).

(** The thread pool runs every prompt; [order] is the order in which the calls
    reach the server.  The texts come back in the prompts' own order, and the
    first prompt that failed raises, once every call has ended. *)
Definition attempt {A} (m : stm S A) : stm S (res A) := λ s, let '(r, s') := m s in (Ret r, s').

Definition complete_concurrent_timed (order : list nat) (prompts : list string) (max_tokens : Z) : stm S (list string * f64) :=
  start ← http_clock;
  match prompts with
  | [] => raise (ValueError "max_workers must be greater than 0")
  | _ =>
      outcomes ← for_each order (λ i : nat, outcome ← attempt (vllm_complete (default EmptyString (prompts !! i)) max_tokens); mret (i, outcome));
      texts ← lift_res (res_mapM (λ i : nat, default (Raise IndexError) (od_get i outcomes)) (seq 0 (length prompts)));
      stop ← http_clock;
      mret (texts, fsub stop start)
  end.

(** What a loop over a parsed value's items goes over. *)
Definition json_items (v : json) : res (list json) :=
  match v with
  | JList l => Ret l
  | JObj o => Ret (map (λ kv, JStr kv.1) o)
  | JStr s => Ret (map (λ c, JStr (utf8_encode c)) (code_points s))
  | _ => Raise (TypeError "not iterable")
  end.

Definition complete_many_timed (prompt : string) (max_tokens n : Z) : stm S (list string * f64) :=
  start ← http_clock;
  response ← http_post (rstrip_slash base_url +:+ "/v1/completions")%string
    (JObj [("model", JStr model); ("prompt", JStr prompt); ("max_tokens", JInt max_tokens); ("temperature", JFloat fone); ("n", JInt n)]%string);
  raise_for_status response;;
  stop ← http_clock;
  texts ← lift_res (parsed ← json_loads (ht_text response); choices ← json_item parsed "choices" ≫= json_items;
    res_mapM (λ choice, py_str <$> json_item choice "text") choices);
  mret (texts, fsub stop start).

(** ** The vLLM metrics client *)

(** A line's series name and its last field. *)
Definition series_name (line : string) : string := (partition " " (partition "{" line).1).1.
Definition last_field (line : string) : string := rev_string (partition " " (rev_string line)).1.

Definition names_metric (metric_name line : string) : bool :=
  negb (startswith "#" line) && (String.eqb (series_name line) metric_name || String.eqb (series_name line) (metric_name +:+ "_total")).

(** The loop over the lines: the total so far and whether any line counted. *)
Fixpoint sum_lines (metric_name : string) (lines : list string) (total : f64) (found : bool) : res (f64 * bool) :=
  match lines with
  | [] => Ret (total, found)
  | line :: rest =>
      if names_metric metric_name line
      then value ← float_of_string (last_field line); sum_lines metric_name rest (fadd total value) true
      else sum_lines metric_name rest total found
  end.

Definition _sum_metric (metric_name : string) : stm S f64 :=
  response ← http_get (rstrip_slash base_url +:+ "/metrics")%string;
  raise_for_status response;;
  '(total, found) ← lift_res (sum_lines metric_name (splitlines (ht_text response)) fzero false);
  if found : bool then mret total else raise (ValueError "metric not found in /metrics output").

Definition prompt_tokens_total : stm S f64 := _sum_metric "vllm:prompt_tokens".
Definition kv_cache_usage : stm S f64 := _sum_metric "vllm:kv_cache_usage_perc".
Definition prefix_cache_queries_total : stm S f64 := _sum_metric "vllm:prefix_cache_queries".
Definition prefix_cache_hits_total : stm S f64 := _sum_metric "vllm:prefix_cache_hits".

(** *** What they answer *)

(** Every text of a burst is the server's own answer to its prompt. *)
Lemma concurrent_texts order prompts max_tokens s texts elapsed s' :
  complete_concurrent_timed order prompts max_tokens s = (Ret (texts, elapsed), s') →
  length texts = length prompts ∧
  ∀ (i : nat) text, texts !! i = Some text → ∃ prompt s1, prompts !! i = Some prompt ∧ (vllm_complete prompt max_tokens s1).1 = Ret text.
Proof.
  unfold complete_concurrent_timed, mbind, stm_bind, lift_res, mret, stm_ret. destruct (http_clock s) as [[start|e] s1]; [|done].
  destruct prompts as [|p ps]; [done|]. set (prompts := p :: ps). destruct (for_each order _ s1) as [[outcomes|e] s2] eqn:Hf; [|done].
  destruct (res_mapM _ (seq 0 (length prompts))) as [ts|e] eqn:Ht; [|done]. destruct (http_clock s2) as [[stop|e] s3]; [|done]. intros [= <- _ _].
  assert (∀ (i : nat) out, od_get i outcomes = Some out → ∃ st, out = (vllm_complete (default EmptyString (prompts !! i)) max_tokens st).1) as Hout.
  { clear Ht. revert s1 outcomes Hf. induction order as [|j order IH]; intros s1 outcomes; cbn [for_each]; [by intros [= <- _]|].
    unfold mbind, stm_bind, attempt, mret, stm_ret in *. destruct (vllm_complete _ _ s1) as [r s4] eqn:Hr. destruct (for_each order _ s4) as [[rest|e] s5] eqn:Hrest; [|done].
    intros [= <- ->] i out. rewrite od_get_cons. destruct (decide (j = i)) as [->|]; [|by apply (IH _ _ Hrest)]. intros [= <-]. exists s1. by rewrite Hr. }
  apply res_mapM_lookup in Ht as [Hlen Hall]. rewrite length_seq in Hlen. split; [done|]. intros i text Hi.
  assert (i < length prompts)%nat as Hlt by (rewrite <- Hlen; by eapply lookup_lt_Some).
  destruct (Hall i i) as (t & Hti & Hdef); [apply lookup_seq; lia|]. assert (t = text) as -> by congruence.
  destruct (od_get i outcomes) as [out|] eqn:Hg; [|done]. cbn in Hdef. destruct (Hout i out Hg) as [st Hst]. destruct (lookup_lt_is_Some_2 prompts i Hlt) as [prompt Hp].
  exists prompt, st. rewrite Hp in Hst. cbn in Hst. split; [done|]. by rewrite <- Hst.
Qed.

(** The sum of every matching series, in the order of the lines; an absent
    metric is not a zero. *)
Lemma sum_lines_spec metric_name lines total found : sum_lines metric_name lines total found =
  values ← res_mapM (λ line, float_of_string (last_field line)) (List.filter (names_metric metric_name) lines);
  Ret (foldl fadd total values, found || existsb (names_metric metric_name) lines).
Proof.
  revert total found. induction lines as [|line lines IH]; intros total found; cbn [sum_lines List.filter existsb res_mapM]; [by rewrite orb_false_r|].
  destruct (names_metric metric_name line); cbn [orb res_mapM]; [|by rewrite IH].
  destruct (float_of_string (last_field line)) as [v|e]; cbn [mbind res_bind]; [|done]. rewrite IH. destruct (res_mapM _ _) as [vs|e]; cbn [mbind res_bind foldl]; [|done].
  by rewrite orb_true_r.
Qed.
End vllm.

(** ** Medusa *)

(** A forward pass to the last hidden state, the language model's head, and
    [torch.argmax]. *)
Class MedusaModel : Type := {
  Hidden : Type;
  last_hidden : list Z → res Hidden;
  lm_head : Hidden → list f64;
  torch_argmax : list f64 → Z
}.

Section medusa.
Context `{MedusaModel}.

Record MedusaCandidateGenerator : Type := mkMedusa { md_heads : list (Hidden → list f64) }.

(** Every head a copy of the model's own. *)
Definition Medusa_init (num_heads : Z) : MedusaCandidateGenerator := mkMedusa (map (λ _, lm_head) (seqZ 0 num_heads)).

Definition Medusa_propose (prompt_tokens generated_tokens : list Z) (num_candidates : Z) : stm MedusaCandidateGenerator (list Z) := λ g,
  (match prompt_tokens ++ generated_tokens with
   | [] => Ret []
   | context =>
       hidden_state ← last_hidden context;
       Ret (map (λ head, torch_argmax (head hidden_state)) (py_slice 0 (Z.min num_candidates (Z.of_nat (length (md_heads g)))) (md_heads g)))
   end, g).
#[export] Instance medusa_candidate_generator : CandidateGenerator MedusaCandidateGenerator := Medusa_propose.

(** Untrained heads all propose the model's next token. *)
Lemma medusa_repeats num_heads prompt generated n hidden : 0 ≤ num_heads → 0 ≤ n → prompt ++ generated ≠ [] → last_hidden (prompt ++ generated) = Ret hidden →
  Medusa_propose prompt generated n (Medusa_init num_heads) =
    (Ret (replicate (Z.to_nat (Z.min n num_heads)) (torch_argmax (lm_head hidden))), Medusa_init num_heads).
Proof.
  intros Hh Hn Hne Hhid. unfold Medusa_propose, Medusa_init. cbn [md_heads]. f_equal. destruct (prompt ++ generated) as [|t ts]; [done|]. rewrite Hhid. cbn [mbind res_bind]. f_equal.
  rewrite length_map, length_seqZ, Z2Nat.id by done. unfold py_slice, clamp. rewrite length_map, length_seqZ, Z2Nat.id by done.
  rewrite (proj2 (Z.ltb_ge (Z.min n num_heads) 0)) by lia. cbn [Z.ltb Z.compare]. replace (Z.min (Z.min n num_heads) num_heads - Z.min 0 num_heads) with (Z.min n num_heads) by lia.
  replace (Z.min 0 num_heads) with 0 by lia. rewrite drop_0. clear -Hh Hn.
  assert (∀ l : list Z, map (λ head : Hidden → list f64, torch_argmax (head hidden)) (take (Z.to_nat (Z.min n num_heads)) (map (λ _, lm_head) l)) =
    replicate (Z.to_nat (Z.min n num_heads) `min` length l) (torch_argmax (lm_head hidden))) as Hrep.
  { generalize (Z.to_nat (Z.min n num_heads)) as k. induction k as [|k IH]; intros [|z l]; cbn; try done. by f_equal. }
  rewrite Hrep, length_seqZ. f_equal. lia.
Qed.
End medusa.

(** ** Worked examples *)

Definition scrape : string := ("# TYPE vllm:prompt_tokens counter" +:+ nl +:+ "vllm:prompt_tokens_total{model=a} 3.0" +:+ nl +:+
  "vllm:prompt_tokens_total{model=b} 4.5" +:+ nl +:+ "vllm:prompt_tokens_created 9" +:+ nl)%string.

Example scraped : (sum_lines "vllm:prompt_tokens" (splitlines scrape) fzero false, sum_lines "vllm:absent" (splitlines scrape) fzero false) =
  (Ret (flit 15 2, true), Ret (fzero, false)).
Proof. vm_compute. reflexivity. Qed.
